(* ===== verification/_CoqProject ===== *)
-Q . S2P
Prelude.v
Wp.v
Bits.v
CString.v
Zmalloc.v
Fifo.v
CircQueue.v
BlockQueue.v
LockFree.v
Log.v
Buffer.v
Define.v
Logger.v
Proto.v
Protocol.v
LuaNet.v
Ae.v
AeEpoll.v
AeSelect.v
AeKqueue.v
AeEvport.v
AeBackends.v
Socket.v
Tcp.v
NetProps.v
Session.v
GenTcp.v
SessionProps.v
Anet.v
Module.v
Context.v
WorkerPool.v
Blocks.v
Worker.v
EventMsgQueue.v
TcpLoop.v
Dict.v
DictIter.v
DictScan.v
AdList.v
Timer.v
NameMgr.v
Seri.v
SeriChain.v
Cmd.v
LuaApi.v
Env.v
ZMysql.v
Zlua.v
LuaDir.v
Lifecycle.v
Main.v
Server.v
EndToEnd.v
GprofHelper.v
