(* ===== verification/Prelude.v ===== *)
(** * Verification of the [z] actor server

    [z] runs many small actors ("contexts") on a pool of worker threads and
    serves TCP connections and timers on event-loop threads.  A context owns a
    queue of messages; sending puts a message on the target's queue and, unless
    the target is already scheduled, the target on the global queue; a worker
    takes a context from there and runs its messages one by one.  Socket work is
    posted to the event-loop thread, which reads the connections, cuts the byte
    stream into messages and sends them to the contexts that own the sockets.

    This library models that core, translated from [src/src],
    [src/service-src] and [src/lualib-src], and proves the
    properties that make it correct.  Where the code does not have the property
    it means to have, the failure is proved instead, by a run of the model.

    ** The files and the code they model

    - [Prelude]: outcomes and faults of C code, machine-width integers, arrays
      with bounds checks, a state monad, the tactics and hints all files share.
    - [Wp]: postconditions of stateful code, one rule per statement.
    - [CString]: the functions of the C library on strings that the code calls.
    - [Zmalloc]: [zmalloc.c]: allocation and the count of used memory; jemalloc is
      an interface ([Malloc], [MallocLaws]) with an instance.
    - [Bits], [CircQueue]: [circqueue.c], a growable ring of pointers.
    - [Fifo]: the interface every queue implements; [BlockQueue], [Context],
      [WorkerPool] and [EventMsgQueue] are proved against it, and
      [LockFree] provides the instance the server runs with.
    - [BlockQueue]: [queue.c], [blockqueue.c], [globalqueue.c], with the condition
      variable as a step relation over threads.
    - [LockFree]: [arraylockfreequeue.c], [contextqueue.c], [messagequeue.c]: one
      array queue with three counters, in two readings: one step per shared
      access, for any number of threads ([lstep]), and as functions for a caller
      that runs alone ([lfPush], [lfPop]).
    - [Log], [Logger]: [log.c] and [service-src/service_logger.c]: the log of the server
      with its thread, and the logger actor; files are a map from paths to texts.
    - [Define]: the constants of [define.h] and the message types.
    - [Buffer], [Proto], [Protocol]: [buffer.c], [proto.c], [protocol.c]: byte
      buffers and the framing of the stream.
    - [Ae]: [ae.c]: descriptors, time events, one round of the loop, over an interface
      of the back end ([AeApi], [AeApiLaws]), which all clients are proved against.
    - [AeEpoll], [AeSelect], [AeKqueue], [AeEvport]: the four back ends as instances of
      it, each over the documented laws of its system calls ([EpollLaws], ...) with a
      model of them; [AeBackends] compares them.
    - [Socket], [Tcp], [NetProps]: [socket.c], [tcp.c] and their properties.
    - [Session], [GenTcp], [SessionProps]: [session.c], [tcp_server.c], [tcp_client.c]
      and [gen_tcp.c], the generic layer that main.c does not start: sessions on a
      heap, pointed to by a table, the event loop and timers.
    - [Anet]: [anet.c] over an interface of the system calls ([Sys], [SysLaws]) with
      an instance.
    - [Module]: [module.c]: the search of a module's file, the table of modules; the
      dynamic loader and the modules are parameters.
    - [Context]: [context.c], [ctx_mgr.c]: contexts on a heap, the table by id.
    - [WorkerPool]: [worker_pool.c], as a function ([workerPoolSend]) and as
      threads whose steps are the shared accesses ([wstep], [wexec]).
    - [Blocks]: the data of messages as blocks of memory, on the threads of
      [WorkerPool]: who frees them.
    - [Worker]: [worker.c], which is not built: a worker asleep on a condition variable.
    - [EventMsgQueue]: [event_msgqueue.c]: the queue in front of a loop thread.
    - [TcpLoop]: [tcp.c] at work: services, the message queue, the event-loop thread and
      the handlers of [Socket] as one step relation ([tnext]).
    - [Dict]: [dict.c]: hash tables with incremental rehashing.
    - [DictIter]: iterators, in loops whose body changes the dictionary.
    - [DictScan]: the cursors of [dictScan] across changes of the dictionary.
    - [AdList]: [adlist.c]: doubly linked lists as nodes on a heap.
    - [Timer]: [timer.c], on [Ae] and [Dict].
    - [NameMgr]: [name_mgr.c]: names of contexts, on [Dict] and [Context].
    - [Cmd]: [z.c]: the text commands, on [WorkerPool] and [Timer].
    - [LuaApi]: [lualib-src/lua-z.c] and [service-src/service_zlua.c]: the 22 functions a
      Lua script sees and the Init of a Lua actor, on all of the above, [Seri] and
      [LuaNet].  The Init of a module is a computation of the whole server, which
      [ctxMgrCreateContext] runs on the new context.
    - [Zlua]: [service_zlua.c]: the interpreter of a Lua actor, prepared from the
      settings; the callback that lua-z.c keeps on its stack.
    - [LuaNet]: [lualib-src/lua-z.c], the packing of remote calls, over [Proto].
    - [Seri]: [lualib-src/lua-seri.c]: Lua values as bytes, written into a chain of
      blocks and read from one; [SeriChain]: the chain as an input.
    - [ZMysql], [LuaDir]: [lualib-src/lua-zmysql.c], [lualib-src/lua-dir.c]: connections
      and directory streams held by Lua values, over interfaces of the libraries.
    - [Env]: [env.c]: the settings, over an interface of the interpreter that holds them.
    - [Lifecycle]: [main.c], [eventloop.c], [thread.c]: how all parts are set up, started,
      stopped by a signal and released, as a step relation over the accesses to their
      static pointers by main, the threads and the handler.
    - [Main]: [main.c], [daemon.c]: the command line, the pid file, becoming a daemon.
    - [Server]: the path of received bytes through [Socket], [Proto], [WorkerPool] and
      [Context] put together, up to an actor; [EndToEnd]: from the services of one
      server ([TcpLoop]) to an actor of another.
    - [GprofHelper]: [gprof-helper.c]: threads that inherit the profiling timer.

    ** How state and operations correspond

    A C struct is a [Record] with the same field names.  A function that cannot
    fail is a Rocq function on these records; one that can dereference, index or
    assert returns an [outcome]; one that changes a shared heap is a computation
    in [ST].  Heap blocks are lists, so reading or writing past their end is a
    fault; contexts live in a [gmap] from addresses, so using one after it was
    freed is a fault.  Unsigned integers are in [Z] with the reduction written
    out ([u32], [+u], [-u]) where they can wrap.  What system calls return is an
    argument (a read's bytes, a send's count, the clock, epoll's events).
    Concurrent code is a step relation on thread program counters; memory is
    sequentially consistent and every step is one shared access, one operation on
    a queue or one critical section; the queues themselves are taken apart into
    their accesses in [LockFree].  A queue's size, where other components test
    it, is the number of its elements, which is what the counter shows when no
    call is under way ([lockfree_quiescent_size]).

    ** What the theorems show

    - Queues: every interleaving on the lock-free queue is FIFO, exactly-once and
      bounded ([lockfree_fifo]); the blocking queue never strands a sleeper
      ([blockQueue_no_lost_wakeup]); the ring refines a bounded list
      ([circQueue_bounded_fifo]).
    - Actors: a context is run by one thread at a time ([single_dispatcher]) and
      its messages in the order they were pushed ([context_runs_in_order]); what
      a send in a quiet pool does on every branch, the full queue and the missing
      context included ([workerPoolSend_spec]); identifiers are fresh
      and found ([ctxMgrAddContext_spec]).  A wake-up can be lost
      ([workerPool_lost_wakeup]) and releasing races with sending ([exit_races]).
    - Memory of messages: their data are freed once and not used afterwards, in every
      interleaving in which no callback forwards the data it was given
      ([blocks_freed_once], [forwarding_frees_twice]); what is never freed ([refused_data_lost]).
    - End to end: what services send to a connection reaches the callback of an actor
      of another server: of whatever has arrived, in reads of at most 64 bytes,
      exactly the first so many messages, as long as they fit the actor's queue
      ([services_to_actor], and its halves [tcp_sends_in_order] and
      [stream_reaches_actor]).
    - The process: no part is used before it is set up or after it is released, and
      all is released, unless the signal handler runs on the log thread
      ([main_lifetimes], [signal_on_log_thread]); when the text of the first context
      fits its array ([bootstrapName_bounds]); settings are written once
      ([settings_write_once]).
    - Network: any segmentation of a stream of frames into reads of at most 64
      bytes delivers the frames ([socket_stream_reassembled]); bytes leave in the order they were written
      ([socket_send_order]), and with all services and sockets at work at once those of
      a connection are those of the requests addressed to it, in order
      ([tcp_sends_in_order]); closing does everything once ([tcpSocketClose_once]);
      the table of descriptors agrees with the kernel's ([ae_kernel_in_sync]), and
      loops over different back ends do the same ([backends_agree]).
      Reads longer than the buffer allows overrun it ([socketRead_overruns]), and
      further runs show where reused or failed connections go wrong.  Functions
      that make sockets leave exactly the one they return, but for two error paths
      ([anet_opens_exactly], [anetTcpServer_leaks], [anetUnixNonBlockConnect_leaks]).
    - Sessions: no freed session is used and table, heap and event loop agree, as
      long as a slot is not given away twice ([sessions_safe]); it is as soon as more
      callers than free slots ask before one has used its identifier
      ([reservation_race]), and tearing the layer down frees twice
      ([genTcpUninit_double_free]).
    - Timers: set, fire, repeat, cancel ([timer_fires], [timer_cancel_exact]), a
      pass of a clock that stands still serves what is due and ends, if the
      callbacks leave the timers alone ([processTimeEvents_serves_due]) and no
      period is negative ([timer_negative_period_loops]).
    - Commands and names: a timer set by a command is the one its text describes, and
      the timer thread takes it out when its answer is cancelled
      ([timeout_then_cancel]); launching a Lua actor, with what its Init does, and
      leaving ([launch_then_exit]); names are a finite map ([names_refine_map]); the search
      of modules tries what the path stands for ([tryOpen_searches]) and opens each
      once ([moduleQuery_spec]).
    - Lua: every function returns what its type says, or raises an error that
      changed nothing, or faults for one of the listed reasons ([lua_api_types]); a text sent to a name arrives at the actor
      of that name ([send_by_name]); connections to a database are freed once and not
      used afterwards ([zmysql_lifetimes]); the loader of an actor finds its settings
      ([_init_spec], [prepared_paths]), and a callback cannot be replaced once it got a
      message ([callback_fixed]).
    - Logging: the log thread ends and has written every line, across rotations that
      succeed and for lines without a percent sign ([log_drains]); what the logger actor writes and refuses ([logger_line]).
    - Memory: the count of used memory is that of the live blocks
      ([used_memory_exact]), but the server's threads can lose updates of it
      ([zmalloc_stat_threads]).
    - Threads beside the server: the wrapper of [pthread_create] hands over what it
      should ([gprof_hands_over]) unless a wake-up is spurious
      ([gprof_spurious_wakeup]); the worker that is not built sleeps once
      ([workerSleep_once]) and can miss its wake-up ([workerWakeUp_lost]).
    - Dictionaries are finite maps, in the middle of a rehash as well
      ([dict_refines_map]), and rehashing ends ([dictRehash_completes]).  A scan in
      steps shows every key that stays ([dictScan_complete]), unless it meets a
      rehash to a smaller table ([dictScan_shrinking_misses]).  A loop with a safe
      iterator sees every key that was there, while its body deletes what it sees and
      adds ([safe_iteration]), one with a plain iterator if its body does nothing
      ([unsafe_iteration]); what goes wrong otherwise is in [iteration_misused].
    - A heap of linked lists is a map from lists to sequences ([adlist_refines]);
      deleting while iterating is safe ([adlist_sweep]); copies ([listDup_copies]).
    - Event queues deliver in order, and to a sleeping loop if one thread
      pushes ([em_delivers]); two can silence the loop ([em_silenced]).
    - Remote calls packed into the stream come out as they were
      ([net_calls_delivered]); which messages are safe to unpack
      ([netunpack_safe]).
    - Serialized Lua values are read back ([seri_roundtrip]); the reader ends on
      any bytes, within what C defines but for two kinds of items
      ([seri_unpack_total]); a chain of
      blocks reads as the bytes in it ([chain_read_flat]).

    ** Fuel and bounds

    Loops that are not structural take fuel, and a theorem says how much is
    enough: [headLoop] one more than the readable bytes, [time_loop] the length
    of the list times the number of due events, [next_power] 64 doublings of a
    64-bit word, [send_loop] the number of sends ([send_loop_spec]), the
    reader of [Seri] two more than twice the bytes ([seri_fuel]), [log_thread] the
    length of the queue, [scan_larger] the sizes of the two tables, [try_loop] of
    [Module] the length of the path, the loops of [AdList] one more than the list,
    [release_fuel] of [Session] one more than the sessions on the heap, the loops of
    [Anet] one more than the bytes to move, and as often as accept is interrupted, the
    loop of [ZMysql] over the results two more than their number, the one of [LuaDir] one
    more than the entries, [dictNext] the slots of both tables and two ([next_fuel]), a
    loop of [DictIter] the entries and the operations of its body and one.  The step
    relations have no fuel.  Bounds in hypotheses are where the code's integers
    stop: 2^31 contexts identifiers, 2^29 dictionary keys (the [int] index of a
    bucket), ring sizes up to 2^31.

    ** What is not modelled

    The C++ bindings of protobuf (src/lualib-src/pbc) and what is vendored under
    src/3rd; the scripts.  The Lua interpreter, jemalloc, the MySQL client, the dynamic
    loader and the kernel are parameters with their documented behaviour.  Of modelled
    files: the texts of log lines and of errors, functions that only free memory,
    what is compiled for other systems or switched off by the preprocessor, and the
    depth of the C stack and of Lua's (a packed text or a nested table may exceed
    them).  Memory is sequentially consistent.  [TcpLoop] takes
    services and the loop thread apart at their accesses to the message queue; the
    reservation of an identifier and the push that follows are one step there, and a
    handler of [Socket] is one step.  In [Blocks] a block is freed when its number is
    taken out of the set of live ones, and numbers are not used again. *)

From stdpp Require Export base tactics numbers list gmap strings.
From Stdlib Require Export ZArith Lia.

Open Scope Z_scope.

(** ** Outcomes of C code

    A C function that may dereference, index or assert is modelled as a
    function into [outcome]: [Ok] with its result, or the [fault] the
    execution runs into.  The faults are undefined behaviour of C
    ([OutOfBounds], [NullDeref], [UseAfterFree]), [AssertFailed] for a failed
    [assert], [OutOfMemory] for the [abort] of the allocator; [OutOfFuel] marks
    a loop model that ran out of fuel, and is excluded by a termination theorem wherever fuel is used. *)
Inductive fault :=
  | OutOfBounds
  | NullDeref
  | UseAfterFree
  | AssertFailed
  | OutOfMemory
  | OutOfFuel.

Inductive outcome (A : Type) :=
  | Ok (a : A)
  | Fault (f : fault).
Arguments Ok {A} a.
Arguments Fault {A} f.

#[export] Instance fault_eq_dec : EqDecision fault.
Proof. solve_decision. Defined.

#[export] Instance outcome_eq_dec {A} `{EqDecision A} : EqDecision (outcome A).
Proof. solve_decision. Defined.

#[export] Instance outcome_ret : MRet outcome := fun A a => Ok a.

#[export] Instance outcome_bind : MBind outcome := fun A B k m =>
  match m with
  | Ok a => k a
  | Fault f => Fault f
  end.

#[export] Instance outcome_fmap : FMap outcome := fun A B g m =>
  match m with
  | Ok a => Ok (g a)
  | Fault f => Fault f
  end.

(** [assert(b)] followed by the rest of the function. *)
Definition c_assert (b : bool) : outcome unit :=
  if b then Ok tt else Fault AssertFailed.

(** Dereferencing a pointer; [None] is [NULL]. *)
Definition deref {A} (p : option A) : outcome A :=
  match p with
  | Some a => Ok a
  | None => Fault NullDeref
  end.

Definition is_ok {A} (m : outcome A) : bool :=
  match m with Ok _ => true | Fault _ => false end.

Lemma bind_Ok {A B} (a : A) (k : A -> outcome B) : (Ok a ≫= k) = k a.
Proof. reflexivity. Qed.

Lemma bind_Ok_inv {A B} (m : outcome A) (k : A -> outcome B) b :
  (m ≫= k) = Ok b -> exists a, m = Ok a /\ k a = Ok b.
Proof. destruct m as [a|f]; simpl; [eauto | discriminate]. Qed.

(** ** Stateful code: a state and the faults *)
Definition ST (S A : Type) : Type := S -> outcome (A * S).

#[export] Instance st_ret {S} : MRet (ST S) := fun A a s => Ok (a, s).
#[export] Instance st_bind {S} : MBind (ST S) := fun A B k m s =>
  match m s with
  | Ok (a, s') => k a s'
  | Fault f => Fault f
  end.

Definition st_lift {S A} (m : outcome A) : ST S A := fun s =>
  match m with Ok a => Ok (a, s) | Fault f => Fault f end.
Definition st_get {S} : ST S S := fun s => Ok (s, s).
Definition st_modify {S} (f : S -> S) : ST S unit := fun s => Ok (tt, f s).
Definition st_fault {S A} (f : fault) : ST S A := fun _ => Fault f.
Definition st_assert {S} (b : bool) : ST S unit := st_lift (c_assert b).

Lemma st_bind_Ok {S A B} (m : ST S A) (k : A -> ST S B) s a s' :
  m s = Ok (a, s') -> (m ≫= k) s = k a s'.
Proof. unfold mbind, st_bind. by intros ->. Qed.

Lemma st_bind_Fault {S A B} (m : ST S A) (k : A -> ST S B) s f :
  m s = Fault f -> (m ≫= k) s = Fault f.
Proof. unfold mbind, st_bind. by intros ->. Qed.

Lemma st_bind_inv {S A B} (m : ST S A) (k : A -> ST S B) s b s2 :
  (m ≫= k) s = Ok (b, s2) -> exists a s1, m s = Ok (a, s1) /\ k a s1 = Ok (b, s2).
Proof. unfold mbind, st_bind. destruct (m s) as [[a s1] | f]; [eauto | done]. Qed.

(** ** Machine integers

    A [w]-bit unsigned C integer is the [Z] of its value; every operation that
    can wrap goes through [u8], [u16], [u32] or [u64], every conversion to a
    signed type through [i32] or [i64]. *)
Definition u8 (x : Z) : Z := x mod 256.
Definition u16 (x : Z) : Z := x mod 65536.
Definition u32 (x : Z) : Z := x mod 4294967296.
Definition u64 (x : Z) : Z := x mod 18446744073709551616.
Definition i32 (x : Z) : Z := (x + 2147483648) mod 4294967296 - 2147483648.
Definition i64 (x : Z) : Z :=
  (x + 9223372036854775808) mod 18446744073709551616 - 9223372036854775808.

Declare Scope c_scope.
Delimit Scope c_scope with c.
Notation "x '+u' y" := (u32 (x + y)) (at level 50, left associativity) : c_scope.
Notation "x '-u' y" := (u32 (x - y)) (at level 50, left associativity) : c_scope.
Notation "x '<<u' y" := (u32 (Z.shiftl x y)) (at level 45, left associativity) : c_scope.
Open Scope c_scope.

Lemma u32_range x : 0 <= u32 x < 4294967296.
Proof. apply Z.mod_pos_bound; lia. Qed.

Lemma u32_small x : 0 <= x < 4294967296 -> u32 x = x.
Proof. apply Z.mod_small. Qed.

Lemma u32_u32 x : u32 (u32 x) = u32 x.
Proof. apply u32_small, u32_range. Qed.

Lemma u64_range x : 0 <= u64 x < 18446744073709551616.
Proof. apply Z.mod_pos_bound; lia. Qed.

Lemma u64_small x : 0 <= x < 18446744073709551616 -> u64 x = x.
Proof. apply Z.mod_small. Qed.

Lemma i32_small x : -2147483648 <= x < 2147483648 -> i32 x = x.
Proof. intros ?. unfold i32. rewrite Z.mod_small; lia. Qed.

Lemma i32_range x : -2147483648 <= i32 x < 2147483648.
Proof. unfold i32. pose proof (Z.mod_pos_bound (x + 2147483648) 4294967296). lia. Qed.

Lemma u32_i32 x : u32 (i32 x) = u32 x.
Proof.
  unfold u32, i32. rewrite Zminus_mod_idemp_l.
  f_equal. lia.
Qed.

Lemma u32_add_l x y : u32 (u32 x + y) = u32 (x + y).
Proof. apply Zplus_mod_idemp_l. Qed.

(** ** Arrays: bounds-checked reads, writes and [memcpy] *)
Section arrays.
  Context {A : Type}.
  Implicit Types (l src : list A) (i off n : Z).

Definition zlen l : Z := Z.of_nat (length l).

(** [l[i]] *)
Definition aget l i : outcome A :=
  if 0 <=? i then
    match l !! Z.to_nat i with
    | Some x => Ok x
    | None => Fault OutOfBounds
    end
  else Fault OutOfBounds.

(** [l[i] = x] *)
Definition aset l i (x : A) : outcome (list A) :=
  if (0 <=? i) && (i <? zlen l) then Ok (<[Z.to_nat i := x]> l)
  else Fault OutOfBounds.

(** The [n] elements a [memcpy] reads from [l + off]. *)
Definition acopy_out l off n : outcome (list A) :=
  if (0 <=? off) && (0 <=? n) && (off + n <=? zlen l)
  then Ok (take (Z.to_nat n) (drop (Z.to_nat off) l))
  else Fault OutOfBounds.

(** [l] after a [memcpy] of [src] to [l + off]. *)
Definition acopy_in l off src : outcome (list A) :=
  if (0 <=? off) && (off + zlen src <=? zlen l)
  then Ok (take (Z.to_nat off) l ++ src ++ drop (Z.to_nat (off + zlen src)) l)
  else Fault OutOfBounds.

Lemma zlen_nonneg l : 0 <= zlen l.
  Proof. unfold zlen; lia. Qed.

Lemma zlen_app l1 l2 : zlen (l1 ++ l2) = zlen l1 + zlen l2.
  Proof. unfold zlen. rewrite length_app. lia. Qed.

Lemma zlen_cons x l : zlen (x :: l) = 1 + zlen l.
Proof. unfold zlen. cbn [length]. lia. Qed.

Lemma zlen_replicate n (x : A) : 0 <= n -> zlen (replicate (Z.to_nat n) x) = n.
  Proof. unfold zlen. rewrite length_replicate. lia. Qed.

Lemma zlen_take l n : 0 <= n <= zlen l -> zlen (take (Z.to_nat n) l) = n.
  Proof. unfold zlen. rewrite length_take. lia. Qed.

Lemma zlen_drop l n : 0 <= n <= zlen l -> zlen (drop (Z.to_nat n) l) = zlen l - n.
  Proof. unfold zlen. rewrite length_drop. lia. Qed.

Lemma aget_Ok l i x : 0 <= i -> l !! Z.to_nat i = Some x -> aget l i = Ok x.
  Proof. intros Hi Hl. unfold aget. destruct (Z.leb_spec 0 i); [by rewrite Hl | lia]. Qed.

Lemma aget_is_Ok l i : 0 <= i < zlen l -> exists x, l !! Z.to_nat i = Some x /\ aget l i = Ok x.
Proof.
    intros Hi. destruct (lookup_lt_is_Some_2 l (Z.to_nat i)) as [x Hx].
    { unfold zlen in Hi. lia. }
    exists x. split; [done | apply aget_Ok; [lia | done]].
Qed.

Lemma aget_Ok_inv l i x : aget l i = Ok x -> 0 <= i < zlen l /\ l !! Z.to_nat i = Some x.
Proof.
    unfold aget. destruct (Z.leb_spec 0 i); [|done].
    destruct (l !! Z.to_nat i) eqn:E; [|done]. intros [= <-].
    split; [|done]. apply lookup_lt_Some in E. unfold zlen. lia.
Qed.

Lemma aset_Ok l i x : 0 <= i < zlen l -> aset l i x = Ok (<[Z.to_nat i := x]> l).
Proof.
    intros Hi. unfold aset.
    destruct (Z.leb_spec 0 i); [|lia]. destruct (Z.ltb_spec i (zlen l)); [done | lia].
Qed.

Lemma zlen_insert l (i : nat) (x : A) : zlen (<[i := x]> l) = zlen l.
  Proof. unfold zlen. by rewrite length_insert. Qed.

Lemma acopy_out_Ok l off n :
    0 <= off -> 0 <= n -> off + n <= zlen l ->
    acopy_out l off n = Ok (take (Z.to_nat n) (drop (Z.to_nat off) l)).
Proof.
    intros. unfold acopy_out.
    destruct (Z.leb_spec 0 off), (Z.leb_spec 0 n), (Z.leb_spec (off + n) (zlen l)); try lia; done.
Qed.

Lemma acopy_in_Ok l off src :
    0 <= off -> off + zlen src <= zlen l ->
    acopy_in l off src =
      Ok (take (Z.to_nat off) l ++ src ++ drop (Z.to_nat (off + zlen src)) l).
Proof.
    intros. unfold acopy_in.
    destruct (Z.leb_spec 0 off), (Z.leb_spec (off + zlen src) (zlen l)); try lia; done.
Qed.

Lemma acopy_out_fault l off n : zlen l < off + n -> acopy_out l off n = Fault OutOfBounds.
Proof.
    intros. unfold acopy_out.
    destruct (Z.leb_spec 0 off), (Z.leb_spec 0 n), (Z.leb_spec (off + n) (zlen l)); try lia; done.
Qed.

Lemma acopy_out_fault_inv l off n f : acopy_out l off n = Fault f -> f = OutOfBounds.
Proof. unfold acopy_out. destruct (_ && _); [done | by intros [= <-]]. Qed.

Lemma acopy_in_fault l off src :
    zlen l < off + zlen src -> acopy_in l off src = Fault OutOfBounds.
Proof.
    intros. unfold acopy_in.
    destruct (Z.leb_spec 0 off), (Z.leb_spec (off + zlen src) (zlen l)); try lia; done.
Qed.

Lemma acopy_in_zlen l off src l' : acopy_in l off src = Ok l' -> zlen l' = zlen l.
Proof.
    unfold acopy_in.
    destruct (Z.leb_spec 0 off), (Z.leb_spec (off + zlen src) (zlen l)); simpl; intros [= <-].
    unfold zlen in *. rewrite !length_app, length_take, length_drop. lia.
Qed.

(** Copies whose range is a known middle part of the array. *)
Lemma acopy_out_app l1 l2 l3 :
  acopy_out (l1 ++ l2 ++ l3) (zlen l1) (zlen l2) = Ok l2.
Proof.
  pose proof (zlen_nonneg l1). pose proof (zlen_nonneg l2). pose proof (zlen_nonneg l3).
  rewrite acopy_out_Ok by (rewrite ?zlen_app; lia). unfold zlen.
  by rewrite !Nat2Z.id, drop_app_length, take_app_length.
Qed.

Lemma acopy_in_app l1 l2 l3 src :
  zlen src = zlen l2 -> acopy_in (l1 ++ l2 ++ l3) (zlen l1) src = Ok (l1 ++ src ++ l3).
Proof.
  intros E. pose proof (zlen_nonneg l1). pose proof (zlen_nonneg l2). pose proof (zlen_nonneg l3).
  rewrite acopy_in_Ok by (rewrite ?zlen_app; lia). rewrite E, <- zlen_app. unfold zlen.
  rewrite !Nat2Z.id, take_app_length, (app_assoc l1 l2), drop_app_length. done.
Qed.
End arrays.

(** Distinct numbers below [n] are at most [n] many. *)
Lemma zlen_distinct (l : list Z) n : 0 <= n -> NoDup l -> Forall (fun x => 0 <= x < n) l -> zlen l <= n.
Proof.
  intros Hn ND F. assert (Hs : l ⊆+ seqZ 0 n).
  { apply NoDup_submseteq; [done |]. intros x Hx. apply elem_of_seqZ.
    pose proof (proj1 (Forall_forall _ _) F x Hx). cbn beta in *. lia. }
  apply submseteq_length in Hs. rewrite length_seqZ in Hs. unfold zlen. lia.
Qed.

(** In an association list without duplicate keys a key has one value. *)
Lemma NoDup_fst_eq {A B} (l : list (A * B)) a b1 b2 :
  NoDup l.*1 -> (a, b1) ∈ l -> (a, b2) ∈ l -> b1 = b2.
Proof.
  induction l as [| [x y] l IH]; [by intros _ ?%elem_of_nil |]. cbn. intros [Hx ND]%NoDup_cons H1 H2.
  rewrite elem_of_cons in H1, H2. destruct H1 as [[= -> ->] | H1], H2 as [E2 | H2].
  - by injection E2.
  - destruct Hx. by apply (list_elem_of_fmap_2' fst _ (x, b2)).
  - injection E2 as -> ->. destruct Hx. by apply (list_elem_of_fmap_2' fst _ (x, b1)).
  - by apply IH.
Qed.

(** ** Modular arithmetic *)

Lemma mod_neq i j n : 0 < Z.abs (i - j) < n -> i mod n <> j mod n.
Proof.
  intros H E. pose proof (Z.div_mod i n ltac:(lia)) as Ei.
  pose proof (Z.div_mod j n ltac:(lia)) as Ej. rewrite E in Ei.
  assert (Ek : i - j = n * (i / n - j / n)) by lia.
  assert (i / n - j / n = 0) as E0 by nia. rewrite E0 in Ek. lia.
Qed.

Lemma mod_add_inj h i j n :
  0 <= i < n -> 0 <= j < n -> (h + i) mod n = (h + j) mod n -> i = j.
Proof.
  intros Hi Hj E. destruct (Z.eq_dec i j); [done |].
  exfalso. apply (mod_neq (h + i) (h + j) n); [lia | done].
Qed.

(** A sum below [2 n] reduces modulo [n] by at most one subtraction. *)
Lemma mod_wrap x n : 0 <= x < 2 * n -> x mod n = if x <? n then x else x - n.
Proof.
  intros Hx. destruct (Z.ltb_spec x n).
  - apply Z.mod_small. lia.
  - symmetry. apply (Z.mod_unique x n 1); lia.
Qed.

(** ** Automation

    [zcore] gathers the range facts on machine integers and arrays; [c_simpl]
    reduces an [outcome] computation whose next step is known; [inv_ok]
    splits a hypothesis that a monadic computation succeeded. *)
Create HintDb zcore discriminated.
Create Rewrite HintDb zcore.
#[export] Hint Resolve u32_range u64_range i32_range zlen_nonneg : zcore.
#[export] Hint Rewrite @bind_Ok @zlen_app @zlen_insert u32_u32 u32_i32 : zcore.

Ltac c_simpl :=
  cbn [mbind outcome_bind mret outcome_ret fmap outcome_fmap c_assert deref negb fst snd] in *.

Ltac inv_ok :=
  repeat match goal with
  | H : (_ ≫= _) = Ok _ |- _ => apply bind_Ok_inv in H as (? & ? & ?)
  | H : mret _ = Ok _ |- _ => unfold mret, outcome_ret in H
  | H : Ok _ = Ok _ |- _ => injection H as H; try subst
  | H : Fault _ = Ok _ |- _ => discriminate H
  | H : Ok _ = Fault _ |- _ => discriminate H
  end.

(** Case analysis on the boolean comparisons a C guard is translated to. *)
Ltac c_cases :=
  repeat match goal with
  | |- context [?a =? ?b] => destruct (Z.eqb_spec a b)
  | |- context [?a <? ?b] => destruct (Z.ltb_spec a b)
  | |- context [?a <=? ?b] => destruct (Z.leb_spec a b)
  | |- context [?a >? ?b] => rewrite (Z.gtb_ltb a b)
  | |- context [?a >=? ?b] => rewrite (Z.geb_leb a b)
  end.

(** Unfolds the state monad in the goal and runs what reduces. *)
Ltac st_run :=
  unfold mbind, st_bind, mret, st_ret, st_lift, st_get, st_modify, st_assert, st_fault;
  cbv beta; cbn [c_assert fst snd].
