(* ===== verification/Wp.v ===== *)
(** * Postconditions of stateful code

    A computation in [ST] is reasoned about statement by statement: [wp] has a rule
    for every way of composing them. *)
From S2P Require Import Prelude.

(** [wp F Q m n]: from [n], [m] ends with [Q] or in a fault that [F] allows. *)
Definition wp {S A} (F : fault -> Prop) (Q : A -> S -> Prop) (m : ST S A) (n : S) : Prop :=
  match m n with Ok (a, n') => Q a n' | Fault f => F f end.

Section wp.
  Context {S : Type} (F : fault -> Prop).

Lemma wp_bind {A B} (m : ST S A) (k : A -> ST S B) Q n :
  wp F (fun a n' => wp F Q (k a) n') m n -> wp F Q (m ≫= k) n.
Proof. unfold wp. unfold mbind, st_bind. by destruct (m n) as [[a n'] | f]. Qed.

Lemma wp_ret {A} (a : A) Q (n : S) : Q a n -> wp F Q (mret a) n.
Proof. done. Qed.

Lemma wp_mono {A} (m : ST S A) (P Q : A -> S -> Prop) n :
  wp F P m n -> (forall a n', P a n' -> Q a n') -> wp F Q m n.
Proof. unfold wp. destruct (m n) as [[a n'] | f]; auto. Qed.

Lemma wp_lift {A} (o : outcome A) Q (n : S) :
  match o with Ok a => Q a n | Fault f => F f end -> wp F Q (st_lift o) n.
Proof. unfold wp, st_lift. by destruct o. Qed.

Lemma wp_assert (b : bool) Q (n : S) : b = true -> Q tt n -> wp F Q (st_assert b) n.
Proof. by intros ->. Qed.

Lemma wp_get (Q : S -> S -> Prop) n : Q n n -> wp F Q st_get n.
Proof. done. Qed.

Lemma wp_modify f (Q : unit -> S -> Prop) n : Q tt (f n) -> wp F Q (st_modify f) n.
Proof. done. Qed.

Lemma wp_Ok {A} (m : ST S A) Q n a n' : m n = Ok (a, n') -> Q a n' -> wp F Q m n.
Proof. unfold wp. by intros ->. Qed.

Lemma wp_outcome {A B} (m : ST S A) (g : A * S -> B) (Q : B -> Prop) n :
  wp F (fun a n' => Q (g (a, n'))) m n ->
  match (r ← m n; mret (g r)) with Ok b => Q b | Fault f => F f end.
Proof. unfold wp. by destruct (m n) as [[a n'] | f]. Qed.
End wp.
