(* ===== verification/Bits.v ===== *)
(** * Power-of-two sizes and index masks

    [nextpow2] is the helper every array-backed component of the server
    carries its own copy of (circqueue.c, contextqueue.c, messagequeue.c,
    arraylockfreequeue.c, tcp.c, gen_tcp.c, main.c); the masks
    [x & (size - 1)] of those components are its reason. *)
From S2P Require Import Prelude.

(** [static uint32_t nextpow2(uint32_t num)] *)
Definition nextpow2 (num : Z) : Z :=
  let num := num -u 1 in
  let num := Z.lor num (Z.shiftr num 1) in
  let num := Z.lor num (Z.shiftr num 2) in
  let num := Z.lor num (Z.shiftr num 4) in
  let num := Z.lor num (Z.shiftr num 8) in
  let num := Z.lor num (Z.shiftr num 16) in
  num +u 1.

(** ** The bit smearing *)

(** [window x w y]: bit [i] of [y] is set iff one of the [w] bits of [x] from
    [i] upwards is. *)
Definition window (x w y : Z) : Prop :=
  forall i, 0 <= i ->
    Z.testbit y i = true <-> exists j, 0 <= j < w /\ Z.testbit x (i + j) = true.

Lemma window_one x : window x 1 x.
Proof.
  intros i Hi. split.
  - intros H. exists 0. rewrite Z.add_0_r. auto with lia.
  - intros (j & Hj & H). replace j with 0 in H by lia. by rewrite Z.add_0_r in H.
Qed.

Lemma window_double x w y :
  0 < w -> window x w y -> window x (2 * w) (Z.lor y (Z.shiftr y w)).
Proof.
  intros Hw H i Hi.
  rewrite Z.lor_spec, Z.shiftr_spec, orb_true_iff by lia.
  rewrite (H i), (H (i + w)) by lia. split.
  - intros [(j & Hj & E) | (j & Hj & E)].
    + exists j. split; [lia | done].
    + exists (w + j). split; [lia |]. by rewrite Z.add_assoc.
  - intros (j & Hj & E). destruct (Z.ltb_spec j w).
    + left. exists j. split; [lia | done].
    + right. exists (j - w). split; [lia |].
      replace (i + w + (j - w)) with (i + j) by lia. done.
Qed.

Lemma window_ones x w y :
  0 < x -> Z.log2 x < w -> 0 <= y -> window x w y -> y = Z.ones (Z.log2 x + 1).
Proof.
  intros Hx Hw Hy H. apply Z.bits_inj'. intros i Hi.
  pose proof (Z.log2_nonneg x).
  destruct (Z.leb_spec i (Z.log2 x)).
  - rewrite Z.ones_spec_low by lia. apply (H i Hi).
    exists (Z.log2 x - i). split; [lia |].
    replace (i + (Z.log2 x - i)) with (Z.log2 x) by lia. by apply Z.bit_log2.
  - rewrite Z.ones_spec_high by lia. apply not_true_is_false. intros E.
    apply (H i Hi) in E as (j & Hj & E).
    rewrite Z.bits_above_log2 in E by lia. done.
Qed.

Definition smear_step (w y : Z) : Z := Z.lor y (Z.shiftr y w).

Definition smear (x : Z) : Z :=
  smear_step 16 (smear_step 8 (smear_step 4 (smear_step 2 (smear_step 1 x)))).

Lemma smear_step_nonneg w y : 0 <= y -> 0 <= smear_step w y.
Proof. intros. apply Z.lor_nonneg. rewrite Z.shiftr_nonneg. lia. Qed.

Lemma smear_nonneg x : 0 <= x -> 0 <= smear x.
Proof. intros. unfold smear. by repeat apply smear_step_nonneg. Qed.

Lemma smear_ones x : 0 < x < 4294967296 -> smear x = Z.ones (Z.log2 x + 1).
Proof.
  intros Hx. apply (window_ones x 32); [lia | | apply smear_nonneg; lia |].
  - apply Z.log2_lt_pow2; lia.
  - apply (window_double x 16); [lia|].
    apply (window_double x 8); [lia|].
    apply (window_double x 4); [lia|].
    apply (window_double x 2); [lia|].
    apply (window_double x 1); [lia|]. apply window_one.
Qed.

Lemma nextpow2_smear n : nextpow2 n = smear (n -u 1) +u 1.
Proof. reflexivity. Qed.

Lemma nextpow2_0 : nextpow2 0 = 0.
Proof. reflexivity. Qed.

Lemma nextpow2_1 : nextpow2 1 = 1.
Proof. reflexivity. Qed.

Lemma nextpow2_gt n :
  2 <= n <= 4294967295 -> nextpow2 n = u32 (2 ^ (Z.log2 (n - 1) + 1)).
Proof.
  intros Hn. rewrite nextpow2_smear, (u32_small (n - 1)) by lia.
  rewrite smear_ones, Z.ones_equiv by lia. f_equal. lia.
Qed.

Lemma nextpow2_spec n :
  1 <= n <= 2147483648 -> nextpow2 n = 2 ^ Z.log2_up n /\ n <= nextpow2 n < 2 * n.
Proof.
  intros Hn. destruct (Z.eqb_spec n 1) as [-> | Hne]; [by vm_compute |].
  assert (E : nextpow2 n = 2 ^ Z.log2_up n).
  { rewrite nextpow2_gt by lia. rewrite Z.log2_up_eqn by lia.
    replace (Z.pred n) with (n - 1) by lia. apply u32_small.
    assert (Z.log2 (n - 1) < 31) by (apply Z.log2_lt_pow2; lia).
    pose proof (Z.log2_nonneg (n - 1)).
    split; [apply Z.pow_nonneg; lia |].
    apply (Z.le_lt_trans _ (2 ^ 31)); [apply Z.pow_le_mono_r; lia | lia]. }
  split; [done |]. rewrite E.
  pose proof (Z.log2_up_spec n ltac:(lia)) as [H1 H2].
  pose proof (Z.log2_up_nonneg n).
  assert (0 < Z.log2_up n) by (apply Z.log2_up_pos; lia).
  replace (2 ^ Z.log2_up n) with (2 * 2 ^ Z.pred (Z.log2_up n)) in *
    by (rewrite <- Z.pow_succ_r by lia; f_equal; lia).
  lia.
Qed.

(** Above [2^31] the result does not fit and wraps to 0. *)
Lemma nextpow2_overflow n : 2147483648 < n <= 4294967295 -> nextpow2 n = 0.
Proof.
  intros Hn. rewrite nextpow2_gt by lia.
  assert (Z.log2 (n - 1) = 31) as -> by (apply Z.log2_unique; lia). done.
Qed.

(** ** Index masks *)

Definition is_pow2 (n : Z) : Prop := exists k, 0 <= k /\ n = 2 ^ k.

Lemma is_pow2_pos n : is_pow2 n -> 0 < n.
Proof. intros (k & Hk & ->). apply Z.pow_pos_nonneg; lia. Qed.

Lemma mask_mod x n : is_pow2 n -> Z.land x (n - 1) = x mod n.
Proof.
  intros (k & Hk & ->). rewrite <- Z.land_ones by lia. f_equal.
  rewrite Z.ones_equiv. lia.
Qed.

Lemma mask_range x n : is_pow2 n -> 0 <= Z.land x (n - 1) < n.
Proof. intros H. rewrite mask_mod by done. apply Z.mod_pos_bound, is_pow2_pos, H. Qed.

Lemma is_pow2_double n : is_pow2 n -> is_pow2 (2 * n).
Proof.
  intros (k & Hk & ->). exists (Z.succ k). split; [lia |]. by rewrite Z.pow_succ_r.
Qed.

Lemma is_pow2_divide m n : is_pow2 m -> is_pow2 n -> m <= n -> (m | n).
Proof.
  intros (a & Ha & ->) (b & Hb & ->) Hle.
  assert (a <= b) by (apply (Z.pow_le_mono_r_iff 2); lia).
  exists (2 ^ (b - a)). rewrite <- Z.pow_add_r by lia. f_equal. lia.
Qed.

Lemma is_pow2_nextpow2 n : 1 <= n <= 2147483648 -> is_pow2 (nextpow2 n).
Proof.
  intros Hn. destruct (nextpow2_spec n Hn) as [-> _].
  exists (Z.log2_up n). auto using Z.log2_up_nonneg.
Qed.

(** A 32-bit counter and its unwrapped value select the same slot. *)
Lemma u32_mod_pow2 x n : is_pow2 n -> n <= 4294967296 -> u32 x mod n = x mod n.
Proof.
  intros Hn Hle. unfold u32.
  assert (n | 4294967296) as [q Hq].
  { apply is_pow2_divide; [done | | done]. by exists 32. }
  rewrite Hq, (Z.mul_comm q n). apply is_pow2_pos in Hn.
  apply Z.mod_mod_divide. exists q. lia.
Qed.

Lemma mask_u32 x n :
  is_pow2 n -> n <= 4294967296 -> Z.land (u32 x) (n - 1) = x mod n.
Proof. intros Hn Hle. rewrite mask_mod by done. by apply u32_mod_pow2. Qed.

#[export] Hint Resolve is_pow2_pos is_pow2_double is_pow2_nextpow2 : zcore.


(** [nextpow2] rounds every [n] in [1, 2^31] up to the least power of two
    that is at least [n]; above [2^31] the result wraps to [0]. *)
Theorem nextpow2_least n :
  1 <= n <= 4294967295 ->
  if n <=? 2147483648 then
    is_pow2 (nextpow2 n) /\ n <= nextpow2 n < 2 * n /\
    (forall m, is_pow2 m -> n <= m -> nextpow2 n <= m)
  else nextpow2 n = 0.
Proof.
  intros H. destruct (Z.leb_spec n 2147483648); [| apply nextpow2_overflow; lia].
  destruct (nextpow2_spec n ltac:(lia)) as [E B].
  pose proof (is_pow2_nextpow2 n ltac:(lia)) as Hp.
  split; [done |]. split; [done |]. intros m Hm Hn.
  destruct (Z.le_gt_cases (nextpow2 n) m) as [| Hlt]; [done |].
  pose proof (is_pow2_divide _ _ Hm Hp ltac:(lia)) as [k Hk]. pose proof (is_pow2_pos _ Hm).
  assert (k <= 1 \/ 2 <= k) as [|] by lia; nia.
Qed.

Lemma nextpow2_least_witness : 1 <= 1000 <= 4294967295 /\ nextpow2 1000 < 2 * 1000.
Proof. split; [lia |]. apply (nextpow2_least 1000). lia. Defined.
