(* ===== verification/CString.v ===== *)
(** * Strings of C

    A string argument is the list of its bytes without the terminator
    ([nul_free]); a buffer is a list of bytes in which the string ends at the
    first zero ([c_str]), and reading on past the end of the buffer is a fault.
    The functions of the C library the sources call on strings are translated
    from their documented behaviour: [strchr], [strsep], [strtol], and the two
    conversions of [snprintf] that are used. *)
From S2P Require Import Prelude.

(** Bytes of a string literal. *)
Fixpoint str (s : string) : list Z :=
  match s with
  | EmptyString => []
  | String a s => Z.of_N (Ascii.N_of_ascii a) :: str s
  end.

Definition nul_free (s : list Z) : Prop := Forall (fun c => 0 < c < 256) s.

(** The string at the start of a buffer. *)
Fixpoint c_str (m : list Z) : outcome (list Z) :=
  match m with
  | [] => Fault OutOfBounds
  | c :: m => if c =? 0 then mret [] else s ← c_str m; mret (c :: s)
  end.

Lemma c_str_app s m : nul_free s -> c_str (s ++ 0 :: m) = Ok s.
Proof.
  induction s as [| c s IH]; intros Hs; [done |]. apply Forall_cons in Hs as [Hc Hs].
  cbn. destruct (Z.eqb_spec c 0); [lia |]. by rewrite IH.
Qed.

Lemma str_nul_free s : forallb (fun c => negb (c =? 0)) (str s) = true -> nul_free (str s).
Proof.
  induction s as [| [b0 b1 b2 b3 b4 b5 b6 b7] s IH]; [by constructor |].
  cbn [str forallb]. intros [Hc Hs]%andb_prop. constructor; [| by apply IH].
  apply negb_true_iff, Z.eqb_neq in Hc. destruct b0, b1, b2, b3, b4, b5, b6, b7; vm_compute in Hc |- *; done.
Qed.

(** ** Searching and splitting *)

(** The bytes before the first that satisfies [p], and the rest from it on. *)
Fixpoint break (p : Z -> bool) (s : list Z) : list Z * list Z :=
  match s with
  | [] => ([], [])
  | c :: t => if p c then ([], s) else let r := break p t in (c :: r.1, r.2)
  end.

Definition one_of (delim : list Z) (c : Z) : bool := existsb (Z.eqb c) delim.

(** [strsep]: the token and where the next one starts; [None] is [NULL].  The
    delimiter is overwritten with a zero, which ends the token. *)
Definition strsep (s : option (list Z)) (delim : list Z) : option (list Z) * option (list Z) :=
  match s with
  | None => (None, None)
  | Some s =>
    match break (one_of delim) s with
    | (tok, []) => (Some tok, None)
    | (tok, _ :: rest) => (Some tok, Some rest)
    end
  end.

Lemma break_app p s t : Forall (fun c => p c = false) s -> break p (s ++ t) = (s ++ (break p t).1, (break p t).2).
Proof. induction 1 as [| c s Hc Hs IH]; cbn; [by destruct (break p t) | by rewrite Hc, IH]. Qed.

Lemma break_end p s : Forall (fun c => p c = false) s -> break p s = (s, []).
Proof. intros Hs. rewrite <- (app_nil_r s), break_app by done. by rewrite !app_nil_r. Qed.

Lemma break_spec p s : s = (break p s).1 ++ (break p s).2 /\ Forall (fun c => p c = false) (break p s).1 /\
  match (break p s).2 with [] => True | c :: _ => p c = true end.
Proof.
  induction s as [| c s (E & F & H)]; [done |]. cbn [break]. destruct (p c) eqn:Ec; [done |].
  split; [by cbn; f_equal |]. split; [by constructor | done].
Qed.

(** ** Numbers *)

Fixpoint digits (fuel : nat) (n : Z) (acc : list Z) : list Z :=
  match fuel with
  | O => acc
  | S fuel =>
    let acc := 48 + n mod 10 :: acc in
    if n <? 10 then acc else digits fuel (n / 10) acc
  end.

(** The conversion [%d]; 20 digits are enough for 64 bits. *)
Definition print_d (n : Z) : list Z :=
  if n <? 0 then 45 :: digits 20 (- n) [] else digits 20 n [].

(** [snprintf(buf, size, ...)] leaves as much of the text as fits before the zero. *)
Definition snprintf (size : Z) (text : list Z) : list Z := take (Z.to_nat (size - 1)) text.

Definition isspace (c : Z) : bool := (c =? 32) || ((9 <=? c) && (c <=? 13)).
Definition isdigit (c : Z) : bool := (48 <=? c) && (c <=? 57).

Definition LONG_MIN : Z := -9223372036854775808.
Definition clamp_long (n : Z) : Z := Z.max LONG_MIN (Z.min n 9223372036854775807).

Definition value_of (ds : list Z) : Z := foldl (fun v c => 10 * v + (c - 48)) 0 ds.

(** [strtol(s, &end, 10)]: the number and the string at [end]. *)
Definition strtol (s : list Z) : Z * list Z :=
  let t := (break (fun c => negb (isspace c)) s).2 in
  let '(neg, u) :=
    match t with
    | c :: t' => if c =? 45 then (true, t') else if c =? 43 then (false, t') else (false, t)
    | [] => (false, t)
    end in
  match break (fun c => negb (isdigit c)) u with
  | ([], _) => (0, s)
  | (ds, rest) => (clamp_long (if neg then - value_of ds else value_of ds), rest)
  end.

Lemma value_of_snoc ds c : value_of (ds ++ [c]) = 10 * value_of ds + (c - 48).
Proof. unfold value_of. by rewrite foldl_app. Qed.

Lemma digits_acc fuel : forall n acc, digits fuel n acc = digits fuel n [] ++ acc.
Proof.
  induction fuel as [| fuel IH]; intros n acc; [done |]. cbn [digits]. destruct (n <? 10); [done |].
  rewrite IH, (IH _ [_]), <- app_assoc. done.
Qed.

Lemma digits_spec fuel : forall n, 0 <= n < 10 ^ Z.of_nat fuel -> (0 < fuel)%nat ->
  Forall (fun c => isdigit c = true) (digits fuel n []) /\ value_of (digits fuel n []) = n /\
  digits fuel n [] <> [].
Proof.
  induction fuel as [| fuel IH]; intros n Hn Hf; [lia |]. cbn [digits].
  pose proof (Z.mod_pos_bound n 10 ltac:(lia)) as Hm.
  assert (Hd : isdigit (48 + n mod 10) = true) by (unfold isdigit; apply andb_true_intro; split; apply Z.leb_le; lia).
  destruct (Z.ltb_spec n 10) as [Hlt | Hge].
  - split; [by constructor |]. split; [| done]. cbn. rewrite Z.mod_small by lia. lia.
  - rewrite digits_acc. destruct fuel as [| fuel].
    { change (10 ^ Z.of_nat 1) with 10 in Hn. lia. }
    rewrite Nat2Z.inj_succ, Z.pow_succ_r in Hn by lia.
    destruct (IH (n / 10)) as (F & V & N); [| lia |].
    { split; [apply Z.div_pos; lia | apply Z.div_lt_upper_bound; lia]. }
    split; [apply Forall_app; split; [done | by constructor] |]. split; [| by destruct (digits _ _ _)].
    rewrite value_of_snoc, V. pose proof (Z.div_mod n 10 ltac:(lia)). lia.
Qed.

Lemma break_digits ds rest : Forall (fun c => isdigit c = true) ds ->
  match rest with [] => True | c :: _ => isdigit c = false end ->
  break (fun c => negb (isdigit c)) (ds ++ rest) = (ds, rest).
Proof.
  intros F Hr. rewrite break_app by (eapply Forall_impl; [exact F |]; intros c Hc; cbn in Hc; by rewrite Hc).
  destruct rest as [| c rest]; cbn; [| rewrite Hr; cbn]; by rewrite app_nil_r.
Qed.

(** What [%d] prints is what [strtol] reads. *)
Lemma strtol_print_d sp n rest : -9223372036854775808 <= n < 9223372036854775808 ->
  Forall (fun c => isspace c = true) sp -> match rest with [] => True | c :: _ => isdigit c = false end ->
  strtol (sp ++ print_d n ++ rest) = (n, rest).
Proof.
  intros Hn Hsp Hr. unfold strtol.
  assert (Hskip : forall c t, isspace c = false ->
    (break (fun c => negb (isspace c)) (sp ++ c :: t)).2 = c :: t).
  { intros c t Hc. rewrite break_app by (eapply Forall_impl; [exact Hsp |]; intros x Hx; cbn in Hx; by rewrite Hx).
    cbn. by rewrite Hc. }
  set (ds := digits 20 (Z.abs n) []).
  destruct (digits_spec 20 (Z.abs n)) as (F & V & N); [change (10 ^ Z.of_nat 20) with 100000000000000000000; lia | lia |].
  fold ds in F, V, N. pose proof (break_digits ds rest F Hr) as Hb. unfold print_d.
  assert (Hcl : forall z, z = n -> clamp_long z = n) by (intros z ->; unfold clamp_long, LONG_MIN; lia).
  destruct (Z.ltb_spec n 0) as [Hneg | Hpos].
  - change ((45 :: digits 20 (- n) []) ++ rest) with (45 :: digits 20 (- n) [] ++ rest).
    replace (- n) with (Z.abs n) by lia. fold ds. rewrite Hskip by done. cbn [Z.eqb Pos.eqb].
    rewrite Hb. destruct ds; [done |]. by rewrite V, Hcl by lia.
  - replace (digits 20 n []) with ds by (unfold ds; by rewrite Z.abs_eq).
    destruct ds as [| c ds0] eqn:Ed; [done |]. apply Forall_cons in F as F'. destruct F' as [Hc _].
    unfold isdigit in Hc. apply andb_prop in Hc as [H1 H2]. apply Z.leb_le in H1, H2.
    cbn [app]. rewrite Hskip by (unfold isspace; c_cases; done || lia).
    destruct (Z.eqb_spec c 45); [lia |]. destruct (Z.eqb_spec c 43); [lia |].
    cbn [app] in Hb. by rewrite Hb, V, Hcl by lia.
Qed.

Lemma print_d_length n : -2147483648 <= n < 2147483648 -> (length (print_d n) <= 11)%nat.
Proof.
  assert (Hd : forall fuel m acc, 0 <= m < 10 ^ Z.of_nat fuel -> (0 < fuel)%nat ->
    (length (digits (10 + fuel) m acc) <= fuel + length acc)%nat).
  { induction fuel as [| fuel IH]; intros m acc Hm Hf; [lia |].
    rewrite Nat.add_succ_r. cbn [digits]. destruct (Z.ltb_spec m 10); [cbn; lia |].
    destruct fuel as [| fuel]; [change (10 ^ Z.of_nat 1) with 10 in Hm; lia |].
    etrans; [apply IH; [| lia] | cbn; lia].
    rewrite Nat2Z.inj_succ, Z.pow_succ_r in Hm by lia.
    split; [apply Z.div_pos; lia | apply Z.div_lt_upper_bound; lia]. }
  intros Hn. unfold print_d. destruct (n <? 0) eqn:E;
    pose proof (Hd 10%nat (Z.abs n) [] ltac:(change (10 ^ Z.of_nat 10) with 10000000000; lia) ltac:(lia)) as H;
    cbn [length Nat.add] in *.
  - replace (- n) with (Z.abs n) by lia. lia.
  - replace n with (Z.abs n) by lia. lia.
Qed.

(** A text that fits is printed in full. *)
Lemma snprintf_fits size text : zlen text < size -> snprintf size text = text.
Proof. intros H. unfold snprintf. apply take_ge. unfold zlen in H. lia. Qed.

(** ** Copies *)

(** The [n] bytes [strncpy] writes: the string, cut at [n] or padded with zeros. *)
Fixpoint strncpy_bytes (n : nat) (src : list Z) : outcome (list Z) :=
  match n with
  | O => mret []
  | S n' =>
    match src with
    | [] => Fault OutOfBounds
    | c :: src => if c =? 0 then mret (replicate n 0) else s ← strncpy_bytes n' src; mret (c :: s)
    end
  end.

Lemma strncpy_bytes_app s m : nul_free s -> strncpy_bytes (length s) (s ++ m) = Ok s.
Proof.
  induction s as [| c s IH]; intros Hs; [done |]. apply Forall_cons in Hs as [Hc Hs].
  cbn. destruct (Z.eqb_spec c 0); [lia |]. by rewrite IH.
Qed.

(** [strchr(s, c)] for a byte [c] other than 0: the distance to it, or [NULL]. *)
Fixpoint strchr (m : list Z) (c : Z) : outcome (option Z) :=
  match m with
  | [] => Fault OutOfBounds
  | x :: m =>
    if x =? c then mret (Some 0)
    else if x =? 0 then mret None
    else o ← strchr m c; mret (option_map (Z.add 1) o)
  end.

Definition strlen (m : list Z) : outcome Z := s ← c_str m; mret (zlen s).

(** The distance to [c] or to the end, the way callers of [strchr] compute it. *)
Lemma strchr_len s m c : nul_free s -> c <> 0 ->
  (o ← strchr (s ++ 0 :: m) c; match o with Some l => mret l | None => strlen (s ++ 0 :: m) end) =
  Ok (zlen (break (Z.eqb c) s).1).
Proof.
  intros Hs Hc. unfold strlen. rewrite c_str_app by done. rewrite bind_Ok.
  assert (E : strchr (s ++ 0 :: m) c = Ok (match (break (Z.eqb c) s).2 with [] => None | _ => Some (zlen (break (Z.eqb c) s).1) end) /\
    ((break (Z.eqb c) s).2 = [] -> (break (Z.eqb c) s).1 = s)).
  { induction s as [| x s IH].
    - cbn [app strchr break]. destruct (Z.eqb_spec 0 c); [lia |]. done.
    - apply Forall_cons in Hs as [Hx Hs]. destruct (IH Hs) as [E1 E2]. cbn [app strchr break].
      rewrite (Z.eqb_sym c x). destruct (Z.eqb_spec x c); [done |]. destruct (Z.eqb_spec x 0); [lia |].
      rewrite E1, bind_Ok. cbn [fst snd]. split; [| intros H; by rewrite E2].
      destruct (break _ s).2; [done |]. cbn. by rewrite zlen_cons. }
  destruct E as [-> E2]. rewrite bind_Ok. destruct (break (Z.eqb c) s).2; [| done]. by rewrite E2.
Qed.
