(* ===== verification/Zmalloc.v ===== *)
(** * zmalloc.c: the counting allocator

    Every allocation of the server goes through these functions, which add the
    size of each block to [used_memory] and take it off again.  The allocator
    underneath is an interface with the behaviour malloc(3) documents; with
    jemalloc, which [zmalloc.h] selects, the size of a block is the allocator's
    own ([je_malloc_usable_size]) and blocks have no prefix. *)
From Stdlib Require Import SpecFloat.
From S2P Require Import Prelude CString.

(** [M]: the allocator's state; an address is a [nat], [None] is [NULL]. *)
Class Malloc (M : Type) := {
  blocks : M -> gmap nat Z;
  je_malloc : Z -> M -> option nat * M;
  je_calloc : Z -> Z -> M -> option nat * M;
  je_realloc : nat -> Z -> M -> option nat * M;
  je_free : nat -> M -> M;
}.

(** A block that is handed out is new and large enough; a call that fails
    changes no block. *)
Definition fresh_block (m m' : gmap nat Z) (n : Z) (o : option nat) : Prop :=
  match o with
  | None => m' = m
  | Some a => m !! a = None /\ exists u, m' = <[a := u]> m /\ n <= u < 2 ^ 63
  end.

Class MallocLaws (M : Type) `{Malloc M} := {
  malloc_spec n m : 0 <= n -> fresh_block (blocks m) (blocks (je_malloc n m).2) n (je_malloc n m).1;
  calloc_spec k n m : 0 <= k -> 0 <= n -> fresh_block (blocks m) (blocks (je_calloc k n m).2) (k * n) (je_calloc k n m).1;
  realloc_spec a n m u : blocks m !! a = Some u -> 0 < n ->
    match (je_realloc a n m).1 with
    | None => blocks (je_realloc a n m).2 = blocks m
    | Some b => fresh_block (delete a (blocks m)) (blocks (je_realloc a n m).2) n (Some b)
    end;
  free_spec a m : is_Some (blocks m !! a) -> blocks (je_free a m) = delete a (blocks m);
}.

Section Zmalloc.
  Context {M : Type} `{MallocLaws M}.

Record zstate := Zstate {
  heap : M;
  used_memory : Z;
  zmalloc_thread_safe : bool;
}.

Definition with_heap (s : zstate) m := Zstate m (used_memory s) (zmalloc_thread_safe s).
Definition with_used (s : zstate) n := Zstate (heap s) n (zmalloc_thread_safe s).

(** [if (_n&(sizeof(long)-1)) _n += sizeof(long)-(_n&(sizeof(long)-1))] *)
Definition round_up (n : Z) : Z :=
  if Z.land n 7 =? 0 then n else u64 (n + (8 - Z.land n 7)).

(** Without interference both branches of the macros do the same. *)
Definition update_zmalloc_stat_alloc (n : Z) (s : zstate) : zstate := with_used s (u64 (used_memory s + round_up n)).
Definition update_zmalloc_stat_free (n : Z) (s : zstate) : zstate := with_used s (u64 (used_memory s - round_up n)).

(** [je_malloc_usable_size] of a block that is not live is undefined. *)
Definition zmalloc_size (a : nat) : ST zstate Z := fun s =>
  match blocks (heap s) !! a with Some u => Ok (u, s) | None => Fault UseAfterFree end.

(** The default handler of [zmalloc_oom_handler] aborts. *)
Definition zmalloc_default_oom {A} : ST zstate A := st_fault OutOfMemory.

(** The block, counted, if there is one. *)
Definition counted (o : option nat) : ST zstate nat :=
  match o with
  | None => zmalloc_default_oom
  | Some ptr => n ← zmalloc_size ptr; _ ← st_modify (update_zmalloc_stat_alloc n); mret ptr
  end.

Definition zmalloc (size : Z) : ST zstate nat := fun s =>
  let r := je_malloc size (heap s) in counted r.1 (with_heap s r.2).

Definition zcalloc (size : Z) : ST zstate nat := fun s =>
  let r := je_calloc 1 size (heap s) in counted r.1 (with_heap s r.2).

Definition zrealloc (ptr : option nat) (size : Z) : ST zstate nat :=
  match ptr with
  | None => zmalloc size
  | Some ptr =>
    oldsize ← zmalloc_size ptr;
    s ← st_get;
    let r := je_realloc ptr size (heap s) in
    _ ← st_modify (fun s => with_heap s r.2);
    match r.1 with
    | None => zmalloc_default_oom
    | Some newptr =>
      _ ← st_modify (update_zmalloc_stat_free oldsize);
      n ← zmalloc_size newptr;
      _ ← st_modify (update_zmalloc_stat_alloc n);
      mret newptr
    end
  end.

Definition zfree (ptr : option nat) : ST zstate unit :=
  match ptr with
  | None => mret tt
  | Some ptr =>
    n ← zmalloc_size ptr;
    _ ← st_modify (update_zmalloc_stat_free n);
    st_modify (fun s => with_heap s (je_free ptr (heap s)))
  end.

(** The copy itself is in the caller's memory, which is not modelled here. *)
Definition zstrdup (str : list Z) : ST zstate nat :=
  zmalloc (zlen str + 1).

Definition zmalloc_used_memory : ST zstate Z := s ← st_get; mret (used_memory s).

Definition zmalloc_enable_thread_safeness : ST zstate unit := st_modify (fun s => Zstate (heap s) (used_memory s) true).

(** [HAVE_PROC_STAT] and [HAVE_PROC_SMAPS] are not defined. *)
Definition zmalloc_get_rss : ST zstate Z := zmalloc_used_memory.
Definition zmalloc_get_private_dirty : Z := 0.

(** [float] is binary32; [rss] and the counter are converted to it. *)
Definition float_of (n : Z) : spec_float := binary_normalize 24 128 n 0 false.
Definition zmalloc_get_fragmentation_ratio (rss : Z) : ST zstate spec_float :=
  used ← zmalloc_used_memory; mret (SFdiv 24 128 (float_of rss) (float_of used)).

(** The variable [zmalloc_oom_handler]. *)
Definition zmalloc_set_oom_handler {H} (oom_handler zmalloc_oom_handler : H) : H := oom_handler.

(** Defined before [free] is renamed: the C library's allocator. *)
Definition zlibc_free {L} `{Malloc L} (ptr : option nat) (libc : L) : L :=
  match ptr with None => libc | Some a => je_free a libc end.

(** The allocator of the Lua states. *)
Definition zlalloc (ud ptr : option nat) (osize nsize : Z) : ST zstate (option nat) :=
  if nsize =? 0 then _ ← zfree ptr; mret None
  else p ← zrealloc ptr nsize; mret (Some p).

(** ** The counter *)

Definition total (m : gmap nat Z) : Z := map_fold (fun _ u acc => round_up u + acc) 0 m.

Lemma total_insert m a u : m !! a = None -> total (<[a := u]> m) = round_up u + total m.
Proof. intros E. unfold total. rewrite map_fold_insert_L; [done | intros; lia | done]. Qed.

Lemma total_delete m a u : m !! a = Some u -> total m = round_up u + total (delete a m).
Proof. intros E. unfold total. rewrite (map_fold_delete_L _ _ a u m); [done | intros; lia | done]. Qed.

(** [used_memory] is the rounded size of the live blocks. *)
Definition exact (s : zstate) : Prop := used_memory s = u64 (total (blocks (heap s))).

Lemma u64_add_u64 x y : u64 (u64 x + y) = u64 (x + y).
Proof. apply Zplus_mod_idemp_l. Qed.

Lemma counted_spec s m o n :
  exact s -> fresh_block (blocks (heap s)) (blocks m) n o ->
  match o with
  | None => counted o (with_heap s m) = Fault OutOfMemory
  | Some a => exists s' u, counted o (with_heap s m) = Ok (a, s') /\ exact s' /\ heap s' = m /\
      blocks (heap s) !! a = None /\ blocks m = <[a := u]> (blocks (heap s)) /\ n <= u
  end.
Proof.
  intros Ex Hf. destruct o as [a |]; [| done]. destruct Hf as (Ha & u & Em & Hu).
  unfold counted, zmalloc_size. exists (with_used (with_heap s m) (u64 (used_memory s + round_up u))), u.
  split.
  - unfold mbind, st_bind. cbn [heap with_heap]. by rewrite Em, lookup_insert_eq.
  - split; [| split; [done |]; split; [done |]; split; [done | lia]].
    unfold exact. cbn. rewrite Em, total_insert, Ex, u64_add_u64 by done. f_equal. lia.
Qed.

(** Calls of the allocator. *)
Inductive zop :=
  | Alloc (size : Z)
  | Calloc (size : Z)
  | Realloc (ptr : option nat) (size : Z)
  | Free (ptr : option nat)
  | Strdup (str : list Z)
  | Lalloc (ptr : option nat) (osize nsize : Z).

Definition zexec (o : zop) : ST zstate (option nat) :=
  match o with
  | Alloc n => p ← zmalloc n; mret (Some p)
  | Calloc n => p ← zcalloc n; mret (Some p)
  | Realloc p n => p ← zrealloc p n; mret (Some p)
  | Free p => _ ← zfree p; mret None
  | Strdup str => p ← zstrdup str; mret (Some p)
  | Lalloc p o n => zlalloc None p o n
  end.

Fixpoint zrun (os : list zop) : ST zstate (list (option nat)) :=
  match os with
  | [] => mret []
  | o :: os => r ← zexec o; rs ← zrun os; mret (r :: rs)
  end.

(** Sizes are not negative, and [realloc] is not asked for nothing. *)
Definition zop_ok (o : zop) : Prop :=
  match o with
  | Alloc n | Calloc n => 0 <= n
  | Realloc p n => 0 < n \/ (p = None /\ 0 <= n)
  | Lalloc _ _ n => 0 <= n
  | Free _ | Strdup _ => True
  end.

(** The block an operation is given. *)
Definition zop_ptr (o : zop) : option nat :=
  match o with Realloc p _ | Free p | Lalloc p _ _ => p | _ => None end.

Definition live (s : zstate) (p : option nat) : Prop :=
  match p with None => True | Some a => is_Some (blocks (heap s) !! a) end.

(** An operation keeps the counter exact, or the memory is used up, or it was
    given a block that is not live. *)
Definition counts {A} (m : ST zstate A) (p : option nat) (s : zstate) : Prop :=
  match m s with
  | Ok (_, s') => exact s'
  | Fault OutOfMemory => True
  | Fault UseAfterFree => ~ live s p
  | Fault _ => False
  end.

Lemma counts_bind {A B} (m : ST zstate A) (k : A -> B) p s : counts m p s -> counts (x ← m; mret (k x)) p s.
Proof. unfold counts, mbind, st_bind. by destruct (m s) as [[a s'] |]. Qed.

Lemma zmalloc_counts n s : exact s -> 0 <= n -> counts (zmalloc n) None s.
Proof.
  intros Ex Hn. unfold counts, zmalloc. pose proof (counted_spec s _ _ _ Ex (malloc_spec n (heap s) Hn)) as Hc.
  destruct (je_malloc n (heap s)) as [[a |] m]; cbn [fst snd] in *; [| by rewrite Hc]. by destruct Hc as (s' & u & -> & ? & _).
Qed.

Lemma zcalloc_counts n s : exact s -> 0 <= n -> counts (zcalloc n) None s.
Proof.
  intros Ex Hn. unfold counts, zcalloc. pose proof (counted_spec s _ _ _ Ex (calloc_spec 1 n (heap s) ltac:(lia) Hn)) as Hc.
  destruct (je_calloc 1 n (heap s)) as [[a |] m]; cbn [fst snd] in *; [| by rewrite Hc]. by destruct Hc as (s' & u & -> & ? & _).
Qed.

Lemma zfree_counts p s : exact s -> counts (zfree p) p s.
Proof.
  intros Ex. destruct p as [a |]; [| exact Ex]. unfold counts, zfree, zmalloc_size, mbind, st_bind.
  destruct (blocks (heap s) !! a) as [u |] eqn:E.
  - cbn. unfold exact in *. cbn. rewrite free_spec by by eexists. rewrite Ex, (total_delete _ _ _ E).
    unfold u64. rewrite Zminus_mod_idemp_l. f_equal. lia.
  - cbn. intros [u Hu]. congruence.
Qed.

Lemma zmalloc_size_Ok a s u : blocks (heap s) !! a = Some u -> zmalloc_size a s = Ok (u, s).
Proof. intros E. unfold zmalloc_size. by rewrite E. Qed.

Lemma zrealloc_counts p n s : exact s -> 0 < n \/ (p = None /\ 0 <= n) -> counts (zrealloc p n) p s.
Proof.
  intros Ex Hn. destruct p as [a |]; [| apply zmalloc_counts; [done | lia]].
  assert (Hpos : 0 < n) by (destruct Hn as [? | [? _]]; done). unfold counts, zrealloc.
  destruct (blocks (heap s) !! a) as [u |] eqn:E.
  2:{ rewrite (st_bind_Fault _ _ _ UseAfterFree) by (unfold zmalloc_size; by rewrite E). intros [u Hu]. congruence. }
  rewrite (st_bind_Ok _ _ _ _ _ (zmalloc_size_Ok _ _ _ E)). erewrite st_bind_Ok by reflexivity.
  pose proof (realloc_spec a n (heap s) u E Hpos) as Hr.
  destruct (je_realloc a n (heap s)) as [[b |] m]; cbn [fst snd] in *; [| done].
  destruct Hr as (Hb & v & Em & Hv). erewrite st_bind_Ok by reflexivity. erewrite st_bind_Ok by reflexivity.
  rewrite (st_bind_Ok _ _ _ v (update_zmalloc_stat_free u (with_heap s m))).
  2:{ apply zmalloc_size_Ok. cbn. by rewrite Em, lookup_insert_eq. }
  erewrite st_bind_Ok by reflexivity. cbn. unfold exact in *. cbn. rewrite Em, total_insert, Ex, (total_delete _ _ _ E) by done.
  unfold u64. rewrite Zminus_mod_idemp_l, Zplus_mod_idemp_l. f_equal. lia.
Qed.

Lemma zexec_counts o s : exact s -> zop_ok o -> counts (zexec o) (zop_ptr o) s.
Proof.
  intros Ex Ho. destruct o as [n | n | p n | p | t | p osz n]; cbn [zexec zop_ptr zop_ok] in *.
  - by apply counts_bind, zmalloc_counts.
  - by apply counts_bind, zcalloc_counts.
  - by apply counts_bind, zrealloc_counts.
  - by apply (counts_bind _ (fun _ => None)), zfree_counts.
  - apply counts_bind. unfold zstrdup. apply zmalloc_counts; [done | pose proof (zlen_nonneg t); lia].
  - unfold zlalloc. destruct (Z.eqb_spec n 0).
    + by apply (counts_bind _ (fun _ => None)), zfree_counts.
    + apply counts_bind, zrealloc_counts; [done | left; lia].
Qed.

(** C36: the counter of allocated memory.  Over any sequence of allocations,
    reallocations and frees, [used_memory] is at every moment the sum, modulo
    2^64, of the sizes of the live blocks, each rounded up to a multiple of 8; so
    it is 0 again when everything was freed.  The sequence ends early only if
    memory runs out, or if it passes a block that is not live. *)
Theorem used_memory_exact os s :
  exact s -> Forall zop_ok os ->
  match zrun os s with
  | Ok (_, s') => used_memory s' = u64 (total (blocks (heap s'))) /\ (blocks (heap s') = ∅ -> used_memory s' = 0)
  | Fault OutOfMemory => True
  | Fault UseAfterFree => exists os1 o os2 s1 rs, os = os1 ++ o :: os2 /\ zrun os1 s = Ok (rs, s1) /\ ~ live s1 (zop_ptr o)
  | Fault _ => False
  end.
Proof.
  intros Ex Ho. revert s Ex. induction Ho as [| o os Ho Hos IH]; intros s Ex.
  { cbn. split; [exact Ex |]. intros E. by rewrite Ex, E. }
  cbn [zrun]. unfold mbind, st_bind. pose proof (zexec_counts o s Ex Ho) as Hc. unfold counts in Hc.
  destruct (zexec o s) as [[r s1] | f] eqn:E.
  - specialize (IH s1 Hc). destruct (zrun os s1) as [[rs s2] | f]; [exact IH |]. destruct f; try done.
    destruct IH as (os1 & o' & os2 & s2 & rs & -> & E1 & Hl). exists (o :: os1), o', os2, s2, (r :: rs).
    split; [done |]. split; [| done]. cbn [zrun]. unfold mbind, st_bind. by rewrite E, E1.
  - destruct f; try done. exists [], o, os, s, []. done.
Qed.
End Zmalloc.
Arguments zstate : clear implicits.

(** ** The ratio *)

(** A positive number by itself is 1, to the last bit. *)
Lemma div_self (m : positive) e : SFdiv 24 128 (S754_finite false m e) (S754_finite false m e) = S754_finite false 8388608 (-23).
Proof.
  cbn [SFdiv xorb]. unfold SFdiv_core_binary. rewrite !Z.sub_diag.
  change (0 - Z.min (fexp 24 128 0) 0) with 24. change (Z.min (fexp 24 128 0) 0) with (-24). cbv iota.
  assert (Ed : Z.div_eucl (Z.shiftl (Z.pos m) 24) (Z.pos m) = (16777216, 0)).
  { rewrite (surjective_pairing (Z.div_eucl _ _)). change (Z.div_eucl (Z.shiftl (Z.pos m) 24) (Z.pos m)).1 with (Z.shiftl (Z.pos m) 24 / Z.pos m).
    change (Z.div_eucl (Z.shiftl (Z.pos m) 24) (Z.pos m)).2 with (Z.shiftl (Z.pos m) 24 mod Z.pos m).
    rewrite Z.shiftl_mul_pow2 by lia. rewrite (Z.mul_comm (Z.pos m)), Z_div_mult, Z_mod_mult by lia. done. }
  rewrite Ed. assert (En : new_location (Z.pos m) 0 = loc_Exact).
  { unfold new_location, new_location_even, new_location_odd. by destruct (Z.even (Z.pos m)). }
  rewrite En. vm_compute. reflexivity.
Qed.

(** The process reports no fragmentation, since [zmalloc_get_rss] is the counter
    itself; before anything is allocated it reports no number at all. *)
Theorem fragmentation_of_itself {M} `{Malloc M} (s : zstate M) :
  match float_of (used_memory s) with
  | S754_finite false _ _ => (rss ← zmalloc_get_rss; zmalloc_get_fragmentation_ratio rss) s = Ok (S754_finite false 8388608 (-23), s)
  | _ => True
  end /\
  (used_memory s = 0 -> (rss ← zmalloc_get_rss; zmalloc_get_fragmentation_ratio rss) s = Ok (S754_nan, s)).
Proof.
  assert (E : (rss ← zmalloc_get_rss; zmalloc_get_fragmentation_ratio rss) s =
    Ok (SFdiv 24 128 (float_of (used_memory s)) (float_of (used_memory s)), s)) by done.
  rewrite E. split; [| by intros ->]. destruct (float_of (used_memory s)) as [| | | [] m e]; try done. by rewrite div_self.
Qed.

(** ** The counter and threads

    With [zmalloc_thread_safe] the counter is changed by one atomic operation;
    without it, by a load and a store. *)
Inductive instr := Atomic (d : Z) | Load (d : Z) | Store (v : Z).

Definition update_stat (thread_safe : bool) (d : Z) : list instr := if thread_safe then [Atomic d] else [Load d].

Definition stat_step (t : nat) (s : Z * list (list instr)) : option (Z * list (list instr)) :=
  match s.2 !! t with
  | Some (Atomic d :: ins) => Some (u64 (s.1 + d), <[t := ins]> s.2)
  | Some (Load d :: ins) => Some (s.1, <[t := Store (u64 (s.1 + d)) :: ins]> s.2)
  | Some (Store v :: ins) => Some (v, <[t := ins]> s.2)
  | _ => None
  end.

Fixpoint stat_run (ts : list nat) (s : Z * list (list instr)) : option (Z * list (list instr)) :=
  match ts with
  | [] => Some s
  | t :: ts => s ← stat_step t s; stat_run ts s
  end.

Definition deltas (ins : list instr) : Z := foldr (fun i n => match i with Atomic d | Load d => d + n | Store _ => n end) 0 ins.
Definition all_deltas (tss : list (list instr)) : Z := foldr (fun ins n => deltas ins + n) 0 tss.
Definition atomic (i : instr) : Prop := match i with Atomic _ => True | _ => False end.

Lemma all_deltas_insert tss t i ins : tss !! t = Some (i :: ins) -> atomic i ->
  all_deltas tss = deltas [i] + all_deltas (<[t := ins]> tss).
Proof.
  revert t. induction tss as [| js tss IH]; intros [| t] E Hi; [done | done | |]; cbn in E.
  - injection E as ->. destruct i; [| done ..].
    change (d + deltas ins + all_deltas tss = d + 0 + (deltas ins + all_deltas tss)). lia.
  - change (deltas js + all_deltas tss = deltas [i] + (deltas js + all_deltas (<[t := ins]> tss))). rewrite (IH t E Hi). lia.
Qed.

Lemma stat_run_atomic ts : forall s s', stat_run ts s = Some s' -> Forall (Forall atomic) s.2 ->
  u64 (s'.1 + all_deltas s'.2) = u64 (s.1 + all_deltas s.2).
Proof.
  induction ts as [| t ts IH]; intros s s' E Ha; [by injection E as -> |]. cbn [stat_run] in E.
  destruct (stat_step t s) as [s1 |] eqn:E1; [| done]. cbn in E. unfold stat_step in E1.
  destruct (s.2 !! t) as [[| i ins] |] eqn:Et; [done | | done].
  pose proof (Forall_lookup_1 _ _ _ _ Ha Et) as Hi. apply Forall_cons in Hi as [Hi His]. destruct i as [d | |]; try done.
  injection E1 as <-. rewrite (IH _ _ E).
  - cbn [fst snd]. rewrite (all_deltas_insert _ _ _ _ Et Hi). unfold u64. rewrite Zplus_mod_idemp_l. f_equal. cbn. lia.
  - cbn [snd]. by apply Forall_insert.
Qed.

(** The counter and threads.  With atomic updates, whatever the
    interleaving, the counter ends with the sum of all updates; with the plain
    updates the server runs with, for nothing turns [zmalloc_thread_safe] on, two
    allocations at the same time can count as one. *)
Theorem zmalloc_stat_threads :
  (forall used dss sched used', stat_run sched (used, (fun ds => ds ≫= update_stat true) <$> dss) = Some (used', replicate (length dss) []) ->
     u64 used' = u64 (used + foldr Z.add 0 (concat dss))) /\
  (exists sched, stat_run sched (0, [update_stat false 8; update_stat false 8]) = Some (8, [[]; []])).
Proof.
  split; [| by exists [0; 1; 0; 1]%nat].
  intros used dss sched used' E. pose proof (stat_run_atomic _ _ _ E) as Hs. cbn [fst snd] in Hs.
  assert (Ha : Forall (Forall atomic) ((fun ds => ds ≫= update_stat true) <$> dss)).
  { apply Forall_fmap, Forall_true. intros ds. induction ds as [| d ds IH]; [constructor |]. cbn. by constructor. }
  specialize (Hs Ha). clear E Ha sched.
  assert (Hz : forall n, all_deltas (replicate n []) = 0) by (induction n as [| n IHn]; [done | exact IHn]).
  rewrite Hz, Z.add_0_r in Hs. rewrite Hs. f_equal. f_equal. clear.
  assert (Hd : forall ds, deltas (ds ≫= update_stat true) = foldr Z.add 0 ds).
  { induction ds as [| d ds IH]; [done |]. change (d + deltas (ds ≫= update_stat true) = d + foldr Z.add 0 ds). by rewrite IH. }
  assert (Happ : forall l1 l2, foldr Z.add 0 (l1 ++ l2) = foldr Z.add 0 l1 + foldr Z.add 0 l2).
  { induction l1 as [| x l1 IH]; intros l2; cbn; [done | rewrite IH; lia]. }
  induction dss as [| ds dss IH]; [done |]. cbn [concat]. rewrite Happ, <- IH, <- Hd. done.
Qed.

(** ** An allocator that hands out exactly what it is asked for *)
Record bump := Bump { b_blocks : gmap nat Z }.

Definition bump_alloc (n : Z) (m : bump) : option nat * bump :=
  let a := fresh (dom (b_blocks m)) in
  if n <? 2 ^ 63 then (Some a, Bump (<[a := n]> (b_blocks m))) else (None, m).

#[export] Instance bump_malloc : Malloc bump := {
  blocks := b_blocks;
  je_malloc := bump_alloc;
  je_calloc k n := bump_alloc (k * n);
  je_realloc a n m :=
    if n <? 2 ^ 63 then bump_alloc n (Bump (delete a (b_blocks m))) else (None, m);
  je_free a m := Bump (delete a (b_blocks m));
}.

Lemma bump_alloc_spec n m : 0 <= n -> fresh_block (b_blocks m) (b_blocks (bump_alloc n m).2) n (bump_alloc n m).1.
Proof.
  intros Hn. unfold bump_alloc. destruct (Z.ltb_spec n (2 ^ 63)); [| done]. cbn [fst snd fresh_block b_blocks].
  split; [apply not_elem_of_dom, is_fresh |]. exists n. split; [done | lia].
Qed.

#[export] Instance bump_laws : MallocLaws bump.
Proof.
  split.
  - intros n m Hn. by apply bump_alloc_spec.
  - intros k n m Hk Hn. apply bump_alloc_spec. nia.
  - intros a n m u E Hn. cbn [je_realloc bump_malloc]. destruct (Z.ltb_spec n (2 ^ 63)) as [Hlt |]; [| done].
    pose proof (bump_alloc_spec n (Bump (delete a (b_blocks m))) ltac:(lia)) as Hf. unfold bump_alloc in *.
    destruct (Z.ltb_spec n (2 ^ 63)); [exact Hf | lia].
  - done.
Qed.

Definition demo_zops : list zop :=
  [Alloc 5; Calloc 16; Strdup (str "abc"); Realloc (Some 0%nat) 9; Lalloc None 0 3; Free (Some 1%nat); Lalloc (Some 2%nat) 4 0].

Lemma used_memory_exact_witness :
  exists rs s', zrun demo_zops (Zstate (Bump ∅) 0 false) = Ok (rs, s') /\ used_memory s' = 24 /\
    used_memory s' = u64 (total (blocks (heap s'))).
Proof.
  pose proof (used_memory_exact demo_zops (Zstate (Bump ∅) 0 false) eq_refl) as Hs.
  assert (Ho : Forall zop_ok demo_zops) by (repeat constructor; by vm_compute).
  specialize (Hs Ho).
  assert (E : exists rs s', zrun demo_zops (Zstate (Bump ∅) 0 false) = Ok (rs, s') /\ used_memory s' = 24)
    by (eexists _, _; split; vm_compute; reflexivity).
  destruct E as (rs & s' & E & U). rewrite E in Hs. exists rs, s'. split; [exact E |]. split; [exact U | apply Hs].
Defined.

Lemma fragmentation_of_itself_witness :
  (rss ← zmalloc_get_rss; zmalloc_get_fragmentation_ratio rss) (Zstate (Bump ∅) 4096 false) =
    Ok (S754_finite false 8388608 (-23), Zstate (Bump ∅) 4096 false).
Proof. apply (fragmentation_of_itself (Zstate (Bump ∅) 4096 false)). Defined.
