(* ===== verification/Fifo.v ===== *)
(** * The queue interface

    Every queue of the server ([circQueue], the lock-free array queue) promises
    its clients the same thing: push appends or refuses, pop takes the oldest
    element.  [Fifo] is that promise; clients ([BlockQueue], [EventMsgQueue],
    [WorkerPool]) are proved against it and each implementation discharges it
    with an instance. *)
From S2P Require Import Prelude.

Class Fifo (Q E : Type) := {
  q_wf : Q -> Prop;
  q_elems : Q -> list E;
  q_push : E -> Q -> outcome (bool * Q);
  q_pop : Q -> outcome (option E * Q);
}.

Class FifoLaws (Q E : Type) `{Fifo Q E} := {
  q_push_spec q x : q_wf q ->
    exists ok q', q_push x q = Ok (ok, q') /\ q_wf q' /\
      q_elems q' = if ok then q_elems q ++ [x] else q_elems q;
  q_pop_nil q : q_wf q -> q_elems q = [] -> q_pop q = Ok (None, q);
  q_pop_cons q x rest : q_wf q -> q_elems q = x :: rest ->
    exists q', q_pop q = Ok (Some x, q') /\ q_wf q' /\ q_elems q' = rest;
}.

(** ** Histories *)

(** What a run of pushes and pops did: accepted pushes and the values popped. *)
Inductive event (E : Type) :=
  | Pushed (x : E)
  | Rejected (x : E)
  | Popped (x : E).
Arguments Pushed {E} x.
Arguments Rejected {E} x.
Arguments Popped {E} x.

Section history.
  Context {E : Type}.

Definition pushed (tr : list (event E)) : list E :=
  omap (fun e => match e with Pushed x => Some x | _ => None end) tr.

Definition popped (tr : list (event E)) : list E :=
  omap (fun e => match e with Popped x => Some x | _ => None end) tr.

Lemma pushed_app tr1 tr2 : pushed (tr1 ++ tr2) = pushed tr1 ++ pushed tr2.
  Proof. apply omap_app. Qed.

Lemma popped_app tr1 tr2 : popped (tr1 ++ tr2) = popped tr1 ++ popped tr2.
  Proof. apply omap_app. Qed.
End history.
#[export] Hint Rewrite @pushed_app @popped_app : zcore.

(** Popping everything: [n] pops return the [n] oldest elements in order. *)
Section drain.
  Context {Q E : Type} `{FifoLaws Q E}.

Fixpoint drain (n : nat) (q : Q) : outcome (list E * Q) :=
  match n with
  | O => mret ([], q)
  | S n =>
    r ← q_pop q;
    match r.1 with
    | None => mret ([], r.2)
    | Some x => s ← drain n r.2; mret (x :: s.1, s.2)
    end
  end.

Lemma drain_spec n q :
    q_wf q -> exists q', drain n q = Ok (take n (q_elems q), q') /\ q_wf q' /\
      q_elems q' = drop n (q_elems q).
Proof.
    revert q. induction n as [| n IH]; intros q W; [by exists q |].
    simpl. destruct (q_elems q) as [| x rest] eqn:Eq.
    - rewrite q_pop_nil by done. c_simpl. by exists q.
    - destruct (q_pop_cons q x rest W Eq) as (q1 & P & W1 & E1). rewrite P. c_simpl.
      destruct (IH q1 W1) as (q2 & D & W2 & E2). rewrite D, E1. c_simpl.
      exists q2. split; [done |]. split; [done |]. by rewrite E2, E1.
Qed.
End drain.
