(* ===== verification/CircQueue.v ===== *)
(** * circqueue.c: a growable ring of [void*]

    The ring keeps [count] elements in [entries] from [head] on, wrapping at
    [arrayElements], a power of two.  [maxEntries = 0] makes it unbounded.  The
    C functions are translated one by one; [contents] is the queue they
    implement. *)
From S2P Require Import Prelude Bits Fifo.

(** ** State and operations *)
Section CircQueue.
  Context {A : Type}.

(** A [void*] cell: [None] is [NULL]. *)
Record circQueue := CircQueue {
  head : Z;
  tail : Z;
  count : Z;
  maxEntries : Z;
  arrayElements : Z;
  entries : list (option A);
}.

Definition DEFAULT_UNBOUNDED_QUEUE_SIZE : Z := 1024.

(** [zcalloc_ok n]: [zcalloc(n)] returns a block, not [NULL].  (With the
    default out-of-memory handler it never returns [NULL]: the handler
    aborts; a handler that returns makes the [NULL] branches reachable.) *)
Variable zcalloc_ok : Z -> bool.

Definition circQueueCreate (size : Z) : option circQueue :=
  if negb (zcalloc_ok 32) then None
  else
    let elems := if (size =? 0) || (nextpow2 size =? 0)
                 then DEFAULT_UNBOUNDED_QUEUE_SIZE else nextpow2 size in
    if negb (zcalloc_ok (8 * elems)) then None
    else Some (CircQueue 0 0 0 size elems (replicate (Z.to_nat elems) None)).

Definition circQueueLength (cq : circQueue) : Z := count cq.
Definition circQueueIsEmpty (cq : circQueue) : bool := count cq =? 0.
Definition circQueueIsFull (cq : circQueue) : bool := count cq =? arrayElements cq.

Definition _circQueueGrow (cq : circQueue) : outcome (Z * circQueue) :=
  let newsize := arrayElements cq <<u 1 in
  if negb (zcalloc_ok (8 * newsize)) then mret (-1, cq)
  else
    let newents := replicate (Z.to_nat newsize) None in
    let '(headchunklen, tailchunklen) :=
      if head cq <? tail cq then (tail cq -u head cq, 0)
      else (arrayElements cq -u head cq, tail cq) in
    hchunk ← acopy_out (entries cq) (head cq) headchunklen;
    newents ← acopy_in newents 0 hchunk;
    newents ←
      (if negb (tailchunklen =? 0) then
         tchunk ← acopy_out (entries cq) 0 tailchunklen;
         acopy_in newents headchunklen tchunk
       else mret newents);
    mret (0, CircQueue 0 (headchunklen +u tailchunklen) (count cq) (maxEntries cq)
               newsize newents).

(** The statements of [circQueuePushTail] after its guards. *)
Definition pushStore (cq : circQueue) (elem : option A) : outcome (Z * circQueue) :=
  e ← aset (entries cq) (tail cq) elem;
  mret (0, CircQueue (head cq)
             (Z.land (tail cq +u 1) (arrayElements cq -u 1))
             (count cq +u 1) (maxEntries cq) (arrayElements cq) e).

Definition circQueuePushTail (cq : circQueue) (elem : option A) : outcome (Z * circQueue) :=
  if negb (maxEntries cq =? 0) then
    if count cq =? maxEntries cq then mret (-2, cq) else pushStore cq elem
  else if circQueueIsFull cq then
    r ← _circQueueGrow cq;
    if negb (r.1 =? 0) then mret (-1, r.2) else pushStore r.2 elem
  else pushStore cq elem.

Definition circQueueForcePushTail (cq : circQueue) (elem : option A) : outcome (Z * circQueue) :=
  r ← circQueuePushTail cq elem;
  if r.1 =? 0 then mret r
  else
    g ← _circQueueGrow r.2;
    if g.1 =? 0 then circQueuePushTail g.2 elem else mret (-1, g.2).

Definition circQueuePopHead (cq : circQueue) : outcome (option A * circQueue) :=
  if count cq =? 0 then mret (None, cq)
  else
    data ← aget (entries cq) (head cq);
    mret (data, CircQueue (Z.land (head cq +u 1) (arrayElements cq -u 1)) (tail cq)
                  (count cq -u 1) (maxEntries cq) (arrayElements cq) (entries cq)).

Definition circQueueClear (cq : circQueue) : circQueue :=
  CircQueue 0 0 0 (maxEntries cq) (arrayElements cq) (entries cq).

(** ** The queue a ring holds *)

Definition slot (cq : circQueue) (i : nat) : nat :=
  Z.to_nat ((head cq + Z.of_nat i) mod arrayElements cq).

Definition contents (cq : circQueue) : list (option A) :=
  (fun i => default None (entries cq !! slot cq i)) <$> seq 0 (Z.to_nat (count cq)).

Record wf (cq : circQueue) : Prop := {
  wf_pow2 : is_pow2 (arrayElements cq);
  wf_size : arrayElements cq <= 2147483648;
  wf_len : zlen (entries cq) = arrayElements cq;
  wf_head : 0 <= head cq < arrayElements cq;
  wf_count : 0 <= count cq <= arrayElements cq;
  wf_tail : tail cq = (head cq + count cq) mod arrayElements cq;
  wf_max : 0 <= maxEntries cq <= arrayElements cq;
  wf_bound : maxEntries cq <> 0 -> count cq <= maxEntries cq;
}.

Lemma contents_length cq : length (contents cq) = Z.to_nat (count cq).
  Proof. unfold contents. by rewrite length_fmap, length_seq. Qed.

Lemma contents_lookup cq i :
    (i < Z.to_nat (count cq))%nat ->
    contents cq !! i = Some (default None (entries cq !! slot cq i)).
Proof.
    intros Hi. unfold contents. rewrite list_lookup_fmap, lookup_seq_lt by lia. done.
Qed.

Lemma contents_lookup_ge cq i :
    (Z.to_nat (count cq) <= i)%nat -> contents cq !! i = None.
  Proof. intros. apply lookup_ge_None. by rewrite contents_length. Qed.

Lemma wf_pos cq : wf cq -> 0 < arrayElements cq.
  Proof. intros W. apply is_pow2_pos, W. Qed.

Lemma slot_bound cq i : wf cq -> (slot cq i < length (entries cq))%nat.
Proof.
    intros W. unfold slot. pose proof (wf_pos _ W). pose proof (wf_len _ W) as L.
    unfold zlen in L.
    pose proof (Z.mod_pos_bound (head cq + Z.of_nat i) (arrayElements cq)). lia.
Qed.

Lemma slot_inj cq i j :
    wf cq -> Z.of_nat i < arrayElements cq -> Z.of_nat j < arrayElements cq ->
    slot cq i = slot cq j -> i = j.
Proof.
    intros W Hi Hj E. pose proof (wf_pos _ W) as Hp. unfold slot in E.
    pose proof (Z.mod_pos_bound (head cq + Z.of_nat i) _ Hp).
    pose proof (Z.mod_pos_bound (head cq + Z.of_nat j) _ Hp).
    apply Z2Nat.inj in E; [|lia..]. apply mod_add_inj in E; lia.
Qed.

  (** The store after the guards appends, whenever a slot is free. *)
Lemma pushStore_spec cq x :
    wf cq -> count cq < arrayElements cq ->
    (maxEntries cq <> 0 -> count cq < maxEntries cq) ->
    exists cq', pushStore cq x = Ok (0, cq') /\ wf cq' /\
      contents cq' = contents cq ++ [x] /\
      maxEntries cq' = maxEntries cq /\ arrayElements cq' = arrayElements cq.
Proof.
    intros W Hc Hm. pose proof (wf_pos _ W) as Hp. pose proof (wf_len _ W) as Hl.
    pose proof (wf_size _ W). pose proof (wf_head _ W). pose proof (wf_count _ W).
    pose proof (wf_tail _ W) as Ht.
    pose proof (Z.mod_pos_bound (head cq + count cq) _ Hp).
    unfold pushStore. rewrite aset_Ok by lia. c_simpl.
    eexists. split; [reflexivity |].
    assert (Hcnt : count cq +u 1 = count cq + 1) by (apply u32_small; lia).
    split; [constructor | split; [| done]]; simpl; rewrite ?zlen_insert, ?Hcnt; try apply W; try lia.
    - rewrite !(u32_small _) by lia. rewrite mask_mod by apply W.
      rewrite Ht, Zplus_mod_idemp_l. f_equal. lia.
    - apply list_eq. intros i. destruct (decide (i < Z.to_nat (count cq))%nat).
      + rewrite lookup_app_l by (rewrite contents_length; lia).
        rewrite !contents_lookup by (simpl; lia). unfold slot at 1. simpl.
        rewrite list_lookup_insert_ne; [done |]. rewrite Ht. intros E.
        assert (E' : slot cq (Z.to_nat (count cq)) = slot cq i).
        { unfold slot. by rewrite Z2Nat.id by lia. }
        apply slot_inj in E'; [lia | done | lia | lia].
      + rewrite lookup_app_r by (rewrite contents_length; lia). rewrite contents_length.
        destruct (decide (i = Z.to_nat (count cq))) as [-> | Hne].
        * rewrite Nat.sub_diag, contents_lookup by (simpl; lia). unfold slot. simpl.
          rewrite Z2Nat.id, <- Ht by lia. rewrite list_lookup_insert_eq; [done |].
          unfold zlen in Hl. lia.
        * rewrite contents_lookup_ge by (simpl; lia).
          symmetry. apply lookup_ge_None. simpl. lia.
Qed.

Lemma circQueuePopHead_empty cq :
    count cq = 0 -> circQueuePopHead cq = Ok (None, cq).
  Proof. intros H. unfold circQueuePopHead. by rewrite H. Qed.

Lemma circQueuePopHead_cons cq x rest :
    wf cq -> contents cq = x :: rest ->
    exists cq', circQueuePopHead cq = Ok (x, cq') /\ wf cq' /\ contents cq' = rest /\
      maxEntries cq' = maxEntries cq /\ arrayElements cq' = arrayElements cq /\
      count cq = count cq' + 1.
Proof.
    intros W E. pose proof (wf_pos _ W) as Hp. pose proof (wf_len _ W) as Hl.
    pose proof (wf_size _ W). pose proof (wf_head _ W). pose proof (wf_count _ W).
    assert (Hc : count cq = Z.of_nat (length rest) + 1).
    { pose proof (contents_length cq) as L. rewrite E in L. simpl in L. lia. }
    unfold circQueuePopHead. destruct (Z.eqb_spec (count cq) 0); [lia |].
    assert (Hx : entries cq !! Z.to_nat (head cq) = Some x).
    { assert (Hz : contents cq !! 0%nat = Some x) by (by rewrite E).
      rewrite contents_lookup in Hz by lia. pose proof (slot_bound cq 0 W) as Hb.
      unfold slot in *. rewrite Z.add_0_r, Z.mod_small in * by lia.
      destruct (lookup_lt_is_Some_2 _ _ Hb) as [y Hy]. rewrite Hy in *. simpl in Hz. congruence. }
    rewrite (aget_Ok _ _ x) by first [done | lia]. c_simpl.
    eexists. split; [reflexivity |].
    assert (Hcnt : count cq -u 1 = count cq - 1) by (apply u32_small; lia).
    assert (Hh : Z.land (head cq +u 1) (arrayElements cq -u 1)
                 = (head cq + 1) mod arrayElements cq).
    { rewrite !(u32_small _) by lia. apply mask_mod, W. }
    split; [constructor | split; [| split; [done | split; [done | simpl; lia]]]];
      simpl; rewrite ?Hcnt; try apply W; try lia.
    - rewrite Hh. by apply Z.mod_pos_bound.
    - rewrite (wf_tail _ W), Hh, Zplus_mod_idemp_l. f_equal. lia.
    - intros Hm. pose proof (wf_bound _ W Hm). lia.
    - apply list_eq. intros i.
      destruct (decide (i < length rest)%nat).
      + rewrite contents_lookup by (simpl; lia). simpl.
        assert (Hi : contents cq !! S i = rest !! i) by (by rewrite E).
        rewrite <- Hi, contents_lookup by lia. unfold slot.
        cbn [head arrayElements entries]. rewrite Hh, Zplus_mod_idemp_l.
        by replace (head cq + 1 + Z.of_nat i) with (head cq + Z.of_nat (S i)) by lia.
      + rewrite contents_lookup_ge by (simpl; lia). symmetry. apply lookup_ge_None. lia.
Qed.

  (** ** Growing *)

  (** What a successful [_circQueueGrow] copies: the two chunks, in order. *)
Lemma _circQueueGrow_copies cq :
    wf cq -> 0 < count cq -> arrayElements cq < 2147483648 ->
    zcalloc_ok (8 * (2 * arrayElements cq)) = true ->
    let n := arrayElements cq in
    let chunk1 := take (Z.to_nat (if head cq <? tail cq then count cq else n - head cq))
                    (drop (Z.to_nat (head cq)) (entries cq)) in
    let chunk2 := if head cq <? tail cq then [] else take (Z.to_nat (tail cq)) (entries cq) in
    exists fill,
      _circQueueGrow cq =
        Ok (0, CircQueue 0 (count cq) (count cq) (maxEntries cq) (2 * n)
                 (chunk1 ++ chunk2 ++ fill)) /\
      zlen (chunk1 ++ chunk2) = count cq /\
      zlen (chunk1 ++ chunk2 ++ fill) = 2 * n.
Proof.
    intros W Hc Hn Hz n chunk1 chunk2. subst n.
    pose proof (wf_len _ W) as Hl. pose proof (wf_head _ W). pose proof (wf_count _ W).
    pose proof (wf_tail _ W) as Ht. rewrite mod_wrap in Ht by lia.
    assert (Hsh : arrayElements cq <<u 1 = 2 * arrayElements cq).
    { rewrite Z.shiftl_mul_pow2 by lia. change (2 ^ 1) with 2. rewrite u32_small; lia. }
    unfold _circQueueGrow. rewrite Hsh, Hz. cbn [negb].
    destruct (Z.ltb_spec (head cq + count cq) (arrayElements cq));
      destruct (Z.ltb_spec (head cq) (tail cq)); try lia; c_simpl.
    - assert (Hhc : tail cq -u head cq = count cq) by (rewrite u32_small; lia).
      rewrite !Hhc, (acopy_out_Ok _ (head cq)) by lia. c_simpl. fold chunk1.
      assert (L1 : zlen chunk1 = count cq).
      { apply zlen_take. rewrite zlen_drop; lia. }
      rewrite (acopy_in_Ok _ 0 chunk1) by (rewrite ?zlen_replicate; lia). c_simpl.
      rewrite u32_small by lia. rewrite Z.add_0_r, drop_replicate.
      eexists. split; [reflexivity |]. subst chunk2. simpl. rewrite app_nil_r.
      split; [done |]. rewrite zlen_app, L1. unfold zlen. rewrite length_replicate. lia.
    - assert (Hhc : arrayElements cq -u head cq = arrayElements cq - head cq)
        by (rewrite u32_small; lia).
      rewrite !Hhc, (acopy_out_Ok _ (head cq)) by lia. c_simpl. fold chunk1.
      assert (L1 : zlen chunk1 = arrayElements cq - head cq).
      { apply zlen_take. rewrite zlen_drop; lia. }
      rewrite (acopy_in_Ok _ 0 chunk1) by (rewrite ?zlen_replicate; lia). c_simpl.
      assert (Hcnt : arrayElements cq - head cq +u tail cq = count cq)
        by (rewrite u32_small; lia).
      rewrite Hcnt, drop_replicate. simpl.
      destruct (Z.eqb_spec (tail cq) 0) as [Hz0 | Hz0]; c_simpl.
      + assert (Hc2 : chunk2 = []) by (subst chunk2; by rewrite Hz0).
        rewrite Hc2. simpl. eexists. split; [reflexivity |]. rewrite app_nil_r. split; [lia |]. rewrite zlen_app, L1.
        unfold zlen in *. rewrite length_replicate. lia.
      + rewrite acopy_out_Ok by lia. c_simpl. rewrite drop_0. fold chunk2.
        assert (L2 : zlen chunk2 = tail cq) by (apply zlen_take; lia).
        rewrite acopy_in_Ok by first [lia
          | rewrite zlen_app, L1, L2; unfold zlen; rewrite length_replicate; lia].
        c_simpl. rewrite take_app_le, take_ge by (unfold zlen in *; lia).
        eexists. split; [reflexivity |]. rewrite zlen_app, L1, L2. split; [lia |].
        rewrite !zlen_app, L1, L2. unfold zlen in *.
        rewrite length_drop, length_app, length_replicate. lia.
Qed.

Lemma contents_lookup_slot cq i y :
    (i < Z.to_nat (count cq))%nat -> entries cq !! slot cq i = Some y ->
    contents cq !! i = Some y.
  Proof. intros Hi E. rewrite contents_lookup by done. by rewrite E. Qed.

  (** A ring that starts at index 0 holds a prefix of its array. *)
Lemma contents_prefix t c m n l fill :
    zlen l = c -> 0 <= c <= n -> contents (CircQueue 0 t c m n (l ++ fill)) = l.
Proof.
    intros Hl Hc. apply list_eq. intros i.
    destruct (lookup_lt_is_Some l i) as [_ Hs].
    destruct (decide (i < length l)%nat) as [Hi | Hi].
    - destruct (Hs Hi) as [y Hy]. rewrite Hy. apply contents_lookup_slot.
      { simpl. unfold zlen in Hl. lia. }
      unfold slot. cbn [head arrayElements entries]. rewrite Z.add_0_l.
      rewrite Z.mod_small by (unfold zlen in *; lia). rewrite Nat2Z.id.
      by apply lookup_app_l_Some.
    - rewrite contents_lookup_ge by (simpl; unfold zlen in *; lia).
      symmetry. apply lookup_ge_None. lia.
Qed.

  (** The two chunks [_circQueueGrow] copies are the queue. *)
Lemma chunks_contents cq :
    wf cq -> 0 < count cq ->
    take (Z.to_nat (if head cq <? tail cq then count cq else arrayElements cq - head cq))
      (drop (Z.to_nat (head cq)) (entries cq)) ++
    (if head cq <? tail cq then [] else take (Z.to_nat (tail cq)) (entries cq)) = contents cq.
Proof.
    intros W Hc. pose proof (wf_len _ W) as Hl. pose proof (wf_head _ W).
    pose proof (wf_count _ W). pose proof (wf_tail _ W) as Ht.
    unfold zlen in Hl. rewrite mod_wrap in Ht by lia.
    apply list_eq. intros i. destruct (decide (i < Z.to_nat (count cq))%nat) as [Hi | Hi].
    - destruct (lookup_lt_is_Some_2 _ _ (slot_bound cq i W)) as [y Hy].
      rewrite (contents_lookup_slot cq i y) by done.
      unfold slot in Hy. rewrite mod_wrap in Hy by lia.
      destruct (Z.ltb_spec (head cq + count cq) (arrayElements cq));
        destruct (Z.ltb_spec (head cq) (tail cq)); try lia;
        destruct (Z.ltb_spec (head cq + Z.of_nat i) (arrayElements cq)); try lia.
      + rewrite app_nil_r, lookup_take_lt, lookup_drop by lia. rewrite <- Hy. f_equal. lia.
      + rewrite lookup_app_l by (rewrite length_take, length_drop; lia).
        rewrite lookup_take_lt, lookup_drop by lia. rewrite <- Hy. f_equal. lia.
      + rewrite lookup_app_r by (rewrite length_take, length_drop; lia).
        rewrite length_take, length_drop, lookup_take_lt by lia. rewrite <- Hy. f_equal. lia.
    - rewrite contents_lookup_ge by lia. apply lookup_ge_None.
      rewrite length_app, length_take, length_drop.
      destruct (Z.ltb_spec (head cq + count cq) (arrayElements cq));
        destruct (Z.ltb_spec (head cq) (tail cq)); simpl; rewrite ?length_take; lia.
Qed.

  (** Growing doubles the array and keeps the queue. *)
Lemma _circQueueGrow_spec cq :
    wf cq -> 0 < count cq -> arrayElements cq < 2147483648 ->
    zcalloc_ok (16 * arrayElements cq) = true ->
    exists cq', _circQueueGrow cq = Ok (0, cq') /\ wf cq' /\ contents cq' = contents cq /\
      count cq' = count cq /\ maxEntries cq' = maxEntries cq /\
      arrayElements cq' = 2 * arrayElements cq.
Proof.
    intros W Hc Hn Hz.
    destruct (_circQueueGrow_copies cq W Hc Hn) as (fill & E & L1 & L2).
    { by replace (8 * (2 * arrayElements cq)) with (16 * arrayElements cq) by lia. }
    rewrite app_assoc, chunks_contents in E by done.
    rewrite chunks_contents in L1 by done. rewrite app_assoc, chunks_contents in L2 by done.
    eexists. split; [exact E |].
    pose proof (wf_count _ W). pose proof (wf_max _ W). pose proof (wf_pos _ W).
    split; [constructor | split; [apply contents_prefix; lia | done]];
      cbn [head tail count maxEntries arrayElements entries]; try apply W; try lia.
    - apply is_pow2_double, W.
    - pose proof (wf_pow2 _ W) as (k & Hk & Ek).
      assert (k < 31) by (apply (Z.pow_lt_mono_r_iff 2); lia).
      rewrite Ek, <- Z.pow_succ_r by lia. change 2147483648 with (2 ^ 31).
      apply Z.pow_le_mono_r; lia.
    - symmetry. apply Z.mod_small. lia.
Qed.

Lemma _circQueueGrow_nomem cq :
    zcalloc_ok (8 * (arrayElements cq <<u 1)) = false -> _circQueueGrow cq = Ok (-1, cq).
  Proof. intros H. unfold _circQueueGrow. by rewrite H. Qed.

  (** ** The operations, case by case *)

Lemma circQueuePushTail_full cq x :
    maxEntries cq <> 0 -> count cq = maxEntries cq -> circQueuePushTail cq x = Ok (-2, cq).
Proof.
    intros Hm Hc. unfold circQueuePushTail.
    destruct (Z.eqb_spec (maxEntries cq) 0), (Z.eqb_spec (count cq) (maxEntries cq)); done.
Qed.

Lemma circQueuePushTail_room cq x :
    wf cq -> (if maxEntries cq =? 0 then count cq < arrayElements cq
              else count cq < maxEntries cq) ->
    exists cq', circQueuePushTail cq x = Ok (0, cq') /\ wf cq' /\
      contents cq' = contents cq ++ [x] /\
      maxEntries cq' = maxEntries cq /\ arrayElements cq' = arrayElements cq.
Proof.
    intros W Hr. pose proof (wf_max _ W). unfold circQueuePushTail, circQueueIsFull.
    destruct (Z.eqb_spec (maxEntries cq) 0); cbn [negb].
    - destruct (Z.eqb_spec (count cq) (arrayElements cq)); [lia |].
      apply pushStore_spec; done.
    - destruct (Z.eqb_spec (count cq) (maxEntries cq)); [lia |].
      apply pushStore_spec; [done | lia | lia].
Qed.

Lemma circQueuePushTail_grow cq x :
    wf cq -> maxEntries cq = 0 -> count cq = arrayElements cq ->
    arrayElements cq < 2147483648 -> zcalloc_ok (16 * arrayElements cq) = true ->
    exists cq', circQueuePushTail cq x = Ok (0, cq') /\ wf cq' /\
      contents cq' = contents cq ++ [x] /\
      maxEntries cq' = maxEntries cq /\ arrayElements cq' = 2 * arrayElements cq.
Proof.
    intros W Hm Hc Hn Hz. pose proof (wf_pos _ W).
    unfold circQueuePushTail, circQueueIsFull. rewrite Hm, Hc, !Z.eqb_refl. cbn [negb].
    destruct (_circQueueGrow_spec cq W ltac:(lia) Hn Hz) as (g & E & Wg & Cg & Ng & Mg & Ag).
    rewrite E. c_simpl.
    destruct (pushStore_spec g x Wg) as (cq' & P & W' & C' & M' & A'); [lia | lia |].
    change (0 =? 0) with true. cbn [negb]. rewrite P.
    exists cq'. split; [done |]. split; [done |]. rewrite C', Cg, M', A', Mg, Ag. done.
Qed.

Lemma circQueuePushTail_nomem cq x :
    maxEntries cq = 0 -> count cq = arrayElements cq ->
    zcalloc_ok (8 * (arrayElements cq <<u 1)) = false ->
    circQueuePushTail cq x = Ok (-1, cq).
Proof.
    intros Hm Hc Hz. unfold circQueuePushTail, circQueueIsFull.
    rewrite Hm, Hc, !Z.eqb_refl. cbn [negb]. by rewrite _circQueueGrow_nomem.
Qed.

  (** Forcing a push onto a full bounded ring grows the array and fails all
      the same: the second [circQueuePushTail] meets the same bound. *)
Lemma circQueueForcePushTail_full cq x :
    wf cq -> maxEntries cq <> 0 -> count cq = maxEntries cq ->
    arrayElements cq < 2147483648 -> zcalloc_ok (16 * arrayElements cq) = true ->
    exists cq', circQueueForcePushTail cq x = Ok (-2, cq') /\ wf cq' /\
      contents cq' = contents cq /\ count cq' = count cq /\
      maxEntries cq' = maxEntries cq /\ arrayElements cq' = 2 * arrayElements cq.
Proof.
    intros W Hm Hc Hn Hz. pose proof (wf_max _ W). unfold circQueueForcePushTail.
    rewrite circQueuePushTail_full by done. c_simpl. change (-2 =? 0) with false. cbn iota.
    destruct (_circQueueGrow_spec cq W ltac:(lia) Hn Hz) as (g & E & Wg & Cg & Ng & Mg & Ag).
    rewrite E. c_simpl. change (0 =? 0) with true. cbn iota.
    exists g. rewrite circQueuePushTail_full by congruence. done.
Qed.

Lemma circQueueForcePushTail_ok cq x cq' :
    circQueuePushTail cq x = Ok (0, cq') -> circQueueForcePushTail cq x = Ok (0, cq').
  Proof. intros E. unfold circQueueForcePushTail. by rewrite E. Qed.

Lemma circQueueCreate_spec size cq :
    0 <= size <= 2147483648 -> circQueueCreate size = Some cq ->
    wf cq /\ contents cq = [] /\ maxEntries cq = size /\
    arrayElements cq = (if size =? 0 then 1024 else nextpow2 size).
Proof.
    intros Hs E. unfold circQueueCreate in E.
    destruct (zcalloc_ok 32); [cbn [negb] in E | done].
    assert (Hsz : (if (size =? 0) || (nextpow2 size =? 0)
                   then DEFAULT_UNBOUNDED_QUEUE_SIZE else nextpow2 size)
                  = if size =? 0 then 1024 else nextpow2 size).
    { destruct (Z.eqb_spec size 0); [done |]. simpl.
      destruct (nextpow2_spec size ltac:(lia)) as [_ H].
      destruct (Z.eqb_spec (nextpow2 size) 0); [lia | done]. }
    rewrite Hsz in E. set (n := if size =? 0 then 1024 else nextpow2 size) in *.
    assert (Hn : is_pow2 n /\ size <= n <= 2147483648 /\ 0 < n).
    { subst n. destruct (Z.eqb_spec size 0) as [-> |]; [split; [by exists 10 | lia] |].
      destruct (nextpow2_spec size ltac:(lia)) as [E2 H].
      split; [apply is_pow2_nextpow2; lia |]. split; [split; [lia |] | lia].
      rewrite E2. change 2147483648 with (2 ^ 31). apply Z.pow_le_mono_r; [lia |].
      apply Z.log2_up_le_pow2; lia. }
    destruct Hn as (Hp & Hle & Hpos).
    destruct (zcalloc_ok (8 * n)); [| done]. injection E as <-.
    split; [constructor; cbn [head tail count maxEntries arrayElements entries] | done];
      try lia; try done.
    apply zlen_replicate. lia.
Qed.

  (** ** The ring as a bounded FIFO queue *)

Inductive op := OPush (x : option A) | OPop | OLength.
Inductive res := RPush (r : Z) | RPop (x : option A) | RLength (n : Z).

Definition step (cq : circQueue) (o : op) : outcome (res * circQueue) :=
  match o with
  | OPush x => r ← circQueuePushTail cq x; mret (RPush r.1, r.2)
  | OPop => r ← circQueuePopHead cq; mret (RPop r.1, r.2)
  | OLength => mret (RLength (circQueueLength cq), cq)
  end.

Fixpoint run (cq : circQueue) (os : list op) : outcome (list res) :=
  match os with
  | [] => mret []
  | o :: os => r ← step cq o; rs ← run r.2 os; mret (r.1 :: rs)
  end.

(** The specification: a list with a capacity. *)
Definition spec_step (max : Z) (l : list (option A)) (o : op) : res * list (option A) :=
  match o with
  | OPush x => if zlen l =? max then (RPush (-2), l) else (RPush 0, l ++ [x])
  | OPop => match l with [] => (RPop None, []) | x :: r => (RPop x, r) end
  | OLength => (RLength (zlen l), l)
  end.

Fixpoint spec_run (max : Z) (l : list (option A)) (os : list op) : list res :=
  match os with
  | [] => []
  | o :: os => let r := spec_step max l o in r.1 :: spec_run max r.2 os
  end.

Lemma count_contents cq : wf cq -> count cq = zlen (contents cq).
  Proof. intros W. pose proof (wf_count _ W). unfold zlen. rewrite contents_length. lia. Qed.

Lemma step_refines cq o :
    wf cq -> maxEntries cq <> 0 ->
    exists cq', step cq o = Ok ((spec_step (maxEntries cq) (contents cq) o).1, cq') /\
      wf cq' /\ maxEntries cq' = maxEntries cq /\
      contents cq' = (spec_step (maxEntries cq) (contents cq) o).2.
Proof.
    intros W Hm. pose proof (count_contents _ W) as Hc. pose proof (wf_bound _ W Hm).
    destruct o as [x | |]; simpl.
    - destruct (Z.eqb_spec (zlen (contents cq)) (maxEntries cq)).
      + rewrite circQueuePushTail_full by lia. c_simpl. exists cq. done.
      + destruct (circQueuePushTail_room cq x W) as (cq' & E & W' & C & M & _).
        { destruct (Z.eqb_spec (maxEntries cq) 0); lia. }
        rewrite E. c_simpl. exists cq'. done.
    - destruct (contents cq) as [| x rest] eqn:E.
      + rewrite circQueuePopHead_empty by (rewrite Hc; done). c_simpl. exists cq. done.
      + destruct (circQueuePopHead_cons cq x rest W E) as (cq' & P & W' & C & M & _).
        rewrite P. c_simpl. exists cq'. done.
    - c_simpl. unfold circQueueLength. rewrite Hc. exists cq. done.
Qed.

Lemma run_refines os cq :
    wf cq -> maxEntries cq <> 0 -> run cq os = Ok (spec_run (maxEntries cq) (contents cq) os).
Proof.
    revert cq. induction os as [| o os IH]; intros cq W Hm; [done |]. simpl.
    destruct (step_refines cq o W Hm) as (cq' & E & W' & M & C).
    rewrite E. c_simpl. rewrite IH by first [done | congruence].
    c_simpl. by rewrite M, C.
Qed.
End CircQueue.
Arguments circQueue : clear implicits.

(** ** The ring as an instance of the queue interface

    For a bounded ring no allocation happens after creation, so the laws hold
    whatever [zcalloc] does. *)
Definition pushTailAccepts {A} (zok : Z -> bool) (x : option A) (cq : circQueue A)
    : outcome (bool * circQueue A) :=
  r ← circQueuePushTail zok cq x; mret (r.1 =? 0, r.2).

Definition popHeadIfAny {A} (cq : circQueue A) : outcome (option (option A) * circQueue A) :=
  if circQueueIsEmpty cq then mret (None, cq)
  else r ← circQueuePopHead cq; mret (Some r.1, r.2).

#[export] Instance circQueue_fifo {A} (zok : Z -> bool) : Fifo (circQueue A) (option A) := {
  q_wf cq := wf cq /\ maxEntries cq <> 0;
  q_elems := contents;
  q_push := pushTailAccepts zok;
  q_pop := popHeadIfAny;
}.

#[export] Instance circQueue_fifo_laws {A} (zok : Z -> bool) :
  @FifoLaws (circQueue A) (option A) (circQueue_fifo zok).
Proof.
  split; simpl.
  - intros cq x [W Hm]. unfold pushTailAccepts.
    destruct (decide (count cq = maxEntries cq)) as [Hf | Hf].
    + rewrite circQueuePushTail_full by done. c_simpl. by exists false, cq.
    + pose proof (wf_bound _ W Hm).
      destruct (circQueuePushTail_room zok cq x W) as (cq' & E & W' & C & M & _).
      { destruct (Z.eqb_spec (maxEntries cq) 0); lia. }
      rewrite E. c_simpl. exists true, cq'. rewrite M. done.
  - intros cq [W _] E. unfold popHeadIfAny, circQueueIsEmpty.
    by rewrite (count_contents _ W), E.
  - intros cq x rest [W Hm] E. unfold popHeadIfAny, circQueueIsEmpty.
    rewrite (count_contents _ W), E. change (zlen (x :: rest)) with (Z.of_nat (S (length rest))).
    destruct (Z.eqb_spec (Z.of_nat (S (length rest))) 0); [lia |].
    destruct (circQueuePopHead_cons cq x rest W E) as (cq' & P & W' & C & M & _).
    rewrite P. c_simpl. exists cq'. rewrite M. done.
Qed.

(** ** Properties *)

(** C11: a ring created with a bound [1 <= size <= 2^31] is a FIFO queue of
    capacity [size]: any sequence of pushes, pops and length queries runs
    without a fault and returns what the list specification returns. *)
Theorem circQueue_bounded_fifo {A} zok size (cq : circQueue A) os :
  1 <= size <= 2147483648 -> circQueueCreate zok size = Some cq ->
  run zok cq os = Ok (spec_run size [] os).
Proof.
  intros Hs E. destruct (circQueueCreate_spec zok size cq ltac:(lia) E) as (W & C & M & _).
  rewrite run_refines by first [done | lia]. by rewrite M, C.
Qed.

Lemma circQueue_bounded_fifo_witness :
  exists cq, circQueueCreate (fun _ => true) 2 = Some cq /\
    run (fun _ => true) cq [OPush (Some 7); OPush None; OPush (Some 9); OPop; OLength] =
    Ok (spec_run 2 [] [OPush (Some 7); OPush None; OPush (Some 9); OPop; OLength]).
Proof.
  eexists. split; [reflexivity |].
  apply (circQueue_bounded_fifo (fun _ => true) 2); [lia | reflexivity].
Defined.

(** An unbounded ring below [2^31] slots accepts every push as long as
    allocation succeeds, appending the element even when the array has to be
    reallocated and the two chunks of the ring moved. *)
Theorem circQueue_unbounded_push {A} zok (cq : circQueue A) x :
  wf cq -> maxEntries cq = 0 -> arrayElements cq < 2147483648 ->
  zok (16 * arrayElements cq) = true ->
  exists cq', circQueuePushTail zok cq x = Ok (0, cq') /\ wf cq' /\
    contents cq' = contents cq ++ [x] /\ maxEntries cq' = 0.
Proof.
  intros W Hm Hn Hz. pose proof (wf_count _ W).
  destruct (Z.eq_dec (count cq) (arrayElements cq)) as [Hc | Hc].
  - destruct (circQueuePushTail_grow zok cq x W Hm Hc Hn Hz) as (cq' & E & W' & C & M & _).
    exists cq'. rewrite M. done.
  - destruct (circQueuePushTail_room zok cq x W) as (cq' & E & W' & C & M & _).
    { rewrite Hm. simpl. lia. }
    exists cq'. rewrite M. done.
Qed.

Definition full4 : circQueue Z :=
  CircQueue 1 1 4 0 4 [Some 13; Some 10; Some 11; Some 12].

Lemma full4_wf : wf full4.
Proof. split; try reflexivity; try (cbn; lia). by exists 2. Qed.

Lemma circQueue_unbounded_push_witness :
  exists cq', circQueuePushTail (fun _ => true) full4 (Some 14) = Ok (0, cq') /\
    contents cq' = [Some 10; Some 11; Some 12; Some 13; Some 14].
Proof.
  destruct (circQueue_unbounded_push (fun _ => true) full4 (Some 14) full4_wf)
    as (cq' & E & _ & C & _); [reflexivity | reflexivity | reflexivity |].
  exists cq'. split; [exact E | exact C].
Defined.

(** A full bounded ring. *)
Definition bounded2 : circQueue Z := CircQueue 0 0 2 2 2 [Some 1; Some 2].

Lemma bounded2_wf : wf bounded2.
Proof. split; try reflexivity; try (cbn; lia). by exists 1. Qed.

(** Pushes of [1 .. n]. *)
Definition pushes (n : nat) : list op := (fun i => OPush (Some (Z.of_nat i))) <$> seq 1 n.

(** Above [2^31] the bound is not honoured: [nextpow2] wraps to [0], the
    ring falls back to 1024 slots while [maxEntries] keeps the larger bound,
    and the 1025th push overwrites the oldest element. *)
Theorem circQueue_oversized_overwrites :
  exists cq, circQueueCreate (fun _ => true) 2147483649 = Some cq /\
    last <$> (run (fun _ => true) cq (pushes 1025 ++ [OPop]) : outcome _) =
      Ok (Some (RPop (Some 1025))) /\
    last (spec_run 2147483649 [] (pushes 1025 ++ [OPop])) = Some (RPop (Some 1)).
Proof. eexists. split; [reflexivity |]. split; vm_compute; reflexivity. Qed.
