(* ===== verification/BlockQueue.v ===== *)
(** * queue.c, blockqueue.c, globalqueue.c: locked queues of [void*]

    Each C function takes the mutex for its whole body, so a call is one
    atomic step; the exception is [blockQueueTake], whose [pthread_cond_wait]
    gives the mutex up.  [Queue] and [BlockQueue] translate the bodies;
    [BlockQueue.bstep] interleaves them over threads, with the condition
    variable's waiters and the threads it has woken as part of the state. *)
From S2P Require Import Prelude Bits Fifo CircQueue.

(** ** queue.c *)
Module Queue.
Section Queue.
  Context {A : Type}.
  Variable zcalloc_ok zmalloc_ok : Z -> bool.

Record queue := Mk {
  cq : circQueue A;
  ud : option A;
}.

Definition queueCreate (maxSize : Z) (ud : option A) : option queue :=
  match circQueueCreate zcalloc_ok maxSize with
  | None => None
  | Some c => if negb (zmalloc_ok 56) then None else Some (Mk c ud)
  end.

Definition queueForcePush (q : queue) (elem : option A) : outcome (Z * queue) :=
  r ← circQueueForcePushTail zcalloc_ok (cq q) elem;
  mret (r.1, Mk r.2 (ud q)).

Definition queuePush (q : queue) (elem : option A) : outcome (Z * queue) :=
  r ← circQueuePushTail zcalloc_ok (cq q) elem;
  mret (r.1, Mk r.2 (ud q)).

Definition queueTake (q : queue) : outcome (option A * queue) :=
  if negb (circQueueIsEmpty (cq q)) then
    r ← circQueuePopHead (cq q); mret (r.1, Mk r.2 (ud q))
  else mret (None, q).

Definition queueLength (q : queue) : Z := circQueueLength (cq q).

Lemma queueTake_cons q x rest :
    wf (cq q) -> contents (cq q) = x :: rest ->
    exists q', queueTake q = Ok (x, q') /\ wf (cq q') /\ contents (cq q') = rest /\ ud q' = ud q.
Proof.
    intros W E. destruct (circQueuePopHead_cons _ x rest W E) as (c & P & W' & C & _).
    unfold queueTake, circQueueIsEmpty. rewrite (count_contents _ W), E.
    change (zlen (x :: rest)) with (Z.of_nat (S (length rest))).
    destruct (Z.eqb_spec (Z.of_nat (S (length rest))) 0); [lia |].
    rewrite P. c_simpl. by eexists.
Qed.
End Queue.
Arguments queue : clear implicits.
End Queue.

(** ** blockqueue.c *)
Module BlockQueue.
Section BlockQueue.
  Context {A : Type}.
  Variable zcalloc_ok zmalloc_ok : Z -> bool.

Definition blockQueueCreate (maxSize : Z) : option (circQueue A) :=
  match circQueueCreate zcalloc_ok maxSize with
  | None => None
  | Some c => if negb (zmalloc_ok 96) then None else Some c
  end.

(** Result: the return value, whether [pthread_cond_signal] was called, and
    the queue. *)
Definition blockQueuePush (q : circQueue A) (elem : option A)
    : outcome (Z * bool * circQueue A) :=
  r ← circQueuePushTail zcalloc_ok q elem;
  if r.1 <? 0 then mret (-1, false, r.2) else mret (0, true, r.2).

Definition blockQueueExit (q : circQueue A) : outcome (bool * circQueue A) :=
  r ← circQueueForcePushTail zcalloc_ok q None;
  mret (true, r.2).

(** One turn of [blockQueueTake] with the mutex held: [None] is a return to
    [pthread_cond_wait], [Some elem] the return of [elem]. *)
Definition blockQueueTake_turn (q : circQueue A) : outcome (option (option A) * circQueue A) :=
  if circQueueIsEmpty q then mret (None, q)
  else r ← circQueuePopHead q; mret (Some r.1, r.2).

Definition blockQueueLength (q : circQueue A) : Z := circQueueLength q.

(** ** Threads on a blocking queue *)

(** [waiting] threads are blocked in [pthread_cond_wait]; [woken] ones have
    been signalled and have yet to reacquire the mutex. *)
Record bstate := BState {
  bq : circQueue A;
  waiting : list nat;
  woken : list nat;
  trace : list (event (option A));
}.

(** [pthread_cond_signal]: wakes one waiter, if there is one. *)
Inductive signal : list nat -> list nat -> list nat -> list nat -> Prop :=
  | signal_none wo : signal [] wo [] wo
  | signal_one t w1 w2 wo : signal (w1 ++ t :: w2) wo (w1 ++ w2) (t :: wo).

Inductive bstep : bstate -> bstate -> Prop :=
  | BPush q q' w wo w' wo' tr x :
      blockQueuePush q x = Ok (0, true, q') -> signal w wo w' wo' ->
      bstep (BState q w wo tr) (BState q' w' wo' (tr ++ [Pushed x]))
  | BReject q q' w wo tr x :
      blockQueuePush q x = Ok (-1, false, q') ->
      bstep (BState q w wo tr) (BState q' w wo (tr ++ [Rejected x]))
  (** a thread enters [blockQueueTake] and finds the queue empty *)
  | BWait q q' w wo tr t :
      blockQueueTake_turn q = Ok (None, q') ->
      bstep (BState q w wo tr) (BState q' (t :: w) wo tr)
  (** a thread enters [blockQueueTake] and returns *)
  | BTake q q' w wo tr x :
      blockQueueTake_turn q = Ok (Some x, q') ->
      bstep (BState q w wo tr) (BState q' w wo (tr ++ [Popped x]))
  (** a woken thread reacquires the mutex *)
  | BRewait q q' w wo1 t wo2 tr :
      blockQueueTake_turn q = Ok (None, q') ->
      bstep (BState q w (wo1 ++ t :: wo2) tr) (BState q' (t :: w) (wo1 ++ wo2) tr)
  | BRetake q q' w wo1 t wo2 tr x :
      blockQueueTake_turn q = Ok (Some x, q') ->
      bstep (BState q w (wo1 ++ t :: wo2) tr) (BState q' w (wo1 ++ wo2) (tr ++ [Popped x]))
  (** POSIX allows spurious wake-ups *)
  | BSpurious q w1 t w2 wo tr :
      bstep (BState q (w1 ++ t :: w2) wo tr) (BState q (w1 ++ w2) (t :: wo) tr).

Definition binit (q : circQueue A) : bstate := BState q [] [] [].

(** The invariant: whoever still waits, every queued element has a woken
    thread coming for it; and the queue is what was pushed and not yet taken. *)
Record binv (s : bstate) : Prop := {
  binv_wf : wf (bq s) /\ maxEntries (bq s) <> 0;
  binv_wake : waiting s <> [] -> (length (contents (bq s)) <= length (woken s))%nat;
  binv_fifo : pushed (trace s) = popped (trace s) ++ contents (bq s);
}.

Lemma turn_wait_inv q q' :
    wf q -> blockQueueTake_turn q = Ok (None, q') -> q' = q /\ contents q = [].
Proof.
    intros W. unfold blockQueueTake_turn, circQueueIsEmpty. rewrite (count_contents _ W).
    destruct (Z.eqb_spec (zlen (contents q)) 0) as [E |].
    - intros [= <-]. split; [done |]. apply length_zero_iff_nil. unfold zlen in E. lia.
    - intros ?. inv_ok. c_simpl. discriminate.
Qed.

Lemma turn_take_inv q q' x :
    wf q -> maxEntries q <> 0 -> blockQueueTake_turn q = Ok (Some x, q') ->
    contents q = x :: contents q' /\ wf q' /\ maxEntries q' <> 0.
Proof.
    intros W Hm. unfold blockQueueTake_turn, circQueueIsEmpty. rewrite (count_contents _ W).
    destruct (Z.eqb_spec (zlen (contents q)) 0) as [E | Hne]; [done |].
    destruct (contents q) as [| y rest] eqn:Ec; [done |].
    destruct (circQueuePopHead_cons q y rest W Ec) as (c & P & W' & C & M & _).
    rewrite P. c_simpl. intros [= <- <-]. split; [congruence |]. split; [done | congruence].
Qed.

Lemma push_inv q q' x ret sig :
    wf q -> maxEntries q <> 0 -> blockQueuePush q x = Ok (ret, sig, q') ->
    wf q' /\ maxEntries q' <> 0 /\
    (ret = 0 /\ sig = true /\ contents q' = contents q ++ [x] \/
     ret = -1 /\ sig = false /\ q' = q /\ zlen (contents q) = maxEntries q).
Proof.
    intros W Hm. unfold blockQueuePush.
    destruct (decide (count q = maxEntries q)) as [Hf | Hf].
    - rewrite circQueuePushTail_full by done. c_simpl. change (-2 <? 0) with true.
      intros [= <- <- <-]. split; [done |]. split; [done |]. right.
      by rewrite <- (count_contents _ W).
    - pose proof (wf_bound _ W Hm).
      destruct (circQueuePushTail_room zcalloc_ok q x W) as (c & E & W' & C & M & _).
      { destruct (Z.eqb_spec (maxEntries q) 0); lia. }
      rewrite E. c_simpl. change (0 <? 0) with false. intros [= <- <- <-].
      split; [done |]. split; [congruence |]. by left.
Qed.

Lemma signal_counts w wo w' wo' :
    signal w wo w' wo' -> (w' <> [] -> length wo' = S (length wo)) /\ (w' <> [] -> w <> []).
Proof.
    intros []; split; intros Hn; try done. destruct w1; done.
Qed.

Lemma binv_step s s' : bstep s s' -> binv s -> binv s'.
Proof.
    intros St [[W Hm] Hw Hf].
    destruct St as [q q' w wo w' wo' tr x E S | q q' w wo tr x E | q q' w wo tr t E
      | q q' w wo tr x E | q q' w wo1 t wo2 tr E | q q' w wo1 t wo2 tr x E | q w1 t w2 wo tr];
      simpl in *.
    - apply push_inv in E as (W' & M' & [(_ & _ & C) | (? & _)]); [| done..].
      apply signal_counts in S as [S1 S2].
      split; simpl; [done | |]; rewrite C.
      + intros Hn. rewrite length_app, (S1 Hn). simpl. specialize (Hw (S2 Hn)). lia.
      + by rewrite pushed_app, popped_app, Hf, app_nil_r, app_assoc.
    - apply push_inv in E as (W' & M' & [(? & _) | (_ & _ & -> & _)]); [done | | done..].
      split; simpl; [done | done |]. by rewrite pushed_app, popped_app, !app_nil_r.
    - apply turn_wait_inv in E as [-> C]; [| done]. split; simpl; [done | | done].
      rewrite C. simpl. lia.
    - apply turn_take_inv in E as (C & W' & M'); [| done..]. split; simpl; [done | |].
      + intros Hn. specialize (Hw Hn). rewrite C in Hw. simpl in Hw. lia.
      + rewrite pushed_app, popped_app, app_nil_r, Hf, C. by rewrite <- app_assoc.
    - apply turn_wait_inv in E as [-> C]; [| done]. split; simpl; [done | | done].
      rewrite C. simpl. lia.
    - apply turn_take_inv in E as (C & W' & M'); [| done..]. split; simpl; [done | |].
      + intros Hn. specialize (Hw Hn). rewrite C in Hw.
        rewrite !length_app in *. simpl in Hw. lia.
      + rewrite pushed_app, popped_app, app_nil_r, Hf, C. by rewrite <- app_assoc.
    - split; simpl; [done | | done]. intros _.
      assert (Hn : w1 ++ t :: w2 <> []) by (by destruct w1). specialize (Hw Hn). lia.
Qed.

Lemma binv_reachable q s :
    wf q -> maxEntries q <> 0 -> contents q = [] -> rtc bstep (binit q) s -> binv s.
Proof.
    intros W Hm C R. remember (binit q) as s0 eqn:E0.
    assert (I0 : binv s0) by (subst; split; simpl; [done | done | by rewrite C]).
    clear E0. induction R; eauto using binv_step.
Qed.
End BlockQueue.
Arguments bstate : clear implicits.
End BlockQueue.

(** ** globalqueue.c *)
Module GlobalQueue.
Section GlobalQueue.
  Context {A : Type}.
  Variable zcalloc_ok zmalloc_ok : Z -> bool.

(** The static [BQ] is the [circQueue] state; [None] before [globalqueueInit]. *)
Definition globalqueueInit : Z * option (circQueue A) :=
  (0, BlockQueue.blockQueueCreate zcalloc_ok zmalloc_ok 1024).

Definition globalqueuePush (BQ : option (circQueue A)) (ctx : option A)
    : outcome (Z * circQueue A) :=
  q ← deref BQ;
  r ← BlockQueue.blockQueuePush zcalloc_ok q ctx;
  if r.1.1 <? 0 then mret (-1, r.2) else mret (0, r.2).

Definition globalqueueLength (BQ : option (circQueue A)) : outcome Z :=
  q ← deref BQ; mret (BlockQueue.blockQueueLength q).

Definition globalqueueExit (BQ : option (circQueue A)) : outcome (circQueue A) :=
  q ← deref BQ; r ← BlockQueue.blockQueueExit zcalloc_ok q; mret r.2.
End GlobalQueue.
End GlobalQueue.

(** ** Properties *)

Definition bq_start : circQueue nat :=
  CircQueue 0 0 0 2 2 [None; None].

Lemma bq_start_wf : wf bq_start.
Proof. split; try reflexivity; try (cbn; lia). by exists 1. Qed.

(** C12: no wakeup of the blocking queue is lost, and it is FIFO.  In every
    state any interleaving of pushes, takes, waits, wakeups and spurious
    wakeups of any number of threads reaches, the takes have returned a prefix
    of the accepted pushes in order, the rest is still queued, and as long as
    some thread waits there is a woken thread on its way for every queued
    element; in particular threads never all sleep on a non-empty queue. *)
Theorem blockQueue_no_lost_wakeup {A} zok (q : circQueue A) s :
  wf q -> maxEntries q <> 0 -> contents q = [] ->
  rtc (BlockQueue.bstep zok) (BlockQueue.binit q) s ->
  pushed (BlockQueue.trace s) = popped (BlockQueue.trace s) ++ contents (BlockQueue.bq s) /\
  (BlockQueue.waiting s <> [] ->
   (length (contents (BlockQueue.bq s)) <= length (BlockQueue.woken s))%nat).
Proof.
  intros W Hm C R. destruct (BlockQueue.binv_reachable zok q s W Hm C R). done.
Qed.

Lemma blockQueue_no_lost_wakeup_witness :
  exists s : BlockQueue.bstate nat,
    rtc (BlockQueue.bstep (fun _ => true)) (BlockQueue.binit bq_start) s /\
    BlockQueue.waiting s = [1%nat] /\ BlockQueue.woken s = [0%nat] /\
    length (contents (BlockQueue.bq s)) = 1%nat /\
    pushed (BlockQueue.trace s) = popped (BlockQueue.trace s) ++ contents (BlockQueue.bq s).
Proof.
  set (R := rtc (BlockQueue.bstep (fun _ => true)) (BlockQueue.binit bq_start)
     (BlockQueue.BState (CircQueue 0 1 1 2 2 [Some 5%nat; None]) [1%nat] [0%nat]
        [Pushed (Some 5%nat)])).
  assert (r : R).
  { eapply rtc_l; [eapply (BlockQueue.BWait _ _ _ _ _ _ 0%nat); reflexivity |].
    eapply rtc_l; [eapply (BlockQueue.BWait _ _ _ _ _ _ 1%nat); reflexivity |].
    eapply rtc_l; [eapply BlockQueue.BPush;
      [reflexivity | apply (BlockQueue.signal_one 0%nat [1%nat] [])] |].
    apply rtc_refl. }
  eexists. split; [exact r |]. split; [reflexivity |]. split; [reflexivity |].
  split; [reflexivity |].
  apply (blockQueue_no_lost_wakeup (fun _ => true) bq_start _ bq_start_wf); done.
Defined.

(** [blockQueueExit] on a full bounded queue does not queue the [NULL] that
    tells the consumer to stop: the element is lost, and the call reports
    success. *)
Theorem blockQueueExit_full_lost {A} zok (q : circQueue A) :
  wf q -> maxEntries q <> 0 -> count q = maxEntries q ->
  arrayElements q < 2147483648 -> zok (16 * arrayElements q) = true ->
  exists q', BlockQueue.blockQueueExit zok q = Ok (true, q') /\ contents q' = contents q.
Proof.
  intros W Hm Hc Hn Hz.
  destruct (circQueueForcePushTail_full zok q None W Hm Hc Hn Hz) as (q' & E & _ & C & _).
  exists q'. unfold BlockQueue.blockQueueExit. by rewrite E.
Qed.

Lemma blockQueueExit_full_lost_witness :
  exists q', BlockQueue.blockQueueExit (fun _ => true) bounded2 = Ok (true, q') /\
    contents q' = [Some 1; Some 2].
Proof.
  destruct (blockQueueExit_full_lost (fun _ => true) bounded2 bounded2_wf)
    as (q' & E & C); [done | reflexivity | reflexivity | reflexivity |].
  exists q'. split; [exact E | exact C].
Defined.
