(* ===== verification/LockFree.v ===== *)
(** * arraylockfreequeue.c, contextqueue.c, messagequeue.c

    The three files are one algorithm over three element types: a bounded
    multi-producer multi-consumer array queue on four atomic counters.  Every
    access to a shared field is one step of a thread ([push_step],
    [pop_step]), following the code statement by statement; [lstep]
    interleaves threads.  The sequential functions [lfPush] and [lfPop] run
    the same steps to completion with no interference; the higher layers use
    them through the [Fifo] interface. *)
From S2P Require Import Prelude Bits Fifo.

Section LockFree.
  Context {A : Type}.

(** ** Shared state *)
Record lfq := LFQ {
  lcount : Z;
  writeIndex : Z;
  readIndex : Z;
  maximumReadIndex : Z;
  items : list A;
  size : Z;
}.

(** [zcalloc] fills the array with [zero]: [NULL] pointers or zeroed
    structures. *)
Definition lfCreate (zero : A) (size : Z) : lfq :=
  let size := nextpow2 size in
  LFQ 0 0 0 0 (replicate (Z.to_nat size) zero) size.

Definition lfSize (q : lfq) : Z := lcount q.

Definition countToIndex (q : lfq) (count : Z) : Z := Z.land count (size q -u 1).

Definition set_lcount (q : lfq) c :=
  LFQ c (writeIndex q) (readIndex q) (maximumReadIndex q) (items q) (size q).
Definition set_writeIndex (q : lfq) w :=
  LFQ (lcount q) w (readIndex q) (maximumReadIndex q) (items q) (size q).
Definition set_readIndex (q : lfq) r :=
  LFQ (lcount q) (writeIndex q) r (maximumReadIndex q) (items q) (size q).
Definition set_maximumReadIndex (q : lfq) m :=
  LFQ (lcount q) (writeIndex q) (readIndex q) m (items q) (size q).
Definition set_items (q : lfq) l :=
  LFQ (lcount q) (writeIndex q) (readIndex q) (maximumReadIndex q) l (size q).

(** ** The code of a thread, one shared access per step *)

(** Where a thread is inside [Push] or [Pop]; locals are arguments. *)
Inductive pc :=
  | PushReadW (x : A)
  | PushReadR (x : A) (cw : Z)
  | PushCas (x : A) (cw : Z)
  | PushStore (x : A) (cw : Z)
  | PushPublish (x : A) (cw : Z)
  | PushCount
  | PushDone (ok : bool)
  | PopReadR
  | PopReadM (cr : Z)
  | PopReadItem (cr : Z)
  | PopCas (cr : Z) (v : A)
  | PopCount (v : A)
  | PopDone (v : option A).

Definition push_step (q : lfq) (p : pc) : outcome (lfq * pc) :=
  match p with
  | PushReadW x => Ok (q, PushReadR x (writeIndex q))
  | PushReadR x cw =>
    if countToIndex q (cw +u 1) =? countToIndex q (readIndex q)
    then Ok (q, PushDone false) else Ok (q, PushCas x cw)
  | PushCas x cw =>
    if writeIndex q =? cw
    then Ok (set_writeIndex q (cw +u 1), PushStore x cw) else Ok (q, PushReadW x)
  | PushStore x cw =>
    l ← aset (items q) (countToIndex q cw) x;
    Ok (set_items q l, PushPublish x cw)
  | PushPublish x cw =>
    if maximumReadIndex q =? cw
    then Ok (set_maximumReadIndex q (cw +u 1), PushCount) else Ok (q, PushPublish x cw)
  | PushCount => Ok (set_lcount q (lcount q +u 1), PushDone true)
  | p => Ok (q, p)
  end.

Definition pop_step (q : lfq) (p : pc) : outcome (lfq * pc) :=
  match p with
  | PopReadR => Ok (q, PopReadM (readIndex q))
  | PopReadM cr =>
    if countToIndex q cr =? countToIndex q (maximumReadIndex q)
    then Ok (q, PopDone None) else Ok (q, PopReadItem cr)
  | PopReadItem cr => v ← aget (items q) (countToIndex q cr); Ok (q, PopCas cr v)
  | PopCas cr v =>
    if readIndex q =? cr
    then Ok (set_readIndex q (cr +u 1), PopCount v) else Ok (q, PopReadR)
  | PopCount v => Ok (set_lcount q (lcount q -u 1), PopDone (Some v))
  | p => Ok (q, p)
  end.

Definition tstep (q : lfq) (p : pc) : outcome (lfq * pc) :=
  match p with
  | PushReadW _ | PushReadR _ _ | PushCas _ _ | PushStore _ _ | PushPublish _ _ | PushCount =>
    push_step q p
  | _ => pop_step q p
  end.

Definition returned (p : pc) : bool :=
  match p with PushDone _ | PopDone _ => true | _ => false end.

(** ** Threads

    [hist] and [taken] are ghost state: the values whose push claimed an
    index, in index order, and the values whose pop claimed an index. *)
Record lstate := LState {
  sh : lfq;
  thr : list pc;
  hist : list A;
  taken : list A;
}.

Definition ghost_hist (p p' : pc) (h : list A) : list A :=
  match p, p' with PushCas x _, PushStore _ _ => h ++ [x] | _, _ => h end.

Definition ghost_taken (p p' : pc) (tk : list A) : list A :=
  match p, p' with PopCas _ v, PopCount _ => tk ++ [v] | _, _ => tk end.

Inductive lstep : lstate -> lstate -> Prop :=
  | LStep q ts h tk t p q' p' :
      ts !! t = Some p -> returned p = false -> tstep q p = Ok (q', p') ->
      lstep (LState q ts h tk)
        (LState q' (<[t := p']> ts) (ghost_hist p p' h) (ghost_taken p p' tk))
  (** a thread whose call has returned makes another *)
  | LCallPush q ts h tk t p x :
      ts !! t = Some p -> returned p = true ->
      lstep (LState q ts h tk) (LState q (<[t := PushReadW x]> ts) h tk)
  | LCallPop q ts h tk t p :
      ts !! t = Some p -> returned p = true ->
      lstep (LState q ts h tk) (LState q (<[t := PopReadR]> ts) h tk).

(** [n] threads, none of them in a call, on a fresh queue. *)
Definition linit (zero : A) (sz : Z) (n : nat) : lstate :=
  LState (lfCreate zero sz) (replicate n (PopDone None)) [] [].

(** ** The invariant *)

(** The index a push has claimed and its value; and whether it is stored. *)
Definition claim (p : pc) : option (Z * A) :=
  match p with PushStore x cw | PushPublish x cw => Some (cw, x) | _ => None end.

Definition stored (p : pc) : bool :=
  match p with PushPublish _ _ => true | _ => false end.

(** What [lcount] still owes to calls that have published or claimed. *)
Definition owed (p : pc) : Z :=
  match p with PushCount => 1 | PopCount _ => -1 | _ => 0 end.

Definition owed_all (ts : list pc) : Z := foldr (fun p a => owed p + a) 0 ts.

(** The cell index [i] of the unbounded queue lives in. *)
Definition cell (q : lfq) (i : Z) : option A := items q !! Z.to_nat (i mod size q).

(** What a thread's locals guarantee; stale reads are harmless because the
    guarantee is conditional on the counter not having moved. *)
Definition local_ok (q : lfq) (h : list A) (p : pc) : Prop :=
  match p with
  | PushReadR _ cw => 0 <= cw <= writeIndex q
  | PushCas _ cw =>
    0 <= cw <= writeIndex q /\ (cw = writeIndex q -> cw + 1 <= readIndex q + size q - 1)
  | PopReadM cr => 0 <= cr <= readIndex q
  | PopReadItem cr => 0 <= cr <= readIndex q /\ (cr = readIndex q -> cr < maximumReadIndex q)
  | PopCas cr v => 0 <= cr <= readIndex q /\
      (cr = readIndex q -> cr < maximumReadIndex q /\ h !! Z.to_nat cr = Some v)
  | _ => True
  end.

Definition claim_ok (q : lfq) (h : list A) (p : pc) : Prop :=
  forall i x, claim p = Some (i, x) ->
    maximumReadIndex q <= i < writeIndex q /\ h !! Z.to_nat i = Some x /\
    (stored p = true -> cell q i = Some x).

Record linv (s : lstate) : Prop := {
  li_pow2 : is_pow2 (size (sh s));
  li_size : size (sh s) <= 2147483648;
  li_len : zlen (items (sh s)) = size (sh s);
  li_w : writeIndex (sh s) = zlen (hist s);
  li_r : readIndex (sh s) = zlen (taken s);
  li_order : readIndex (sh s) <= maximumReadIndex (sh s) <= writeIndex (sh s);
  li_cap : writeIndex (sh s) <= readIndex (sh s) + size (sh s) - 1;
  li_taken : taken s = take (length (taken s)) (hist s);
  li_cells : forall i, readIndex (sh s) <= i < maximumReadIndex (sh s) ->
    cell (sh s) i = hist s !! Z.to_nat i;
  li_local : forall t p, thr s !! t = Some p -> local_ok (sh s) (hist s) p;
  li_claim : forall t p, thr s !! t = Some p -> claim_ok (sh s) (hist s) p;
  li_uniq : forall t1 t2 p1 p2 i x1 x2, thr s !! t1 = Some p1 -> thr s !! t2 = Some p2 ->
    claim p1 = Some (i, x1) -> claim p2 = Some (i, x2) -> t1 = t2;
  li_owner : forall i, maximumReadIndex (sh s) <= i < writeIndex (sh s) ->
    exists t p x, thr s !! t = Some p /\ claim p = Some (i, x);
  li_count : u32 (lcount (sh s) + owed_all (thr s)) =
    maximumReadIndex (sh s) - readIndex (sh s);
}.

(** ** Index arithmetic *)

Lemma countToIndex_mod (q : lfq) c :
    is_pow2 (size q) -> size q <= 2147483648 -> countToIndex q c = c mod size q.
Proof.
    intros Hp Hs. pose proof (is_pow2_pos _ Hp). unfold countToIndex.
    rewrite u32_small by lia. by apply mask_mod.
Qed.

Lemma countToIndex_u32 (q : lfq) c :
    is_pow2 (size q) -> size q <= 2147483648 -> countToIndex q (u32 c) = c mod size q.
Proof.
    intros Hp Hs. pose proof (is_pow2_pos _ Hp). unfold countToIndex.
    rewrite (u32_small (size q - 1)) by lia. apply mask_u32; [done | lia].
Qed.

Lemma cell_insert_ne (q : lfq) i j x :
    is_pow2 (size q) -> 0 < Z.abs (i - j) < size q ->
    cell (set_items q (<[Z.to_nat (i mod size q) := x]> (items q))) j = cell q j.
Proof.
    intros Hp H. unfold cell. cbn [items set_items size]. apply is_pow2_pos in Hp.
    rewrite list_lookup_insert_ne; [done |]. intros E.
    apply (mod_neq i j (size q) H). pose proof (Z.mod_pos_bound i _ Hp).
    pose proof (Z.mod_pos_bound j _ Hp). lia.
Qed.

Lemma cell_insert_eq (q : lfq) i x :
    is_pow2 (size q) -> zlen (items q) = size q ->
    cell (set_items q (<[Z.to_nat (i mod size q) := x]> (items q))) i = Some x.
Proof.
    intros Hp H. unfold cell. cbn [items set_items size]. apply is_pow2_pos in Hp.
    pose proof (Z.mod_pos_bound i _ Hp). apply list_lookup_insert_eq. unfold zlen in H. lia.
Qed.

(** ** Thread bookkeeping *)

Lemma owed_all_insert ts t p p' :
    ts !! t = Some p -> owed_all (<[t := p']> ts) = owed_all ts - owed p + owed p'.
Proof.
    revert t. induction ts as [| p0 ts IH]; intros [| t] E; simplify_eq/=; [lia |].
    rewrite (IH t E). lia.
Qed.

Lemma u32_shift a b d :
    u32 a = b -> 0 <= b + d < 4294967296 -> u32 (a + d) = b + d.
  Proof. intros <- H. rewrite <- u32_add_l. by apply u32_small. Qed.

Lemma local_ok_mono (q q' : lfq) h h' p :
    writeIndex q <= writeIndex q' -> readIndex q <= readIndex q' ->
    maximumReadIndex q <= maximumReadIndex q' -> size q' = size q ->
    (forall i v, h !! i = Some v -> h' !! i = Some v) ->
    local_ok q h p -> local_ok q' h' p.
Proof.
    intros Hw Hr Hm Hs Hh. destruct p; simpl; rewrite ?Hs; try done; try lia.
    intros [H1 H2]. split; [lia |]. intros E.
    destruct (H2 ltac:(lia)). split; [lia | auto].
Qed.

  (** A step that leaves the shared state alone. *)
Lemma linv_quiet q ts h tk t p p' :
    linv (LState q ts h tk) -> ts !! t = Some p ->
    claim p = None -> claim p' = None -> owed p = owed p' -> local_ok q h p' ->
    linv (LState q (<[t := p']> ts) h tk).
Proof.
    intros I Ht Hc Hc' Ho Hl. destruct I. constructor; cbn [sh thr hist taken] in *; try done.
    - intros t' p0 [(-> & <- & _) | (? & ?)]%list_lookup_insert_Some; eauto.
    - intros t' p0 [(-> & <- & _) | (? & ?)]%list_lookup_insert_Some; [| eauto].
      intros i x E. congruence.
    - intros t1 t2 p1 p2 i x1 x2
        [(-> & <- & _) | (? & ?)]%list_lookup_insert_Some
        [(-> & <- & _) | (? & ?)]%list_lookup_insert_Some E1 E2; try congruence; eauto.
    - intros i Hi. destruct (li_owner0 i Hi) as (t' & p0 & x & E & Ec).
      exists t', p0, x. split; [| done]. rewrite list_lookup_insert_ne; [done |]. congruence.
    - rewrite (owed_all_insert _ _ _ _ Ht). rewrite <- li_count0. f_equal. lia.
Qed.

  (** The fields that talk about all threads, after thread [t] moved from [p]
      to [p'] and the shared state from [q] to [q']. *)
Lemma linv_threads q q' ts h h' tk t p p' :
    linv (LState q ts h tk) -> ts !! t = Some p ->
    (forall t' p0, t' <> t -> ts !! t' = Some p0 ->
       local_ok q h p0 -> claim_ok q h p0 -> local_ok q' h' p0 /\ claim_ok q' h' p0) ->
    local_ok q' h' p' -> claim_ok q' h' p' ->
    (forall t' p0 i x x', t' <> t -> ts !! t' = Some p0 -> claim p' = Some (i, x) ->
       claim p0 = Some (i, x') -> False) ->
    (forall t' p0, <[t := p']> ts !! t' = Some p0 -> local_ok q' h' p0) /\
    (forall t' p0, <[t := p']> ts !! t' = Some p0 -> claim_ok q' h' p0) /\
    (forall t1 t2 p1 p2 i x1 x2, <[t := p']> ts !! t1 = Some p1 ->
       <[t := p']> ts !! t2 = Some p2 ->
       claim p1 = Some (i, x1) -> claim p2 = Some (i, x2) -> t1 = t2).
Proof.
    intros I Ht Ho Hl Hc Hu. split; [| split].
    - intros t' p0 [(-> & <- & _) | (Hne & E)]%list_lookup_insert_Some; [done |].
      eapply Ho; [by apply not_eq_sym | done | by eapply (li_local _ I) | by eapply (li_claim _ I)].
    - intros t' p0 [(-> & <- & _) | (Hne & E)]%list_lookup_insert_Some; [done |].
      eapply Ho; [by apply not_eq_sym | done | by eapply (li_local _ I) | by eapply (li_claim _ I)].
    - intros t1 t2 p1 p2 i x1 x2
        [(-> & <- & _) | (N1 & E1)]%list_lookup_insert_Some
        [(-> & <- & _) | (N2 & E2)]%list_lookup_insert_Some C1 C2; [done | | |].
      + exfalso. eapply (Hu t2); [by apply not_eq_sym | done..].
      + exfalso. eapply (Hu t1); [by apply not_eq_sym | done..].
      + eapply (li_uniq _ I t1 t2); done.
Qed.

  (** An index no push has published yet still has its owner. *)
Lemma linv_owner q ts h tk t p p' i :
    linv (LState q ts h tk) -> ts !! t = Some p ->
    maximumReadIndex q <= i < writeIndex q ->
    (forall x, claim p = Some (i, x) -> claim p' = Some (i, x)) ->
    exists t' p0 x, <[t := p']> ts !! t' = Some p0 /\ claim p0 = Some (i, x).
Proof.
    intros I Ht Hi Hk. destruct (li_owner _ I i Hi) as (t' & p0 & x & E & Ec).
    cbn [thr] in E. destruct (decide (t' = t)) as [-> | Hne].
    - exists t, p', x. split; [| apply Hk; congruence].
      apply list_lookup_insert_eq. by apply lookup_lt_Some in Ht.
    - exists t', p0, x. split; [| done]. by rewrite list_lookup_insert_ne by done.
Qed.

Lemma linv_claim_index q ts h tk t x cw :
    linv (LState q ts h tk) -> ts !! t = Some (PushCas x cw) ->
    writeIndex q = cw -> zlen h + 1 < 4294967296 ->
    linv (LState (set_writeIndex q (cw +u 1)) (<[t := PushStore x cw]> ts) (h ++ [x]) tk).
Proof.
    intros I Ht <- Hb. pose proof (li_local _ I _ _ Ht) as [Hw Hcap]. specialize (Hcap eq_refl).
    pose proof (li_w _ I) as Ew. cbn [sh hist thr] in *. rewrite u32_small by lia.
    destruct (linv_threads q (set_writeIndex q (writeIndex q + 1)) ts h (h ++ [x]) tk t
                (PushCas x (writeIndex q)) (PushStore x (writeIndex q)) I Ht)
      as (L1 & L2 & L3).
    - intros t' p0 _ _ Hl Hc. split.
      + eapply local_ok_mono; [.. | exact Hl]; cbn; try lia.
        intros. by apply lookup_app_l_Some.
      + intros i y E. destruct (Hc i y E) as (? & ? & ?). cbn.
        split; [lia |]. split; [by apply lookup_app_l_Some | done].
    - done.
    - intros i y [= <- <-]. cbn. pose proof (li_order _ I). cbn in *.
      split; [lia |]. split; [| done].
      rewrite Ew. unfold zlen. by rewrite Nat2Z.id, list_lookup_middle.
    - intros t' p0 i y y' Hne E [= <- <-] Ec.
      destruct (li_claim _ I t' p0 E _ _ Ec) as (? & _). cbn in *. lia.
    - destruct I. constructor; cbn [sh thr hist taken] in *; cbn; try done; try lia.
      + rewrite zlen_app. change (zlen [x]) with 1. lia.
      + rewrite li_taken0 at 1. rewrite take_app_le; [done |]. unfold zlen in *. lia.
      + intros i Hi. unfold cell in *. cbn. rewrite li_cells0 by done.
        rewrite lookup_app_l by (unfold zlen in *; lia). done.
      + intros i Hi. destruct (Z.eq_dec i (writeIndex q)) as [-> | Hne].
        * exists t, (PushStore x (writeIndex q)), x. split; [| done].
          apply list_lookup_insert_eq. by apply lookup_lt_Some in Ht.
        * eapply (linv_owner q ts h tk); [by constructor | done | lia | done].
      + rewrite (owed_all_insert _ _ _ _ Ht). cbn. rewrite <- li_count0. f_equal. lia.
Qed.

Lemma linv_store q ts h tk t x cw :
    linv (LState q ts h tk) -> ts !! t = Some (PushStore x cw) ->
    linv (LState (set_items q (<[Z.to_nat (cw mod size q) := x]> (items q)))
            (<[t := PushPublish x cw]> ts) h tk).
Proof.
    intros I Ht. destruct (li_claim _ I _ _ Ht cw x eq_refl) as (Hi & Hh & _).
    pose proof (li_cap _ I) as Hcap. pose proof (li_order _ I) as Hord.
    pose proof (li_pow2 _ I) as Hp. cbn [sh hist thr taken] in *.
    set (q' := set_items q _).
    destruct (linv_threads q q' ts h h tk t (PushStore x cw) (PushPublish x cw) I Ht)
      as (L1 & L2 & L3).
    - intros t' p0 Hne E Hl Hc. split.
      + by eapply local_ok_mono; [.. | exact Hl].
      + intros i y Ec. destruct (Hc i y Ec) as (H1 & H2 & H3). split; [done |].
        split; [done |]. intros Hs. unfold q'. rewrite cell_insert_ne; [auto | done |].
        assert (i <> cw); [| lia]. intros ->. apply Hne. symmetry.
        by eapply (li_uniq _ I t t').
    - done.
    - intros i y [= <- <-]. split; [done |]. split; [done |]. intros _.
      apply cell_insert_eq; [done | apply (li_len _ I)].
    - intros t' p0 i y y' Hne E [= <- <-] Ec. apply Hne. symmetry.
      by eapply (li_uniq _ I t t').
    - pose proof I as I'. destruct I'. constructor; cbn [sh thr hist taken] in *; cbn; try done.
      + by rewrite zlen_insert.
      + intros i Hr. unfold q'. rewrite cell_insert_ne; [auto | done | lia].
      + intros i Hr. eapply (linv_owner q ts h tk); done.
      + rewrite (owed_all_insert _ _ _ _ Ht). cbn. rewrite <- li_count0. f_equal. lia.
Qed.

Lemma linv_publish q ts h tk t x cw :
    linv (LState q ts h tk) -> ts !! t = Some (PushPublish x cw) ->
    maximumReadIndex q = cw -> zlen h < 4294967296 ->
    linv (LState (set_maximumReadIndex q (cw +u 1)) (<[t := PushCount]> ts) h tk).
Proof.
    intros I Ht <- Hb.
    destruct (li_claim _ I _ _ Ht (maximumReadIndex q) x eq_refl) as (Hi & Hh & Hst).
    specialize (Hst eq_refl). pose proof (li_cap _ I) as Hcap.
    pose proof (li_order _ I) as Hord. pose proof (li_w _ I) as Ew.
    pose proof (li_r _ I) as Er. pose proof (zlen_nonneg tk).
    cbn [sh hist thr taken] in *. rewrite u32_small by lia.
    set (q' := set_maximumReadIndex q _).
    destruct (linv_threads q q' ts h h tk t (PushPublish x (maximumReadIndex q)) PushCount I Ht)
      as (L1 & L2 & L3).
    - intros t' p0 Hne E Hl Hc. split.
      + eapply local_ok_mono; [.. | exact Hl]; cbn; first [done | lia].
      + intros i y Ec. destruct (Hc i y Ec) as (H1 & H2 & H3). split; [| done].
        assert (i <> maximumReadIndex q); [| cbn; lia]. intros ->. apply Hne. symmetry.
        by eapply (li_uniq _ I t t').
    - done.
    - done.
    - done.
    - pose proof I as I'. destruct I'. constructor; cbn [sh thr hist taken] in *; cbn; try done; try lia.
      + intros i Hr. destruct (Z.eq_dec i (maximumReadIndex q)) as [-> | Hne].
        * by rewrite Hh.
        * apply li_cells0. lia.
      + intros i Hr. eapply (linv_owner q ts h tk); try done; [lia |]. intros y Ec; injection Ec; lia.
      + rewrite (owed_all_insert _ _ _ _ Ht). cbn.
        replace (lcount q + _) with (lcount q + owed_all ts + 1) by lia.
        rewrite (u32_shift _ _ 1 li_count0); lia.
Qed.

Lemma linv_count q ts h tk t p p' c :
    linv (LState q ts h tk) -> ts !! t = Some p -> claim p = None -> claim p' = None ->
    local_ok q h p' -> u32 (c + owed p') = u32 (lcount q + owed p) ->
    linv (LState (set_lcount q c) (<[t := p']> ts) h tk).
Proof.
    intros I Ht C C' Hl Ho.
    destruct (linv_threads q (set_lcount q c) ts h h tk t p p' I Ht) as (L1 & L2 & L3);
      try done.
    - intros i y E. congruence.
    - intros t' p0 i y y' Hne E Ec. congruence.
    - pose proof I as I'. destruct I'. constructor; cbn [sh thr hist taken] in *; cbn; try done.
      + intros i Hr. eapply (linv_owner q ts h tk); try done. intros y E. congruence.
      + rewrite (owed_all_insert _ _ _ _ Ht). rewrite <- li_count0.
        replace (c + _) with (c + owed p' + (owed_all ts - owed p)) by lia.
        rewrite <- u32_add_l, Ho, u32_add_l. f_equal. lia.
Qed.

Lemma linv_take q ts h tk t cr v :
    linv (LState q ts h tk) -> ts !! t = Some (PopCas cr v) ->
    readIndex q = cr -> zlen h < 4294967296 ->
    linv (LState (set_readIndex q (cr +u 1)) (<[t := PopCount v]> ts) h (tk ++ [v])).
Proof.
    intros I Ht <- Hb.
    destruct (li_local _ I _ _ Ht) as (Hr & Hv). destruct (Hv eq_refl) as (Hm & Hh). clear Hv.
    pose proof (li_cap _ I) as Hcap. pose proof (li_order _ I) as Hord.
    pose proof (li_w _ I) as Ew. pose proof (li_r _ I) as Er. pose proof (zlen_nonneg tk).
    pose proof (li_size _ I). cbn [sh hist thr taken] in *. rewrite u32_small by lia.
    set (q' := set_readIndex q _).
    destruct (linv_threads q q' ts h h tk t (PopCas (readIndex q) v) (PopCount v) I Ht)
      as (L1 & L2 & L3).
    - intros t' p0 Hne E Hl Hc. split; [| done].
      eapply local_ok_mono; [.. | exact Hl]; cbn; first [done | lia].
    - done.
    - done.
    - done.
    - pose proof I as I'. destruct I'. constructor; cbn [sh thr hist taken] in *; cbn; try done; try lia.
      + rewrite zlen_app. change (zlen [v]) with 1. lia.
      + rewrite li_taken0 at 1. rewrite length_app. simpl. rewrite Nat.add_1_r.
        rewrite (take_S_r _ _ v); [done |]. rewrite <- Hh, Er. unfold zlen. f_equal. lia.
      + intros i Hi. apply li_cells0. lia.
      + intros i Hi. eapply (linv_owner q ts h tk); done.
      + rewrite (owed_all_insert _ _ _ _ Ht). cbn.
        replace (lcount q + _) with (lcount q + owed_all ts + (-1)) by lia.
        rewrite (u32_shift _ _ (-1) li_count0); lia.
Qed.

(** ** The invariant holds in every execution *)

Lemma linv_push_step q ts h tk t p q' p' :
    linv (LState q ts h tk) -> ts !! t = Some p -> push_step q p = Ok (q', p') ->
    zlen (ghost_hist p p' h) < 4294967296 ->
    linv (LState q' (<[t := p']> ts) (ghost_hist p p' h) (ghost_taken p p' tk)).
Proof.
    intros I Ht E Hb. pose proof (li_pow2 _ I) as Hp. pose proof (li_size _ I) as Hs.
    pose proof (li_local _ I _ _ Ht) as Hl. pose proof (li_cap _ I) as Hcap.
    pose proof (li_len _ I) as Hln.
    pose proof (zlen_nonneg h). pose proof (li_w _ I). cbn [sh hist thr taken] in *.
    destruct p; simpl in E.
    - injection E as <- <-. eapply linv_quiet; try done. cbn. lia.
    - rewrite countToIndex_u32, countToIndex_mod in E by done.
      destruct (Z.eqb_spec ((cw + 1) mod size q) (readIndex q mod size q)) as [| Hne];
        injection E as <- <-; (eapply linv_quiet; [done | done | done | done | done |]); [done |].
      cbn in *. split; [lia |]. intros ->. apply is_pow2_pos in Hp.
      destruct (Z.eq_dec (writeIndex q + 1) (readIndex q + size q)) as [Heq | ?]; [| lia].
      exfalso. apply Hne. rewrite Heq. replace (readIndex q + size q) with (readIndex q + 1 * size q) by lia.
      apply Z.mod_add. lia.
    - destruct (Z.eqb_spec (writeIndex q) cw) as [Hw |]; injection E as <- <-; cbn in *.
      + apply linv_claim_index; try done. rewrite zlen_app in Hb. apply Hb.
      + eapply linv_quiet; done.
    - destruct (li_claim _ I _ _ Ht cw x eq_refl) as ((? & ?) & _).
      rewrite countToIndex_mod, aset_Ok in E; try done; simpl in E.
      + injection E as <- <-. by apply linv_store.
      + rewrite Hln. apply Z.mod_pos_bound. by apply is_pow2_pos.
    - destruct (Z.eqb_spec (maximumReadIndex q) cw) as [Hw |]; injection E as <- <-; cbn in *.
      + by eapply linv_publish.
      + rewrite list_insert_id by done. done.
    - injection E as <- <-. cbn in *. eapply linv_count; try done. cbn.
      by rewrite Z.add_0_r, u32_u32.
    - injection E as <- <-. cbn. by rewrite list_insert_id by done.
    - injection E as <- <-. cbn. by rewrite list_insert_id by done.
    - injection E as <- <-. cbn. by rewrite list_insert_id by done.
    - injection E as <- <-. cbn. by rewrite list_insert_id by done.
    - injection E as <- <-. cbn. by rewrite list_insert_id by done.
    - injection E as <- <-. cbn. by rewrite list_insert_id by done.
    - injection E as <- <-. cbn. by rewrite list_insert_id by done.
Qed.

Lemma linv_pop_step q ts h tk t p q' p' :
    linv (LState q ts h tk) -> ts !! t = Some p -> pop_step q p = Ok (q', p') ->
    zlen h < 4294967296 ->
    linv (LState q' (<[t := p']> ts) h (ghost_taken p p' tk)).
Proof.
    intros I Ht E Hb. pose proof (li_pow2 _ I) as Hp. pose proof (li_size _ I) as Hs.
    pose proof (li_local _ I _ _ Ht) as Hl. pose proof (li_r _ I).
    pose proof (zlen_nonneg tk). cbn [sh hist thr taken] in *.
    destruct p; simpl in E;
      try (injection E as <- <-; cbn; rewrite list_insert_id by done; done).
    - injection E as <- <-. eapply linv_quiet; try done. cbn. lia.
    - rewrite !countToIndex_mod in E by done.
      destruct (Z.eqb_spec (cr mod size q) (maximumReadIndex q mod size q)) as [| Hne];
        injection E as <- <-; (eapply linv_quiet; [done | done | done | done | done |]); [done |].
      cbn in *. split; [lia |]. intros ->. pose proof (li_order _ I) as Ho. cbn in Ho.
      assert (readIndex q <> maximumReadIndex q); [congruence | lia].
    - rewrite countToIndex_mod in E by done. apply bind_Ok_inv in E as (v & Ev & E).
      injection E as <- <-. apply aget_Ok_inv in Ev as (_ & Ev).
      eapply linv_quiet; try done. cbn in *. split; [lia |]. intros Hr.
      destruct Hl as (_ & Hm). specialize (Hm Hr). split; [done |].
      pose proof (li_cells _ I cr) as Hcl. pose proof (li_order _ I) as Ho.
      cbn in Hcl, Ho. rewrite <- Hcl; [done | lia].
    - destruct (Z.eqb_spec (readIndex q) cr) as [Hr |]; injection E as <- <-; cbn in *.
      + by apply linv_take.
      + eapply linv_quiet; done.
    - injection E as <- <-. cbn in *. eapply linv_count; try done. cbn.
      by rewrite Z.add_0_r, u32_u32.
Qed.

Lemma ghost_hist_mono p p' (h : list A) : zlen h <= zlen (ghost_hist p p' h).
Proof.
    destruct p, p'; cbn; try lia. rewrite zlen_app. change (zlen [x]) with 1. lia.
Qed.

Lemma lstep_hist_mono s s' : lstep s s' -> zlen (hist s) <= zlen (hist s').
  Proof. intros []; cbn; auto using ghost_hist_mono with lia. Qed.

Lemma linv_step s s' :
    lstep s s' -> linv s -> zlen (hist s') < 4294967296 -> linv s'.
Proof.
    intros [q ts h tk t p q' p' Ht Hr E | q ts h tk t p x Ht Hr | q ts h tk t p Ht Hr] I;
      cbn; intros Hb.
    - unfold tstep in E.
      destruct p; cbn iota in E;
        first [eapply linv_push_step; eassumption | eapply linv_pop_step; eassumption].
    - destruct p; try done; by eapply linv_quiet.
    - destruct p; try done; by eapply linv_quiet.
Qed.

Lemma owed_all_idle n : owed_all (replicate n (PopDone None)) = 0.
  Proof. induction n as [| n IH]; [done | exact IH]. Qed.

Lemma linv_init zero sz n : 1 <= sz <= 2147483648 -> linv (linit zero sz n).
Proof.
    intros Hs. destruct (nextpow2_spec sz Hs) as [E Hn].
    assert (nextpow2 sz <= 2147483648).
    { rewrite E. change 2147483648 with (2 ^ 31). apply Z.pow_le_mono_r; [lia |].
      apply Z.log2_up_le_pow2; lia. }
    constructor; cbn; try done; try lia.
    - by apply is_pow2_nextpow2.
    - apply zlen_replicate. lia.
    - intros t p Ht. apply lookup_replicate in Ht as [-> _]. done.
    - intros t p Ht. apply lookup_replicate in Ht as [-> _]. done.
    - intros t1 t2 p1 p2 i x1 x2 Ht. apply lookup_replicate in Ht as [-> _]. done.
    - by rewrite owed_all_idle.
Qed.

Lemma linv_reachable zero sz n s :
    1 <= sz <= 2147483648 -> rtc lstep (linit zero sz n) s ->
    zlen (hist s) < 4294967296 -> linv s.
Proof.
    intros Hs R. revert s R. refine (rtc_ind_r _ _ _ _).
    - intros _. by apply linv_init.
    - intros s s' _ St IH Hb. eapply linv_step; [done | apply IH | done].
      pose proof (lstep_hist_mono _ _ St). lia.
Qed.

  (** No step of a thread reads or writes out of bounds. *)
Lemma tstep_no_fault s t p :
    linv s -> thr s !! t = Some p -> exists r, tstep (sh s) p = Ok r.
Proof.
    intros I Ht. pose proof (li_pow2 _ I) as Hp. pose proof (is_pow2_pos _ Hp).
    pose proof (li_size _ I) as Hs. pose proof (li_len _ I) as Hl.
    destruct p; simpl; try (repeat case_match; eauto; done).
    - rewrite countToIndex_mod, aset_Ok by first [done | rewrite Hl; by apply Z.mod_pos_bound].
      eauto.
    - rewrite countToIndex_mod by done.
      destruct (aget_is_Ok (items (sh s)) (cr mod size (sh s))) as (x & _ & ->); [| eauto].
      rewrite Hl. by apply Z.mod_pos_bound.
Qed.

(** ** Consequences: ownership and the element count *)

  (** A push waiting to publish is never stuck: the push that owns the next
      index to publish is there, and its own next steps publish it. *)
Lemma publish_owner s t x cw :
    linv s -> thr s !! t = Some (PushPublish x cw) ->
    exists t' y, let m := maximumReadIndex (sh s) in
      thr s !! t' = Some (PushStore y m) \/ thr s !! t' = Some (PushPublish y m).
Proof.
    intros I Ht. destruct (li_claim _ I _ _ Ht cw x eq_refl) as (Hi & _).
    destruct (li_owner _ I (maximumReadIndex (sh s)) ltac:(lia)) as (t' & p & y & E & C).
    exists t', y. cbv zeta. destruct p; try done; injection C as -> ->; auto.
Qed.

Lemma owed_all_returned ts : Forall (fun p => returned p = true) ts -> owed_all ts = 0.
  Proof. induction 1 as [| p ts Hp _ IH]; [done |]. cbn. destruct p; try done; exact IH. Qed.

Lemma quiescent_counts s :
    linv s -> Forall (fun p => returned p = true) (thr s) ->
    maximumReadIndex (sh s) = writeIndex (sh s) /\
    u32 (lcount (sh s)) = writeIndex (sh s) - readIndex (sh s).
Proof.
    intros I Hr. pose proof (li_order _ I).
    assert (E : maximumReadIndex (sh s) = writeIndex (sh s)).
    { destruct (Z.eq_dec (maximumReadIndex (sh s)) (writeIndex (sh s))) as [| Hne]; [done |].
      destruct (li_owner _ I (maximumReadIndex (sh s)) ltac:(lia)) as (t & p & x & Ht & C).
      pose proof (Forall_lookup_1 _ _ _ _ Hr Ht) as Hp. destruct p; done. }
    split; [done |]. pose proof (li_count _ I) as Hc.
    rewrite (owed_all_returned _ Hr), Z.add_0_r in Hc. lia.
Qed.

(** ** Executing a schedule *)

(** What a thread is told to do next. *)
Inductive action := Run (t : nat) | CallPush (t : nat) (x : A) | CallPop (t : nat).

Definition act (a : action) (s : lstate) : option lstate :=
  match a with
  | Run t =>
    match thr s !! t with
    | Some p =>
      match returned p, tstep (sh s) p with
      | false, Ok (q', p') =>
        Some (LState q' (<[t := p']> (thr s)) (ghost_hist p p' (hist s)) (ghost_taken p p' (taken s)))
      | _, _ => None
      end
    | None => None
    end
  | CallPush t x =>
    match thr s !! t with
    | Some p => if returned p then Some (LState (sh s) (<[t := PushReadW x]> (thr s)) (hist s) (taken s))
                else None
    | None => None
    end
  | CallPop t =>
    match thr s !! t with
    | Some p => if returned p then Some (LState (sh s) (<[t := PopReadR]> (thr s)) (hist s) (taken s))
                else None
    | None => None
    end
  end.

(** Execute a schedule, checking [P] in every state after the first. *)
Fixpoint run_schedule (P : lstate -> bool) (sch : list action) (s : lstate) : option lstate :=
  match sch with
  | [] => Some s
  | a :: sch =>
    match act a s with
    | Some s' => if P s' then run_schedule P sch s' else None
    | None => None
    end
  end.

Lemma act_sound a s s' : act a s = Some s' -> lstep s s'.
Proof.
    destruct s as [q ts h tk], a; cbn; intros E; repeat case_match; simplify_eq;
      by econstructor.
Qed.

Lemma run_schedule_sound P sch s s' :
    run_schedule P sch s = Some s' -> rtc (fun a b => lstep a b /\ P b = true) s s'.
Proof.
    revert s. induction sch as [| a sch IH]; intros s E; simpl in E.
    - injection E as ->. apply rtc_refl.
    - destruct (act a s) as [s1 |] eqn:Ea; [| done]. destruct (P s1) eqn:EP; [| done].
      eapply rtc_l; [split; [by eapply act_sound | done] | by apply IH].
Qed.

Lemma run_schedule_rtc P sch s s' : run_schedule P sch s = Some s' -> rtc lstep s s'.
Proof.
    intros E. apply run_schedule_sound in E. revert E.
    apply rtc_subrel. by intros ? ? [? _].
Qed.

(** ** A thread alone: the sequential queue *)

Fixpoint run_alone (fuel : nat) (q : lfq) (p : pc) : outcome (lfq * pc) :=
  if returned p then Ok (q, p)
  else match fuel with
       | O => Fault OutOfFuel
       | S fuel => r ← tstep q p; run_alone fuel r.1 r.2
       end.

(** Six steps are the longest push without interference, five the longest pop. *)
Definition lfPush (q : lfq) (x : A) : outcome (bool * lfq) :=
  r ← run_alone 6 q (PushReadW x);
  match r.2 with PushDone ok => Ok (ok, r.1) | _ => Fault OutOfFuel end.

Definition lfPop (q : lfq) : outcome (option A * lfq) :=
  r ← run_alone 5 q PopReadR;
  match r.2 with PopDone v => Ok (v, r.1) | _ => Fault OutOfFuel end.

(** Number of elements; the counters may have wrapped. *)
Definition lfLen (q : lfq) : Z := writeIndex q -u readIndex q.

Definition lfElems (q : lfq) : list A :=
  take (Z.to_nat (lfLen q)) (drop (Z.to_nat (readIndex q mod size q)) (items q ++ items q)).

Record lfwf (q : lfq) : Prop := {
  lf_pow2 : is_pow2 (size q);
  lf_size : size q <= 2147483648;
  lf_len : zlen (items q) = size q;
  lf_w : 0 <= writeIndex q < 4294967296;
  lf_r : 0 <= readIndex q < 4294967296;
  lf_m : maximumReadIndex q = writeIndex q;
  lf_cap : lfLen q <= size q - 1;
  lf_count : lcount q = lfLen q;
}.

Lemma lfElems_length q : lfwf q -> zlen (lfElems q) = lfLen q.
Proof.
    intros W. pose proof (lf_cap _ W). pose proof (u32_range (writeIndex q - readIndex q)).
    pose proof (lf_len _ W) as Hl. unfold zlen, lfElems in *. unfold lfLen in *.
    pose proof (Z.mod_pos_bound (readIndex q) _ (is_pow2_pos _ (lf_pow2 _ W))).
    rewrite length_take, length_drop, length_app. lia.
Qed.

Lemma lfElems_lookup q i :
    lfwf q -> (i < Z.to_nat (lfLen q))%nat ->
    lfElems q !! i = items q !! Z.to_nat ((readIndex q + Z.of_nat i) mod size q).
Proof.
    intros W Hi. pose proof (lf_cap _ W). pose proof (lf_len _ W) as Hl.
    pose proof (is_pow2_pos _ (lf_pow2 _ W)) as Hp.
    pose proof (Z.mod_pos_bound (readIndex q) _ Hp). unfold zlen in Hl.
    unfold lfElems. rewrite lookup_take_lt, lookup_drop by done.
    rewrite <- Zplus_mod_idemp_l, (mod_wrap (_ + _)) by lia.
    destruct (Z.ltb_spec (readIndex q mod size q + Z.of_nat i) (size q)).
    - rewrite lookup_app_l by lia. f_equal. lia.
    - rewrite lookup_app_r by lia. f_equal. lia.
Qed.

Lemma lfElems_ge q i : lfwf q -> (Z.to_nat (lfLen q) <= i)%nat -> lfElems q !! i = None.
Proof.
    intros W Hi. apply lookup_ge_None. pose proof (lfElems_length q W) as E.
    unfold zlen in E. lia.
Qed.

  (** The next free cell, and when there is none. *)
Lemma writeIndex_mod q :
    lfwf q -> writeIndex q mod size q = (readIndex q + lfLen q) mod size q.
Proof.
    intros W. pose proof (lf_pow2 _ W). pose proof (lf_size _ W). pose proof (lf_w _ W).
    rewrite <- (u32_mod_pow2 (readIndex q + lfLen q)) by first [done | lia].
    f_equal. unfold lfLen. rewrite Z.add_comm, u32_add_l.
    replace (writeIndex q - readIndex q + readIndex q) with (writeIndex q) by lia.
    by rewrite u32_small.
Qed.

Lemma mod_shift_eq r d n : 0 < n -> 0 <= d <= n -> (r + d) mod n = r mod n -> d = 0 \/ d = n.
Proof.
    intros Hn Hd E. destruct (Z.eq_dec d 0); [by left |]. destruct (Z.eq_dec d n); [by right |].
    exfalso. apply (mod_neq (r + d) r n); [lia | done].
Qed.

Lemma full_test q :
    lfwf q ->
    (countToIndex q (writeIndex q +u 1) =? countToIndex q (readIndex q)) = (lfLen q =? size q - 1).
Proof.
    intros W. pose proof (lf_pow2 _ W) as Hp. pose proof (lf_size _ W).
    pose proof (lf_cap _ W). pose proof (u32_range (writeIndex q - readIndex q)) as Hr.
    change (u32 _) with (lfLen q) in Hr. pose proof (is_pow2_pos _ Hp).
    rewrite countToIndex_u32, countToIndex_mod by done.
    rewrite <- Zplus_mod_idemp_l, (writeIndex_mod _ W), Zplus_mod_idemp_l.
    rewrite <- Z.add_assoc.
    destruct (Z.eqb_spec ((readIndex q + (lfLen q + 1)) mod size q) (readIndex q mod size q))
      as [E | Hne], (Z.eqb_spec (lfLen q) (size q - 1)) as [El | Hl]; try done.
    - apply mod_shift_eq in E; lia.
    - exfalso. apply Hne. rewrite El.
      replace (readIndex q + (size q - 1 + 1)) with (readIndex q + 1 * size q) by lia.
      apply Z.mod_add. lia.
Qed.

Lemma empty_test q :
    lfwf q -> (countToIndex q (readIndex q) =? countToIndex q (maximumReadIndex q)) = (lfLen q =? 0).
Proof.
    intros W. pose proof (lf_pow2 _ W) as Hp. pose proof (lf_size _ W).
    pose proof (lf_cap _ W). pose proof (u32_range (writeIndex q - readIndex q)) as Hr.
    change (u32 _) with (lfLen q) in Hr. pose proof (is_pow2_pos _ Hp).
    rewrite !countToIndex_mod, (lf_m _ W), (writeIndex_mod _ W) by done.
    destruct (Z.eqb_spec (readIndex q mod size q) ((readIndex q + lfLen q) mod size q))
      as [E | Hne], (Z.eqb_spec (lfLen q) 0) as [El | Hl]; try done.
    - symmetry in E. apply mod_shift_eq in E; lia.
    - exfalso. apply Hne. rewrite El. f_equal. lia.
Qed.

Lemma lfPush_full q x : lfwf q -> lfLen q = size q - 1 -> lfPush q x = Ok (false, q).
Proof.
    intros W Hf. unfold lfPush. simpl. rewrite (full_test _ W), Hf, Z.eqb_refl. done.
Qed.

Lemma lfPush_room q x :
    lfwf q -> lfLen q <> size q - 1 ->
    lfPush q x = Ok (true, LFQ (lcount q +u 1) (writeIndex q +u 1) (readIndex q)
      (writeIndex q +u 1) (<[Z.to_nat (writeIndex q mod size q) := x]> (items q)) (size q)).
Proof.
    intros W Hf. pose proof (lf_pow2 _ W) as Hp. pose proof (lf_size _ W) as Hs.
    unfold lfPush. simpl. rewrite (full_test _ W).
    destruct (Z.eqb_spec (lfLen q) (size q - 1)); [done |]. simpl.
    rewrite Z.eqb_refl. simpl. unfold countToIndex, set_writeIndex. cbn [size items].
    fold (countToIndex q (writeIndex q)). rewrite countToIndex_mod by done.
    rewrite aset_Ok by (rewrite (lf_len _ W); apply Z.mod_pos_bound; by apply is_pow2_pos).
    simpl. rewrite (lf_m _ W), Z.eqb_refl. done.
Qed.

Lemma lfPush_room_elems q x q' :
    lfwf q -> lfPush q x = Ok (true, q') -> lfwf q' /\ lfElems q' = lfElems q ++ [x].
Proof.
    intros W E. pose proof (lf_pow2 _ W) as Hp. pose proof (lf_size _ W) as Hs.
    pose proof (lf_cap _ W) as Hc. pose proof (is_pow2_pos _ Hp) as Hpos.
    pose proof (u32_range (writeIndex q - readIndex q)) as Hr. change (u32 _) with (lfLen q) in Hr.
    destruct (Z.eq_dec (lfLen q) (size q - 1)) as [Hf | Hf].
    { by rewrite lfPush_full in E. }
    rewrite lfPush_room in E by done. injection E as <-.
    set (q' := LFQ _ _ _ _ _ _).
    assert (L : lfLen q' = lfLen q + 1).
    { unfold lfLen, q'. cbn [writeIndex readIndex].
      replace ((writeIndex q +u 1) - readIndex q) with ((writeIndex q +u 1) + - readIndex q) by lia.
      rewrite u32_add_l. replace (writeIndex q + 1 + - readIndex q)
        with (writeIndex q - readIndex q + 1) by lia.
      apply (u32_shift _ (lfLen q)); [done | lia]. }
    assert (W' : lfwf q').
    { constructor; try (rewrite L); cbn; try done; try lia; auto using u32_range.
      - rewrite zlen_insert. apply W.
      - apply W.
      - rewrite (lf_count _ W). apply u32_small. lia. }
    split; [done |]. apply list_eq. intros i.
    pose proof (lfElems_length q W) as Ln. unfold zlen in Ln.
    destruct (decide (i < Z.to_nat (lfLen q))%nat) as [Hi | Hi].
    - rewrite lookup_app_l by lia. rewrite !lfElems_lookup by first [done | lia].
      cbn [items readIndex size q']. rewrite list_lookup_insert_ne; [done |].
      rewrite (writeIndex_mod _ W). intros Ei.
      pose proof (Z.mod_pos_bound (readIndex q + lfLen q) _ Hpos).
      pose proof (Z.mod_pos_bound (readIndex q + Z.of_nat i) _ Hpos).
      apply Z2Nat.inj in Ei; [| lia..]. apply mod_add_inj in Ei; lia.
    - rewrite lookup_app_r by lia. destruct (decide (i = Z.to_nat (lfLen q))) as [-> | Hne].
      + rewrite lfElems_lookup by first [done | lia]. cbn [items readIndex size q'].
        rewrite Z2Nat.id, <- (writeIndex_mod _ W) by lia.
        replace (_ - _)%nat with O by lia. apply list_lookup_insert_eq.
        pose proof (Z.mod_pos_bound (writeIndex q) _ Hpos). pose proof (lf_len _ W) as Hl.
        unfold zlen in Hl. lia.
      + rewrite lfElems_ge by first [done | lia]. symmetry. apply lookup_ge_None. simpl. lia.
Qed.

Lemma lfPop_empty q : lfwf q -> lfElems q = [] -> lfPop q = Ok (None, q).
Proof.
    intros W E. pose proof (lfElems_length q W) as L. rewrite E in L.
    unfold lfPop. simpl. rewrite (empty_test _ W), <- L. done.
Qed.

Lemma lfPop_cons q x rest :
    lfwf q -> lfElems q = x :: rest ->
    exists q', lfPop q = Ok (Some x, q') /\ lfwf q' /\ lfElems q' = rest.
Proof.
    intros W E. pose proof (lf_pow2 _ W) as Hp. pose proof (lf_size _ W) as Hs.
    pose proof (lf_cap _ W) as Hc. pose proof (is_pow2_pos _ Hp) as Hpos.
    pose proof (u32_range (writeIndex q - readIndex q)) as Hr. change (u32 _) with (lfLen q) in Hr.
    pose proof (lfElems_length q W) as L. rewrite E in L.
    change (zlen (x :: rest)) with (Z.of_nat (S (length rest))) in L.
    assert (Hx : items q !! Z.to_nat (readIndex q mod size q) = Some x).
    { assert (H0 : lfElems q !! 0%nat = Some x) by (by rewrite E).
      rewrite lfElems_lookup in H0 by first [done | lia]. by rewrite Z.add_0_r in H0. }
    pose proof (Z.mod_pos_bound (readIndex q) _ Hpos) as Hm.
    unfold lfPop. simpl. rewrite (empty_test _ W).
    destruct (Z.eqb_spec (lfLen q) 0); [lia |]. simpl.
    rewrite countToIndex_mod, (aget_Ok _ _ x) by first [done | lia]. simpl. rewrite Z.eqb_refl. simpl.
    set (q' := set_lcount _ _). exists q'. split; [done |].
    assert (L' : lfLen q' = lfLen q - 1).
    { unfold lfLen, q'. cbn. unfold u32. rewrite Zminus_mod_idemp_r.
      change (u32 (writeIndex q - (readIndex q + 1)) = u32 (writeIndex q - readIndex q) - 1).
      replace (writeIndex q - (readIndex q + 1)) with (writeIndex q - readIndex q + -1) by lia.
      apply (u32_shift _ (lfLen q)); [done | lia]. }
    assert (W' : lfwf q').
    { constructor; try (rewrite L'); cbn; try apply W; try lia; auto using u32_range.
      rewrite (lf_count _ W). apply u32_small. lia. }
    split; [done |]. apply list_eq. intros i.
    destruct (decide (i < length rest)%nat).
    - rewrite lfElems_lookup by first [done | lia]. cbn [items readIndex size q' set_lcount set_readIndex].
      change (rest !! i) with ((x :: rest) !! S i). rewrite <- E, lfElems_lookup by first [done | lia].
      rewrite <- Zplus_mod_idemp_l, u32_mod_pow2, Zplus_mod_idemp_l by first [done | lia].
      by replace (readIndex q + 1 + Z.of_nat i) with (readIndex q + Z.of_nat (S i)) by lia.
    - rewrite lfElems_ge by first [done | lia]. symmetry. apply lookup_ge_None. lia.
Qed.

Lemma lfCreate_wf zero sz :
    1 <= sz <= 2147483648 -> lfwf (lfCreate zero sz) /\ lfElems (lfCreate zero sz) = [].
Proof.
    intros Hs. pose proof (linv_init zero sz 0 Hs) as I. destruct (nextpow2_spec sz Hs) as [_ Hn].
    split; [constructor; cbn; try done; try lia; try apply I | done].
Qed.
End LockFree.
Arguments lfq : clear implicits.
Arguments pc : clear implicits.
Arguments lstate : clear implicits.

(** ** The sequential queue as an instance of the interface *)
#[export] Instance lfq_fifo {A} : Fifo (lfq A) A := {
  q_wf := lfwf;
  q_elems := lfElems;
  q_push x q := lfPush q x;
  q_pop := lfPop;
}.

#[export] Instance lfq_fifo_laws {A} : FifoLaws (lfq A) A.
Proof.
  split; simpl.
  - intros q x W. destruct (Z.eq_dec (lfLen q) (size q - 1)).
    + exists false, q. by rewrite lfPush_full.
    + pose proof (lfPush_room q x W n) as E. eexists true, _. split; [exact E |].
      by eapply lfPush_room_elems.
  - intros q W E. by apply lfPop_empty.
  - intros q x rest W E. by apply lfPop_cons.
Qed.

(** ** The three files *)

(** [struct message] of message.h; [data] is the heap block, [None] for [NULL]. *)
Record message := Message {
  from : Z;
  session : Z;
  type : Z;
  ud : Z;
  sz : Z;
  data : option (list Z);
}.

Module ArrayLockFreeQueue.
Section ArrayLockFreeQueue.
  Context {X : Type}.

(** Items are [void*]: [None] is [NULL]. *)
Definition arrayLockFreeQueueCreate (size : Z) : lfq (option X) := lfCreate None size.
Definition arrayLockFreeQueueSize (queue : lfq (option X)) : Z := lfSize queue.
Definition arrayLockFreeQueuePush (queue : lfq (option X)) (item : option X)
    : outcome (bool * lfq (option X)) := lfPush queue item.

(** [NULL] stands both for an empty queue and for a queued [NULL]. *)
Definition arrayLockFreeQueuePop (queue : lfq (option X)) : outcome (option X * lfq (option X)) :=
  '(v, queue') ← lfPop queue;
  mret (match v with Some item => item | None => None end, queue').
End ArrayLockFreeQueue.
End ArrayLockFreeQueue.

Module ContextQueue.
Section ContextQueue.
  Context {X : Type}.

(** Entries are [struct context*]. *)
Definition contextQueueCreate (size : Z) : lfq (option X) := lfCreate None size.
Definition contextQueueSize (queue : lfq (option X)) : Z := lfSize queue.
Definition contextQueuePush (queue : lfq (option X)) (ctx : option X)
    : outcome (bool * lfq (option X)) := lfPush queue ctx.
Definition contextQueuePop (queue : lfq (option X)) : outcome (option X * lfq (option X)) :=
  '(v, queue') ← lfPop queue;
  mret (match v with Some item => item | None => None end, queue').
End ContextQueue.
End ContextQueue.

Module MessageQueue.
Definition zero_message : message := Message 0 0 0 0 0 None.

(** Entries are messages by value: a push copies [*msg] in, a pop copies it out. *)
Definition messageQueueCreate (size : Z) : lfq message := lfCreate zero_message size.
Definition messageQueueSize (queue : lfq message) : Z := lfSize queue.
Definition messageQueuePush (queue : lfq message) (msg : message)
    : outcome (bool * lfq message) := lfPush queue msg.

(** [Some msg] is [true] with [*msg] filled in, [None] is [false]. *)
Definition messageQueuePop (queue : lfq message) : outcome (option message * lfq message) :=
  lfPop queue.
End MessageQueue.

(** ** Properties *)

(** C1: under every interleaving of any number of threads calling push and pop
    on one lock-free queue, until 2^32 pushes have been made: no step accesses
    a cell out of bounds; the values popped are exactly the oldest values
    pushed, each once and in order ([taken] is a prefix of [hist]); and at most
    [size - 1] values are in the queue. *)
Theorem lockfree_fifo {A} (zero : A) sz n s :
  1 <= sz <= 2147483648 -> rtc lstep (linit zero sz n) s -> zlen (hist s) < 4294967296 ->
  (forall t p, thr s !! t = Some p -> is_ok (tstep (sh s) p) = true) /\
  (exists rest, hist s = taken s ++ rest /\ zlen rest <= size (sh s) - 1).
Proof.
  intros Hs R Hb. pose proof (linv_reachable zero sz n s Hs R Hb) as I. split.
  - intros t p Ht. by destruct (tstep_no_fault s t p I Ht) as [r ->].
  - exists (drop (length (taken s)) (hist s)). pose proof (is_pow2_pos _ (li_pow2 _ I)). split.
    + rewrite (li_taken _ I) at 1. by rewrite take_drop.
    + pose proof (li_cap _ I) as Hc. rewrite (li_w _ I), (li_r _ I) in Hc. unfold zlen in *.
      rewrite length_drop. lia.
Qed.

(** Two threads on a queue of 4 cells. *)
Definition two_threads : lstate Z := linit 0 4 2.

Definition one_push_one_pop : list action :=
  CallPush 0 5 :: replicate 6 (Run 0) ++ CallPop 1 :: replicate 5 (Run 1).

Lemma lockfree_fifo_witness :
  exists s, run_schedule (fun _ => true) one_push_one_pop two_threads = Some s /\
    taken s = [5] /\
    exists rest, hist s = taken s ++ rest /\ zlen rest <= size (sh s) - 1.
Proof.
  eexists. split; [vm_compute; reflexivity |]. split; [reflexivity |].
  apply (lockfree_fifo 0 4 2); [lia | | reflexivity].
  apply (run_schedule_rtc (fun _ => true) one_push_one_pop). vm_compute. reflexivity.
Defined.

(** At rest (every call has returned) the queue's published counter has
    caught up with the claimed one, and [lcount], the value the size functions
    report, is the number of queued elements. *)
Theorem lockfree_quiescent_size {A} (zero : A) sz n s :
  1 <= sz <= 2147483648 -> rtc lstep (linit zero sz n) s -> zlen (hist s) < 4294967296 ->
  Forall (fun p => returned p = true) (thr s) ->
  maximumReadIndex (sh s) = writeIndex (sh s) /\
  u32 (lfSize (sh s)) = zlen (hist s) - zlen (taken s).
Proof.
  intros Hs R Hb Hr. pose proof (linv_reachable zero sz n s Hs R Hb) as I.
  destruct (quiescent_counts s I Hr) as [E1 E2]. split; [done |].
  unfold lfSize. by rewrite E2, (li_w _ I), (li_r _ I).
Qed.

Lemma lockfree_quiescent_size_witness :
  exists s, run_schedule (fun _ => true) one_push_one_pop two_threads = Some s /\
    u32 (lfSize (sh s)) = zlen (hist s) - zlen (taken s).
Proof.
  eexists. split; [vm_compute; reflexivity |].
  apply (lockfree_quiescent_size 0 4 2); [lia | | reflexivity | by repeat constructor].
  apply (run_schedule_rtc (fun _ => true) one_push_one_pop). vm_compute. reflexivity.
Defined.

(** C40: a push that waits to publish is never waiting for nobody: some thread
    is about to store or to publish the very index the queue has reached, so
    the spin in [PushPublish] ends once that thread is scheduled. *)
Theorem lockfree_publish_progress {A} (zero : A) sz n s t x cw :
  1 <= sz <= 2147483648 -> rtc lstep (linit zero sz n) s -> zlen (hist s) < 4294967296 ->
  thr s !! t = Some (PushPublish x cw) ->
  exists t' y, let m := maximumReadIndex (sh s) in
    thr s !! t' = Some (PushStore y m) \/
    thr s !! t' = Some (PushPublish y m) /\
    tstep (sh s) (PushPublish y m) = Ok (set_maximumReadIndex (sh s) (m +u 1), PushCount).
Proof.
  intros Hs R Hb Ht. pose proof (linv_reachable zero sz n s Hs R Hb) as I.
  destruct (publish_owner s t x cw I Ht) as (t' & y & H). exists t', y. cbv zeta in *.
  destruct H as [H | H]; [by left | right]. split; [done |]. simpl. by rewrite Z.eqb_refl.
Qed.

(** Thread 0 has claimed index 0 and not stored; thread 1 waits to publish 1. *)
Definition out_of_order_publish : list action :=
  CallPush 0 5 :: replicate 3 (Run 0) ++ CallPush 1 6 :: replicate 4 (Run 1).

Lemma lockfree_publish_progress_witness :
  exists s, run_schedule (fun _ => true) out_of_order_publish two_threads = Some s /\
    thr s !! 1%nat = Some (PushPublish 6 1) /\
    exists t' y, let m := maximumReadIndex (sh s) in
      thr s !! t' = Some (PushStore y m) \/
      thr s !! t' = Some (PushPublish y m) /\
      tstep (sh s) (PushPublish y m) = Ok (set_maximumReadIndex (sh s) (m +u 1), PushCount).
Proof.
  eexists. split; [vm_compute; reflexivity |]. split; [reflexivity |].
  apply (lockfree_publish_progress 0 4 2 _ 1 6 1); [lia | | reflexivity | reflexivity].
  apply (run_schedule_rtc (fun _ => true) out_of_order_publish). vm_compute. reflexivity.
Defined.

(** The queue is never more than [k] full. *)
Definition atmost (k : Z) (s : lstate Z) : bool :=
  writeIndex (sh s) - readIndex (sh s) <=? k.

(** A push can fail although the queue holds at most one element at every
    moment (of three it has room for): it reads [writeIndex], another thread
    pushes and pops, and the stale index meets the advanced [readIndex]. *)
Lemma spurious_full_run :
  exists s, rtc (fun a b => lstep a b /\ atmost 1 b = true) two_threads s /\
    thr s !! 0%nat = Some (PushDone false) /\ writeIndex (sh s) = readIndex (sh s) /\
    size (sh s) = 4.
Proof.
  eexists. split.
  - apply (run_schedule_sound (atmost 1)
      (CallPush 0 5 :: Run 0 :: CallPush 1 6 :: replicate 6 (Run 1) ++
       CallPop 1 :: replicate 5 (Run 1) ++ [Run 0])).
    vm_compute. reflexivity.
  - split; [reflexivity | split; reflexivity].
Qed.

(** At least [k] elements are published and not yet taken. *)
Definition atleast (k : Z) (s : lstate Z) : bool :=
  k <=? maximumReadIndex (sh s) - readIndex (sh s).

(** A pop can report an empty queue although at every moment of its call
    at least one element is published and untaken: it reads [readIndex], the
    other thread cycles elements through until [maximumReadIndex] has moved by
    [size], and the masked indices meet. *)
Lemma spurious_empty_run :
  exists s0 s, rtc lstep two_threads s0 /\ thr s0 !! 0%nat = Some PopReadR /\
    rtc (fun a b => lstep a b /\ atleast 1 b = true) s0 s /\
    thr s !! 0%nat = Some (PopDone None).
Proof.
  set (push := fun x : Z => CallPush 1 x :: replicate 6 (Run 1)).
  set (pop := (CallPop 1 :: replicate 5 (Run 1)) : list (@action Z)).
  eexists. eexists. split; [| split; [| split]].
  - apply (run_schedule_rtc (fun _ => true) (push 1 ++ [CallPop 0])). vm_compute. reflexivity.
  - reflexivity.
  - apply (run_schedule_sound (atleast 1)
      (Run 0 :: push 2 ++ pop ++ push 3 ++ push 4 ++ [Run 0])).
    vm_compute. reflexivity.
  - reflexivity.
Qed.

(** Full and empty are not linearizable.  A push can fail on a queue of
    three places that never holds more than one element during the call, and a
    pop can find nothing although at every moment of its call an element is
    published and untaken: the two counters are read one after the other. *)
Theorem lockfree_spurious :
  (exists s, rtc (fun a b => lstep a b /\ atmost 1 b = true) two_threads s /\
    thr s !! 0%nat = Some (PushDone false) /\ writeIndex (sh s) = readIndex (sh s) /\ size (sh s) = 4) /\
  (exists s0 s, rtc lstep two_threads s0 /\ thr s0 !! 0%nat = Some PopReadR /\
    rtc (fun a b => lstep a b /\ atleast 1 b = true) s0 s /\ thr s !! 0%nat = Some (PopDone None)).
Proof. split; [exact spurious_full_run | exact spurious_empty_run]. Qed.

(** Used by one thread at a time the lock-free queue is a FIFO queue of
    capacity [size - 1], also after its 32-bit counters have wrapped: push
    appends unless the queue is full, pop takes the oldest element, and
    [lcount] is the length. *)
Theorem lockfree_sequential {A} (q : lfq A) x :
  lfwf q ->
  (exists ok q1, lfPush q x = Ok (ok, q1) /\ lfwf q1 /\
    lfElems q1 = (if zlen (lfElems q) <? size q - 1 then lfElems q ++ [x] else lfElems q) /\
    ok = (zlen (lfElems q) <? size q - 1)) /\
  (exists q2, lfPop q = Ok (head (lfElems q), q2) /\ lfwf q2 /\
    lfElems q2 = tail (lfElems q)) /\
  lfSize q = zlen (lfElems q).
Proof.
  intros W. rewrite (lfElems_length q W). pose proof (lf_cap _ W). split; [| split].
  - destruct (Z.ltb_spec (lfLen q) (size q - 1)).
    + eexists true, _. pose proof (lfPush_room q x W ltac:(lia)) as E.
      split; [exact E |]. by destruct (lfPush_room_elems q x _ W E).
    + exists false, q. by rewrite lfPush_full by first [done | lia].
  - destruct (lfElems q) as [| y rest] eqn:E.
    + exists q. by rewrite lfPop_empty, E.
    + destruct (lfPop_cons q y rest W E) as (q2 & P & W2 & E2). by exists q2.
  - unfold lfSize. apply W.
Qed.

(** Both counters are about to wrap. *)
Definition wrapping_queue : lfq Z :=
  LFQ 1 0 4294967295 0 [20; 21; 22; 23] 4.

Lemma wrapping_queue_wf : lfwf wrapping_queue.
Proof. split; try reflexivity; try (vm_compute; done). by exists 2. Qed.

Lemma lockfree_sequential_witness :
  exists q2, lfPop wrapping_queue = Ok (Some 23, q2) /\ lfwf q2 /\ lfElems q2 = [].
Proof.
  exact (proj1 (proj2 (lockfree_sequential wrapping_queue 0 wrapping_queue_wf))).
Defined.
