(* ===== verification/Log.v ===== *)
(** * log.c: the system log

    Any thread puts formatted lines on a blocking queue ([logInfo]); one thread
    takes them off, stamps them and writes them to a file it rotates when it has
    grown long ([handleLog], [_rotateFile]).  The file system is part of the state:
    the contents of files by name.  Whether it grants a [rename] or an [fopen] is
    an argument, and so is the local time of each line. *)
From S2P Require Import Prelude CString Bits Fifo CircQueue BlockQueue.
Import BlockQueue.

Definition FILENAME_MAX : Z := 4096.
Definition SYS_LOG_QUEUE_LEN : Z := 1024.

Definition E_LOG_NULL : Z := 0.
Definition E_LOG_FILE : Z := 1.
Definition E_LOG_STDOUT : Z := 2.

(** [struct tm], the fields that are printed, and [tv_usec]. *)
Record tm := Tm { tm_year : Z; tm_mon : Z; tm_mday : Z; tm_hour : Z; tm_min : Z; tm_sec : Z; tv_usec : Z }.

(** A [FILE] pointer. *)
Inductive file := NullFile | Stdout | OpenFile (path : list Z).

(** [struct log], then what it acts on: the files and the terminal. *)
Record log := Log {
  handle : file;
  name : list Z;
  rotateDir : list Z;
  maxLineNum : Z;
  lineNum : Z;
  state : Z;
  queue : circQueue (list Z);
  exit : Z;
  files : gmap (list Z) (list Z);
  terminal : list Z;
}.

Definition set_file (L : log) h n fs := Log h (name L) (rotateDir L) (maxLineNum L) n (state L) (queue L) (exit L) fs (terminal L).
Definition set_queue (L : log) q :=
  Log (handle L) (name L) (rotateDir L) (maxLineNum L) (lineNum L) (state L) q (exit L) (files L) (terminal L).
Definition set_exit (L : log) e :=
  Log (handle L) (name L) (rotateDir L) (maxLineNum L) (lineNum L) (state L) (queue L) e (files L) (terminal L).

Section Log.
  Variables (zcalloc_ok : Z -> bool) (rename_ok : list Z -> list Z -> bool) (open_ok : list Z -> bool).

(** [%0<w>d] of a number that is not negative. *)
Definition print_0d (w : nat) (n : Z) : list Z :=
  let d := print_d n in replicate (w - length d) 48 ++ d.

(** The conversions of [fprintf(handle, buf, strlen(buf))]: the text is the
    format, and [len] the only argument. *)
Fixpoint printf_len (fmt : list Z) (len : option Z) : outcome (list Z) :=
  match fmt with
  | [] => mret []
  | c :: fmt =>
    if c =? 37 then
      match fmt with
      | d :: fmt' =>
        if d =? 37 then r ← printf_len fmt' len; mret (37 :: r)
        else
          match fmt', len with
          | u :: fmt'', Some n =>
            if ((d =? 108) || (d =? 122)) && (u =? 117) then r ← printf_len fmt'' None; mret (print_d n ++ r)
            else Fault OutOfBounds
          | _, _ => Fault OutOfBounds
          end
      | [] => Fault OutOfBounds
      end
    else r ← printf_len fmt len; mret (c :: r)
  end.

Definition write (text : list Z) (L : log) : outcome log :=
  match handle L with
  | NullFile => Fault NullDeref
  | Stdout => mret (Log (handle L) (name L) (rotateDir L) (maxLineNum L) (lineNum L) (state L) (queue L) (exit L) (files L) (terminal L ++ text))
  | OpenFile p => mret (set_file L (handle L) (lineNum L) (<[p := default [] (files L !! p) ++ text]> (files L)))
  end.

(** [<dir>/<name>_<date>_<time>] *)
Definition rotated_name (dir name : list Z) (t : tm) : list Z :=
  snprintf (FILENAME_MAX - 1) (dir ++ str "/" ++ name ++ str "_" ++
    print_0d 4 (tm_year t + 1900) ++ str "_" ++ print_0d 2 (tm_mon t + 1) ++ str "_" ++ print_0d 2 (tm_mday t) ++ str "_" ++
    print_0d 2 (tm_hour t) ++ str "_" ++ print_0d 2 (tm_min t) ++ str "_" ++ print_0d 2 (tm_sec t)).
Definition rotated (L : log) (t : tm) : list Z := rotated_name (rotateDir L) (name L) t.

(** [rename]; its result is ignored. *)
Definition rename (old new : list Z) (fs : gmap (list Z) (list Z)) : gmap (list Z) (list Z) :=
  if rename_ok old new then
    match fs !! old with Some text => <[new := text]> (delete old fs) | None => fs end
  else fs.

(** [fopen] of mode [w]. *)
Definition fopen_w (path : list Z) (fs : gmap (list Z) (list Z)) : file * gmap (list Z) (list Z) :=
  if open_ok path then (OpenFile path, <[path := []]> fs) else (NullFile, fs).

Definition _rotateFile (t : tm) (L : log) : outcome log :=
  if state L =? E_LOG_FILE then
    let n := lineNum L in
    let L := set_file L (handle L) (i32 (n + 1)) (files L) in
    if n >? maxLineNum L then
      match handle L with
      | NullFile => Fault NullDeref
      | _ =>
        let fs := rename (name L) (rotated L t) (files L) in
        let r := fopen_w (name L) fs in
        mret (set_file L r.1 0 r.2)
      end
    else mret L
  else mret L.

Definition stamp (t : tm) : list Z :=
  str "[" ++ print_0d 4 (tm_year t + 1900) ++ str "-" ++ print_0d 2 (tm_mon t + 1) ++ str "-" ++ print_0d 2 (tm_mday t) ++ str " " ++
  print_0d 2 (tm_hour t) ++ str ":" ++ print_0d 2 (tm_min t) ++ str ":" ++ print_0d 2 (tm_sec t) ++ str ":" ++
  print_0d 6 (tv_usec t) ++ str "]".
Definition header (t : tm) : list Z := stamp t ++ str "[sys]".

Definition handleLog (t : tm) (buf : list Z) (L : log) : outcome log :=
  L ← _rotateFile t L;
  L ← write (header t) L;
  text ← printf_len buf (Some (zlen buf));
  L ← write text L;
  write [10] L.

(** [text] is the formatted line; the buffer has 1024 bytes. *)
Definition logInfo (text : list Z) (L : log) : outcome log :=
  if exit L =? 0 then mret L
  else if state L =? E_LOG_NULL then mret L
  else
    r ← blockQueuePush zcalloc_ok (queue L) (Some (snprintf 1024 text));
    mret (set_queue L r.2).

Definition logExit (L : log) : outcome log :=
  r ← blockQueueExit zcalloc_ok (queue L); mret (set_queue L r.2).

(** One turn of the log thread: it waits for an element, has ended, or goes on. *)
Inductive turn := Waits | Ends | GoesOn.

Definition log_turn (t : tm) (L : log) : outcome (turn * log) :=
  '(o, q) ← blockQueueTake_turn (queue L);
  let L := set_queue L q in
  match o with
  | None => mret (Waits, L)
  | Some None =>
    if blockQueueLength (queue L) =? 0 then mret (Ends, set_exit L 0)
    else L ← logExit L; mret (GoesOn, L)
  | Some (Some buf) => L ← handleLog t buf L; mret (GoesOn, L)
  end.

(** The log thread; [clock k] is the time of its [k]-th turn. *)
Fixpoint log_thread (fuel : nat) (clock : nat -> tm) (L : log) : outcome (bool * log) :=
  match fuel with
  | O => Fault OutOfFuel
  | S fuel =>
    '(r, L) ← log_turn (clock 0%nat) L;
    match r with
    | Waits => mret (false, L)
    | Ends => mret (true, L)
    | GoesOn => log_thread fuel (fun k => clock (S k)) L
    end
  end.

(** [env] is the environment, [fs] the files there are. *)
Definition logInit (env : list Z -> option (list Z)) (programName : list Z) (fs : gmap (list Z) (list Z)) : outcome (Z * option log) :=
  let getInt key d := match env key with Some v => i32 (strtol v).1 | None => d end in
  let state := getInt (str "z_log_state") 0 in
  let state := if decide (programName = str "z") then E_LOG_NULL else state in
  let start h n d m fs :=
    q ← deref (blockQueueCreate zcalloc_ok zcalloc_ok SYS_LOG_QUEUE_LEN);
    mret (0, Some (Log h n d m 0 state q 1 fs [])) in
  if state =? E_LOG_FILE then
    let defaultFile := snprintf FILENAME_MAX (programName ++ str "_sys.log") in
    let name := default defaultFile (env (str "z_log_name")) in
    let maxLineNum := getInt (str "z_log_maxlinenum") 200000 in
    let rotateDir := default [] (env (str "z_log_rotatedir")) in
    match fopen_w name fs with
    | (OpenFile p, fs) => start (OpenFile p) (snprintf FILENAME_MAX name) (snprintf FILENAME_MAX rotateDir) maxLineNum fs
    | _ => mret (-1, None)
    end
  else if state =? E_LOG_STDOUT then start Stdout [] [] 0 fs
  else start NullFile [] [] 0 fs.

(** ** Nothing is lost by rotating *)

Definition text_of (fs : gmap (list Z) (list Z)) (p : list Z) : list Z := default [] (fs !! p).

Definition percent_free (s : list Z) : Prop := Forall (fun c => c <> 37) s.

Definition line (m : tm * list Z) : list Z := header m.1 ++ m.2 ++ [10].

Fixpoint handle_all (ms : list (tm * list Z)) (L : log) : outcome log :=
  match ms with
  | [] => mret L
  | (t, buf) :: ms => L ← handleLog t buf L; handle_all ms L
  end.

(** The files the current one is moved to, when [n] lines have been counted. *)
Fixpoint archives (L : log) (n : Z) (ms : list (tm * list Z)) : list (list Z) :=
  match ms with
  | [] => []
  | (t, _) :: ms => if n >? maxLineNum L then rotated L t :: archives L 0 ms else archives L (n + 1) ms
  end.

Lemma printf_plain s len : percent_free s -> printf_len s len = Ok s.
Proof.
  revert len. induction s as [| c s IH]; intros len Hs; [done |]. apply Forall_cons in Hs as [Hc Hs].
  cbn. destruct (Z.eqb_spec c 37); [done |]. by rewrite IH.
Qed.

Lemma write_open L p n base text cur : base !! p = Some cur ->
  write text (set_file L (OpenFile p) n base) = Ok (set_file L (OpenFile p) n (<[p := cur ++ text]> base)).
Proof. intros E. unfold write, set_file. cbn [handle files name lineNum]. by rewrite E. Qed.

(** What [handleLog] does to the files. *)
Lemma handleLog_file t buf L cur :
  state L = E_LOG_FILE -> handle L = OpenFile (name L) -> files L !! name L = Some cur -> percent_free buf ->
  0 <= lineNum L < 2147483647 ->
  (lineNum L > maxLineNum L -> rename_ok (name L) (rotated L t) = true /\ open_ok (name L) = true) ->
  handleLog t buf L = Ok (
    if lineNum L >? maxLineNum L then
      set_file L (OpenFile (name L)) 0 (<[name L := line (t, buf)]> (<[rotated L t := cur]> (delete (name L) (files L))))
    else set_file L (OpenFile (name L)) (lineNum L + 1) (<[name L := cur ++ line (t, buf)]> (files L))).
Proof.
  intros Hs Hh Hc Hb Hn Hr. unfold handleLog, _rotateFile. rewrite Hs. cbn [Z.eqb E_LOG_FILE Pos.eqb].
  rewrite i32_small by lia. rewrite !Z.gtb_ltb in *. cbn [maxLineNum set_file name handle rotated files].
  assert (W : forall n base L0, L0 = set_file L (OpenFile (name L)) n base -> forall txt, base !! name L = Some txt ->
    (L ← write (header t) L0; text ← printf_len buf (Some (zlen buf)); L ← write text L; write [10] L) =
    Ok (set_file L (OpenFile (name L)) n (<[name L := txt ++ line (t, buf)]> base))).
  { intros n base L0 -> txt Ht. rewrite printf_plain by done. rewrite (write_open _ _ _ _ _ _ Ht), bind_Ok, bind_Ok.
    rewrite (write_open _ _ _ _ _ _ (lookup_insert_eq _ _ _)), bind_Ok, insert_insert_eq.
    rewrite (write_open _ _ _ _ _ _ (lookup_insert_eq _ _ _)), insert_insert_eq. unfold line. by rewrite <- !app_assoc. }
  destruct (Z.ltb_spec (maxLineNum L) (lineNum L)) as [Hlt | Hge].
  - destruct (Hr ltac:(lia)) as [R O]. rewrite Hh. unfold rename, fopen_w.
    change (rotated (set_file L (OpenFile (name L)) (lineNum L + 1) (files L)) t) with (rotated L t). rewrite R, Hc, O, bind_Ok.
    etransitivity; [apply (W 0 (<[name L := []]> (<[rotated L t := cur]> (delete (name L) (files L))))); [done | apply lookup_insert_eq] |].
    cbn [app]. by rewrite insert_insert_eq.
  - rewrite bind_Ok, Hh. by apply (W _ _ _ eq_refl).
Qed.

Lemma archives_same L L' n ms :
  maxLineNum L' = maxLineNum L -> name L' = name L -> rotateDir L' = rotateDir L -> archives L' n ms = archives L n ms.
Proof.
  intros E1 E2 E3. revert n. induction ms as [| [t b] ms IH]; intros n; [done |]. cbn [archives].
  unfold rotated. rewrite ?E1, ?E2, ?E3. by destruct (n >? maxLineNum L); rewrite IH.
Qed.

(** The state of the log between two lines. *)
Record log_ok (L : log) : Prop := {
  lo_state : state L = E_LOG_FILE;
  lo_handle : handle L = OpenFile (name L);
  lo_file : is_Some (files L !! name L);
  lo_max : 0 <= maxLineNum L < 2147483646;
  lo_num : 0 <= lineNum L <= maxLineNum L + 1;
}.

Lemma handle_all_keeps ms : forall L,
  log_ok L -> Forall (fun m => percent_free m.2) ms ->
  let arch := archives L (lineNum L) ms in
  NoDup arch -> Forall (fun p => files L !! p = None /\ rename_ok (name L) p = true) arch -> open_ok (name L) = true ->
  exists L', handle_all ms L = Ok L' /\ log_ok L' /\ name L' = name L /\
    concat (text_of (files L') <$> arch) ++ text_of (files L') (name L) = text_of (files L) (name L) ++ concat (line <$> ms) /\
    (forall p, p ∉ arch -> p <> name L -> files L' !! p = files L !! p).
Proof.
  induction ms as [| [t buf] ms IH]; intros L W Hp arch Nd Ha Ho.
  { exists L. split; [done |]. split; [done |]. split; [done |]. split; [| done]. cbn. by rewrite app_nil_r. }
  apply Forall_cons in Hp as [Hb Hp]. destruct W as [Ws Wh [cur Wf] Wm Wn]. cbn [handle_all].
  pose proof (handleLog_file t buf L cur Ws Wh Wf Hb ltac:(lia)) as E. subst arch. cbn [archives] in *. rewrite !Z.gtb_ltb in *.
  destruct (Z.ltb_spec (maxLineNum L) (lineNum L)) as [Hlt | Hge].
  - apply NoDup_cons in Nd as [Hnin Nd]. apply Forall_cons in Ha as [[Hfree Hren] Ha].
    rewrite E by (intros _; split; done). rewrite bind_Ok. set (L1 := set_file L _ _ _).
    assert (Hne : rotated L t <> name L) by (intros Ex; congruence).
    assert (Ea : archives L1 (lineNum L1) ms = archives L 0 ms) by (by apply archives_same).
    destruct (IH L1) as (L' & E' & W' & N' & C' & O').
    + split; [done | done | | done | cbn; lia]. cbn. rewrite lookup_insert_eq. by eexists.
    + done.
    + by rewrite Ea.
    + rewrite Ea, Forall_forall in *. intros p Hin. destruct (Ha p Hin) as [Hpf Hpr]. split; [| done]. cbn.
      rewrite !lookup_insert_ne; [by rewrite lookup_delete_None; right | congruence | congruence].
    + done.
    + exists L'. split; [done |]. split; [done |]. split; [done |]. rewrite Ea in *. split.
      * rewrite !fmap_cons. cbn [concat]. rewrite <- app_assoc. change (name L) with (name L1). rewrite C'.
        unfold text_of at 1. rewrite O' by (first [done | cbn; congruence]). cbn. rewrite lookup_insert_ne by congruence.
        rewrite lookup_insert_eq. unfold text_of. cbn. by rewrite lookup_insert_eq, Wf.
      * intros p Hpin Hpn. apply not_elem_of_cons in Hpin as [Hp1 Hp2]. rewrite O' by done. cbn.
        by rewrite !lookup_insert_ne, lookup_delete_ne by congruence.
  - rewrite E by lia. rewrite bind_Ok. set (L1 := set_file L _ _ _).
    assert (Ea : archives L1 (lineNum L1) ms = archives L (lineNum L + 1) ms) by (by apply archives_same).
    destruct (IH L1) as (L' & E' & W' & N' & C' & O').
    + split; [done | done | | done | cbn; lia]. cbn. rewrite lookup_insert_eq. by eexists.
    + done.
    + by rewrite Ea.
    + rewrite Ea, Forall_forall in *. intros p Hin. destruct (Ha p Hin) as [Hpf Hpr]. split; [| done]. cbn.
      rewrite lookup_insert_ne; [done | congruence].
    + done.
    + exists L'. split; [done |]. split; [done |]. split; [done |]. rewrite Ea in *. split.
      * change (name L) with (name L1). rewrite C'. unfold text_of. cbn. rewrite lookup_insert_eq, Wf.
        cbn. by rewrite <- app_assoc.
      * intros p Hpin Hpn. rewrite O' by done. cbn. by rewrite lookup_insert_ne by congruence.
Qed.

(** ** The log thread *)

Lemma handle_all_queue ms : forall L q,
  handle_all ms (set_queue L q) = (L' ← handle_all ms L; Ok (set_queue L' q)).
Proof.
  assert (Hw : forall text L q, write text (set_queue L q) = (L' ← write text L; Ok (set_queue L' q))).
  { intros text L q. unfold write. cbn. by destruct (handle L). }
  assert (Hr : forall t L q, _rotateFile t (set_queue L q) = (L' ← _rotateFile t L; Ok (set_queue L' q))).
  { intros t L q. unfold _rotateFile. cbn. destruct (state L =? E_LOG_FILE); [| done].
    destruct (lineNum L >? maxLineNum L); [| done]. by destruct (handle L). }
  induction ms as [| [t buf] ms IH]; intros L q; [done |]. cbn [handle_all]. unfold handleLog. rewrite Hr.
  destruct (_rotateFile t L) as [L1 |]; [| done]. cbn [mbind outcome_bind]. rewrite Hw. destruct (write (header t) L1) as [L2 |]; [| done].
  cbn [mbind outcome_bind]. destruct (printf_len buf _) as [text |]; [| done]. cbn [mbind outcome_bind]. rewrite Hw. destruct (write text L2) as [L3 |]; [| done].
  cbn [mbind outcome_bind]. rewrite Hw. destruct (write [10] L3) as [L4 |]; [| done]. cbn [mbind outcome_bind]. apply IH.
Qed.

(** The messages of a queue with the times of the turns that take them. *)
Fixpoint stamped (clock : nat -> tm) (l : list (option (list Z))) : list (tm * list Z) :=
  match l with
  | [] => []
  | Some buf :: l => (clock 0%nat, buf) :: stamped (fun k => clock (S k)) l
  | None :: l => stamped (fun k => clock (S k)) l
  end.

Lemma take_turn (q : circQueue (list Z)) x rest : wf q -> maxEntries q <> 0 -> contents q = x :: rest ->
  exists q', blockQueueTake_turn q = Ok (Some x, q') /\ wf q' /\ maxEntries q' = maxEntries q /\ contents q' = rest /\
    count q' < maxEntries q'.
Proof.
  intros W Hm E. destruct (circQueuePopHead_cons q x rest W E) as (q' & P & W' & C & M & _ & N).
  exists q'. unfold blockQueueTake_turn, circQueueIsEmpty. rewrite (count_contents _ W), E.
  destruct (Z.eqb_spec (zlen (x :: rest)) 0) as [Hz |]; [rewrite zlen_cons in Hz; pose proof (zlen_nonneg rest); lia |].
  rewrite P. split; [done |]. do 3 (split; [done |]). pose proof (wf_bound _ W Hm). lia.
Qed.

(** Elements before the token that ends the thread are handled in order. *)
Lemma log_thread_takes bs : forall fuel clock L L' rest,
  wf (queue L) -> maxEntries (queue L) <> 0 -> contents (queue L) = (Some <$> bs) ++ rest ->
  handle_all (stamped clock (Some <$> bs)) L = Ok L' ->
  exists q', log_thread (length bs + fuel) clock L = log_thread fuel (fun k => clock (length bs + k)%nat) (set_queue L' q') /\
    wf q' /\ maxEntries q' <> 0 /\ contents q' = rest.
Proof.
  induction bs as [| b bs IH]; intros fuel clock L L' rest W Hm E Hh; cbn [fmap list_fmap app stamped handle_all length Nat.add] in *.
  { injection Hh as <-. exists (queue L). by destruct L. }
  destruct (take_turn _ _ _ W Hm E) as (q' & T & W' & M' & C' & _). apply bind_Ok_inv in Hh as (L1 & E1 & E2).
  pose proof (handle_all_queue [(clock 0%nat, b)] L q') as Hq. cbn [handle_all] in Hq. rewrite E1 in Hq. cbn [mbind outcome_bind] in Hq.
  destruct (handleLog (clock 0%nat) b (set_queue L q')) as [L2 |] eqn:Eh; [| done]. injection Hq as ->.
  pose proof (handle_all_queue (stamped (fun k => clock (S k)) (Some <$> bs)) L1 q') as Hq2. rewrite E2 in Hq2. cbn [mbind outcome_bind] in Hq2.
  destruct (IH fuel (fun k => clock (S k)) (set_queue L1 q') _ rest W' ltac:(cbn; congruence) C' Hq2) as (q2 & E3 & W2 & M2 & C2).
  exists q2. split; [| done]. cbn [log_thread]. unfold log_turn. rewrite T, bind_Ok, Eh, !bind_Ok. exact E3.
Qed.

Lemma log_thread_last fuel clock L : wf (queue L) -> maxEntries (queue L) <> 0 -> contents (queue L) = [None] ->
  exists q', log_thread (S fuel) clock L = Ok (true, set_exit (set_queue L q') 0) /\ contents q' = [].
Proof.
  intros W Hm E. destruct (take_turn _ _ _ W Hm E) as (q' & T & W' & _ & C' & _). exists q'. split; [| done].
  cbn [log_thread]. unfold log_turn. rewrite T, bind_Ok. unfold blockQueueLength, circQueueLength. cbn [queue set_queue].
  by rewrite (count_contents _ W'), C'.
Qed.

(** The token in front of other elements is put behind them. *)
Lemma log_thread_again fuel clock L x rest :
  wf (queue L) -> maxEntries (queue L) <> 0 -> contents (queue L) = None :: x :: rest ->
  exists q', log_thread (S fuel) clock L = log_thread fuel (fun k => clock (S k)) (set_queue L q') /\
    wf q' /\ maxEntries q' <> 0 /\ contents q' = (x :: rest) ++ [None].
Proof.
  intros W Hm E. destruct (take_turn _ _ _ W Hm E) as (q1 & T & W1 & M1 & C1 & N1).
  destruct (circQueuePushTail_room zcalloc_ok q1 None W1) as (q2 & P & W2 & C2 & M2 & _).
  { destruct (Z.eqb_spec (maxEntries q1) 0); [congruence | done]. }
  exists q2. cbn [log_thread]. unfold log_turn. rewrite T, bind_Ok. unfold blockQueueLength, circQueueLength. cbn [queue set_queue].
  rewrite (count_contents _ W1), C1. destruct (Z.eqb_spec (zlen (x :: rest)) 0) as [Hz |].
  { rewrite zlen_cons in Hz. pose proof (zlen_nonneg rest). lia. }
  unfold logExit, blockQueueExit. cbn [queue set_queue]. rewrite (circQueueForcePushTail_ok _ _ _ _ P).
  split; [done |]. split; [done |]. split; [congruence |]. by rewrite C2, C1.
Qed.

Lemma stamped_app clock bs l : stamped clock ((Some <$> bs) ++ l) = stamped clock (Some <$> bs) ++ stamped (fun k => clock (length bs + k)%nat) l.
Proof. revert clock. induction bs as [| b bs IH]; intros clock; [done |]. cbn. f_equal. apply (IH (fun k => clock (S k))). Qed.

Lemma handle_all_app ms1 ms2 L : handle_all (ms1 ++ ms2) L = (L' ← handle_all ms1 L; handle_all ms2 L').
Proof. revert L. induction ms1 as [| [t b] ms1 IH]; intros L; [done |]. cbn [app handle_all]. destruct (handleLog t b L); cbn; [apply IH | done]. Qed.

Lemma log_thread_runs fuel clock L L' bs1 bs2 :
  wf (queue L) -> maxEntries (queue L) <> 0 -> contents (queue L) = (Some <$> bs1) ++ None :: (Some <$> bs2) ->
  handle_all (stamped clock (contents (queue L))) L = Ok L' -> (length bs1 + length bs2 + 2 <= fuel)%nat ->
  exists q', log_thread fuel clock L = Ok (true, set_exit (set_queue L' q') 0) /\ contents q' = [].
Proof.
  intros W Hm E Hh Hf. rewrite E, stamped_app, handle_all_app in Hh. apply bind_Ok_inv in Hh as (L1 & H1 & H2). cbn [stamped] in H2.
  replace fuel with (length bs1 + (fuel - length bs1))%nat by lia.
  destruct (log_thread_takes bs1 (fuel - length bs1) clock L L1 _ W Hm E H1) as (q1 & -> & W1 & M1 & C1).
  destruct bs2 as [| b bs2].
  - injection H2 as <-. destruct (fuel - length bs1)%nat as [| f] eqn:Ef; [cbn in Hf; lia |].
    exact (log_thread_last f _ (set_queue L1 q1) W1 M1 C1).
  - destruct (fuel - length bs1)%nat as [| f] eqn:Ef; [cbn in Hf; lia |].
    destruct (log_thread_again f (fun k => clock (length bs1 + k)%nat) (set_queue L1 q1) _ _ W1 M1 C1) as (q2 & -> & W2 & M2 & C2).
    change (set_queue (set_queue L1 q1) q2) with (set_queue L1 q2).
    set (clock' := fun k : nat => clock (length bs1 + S k)%nat) in *.
    pose proof (handle_all_queue (stamped clock' (Some <$> (b :: bs2))) L1 q2) as Hq.
    assert (H2' : handle_all (stamped clock' (Some <$> (b :: bs2))) L1 = Ok L') by exact H2. rewrite H2' in Hq. cbn [mbind outcome_bind] in Hq.
    replace f with (length (b :: bs2) + (f - length (b :: bs2)))%nat by (cbn [length] in *; lia).
    destruct (log_thread_takes (b :: bs2) (f - length (b :: bs2)) clock' (set_queue L1 q2) _ [None] W2 M2 C2 Hq) as (q3 & -> & W3 & M3 & C3).
    destruct (f - length (b :: bs2))%nat as [| f'] eqn:Ef'; [cbn [length] in *; lia |].
    exact (log_thread_last f' _ (set_queue (set_queue L' q2) q3) W3 M3 C3).
Qed.

(** C29: the log thread.  With the token of [logExit] anywhere in its queue and
    nobody pushing any more, the thread ends; it has written every line of the
    queue, those behind the token too, in order; and read one after the other,
    the files it rotated away and the current one hold what the current file held
    before and then these lines.  This is for lines without a percent sign ([fprintf]
    takes a line as its own format), and when the renames succeed and go to
    different names that no file has, and the log file can be opened again. *)
Theorem log_drains fuel clock L bs1 bs2 :
  log_ok L -> wf (queue L) -> maxEntries (queue L) <> 0 ->
  contents (queue L) = (Some <$> bs1) ++ None :: (Some <$> bs2) -> (length bs1 + length bs2 + 2 <= fuel)%nat ->
  let ms := stamped clock (contents (queue L)) in
  let arch := archives L (lineNum L) ms in
  Forall (fun m => percent_free m.2) ms -> NoDup arch ->
  Forall (fun p => files L !! p = None /\ rename_ok (name L) p = true) arch -> open_ok (name L) = true ->
  exists L', log_thread fuel clock L = Ok (true, L') /\ exit L' = 0 /\ contents (queue L') = [] /\
    concat (text_of (files L') <$> arch) ++ text_of (files L') (name L) = text_of (files L) (name L) ++ concat (line <$> ms) /\
    ms.*2 = bs1 ++ bs2.
Proof.
  intros W Wq Hm E Hf ms arch Hp Nd Ha Ho.
  destruct (handle_all_keeps ms L W Hp Nd Ha Ho) as (L' & E' & _ & _ & C' & _).
  destruct (log_thread_runs fuel clock L L' bs1 bs2 Wq Hm E E' Hf) as (q' & R & Cq).
  exists (set_exit (set_queue L' q') 0). split; [done |]. split; [done |]. split; [done |]. split; [exact C' |].
  assert (Hs : forall bs clock, (stamped clock (Some <$> bs)).*2 = bs).
  { induction bs as [| b bs IH]; intros ck; [done |]. cbn. f_equal. apply IH. }
  unfold ms. rewrite E, stamped_app, fmap_app, Hs. cbn [stamped]. by rewrite Hs.
Qed.
End Log.

(** A log that rotates after every line, with one line behind the token. *)
Definition demo_log : log :=
  Log (OpenFile (str "z.log")) (str "z.log") (str "old") 0 0 E_LOG_FILE
    (CircQueue 0 3 3 4 4 [Some (str "started"); None; Some (str "stopped"); None]) 1 {[str "z.log" := []]} [].

Definition demo_clock (k : nat) : tm := Tm 124 0 31 23 59 (Z.of_nat k) 5.

Lemma log_drains_witness :
  exists L', log_thread (fun _ => true) (fun _ _ => true) (fun _ => true) 4 demo_clock demo_log = Ok (true, L') /\ exit L' = 0 /\
    text_of (files L') (str "old/z.log_2024_01_31_23_59_02") ++ text_of (files L') (str "z.log") =
      str "[2024-01-31 23:59:00:000005][sys]started" ++ [10] ++ str "[2024-01-31 23:59:02:000005][sys]stopped" ++ [10].
Proof.
  destruct (log_drains (fun _ => true) (fun _ _ => true) (fun _ => true) 4 demo_clock demo_log [str "started"] [str "stopped"])
    as (L' & E & X & _ & C & _).
  - split; [reflexivity | reflexivity | by eexists | by vm_compute | by vm_compute].
  - split; [by exists 2 | by vm_compute ..].
  - discriminate.
  - reflexivity.
  - by vm_compute.
  - do 2 (constructor; [apply (bool_decide_unpack _); by vm_compute |]). constructor.
  - apply (bool_decide_unpack _). by vm_compute.
  - constructor; [split; [by vm_compute | reflexivity] | constructor].
  - reflexivity.
  - exists L'. split; [exact E |]. split; [exact X |].
    assert (Ea : archives demo_log (lineNum demo_log) (stamped demo_clock (contents (queue demo_log))) = [str "old/z.log_2024_01_31_23_59_02"])
      by by vm_compute.
    rewrite Ea in C. cbn [concat fmap list_fmap] in C. rewrite app_nil_r in C. etransitivity; [exact C |]. by vm_compute.
Defined.
