(* ===== verification/Buffer.v ===== *)
(** * buffer.c: the byte buffers of the connections

    A buffer is a heap block and two indices; the bytes between them are the
    ones received and not yet consumed ([readable]).  [data] is the block
    itself, so its length is the allocated size, which the code's [size] field
    is meant to equal; [None] is [NULL].  [undef] is what a fresh byte holds. *)
From S2P Require Import Prelude.

Section Buffer.
  Variable undef : Z.

Record buffer := Buffer {
  writeIndex : Z;
  readIndex : Z;
  initSize : Z;
  size : Z;
  data : option (list Z);
}.

Definition kCheapPrepend : Z := 0.

(** [zmalloc(n)]: the block's bytes are unspecified. *)
Definition zmalloc (n : Z) : list Z := replicate (Z.to_nat n) undef.

Definition bufferCreate (initSize : Z) : buffer :=
  if initSize =? 0 then Buffer kCheapPrepend kCheapPrepend initSize initSize None
  else Buffer kCheapPrepend kCheapPrepend initSize initSize
         (Some (zmalloc (kCheapPrepend +u initSize))).

Definition bufferReset (buf : buffer) : buffer :=
  Buffer kCheapPrepend kCheapPrepend (initSize buf) (initSize buf)
    (Some (zmalloc (kCheapPrepend +u initSize buf))).

Definition bufferWriteableBytes (buf : buffer) : Z := size buf -u writeIndex buf.
Definition bufferReadableBytes (buf : buffer) : Z := writeIndex buf -u readIndex buf.
Definition bufferPrependableBytes (buf : buffer) : Z := readIndex buf.
Definition bufferGetSize (buf : buffer) : Z := size buf.

Definition bufferRetrieveAll (buf : buffer) : buffer :=
  Buffer kCheapPrepend kCheapPrepend (initSize buf) (size buf) (data buf).

Definition bufferMoveWriteIndex (buf : buffer) (moveLen : Z) : buffer :=
  Buffer (writeIndex buf +u moveLen) (readIndex buf) (initSize buf) (size buf) (data buf).

Definition bufferSetWriteIndex (buf : buffer) (index : Z) : buffer :=
  Buffer index (readIndex buf) (initSize buf) (size buf) (data buf).

Definition bufferMoveReadIndex (buf : buffer) (moveLen : Z) : buffer :=
  if moveLen <? bufferReadableBytes buf then
    Buffer (writeIndex buf) (readIndex buf +u moveLen) (initSize buf) (size buf) (data buf)
  else bufferRetrieveAll buf.

(** A negative [reallocSize] becomes a huge [size_t], which [zrealloc] cannot
    serve: its handler aborts. *)
Definition bufferExpand (buf : buffer) : outcome buffer :=
  let reallocSize := i32 (size buf <<u 1) in
  if reallocSize <? 0 then Fault OutOfMemory
  else
    let old := default [] (data buf) in
    let tmp := take (Z.to_nat reallocSize) old ++ zmalloc (reallocSize - zlen old) in
    mret (Buffer (writeIndex buf) (readIndex buf) (initSize buf) reallocSize (Some tmp)).

Definition bufferMakeSpace (buf : buffer) (more : Z) : outcome buffer :=
  match data buf with
  | None => mret (Buffer kCheapPrepend kCheapPrepend (initSize buf) (size buf)
                    (Some (zmalloc (more +u kCheapPrepend))))
  | Some d =>
    if bufferWriteableBytes buf +u bufferPrependableBytes buf <? more +u kCheapPrepend
    then bufferExpand buf
    else
      let used := bufferReadableBytes buf in
      bytes ← acopy_out d (readIndex buf) used;
      d' ← acopy_in d kCheapPrepend bytes;
      mret (Buffer (kCheapPrepend +u used) kCheapPrepend (initSize buf) (size buf) (Some d'))
  end.

(** [memcpy] of [dataLen] bytes; [bytes] is the block read from. *)
Definition bufferAppend (buf : buffer) (bytes : list Z) : outcome buffer :=
  let dataLen := zlen bytes in
  b ← (if dataLen >? bufferWriteableBytes buf then bufferMakeSpace buf dataLen else mret buf);
  d ← deref (data b);
  d' ← acopy_in d (writeIndex b) bytes;
  mret (Buffer (writeIndex b +u dataLen) (readIndex b) (initSize b) (size b) (Some d')).

Definition bufferPrepend (buf : buffer) (bytes : list Z) : outcome buffer :=
  let dataLen := zlen bytes in
  if dataLen <=? bufferPrependableBytes buf then mret buf
  else
    let r := readIndex buf -u dataLen in
    d ← deref (data buf);
    d' ← acopy_in d r bytes;
    mret (Buffer (writeIndex buf) r (initSize buf) (size buf) (Some d')).

(** The [n] bytes at [bufferPeek(buf) + off]. *)
Definition bufferPeek (buf : buffer) (off n : Z) : outcome (list Z) :=
  d ← deref (data buf); acopy_out d (readIndex buf + off) n.

(** A little-endian host. *)
Fixpoint le_combine (bs : list Z) : Z :=
  match bs with [] => 0 | b :: bs => b + 256 * le_combine bs end.

Definition i16 (x : Z) : Z := (x + 32768) mod 65536 - 32768.

Definition bufferPeekInt32 (buf : buffer) : outcome Z :=
  bs ← bufferPeek buf 0 4; mret (i32 (le_combine bs)).

Definition bufferPeekInt16 (buf : buffer) : outcome Z :=
  bs ← bufferPeek buf 0 2; mret (i16 (le_combine bs)).

Definition bufferReadInt32 (buf : buffer) : outcome (Z * buffer) :=
  ret ← bufferPeekInt32 buf; mret (ret, bufferMoveReadIndex buf 4).

(** ** Contents and well-formedness *)

Definition readable (buf : buffer) : list Z :=
  take (Z.to_nat (writeIndex buf - readIndex buf))
    (drop (Z.to_nat (readIndex buf)) (default [] (data buf))).

Record bwf (buf : buffer) : Prop := {
  bwf_data : exists d, data buf = Some d /\ zlen d = size buf;
  bwf_idx : 0 <= readIndex buf <= writeIndex buf;
  bwf_size : writeIndex buf <= size buf < 2147483648;
}.

(** The block cut at the two indices. *)
Record rep (buf : buffer) (pre mid post : list Z) : Prop := {
  rep_data : data buf = Some (pre ++ mid ++ post);
  rep_r : readIndex buf = zlen pre;
  rep_w : writeIndex buf = zlen pre + zlen mid;
  rep_size : size buf = zlen pre + zlen mid + zlen post;
  rep_bound : size buf < 2147483648;
}.

Lemma bwf_rep buf : bwf buf -> exists pre post, rep buf pre (readable buf) post.
Proof.
  intros [(d & Ed & Ld) Hi Hs]. unfold readable. rewrite Ed. cbn [from_option id].
  set (r := readIndex buf) in *. set (w := writeIndex buf) in *.
  exists (take (Z.to_nat r) d), (drop (Z.to_nat w) d).
  assert (L1 : zlen (take (Z.to_nat r) d) = r) by (apply zlen_take; lia).
  assert (L2 : zlen (take (Z.to_nat (w - r)) (drop (Z.to_nat r) d)) = w - r).
  { apply zlen_take. rewrite zlen_drop; lia. }
  assert (L3 : zlen (drop (Z.to_nat w) d) = zlen d - w) by (apply zlen_drop; lia).
  split; rewrite ?L1, ?L2, ?L3; try (subst r w; lia).
  rewrite Ed. f_equal.
  replace (drop (Z.to_nat w) d) with (drop (Z.to_nat (w - r)) (drop (Z.to_nat r) d)).
  - by rewrite !take_drop.
  - rewrite drop_drop. f_equal. lia.
Qed.

Lemma rep_bwf buf pre mid post : rep buf pre mid post -> bwf buf /\ readable buf = mid.
Proof.
  intros [D R W S B]; pose proof (zlen_nonneg pre). pose proof (zlen_nonneg mid).
  pose proof (zlen_nonneg post). split.
  - split; [| lia | lia]. eexists. split; [exact D |]. rewrite !zlen_app. lia.
  - unfold readable. rewrite D, R, W. cbn [from_option id]. unfold zlen.
    replace (Z.of_nat (length pre) + Z.of_nat (length mid) - Z.of_nat (length pre))
      with (Z.of_nat (length mid)) by lia.
    by rewrite !Nat2Z.id, drop_app_length, take_app_length.
Qed.

Lemma readable_bytes buf : bwf buf -> bufferReadableBytes buf = zlen (readable buf).
Proof.
  intros W. destruct (bwf_rep _ W) as (pre & post & R). destruct R as [_ R1 W1 S B].
  unfold bufferReadableBytes. rewrite R1, W1, u32_small; [lia |].
  pose proof (zlen_nonneg pre). pose proof (zlen_nonneg (readable buf)).
  pose proof (zlen_nonneg post). lia.
Qed.

(** ** The operations on well-formed buffers *)

Lemma bufferCreate_wf n :
  0 < n < 2147483648 -> bwf (bufferCreate n) /\ readable (bufferCreate n) = [].
Proof.
  intros H. unfold bufferCreate. destruct (Z.eqb_spec n 0); [lia |].
  apply (rep_bwf _ [] [] (zmalloc (kCheapPrepend +u n))).
  assert (L : zlen (zmalloc (kCheapPrepend +u n)) = n).
  { unfold zmalloc. rewrite zlen_replicate; unfold kCheapPrepend; rewrite u32_small; lia. }
  split; cbn [size data readIndex writeIndex]; try rewrite L; try done; lia.
Qed.

Lemma bufferRetrieveAll_spec buf :
  bwf buf -> bwf (bufferRetrieveAll buf) /\ readable (bufferRetrieveAll buf) = [].
Proof.
  intros [(d & Ed & Ld) Hi Hs]. apply (rep_bwf _ [] [] d).
  split; cbn; try done; change (zlen []) with 0; lia.
Qed.

Lemma bufferMoveReadIndex_spec buf n :
  bwf buf -> 0 <= n -> bwf (bufferMoveReadIndex buf n) /\
    readable (bufferMoveReadIndex buf n) = drop (Z.to_nat n) (readable buf).
Proof.
  intros W Hn. unfold bufferMoveReadIndex. rewrite (readable_bytes _ W).
  destruct (Z.ltb_spec n (zlen (readable buf))) as [Hlt | Hge].
  - destruct (bwf_rep _ W) as (pre & post & R). destruct R as [D R1 W1 S B].
    pose proof (zlen_nonneg pre). pose proof (zlen_nonneg post).
    apply (rep_bwf _ (pre ++ take (Z.to_nat n) (readable buf)) _ post).
    assert (L1 : zlen (take (Z.to_nat n) (readable buf)) = n) by (apply zlen_take; lia).
    assert (L2 : zlen (drop (Z.to_nat n) (readable buf)) = zlen (readable buf) - n)
      by (apply zlen_drop; lia).
    split; cbn [size data readIndex writeIndex]; rewrite ?zlen_app, ?L1, ?L2; try lia.
    + rewrite D, <- !app_assoc. do 2 f_equal. by rewrite app_assoc, take_drop.
    + rewrite R1, u32_small; lia.
  - destruct (bufferRetrieveAll_spec _ W) as [W' E]. split; [done |].
    rewrite E, drop_ge; [done |]. unfold zlen in Hge. lia.
Qed.

Lemma bufferPeek_spec buf off n :
  bwf buf -> 0 <= off -> 0 <= n -> off + n <= zlen (readable buf) ->
  bufferPeek buf off n = Ok (take (Z.to_nat n) (drop (Z.to_nat off) (readable buf))).
Proof.
  intros W Ho Hn Hl. destruct (bwf_rep _ W) as (pre & post & R). destruct R as [D R1 W1 S B].
  unfold bufferPeek. rewrite D, R1. c_simpl.
  pose proof (zlen_nonneg pre). pose proof (zlen_nonneg post).
  rewrite acopy_out_Ok by (rewrite ?zlen_app; lia). f_equal.
  rewrite Z2Nat.inj_add by lia. unfold zlen at 1. rewrite Nat2Z.id, <- drop_drop.
  rewrite drop_app_length. unfold zlen in Hl.
  rewrite drop_app_le, take_app_le by (rewrite ?length_drop; lia). done.
Qed.

(** Storing at [writeIndex] when the free tail is long enough, or not. *)
Lemma store_fits buf pre mid post bytes :
  rep buf pre mid post -> zlen bytes <= zlen post ->
  exists b', (d ← deref (data buf); d' ← acopy_in d (writeIndex buf) bytes;
    mret (Buffer (writeIndex buf +u zlen bytes) (readIndex buf) (initSize buf) (size buf) (Some d')))
    = Ok b' /\ rep b' pre (mid ++ bytes) (drop (length bytes) post).
Proof.
  intros [D R W S B] Hl. rewrite D. c_simpl. pose proof (zlen_nonneg pre).
  pose proof (zlen_nonneg mid). pose proof (zlen_nonneg bytes).
  replace (pre ++ mid ++ post)
    with ((pre ++ mid) ++ take (length bytes) post ++ drop (length bytes) post)
    by (by rewrite take_drop, app_assoc).
  rewrite W, <- zlen_app.
  rewrite acopy_in_app.
  2: { unfold zlen in *. rewrite length_take. lia. }
  c_simpl. eexists. split; [reflexivity |].
  assert (L : zlen (drop (length bytes) post) = zlen post - zlen bytes).
  { unfold zlen in *. rewrite length_drop. lia. }
  split; cbn [size data readIndex writeIndex]; rewrite ?zlen_app, ?L; try lia.
  - by rewrite <- !app_assoc.
  - rewrite u32_small; lia.
Qed.

Lemma store_overflow buf pre mid post bytes :
  rep buf pre mid post -> zlen post < zlen bytes ->
  (d ← deref (data buf); d' ← acopy_in d (writeIndex buf) bytes;
    mret (Buffer (writeIndex buf +u zlen bytes) (readIndex buf) (initSize buf) (size buf) (Some d')))
    = Fault OutOfBounds.
Proof.
  intros [D R W S B] Hl. rewrite D. c_simpl.
  rewrite acopy_in_fault; [done |]. rewrite !zlen_app. lia.
Qed.

Lemma bufferWriteableBytes_rep buf pre mid post :
  rep buf pre mid post -> bufferWriteableBytes buf = zlen post.
Proof.
  intros [D R W S B]. unfold bufferWriteableBytes. pose proof (zlen_nonneg pre).
  pose proof (zlen_nonneg mid). pose proof (zlen_nonneg post). rewrite u32_small; lia.
Qed.

Lemma bufferExpand_spec buf pre mid post :
  rep buf pre mid post -> size buf < 1073741824 ->
  exists b', bufferExpand buf = Ok b' /\ rep b' pre mid (post ++ zmalloc (size buf)).
Proof.
  intros [D R W S B] Hs. pose proof (zlen_nonneg pre). pose proof (zlen_nonneg mid).
  pose proof (zlen_nonneg post). unfold bufferExpand. rewrite D. cbn [from_option id].
  rewrite Z.shiftl_mul_pow2 by lia. change (2 ^ 1) with 2.
  rewrite u32_small, i32_small by lia. destruct (Z.ltb_spec (size buf * 2) 0); [lia |].
  assert (La : zlen (pre ++ mid ++ post) = size buf) by (rewrite !zlen_app; lia).
  rewrite La, take_ge by (unfold zlen in La; lia).
  replace (size buf * 2 - size buf) with (size buf) by lia.
  eexists. split; [reflexivity |].
  split; cbn [size data readIndex writeIndex]; try done.
  - by rewrite <- !app_assoc.
  - rewrite zlen_app. unfold zmalloc. rewrite zlen_replicate; lia.
  - lia.
Qed.

Lemma bufferMakeSpace_spec buf pre mid post more :
  rep buf pre mid post -> zlen post < more < 4294967296 ->
  (zlen post + zlen pre < more -> size buf < 1073741824) ->
  exists b' pre' post', bufferMakeSpace buf more = Ok b' /\ rep b' pre' mid post' /\
    (pre' = [] /\ more <= zlen post' /\ zlen post' = zlen post + zlen pre \/
     zlen post + zlen pre < more /\ pre' = pre /\ zlen post' = zlen post + size buf).
Proof.
  intros Rp Hm Hs. pose proof Rp as [D R W S B]. pose proof (zlen_nonneg pre).
  pose proof (zlen_nonneg mid). pose proof (zlen_nonneg post).
  unfold bufferMakeSpace, bufferPrependableBytes, kCheapPrepend. rewrite D.
  rewrite (bufferWriteableBytes_rep _ _ _ _ Rp), R, Z.add_0_r, !u32_small by lia.
  destruct (Z.ltb_spec (zlen post + zlen pre) more) as [Hlt | Hge].
  - destruct (bufferExpand_spec _ _ _ _ Rp (Hs Hlt)) as (b' & E & Rp'). rewrite E.
    eexists _, _, _. split; [reflexivity |]. split; [exact Rp' |]. right. split; [done |]. split; [done |].
    rewrite zlen_app. unfold zmalloc. rewrite zlen_replicate; lia.
  - destruct (rep_bwf _ _ _ _ Rp) as [Wf Er].
    rewrite (readable_bytes _ Wf), Er, acopy_out_app. c_simpl.
    replace (acopy_in (pre ++ mid ++ post) 0 mid) with
      (acopy_in ([] ++ take (length mid) (pre ++ mid ++ post) ++
                 drop (length mid) (pre ++ mid ++ post)) (zlen (@nil Z)) mid)
      by (by rewrite take_drop).
    rewrite acopy_in_app.
    2: { unfold zlen. rewrite length_take, !length_app. lia. }
    c_simpl. eexists _, [], (drop (length mid) (pre ++ mid ++ post)). split; [reflexivity |].
    set (post' := drop (length mid) (pre ++ mid ++ post)).
    assert (L : zlen post' = zlen pre + zlen post).
    { unfold post', zlen. rewrite length_drop, !length_app. lia. }
    split; [| left; split_and!; [done | lia | lia]].
    split; cbn [size data readIndex writeIndex]; try done; rewrite ?L;
      change (zlen []) with 0; rewrite ?u32_small; lia.
Qed.

Lemma bufferAppend_cases buf bytes :
  bwf buf -> size buf < 1073741824 -> zlen bytes < 4294967296 ->
  if zlen bytes <=? 2 * size buf - writeIndex buf then
    exists b', bufferAppend buf bytes = Ok b' /\ bwf b' /\ readable b' = readable buf ++ bytes
  else bufferAppend buf bytes = Fault OutOfBounds.
Proof.
  intros Wf Hs Hb. destruct (bwf_rep _ Wf) as (pre & post & Rp).
  pose proof Rp as [D R W S B]. pose proof (zlen_nonneg pre).
  pose proof (zlen_nonneg (readable buf)). pose proof (zlen_nonneg post).
  unfold bufferAppend. rewrite (bufferWriteableBytes_rep _ _ _ _ Rp), Z.gtb_ltb.
  destruct (Z.ltb_spec (zlen post) (zlen bytes)) as [Hgt | Hle].
  - destruct (bufferMakeSpace_spec _ _ _ _ (zlen bytes) Rp ltac:(lia) (fun _ => Hs))
      as (b & pre' & post' & E & Rp' & Hc). rewrite E, bind_Ok.
    destruct (Z.leb_spec (zlen bytes) (2 * size buf - writeIndex buf)) as [Hf | Hn].
    + destruct (store_fits _ _ _ _ bytes Rp') as (b' & E' & Rb).
      { destruct Hc as [(_ & Hc & _) | (_ & _ & Hc)]; lia. }
      exists b'. split; [exact E' |]. by apply rep_bwf in Rb.
    + eapply store_overflow; [done |].
      destruct Rp' as [D' R' W' S' B']. pose proof (zlen_nonneg pre').
      destruct Hc as [(-> & _ & Hc) | (_ & -> & Hc)]; lia.
  - rewrite bind_Ok. destruct (Z.leb_spec (zlen bytes) (2 * size buf - writeIndex buf)); [| lia].
    destruct (store_fits _ _ _ _ bytes Rp Hle) as (b' & E' & Rb).
    exists b'. split; [exact E' |]. by apply rep_bwf in Rb.
Qed.

(** The block grows only to hold the unread bytes and the new ones. *)
Lemma bufferAppend_size buf bytes b' :
  bwf buf -> size buf < 1073741824 -> zlen bytes < 4294967296 ->
  bufferAppend buf bytes = Ok b' ->
  size buf <= size b' <= Z.max (size buf) (2 * (zlen (readable buf) + zlen bytes)).
Proof.
  intros Wf Hs Hb. destruct (bwf_rep _ Wf) as (pre & post & Rp).
  pose proof Rp as [D R W S B]. pose proof (zlen_nonneg pre).
  pose proof (zlen_nonneg (readable buf)). pose proof (zlen_nonneg post).
  unfold bufferAppend. rewrite (bufferWriteableBytes_rep _ _ _ _ Rp), Z.gtb_ltb.
  destruct (Z.ltb_spec (zlen post) (zlen bytes)) as [Hgt | Hle].
  - destruct (bufferMakeSpace_spec _ _ _ _ (zlen bytes) Rp ltac:(lia) (fun _ => Hs))
      as (b & pre' & post' & E & Rp' & Hc). rewrite E, bind_Ok.
    intros E'. inv_ok. simpl. pose proof Rp' as [D' R' W' S' B'].
    destruct Hc as [(-> & _ & Hc) | (Hlt & -> & Hc)]; rewrite S'.
    + change (zlen []) with 0. lia.
    + lia.
  - rewrite bind_Ok. intros E. inv_ok. simpl. lia.
Qed.

(** Whenever an append succeeds, it has appended. *)
Lemma bufferAppend_ok buf bytes b' :
  bwf buf -> zlen bytes < 4294967296 -> bufferAppend buf bytes = Ok b' ->
  bwf b' /\ readable b' = readable buf ++ bytes.
Proof.
  intros Wf Hb E. destruct (Z.lt_ge_cases (size buf) 1073741824) as [Hs | Hs].
  { pose proof (bufferAppend_cases buf bytes Wf Hs Hb) as C.
    destruct (_ <=? _); [| congruence]. destruct C as (b & E' & W' & R'). rewrite E' in E. by injection E as <-. }
  destruct (bwf_rep _ Wf) as (pre & post & Rp). pose proof Rp as [D R W S B].
  pose proof (zlen_nonneg pre). pose proof (zlen_nonneg (readable buf)). pose proof (zlen_nonneg post).
  unfold bufferAppend in E. rewrite (bufferWriteableBytes_rep _ _ _ _ Rp), Z.gtb_ltb in E.
  destruct (Z.ltb_spec (zlen post) (zlen bytes)) as [Hgt | Hle].
  - destruct (Z.lt_ge_cases (zlen post + zlen pre) (zlen bytes)) as [Hx | Hx].
    { exfalso. unfold bufferMakeSpace in E. rewrite D in E.
      rewrite (bufferWriteableBytes_rep _ _ _ _ Rp) in E. unfold bufferPrependableBytes, kCheapPrepend in E.
      rewrite R, Z.add_0_r, !u32_small in E by lia.
      destruct (Z.ltb_spec (zlen post + zlen pre) (zlen bytes)); [| lia].
      unfold bufferExpand in E. rewrite Z.shiftl_mul_pow2 in E by lia. change (2 ^ 1) with 2 in E.
      rewrite u32_small in E by lia.
      assert (Ei : i32 (size buf * 2) = size buf * 2 - 4294967296).
      { unfold i32. rewrite <- (Z.mod_unique (size buf * 2 + 2147483648) 4294967296 1
          (size buf * 2 + 2147483648 - 4294967296)); lia. }
      rewrite Ei in E. destruct (Z.ltb_spec (size buf * 2 - 4294967296) 0); [done | lia]. }
    destruct (bufferMakeSpace_spec _ _ _ _ (zlen bytes) Rp ltac:(lia) ltac:(lia))
      as (b & pre' & post' & Em & Rp' & Hc). rewrite Em, bind_Ok in E.
    destruct (store_fits _ _ _ _ bytes Rp') as (b1 & E1 & R1).
    { destruct Hc as [(_ & Hc & _) | (Hc & _ & _)]; lia. }
    rewrite E1 in E. injection E as <-. by apply rep_bwf in R1.
  - rewrite bind_Ok in E. destruct (store_fits _ _ _ _ bytes Rp Hle) as (b1 & E1 & R1).
    rewrite E1 in E. injection E as <-. by apply rep_bwf in R1.
Qed.
End Buffer.

(** ** Little-endian integers *)

Fixpoint le_split (n : nat) (x : Z) : list Z :=
  match n with O => [] | S n => x mod 256 :: le_split n (x / 256) end.

Lemma le_split_length n x : length (le_split n x) = n.
Proof. revert x. induction n; intros x; simpl; auto. Qed.

Lemma le_combine_split n x :
  0 <= x < 256 ^ Z.of_nat n -> le_combine (le_split n x) = x.
Proof.
  revert x. induction n as [| n IH]; intros x Hx; [simpl in *; lia |].
  rewrite Nat2Z.inj_succ, Z.pow_succ_r in Hx by lia. simpl. rewrite IH.
  - pose proof (Z.div_mod x 256). lia.
  - split; [apply Z.div_pos; lia | apply Z.div_lt_upper_bound; lia].
Qed.

(** ** Properties *)

(** [bufferAppend] on a well-formed buffer appends the bytes to the readable
    ones exactly when [dataLen <= 2 * size - writeIndex]; since
    [bufferExpand] doubles the block once, whatever is asked for, anything
    longer is written past the end of the block. *)
Theorem bufferAppend_spec undef buf bytes :
  bwf buf -> size buf < 1073741824 -> zlen bytes < 4294967296 ->
  if zlen bytes <=? 2 * size buf - writeIndex buf then
    exists b', bufferAppend undef buf bytes = Ok b' /\ bwf b' /\
      readable b' = readable buf ++ bytes
  else bufferAppend undef buf bytes = Fault OutOfBounds.
Proof. exact (bufferAppend_cases undef buf bytes). Qed.

Definition small_buffer : buffer := Buffer 4 1 4 4 (Some [9; 1; 2; 3]).

Lemma small_buffer_wf : bwf small_buffer.
Proof. split; [by eexists | cbn; lia | cbn; lia]. Qed.

Lemma bufferAppend_spec_witness :
  exists b', bufferAppend 0 small_buffer [4; 5; 6] = Ok b' /\ bwf b' /\
    readable b' = [1; 2; 3; 4; 5; 6].
Proof. exact (bufferAppend_spec 0 small_buffer [4; 5; 6] small_buffer_wf eq_refl eq_refl). Defined.

Lemma bufferAppend_first undef bytes :
  0 < zlen bytes < 2147483648 ->
  bufferAppend undef (bufferCreate undef 0) bytes = Ok (Buffer (zlen bytes) 0 0 0 (Some bytes)).
Proof.
  intros H. unfold bufferAppend, bufferMakeSpace.
  change (bufferWriteableBytes (bufferCreate undef 0)) with 0. rewrite Z.gtb_ltb.
  destruct (Z.ltb_spec 0 (zlen bytes)); [| lia]. unfold bufferCreate, kCheapPrepend.
  cbn -[u32 acopy_in zmalloc]. rewrite Z.add_0_r, Z.add_0_l, !u32_small by lia.
  rewrite <- (app_nil_r (zmalloc undef (zlen bytes))).
  replace (acopy_in _ 0 bytes)
    with (acopy_in ([] ++ zmalloc undef (zlen bytes) ++ []) (zlen (@nil Z)) bytes) by done.
  rewrite acopy_in_app.
  - c_simpl. by rewrite app_nil_r.
  - unfold zmalloc. rewrite zlen_replicate; lia.
Qed.

(** A buffer created with size 0 overflows on its second append: the first
    append allocates a block of exactly the bytes appended and leaves [size]
    at 0, so [bufferWriteableBytes] wraps to nearly [2^32]. *)
Theorem buffer_created_empty_overflows undef bytes1 bytes2 :
  0 < zlen bytes1 < 2147483648 -> 0 < zlen bytes2 < 2147483648 ->
  exists b, bufferAppend undef (bufferCreate undef 0) bytes1 = Ok b /\
    bufferAppend undef b bytes2 = Fault OutOfBounds.
Proof.
  intros H1 H2. eexists. split; [by apply bufferAppend_first |].
  unfold bufferAppend, bufferWriteableBytes. cbn -[u32 acopy_in zlen].
  assert (U : 0 -u zlen bytes1 = 4294967296 - zlen bytes1).
  { unfold u32. symmetry. apply (Z.mod_unique _ _ (-1)); lia. }
  rewrite U, Z.gtb_ltb. destruct (Z.ltb_spec (4294967296 - zlen bytes1) (zlen bytes2)); [lia |].
  cbn -[u32 acopy_in zlen]. rewrite acopy_in_fault; [done |]. lia.
Qed.

Lemma buffer_created_empty_overflows_witness :
  exists b, bufferAppend 0 (bufferCreate 0 0) [1; 2] = Ok b /\
    bufferAppend 0 b [3] = Fault OutOfBounds.
Proof. apply (buffer_created_empty_overflows 0 [1; 2] [3]); split; reflexivity. Defined.

(** [bufferPrepend] never prepends: its guard is inverted, so when the bytes
    fit in front it returns without storing them, and when they do not it
    writes in front of the block. *)
Theorem bufferPrepend_never buf bytes :
  bwf buf -> zlen bytes < 2147483648 ->
  bufferPrepend buf bytes = if zlen bytes <=? readIndex buf then Ok buf else Fault OutOfBounds.
Proof.
  intros W Hb. destruct W as [(d & D & L) Hi Hs]. unfold bufferPrepend, bufferPrependableBytes.
  destruct (Z.leb_spec (zlen bytes) (readIndex buf)) as [| Hgt]; [done |].
  rewrite D. c_simpl. rewrite acopy_in_fault; [done |].
  assert (U : readIndex buf -u zlen bytes = readIndex buf - zlen bytes + 4294967296).
  { unfold u32. symmetry. apply (Z.mod_unique _ _ (-1)); lia. }
  rewrite U. lia.
Qed.

Lemma bufferPrepend_never_witness :
  bufferPrepend small_buffer [7] = Ok small_buffer /\
  bufferPrepend small_buffer [7; 8] = Fault OutOfBounds.
Proof.
  split; [apply (bufferPrepend_never small_buffer [7] small_buffer_wf eq_refl)
         | apply (bufferPrepend_never small_buffer [7; 8] small_buffer_wf eq_refl)].
Defined.
