(* ===== verification/Define.v ===== *)
(** * define.h, z.h: constants and the messages components send each other *)
From S2P Require Import Prelude.

Definition MSG_TYPE_RESPONSE : Z := 0x00000001.
Definition MSG_TYPE_PROTO_LUA : Z := 0x00000002.
Definition MSG_TYPE_PROTO_SOCKET : Z := 0x00000004.
Definition MSG_TYPE_EXIT_CONTEXT : Z := 0xFFFFFFFF.
Definition MSG_TYPE_NOTCOPYDATA : Z := 0x00010000.
Definition MSG_TYPE_COPYDATA : Z := 0x00020000.
Definition MSG_TYPE_NEWSESSION : Z := 0x00080000.
Definition MSG_TYPE_TCP_SERVER : Z := 0x00100000.
Definition MSG_TYPE_TCP_CLIENT : Z := 0x00200000.
Definition MSG_TYPE_TCP_SEND : Z := 0x00400000.
Definition MSG_TYPE_TCP_CLOSE : Z := 0x00800000.
Definition MSG_TYPE_TCP_SERVER_OPT : Z := 0x01000000.
Definition MSG_TYPE_TCP_CLIENT_OPT : Z := 0x02000000.

Definition MSG_TYPE_SOCK_OPEN : Z := 1.
Definition MSG_TYPE_SOCK_DATA : Z := 2.
Definition MSG_TYPE_SOCK_CLOSE : Z := 3.
Definition MSG_TYPE_SOCK_ACCEPT : Z := 4.
Definition MSG_TYPE_SOCK_CONNECT : Z := 5.
Definition MSG_TYPE_SOCK_ERROR : Z := 6.

Definition HEAD_PROTO_TYPE : Z := 1.
Definition HTTP_PROTO_TYPE : Z := 2.

Definition TCP_NAME_LEN : Z := 32.
Definition IPADDR_LEN : Z := 128.
Definition PROTO_NAME_LEN : Z := 32.
Definition CONTEXT_NAME_MAX_LEN : Z := 32.
Definition INVALID_FD : Z := -1.

(** The capacities of the queues. *)
Definition CONTEXT_QUEUE_MAX_LENGTH : Z := 1024.
Definition CONTEXT_QUEUE_LEN : Z := 1024.
Definition TCPCLIENT_QUEUE_MAX_LENGTH : Z := 1024.
Definition TCP_SERVER_QUEUE_LEN : Z := 1024.
Definition TCP_QUEUE_MAX_LEN : Z := 1024.
Definition GEN_TCP_QUEUE_MAX_LEN : Z := 1024.

(** The kinds of log lines ([Logger] has the first and their number). *)
Definition MSG_TYPE_LOG_WARN : Z := 1.
Definition MSG_TYPE_LOG_LOG : Z := 2.
Definition MSG_TYPE_LOG_MSG : Z := 3.
Definition MSG_TYPE_LOG_DEBUG : Z := 4.
Definition MSG_TYPE_LOG_STAT : Z := 5.

Definition BOOTSTRAP_LOAD : string := "LOAD".
Definition BOOTSTRAP_NAME : string := "bootstrap".
Definition Z_DEFINE_ENV : string := "@.env".
Definition NAME_MAX_LEN : Z := 31.

(** The type of a message the socket layer sends. *)
Definition sock_type (k : Z) : Z := Z.lor (Z.shiftl (Z.land k 0xFFFF) 16) MSG_TYPE_PROTO_SOCKET.

(** The arguments of a [zSendx(NULL, ...)] call. *)
Record zsend := ZSend {
  zs_from : Z;
  zs_to : Z;
  zs_session : Z;
  zs_type : Z;
  zs_data : option (list Z);
  zs_sz : Z;
  zs_ud : Z;
}.
