(* ===== verification/Logger.v ===== *)
(** * service_logger.c: the logging actor

    An actor whose messages are lines for a log file of its own: the type of the
    message is the level, its data the text.  The file is rotated as in [Log]. *)
From S2P Require Import Prelude CString Define LockFree Log.

Definition MSG_TYPE_LOG_ERROR : Z := 0.
Definition MSG_TYPE_LOG_LEN : Z := 6.

Definition sLevelMsg : list (list Z) := [str "ERROR"; str "WARN"; str "LOG"; str "MSG"; str "DEBUG"; str "STAT"].

(** [struct logger], then the files and the terminal. *)
Record logger := Logger {
  handle : file;
  name : list Z;
  rotateDir : list Z;
  close : Z;
  maxLineNum : Z;
  lineNum : Z;
  files : gmap (list Z) (list Z);
  terminal : list Z;
}.

Definition set_file (i : logger) h n fs := Logger h (name i) (rotateDir i) (close i) (maxLineNum i) n fs (terminal i).

Section Logger.
  Variables (rename_ok : list Z -> list Z -> bool) (open_ok : list Z -> bool).

Definition write (text : list Z) (i : logger) : outcome logger :=
  match handle i with
  | NullFile => Fault NullDeref
  | Stdout => mret (Logger (handle i) (name i) (rotateDir i) (close i) (maxLineNum i) (lineNum i) (files i) (terminal i ++ text))
  | OpenFile p => mret (set_file i (handle i) (lineNum i) (<[p := default [] (files i !! p) ++ text]> (files i)))
  end.

Definition _rotateFile (t : tm) (i : logger) : outcome logger :=
  if close i =? 0 then mret i
  else
    let n := lineNum i in
    let i := set_file i (handle i) (i32 (n + 1)) (files i) in
    if n >? maxLineNum i then
      match handle i with
      | NullFile => Fault NullDeref
      | _ =>
        let fs := rename rename_ok (name i) (rotated_name (rotateDir i) (name i) t) (files i) in
        let r := fopen_w open_ok (name i) fs in
        mret (set_file i r.1 0 r.2)
      end
    else mret i.

(** The callback.  [fwrite] reads [sz] bytes of the data. *)
Definition _logger (t : tm) (msg : message) (i : logger) : outcome logger :=
  let ty := Z.land (type msg) 0x0000FFFF in
  _ ← c_assert ((ty >=? MSG_TYPE_LOG_ERROR) && (ty <? MSG_TYPE_LOG_LEN));
  i ← _rotateFile t i;
  level ← aget sLevelMsg ty;
  i ← write (stamp t ++ str "[" ++ print_d (i32 (from msg)) ++ str "][" ++ level ++ str "]") i;
  text ← (if sz msg =? 0 then mret [] else d ← deref (data msg); acopy_out d 0 (sz msg));
  i ← write text i;
  write [10] i.

Definition loggerCreate : logger := Logger NullFile [] [] 0 0 0 ∅ [].

Definition blank : list Z := [32; 9; 13; 10].

(** The result and the instance; [0] means the callback was set.  The copies
    into the two name buffers are not bounded. *)
Definition loggerInit (parm : option (list Z)) (fs : gmap (list Z) (list Z)) (i : logger) : outcome (Z * logger) :=
  match parm with
  | Some (c :: parm) =>
    let '(name, tmp) := strsep (Some (c :: parm)) blank in
    match name with
    | None => mret (1, i)
    | Some name =>
      let '(s, tmp) := strsep tmp blank in
      let '(dir, _) := match s with Some _ => strsep tmp blank | None => (None, tmp) end in
      let maxLineNum := match s with Some s => i32 (strtol s).1 | None => 200000 end in
      _ ← acopy_in (replicate (Z.to_nat FILENAME_MAX) 0) 0 (default [] dir);
      _ ← acopy_in (replicate (Z.to_nat FILENAME_MAX) 0) 0 name;
      let dir := default (rotateDir i) dir in
      match fopen_w open_ok name fs with
      | (OpenFile p, fs) => mret (0, Logger (OpenFile p) name dir 1 maxLineNum (lineNum i) fs (terminal i))
      | (h, fs) => mret (1, Logger h name dir (close i) maxLineNum (lineNum i) fs (terminal i))
      end
    end
  | _ => mret (0, Logger Stdout (name i) (rotateDir i) (close i) (maxLineNum i) (lineNum i) fs (terminal i))
  end.

(** Whether the file is closed. *)
Definition loggerRelease (i : logger) : bool := negb (close i =? 0).

Lemma logger_write_open i p n base text cur : base !! p = Some cur ->
  write text (set_file i (OpenFile p) n base) = Ok (set_file i (OpenFile p) n (<[p := cur ++ text]> base)).
Proof. intros E. unfold write, set_file. cbn [handle files name lineNum]. by rewrite E. Qed.

(** The line of a message. *)
Definition entry (t : tm) (msg : message) (level : list Z) (d : list Z) : list Z :=
  stamp t ++ str "[" ++ print_d (i32 (from msg)) ++ str "][" ++ level ++ str "]" ++ take (Z.to_nat (sz msg)) d ++ [10].

Lemma level_of ty : 0 <= ty < MSG_TYPE_LOG_LEN -> exists level, aget sLevelMsg ty = Ok level.
Proof. intros Hty. destruct (aget_is_Ok sLevelMsg ty) as (l & _ & E); [done | by exists l]. Qed.

Lemma rotate_file t i cur :
  close i <> 0 -> handle i = OpenFile (name i) -> files i !! name i = Some cur -> 0 <= lineNum i < 2147483647 ->
  (lineNum i > maxLineNum i -> rename_ok (name i) (rotated_name (rotateDir i) (name i) t) = true /\ open_ok (name i) = true) ->
  exists n base cur', _rotateFile t i = Ok (set_file i (OpenFile (name i)) n base) /\ base !! name i = Some cur' /\
    if lineNum i >? maxLineNum i then
      n = 0 /\ cur' = [] /\ base = <[name i := []]> (<[rotated_name (rotateDir i) (name i) t := cur]> (delete (name i) (files i)))
    else n = lineNum i + 1 /\ cur' = cur /\ base = files i.
Proof.
  intros Hc Hh Hf Hn Hr. unfold _rotateFile. destruct (Z.eqb_spec (close i) 0); [done |]. rewrite i32_small by lia.
  cbn [maxLineNum set_file handle]. rewrite !Z.gtb_ltb in *. destruct (Z.ltb_spec (maxLineNum i) (lineNum i)) as [Hlt | Hge].
  - destruct (Hr ltac:(lia)) as [R O]. rewrite Hh. cbn [name set_file rotateDir files]. unfold rename, fopen_w. rewrite R, Hf, O.
    eexists 0, _, []. split; [reflexivity |]. split; [apply lookup_insert_eq | done].
  - rewrite Hh. by exists (lineNum i + 1), (files i), cur.
Qed.

(** The logging actor.  A message of one of the six levels becomes one line
    of the file: the time, the sender, the name of the level, the first [sz] bytes
    of the data; the file is moved away first if it holds more lines than it may.
    A message of any other type fails the assertion, which ends the server. *)
Theorem logger_line t msg i cur d :
  close i <> 0 -> handle i = OpenFile (name i) -> files i !! name i = Some cur -> 0 <= lineNum i < 2147483647 ->
  (lineNum i > maxLineNum i -> rename_ok (name i) (rotated_name (rotateDir i) (name i) t) = true /\ open_ok (name i) = true) ->
  data msg = Some d -> 0 <= sz msg <= zlen d ->
  let ty := Z.land (type msg) 0x0000FFFF in
  if ty <? MSG_TYPE_LOG_LEN then exists level, aget sLevelMsg ty = Ok level /\
    _logger t msg i = Ok (
      if lineNum i >? maxLineNum i then
        set_file i (OpenFile (name i)) 0 (<[name i := entry t msg level d]>
          (<[rotated_name (rotateDir i) (name i) t := cur]> (delete (name i) (files i))))
      else set_file i (OpenFile (name i)) (lineNum i + 1) (<[name i := cur ++ entry t msg level d]> (files i)))
  else _logger t msg i = Fault AssertFailed.
Proof.
  intros Hc Hh Hf Hn Hr Hd Hs ty. unfold _logger. fold ty.
  assert (Hty : 0 <= ty) by (unfold ty; change 65535 with (Z.ones 16); rewrite Z.land_ones by lia; apply Z.mod_pos_bound; lia).
  rewrite Z.geb_leb. destruct (Z.leb_spec MSG_TYPE_LOG_ERROR ty); [| unfold MSG_TYPE_LOG_ERROR in *; lia]. cbn [andb].
  destruct (Z.ltb_spec ty MSG_TYPE_LOG_LEN) as [Hlt | Hge]; [| done]. destruct (level_of ty ltac:(lia)) as [level El].
  exists level. split; [done |]. cbn [c_assert]. rewrite bind_Ok.
  destruct (rotate_file t i cur Hc Hh Hf Hn Hr) as (n & base & cur' & E & Eb & Hrot). rewrite E, bind_Ok, El, bind_Ok.
  rewrite (logger_write_open _ _ _ _ _ _ Eb), bind_Ok.
  assert (Et : (if sz msg =? 0 then mret [] else d ← deref (data msg); acopy_out d 0 (sz msg)) = Ok (take (Z.to_nat (sz msg)) d)).
  { destruct (Z.eqb_spec (sz msg) 0) as [-> |]; [by rewrite take_0 |]. rewrite Hd. cbn [deref]. rewrite bind_Ok, acopy_out_Ok by lia. done. }
  rewrite Et, bind_Ok, (logger_write_open _ _ _ _ _ _ (lookup_insert_eq _ _ _)), bind_Ok, insert_insert_eq.
  rewrite (logger_write_open _ _ _ _ _ _ (lookup_insert_eq _ _ _)), insert_insert_eq. unfold entry. rewrite <- !app_assoc.
  destruct (lineNum i >? maxLineNum i); destruct Hrot as (-> & -> & ->); [by rewrite insert_insert_eq | done].
Qed.
End Logger.

Definition demo_logger : logger :=
  Logger (OpenFile (str "a.log")) (str "a.log") [] 1 10 3 {[str "a.log" := str "x"]} [].

Lemma logger_line_witness :
  _logger (fun _ _ => true) (fun _ => true) (Tm 124 0 31 23 59 1 5) (Message 7 0 1 0 2 (Some (str "hello"))) demo_logger =
    Ok (set_file demo_logger (OpenFile (str "a.log")) 4
      {[str "a.log" := str "x[2024-01-31 23:59:01:000005][7][WARN]he" ++ [10]]}) /\
  _logger (fun _ _ => true) (fun _ => true) (Tm 124 0 31 23 59 1 5) (Message 7 0 0x40010 0 2 (Some (str "hello"))) demo_logger =
    Fault AssertFailed.
Proof.
  pose proof (logger_line (fun _ _ => true) (fun _ => true) (Tm 124 0 31 23 59 1 5) (Message 7 0 1 0 2 (Some (str "hello")))
    demo_logger (str "x") (str "hello") ltac:(discriminate) eq_refl eq_refl ltac:(by vm_compute) (fun _ => conj eq_refl eq_refl)
    eq_refl ltac:(by vm_compute)) as (level & El & E).
  split.
  - etransitivity; [exact E |]. injection El as <-. by vm_compute.
  - exact (logger_line (fun _ _ => true) (fun _ => true) (Tm 124 0 31 23 59 1 5) (Message 7 0 0x40010 0 2 (Some (str "hello")))
      demo_logger (str "x") (str "hello") ltac:(discriminate) eq_refl eq_refl ltac:(by vm_compute) (fun _ => conj eq_refl eq_refl)
      eq_refl ltac:(by vm_compute)).
Defined.
