(* ===== verification/Proto.v ===== *)
(** * proto.c: cutting the byte stream into messages

    [headLoop] is the loop proto.c and protocol.c run on a connection's read buffer: a
    message is a 32-bit little-endian length and that many bytes.  [parse] is
    the specification, a function on byte lists; [headLoop_refines] relates
    the two, and the properties of the framing are proved on [parse]. *)
From S2P Require Import Prelude Define Buffer.

Definition kHeaderLen : Z := 4.
Definition kMinMessageLen : Z := 0.
Definition kMaxMessageLen : Z := 10 * 1024 * 1024.

(** ** The loop *)
Section headLoop.
  Context {E : Type}.
  Variable undef : Z.
  (** what one complete message makes the callback do: [body] is the fresh
      block of [len + 1] bytes *)
  Variable emit : list Z -> Z -> list E.

(** Result: the effects of the callbacks, whether the connection is to be
    closed for an illegal length, and the buffer. *)
Fixpoint headLoop (fuel : nat) (buf : buffer) : outcome (list E * bool * buffer) :=
  match fuel with
  | O => Fault OutOfFuel
  | S fuel =>
    if bufferReadableBytes buf >=? kMinMessageLen +u kHeaderLen then
      x ← bufferPeekInt32 buf;
      let len := u32 x in
      if (len >? kMaxMessageLen) || (len <? kMinMessageLen) then mret ([], true, buf)
      else if bufferReadableBytes buf >=? len +u kHeaderLen then
        bytes ← bufferPeek buf kHeaderLen len;
        body ← acopy_in (zmalloc undef (len +u 1)) 0 bytes;
        '(es, bad, b) ← headLoop fuel (bufferMoveReadIndex buf (len +u kHeaderLen));
        mret (emit body len ++ es, bad, b)
      else mret ([], false, buf)
    else mret ([], false, buf)
  end.

(** Every turn but the last consumes the header at least. *)
Definition headMessageLoop (buf : buffer) : outcome (list E * bool * buffer) :=
  headLoop (S (Z.to_nat (bufferReadableBytes buf))) buf.
End headLoop.

(** ** The specification *)

Definition frame_len (l : list Z) : Z := u32 (i32 (le_combine (take 4 l))).

(** Bodies, whether an illegal length was met, and the unconsumed bytes. *)
Fixpoint parse_fuel (fuel : nat) (l : list Z) : list (list Z) * bool * list Z :=
  match fuel with
  | O => ([], false, l)
  | S fuel =>
    if zlen l <? 4 then ([], false, l)
    else if frame_len l >? kMaxMessageLen then ([], true, l)
    else if zlen l <? 4 + frame_len l then ([], false, l)
    else
      let r := parse_fuel fuel (drop (Z.to_nat (4 + frame_len l)) l) in
      (take (Z.to_nat (frame_len l)) (drop 4 l) :: r.1.1, r.1.2, r.2)
  end.

Definition parse (l : list Z) : list (list Z) * bool * list Z := parse_fuel (S (length l)) l.

Definition encode (body : list Z) : list Z := le_split 4 (zlen body) ++ body.

(** ** The specification's own theory *)

Lemma frame_len_range l : 0 <= frame_len l < 4294967296.
Proof. apply u32_range. Qed.

Lemma parse_fuel_irrel n m l :
  (length l < n)%nat -> (length l < m)%nat -> parse_fuel n l = parse_fuel m l.
Proof.
  revert m l. induction n as [| n IH]; intros [| m] l Hn Hm; try lia. simpl.
  destruct (Z.ltb_spec (zlen l) 4) as [| H4]; [done |].
  destruct (frame_len l >? kMaxMessageLen); [done |].
  destruct (Z.ltb_spec (zlen l) (4 + frame_len l)) as [| Hl]; [done |].
  pose proof (frame_len_range l). unfold zlen in *.
  assert (L : (length (drop (Z.to_nat (4 + frame_len l)) l) < length l)%nat)
    by (rewrite length_drop; lia).
  by rewrite (IH m) by lia.
Qed.

(** One step of [parse], whatever the fuel. *)
Lemma parse_unfold l :
  parse l =
    if zlen l <? 4 then ([], false, l)
    else if frame_len l >? kMaxMessageLen then ([], true, l)
    else if zlen l <? 4 + frame_len l then ([], false, l)
    else
      let r := parse (drop (Z.to_nat (4 + frame_len l)) l) in
      (take (Z.to_nat (frame_len l)) (drop 4 l) :: r.1.1, r.1.2, r.2).
Proof.
  unfold parse at 1. simpl.
  destruct (Z.ltb_spec (zlen l) 4) as [| H4]; [done |].
  destruct (frame_len l >? kMaxMessageLen); [done |].
  destruct (Z.ltb_spec (zlen l) (4 + frame_len l)) as [| Hl]; [done |].
  pose proof (frame_len_range l). unfold zlen in *. unfold parse.
  by rewrite (parse_fuel_irrel (length l) (S (length (drop (Z.to_nat (4 + frame_len l)) l))))
    by (rewrite length_drop; lia).
Qed.

Lemma frame_len_app l1 l2 : 4 <= zlen l1 -> frame_len (l1 ++ l2) = frame_len l1.
Proof. intros H. unfold frame_len, zlen in *. by rewrite take_app_le by lia. Qed.

Lemma frame_len_encode body l :
  zlen body <= kMaxMessageLen -> frame_len (encode body ++ l) = zlen body.
Proof.
  intros H. pose proof (zlen_nonneg body). unfold kMaxMessageLen in H. unfold frame_len, encode.
  rewrite <- app_assoc, take_app_length', le_combine_split by (rewrite ?le_split_length; simpl; lia).
  rewrite i32_small, u32_small; lia.
Qed.

Lemma parse_encode body l :
  zlen body <= kMaxMessageLen ->
  parse (encode body ++ l) = (body :: (parse l).1.1, (parse l).1.2, (parse l).2).
Proof.
  intros H. pose proof (zlen_nonneg body). pose proof (zlen_nonneg l).
  rewrite parse_unfold, frame_len_encode by done.
  assert (L4 : length (le_split 4 (zlen body)) = 4%nat) by apply le_split_length.
  assert (Ln : zlen (encode body ++ l) = 4 + zlen body + zlen l).
  { unfold encode. rewrite !zlen_app. unfold zlen at 1. rewrite L4. lia. }
  rewrite Ln, Z.gtb_ltb.
  destruct (Z.ltb_spec (4 + zlen body + zlen l) 4); [lia |].
  destruct (Z.ltb_spec kMaxMessageLen (zlen body)); [lia |].
  destruct (Z.ltb_spec (4 + zlen body + zlen l) (4 + zlen body)); [lia |].
  cbv zeta. unfold encode. rewrite <- app_assoc.
  rewrite (drop_app_length' _ _ 4) by done.
  assert (Eb : Z.to_nat (zlen body) = length body) by (unfold zlen; lia).
  rewrite Eb, take_app_length.
  replace (Z.to_nat (4 + zlen body)) with (length (le_split 4 (zlen body) ++ body))
    by (rewrite length_app, L4; lia).
  by rewrite app_assoc, drop_app_length.
Qed.

Lemma parse_app l1 l2 ms r1 :
  parse l1 = (ms, false, r1) ->
  parse (l1 ++ l2) = (ms ++ (parse (r1 ++ l2)).1.1, (parse (r1 ++ l2)).1.2, (parse (r1 ++ l2)).2).
Proof.
  remember (length l1) as n eqn:En. revert l1 ms En.
  induction n as [n IH] using (well_founded_induction lt_wf). intros l1 ms En.
  rewrite (parse_unfold l1). destruct (Z.ltb_spec (zlen l1) 4) as [| H4].
  { intros [= <- <-]. simpl. by destruct (parse (l1 ++ l2)) as [[??] ?]. }
  destruct (frame_len l1 >? kMaxMessageLen) eqn:Eg; [done |].
  destruct (Z.ltb_spec (zlen l1) (4 + frame_len l1)) as [| Hl].
  { intros [= <- <-]. simpl. by destruct (parse (l1 ++ l2)) as [[??] ?]. }
  pose proof (frame_len_range l1). set (n1 := Z.to_nat (4 + frame_len l1)) in *.
  destruct (parse (drop n1 l1)) as [[ms1 bad1] rest1] eqn:E1. cbn [fst snd].
  intros [= <- -> ->]. unfold zlen in *.
  assert (L1 : (length (drop n1 l1) < n)%nat) by (rewrite length_drop; lia).
  specialize (IH _ L1 _ _ eq_refl E1).
  rewrite (parse_unfold (l1 ++ l2)), frame_len_app by done. rewrite Eg.
  destruct (Z.ltb_spec (zlen (l1 ++ l2)) 4); [rewrite zlen_app in *; unfold zlen in *; lia |].
  destruct (Z.ltb_spec (zlen (l1 ++ l2)) (4 + frame_len l1));
    [rewrite zlen_app in *; unfold zlen in *; lia |].
  cbv zeta. rewrite !drop_app_le, take_app_le by (rewrite ?length_drop; lia).
  fold n1. rewrite IH. done.
Qed.

(** More bytes do not make an illegal length legal. *)
Lemma parse_bad_app l1 l2 : (parse l1).1.2 = true -> (parse (l1 ++ l2)).1.2 = true.
Proof.
  remember (length l1) as n eqn:En. revert l1 En.
  induction n as [n IH] using (well_founded_induction lt_wf). intros l1 En.
  rewrite (parse_unfold l1). destruct (Z.ltb_spec (zlen l1) 4) as [| H4]; [done |].
  rewrite (parse_unfold (l1 ++ l2)), frame_len_app by done.
  destruct (Z.ltb_spec (zlen (l1 ++ l2)) 4); [rewrite zlen_app in *; pose proof (zlen_nonneg l2); lia |].
  destruct (frame_len l1 >? kMaxMessageLen); [done |].
  destruct (Z.ltb_spec (zlen l1) (4 + frame_len l1)) as [| Hl]; [done |].
  destruct (Z.ltb_spec (zlen (l1 ++ l2)) (4 + frame_len l1));
    [rewrite zlen_app in *; pose proof (zlen_nonneg l2); lia |].
  pose proof (frame_len_range l1). cbv zeta. cbn [fst snd]. unfold zlen in *.
  rewrite drop_app_le by lia. apply (IH (length (drop (Z.to_nat (4 + frame_len l1)) l1))); [| done].
  rewrite length_drop. lia.
Qed.

(** What [parse] leaves is an incomplete frame. *)
Lemma parse_rest l ms rest :
  parse l = (ms, false, rest) -> parse rest = ([], false, rest) /\ zlen rest < 4 + kMaxMessageLen.
Proof.
  remember (length l) as n eqn:En. revert l ms En.
  induction n as [n IH] using (well_founded_induction lt_wf). intros l ms En Hp.
  pose proof Hp as Hp'. rewrite parse_unfold in Hp.
  destruct (Z.ltb_spec (zlen l) 4) as [| H4].
  { injection Hp as <- <-. split; [done |]. unfold kMaxMessageLen. lia. }
  destruct (frame_len l >? kMaxMessageLen) eqn:Eg; [done |].
  rewrite Z.gtb_ltb in Eg. apply Z.ltb_ge in Eg.
  destruct (Z.ltb_spec (zlen l) (4 + frame_len l)) as [| Hl].
  { injection Hp as <- <-. split; [done | lia]. }
  pose proof (frame_len_range l). destruct (parse (drop _ l)) as [[ms1 bad1] rest1] eqn:E1.
  injection Hp as _ -> ->. unfold zlen in Hl.
  eapply (IH (length (drop (Z.to_nat (4 + frame_len l)) l))); [| done | done].
  rewrite length_drop. lia.
Qed.

(** ** The loop refines the specification *)

(** What delivering these bodies makes the callbacks do. *)
Definition deliver {E} (undef : Z) (emit : list Z -> Z -> list E) (ms : list (list Z)) : list E :=
  concat ((fun m => emit (m ++ [undef]) (zlen m)) <$> ms).

Lemma fresh_body undef n bytes :
  zlen bytes = n -> 0 <= n < 4294967295 ->
  acopy_in (zmalloc undef (n +u 1)) 0 bytes = Ok (bytes ++ [undef]).
Proof.
  intros E H. rewrite u32_small by lia. unfold zmalloc. rewrite Z2Nat.inj_add, replicate_add by lia.
  rewrite <- (app_nil_l (_ ++ _)). change 0 with (zlen (@nil Z)).
  rewrite acopy_in_app; [done |]. rewrite zlen_replicate; lia.
Qed.

Lemma peek_frame_len buf :
  bwf buf -> 4 <= zlen (readable buf) ->
  exists x, bufferPeekInt32 buf = Ok x /\ u32 x = frame_len (readable buf).
Proof.
  intros W H. unfold bufferPeekInt32. rewrite (bufferPeek_spec _ 0 4 W) by lia.
  eexists. split; [reflexivity | done].
Qed.

Lemma headLoop_refines {E} undef (emit : list Z -> Z -> list E) fuel buf :
  bwf buf -> (length (readable buf) < fuel)%nat ->
  exists b', headLoop undef emit fuel buf =
      Ok (deliver undef emit (parse (readable buf)).1.1, (parse (readable buf)).1.2, b') /\
    bwf b' /\ readable b' = (parse (readable buf)).2.
Proof.
  revert buf. induction fuel as [| fuel IH]; intros buf W Hf; [lia |].
  rewrite parse_unfold. cbn [headLoop]. change (kMinMessageLen +u kHeaderLen) with 4.
  rewrite (readable_bytes _ W). set (l := readable buf) in *. rewrite Z.geb_leb.
  destruct (Z.leb_spec 4 (zlen l)) as [H4 | H4], (Z.ltb_spec (zlen l) 4); try lia;
    [| by exists buf].
  destruct (peek_frame_len buf W ltac:(done)) as (x & Ex & Ux). fold l in Ux.
  rewrite Ex, bind_Ok, Ux. pose proof (frame_len_range l) as Hr.
  replace (frame_len l <? kMinMessageLen) with false
    by (symmetry; apply Z.ltb_ge; unfold kMinMessageLen; lia).
  rewrite orb_false_r. destruct (frame_len l >? kMaxMessageLen) eqn:Eg; [by exists buf |].
  rewrite Z.gtb_ltb in Eg. apply Z.ltb_ge in Eg. unfold kMaxMessageLen in Eg.
  unfold kHeaderLen. rewrite (u32_small (frame_len l + 4)), Z.geb_leb by lia.
  destruct (Z.leb_spec (frame_len l + 4) (zlen l)), (Z.ltb_spec (zlen l) (4 + frame_len l));
    try lia; [| by exists buf].
  rewrite (bufferPeek_spec _ 4 _ W) by (fold l; lia). fold l. c_simpl.
  rewrite fresh_body by (rewrite ?zlen_take; rewrite ?(zlen_drop _ 4); lia). c_simpl.
  destruct (bufferMoveReadIndex_spec buf (frame_len l + 4) W ltac:(lia)) as [W' E'].
  fold l in E'. rewrite Z.add_comm in E'.
  destruct (IH _ W') as (b' & EL & Wb & Rb).
  { rewrite Z.add_comm, E', length_drop. unfold zlen in *. lia. }
  rewrite Z.add_comm in EL, Rb. rewrite (Z.add_comm (frame_len l) 4).
  rewrite EL, E'. cbv zeta. c_simpl. exists b'. rewrite Rb, E'.
  split; [| done]. unfold deliver. cbn [fmap list_fmap concat].
  rewrite zlen_take; [done |]. rewrite (zlen_drop _ 4); lia.
Qed.

(** ** proto.c *)

Section proto.
  Variable undef : Z.

(** [from] and [id] are the socket's. *)
Definition protoMessageCallback (from id : Z) (data : option (list Z)) (sz : Z) : zsend :=
  ZSend 0 from 0 (sock_type MSG_TYPE_SOCK_DATA) data sz id.

(** The flag tells the caller to run [socketForceClose]. *)
Definition headMessageCallback (from id : Z) (buf : buffer)
    : outcome (list zsend * bool * buffer) :=
  headMessageLoop undef (fun body len => [protoMessageCallback from id (Some body) len]) buf.

(** The message takes the block over; the buffer gets a new one. *)
Definition httpMessageCallback (from id : Z) (buf : buffer) : list zsend * bool * buffer :=
  ([protoMessageCallback from id (drop (Z.to_nat (readIndex buf)) <$> data buf)
      (bufferReadableBytes buf)], false, bufferReset undef buf).

Definition onMessageCallback (protoType from id : Z) (buf : buffer)
    : outcome (list zsend * bool * buffer) :=
  c_assert ((protoType >? 0) && (protoType <? 3)) ≫= fun _ =>
  if protoType =? HEAD_PROTO_TYPE then headMessageCallback from id buf
  else Ok (httpMessageCallback from id buf).
End proto.

(** ** Properties *)

Lemma headMessageLoop_refines {E} undef (emit : list Z -> Z -> list E) buf :
  bwf buf ->
  exists b', headMessageLoop undef emit buf =
      Ok (deliver undef emit (parse (readable buf)).1.1, (parse (readable buf)).1.2, b') /\
    bwf b' /\ readable b' = (parse (readable buf)).2.
Proof.
  intros W. apply headLoop_refines; [done |]. rewrite (readable_bytes _ W). unfold zlen. lia.
Qed.

Lemma headMessageLoop_size {E} undef (emit : list Z -> Z -> list E) b es bad b' :
  headMessageLoop undef emit b = Ok (es, bad, b') -> size b' = size b.
Proof.
  unfold headMessageLoop. generalize (S (Z.to_nat (bufferReadableBytes b))) as fuel. intros fuel.
  revert b es bad b'. induction fuel as [| fuel IH]; intros b es bad b'; [done |]. cbn [headLoop].
  destruct (_ >=? _); [| by intros [= <- <- <-]].
  destruct (bufferPeekInt32 b) as [x | f]; [| done]. rewrite bind_Ok.
  destruct (_ || _); [by intros [= <- <- <-] |].
  destruct (_ >=? _); [| by intros [= <- <- <-]].
  destruct (bufferPeek b _ _) as [bs | f]; [| done]. rewrite bind_Ok.
  destruct (acopy_in _ _ _) as [body | f]; [| done]. rewrite bind_Ok.
  destruct (headLoop _ _ _ _) as [[[es' bad'] b1] | f] eqn:El; [| done].
  intros [= <- <- <-]. rewrite (IH _ _ _ _ El). unfold bufferMoveReadIndex. by destruct (_ <? _).
Qed.

Lemma deliver_singleton {E} undef (f : list Z -> Z -> E) ms :
  deliver undef (fun b n => [f b n]) ms = (fun m => f (m ++ [undef]) (zlen m)) <$> ms.
Proof. unfold deliver. induction ms as [| m ms IH]; [done |]. simpl. by f_equal. Qed.

Lemma parse_frames bodies tail :
  Forall (fun b => zlen b <= kMaxMessageLen) bodies -> parse tail = ([], false, tail) ->
  parse (concat (encode <$> bodies) ++ tail) = (bodies, false, tail).
Proof.
  intros Hb Ht. induction Hb as [| b bs Hb _ IH]; [done |].
  cbn [fmap list_fmap concat]. rewrite <- app_assoc, parse_encode by done.
  change (list_fmap _ _ encode bs) with (encode <$> bs). by rewrite IH.
Qed.

(** What has arrived of a stream of frames is the first frames and an incomplete
    one: nothing of what arrives later can change them. *)
Lemma parse_prefix bodies arrived :
  Forall (fun b => zlen b <= kMaxMessageLen) bodies -> arrived `prefix_of` concat (encode <$> bodies) ->
  exists k tail, (k <= length bodies)%nat /\ arrived = concat (encode <$> take k bodies) ++ tail /\
    parse tail = ([], false, tail) /\ (arrived = concat (encode <$> bodies) -> k = length bodies /\ tail = []).
Proof.
  intros Hb. revert arrived. induction Hb as [| b bs Hl _ IH]; intros arrived [rest E].
  { exists 0%nat, []. destruct arrived; [| done]. by repeat split. }
  cbn [fmap list_fmap concat] in E. change (list_fmap _ _ encode bs) with (encode <$> bs) in E.
  assert (L4 : length (le_split 4 (zlen b)) = 4%nat) by apply le_split_length.
  destruct (decide (length (encode b) <= length arrived)%nat) as [Hge | Hlt].
  - assert (Ea : arrived = encode b ++ drop (length (encode b)) arrived).
    { rewrite <- (take_drop (length (encode b)) arrived) at 1. f_equal.
      apply (f_equal (take (length (encode b)))) in E. rewrite take_app_length, take_app_le in E by done. done. }
    set (more := drop _ arrived) in Ea. rewrite Ea, <- app_assoc in E. apply app_inv_head in E.
    destruct (IH more ltac:(by exists rest)) as (k & tail & Hk & Em & Ht & Hfull).
    exists (S k), tail. split; [cbn; lia |]. split; [by rewrite Ea, Em, app_assoc |]. split; [done |].
    rewrite Ea. cbn [fmap list_fmap concat]. change (list_fmap _ _ encode bs) with (encode <$> bs).
    intros Ef%app_inv_head. destruct (Hfull Ef) as [-> ->]. by split.
  - exists 0%nat, arrived. split; [lia |]. split; [done |].
    assert (Hs : length (encode b) = (4 + length b)%nat) by (unfold encode; by rewrite length_app, L4).
    split.
    + rewrite parse_unfold. destruct (Z.ltb_spec (zlen arrived) 4) as [| H4]; [done |].
      assert (Ef : frame_len arrived = zlen b).
      { rewrite <- (frame_len_app arrived rest) by done. rewrite <- E. by apply frame_len_encode. }
      rewrite Ef, Z.gtb_ltb. unfold zlen in *.
      destruct (Z.ltb_spec kMaxMessageLen (Z.of_nat (length b))); [lia |].
      by destruct (Z.ltb_spec (Z.of_nat (length arrived)) (4 + Z.of_nat (length b))); [| lia].
    + intros ->. exfalso. apply Hlt. cbn [fmap list_fmap concat]. rewrite length_app. lia.
Qed.

(** Framing round trip.  When the read buffer holds the encodings of any
    bodies of at most 10 MiB followed by an incomplete frame, the loop of
    proto.c terminates without a fault, sends the service one data message per
    body, in order and byte for byte, does not close the connection, and
    leaves exactly the incomplete frame in the buffer. *)
Theorem headMessageCallback_delivers undef from id buf bodies tail :
  bwf buf -> readable buf = concat (encode <$> bodies) ++ tail ->
  Forall (fun b => zlen b <= kMaxMessageLen) bodies -> parse tail = ([], false, tail) ->
  exists b', headMessageCallback undef from id buf =
      Ok ((fun m => protoMessageCallback from id (Some (m ++ [undef])) (zlen m)) <$> bodies,
          false, b') /\
    bwf b' /\ readable b' = tail.
Proof.
  intros W R Hb Ht. destruct (headMessageLoop_refines undef
    (fun body len => [protoMessageCallback from id (Some body) len]) buf W) as (b' & E & W' & R').
  rewrite R, (parse_frames _ _ Hb Ht) in E, R'. exists b'. split; [| done].
  unfold headMessageCallback. by rewrite E, deliver_singleton.
Qed.

Definition two_frames : buffer :=
  Buffer 12 0 16 16 (Some [1; 0; 0; 0; 65; 2; 0; 0; 0; 66; 67; 9; 0; 0; 0; 0]).

Lemma two_frames_wf : bwf two_frames.
Proof. split; [by eexists | cbn; lia | cbn; lia]. Qed.

Lemma headMessageCallback_delivers_witness :
  exists b', headMessageCallback 0 7 3 two_frames =
      Ok ([protoMessageCallback 7 3 (Some [65; 0]) 1; protoMessageCallback 7 3 (Some [66; 67; 0]) 2],
          false, b') /\
    bwf b' /\ readable b' = [9].
Proof.
  apply (headMessageCallback_delivers 0 7 3 two_frames [[65]; [66; 67]] [9] two_frames_wf eq_refl).
  - repeat constructor; vm_compute; discriminate.
  - reflexivity.
Defined.

(** An illegal length (above 10 MiB as an unsigned number, so also every
    negative one) after complete frames: the frames are delivered, the
    connection is flagged for closing, and nothing behind is consumed. *)
Theorem headMessageCallback_illegal undef from id buf bodies tail :
  bwf buf -> readable buf = concat (encode <$> bodies) ++ tail ->
  Forall (fun b => zlen b <= kMaxMessageLen) bodies ->
  4 <= zlen tail -> kMaxMessageLen < frame_len tail ->
  exists b', headMessageCallback undef from id buf =
      Ok ((fun m => protoMessageCallback from id (Some (m ++ [undef])) (zlen m)) <$> bodies,
          true, b') /\ readable b' = tail.
Proof.
  intros W R Hb H4 Hl.
  assert (P : parse (concat (encode <$> bodies) ++ tail) = (bodies, true, tail)).
  { clear R. induction Hb as [| b bs Hb _ IH].
    - simpl. rewrite parse_unfold, Z.gtb_ltb.
      destruct (Z.ltb_spec (zlen tail) 4); [lia |].
      by destruct (Z.ltb_spec kMaxMessageLen (frame_len tail)); [| lia].
    - cbn [fmap list_fmap concat]. rewrite <- app_assoc, parse_encode by done.
      change (list_fmap _ _ encode bs) with (encode <$> bs). by rewrite IH. }
  destruct (headMessageLoop_refines undef
    (fun body len => [protoMessageCallback from id (Some body) len]) buf W) as (b' & E & W' & R').
  rewrite R, P in E, R'. exists b'. split; [| done].
  unfold headMessageCallback. by rewrite E, deliver_singleton.
Qed.

Definition negative_frame : buffer :=
  Buffer 9 0 16 16 (Some [1; 0; 0; 0; 65; 255; 255; 255; 255; 0; 0; 0; 0; 0; 0; 0]).

Lemma negative_frame_wf : bwf negative_frame.
Proof. split; [by eexists | cbn; lia | cbn; lia]. Qed.

Lemma headMessageCallback_illegal_witness :
  exists b', headMessageCallback 0 7 3 negative_frame =
      Ok ([protoMessageCallback 7 3 (Some [65; 0]) 1], true, b') /\
    readable b' = [255; 255; 255; 255].
Proof.
  apply (headMessageCallback_illegal 0 7 3 negative_frame [[65]] _ negative_frame_wf eq_refl).
  - repeat constructor; vm_compute; discriminate.
  - vm_compute; discriminate.
  - vm_compute; reflexivity.
Defined.
