(* ===== verification/Protocol.v ===== *)
(** * protocol.c: the framing loop on a session, with the session's callbacks *)
From S2P Require Import Prelude Define Buffer Proto.


(** Which members of [session->cb] are not [NULL]. *)
Record netCallback := NetCallback {
  onProtoMessage : bool;
  onConnection : bool;
  onClose : bool;
}.

Inductive sevent :=
  | EvProtoMessage (body : option (list Z)) (len : Z)
  | EvConnection
  | EvClose
  | EvRemoveSession (id : Z).

Section Protocol.
  Variable undef : Z.

Definition ON_PROTO_MESSAGE (cb : option netCallback) (body : option (list Z)) (len : Z)
    : outcome (list sevent) :=
  match cb with
  | None => Fault AssertFailed
  | Some cb => Ok (if onProtoMessage cb then [EvProtoMessage body len] else [])
  end.

(** The loop is the same as [proto.c]'s; the copy that is made here only for a
    callback that is set has no effect otherwise. *)
Definition headMessageCallback (cb : option netCallback) (buf : buffer)
    : outcome (list sevent * bool * buffer) :=
  match cb with
  | None => Fault AssertFailed
  | Some cb =>
    headMessageLoop undef
      (fun body len => if onProtoMessage cb then [EvProtoMessage (Some body) len] else []) buf
  end.

Definition httpMessageCallback (cb : option netCallback) (buf : buffer)
    : outcome (list sevent * bool * buffer) :=
  es ← ON_PROTO_MESSAGE cb (drop (Z.to_nat (readIndex buf)) <$> data buf)
         (bufferReadableBytes buf);
  mret (es, false, bufferReset undef buf).

Definition defaultMessageCallback (protoType : Z) (cb : option netCallback) (buf : buffer)
    : outcome (list sevent * bool * buffer) :=
  c_assert ((protoType >? 0) && (protoType <? 3)) ≫= fun _ =>
  if protoType =? HEAD_PROTO_TYPE then headMessageCallback cb buf
  else httpMessageCallback cb buf.

Definition defaultConnectionCallback (cb : option netCallback) : outcome (list sevent) :=
  match cb with
  | None => Fault AssertFailed
  | Some cb => Ok (if onConnection cb then [EvConnection] else [])
  end.

Definition defaultCloseCallback (id : Z) (cb : option netCallback) : outcome (list sevent) :=
  match cb with
  | None => Fault AssertFailed
  | Some cb => Ok ((if onClose cb then [EvClose] else []) ++ [EvRemoveSession id])
  end.

Definition defaultWriteCompleteCallback (cb : option netCallback) : outcome unit :=
  match cb with None => Fault AssertFailed | Some _ => Ok tt end.
End Protocol.
