(* ===== verification/LuaNet.v ===== *)
(** * lua-z.c: remote calls over a connection

    [z.net_pack] makes one frame of the stream of a sequence number, a name and
    a body; [z.net_unpack] takes a delivered message apart.  What travels between
    them is cut out of the stream by [Proto]. *)
From S2P Require Import Prelude Buffer Define Proto.

Section LuaNet.
  Variable undef : Z.

(** [len] is an [int32_t]; a negative size is one that cannot be allocated. *)
Definition _netpack (seq : Z) (name buffer : list Z) : outcome (list Z * Z) :=
  let len := i32 (zlen name + 2 * 4 + zlen buffer) in
  if len + 4 <? 0 then Fault OutOfMemory
  else
    let body := zmalloc undef (len + 4) in
    body ← acopy_in body 0 (le_split 4 (u32 len));
    body ← acopy_in body 4 (le_split 4 (u32 seq));
    body ← acopy_in body (2 * 4) (le_split 4 (u32 (zlen name)));
    body ← acopy_in body (3 * 4) name;
    body ← acopy_in body (3 * 4 + zlen name) buffer;
    mret (body, len + 4).

(** Sequence number, name, and where the body starts with its length; [None] is
    the error "body len error".  The name is copied to an array on the stack of
    [nameLen + 1] bytes. *)
Definition _netunpack (buffer : list Z) (len : Z) : outcome (option (Z * list Z * (Z * Z))) :=
  seq ← acopy_out buffer 0 4;
  nameLen ← acopy_out buffer 4 4;
  let nameLen := i32 (le_combine nameLen) in
  if i32 (nameLen + 1) <=? 0 then Fault OutOfBounds
  else
    name ← acopy_out buffer (2 * 4) nameLen;
    let headLen := i32 (2 * 4 + nameLen) in
    let bodyLen := i32 (len - headLen) in
    if bodyLen <? 0 then mret None
    else mret (Some (i32 (le_combine seq), name, (headLen, bodyLen))).

(** The message inside the frame. *)
Definition net_message (seq : Z) (name body : list Z) : list Z :=
  le_split 4 (u32 seq) ++ le_split 4 (zlen name) ++ name ++ body.

Lemma net_message_len seq name body : zlen (net_message seq name body) = zlen name + 8 + zlen body.
Proof. unfold net_message. rewrite !zlen_app. unfold zlen. rewrite !le_split_length. lia. Qed.

Lemma i32_u32 x : -2147483648 <= x < 2147483648 -> i32 (u32 x) = x.
Proof. intros Hx. unfold i32, u32. rewrite Z.add_mod_idemp_l by lia. fold (i32 x). by apply i32_small. Qed.

Lemma le_split4_len x : zlen (le_split 4 x) = 4.
Proof. unfold zlen. by rewrite le_split_length. Qed.

(** Writing a fresh block from left to right. *)
Lemma fill_next (done_ src : list Z) n :
  zlen src <= n ->
  acopy_in (done_ ++ zmalloc undef n) (zlen done_) src = Ok ((done_ ++ src) ++ zmalloc undef (n - zlen src)).
Proof.
  intros Hn. pose proof (zlen_nonneg src).
  assert (E : zmalloc undef n = zmalloc undef (zlen src) ++ zmalloc undef (n - zlen src)).
  { unfold zmalloc. rewrite <- replicate_add. f_equal. lia. }
  rewrite E, acopy_in_app, <- app_assoc; [done |]. unfold zmalloc. by rewrite zlen_replicate.
Qed.

Lemma netpack_block seq name body :
  zlen name + 8 + zlen body + 4 < 2147483648 ->
  _netpack seq name body = Ok (encode (net_message seq name body), zlen (encode (net_message seq name body))).
Proof.
  intros Hm. unfold encode. rewrite zlen_app, le_split4_len, net_message_len in *.
  pose proof (zlen_nonneg name). pose proof (zlen_nonneg body).
  unfold _netpack. rewrite i32_small by lia. replace (zlen name + 2 * 4 + zlen body) with (zlen name + 8 + zlen body) by lia.
  destruct (Z.ltb_spec (zlen name + 8 + zlen body + 4) 0); [lia |].
  rewrite (u32_small (zlen name + 8 + zlen body)), (u32_small (zlen name)) by lia.
  set (n := zlen name + 8 + zlen body).
  assert (E1 : acopy_in (zmalloc undef (n + 4)) 0 (le_split 4 n) = Ok (le_split 4 n ++ zmalloc undef n)).
  { pose proof (fill_next [] (le_split 4 n) (n + 4)) as E. rewrite le_split4_len in E. cbn [app] in E.
    change (zlen []) with 0 in E. rewrite E by lia. by replace (n + 4 - 4) with n by lia. }
  rewrite E1, bind_Ok. set (l1 := le_split 4 n). assert (L1 : zlen l1 = 4) by apply le_split4_len.
  pose proof (fill_next l1 (le_split 4 (u32 seq)) n) as E2. rewrite L1, le_split4_len in E2. rewrite E2, bind_Ok by lia.
  set (l2 := l1 ++ _). assert (L2 : zlen l2 = 2 * 4) by (unfold l2; rewrite zlen_app, L1, le_split4_len; lia).
  pose proof (fill_next l2 (le_split 4 (zlen name)) (n - 4)) as E3. rewrite L2, le_split4_len in E3.
  rewrite E3, bind_Ok by lia.
  set (l3 := l2 ++ _). assert (L3 : zlen l3 = 3 * 4) by (unfold l3; rewrite zlen_app, L2, le_split4_len; lia).
  pose proof (fill_next l3 name (n - 4 - 4)) as E4. rewrite L3 in E4. rewrite E4, bind_Ok by lia.
  pose proof (fill_next (l3 ++ name) body (n - 4 - 4 - zlen name)) as E5. rewrite zlen_app, L3 in E5.
  rewrite E5, bind_Ok by lia. replace (n - 4 - 4 - zlen name - zlen body) with 0 by lia.
  unfold zmalloc, l3, l2, l1, net_message. cbn [Z.to_nat replicate]. rewrite app_nil_r, <- !app_assoc.
  unfold mret, outcome_ret. do 2 f_equal. lia.
Qed.

Lemma netpack_frame seq name body :
  zlen (net_message seq name body) <= kMaxMessageLen ->
  _netpack seq name body = Ok (encode (net_message seq name body), zlen (encode (net_message seq name body))).
Proof.
  intros Hm. apply netpack_block. rewrite net_message_len in Hm. unfold kMaxMessageLen in Hm. lia.
Qed.
End LuaNet.

(** A block that is long enough for the name it announces is taken apart. *)
Lemma netunpack_Ok buffer len : 8 <= zlen buffer ->
  let nameLen := i32 (le_combine (take 4 (drop 4 buffer))) in
  0 <= nameLen < 2147483647 -> 8 + nameLen <= zlen buffer -> exists r, _netunpack buffer len = Ok r.
Proof.
  intros Hl nameLen Hn Hb. unfold _netunpack. rewrite (acopy_out_Ok buffer 0 4), bind_Ok by lia.
  rewrite (acopy_out_Ok buffer 4 4), bind_Ok by lia. change (Z.to_nat 4) with 4%nat. fold nameLen.
  rewrite (i32_small (nameLen + 1)) by lia. destruct (Z.leb_spec (nameLen + 1) 0); [lia |].
  rewrite (acopy_out_Ok buffer (2 * 4)), bind_Ok by lia. by destruct (_ <? 0); eexists.
Qed.

Lemma netunpack_message seq name body x :
  -2147483648 <= seq < 2147483648 -> zlen (net_message seq name body) <= kMaxMessageLen ->
  _netunpack (net_message seq name body ++ [x]) (zlen (net_message seq name body)) =
    Ok (Some (seq, name, (8 + zlen name, zlen body))).
Proof.
  intros Hs Hm. rewrite net_message_len in *. unfold kMaxMessageLen in Hm.
  pose proof (zlen_nonneg name). pose proof (zlen_nonneg body). pose proof (u32_range seq).
  set (l1 := le_split 4 (u32 seq)). set (l2 := le_split 4 (zlen name)).
  assert (L1 : zlen l1 = 4) by apply le_split4_len. assert (L2 : zlen l2 = 4) by apply le_split4_len.
  assert (C1 : le_combine l1 = u32 seq) by (apply le_combine_split; change (256 ^ Z.of_nat 4) with 4294967296; lia).
  assert (C2 : le_combine l2 = zlen name) by (apply le_combine_split; change (256 ^ Z.of_nat 4) with 4294967296; lia).
  assert (E : net_message seq name body ++ [x] = l1 ++ l2 ++ name ++ body ++ [x]) by (unfold net_message; by rewrite <- !app_assoc).
  rewrite E. unfold _netunpack.
  pose proof (acopy_out_app [] l1 (l2 ++ name ++ body ++ [x])) as A1. cbn [app] in A1. change (zlen []) with 0 in A1.
  rewrite L1 in A1. rewrite A1, bind_Ok.
  pose proof (acopy_out_app l1 l2 (name ++ body ++ [x])) as A2. rewrite L1, L2 in A2. rewrite A2, bind_Ok, C1, C2.
  rewrite (i32_small (zlen name)), (i32_small (zlen name + 1)), (i32_small (2 * 4 + zlen name)) by lia.
  destruct (Z.leb_spec (zlen name + 1) 0); [lia |].
  pose proof (acopy_out_app (l1 ++ l2) name (body ++ [x])) as A3. rewrite zlen_app, L1, L2, <- app_assoc in A3.
  change (2 * 4) with (4 + 4). rewrite A3, bind_Ok.
  replace (i32 (zlen name + 8 + zlen body - (4 + 4 + zlen name))) with (zlen body) by (rewrite i32_small; lia).
  destruct (Z.ltb_spec (zlen body) 0); [lia |]. by rewrite i32_u32.
Qed.

(** ** Properties *)

(** A call: sequence number, name, body. *)
Definition call_ok (c : Z * list Z * list Z) : Prop :=
  -2147483648 <= c.1.1 < 2147483648 /\ zlen c.1.2 + 8 + zlen c.2 <= kMaxMessageLen.

(** [m] is delivered for [c]: taken apart, it is the call. *)
Definition carries (undef : Z) (c : Z * list Z * list Z) (m : list Z) : Prop :=
  exists off, _netunpack (m ++ [undef]) (zlen m) = Ok (Some (c.1, (off, zlen c.2))) /\
    take (Z.to_nat (zlen c.2)) (drop (Z.to_nat off) m) = c.2.

(** The bytes a call puts on the connection. *)
Definition pack_call (undef : Z) (c : Z * list Z * list Z) : list Z :=
  match _netpack undef c.1.1 c.1.2 c.2 with Ok (f, _) => f | Fault _ => [] end.

Definition call_message (c : Z * list Z * list Z) : list Z := net_message c.1.1 c.1.2 c.2.

Lemma call_message_len c : call_ok c -> zlen (call_message c) <= kMaxMessageLen.
Proof. intros [_ H]. unfold call_message. rewrite net_message_len. exact H. Qed.

Lemma pack_call_frame undef c : call_ok c -> pack_call undef c = encode (call_message c).
Proof. intros H. unfold pack_call. by rewrite (netpack_frame undef _ _ _ (call_message_len c H)). Qed.

Lemma call_message_carries undef c : call_ok c -> carries undef c (call_message c).
Proof.
  intros H. destruct c as [[seq name] body]. exists (8 + zlen name). split.
  - apply netunpack_message; [apply H | by apply (call_message_len (seq, name, body))].
  - unfold call_message, net_message. cbn [fst snd]. rewrite !app_assoc, drop_app_length'; [apply take_ge; unfold zlen; lia |].
    rewrite !length_app, !le_split_length. unfold zlen. lia.
Qed.

(** C14: remote calls go through.  Calls of up to 10 MiB are packed, each into
    one block that is sent whole; when the packed blocks arrive in the read
    buffer one after the other, in any number, the loop of proto.c delivers one
    message per call, in order, and unpacking them gives back the sequence
    numbers, names and bodies. *)
Theorem net_calls_delivered undef undef' from id calls buf :
  Forall call_ok calls -> bwf buf -> readable buf = concat (pack_call undef <$> calls) ->
  Forall (fun c => _netpack undef c.1.1 c.1.2 c.2 = Ok (pack_call undef c, zlen (pack_call undef c))) calls /\
  exists b' ms, headMessageCallback undef' from id buf =
      Ok ((fun m => protoMessageCallback from id (Some (m ++ [undef'])) (zlen m)) <$> ms, false, b') /\
    readable b' = [] /\ Forall2 (carries undef') calls ms.
Proof.
  intros Hc W R. split.
  { eapply Forall_impl; [exact Hc |]. intros c H. rewrite pack_call_frame by done.
    apply netpack_frame. by apply call_message_len. }
  assert (Ef : pack_call undef <$> calls = encode <$> (call_message <$> calls)).
  { rewrite <- list_fmap_compose. apply list_fmap_ext. intros i c Hi. apply pack_call_frame.
    by eapply Forall_lookup_1. }
  assert (Ep : parse (readable buf) = (call_message <$> calls, false, [])).
  { rewrite R, Ef, <- (app_nil_r (concat _)). apply parse_frames; [| done]. apply Forall_fmap.
    eapply Forall_impl; [exact Hc | apply call_message_len]. }
  destruct (headMessageLoop_refines undef' (fun body len => [protoMessageCallback from id (Some body) len]) buf W)
    as (b' & E & _ & R'). rewrite Ep in E, R'. exists b', (call_message <$> calls).
  split; [unfold headMessageCallback; by rewrite E, deliver_singleton |]. split; [done |].
  apply Forall2_fmap_r, Forall_Forall2_diag. eapply Forall_impl; [exact Hc | apply call_message_carries].
Qed.

(** Two calls in one buffer. *)
Definition two_calls : list (Z * list Z * list Z) := [(-3, [101; 99; 104; 111], [1; 2]); (4, [], [])].

Lemma net_calls_delivered_witness :
  let bytes := concat (pack_call 99 <$> two_calls) in
  let buf := Buffer (zlen bytes) 0 64 (zlen bytes) (Some bytes) in
  length bytes = 30%nat /\
  exists b' ms, headMessageCallback 77 5 6 buf =
      Ok ((fun m => protoMessageCallback 5 6 (Some (m ++ [77])) (zlen m)) <$> ms, false, b') /\
    readable b' = [] /\ Forall2 (carries 77) two_calls ms.
Proof.
  cbv zeta. split; [reflexivity |].
  apply (net_calls_delivered 99 77 5 6 two_calls).
  - repeat constructor; vm_compute; congruence.
  - split; [by eexists | vm_compute; split; congruence | vm_compute; split; congruence].
  - reflexivity.
Defined.

(** What [z.net_unpack] does to a message of any bytes, as the connection
    delivers it (the block is one byte longer).  It stays inside the block
    exactly if the two fixed fields and the name fit; otherwise, for a negative
    name length or a short message, it reads outside or makes an array of no
    size.  A name that ends with the extra byte is the reported error. *)
Theorem netunpack_safe undef m :
  let nameLen := i32 (le_combine (take 4 (drop 4 (m ++ [undef])))) in
  (7 <= zlen m /\ 0 <= nameLen < 2147483640 /\ 7 + nameLen <= zlen m < 2147483648 ->
     exists seq, _netunpack (m ++ [undef]) (zlen m) =
       Ok (if zlen m <? 8 + nameLen then None
           else Some (seq, take (Z.to_nat nameLen) (drop 8 (m ++ [undef])), (8 + nameLen, zlen m - 8 - nameLen)))) /\
  (zlen m < 7 \/ nameLen < 0 \/ zlen m < 7 + nameLen ->
     _netunpack (m ++ [undef]) (zlen m) = Fault OutOfBounds).
Proof.
  intros nameLen. pose proof (zlen_nonneg m) as Hm. set (b := m ++ [undef]) in *.
  assert (Lb : zlen b = zlen m + 1) by (unfold b; rewrite zlen_app; done).
  assert (Hn : 7 <= zlen m -> acopy_out b 4 4 = Ok (take 4 (drop 4 b))) by (intros; apply acopy_out_Ok; lia).
  assert (Hs : 7 <= zlen m -> acopy_out b 0 4 = Ok (take 4 (drop 0 b))) by (intros; apply acopy_out_Ok; lia).
  unfold _netunpack. split.
  - intros (H7 & Hr & Hl). rewrite Hs, bind_Ok, Hn, bind_Ok by done. fold nameLen.
    rewrite (i32_small (nameLen + 1)), (i32_small (2 * 4 + nameLen)) by lia.
    destruct (Z.leb_spec (nameLen + 1) 0); [lia |]. rewrite acopy_out_Ok, bind_Ok by lia. change (Z.to_nat (2 * 4)) with 8%nat.
    rewrite i32_small by lia. exists (i32 (le_combine (take 4 (drop 0 b)))). change (2 * 4) with 8.
    replace (zlen m - 8 - nameLen) with (zlen m - (8 + nameLen)) by lia.
    destruct (Z.ltb_spec (zlen m - (8 + nameLen)) 0), (Z.ltb_spec (zlen m) (8 + nameLen)); try lia; done.
  - intros H. destruct (Z.lt_ge_cases (zlen m) 7) as [H7 | H7].
    + rewrite (acopy_out_fault b 4 4) by lia. destruct (acopy_out b 0 4) eqn:E; [done |].
      by apply acopy_out_fault_inv in E as ->.
    + rewrite Hs, bind_Ok, Hn, bind_Ok by done. fold nameLen. destruct (_ <=? 0) eqn:E1; [done |].
      rewrite acopy_out_fault; [done |].
      destruct H as [| [H |]]; [lia | | lia].
      pose proof (i32_range (le_combine (take 4 (drop 4 b)))) as Hr. fold nameLen in Hr.
      rewrite i32_small in E1 by lia. lia.
Qed.

Lemma netunpack_safe_witness :
  let m := [1; 0; 0; 0; 1; 0; 0; 0; 65; 66] in
  (exists seq, _netunpack (m ++ [7]) 10 = Ok (Some (seq, [65], (9, 1)))) /\
  _netunpack ([1; 0; 0; 0; 255; 255; 255; 255; 0] ++ [7]) 9 = Fault OutOfBounds.
Proof.
  split.
  - apply (proj1 (netunpack_safe 7 [1; 0; 0; 0; 1; 0; 0; 0; 65; 66])). vm_compute. intuition congruence.
  - apply (proj2 (netunpack_safe 7 [1; 0; 0; 0; 255; 255; 255; 255; 0])). right. left. reflexivity.
Defined.
