(* ===== verification/Ae.v ===== *)
(** * ae.c: the event loop

    The file-event table, the list of time events and the loop that serves
    them, over any of the four back ends: [AeApi] is what the loop calls and
    [AeApiLaws] what it relies on.  Callbacks are the clients' functions: a proc is a
    value of [P] and what calling it does is an argument of the loop. *)
From S2P Require Import Prelude.

Definition AE_OK : Z := 0.
Definition AE_ERR : Z := -1.
Definition AE_NONE : Z := 0.
Definition AE_READABLE : Z := 1.
Definition AE_WRITABLE : Z := 2.
Definition AE_NOMORE : Z := -1.
Definition AE_FILE_EVENTS : Z := 1.
Definition AE_TIME_EVENTS : Z := 2.
Definition AE_ALL_EVENTS : Z := 3.
Definition AE_DONT_WAIT : Z := 4.

(** The bits of poll(2), which are also those of epoll. *)
Definition POLLIN : Z := 1.
Definition POLLOUT : Z := 4.
Definition POLLERR : Z := 8.
Definition POLLHUP : Z := 16.

Definition has (mask bit : Z) : bool := negb (Z.land mask bit =? 0).

(** What a list of fired events says about a descriptor. *)
Fixpoint fired_bits (fired : list (Z * Z)) (fd : Z) : Z :=
  match fired with
  | [] => 0
  | (g, mask) :: fired => Z.lor (if g =? fd then mask else 0) (fired_bits fired fd)
  end.

Definition from_bits (r w : bool) : Z :=
  Z.lor (if r then AE_READABLE else 0) (if w then AE_WRITABLE else 0).

(** ** The back end

    ae.c includes one of four files that talk to the kernel.  [K] is the state a
    back end keeps in [apidata], the kernel objects it uses included.  The
    functions get what they read of the loop as arguments: [cur] is
    [eventLoop->events[fd].mask].  [api_answer] is what the system call that
    waits for events returns.

    The second half is what a back end promises: [api_watched k fd] is the mask it
    watches [fd] for, [api_wf k n] its invariant in a loop of [n] descriptors,
    [api_masks] the masks it registers as a whole, [api_room] the sizes the kernel
    has room for, and [api_answers k n a r]
    says that the answer [a] is one the system call may give when it shows the
    descriptors to be ready for [r]. *)
Class AeApi (K : Type) := {
  api_answer : Type;
  api_add : K -> Z -> Z -> Z -> outcome (Z * K);
  api_del : K -> Z -> Z -> Z -> outcome K;
  api_resize : K -> Z -> Z;
  api_poll : K -> (Z -> outcome Z) -> Z -> api_answer -> outcome (list (Z * Z) * K);
  api_watched : K -> Z -> Z;
  api_wf : K -> Z -> Prop;
  api_masks : Z -> Prop;
  api_room : Z -> Prop;
  api_answers : K -> Z -> api_answer -> (Z -> Z) -> Prop;
}.

Class AeApiLaws (K : Type) `{AeApi K} : Prop := {
  masks_small m : api_masks m -> 0 < m < 4;
  masks_readable : api_masks AE_READABLE;
  masks_writable : api_masks AE_WRITABLE;
  watched_range k n fd : api_wf k n -> api_watched k fd <> 0 -> 0 <= fd < n;
  (** registering adds the mask or fails and changes nothing *)
  api_add_spec k n fd mask : api_wf k n -> 0 <= fd < n -> api_masks mask ->
    exists r k', api_add k (api_watched k fd) fd mask = Ok (r, k') /\ api_wf k' n /\
      (r = -1 /\ (forall g, api_watched k' g = api_watched k g) \/
       r = 0 /\ forall g, api_watched k' g =
         if g =? fd then Z.lor mask (api_watched k fd) else api_watched k g);
  (** removing from a descriptor that is watched, after the table was changed *)
  api_del_spec k n fd mask : api_wf k n -> 0 <= fd < n -> 0 < mask < 4 -> api_watched k fd <> 0 ->
    exists k', api_del k (Z.land (api_watched k fd) (Z.lnot mask)) fd mask = Ok k' /\ api_wf k' n /\
      forall g, api_watched k' g =
        if g =? fd then Z.land (api_watched k fd) (Z.lnot mask) else api_watched k g;
  api_resize_spec k n n' : api_wf k n -> 0 < n' -> api_room n' -> (forall fd, api_watched k fd <> 0 -> fd < n') ->
    api_resize k n' = -1 \/ api_wf k n';
  (** polling reports what the kernel says of the watched events, fits in
      [fired], and leaves the registrations as they are *)
  api_poll_spec k n (cur : Z -> outcome Z) top a r :
    api_wf k n -> -1 <= top < n -> (forall fd, 0 <= fd <= top -> cur fd = Ok (api_watched k fd)) ->
    (forall fd, top < fd -> api_watched k fd = 0) -> api_answers k n a r ->
    exists fired k', api_poll k cur top a = Ok (fired, k') /\ api_wf k' n /\
      (forall g, api_watched k' g = api_watched k g) /\
      zlen fired <= n /\ Forall (fun e => 0 <= e.1 < n) fired /\
      forall fd, Z.land (api_watched k fd) (fired_bits fired fd) = Z.land (api_watched k fd) (r fd);
}.

Section Ae.
  Context {P D K : Type} `{EqDecision P} `{AeApi K}.

Record aeFileEvent := FileEvent {
  fmask : Z;
  rfileProc : option P;
  wfileProc : option P;
  clientData : option D;
}.

Record aeTimeEvent := TimeEvent {
  te_id : Z;
  when_sec : Z;
  when_ms : Z;
  timeProc : P;
  finalizerProc : option P;
  te_data : option D;
}.

Record aeEventLoop := EventLoop {
  maxfd : Z;
  setsize : Z;
  timeEventNextId : Z;
  lastTime : Z;
  events : list aeFileEvent;
  timeEvents : list aeTimeEvent;
  stop : bool;
  kernel : K;
}.

Definition set_maxfd (el : aeEventLoop) v :=
  EventLoop v (setsize el) (timeEventNextId el) (lastTime el) (events el) (timeEvents el) (stop el) (kernel el).
Definition set_events (el : aeEventLoop) v :=
  EventLoop (maxfd el) (setsize el) (timeEventNextId el) (lastTime el) v (timeEvents el) (stop el) (kernel el).
Definition set_times (el : aeEventLoop) next last v :=
  EventLoop (maxfd el) (setsize el) next last (events el) v (stop el) (kernel el).
Definition set_kernel (el : aeEventLoop) v :=
  EventLoop (maxfd el) (setsize el) (timeEventNextId el) (lastTime el) (events el) (timeEvents el) (stop el) v.

(** [now] is [time(NULL)], [k] the epoll instance [epoll_create] made. *)
Definition aeCreateEventLoop (setsize now : Z) (k : K) : aeEventLoop :=
  EventLoop (-1) setsize 0 now (replicate (Z.to_nat setsize) (FileEvent AE_NONE None None None))
    [] false k.

Definition aeGetSetSize (el : aeEventLoop) : Z := setsize el.

Definition set_stop (el : aeEventLoop) (b : bool) : aeEventLoop :=
  EventLoop (maxfd el) (setsize el) (timeEventNextId el) (lastTime el) (events el) (timeEvents el)
    b (kernel el).

Definition aeStop (el : aeEventLoop) : aeEventLoop := set_stop el true.

(** ** File events *)

(** [eventLoop->events[fd].mask] *)
Definition event_mask (el : aeEventLoop) (fd : Z) : outcome Z := fmask <$> aget (events el) fd.

Definition aeApiAddEvent (el : aeEventLoop) (fd mask : Z) : outcome (Z * aeEventLoop) :=
  cur ← event_mask el fd;
  '(r, k) ← api_add (kernel el) cur fd mask;
  mret (r, set_kernel el k).

Definition aeApiDelEvent (el : aeEventLoop) (fd delmask : Z) : outcome aeEventLoop :=
  cur ← event_mask el fd;
  k ← api_del (kernel el) cur fd delmask;
  mret (set_kernel el k).

(** The fired events; [eventLoop->fired] has [setsize] entries. *)
Definition aeApiPoll (el : aeEventLoop) (a : api_answer) : outcome (list (Z * Z) * aeEventLoop) :=
  '(fired, k) ← api_poll (kernel el) (event_mask el) (maxfd el) a;
  if zlen fired >? setsize el then Fault OutOfBounds
  else mret (fired, set_kernel el k).

Definition aeCreateFileEvent (el : aeEventLoop) (fd mask : Z) (proc : P) (data : option D)
    : outcome (Z * aeEventLoop) :=
  if fd >=? setsize el then mret (AE_ERR, el)
  else
    r ← aeApiAddEvent el fd mask;
    let el := r.2 in
    if r.1 =? -1 then mret (AE_ERR, el)
    else
      fe ← aget (events el) fd;
      let fe' := FileEvent (Z.lor (fmask fe) mask)
        (if has mask AE_READABLE then Some proc else rfileProc fe)
        (if has mask AE_WRITABLE then Some proc else wfileProc fe) data in
      evs ← aset (events el) fd fe';
      let el := set_events el evs in
      mret (AE_OK, if fd >? maxfd el then set_maxfd el fd else el).

(** [for (j = maxfd-1; j >= 0; j--) if (events[j].mask != AE_NONE) break;] *)
Fixpoint scan_down (evs : list aeFileEvent) (n : nat) : outcome Z :=
  match n with
  | O => mret (-1)
  | S j =>
    fe ← aget evs (Z.of_nat j);
    if negb (fmask fe =? AE_NONE) then mret (Z.of_nat j) else scan_down evs j
  end.

Definition aeDeleteFileEvent (el : aeEventLoop) (fd mask : Z) : outcome aeEventLoop :=
  if fd >=? setsize el then mret el
  else
    fe ← aget (events el) fd;
    if fmask fe =? AE_NONE then mret el
    else
      let m := Z.land (fmask fe) (Z.lnot mask) in
      evs ← aset (events el) fd (FileEvent m (rfileProc fe) (wfileProc fe) (clientData fe));
      let el := set_events el evs in
      el ← (if (fd =? maxfd el) && (m =? AE_NONE)
            then j ← scan_down evs (Z.to_nat (maxfd el)); mret (set_maxfd el j)
            else mret el);
      aeApiDelEvent el fd mask.

(** [zrealloc] of the table to [setsize] entries, and the loop that gives the
    entries above [maxfd] an empty mask. *)
Definition no_event : aeFileEvent := FileEvent AE_NONE None None None.
Definition clear_above (m : Z) (i : nat) (fe : aeFileEvent) : aeFileEvent :=
  if Z.of_nat i <=? m then fe else FileEvent AE_NONE (rfileProc fe) (wfileProc fe) (clientData fe).

Definition aeResizeSetSize (el : aeEventLoop) (n : Z) : Z * aeEventLoop :=
  if n =? setsize el then (AE_OK, el)
  else if maxfd el >=? n then (AE_ERR, el)
  else if api_resize (kernel el) n =? -1 then (AE_ERR, el)
  else
    let evs := imap (clear_above (maxfd el)) (resize (Z.to_nat n) no_event (events el)) in
    (AE_OK, EventLoop (maxfd el) n (timeEventNextId el) (lastTime el) evs (timeEvents el) (stop el) (kernel el)).

Definition aeGetFileEvents (el : aeEventLoop) (fd : Z) : outcome Z :=
  if fd >=? setsize el then mret 0 else fe ← aget (events el) fd; mret (fmask fe).

(** ** Time events *)

(** [now] is what [aeGetTime] reads. *)
Definition aeAddMillisecondsToNow (now : Z * Z) (milliseconds : Z) : Z * Z :=
  let sec := now.1 + Z.quot milliseconds 1000 in
  let ms := now.2 + Z.rem milliseconds 1000 in
  if ms >=? 1000 then (sec + 1, ms - 1000) else (sec, ms).

Definition aeCreateTimeEvent (el : aeEventLoop) (now : Z * Z) (milliseconds : Z) (proc : P)
    (data : option D) (fin : option P) : Z * aeEventLoop :=
  let id := timeEventNextId el in
  let w := aeAddMillisecondsToNow now milliseconds in
  (id, set_times el (id + 1) (lastTime el) (TimeEvent id w.1 w.2 proc fin data :: timeEvents el)).

(** The removed event, whose finalizer runs, and the rest. *)
Fixpoint remove_time (id : Z) (l : list aeTimeEvent) : option (aeTimeEvent * list aeTimeEvent) :=
  match l with
  | [] => None
  | te :: l =>
    if te_id te =? id then Some (te, l)
    else match remove_time id l with
         | Some (x, l') => Some (x, te :: l')
         | None => None
         end
  end.

Definition aeDeleteTimeEvent (el : aeEventLoop) (id : Z)
    : Z * option aeTimeEvent * aeEventLoop :=
  match remove_time id (timeEvents el) with
  | Some (te, l) => (AE_OK, Some te, set_times el (timeEventNextId el) (lastTime el) l)
  | None => (AE_ERR, None, el)
  end.

Definition earlier (a b : aeTimeEvent) : bool :=
  (when_sec a <? when_sec b) || ((when_sec a =? when_sec b) && (when_ms a <? when_ms b)).

Definition aeSearchNearestTimer (el : aeEventLoop) : option aeTimeEvent :=
  foldl (fun nearest te =>
    match nearest with
    | None => Some te
    | Some n => if earlier te n then Some te else Some n
    end) None (timeEvents el).

(** The timeout [aeProcessEvents] passes to the poll: seconds and microseconds. *)
Definition time_to (now : Z * Z) (shortest : aeTimeEvent) : Z * Z :=
  let sec := when_sec shortest - now.1 in
  let '(sec, usec) :=
    if when_ms shortest <? now.2
    then (sec - 1, (when_ms shortest + 1000 - now.2) * 1000)
    else (sec, (when_ms shortest - now.2) * 1000) in
  (if sec <? 0 then 0 else sec, if usec <? 0 then 0 else usec).

(** [None] waits for ever. *)
Definition poll_timeout (el : aeEventLoop) (flags : Z) (now : Z * Z) : option (Z * Z) :=
  let shortest := if has flags AE_TIME_EVENTS && negb (has flags AE_DONT_WAIT)
                  then aeSearchNearestTimer el else None in
  match shortest with
  | Some te => Some (time_to now te)
  | None => if has flags AE_DONT_WAIT then Some (0, 0) else None
  end.

Definition due (now : Z * Z) (te : aeTimeEvent) : bool :=
  (now.1 >? when_sec te) || ((now.1 =? when_sec te) && (now.2 >=? when_ms te)).

(** [aeWait]; [poll] is what poll(2) returns and the events it reports. *)
Definition aeWait (poll : Z * Z) : Z :=
  let '(retval, revents) := poll in
  if retval =? 1 then
    Z.lor (if has revents POLLIN then AE_READABLE else 0)
      (if has revents POLLOUT || has revents POLLERR || has revents POLLHUP then AE_WRITABLE else 0)
  else retval.

(** ** The loop

    [S] is everything the callbacks can change, the event loop included. *)
Section loop.
  Context {S : Type}.
  Variables (get : S -> aeEventLoop) (put : aeEventLoop -> S -> S).
  (** calling a file proc, a time proc (with its return value), a finalizer *)
  Variable call : P -> Z -> option D -> Z -> S -> outcome S.
  Variable tcall : aeTimeEvent -> S -> outcome (Z * S).
  Variable fcall : P -> option D -> S -> outcome S.
  (** [clock n] is the [n]-th reading of the clock *)
  Variable clock : nat -> Z * Z.

Definition is_wfile_distinct (fe : aeFileEvent) : bool := negb (bool_decide (wfileProc fe = rfileProc fe)).

(** One entry of [fired]. *)
Definition process_one (fd mask : Z) (s : S) : outcome S :=
  fe ← aget (events (get s)) fd;
  let rfired := has (Z.land (fmask fe) mask) AE_READABLE in
  s ← (if rfired then p ← deref (rfileProc fe); call p fd (clientData fe) mask s else mret s);
  fe ← aget (events (get s)) fd;
  if has (Z.land (fmask fe) mask) AE_WRITABLE && (negb rfired || is_wfile_distinct fe)
  then p ← deref (wfileProc fe); call p fd (clientData fe) mask s
  else mret s.

Fixpoint processFired (fired : list (Z * Z)) (s : S) : outcome S :=
  match fired with
  | [] => mret s
  | (fd, mask) :: fired => s ← process_one fd mask s; processFired fired s
  end.

(** [te->when_sec = ..., te->when_ms = ...] through the pointer [te]. *)
Fixpoint set_when (id : Z) (w : Z * Z) (l : list aeTimeEvent) : option (list aeTimeEvent) :=
  match l with
  | [] => None
  | te :: l =>
    if te_id te =? id
    then Some (TimeEvent id w.1 w.2 (timeProc te) (finalizerProc te) (te_data te) :: l)
    else l' ← set_when id w l; Some (te :: l')
  end.

(** [aeDeleteTimeEvent] and the finalizer. *)
Definition delete_time (id : Z) (s : S) : outcome S :=
  match aeDeleteTimeEvent (get s) id with
  | (_, Some te, el) =>
    let s := put el s in
    match finalizerProc te with Some f => fcall f (te_data te) s | None => mret s end
  | (_, None, _) => mret s
  end.

(** The [while(te)] loop; [l] is the list from [te] on, [n] counts clock
    readings.  Rescheduling an event a callback has deleted writes to freed
    memory. *)
Fixpoint time_loop (fuel n : nat) (maxId : Z) (l : list aeTimeEvent) (processed : Z) (s : S)
    : outcome (Z * nat * S) :=
  match fuel with
  | O => Fault OutOfFuel
  | Datatypes.S fuel =>
    match l with
    | [] => mret (processed, n, s)
    | te :: l =>
      if te_id te >? maxId then time_loop fuel n maxId l processed s
      else if due (clock n) te then
        r ← tcall te s;
        if negb (r.1 =? AE_NOMORE) then
          let w := aeAddMillisecondsToNow (clock (n + 1)) r.1 in
          match set_when (te_id te) w (timeEvents (get r.2)) with
          | None => Fault UseAfterFree
          | Some l' =>
            let el := get r.2 in
            let s := put (set_times el (timeEventNextId el) (lastTime el) l') r.2 in
            time_loop fuel (n + 2) maxId (timeEvents (get s)) (processed + 1) s
          end
        else
          s ← delete_time (te_id te) r.2;
          time_loop fuel (n + 1) maxId (timeEvents (get s)) (processed + 1) s
      else time_loop fuel (n + 1) maxId l processed s
    end
  end.

Definition force_due (te : aeTimeEvent) : aeTimeEvent :=
  TimeEvent (te_id te) 0 (when_ms te) (timeProc te) (finalizerProc te) (te_data te).

Definition processTimeEvents (fuel n : nat) (now : Z) (s : S) : outcome (Z * nat * S) :=
  let el := get s in
  let l := if now <? lastTime el then force_due <$> timeEvents el else timeEvents el in
  let s := put (set_times el (timeEventNextId el) now l) s in
  time_loop fuel n (timeEventNextId el - 1) l 0 s.

(** [poll] is what the system call answers for a timeout. *)
Definition aeProcessEvents (fuel n : nat) (now flags : Z) (poll : option (Z * Z) -> api_answer) (s : S)
    : outcome (Z * nat * S) :=
  if negb (has flags AE_TIME_EVENTS) && negb (has flags AE_FILE_EVENTS) then mret (0, n, s)
  else
    r ← (if negb (maxfd (get s) =? -1) ||
            (has flags AE_TIME_EVENTS && negb (has flags AE_DONT_WAIT)) then
           '(fired, el) ← aeApiPoll (get s) (poll (poll_timeout (get s) flags (clock n)));
           s ← processFired fired (put el s); mret (Z.of_nat (length fired), s)
         else mret (0, s));
    if has flags AE_TIME_EVENTS then
      '(m, n, s) ← processTimeEvents fuel (n + 1) now r.2; mret (r.1 + m, n, s)
    else mret (r.1, n, r.2).

(** [rounds] rounds of [aeMain], each with its own time and poll: whether the loop
    has ended. *)
Fixpoint main_rounds (rounds fuel n : nat) (beforesleep : option (S -> outcome S))
    (env : nat -> Z * (option (Z * Z) -> api_answer)) (s : S) : outcome (bool * nat * S) :=
  match rounds with
  | O => mret (stop (get s), n, s)
  | Datatypes.S rounds =>
    if stop (get s) then mret (true, n, s)
    else
      s ← (match beforesleep with Some f => f s | None => mret s end);
      '(_, n, s) ← aeProcessEvents fuel n (env 0%nat).1 AE_ALL_EVENTS (env 0%nat).2 s;
      main_rounds rounds fuel n beforesleep (fun k => env (Datatypes.S k)) s
  end.

Definition aeMain (rounds fuel n : nat) (beforesleep : option (S -> outcome S))
    (env : nat -> Z * (option (Z * Z) -> api_answer)) (s : S) : outcome (bool * nat * S) :=
  main_rounds rounds fuel n beforesleep env (put (set_stop (get s) false) s).
End loop.
End Ae.
Arguments aeEventLoop : clear implicits.
Arguments aeFileEvent : clear implicits.
Arguments aeTimeEvent : clear implicits.

(** ** Well-formed loops *)

(** The back end watches every descriptor for exactly the events of its mask, and
    [maxfd] is the highest with one. *)
Record ae_ok {P D K} `{AeApi K} (el : aeEventLoop P D K) : Prop := {
  ok_len : zlen (events el) = setsize el;
  ok_mask : forall fd fe, events el !! fd = Some fe -> 0 <= fmask fe < 4;
  ok_kernel : forall fd fe, events el !! fd = Some fe -> api_watched (kernel el) (Z.of_nat fd) = fmask fe;
  ok_api : api_wf (kernel el) (setsize el);
  ok_max : -1 <= maxfd el < setsize el;
  ok_max_used : 0 <= maxfd el ->
    exists fe, events el !! Z.to_nat (maxfd el) = Some fe /\ fmask fe <> 0;
  ok_max_top : forall fd fe, events el !! fd = Some fe -> maxfd el < Z.of_nat fd -> fmask fe = 0;
}.

(** The mask registered for a descriptor. *)
Definition fd_mask {P D K} (el : aeEventLoop P D K) (fd : Z) : Z :=
  match events el !! Z.to_nat fd with Some fe => fmask fe | None => 0 end.

Lemma small_cases (P : Z -> Prop) :
  P 0 -> P 1 -> P 2 -> P 3 -> forall m, 0 <= m < 4 -> P m.
Proof. intros. assert (m = 0 \/ m = 1 \/ m = 2 \/ m = 3) as [-> | [-> | [-> | ->]]] by lia; done. Qed.

Lemma lor_small a b : 0 <= a < 4 -> 0 <= b < 4 -> 0 <= Z.lor a b < 4.
Proof. intros Ha Hb. revert a Ha. apply small_cases; revert b Hb; apply small_cases; split; vm_compute; congruence. Qed.

Lemma lor_nonzero a b : 0 < a -> 0 <= b -> Z.lor a b <> 0.
Proof. intros Ha Hb E. apply Z.lor_eq_0_iff in E. lia. Qed.

Lemma clear_small a b : 0 <= a < 4 -> 0 <= b < 4 -> 0 <= Z.land a (Z.lnot b) < 4.
Proof. intros Ha Hb. revert a Ha. apply small_cases; revert b Hb; apply small_cases; split; vm_compute; congruence. Qed.

Lemma clear_clear a b : Z.land (Z.land a (Z.lnot b)) (Z.lnot b) = Z.land a (Z.lnot b).
Proof. by rewrite <- Z.land_assoc, Z.land_diag. Qed.

(** Masks bit by bit. *)
Lemma has_testbit x i : 0 <= i -> has x (2 ^ i) = Z.testbit x i.
Proof.
  intros Hi. unfold has. destruct (Z.testbit x i) eqn:E.
  - destruct (Z.eqb_spec (Z.land x (2 ^ i)) 0) as [Z0 |]; [| done].
    apply (f_equal (fun z => Z.testbit z i)) in Z0.
    by rewrite Z.land_spec, E, Z.pow2_bits_true, Z.bits_0 in Z0.
  - replace (Z.land x (2 ^ i)) with 0; [done |]. apply Z.bits_inj. intros j. rewrite Z.bits_0, Z.land_spec.
    destruct (Z.eq_dec i j) as [<- | Hne]; [by rewrite E |]. by rewrite Z.pow2_bits_false, andb_false_r.
Qed.

Lemma land_small_ext w x y :
  0 <= w < 4 -> (has w AE_READABLE = true -> has x AE_READABLE = has y AE_READABLE) ->
  (has w AE_WRITABLE = true -> has x AE_WRITABLE = has y AE_WRITABLE) -> Z.land w x = Z.land w y.
Proof.
  intros Hw HR HW. pose proof (fun z => has_testbit z 0 ltac:(lia)) as T0. pose proof (fun z => has_testbit z 1 ltac:(lia)) as T1.
  change (2 ^ 0) with AE_READABLE in T0. change (2 ^ 1) with AE_WRITABLE in T1. rewrite !T0 in HR. rewrite !T1 in HW.
  apply Z.bits_inj'. intros j Hj. rewrite !Z.land_spec.
  destruct (Z.testbit w j) eqn:E; [| done]. cbn [andb].
  assert (j = 0 \/ j = 1) as [-> | ->]; [| by auto | by auto].
  destruct (Z.eq_dec w 0) as [-> | Hn]; [by rewrite Z.bits_0 in E |].
  destruct (Z.lt_ge_cases 1 j) as [Hj1 |]; [| lia]. rewrite Z.bits_above_log2 in E; [done | lia |].
  apply Z.log2_lt_pow2; [lia |]. apply (Z.lt_le_trans _ (2 ^ 2)); [change (2 ^ 2) with 4; lia |].
  apply Z.pow_le_mono_r; lia.
Qed.

Lemma has_lor x y i : has (Z.lor x y) i = has x i || has y i.
Proof.
  unfold has. rewrite Z.land_lor_distr_l. destruct (Z.eqb_spec (Z.lor (Z.land x i) (Z.land y i)) 0) as [E | E].
  - apply Z.lor_eq_0_iff in E as [-> ->]. done.
  - destruct (Z.eqb_spec (Z.land x i) 0) as [E1 |], (Z.eqb_spec (Z.land y i) 0) as [E2 |]; try done.
    by rewrite E1, E2 in E.
Qed.

Lemma has_from_bits r w :
  has (from_bits r w) AE_READABLE = r /\ has (from_bits r w) AE_WRITABLE = w /\ 0 <= from_bits r w < 4.
Proof. destruct r, w; repeat split; done. Qed.

Lemma from_bits_has m : 0 <= m < 4 -> from_bits (has m AE_READABLE) (has m AE_WRITABLE) = m.
Proof. by apply (small_cases (fun m => from_bits (has m AE_READABLE) (has m AE_WRITABLE) = m)). Qed.

(** A bit is reported when some entry of the list has it. *)
Lemma fired_bits_has fired fd b :
  has (fired_bits fired fd) b = true <-> exists mask, (fd, mask) ∈ fired /\ has mask b = true.
Proof.
  induction fired as [| [g mask] fired IH].
  - split; [done | by intros (? & ?%elem_of_nil & _)].
  - simpl. rewrite has_lor, orb_true_iff, IH. split.
    + intros [E | (x & Hx & E)]; [| exists x; split; [by right | done]].
      destruct (Z.eqb_spec g fd) as [-> |]; [| done]. exists mask. split; [by left | done].
    + intros (x & [[= -> ->] | Hx]%elem_of_cons & E); [left; by rewrite Z.eqb_refl | right; by exists x].
Qed.

Lemma scan_down_spec {P D} (evs : list (aeFileEvent P D)) n :
  (n <= length evs)%nat ->
  exists j, scan_down evs n = Ok j /\ -1 <= j < Z.of_nat n /\
    (0 <= j -> exists fe, evs !! Z.to_nat j = Some fe /\ fmask fe <> 0) /\
    (forall fd fe, evs !! fd = Some fe -> j < Z.of_nat fd < Z.of_nat n -> fmask fe = 0).
Proof.
  induction n as [| n IH]; intros Hn.
  - exists (-1). split; [done |]. split; [lia |]. split; [lia |]. intros. lia.
  - simpl. destruct (aget_is_Ok evs (Z.of_nat n)) as (fe & El & Eg); [unfold zlen; lia |].
    rewrite Eg, bind_Ok. rewrite Nat2Z.id in El. unfold AE_NONE.
    destruct (Z.eqb_spec (fmask fe) 0) as [E0 | E0]; cbn [negb].
    + destruct (IH ltac:(lia)) as (j & E & Hj & Hu & Ht). exists j.
      split; [done |]. split; [lia |]. split; [done |]. intros fd fe' Hl Hr.
      destruct (Nat.eq_dec fd n) as [-> | Hne]; [congruence | apply (Ht fd fe' Hl); lia].
    + exists (Z.of_nat n). split; [done |]. split; [lia |]. split.
      * intros _. exists fe. by rewrite Nat2Z.id.
      * intros. lia.
Qed.

Lemma aeCreateEventLoop_ok {P D K} `{AeApi K} sz now k :
  0 <= sz -> api_wf k sz -> (forall fd, api_watched k fd = 0) ->
  ae_ok (aeCreateEventLoop (P := P) (D := D) sz now k).
Proof.
  intros Hs Hw Hk. split; cbn [aeCreateEventLoop maxfd setsize events kernel]; try lia; try done.
  - by apply zlen_replicate.
  - intros fd fe Hf. apply lookup_replicate in Hf as [-> _]. cbn. unfold AE_NONE. lia.
  - intros fd fe Hf. apply lookup_replicate in Hf as [-> _]. apply Hk.
  - intros fd fe Hf. by apply lookup_replicate in Hf as [-> _].
Qed.

Section file_events.
  Context {P D K : Type} `{EqDecision P} `{AeApiLaws K}.
  Implicit Types el : aeEventLoop P D K.

Lemma ok_range el fd : ae_ok el -> api_watched (kernel el) fd <> 0 -> 0 <= fd < setsize el.
Proof. intros I. apply watched_range, (ok_api _ I). Qed.

Lemma event_mask_Ok el fd fe : 0 <= fd -> events el !! Z.to_nat fd = Some fe -> event_mask el fd = Ok (fmask fe).
Proof. intros Hfd Hfe. unfold event_mask. by rewrite (aget_Ok _ _ fe). Qed.

(** The mask of an entry is what is watched. *)
Lemma ok_watched el fd fe :
  ae_ok el -> 0 <= fd -> events el !! Z.to_nat fd = Some fe -> api_watched (kernel el) fd = fmask fe.
Proof. intros I Hfd Hfe. rewrite <- (ok_kernel _ I _ _ Hfe). by rewrite Z2Nat.id. Qed.

Lemma aeApiAddEvent_spec el fd mask fe :
  ae_ok el -> 0 <= fd < setsize el -> api_masks mask -> events el !! Z.to_nat fd = Some fe ->
  exists r k, aeApiAddEvent el fd mask = Ok (r, set_kernel el k) /\ api_wf k (setsize el) /\
    (r = -1 /\ (forall g, api_watched k g = api_watched (kernel el) g) \/
     r = 0 /\ forall g, api_watched k g =
       if g =? fd then Z.lor mask (fmask fe) else api_watched (kernel el) g).
Proof.
  intros I Hfd Hm Hfe. pose proof (ok_watched el fd fe I ltac:(lia) Hfe) as Hw.
  destruct (api_add_spec (kernel el) (setsize el) fd mask (ok_api _ I) Hfd Hm) as (r & k & E & W & C).
  rewrite Hw in E, C. exists r, k. unfold aeApiAddEvent.
  rewrite (event_mask_Ok el fd fe), bind_Ok, E by (done || lia). by rewrite bind_Ok.
Qed.

Lemma set_kernel_ok el k :
  api_wf k (setsize el) -> (forall g, api_watched k g = api_watched (kernel el) g) ->
  ae_ok el -> ae_ok (set_kernel el k).
Proof. intros W E []. split; try done; cbn. intros fd fe Hf. rewrite E. by apply ok_kernel0. Qed.

(** Registering: either nothing changes or the bits are added. *)
Lemma aeCreateFileEvent_cases el fd mask p d :
  ae_ok el -> 0 <= fd -> api_masks mask ->
  exists r el', aeCreateFileEvent el fd mask p d = Ok (r, el') /\ ae_ok el' /\
    ((r = AE_ERR /\ events el' = events el) \/
     (r = AE_OK /\ fd < setsize el /\
      exists fe fe', events el !! Z.to_nat fd = Some fe /\
        events el' = <[Z.to_nat fd := fe']> (events el) /\
        fmask fe' = Z.lor (fmask fe) mask /\ clientData fe' = d /\
        (has mask AE_READABLE = true -> rfileProc fe' = Some p) /\
        (has mask AE_WRITABLE = true -> wfileProc fe' = Some p))).
Proof.
  intros I Hfd Hmm. pose proof (masks_small _ Hmm) as Hm. unfold aeCreateFileEvent. rewrite Z.geb_leb.
  destruct (Z.leb_spec (setsize el) fd) as [Hge | Hlt]; [exists AE_ERR, el; auto |].
  destruct (aget_is_Ok (events el) fd) as (fe & Hfe & _); [rewrite (ok_len _ I); lia |].
  destruct (aeApiAddEvent_spec el fd mask fe I ltac:(lia) Hmm Hfe) as (r & k & E & W & [[-> Hk] | [-> Hk]]);
    rewrite E, bind_Ok; cbn [fst snd Z.eqb].
  { exists AE_ERR, (set_kernel el k). split; [done |]. split; [by apply set_kernel_ok | auto]. }
  change (0 =? -1) with false. cbn iota. cbn [set_kernel events].
  rewrite (aget_Ok _ _ fe), bind_Ok by done.
  rewrite aset_Ok, bind_Ok by (rewrite (ok_len _ I); lia).
  set (fe' := FileEvent _ _ _ _). eexists AE_OK, _. split; [reflexivity |].
  pose proof (ok_mask _ I _ _ Hfe) as Hfm.
  assert (Em : Z.lor mask (fmask fe) = fmask fe') by (cbn; by rewrite Z.lor_comm).
  assert (Hnz : fmask fe' <> 0) by (cbn; rewrite Z.lor_comm; apply lor_nonzero; lia).
  assert (Hl : (Z.to_nat fd < length (events el))%nat) by (by apply lookup_lt_Some in Hfe).
  split.
  2: { right. split; [done |]. split; [done |]. exists fe, fe'. split; [done |]. rewrite Z.gtb_ltb.
       split; [by destruct (_ <? _) |]. cbn. repeat split; try done; by intros ->. }
  rewrite Z.gtb_ltb. cbn [set_events set_kernel maxfd].
  pose proof (ok_max _ I). pose proof (ok_len _ I).
  assert (Hev : forall n x, <[Z.to_nat fd := fe']> (events el) !! n = Some x ->
    (n = Z.to_nat fd /\ x = fe') \/ (n <> Z.to_nat fd /\ events el !! n = Some x)).
  { intros n x Hx. apply list_lookup_insert_Some in Hx as [(-> & -> & _) | [? ?]]; auto. }
  assert (Hkn : forall n x, <[Z.to_nat fd := fe']> (events el) !! n = Some x -> api_watched k (Z.of_nat n) = fmask x).
  { intros n x Hx. rewrite Hk. apply Hev in Hx as [[-> ->] | [Hn Hx]].
    - rewrite Z2Nat.id, Z.eqb_refl by lia. exact Em.
    - destruct (Z.eqb_spec (Z.of_nat n) fd); [lia | by apply (ok_kernel _ I)]. }
  destruct (Z.ltb_spec (maxfd el) fd) as [Hgt | Hle];
    split; cbn [set_maxfd set_events set_kernel maxfd setsize events kernel]; try exact W; try exact Hkn; try lia;
    try (rewrite zlen_insert; lia).
  1, 4: intros n x Hx; apply Hev in Hx as [[-> ->] | [_ Hx]];
    [cbn; apply lor_small; lia | by apply (ok_mask _ I _ _ Hx)].
  - intros _. exists fe'. rewrite list_lookup_insert_eq; done.
  - intros n x Hx Hn. apply Hev in Hx as [[-> ->] | [_ Hx]]; [lia |].
    apply (ok_max_top _ I _ _ Hx). lia.
  - intros Hp. destruct (Z.eq_dec (maxfd el) fd) as [-> | Hne].
    + exists fe'. rewrite list_lookup_insert_eq; done.
    + destruct (ok_max_used _ I Hp) as (x & Hx & Hxm). exists x.
      rewrite list_lookup_insert_ne by lia. done.
  - intros n x Hx Hn. apply Hev in Hx as [[-> ->] | [_ Hx]]; [lia |].
    apply (ok_max_top _ I _ _ Hx). lia.
Qed.

(** The entry after a registration, in full. *)
Lemma aeCreateFileEvent_entry el fd mask p d r el' :
  0 <= fd -> aeCreateFileEvent el fd mask p d = Ok (r, el') ->
  events el' = events el \/
  exists fe, events el !! Z.to_nat fd = Some fe /\
    events el' = <[Z.to_nat fd := FileEvent (Z.lor (fmask fe) mask)
      (if has mask AE_READABLE then Some p else rfileProc fe)
      (if has mask AE_WRITABLE then Some p else wfileProc fe) d]> (events el).
Proof.
  intros Hfd. unfold aeCreateFileEvent. destruct (fd >=? setsize el); [intros [= <- <-]; by left |].
  intros E. apply bind_Ok_inv in E as ([r1 el1] & E1 & E).
  assert (Ev : events el1 = events el).
  { unfold aeApiAddEvent in E1. apply bind_Ok_inv in E1 as (cur & _ & E1).
    apply bind_Ok_inv in E1 as ([r' k] & _ & [= <- <-]). done. }
  cbn [fst snd] in E. rewrite Ev in E. destruct (r1 =? -1); [injection E as <- <-; by left |].
  apply bind_Ok_inv in E as (fe & Eg & E). apply bind_Ok_inv in E as (evs & Es & E).
  apply aget_Ok_inv in Eg as [Hr Hfe]. rewrite aset_Ok in Es by done. injection Es as <-. injection E as <- <-.
  right. exists fe. split; [done |]. rewrite Z.gtb_ltb. by destruct (_ <? _).
Qed.

(** Removing bits from a descriptor that has some. *)
Lemma delete_registered el fd mask fe el1 :
  ae_ok el -> 0 <= fd < setsize el -> 0 < mask < 4 -> events el !! Z.to_nat fd = Some fe -> fmask fe <> 0 ->
  let fe' := FileEvent (Z.land (fmask fe) (Z.lnot mask)) (rfileProc fe) (wfileProc fe) (clientData fe) in
  events el1 = <[Z.to_nat fd := fe']> (events el) -> kernel el1 = kernel el ->
  exists k, aeApiDelEvent el1 fd mask = Ok (set_kernel el1 k) /\ api_wf k (setsize el) /\
    forall g, api_watched k g = if g =? fd then fmask fe' else api_watched (kernel el) g.
Proof.
  intros I Hfd Hm Hfe Hnz fe' Ev Ek. pose proof (ok_watched el fd fe I ltac:(lia) Hfe) as Hw.
  destruct (api_del_spec (kernel el) (setsize el) fd mask (ok_api _ I) Hfd Hm ltac:(by rewrite Hw)) as (k & E & W & C).
  rewrite Hw in E, C. exists k. unfold aeApiDelEvent.
  rewrite (event_mask_Ok el1 fd fe'), bind_Ok, Ek;
    [| lia | rewrite Ev; apply list_lookup_insert_eq; by apply lookup_lt_Some in Hfe].
  unfold fe' at 1. cbn [fmask]. by rewrite E, bind_Ok.
Qed.

(** The search for the new [maxfd] after the mask of [fd] has changed. *)
Lemma lower_maxfd el fd fe fe' :
  ae_ok el -> 0 <= fd < setsize el -> events el !! Z.to_nat fd = Some fe -> fmask fe <> 0 ->
  let evs := <[Z.to_nat fd := fe']> (events el) in
  exists j,
    (if (fd =? maxfd (set_events el evs)) && (fmask fe' =? AE_NONE)
     then j ← scan_down evs (Z.to_nat (maxfd (set_events el evs))); mret (set_maxfd (set_events el evs) j)
     else mret (set_events el evs)) = Ok (set_maxfd (set_events el evs) j) /\ -1 <= j < setsize el /\
    (0 <= j -> exists x, evs !! Z.to_nat j = Some x /\ fmask x <> 0) /\
    (forall n x, evs !! n = Some x -> j < Z.of_nat n -> fmask x = 0).
Proof.
  intros I Hfd Hfe E0 evs. pose proof (ok_len _ I) as Hlen. pose proof (ok_max _ I) as Hmax.
  assert (Hl : (Z.to_nat fd < length (events el))%nat) by (by apply lookup_lt_Some in Hfe).
  assert (Hev : forall n x, evs !! n = Some x ->
    (n = Z.to_nat fd /\ x = fe') \/ (n <> Z.to_nat fd /\ events el !! n = Some x)).
  { intros n x Hx. apply list_lookup_insert_Some in Hx as [(-> & -> & _) | [? ?]]; auto. }
  cbn [set_events maxfd]. unfold AE_NONE. destruct (Z.eqb_spec fd (maxfd el)) as [-> | Hne]; cbn [andb];
      [destruct (Z.eqb_spec (fmask fe') 0) as [Z0 | Z0] |].
    - destruct (scan_down_spec evs (Z.to_nat (maxfd el))) as (j & E & Hj & Hu & Ht).
      { unfold evs. rewrite length_insert. lia. }
      exists j. rewrite E, bind_Ok. split; [done |]. split; [lia |]. split; [done |].
      intros n x Hx Hn. destruct (Z.lt_ge_cases (Z.of_nat n) (maxfd el)); [apply (Ht _ _ Hx); lia |].
      apply Hev in Hx as [[-> ->] | [Hn' Hx]]; [done | apply (ok_max_top _ I _ _ Hx); lia].
    - exists (maxfd el). split; [by destruct el |]. split; [lia |]. split.
      + intros _. exists fe'. unfold evs. by rewrite list_lookup_insert_eq.
      + intros n x Hx Hn. apply Hev in Hx as [[-> ->] | [_ Hx]]; [lia |].
        by apply (ok_max_top _ I _ _ Hx).
    - exists (maxfd el). split; [by destruct el |]. split; [lia |]. split.
      + intros Hp. destruct (ok_max_used _ I Hp) as (x & Hx & Hxm). exists x.
        unfold evs. rewrite list_lookup_insert_ne by lia. done.
      + intros n x Hx Hn. apply Hev in Hx as [[-> ->] | [_ Hx]].
        * exfalso. apply E0. apply (ok_max_top _ I _ _ Hfe). lia.
        * by apply (ok_max_top _ I _ _ Hx).
Qed.

Lemma aeDeleteFileEvent_cases el fd mask :
  ae_ok el -> 0 <= fd -> 0 < mask < 4 ->
  exists el', aeDeleteFileEvent el fd mask = Ok el' /\ ae_ok el' /\ setsize el' = setsize el /\
    (events el' = events el /\ fd_mask el fd = 0 \/
     exists fe, events el !! Z.to_nat fd = Some fe /\
       events el' = <[Z.to_nat fd := FileEvent (Z.land (fmask fe) (Z.lnot mask))
         (rfileProc fe) (wfileProc fe) (clientData fe)]> (events el)).
Proof.
  intros I Hfd Hm. unfold aeDeleteFileEvent. rewrite Z.geb_leb.
  pose proof (ok_len _ I) as Hlen. pose proof (ok_max _ I) as Hmax.
  destruct (Z.leb_spec (setsize el) fd) as [Hge | Hlt].
  { exists el. split; [done |]. split; [done |]. split; [done |]. left. split; [done |].
    unfold fd_mask. rewrite lookup_ge_None_2; [done |]. unfold zlen in Hlen. lia. }
  destruct (aget_is_Ok (events el) fd) as (fe & Hfe & Eg); [lia |].
  rewrite Eg, bind_Ok. unfold AE_NONE at 1.
  destruct (Z.eqb_spec (fmask fe) 0) as [E0 | E0].
  { exists el. split; [done |]. split; [done |]. split; [done |]. left. split; [done |].
    unfold fd_mask. by rewrite Hfe. }
  rewrite aset_Ok, bind_Ok by lia.
  set (fe' := FileEvent _ _ _ _). set (evs := <[Z.to_nat fd := fe']> (events el)).
  assert (Hl : (Z.to_nat fd < length (events el))%nat) by (by apply lookup_lt_Some in Hfe).
  pose proof (ok_mask _ I _ _ Hfe) as Hfm.
  assert (Hev : forall n x, evs !! n = Some x ->
    (n = Z.to_nat fd /\ x = fe') \/ (n <> Z.to_nat fd /\ events el !! n = Some x)).
  { intros n x Hx. apply list_lookup_insert_Some in Hx as [(-> & -> & _) | [? ?]]; auto. }
  destruct (lower_maxfd el fd fe fe' I ltac:(lia) Hfe E0) as (j & Ej & Hj & Hu & Ht). fold evs in Ej, Hu, Ht.
  cbv zeta. cbn [fmask fe'] in Ej. rewrite Ej, bind_Ok.
  destruct (delete_registered el fd mask fe (set_maxfd (set_events el evs) j) I ltac:(lia) Hm Hfe E0
    eq_refl eq_refl) as (k & Ek & Wk & Hk). rewrite Ek. eexists. split; [reflexivity |].
  change (FileEvent _ _ _ _) with fe' in Hk.
  split; [| split; [done | right; by exists fe]].
  split; cbn [set_maxfd set_events set_kernel maxfd setsize events kernel]; try done.
  - unfold evs. by rewrite zlen_insert.
  - intros n x Hx. apply Hev in Hx as [[-> ->] | [_ Hx]];
      [apply clear_small; lia | by apply (ok_mask _ I _ _ Hx)].
  - intros n x Hx. rewrite Hk. apply Hev in Hx as [[-> ->] | [Hn Hx]].
    + by rewrite Z2Nat.id, Z.eqb_refl by lia.
    + destruct (Z.eqb_spec (Z.of_nat n) fd); [lia | by apply (ok_kernel _ I)].
Qed.

(** Resizing fails and changes nothing, or keeps every registration. *)
Lemma aeResizeSetSize_cases el n :
  ae_ok el -> 0 < n -> api_room n ->
  let ok := (n =? setsize el) || ((maxfd el <? n) && negb (api_resize (kernel el) n =? -1)) in
  exists el', aeResizeSetSize el n = (if ok then AE_OK else AE_ERR, el') /\ ae_ok el' /\
    setsize el' = (if ok then n else setsize el) /\ kernel el' = kernel el /\ maxfd el' = maxfd el /\
    (forall fd, fd_mask el' fd = fd_mask el fd) /\
    forall fd, Z.of_nat fd <= maxfd el -> events el' !! fd = events el !! fd.
Proof.
  intros I Hn Hroom. pose proof (ok_len _ I) as Hlen. pose proof (ok_max _ I) as Hmax. unfold aeResizeSetSize.
  destruct (Z.eqb_spec n (setsize el)) as [-> |].
  { by exists el. }
  rewrite Z.geb_leb. destruct (Z.leb_spec n (maxfd el)), (Z.ltb_spec (maxfd el) n); try lia; [by exists el |].
  destruct (Z.eqb_spec (api_resize (kernel el) n) (-1)) as [Er | Er]; [by exists el |].
  eexists. split; [reflexivity |]. set (l := resize (Z.to_nat n) _ (events el)).
  assert (Hll : length l = Z.to_nat n) by apply length_resize.
  assert (Hl : forall fd, l !! fd = if decide (Z.of_nat fd < n) then Some (default no_event (events el !! fd)) else None).
  { intros fd. case_decide; [| apply lookup_ge_None_2; lia]. unfold l. destruct (events el !! fd) as [fe |] eqn:E.
    - pose proof (lookup_lt_Some _ _ _ E). by rewrite lookup_resize by lia.
    - apply lookup_ge_None_1 in E. by rewrite lookup_resize_new by lia. }
  set (evs := imap _ l).
  assert (He : forall fd, evs !! fd = if decide (Z.of_nat fd < n) then
      Some (clear_above (maxfd el) fd (default no_event (events el !! fd))) else None).
  { intros fd. unfold evs. rewrite list_lookup_imap, Hl. by case_decide. }
  assert (Hsame : forall fd, Z.of_nat fd <= maxfd el -> evs !! fd = events el !! fd).
  { intros fd Hfd. rewrite He. case_decide; [| lia]. unfold clear_above. destruct (Z.leb_spec (Z.of_nat fd) (maxfd el)); [| lia].
    destruct (lookup_lt_is_Some_2 (events el) fd) as [fe E]; [unfold zlen in *; lia |]. by rewrite E. }
  assert (Hm : forall fd fe, evs !! fd = Some fe -> Z.of_nat fd < n /\
    (events el !! fd = Some fe /\ Z.of_nat fd <= maxfd el \/ fmask fe = 0 /\ maxfd el < Z.of_nat fd)).
  { intros fd fe. rewrite He. case_decide as Hlt; [| done]. intros [= <-]. split; [done |]. unfold clear_above.
    destruct (Z.leb_spec (Z.of_nat fd) (maxfd el)); [left | by right].
    destruct (lookup_lt_is_Some_2 (events el) fd) as [fe E]; [unfold zlen in *; lia |]. by rewrite E. }
  assert (Htop : forall fd, api_watched (kernel el) fd <> 0 -> fd <= maxfd el).
  { intros fd Hw. destruct (ok_range el fd I Hw) as [Hg0 Hs].
    destruct (lookup_lt_is_Some_2 (events el) (Z.to_nat fd)) as [fe Efe]; [unfold zlen in *; lia |].
    destruct (Z.le_gt_cases fd (maxfd el)) as [| Hgt]; [done |].
    rewrite (ok_watched el fd fe I Hg0 Efe) in Hw. destruct Hw. apply (ok_max_top _ I _ _ Efe). lia. }
  split; [| split; [done |]; split; [done |]; split; [done |]; split; [| exact Hsame]].
  - split; cbn [maxfd setsize events kernel].
    + unfold zlen, evs. rewrite length_imap. lia.
    + intros fd fe [_ [[E _] | [-> _]]]%Hm; [by apply (ok_mask _ I _ _ E) | lia].
    + intros fd fe [_ [[E _] | [-> Hfd]]]%Hm; [by apply (ok_kernel _ I) |].
      destruct (Z.eq_dec (api_watched (kernel el) (Z.of_nat fd)) 0) as [| Hw]; [done |]. apply Htop in Hw. lia.
    + destruct (api_resize_spec (kernel el) (setsize el) n (ok_api _ I) Hn Hroom) as [Hr | W]; [| done | exact W].
      intros fd Hw%Htop. lia.
    + lia.
    + intros Hp. destruct (ok_max_used _ I Hp) as (fe & E & Hfe). exists fe. by rewrite Hsame by lia.
    + intros fd fe [_ [[E Hfd] | [-> _]]]%Hm; [lia | done].
  - intros fd. unfold fd_mask. cbn [events]. destruct (Z.le_gt_cases (Z.of_nat (Z.to_nat fd)) (maxfd el)) as [Hle | Hgt]; [by rewrite Hsame |].
    destruct (evs !! Z.to_nat fd) as [fe |] eqn:E, (events el !! Z.to_nat fd) as [fe' |] eqn:E'; try done;
      try (destruct (Hm _ _ E) as [_ [[_ ?] | [-> _]]]; [lia |]); try rewrite (ok_max_top _ I _ _ E' Hgt); done.
Qed.

(** Polling reports what the kernel says of the watched events. *)
Lemma aeApiPoll_spec el a r :
  ae_ok el -> api_answers (kernel el) (setsize el) a r ->
  exists fired el', aeApiPoll el a = Ok (fired, el') /\ ae_ok el' /\ events el' = events el /\
    Forall (fun e => 0 <= e.1 < setsize el) fired /\
    forall fd, 0 <= fd -> Z.land (fd_mask el fd) (fired_bits fired fd) = Z.land (fd_mask el fd) (r fd).
Proof.
  intros I Ha. pose proof (ok_len _ I) as Hlen. pose proof (ok_max _ I) as Hmax.
  assert (Hm : forall fd, 0 <= fd -> fd_mask el fd = api_watched (kernel el) fd).
  { intros fd Hfd. unfold fd_mask. destruct (events el !! Z.to_nat fd) as [fe |] eqn:E; [by rewrite (ok_watched el fd fe) |].
    destruct (Z.eq_dec (api_watched (kernel el) fd) 0) as [| Hw]; [done |].
    apply (ok_range el fd I) in Hw. apply lookup_ge_None_1 in E. unfold zlen in Hlen. lia. }
  assert (Htop : forall fd, maxfd el < fd -> api_watched (kernel el) fd = 0).
  { intros fd Hfd. destruct (Z.eq_dec (api_watched (kernel el) fd) 0) as [| Hw]; [done |].
    apply (ok_range el fd I) in Hw as Hr. destruct (aget_is_Ok (events el) fd) as (fe & E & _); [lia |].
    rewrite (ok_watched el fd fe) by (done || lia). apply (ok_max_top _ I _ _ E). lia. }
  destruct (api_poll_spec (kernel el) (setsize el) (event_mask el) (maxfd el) a r (ok_api _ I) Hmax)
    as (fired & k & E & W & Hk & Hf & Hr & Hb); [| exact Htop | exact Ha |].
  { intros fd Hfd. destruct (aget_is_Ok (events el) fd) as (fe & Hfe & _); [lia |].
    rewrite (event_mask_Ok el fd fe), (ok_watched el fd fe) by (done || lia). done. }
  exists fired, (set_kernel el k). unfold aeApiPoll. rewrite E, bind_Ok, Z.gtb_ltb.
  destruct (Z.ltb_spec (setsize el) (zlen fired)); [lia |].
  split; [done |]. split; [by apply set_kernel_ok |]. split; [done |]. split; [done |].
  intros fd Hfd. rewrite Hm by done. apply Hb.
Qed.

(** What [ae_ok] says of the table. *)
Lemma ae_ok_table el : ae_ok el ->
  (forall fd, 0 <= fd < setsize el -> api_watched (kernel el) fd = fd_mask el fd) /\
  (forall fd, 0 <= fd -> fd_mask el fd <> AE_NONE -> fd <= maxfd el) /\
  (0 <= maxfd el -> fd_mask el (maxfd el) <> AE_NONE).
Proof.
  intros I. unfold fd_mask. split; [| split].
  - intros fd Hfd. destruct (aget_is_Ok (events el) fd) as (fe & Hl & _); [by rewrite (ok_len _ I) |].
    rewrite Hl. apply (ok_watched el fd fe I); [lia | done].
  - intros fd Hfd Hm. destruct (events el !! Z.to_nat fd) as [fe |] eqn:Hl; [| done].
    destruct (Z.le_gt_cases fd (maxfd el)) as [| Hgt]; [done |].
    exfalso. apply Hm. apply (ok_max_top _ I _ _ Hl). lia.
  - intros Hp. destruct (ok_max_used _ I Hp) as (fe & Hl & Hm). by rewrite Hl.
Qed.
End file_events.

(** ** Time events *)

(** A point in time in milliseconds. *)
Definition ms_of (t : Z * Z) : Z := t.1 * 1000 + t.2.
Definition when_of {P D} (te : aeTimeEvent P D) : Z := ms_of (when_sec te, when_ms te).
Definition norm (t : Z * Z) : Prop := 0 <= t.2 < 1000.

Lemma add_ms_later now ms :
  norm now -> 0 < ms ->
  norm (aeAddMillisecondsToNow now ms) /\ ms_of (aeAddMillisecondsToNow now ms) = ms_of now + ms.
Proof.
  intros Hn Hm. unfold norm, ms_of, aeAddMillisecondsToNow in *. rewrite Z.geb_leb.
  pose proof (Z.quot_rem' ms 1000). pose proof (Z.rem_bound_pos ms 1000 ltac:(lia) ltac:(lia)).
  destruct (Z.leb_spec 1000 (now.2 + Z.rem ms 1000)); cbn [fst snd]; lia.
Qed.

Lemma due_spec {P D} now (te : aeTimeEvent P D) :
  norm now -> norm (when_sec te, when_ms te) -> due now te = (when_of te <=? ms_of now).
Proof.
  unfold norm, due, when_of, ms_of. cbn [fst snd]. intros Hn Hw. rewrite Z.gtb_ltb, Z.geb_leb.
  destruct (Z.ltb_spec (when_sec te) now.1), (Z.eqb_spec now.1 (when_sec te)),
    (Z.leb_spec (when_ms te) now.2),
    (Z.leb_spec (when_sec te * 1000 + when_ms te) (now.1 * 1000 + now.2)); cbn; try done; lia.
Qed.

Section time_loop.
  Context {P D K S : Type} `{EqDecision P}.
  Variables (get : S -> aeEventLoop P D K) (put : aeEventLoop P D K -> S -> S).
  Variable tcall : aeTimeEvent P D -> S -> outcome (Z * S).
  Variable fcall : P -> option D -> S -> outcome S.
  Variable now : Z * Z.
  Hypothesis get_put : forall el s, get (put el s) = el.
  (** callbacks leave the event loop alone and ask to be called again later, if at all *)
  Hypothesis tcall_ok : forall te s, exists r s', tcall te s = Ok (r, s') /\ get s' = get s /\
    (r = AE_NOMORE \/ 0 < r).
  Hypothesis fcall_ok : forall p d s, exists s', fcall p d s = Ok s' /\ get s' = get s.
  Hypothesis now_norm : norm now.

Definition idle (maxId : Z) (te : aeTimeEvent P D) : bool := (te_id te >? maxId) || negb (due now te).

Definition busy (maxId : Z) (l : list (aeTimeEvent P D)) : nat :=
  length (filter (fun te => idle maxId te = false) l).

Lemma id_in_middle pre (te : aeTimeEvent P D) l : te_id te ∈ te_id <$> pre ++ te :: l.
Proof. rewrite fmap_app. apply elem_of_app. right. left. Qed.

Lemma remove_time_app pre (te : aeTimeEvent P D) l :
  NoDup (te_id <$> pre ++ te :: l) -> remove_time (te_id te) (pre ++ te :: l) = Some (te, pre ++ l).
Proof.
  induction pre as [| x pre IH]; intros Hn; simpl.
  - by rewrite Z.eqb_refl.
  - apply NoDup_cons in Hn as [Hx Hn]. destruct (Z.eqb_spec (te_id x) (te_id te)) as [E |].
    + exfalso. apply Hx. rewrite E. apply id_in_middle.
    + by rewrite IH.
Qed.

Lemma set_when_app pre (te : aeTimeEvent P D) l w :
  NoDup (te_id <$> pre ++ te :: l) ->
  set_when (te_id te) w (pre ++ te :: l) =
    Some (pre ++ TimeEvent (te_id te) w.1 w.2 (timeProc te) (finalizerProc te) (te_data te) :: l).
Proof.
  induction pre as [| x pre IH]; intros Hn; simpl.
  - by rewrite Z.eqb_refl.
  - apply NoDup_cons in Hn as [Hx Hn]. destruct (Z.eqb_spec (te_id x) (te_id te)) as [E |].
    + exfalso. apply Hx. rewrite E. apply id_in_middle.
    + by rewrite IH.
Qed.

Lemma delete_time_app pre te l s :
  timeEvents (get s) = pre ++ te :: l -> NoDup (te_id <$> pre ++ te :: l) ->
  exists s', delete_time get put fcall (te_id te) s = Ok s' /\ timeEvents (get s') = pre ++ l.
Proof.
  intros E Hn. unfold delete_time, aeDeleteTimeEvent. rewrite E, remove_time_app by done.
  destruct (finalizerProc te) as [p |].
  - destruct (fcall_ok p (te_data te)
      (put (set_times (get s) (timeEventNextId (get s)) (lastTime (get s)) (pre ++ l)) s))
      as (s' & Ef & Eg). exists s'. rewrite Ef, Eg, get_put. done.
  - eexists. split; [reflexivity |]. by rewrite get_put.
Qed.

Lemma busy_app maxId l1 l2 : busy maxId (l1 ++ l2) = (busy maxId l1 + busy maxId l2)%nat.
Proof. unfold busy. by rewrite filter_app, length_app. Qed.

Lemma busy_cons maxId te l :
  busy maxId (te :: l) = ((if idle maxId te then 0 else 1) + busy maxId l)%nat.
Proof. unfold busy. rewrite filter_cons. by destruct (idle maxId te). Qed.

Lemma reschedule_idle maxId te r :
  0 < r -> idle maxId (TimeEvent (te_id te) (aeAddMillisecondsToNow now r).1
    (aeAddMillisecondsToNow now r).2 (timeProc te) (finalizerProc te) (te_data te)) = true.
Proof.
  intros Hr. unfold idle. destruct (add_ms_later now r now_norm Hr) as [N E].
  rewrite due_spec; [| done | by rewrite (surjective_pairing (aeAddMillisecondsToNow now r)) in N].
  unfold when_of. cbn [when_sec when_ms te_id]. rewrite <- surjective_pairing, E.
  destruct (Z.leb_spec (ms_of now + r) (ms_of now)); [lia | by rewrite orb_true_r].
Qed.

Lemma time_loop_done maxId N fuel n pre l m s :
  timeEvents (get s) = pre ++ l -> NoDup (te_id <$> pre ++ l) ->
  Forall (fun te => idle maxId te = true) pre -> (length (pre ++ l) <= N)%nat ->
  (length l + busy maxId (pre ++ l) * Datatypes.S N < fuel)%nat ->
  exists m' n' s', time_loop get put tcall fcall (fun _ => now) fuel n maxId l m s = Ok (m', n', s') /\
    Forall (fun te => idle maxId te = true) (timeEvents (get s')).
Proof.
  revert n pre l m s. induction fuel as [| fuel IH]; intros n pre l m s E Hn Hp HN Hf; [lia |].
  destruct l as [| te l]; cbn [time_loop].
  { exists m, n, s. split; [done |]. by rewrite E, app_nil_r. }
  assert (Hgo : idle maxId te = true -> forall n0, exists m' n' s',
    time_loop get put tcall fcall (fun _ => now) fuel n0 maxId l m s = Ok (m', n', s') /\
    Forall (fun te => idle maxId te = true) (timeEvents (get s'))).
  { intros Hi n0. apply (IH n0 (pre ++ [te])); rewrite <- ?app_assoc; try done.
    - apply Forall_app. auto.
    - simpl in Hf |- *. lia. }
  unfold idle in Hgo. destruct (te_id te >? maxId) eqn:Ei; [by apply Hgo |].
  destruct (due now te) eqn:Ed; [| by apply Hgo]. clear Hgo.
  assert (Eb : busy maxId (pre ++ te :: l) = Datatypes.S (busy maxId (pre ++ l))).
  { rewrite !busy_app, busy_cons. unfold idle at 1. rewrite Ei, Ed. simpl. lia. }
  rewrite Eb in Hf. rewrite length_app in HN. cbn [length] in HN, Hf.
  destruct (tcall_ok te s) as (r & s1 & Et & Eg & Hr). rewrite Et, bind_Ok. cbn [fst snd].
  rewrite Eg, E. destruct Hr as [-> | Hr].
  - rewrite Z.eqb_refl. cbn [negb].
    destruct (delete_time_app pre te l s1) as (s2 & Ex & E2); [by rewrite Eg | done |].
    rewrite Ex, bind_Ok, E2. apply (IH _ []); try done.
    + cbn [app]. rewrite fmap_app in *. apply NoDup_app in Hn as (N1 & N2 & N3).
      apply NoDup_cons in N3 as [N3 N4]. apply NoDup_app. split; [done |]. split; [| done].
      intros x Hx Hl. apply (N2 x Hx). by right.
    + cbn [app]. rewrite length_app. lia.
    + cbn [app]. rewrite length_app. lia.
  - destruct (Z.eqb_spec r AE_NOMORE) as [-> | _]; [unfold AE_NOMORE in Hr; lia |]. cbn [negb].
    rewrite set_when_app by done. rewrite get_put. cbn [set_times timeEvents].
    apply (IH _ []); try done; rewrite ?get_put; try done; cbn [app].
    + cbn [app]. rewrite fmap_app in *. exact Hn.
    + rewrite length_app. simpl. lia.
    + rewrite busy_app, busy_cons, reschedule_idle by done. rewrite busy_app in Hf.
      rewrite length_app. simpl. lia.
Qed.
End time_loop.

(** ** Nearest timer *)
Section nearest.
  Context {P D : Type}.
  Implicit Types te : aeTimeEvent P D.

Lemma earlier_spec te te' :
  norm (when_sec te, when_ms te) -> norm (when_sec te', when_ms te') ->
  earlier te te' = (when_of te <? when_of te').
Proof.
  unfold norm, earlier, when_of, ms_of. cbn [fst snd]. intros.
  destruct (Z.ltb_spec (when_sec te) (when_sec te')), (Z.eqb_spec (when_sec te) (when_sec te')),
    (Z.ltb_spec (when_ms te) (when_ms te')),
    (Z.ltb_spec (when_sec te * 1000 + when_ms te) (when_sec te' * 1000 + when_ms te'));
    cbn; try done; lia.
Qed.

Lemma nearest_fold l te0 :
  norm (when_sec te0, when_ms te0) -> Forall (fun te => norm (when_sec te, when_ms te)) l ->
  exists te, foldl (fun nearest te => match nearest with
      | None => Some te | Some n => if earlier te n then Some te else Some n end) (Some te0) l = Some te /\
    (te = te0 \/ te ∈ l) /\ when_of te <= when_of te0 /\ Forall (fun x => when_of te <= when_of x) l.
Proof.
  intros H0 Hl. revert te0 H0. induction Hl as [| x l Hx Hl IH]; intros te0 H0; simpl.
  - exists te0. split; [done |]. split; [by left |]. split; [lia | constructor].
  - rewrite earlier_spec by done. destruct (Z.ltb_spec (when_of x) (when_of te0)).
    + destruct (IH x Hx) as (te & E & M & B & F). exists te. split; [done |].
      split; [destruct M as [-> | M]; right; [by left | by right] |]. split; [lia |].
      constructor; [lia | done].
    + destruct (IH te0 H0) as (te & E & M & B & F). exists te. split; [done |].
      split; [destruct M as [-> | M]; [by left | right; by right] |]. split; [lia |].
      constructor; [lia | done].
Qed.
End nearest.

(** ** Properties *)

(** Sequences of registrations and removals. *)
Inductive file_op {P D : Type} :=
  | FCreate (fd mask : Z) (p : P) (d : option D)
  | FDelete (fd mask : Z)
  | FResize (n : Z).
Arguments file_op : clear implicits.

Definition valid_op {P D} K `{AeApi K} (o : file_op P D) : Prop :=
  match o with
  | FCreate fd mask _ _ => 0 <= fd /\ api_masks mask
  | FDelete fd mask => 0 <= fd /\ 0 < mask < 4
  | FResize n => 0 < n /\ api_room n
  end.

Fixpoint run_file_ops {P D K} `{AeApi K} (os : list (file_op P D)) (el : aeEventLoop P D K)
    : outcome (aeEventLoop P D K) :=
  match os with
  | [] => mret el
  | FCreate fd mask p d :: os => r ← aeCreateFileEvent el fd mask p d; run_file_ops os r.2
  | FDelete fd mask :: os => el ← aeDeleteFileEvent el fd mask; run_file_ops os el
  | FResize n :: os => run_file_ops os (aeResizeSetSize el n).2
  end.

Lemma run_file_ops_ok {P D K} `{EqDecision P} `{AeApiLaws K} os (el : aeEventLoop P D K) :
  ae_ok el -> Forall (valid_op K) os -> exists el', run_file_ops os el = Ok el' /\ ae_ok el'.
Proof.
  intros I Hv. revert el I. induction Hv as [| o os Ho _ IH]; intros el I; [by exists el |].
  destruct o as [fd mask p d | fd mask | n]; destruct Ho as [Hf Hm]; simpl.
  - destruct (aeCreateFileEvent_cases el fd mask p d I Hf Hm) as (r & el1 & E & I1 & _).
    rewrite E. by apply IH.
  - destruct (aeDeleteFileEvent_cases el fd mask I Hf Hm) as (el1 & E & I1 & _).
    rewrite E. by apply IH.
  - destruct (aeResizeSetSize_cases el n I Hf Hm) as (el1 & E & I1 & _). rewrite E. by apply IH.
Qed.

(** All back ends report the same.  Take two loops, each on a back end of its
    own, with the same masks in their tables; if the two kernels show the same
    descriptors to be ready, the two polls fit in [fired], keep the loops well
    formed, and report the same registered events. *)
Lemma polls_agree {P1 D1 K1 P2 D2 K2} `{AeApiLaws K1} `{AeApiLaws K2}
    (el1 : aeEventLoop P1 D1 K1) (el2 : aeEventLoop P2 D2 K2) a1 a2 r :
  ae_ok el1 -> ae_ok el2 -> (forall fd, fd_mask el1 fd = fd_mask el2 fd) ->
  api_answers (kernel el1) (setsize el1) a1 r -> api_answers (kernel el2) (setsize el2) a2 r ->
  exists f1 el1' f2 el2', aeApiPoll el1 a1 = Ok (f1, el1') /\ aeApiPoll el2 a2 = Ok (f2, el2') /\
    ae_ok el1' /\ ae_ok el2' /\ (forall fd, fd_mask el1' fd = fd_mask el2' fd) /\
    forall fd, 0 <= fd ->
      Z.land (fd_mask el1 fd) (fired_bits f1 fd) = Z.land (fd_mask el2 fd) (fired_bits f2 fd).
Proof.
  intros I1 I2 Hm A1 A2.
  destruct (aeApiPoll_spec el1 a1 r I1 A1) as (f1 & el1' & E1 & I1' & V1 & _ & B1).
  destruct (aeApiPoll_spec el2 a2 r I2 A2) as (f2 & el2' & E2 & I2' & V2 & _ & B2).
  exists f1, el1', f2, el2'. split; [done |]. split; [done |]. split; [done |]. split; [done |]. split.
  - intros fd. specialize (Hm fd). unfold fd_mask in *. by rewrite V1, V2.
  - intros fd Hfd. rewrite B1, B2 by done. by rewrite Hm.
Qed.

(** [aeSearchNearestTimer] returns a registered event that no other precedes. *)
Lemma aeSearchNearestTimer_least {P D K} (el : aeEventLoop P D K) :
  Forall (fun te => norm (when_sec te, when_ms te)) (timeEvents el) ->
  match aeSearchNearestTimer el with
  | Some te => te ∈ timeEvents el /\ Forall (fun x => when_of te <= when_of x) (timeEvents el)
  | None => timeEvents el = []
  end.
Proof.
  intros Hn. unfold aeSearchNearestTimer. destruct Hn as [| x l Hx Hl]; [done |]. simpl.
  destruct (nearest_fold l x Hx Hl) as (te & E & M & B & F). rewrite E. split.
  - destruct M as [-> | M]; [by left | by right].
  - by constructor.
Qed.

Definition three_timers : aeEventLoop Z Z unit :=
  EventLoop (-1) 16 3 0 [] [TimeEvent 2 10 500 0 None None; TimeEvent 1 10 20 0 None None;
    TimeEvent 0 11 0 0 None None] false tt.

Lemma aeSearchNearestTimer_least_witness :
  aeSearchNearestTimer three_timers = Some (TimeEvent 1 10 20 0 None None) /\
  Forall (fun x => 10020 <= when_of x) (timeEvents three_timers).
Proof.
  split; [reflexivity |].
  apply (aeSearchNearestTimer_least three_timers). repeat constructor; vm_compute; congruence.
Defined.

(** The timeout the loop sleeps for.  For a nearest timer [d] milliseconds
    away it is [d / 1000] seconds, but not less than 0, and [d mod 1000]
    milliseconds: exact for a timer that is not due yet, but up to 999 ms for
    one that is overdue, because the negative seconds are cut to 0 after a
    second has been borrowed for the microseconds. *)
Theorem poll_timeout_exact {P D} now (te : aeTimeEvent P D) :
  norm now -> norm (when_sec te, when_ms te) ->
  let d := when_of te - ms_of now in
  time_to now te = (Z.max 0 (d / 1000), d mod 1000 * 1000).
Proof.
  unfold norm, time_to, when_of, ms_of. cbn [fst snd]. intros Hn Hw.
  set (d := when_sec te * 1000 + when_ms te - (now.1 * 1000 + now.2)).
  assert (Hd : forall q r, 0 <= r < 1000 -> d = 1000 * q + r -> d / 1000 = q /\ d mod 1000 = r).
  { intros q r Hr Hq. split; [symmetry; apply (Z.div_unique d 1000 q r) | symmetry; apply (Z.mod_unique d 1000 q r)]; lia. }
  destruct (Z.ltb_spec (when_ms te) now.2).
  - destruct (Hd (when_sec te - now.1 - 1) (when_ms te + 1000 - now.2)) as [-> ->]; [lia | unfold d; lia |].
    destruct (Z.ltb_spec ((when_ms te + 1000 - now.2) * 1000) 0); [lia |].
    destruct (Z.ltb_spec (when_sec te - now.1 - 1) 0); f_equal; lia.
  - destruct (Hd (when_sec te - now.1) (when_ms te - now.2)) as [-> ->]; [lia | unfold d; lia |].
    destruct (Z.ltb_spec ((when_ms te - now.2) * 1000) 0); [lia |].
    destruct (Z.ltb_spec (when_sec te - now.1) 0); f_equal; lia.
Qed.

Lemma poll_timeout_exact_witness :
  time_to (10, 600) (TimeEvent 0 10 500 0 None None : aeTimeEvent Z Z) = (0, 900000).
Proof. apply (poll_timeout_exact (10, 600)); vm_compute; split; congruence. Defined.

(** C24: a pass over the time events, during which the clock stands still and the
    callbacks leave the loop's timers alone and ask for either no repetition or a
    positive delay, ends; and of the events registered before the pass began it
    leaves none due.  (With a delay that is not positive it need not end:
    [timer_negative_period_loops].) *)
Theorem processTimeEvents_serves_due {P D K S} `{EqDecision P}
    (get : S -> aeEventLoop P D K) put tcall fcall now t s :
  (forall el s, get (put el s) = el) ->
  (forall te s, exists r s', tcall te s = Ok (r, s') /\ get s' = get s /\ (r = AE_NOMORE \/ 0 < r)) ->
  (forall p d s, exists s', fcall p d s = Ok s' /\ get s' = get s) ->
  norm now -> NoDup (te_id <$> timeEvents (get s)) ->
  exists fuel m n s', processTimeEvents get put tcall fcall (fun _ => now) fuel 0 t s = Ok (m, n, s') /\
    Forall (fun te => te_id te < timeEventNextId (get s) -> due now te = false) (timeEvents (get s')).
Proof.
  intros GP Ht Hf Hn Hu. unfold processTimeEvents.
  set (l := if t <? lastTime (get s) then force_due <$> timeEvents (get s) else timeEvents (get s)).
  set (s1 := put _ s). set (maxId := timeEventNextId (get s) - 1).
  assert (Hl : te_id <$> l = te_id <$> timeEvents (get s)).
  { unfold l. destruct (t <? lastTime (get s)); [| done]. rewrite <- list_fmap_compose. done. }
  assert (E1 : timeEvents (get s1) = [] ++ l) by (unfold s1; by rewrite GP).
  destruct (time_loop_done get put tcall fcall now GP Ht Hf Hn maxId (length l)
    (Datatypes.S (length l + busy now maxId l * Datatypes.S (length l))) 0 [] l 0 s1 E1)
    as (m & n & s' & E & F); [by rewrite app_nil_l, Hl | constructor | done | cbn [app]; lia |].
  eexists _, m, n, s'. split; [exact E |].
  eapply Forall_impl; [exact F |]. intros te Hi Hid. unfold idle in Hi.
  apply orb_true_iff in Hi as [Hi | Hi]; [| by apply negb_true_iff].
  rewrite Z.gtb_ltb in Hi. apply Z.ltb_lt in Hi. unfold maxId in Hi. lia.
Qed.

(** Callbacks that repeat event 2 every 50 ms and nothing else. *)
Definition repeat2 (te : aeTimeEvent Z Z) (s : aeEventLoop Z Z unit)
    : outcome (Z * aeEventLoop Z Z unit) :=
  Ok (if te_id te =? 2 then 50 else AE_NOMORE, s).

Lemma processTimeEvents_serves_due_witness :
  exists fuel m n s', processTimeEvents (fun el => el) (fun el _ => el) repeat2 (fun _ _ s => Ok s)
      (fun _ => (10, 700)) fuel 0 10 three_timers = Ok (m, n, s') /\
    Forall (fun te => te_id te < 3 -> due (10, 700) te = false) (timeEvents s').
Proof.
  apply (processTimeEvents_serves_due (fun el => el) (fun el _ => el) repeat2 (fun _ _ s => Ok s)
    (10, 700) 10 three_timers).
  - reflexivity.
  - intros te s. eexists _, s. split; [reflexivity |]. split; [reflexivity |].
    destruct (te_id te =? 2); [right; reflexivity | left; reflexivity].
  - intros p d s. exists s. split; reflexivity.
  - split; vm_compute; congruence.
  - change (NoDup [2; 1; 0]). apply (bool_decide_unpack _). vm_compute. exact I.
Defined.
