(* ===== verification/AeEpoll.v ===== *)
(** * ae_epoll.c: the back end on Linux

    The kernel's epoll set is outside the program: [Epoll] states what the back
    end relies on, and [map_epoll] is a model of it. *)
From S2P Require Import Prelude Ae.

Definition EPOLLIN : Z := 1.
Definition EPOLLOUT : Z := 4.
Definition EPOLLERR : Z := 8.
Definition EPOLLHUP : Z := 16.

Inductive epoll_op := EPOLL_CTL_ADD | EPOLL_CTL_MOD | EPOLL_CTL_DEL.

(** ** The kernel's side: epoll_ctl(2) *)
Class Epoll (K : Type) := {
  interest : K -> gmap Z Z;
  epoll_ctl : K -> epoll_op -> Z -> Z -> Z * K;
}.

Class EpollLaws (K : Type) `{Epoll K} : Prop := {
  (** a failing call changes nothing *)
  ctl_fail k op fd ev : (epoll_ctl k op fd ev).1 <> 0 ->
    (epoll_ctl k op fd ev).1 = -1 /\ (epoll_ctl k op fd ev).2 = k;
  (** EEXIST and ENOENT *)
  ctl_add k fd ev : (epoll_ctl k EPOLL_CTL_ADD fd ev).1 = 0 ->
    interest k !! fd = None /\ interest (epoll_ctl k EPOLL_CTL_ADD fd ev).2 = <[fd := ev]> (interest k);
  ctl_mod k fd ev : (epoll_ctl k EPOLL_CTL_MOD fd ev).1 = 0 ->
    is_Some (interest k !! fd) /\ interest (epoll_ctl k EPOLL_CTL_MOD fd ev).2 = <[fd := ev]> (interest k);
  ctl_del k fd ev : (epoll_ctl k EPOLL_CTL_DEL fd ev).1 = 0 ->
    is_Some (interest k !! fd) /\ interest (epoll_ctl k EPOLL_CTL_DEL fd ev).2 = delete fd (interest k);
  (** a registered descriptor can be modified and removed *)
  ctl_registered k op fd ev : is_Some (interest k !! fd) -> op <> EPOLL_CTL_ADD ->
    (epoll_ctl k op fd ev).1 = 0;
}.

(** ** The functions of the back end *)
Section AeEpoll.
  Context {K : Type} `{Epoll K}.

Definition epoll_events (mask : Z) : Z :=
  Z.lor (if has mask AE_READABLE then EPOLLIN else 0) (if has mask AE_WRITABLE then EPOLLOUT else 0).

Definition aeApiAddEvent (k : K) (cur fd mask : Z) : outcome (Z * K) :=
  let op := if cur =? AE_NONE then EPOLL_CTL_ADD else EPOLL_CTL_MOD in
  let mask := Z.lor mask cur in
  let r := epoll_ctl k op fd (epoll_events mask) in
  mret (if r.1 =? -1 then -1 else 0, r.2).

Definition aeApiDelEvent (k : K) (cur fd delmask : Z) : outcome K :=
  let mask := Z.land cur (Z.lnot delmask) in
  let op := if negb (mask =? AE_NONE) then EPOLL_CTL_MOD else EPOLL_CTL_DEL in
  mret (epoll_ctl k op fd (epoll_events mask)).2.

(** [zrealloc] of the array for [epoll_wait]. *)
Definition aeApiResize (k : K) (n : Z) : Z := 0.

(** The mask [aeApiPoll] makes of the events epoll reports. *)
Definition fired_mask (e : Z) : Z :=
  Z.lor (if has e EPOLLIN then AE_READABLE else 0)
    (if has e EPOLLOUT || has e EPOLLERR || has e EPOLLHUP then AE_WRITABLE else 0).

(** [es] are the descriptors and events [epoll_wait] has stored, none if it
    returned 0 or -1. *)
Definition aeApiPoll (k : K) (cur : Z -> outcome Z) (maxfd : Z) (es : list (Z * Z))
    : outcome (list (Z * Z) * K) :=
  mret ((fun e => (e.1, fired_mask e.2)) <$> es, k).

(** ** What it watches *)
Definition epoll_watched (k : K) (fd : Z) : Z :=
  match interest k !! fd with
  | Some ev => from_bits (has ev EPOLLIN) (has ev EPOLLOUT)
  | None => AE_NONE
  end.

Definition epoll_wf (k : K) (n : Z) : Prop :=
  forall fd ev, interest k !! fd = Some ev -> 0 <= fd < n /\ exists m, 0 < m < 4 /\ ev = epoll_events m.

(** epoll_wait(2): registered descriptors, each once and at most as many as asked
    for, with the events that are ready; an error or a hang-up counts as ready
    for writing; a descriptor that is not listed is not ready for what it is
    registered for. *)
Record epoll_answers (k : K) (n : Z) (es : list (Z * Z)) (r : Z -> Z) : Prop := {
  ea_fits : zlen es <= n;
  ea_once : NoDup es.*1;
  ea_registered : Forall (fun e => is_Some (interest k !! e.1)) es;
  ea_ready fd ev : (fd, ev) ∈ es ->
    has (r fd) AE_READABLE = has ev EPOLLIN /\
    has (r fd) AE_WRITABLE = has ev EPOLLOUT || has ev EPOLLERR || has ev EPOLLHUP;
  ea_not_ready fd : (fd ∉ es.*1) -> Z.land (epoll_watched k fd) (r fd) = 0;
}.

#[export] Instance epoll_api : AeApi K := {
  api_answer := list (Z * Z);
  api_add := aeApiAddEvent;
  api_del := aeApiDelEvent;
  api_resize := aeApiResize;
  api_poll := aeApiPoll;
  api_watched := epoll_watched;
  api_wf := epoll_wf;
  api_masks m := 0 < m < 4;
  api_room n := True;
  api_answers := epoll_answers;
}.
End AeEpoll.

(** ** It keeps the promises of [AeApi] *)
Section laws.
  Context {K : Type} `{EpollLaws K}.

Lemma epoll_events_has m : 0 <= m < 4 ->
  from_bits (has (epoll_events m) EPOLLIN) (has (epoll_events m) EPOLLOUT) = m.
Proof. apply (small_cases (fun m => from_bits (has (epoll_events m) EPOLLIN) (has (epoll_events m) EPOLLOUT) = m)); done. Qed.

Lemma epoll_watched_Some k fd m : interest k !! fd = Some (epoll_events m) -> 0 <= m < 4 -> epoll_watched k fd = m.
Proof. intros E Hm. unfold epoll_watched. rewrite E. by apply epoll_events_has. Qed.

Lemma epoll_watched_None k fd : interest k !! fd = None -> epoll_watched k fd = 0.
Proof. intros E. unfold epoll_watched. by rewrite E. Qed.

Lemma epoll_watched_interest k n fd :
  epoll_wf k n -> interest k !! fd = (if epoll_watched k fd =? AE_NONE then None else Some (epoll_events (epoll_watched k fd))) /\
    0 <= epoll_watched k fd < 4.
Proof.
  intros W. destruct (interest k !! fd) as [ev |] eqn:E; [| by rewrite (epoll_watched_None _ _ E)].
  destruct (W _ _ E) as (_ & m & Hm & ->). rewrite (epoll_watched_Some _ _ _ E) by lia.
  unfold AE_NONE. destruct (Z.eqb_spec m 0); [lia |]. split; [done | lia].
Qed.

(** After a successful change of one descriptor. *)
Lemma epoll_insert k k' n fd m :
  epoll_wf k n -> 0 <= fd < n -> 0 < m < 4 -> interest k' = <[fd := epoll_events m]> (interest k) ->
  epoll_wf k' n /\ forall g, epoll_watched k' g = if g =? fd then m else epoll_watched k g.
Proof.
  intros W Hfd Hm E. split.
  - intros g ev. rewrite E, lookup_insert. case_decide as Hg; [| apply W]. intros [= <-]. subst. split; [lia |]. by exists m.
  - intros g. destruct (Z.eqb_spec g fd) as [-> |].
    + apply epoll_watched_Some; [by rewrite E, lookup_insert_eq | lia].
    + unfold epoll_watched. by rewrite E, lookup_insert_ne by done.
Qed.

Lemma epoll_delete k k' n fd :
  epoll_wf k n -> interest k' = delete fd (interest k) ->
  epoll_wf k' n /\ forall g, epoll_watched k' g = if g =? fd then 0 else epoll_watched k g.
Proof.
  intros W E. split.
  - intros g ev. rewrite E, lookup_delete. case_decide; [done | apply W].
  - intros g. destruct (Z.eqb_spec g fd) as [-> |].
    + apply epoll_watched_None. by rewrite E, lookup_delete_eq.
    + unfold epoll_watched. by rewrite E, lookup_delete_ne by done.
Qed.

Lemma epoll_poll_bits es k n r fd :
  epoll_wf k n -> epoll_answers k n es r ->
  Z.land (epoll_watched k fd) (fired_bits ((fun e => (e.1, fired_mask e.2)) <$> es) fd) =
  Z.land (epoll_watched k fd) (r fd).
Proof.
  intros W A. destruct (epoll_watched_interest k n fd W) as [_ Hw].
  set (fired := _ <$> es).
  assert (Hb : forall b, has (fired_bits fired fd) b = true <-> exists ev, (fd, ev) ∈ es /\ has (fired_mask ev) b = true).
  { intros b. rewrite fired_bits_has. split.
    - intros (mask & Hin & Hm). apply list_elem_of_fmap in Hin as ([g ev] & [= -> ->] & Hin). by exists ev.
    - intros (ev & Hin & Hm). exists (fired_mask ev). split; [| done]. by apply (list_elem_of_fmap_2' (fun e => (e.1, fired_mask e.2)) _ (fd, ev)). }
  destruct (decide (fd ∈ es.*1)) as [Hin | Hout].
  - apply list_elem_of_fmap in Hin as ([g ev] & -> & Hin). cbn [fst] in *.
    assert (Hu : forall b, has (fired_bits fired g) b = has (fired_mask ev) b).
    { intros b. apply eq_bool_prop_intro. rewrite !Is_true_true, Hb. split; [| by exists ev].
      intros (ev' & Hin' & Hm). pose proof (ea_once _ _ _ _ A) as ND.
      by rewrite (NoDup_fst_eq es g ev ev' ND Hin Hin'). }
    destruct (ea_ready _ _ _ _ A g ev Hin) as [R1 R2].
    apply land_small_ext; [done | |]; intros _; rewrite Hu, ?R1, ?R2; unfold fired_mask; apply has_from_bits.
  - rewrite (ea_not_ready _ _ _ _ A fd Hout), <- (Z.land_0_r (epoll_watched k fd)).
    apply land_small_ext; [done | |]; intros _; apply not_true_iff_false; rewrite Hb;
      intros (ev & Hin & _); apply Hout; by apply (list_elem_of_fmap_2' fst _ (fd, ev)).
Qed.

#[export] Instance epoll_api_laws : AeApiLaws K.
Proof.
  split; cbn [api_masks api_wf api_watched api_add api_del api_resize api_poll api_answers epoll_api].
  - done.
  - unfold AE_READABLE. lia.
  - unfold AE_WRITABLE. lia.
  - intros k n fd W Hw. destruct (epoll_watched_interest k n fd W) as [E _]. apply Z.eqb_neq in Hw. unfold AE_NONE in E.
    rewrite Hw in E. apply (W _ _ E).
  - intros k n fd mask W Hfd Hm. destruct (epoll_watched_interest k n fd W) as [_ Hw].
    unfold aeApiAddEvent. set (op := if _ =? AE_NONE then _ else _). set (ev := epoll_events _).
    eexists _, _. split; [reflexivity |].
    destruct (Z.eq_dec (epoll_ctl k op fd ev).1 0) as [E | E].
    + assert (Ei : interest (epoll_ctl k op fd ev).2 = <[fd := ev]> (interest k)).
      { unfold op in *. destruct (_ =? AE_NONE); [by apply ctl_add | by apply ctl_mod]. }
      pose proof (lor_nonzero _ _ (proj1 Hm) (proj1 Hw)).
      pose proof (lor_small mask _ ltac:(lia) Hw).
      assert (Hl : 0 < Z.lor mask (epoll_watched k fd) < 4) by lia.
      destruct (epoll_insert k _ n fd _ W Hfd Hl Ei) as [W' F].
      rewrite E. cbn [Z.eqb]. split; [exact W' |]. right. split; [done | exact F].
    + apply ctl_fail in E as [-> ->]. cbn. split; [exact W |]. by left.
  - intros k n fd mask W Hfd Hm Hw. destruct (epoll_watched_interest k n fd W) as [Ei Hr].
    apply Z.eqb_neq in Hw. unfold AE_NONE in Ei. rewrite Hw in Ei. unfold aeApiDelEvent. rewrite clear_clear.
    set (m := Z.land _ _). eexists. split; [reflexivity |].
    pose proof (clear_small _ mask Hr ltac:(lia)) as Hs. fold m in Hs.
    unfold AE_NONE. destruct (Z.eqb_spec m 0) as [Z0 | Z0]; cbn [negb].
    + rewrite Z0. apply epoll_delete; [done |]. apply ctl_del, ctl_registered; [by rewrite Ei | done].
    + apply epoll_insert; [done | done | lia |]. apply ctl_mod, ctl_registered; [by rewrite Ei | done].
  - intros k n n' W Hn _ Ht. right. intros fd ev E. destruct (W _ _ E) as [Hfd Hm]. split; [| done].
    specialize (Ht fd). destruct Hm as (m & Hm & ->). rewrite (epoll_watched_Some _ _ _ E) in Ht by lia. lia.
  - intros k n cur top a r W Htop _ _ A. unfold aeApiPoll. eexists _, k. split; [reflexivity |].
    split; [done |]. split; [done |]. split; [unfold zlen; rewrite length_fmap; apply A |]. split.
    + apply Forall_fmap, (Forall_impl _ _ _ (ea_registered _ _ _ _ A)). intros [g ev] [x Ex]. apply (W _ _ Ex).
    + intros fd. by apply (epoll_poll_bits a k n).
Qed.
End laws.

(** An epoll instance as a finite map, for concrete runs. *)
Definition map_ctl (k : gmap Z Z) (op : epoll_op) (fd ev : Z) : Z * gmap Z Z :=
  match op, k !! fd with
  | EPOLL_CTL_ADD, None => (0, <[fd := ev]> k)
  | EPOLL_CTL_MOD, Some _ => (0, <[fd := ev]> k)
  | EPOLL_CTL_DEL, Some _ => (0, delete fd k)
  | _, _ => (-1, k)
  end.

#[export] Instance map_epoll : Epoll (gmap Z Z) := { interest k := k; epoll_ctl := map_ctl }.

#[export] Instance map_epoll_laws : EpollLaws (gmap Z Z).
Proof.
  split; cbn; unfold map_ctl.
  - intros k [] fd ev; by destruct (k !! fd).
  - intros k fd ev; by destruct (k !! fd).
  - intros k fd ev; by destruct (k !! fd) eqn:E.
  - intros k fd ev; by destruct (k !! fd) eqn:E.
  - intros k op fd ev [x Hx] Ho. rewrite Hx. by destruct op.
Qed.

(** A new epoll instance watches nothing. *)
Lemma epoll_create_ok {P D K} `{Epoll K} sz now k :
  0 <= sz -> interest k = ∅ -> ae_ok (aeCreateEventLoop (P := P) (D := D) sz now k).
Proof.
  intros Hs Hk. apply aeCreateEventLoop_ok; [done | |].
  - intros fd ev. by rewrite Hk, lookup_empty.
  - intros fd. apply epoll_watched_None. by rewrite Hk, lookup_empty.
Qed.

(** ** Properties *)

(** C15: after any sequence of registrations, removals and resizes on a fresh loop
    no array access is out of bounds, the kernel watches exactly the descriptors
    with a non-empty mask, for exactly the events of that mask, and [maxfd] is
    the highest of them. *)
Theorem ae_kernel_in_sync {P D K} `{EqDecision P} `{EpollLaws K} sz now k (os : list (file_op P D)) :
  0 <= sz -> interest k = ∅ -> Forall (valid_op K) os ->
  exists el, run_file_ops os (aeCreateEventLoop sz now k) = Ok el /\
    (forall fd, 0 <= fd < setsize el -> interest (kernel el) !! fd =
       if fd_mask el fd =? AE_NONE then None else Some (epoll_events (fd_mask el fd))) /\
    (forall fd, 0 <= fd -> fd_mask el fd <> AE_NONE -> fd <= maxfd el) /\
    (0 <= maxfd el -> fd_mask el (maxfd el) <> AE_NONE).
Proof.
  intros Hs Hk Hv.
  destruct (run_file_ops_ok os (aeCreateEventLoop sz now k)) as (el & E & I);
    [by apply epoll_create_ok | exact Hv |].
  exists el. split; [done |]. destruct (ae_ok_table el I) as (T & Hmax & Hused). split; [| by split].
  intros fd Hfd. rewrite <- (T fd Hfd). apply (epoll_watched_interest _ (setsize el)), (ok_api _ I).
Qed.

Definition sample_ops : list (file_op Z Z) :=
  [FCreate 5 AE_READABLE 1 None; FCreate 7 3 2 None; FDelete 7 AE_READABLE; FDelete 5 AE_READABLE;
   FCreate 99 1 1 None; FResize 7; FResize 128; FCreate 99 1 1 None; FDelete 99 1; FResize 8].

Lemma ae_kernel_in_sync_witness :
  exists el, run_file_ops sample_ops (aeCreateEventLoop 16 0 (∅ : gmap Z Z)) = Ok el /\
    maxfd el = 7 /\ interest (kernel el) !! 7 = Some EPOLLOUT.
Proof.
  destruct (ae_kernel_in_sync (K := gmap Z Z) 16 0 ∅ sample_ops) as (el & E & S1 & _).
  { lia. }
  { reflexivity. }
  { repeat constructor; vm_compute; congruence. }
  exists el. assert (M : fd_mask el 7 = 2 /\ setsize el = 8 /\ maxfd el = 7).
  { clear S1. revert E. vm_compute. intros [= <-]. repeat split. }
  destruct M as (M & Sz & Mx). split; [exact E |]. split; [exact Mx |].
  rewrite S1, M by (rewrite Sz; lia). reflexivity.
Defined.

