(* ===== verification/AeSelect.v ===== *)
(** * ae_select.c: the back end for any POSIX system

    Two sets of descriptors, which are arrays of [FD_SETSIZE] bits: [FD_SET] with
    a descriptor past the end writes outside of them. *)
From S2P Require Import Prelude Ae.

Definition FD_SETSIZE : Z := 1024.

Record fd_sets := FdSets {
  rfds : list bool;
  wfds : list bool;
}.

(** ** The functions of the back end *)

Definition aeApiCreate : fd_sets :=
  FdSets (replicate (Z.to_nat FD_SETSIZE) false) (replicate (Z.to_nat FD_SETSIZE) false).

Definition aeApiResize (k : fd_sets) (n : Z) : Z := if n >=? FD_SETSIZE then -1 else 0.

(** [if (mask & bit) FD_SET(fd, set)], and [FD_CLR] for [false]. *)
Definition set_if (mask bit fd : Z) (b : bool) (set : list bool) : outcome (list bool) :=
  if has mask bit then aset set fd b else mret set.

Definition aeApiAddEvent (k : fd_sets) (cur fd mask : Z) : outcome (Z * fd_sets) :=
  r ← set_if mask AE_READABLE fd true (rfds k);
  w ← set_if mask AE_WRITABLE fd true (wfds k);
  mret (0, FdSets r w).

Definition aeApiDelEvent (k : fd_sets) (cur fd mask : Z) : outcome fd_sets :=
  r ← set_if mask AE_READABLE fd false (rfds k);
  w ← set_if mask AE_WRITABLE fd false (wfds k);
  mret (FdSets r w).

(** [fe->mask & bit && FD_ISSET(j, set)] *)
Definition isset_if (mask bit fd : Z) (set : list bool) : outcome bool :=
  if has mask bit then aget set fd else mret false.

(** The loop over the descriptors from [j] on, [n] of them. *)
Fixpoint poll_loop (n : nat) (j : Z) (cur : Z -> outcome Z) (rset wset : list bool) : outcome (list (Z * Z)) :=
  match n with
  | O => mret []
  | S n =>
    m ← cur j;
    if m =? AE_NONE then poll_loop n (j + 1) cur rset wset
    else
      r ← isset_if m AE_READABLE j rset;
      w ← isset_if m AE_WRITABLE j wset;
      fired ← poll_loop n (j + 1) cur rset wset;
      mret ((j, from_bits r w) :: fired)
  end.

(** What select(2) returns and leaves in the two copies of the sets. *)
Record select_answer := SelectAnswer {
  sel_ret : Z;
  sel_r : list bool;
  sel_w : list bool;
}.

Definition aeApiPoll (k : fd_sets) (cur : Z -> outcome Z) (maxfd : Z) (a : select_answer)
    : outcome (list (Z * Z) * fd_sets) :=
  fired ← (if sel_ret a >? 0 then poll_loop (Z.to_nat (maxfd + 1)) 0 cur (sel_r a) (sel_w a) else mret []);
  mret (fired, k).

(** ** What it watches *)

Definition isset (set : list bool) (fd : Z) : bool :=
  match aget set fd with Ok b => b | Fault _ => false end.

Definition select_watched (k : fd_sets) (fd : Z) : Z := from_bits (isset (rfds k) fd) (isset (wfds k) fd).

Record select_wf (k : fd_sets) (n : Z) : Prop := {
  sw_r : zlen (rfds k) = FD_SETSIZE;
  sw_w : zlen (wfds k) = FD_SETSIZE;
  sw_room : n <= FD_SETSIZE;
  sw_range fd : select_watched k fd <> 0 -> 0 <= fd < n;
}.

(** select(2): a positive result counts the bits left in the sets, which are
    those of the descriptors that are ready; otherwise nothing is. *)
Record select_answers (k : fd_sets) (n : Z) (a : select_answer) (r : Z -> Z) : Prop := {
  sa_r : zlen (sel_r a) = FD_SETSIZE;
  sa_w : zlen (sel_w a) = FD_SETSIZE;
  sa_ready fd : 0 < sel_ret a -> 0 <= fd < FD_SETSIZE ->
    isset (sel_r a) fd = isset (rfds k) fd && has (r fd) AE_READABLE /\
    isset (sel_w a) fd = isset (wfds k) fd && has (r fd) AE_WRITABLE;
  sa_none fd : sel_ret a <= 0 -> Z.land (select_watched k fd) (r fd) = 0;
}.

#[export] Instance select_api : AeApi fd_sets := {
  api_answer := select_answer;
  api_add := aeApiAddEvent;
  api_del := aeApiDelEvent;
  api_resize := aeApiResize;
  api_poll := aeApiPoll;
  api_watched := select_watched;
  api_wf := select_wf;
  api_masks m := 0 < m < 4;
  api_room n := True;
  api_answers := select_answers;
}.

(** ** It keeps the promises of [AeApi] *)

Lemma isset_aget set fd : 0 <= fd < zlen set -> aget set fd = Ok (isset set fd).
Proof. intros Hfd. unfold isset. by destruct (aget_is_Ok set fd Hfd) as (b & _ & ->). Qed.

Lemma isset_aset set fd b g : 0 <= fd < zlen set ->
  isset (<[Z.to_nat fd := b]> set) g = if g =? fd then b else isset set g.
Proof.
  intros Hfd. unfold isset, aget. destruct (Z.eqb_spec g fd) as [-> |].
  - destruct (Z.leb_spec 0 fd); [| lia]. rewrite list_lookup_insert_eq; [done |]. unfold zlen in Hfd. lia.
  - destruct (Z.leb_spec 0 g); [| done]. by rewrite list_lookup_insert_ne by lia.
Qed.

Lemma set_if_Ok mask bit fd b set : 0 <= fd < zlen set ->
  exists set', set_if mask bit fd b set = Ok set' /\ zlen set' = zlen set /\
    forall g, isset set' g = if (g =? fd) && has mask bit then b else isset set g.
Proof.
  intros Hfd. unfold set_if. destruct (has mask bit).
  - rewrite aset_Ok by done. eexists. split; [done |]. split; [apply zlen_insert |].
    intros g. rewrite isset_aset by done. by rewrite andb_true_r.
  - exists set. split; [done |]. split; [done |]. intros g. by rewrite andb_false_r.
Qed.

(** Both sets change at one descriptor. *)
Lemma select_change k n fd mask b :
  select_wf k n -> 0 <= fd < n ->
  exists k', (r ← set_if mask AE_READABLE fd b (rfds k); w ← set_if mask AE_WRITABLE fd b (wfds k);
      mret (FdSets r w)) = Ok k' /\ select_wf k' n /\
    forall g, select_watched k' g = if g =? fd
      then from_bits (if has mask AE_READABLE then b else isset (rfds k) fd)
             (if has mask AE_WRITABLE then b else isset (wfds k) fd)
      else select_watched k g.
Proof.
  intros [Lr Lw Room Rng] Hfd.
  destruct (set_if_Ok mask AE_READABLE fd b (rfds k)) as (r & Er & Lr' & Hr); [lia |].
  destruct (set_if_Ok mask AE_WRITABLE fd b (wfds k)) as (w & Ew & Lw' & Hw); [lia |].
  rewrite Er, bind_Ok, Ew, bind_Ok. eexists. split; [reflexivity |].
  assert (F : forall g, select_watched (FdSets r w) g = if g =? fd
      then from_bits (if has mask AE_READABLE then b else isset (rfds k) fd)
             (if has mask AE_WRITABLE then b else isset (wfds k) fd)
      else select_watched k g).
  { intros g. unfold select_watched. cbn [rfds wfds]. rewrite Hr, Hw. destruct (Z.eqb_spec g fd) as [-> |]; done. }
  split; [| exact F]. split; cbn [rfds wfds]; [congruence | congruence | done |].
  intros g. rewrite F. destruct (Z.eqb_spec g fd) as [-> |]; [done | apply Rng].
Qed.

Lemma from_bits_lor mask a b : 0 <= mask < 4 ->
  from_bits (if has mask AE_READABLE then true else a) (if has mask AE_WRITABLE then true else b) =
  Z.lor mask (from_bits a b).
Proof.
  apply (small_cases (fun mask => from_bits (if has mask AE_READABLE then true else a)
    (if has mask AE_WRITABLE then true else b) = Z.lor mask (from_bits a b))); by destruct a, b.
Qed.

Lemma from_bits_clear mask a b : 0 <= mask < 4 ->
  from_bits (if has mask AE_READABLE then false else a) (if has mask AE_WRITABLE then false else b) =
  Z.land (from_bits a b) (Z.lnot mask).
Proof.
  apply (small_cases (fun mask => from_bits (if has mask AE_READABLE then false else a)
    (if has mask AE_WRITABLE then false else b) = Z.land (from_bits a b) (Z.lnot mask))); by destruct a, b.
Qed.

Lemma isset_if_Ok m bit j set : 0 <= j < zlen set ->
  isset_if m bit j set = Ok (has m bit && isset set j).
Proof. intros Hj. unfold isset_if. destruct (has m bit); [by apply isset_aget | done]. Qed.

(** What the loop finds from [j] on. *)
Lemma poll_loop_spec n j cur (mask : Z -> Z) rset wset :
  0 <= j -> j + Z.of_nat n <= zlen rset -> j + Z.of_nat n <= zlen wset ->
  (forall fd, j <= fd < j + Z.of_nat n -> cur fd = Ok (mask fd)) ->
  exists fired, poll_loop n j cur rset wset = Ok fired /\ zlen fired <= Z.of_nat n /\
    Forall (fun e => j <= e.1 < j + Z.of_nat n) fired /\
    forall fd, fired_bits fired fd =
      if bool_decide (j <= fd < j + Z.of_nat n) && negb (mask fd =? 0)
      then from_bits (has (mask fd) AE_READABLE && isset rset fd) (has (mask fd) AE_WRITABLE && isset wset fd)
      else 0.
Proof.
  revert j. induction n as [| n IH]; intros j Hj Hr Hw Hc.
  - exists []. split; [done |]. split; [done |]. split; [done |]. intros fd. by rewrite bool_decide_eq_false_2 by lia.
  - destruct (IH (j + 1)) as (fired & E & L & F & B); [lia .. | intros; apply Hc; lia |].
    assert (F' : Forall (fun e => j <= e.1 < j + Z.of_nat (S n)) fired)
      by (eapply Forall_impl; [exact F | intros e ?; cbn beta in *; lia]).
    cbn [poll_loop]. rewrite (Hc j), bind_Ok by lia. unfold AE_NONE. destruct (Z.eqb_spec (mask j) 0) as [Z0 | Z0].
    + exists fired. split; [done |]. split; [lia |]. split; [done |]. intros fd. rewrite B.
      destruct (Z.eq_dec fd j) as [-> | Hne].
      * rewrite bool_decide_eq_false_2 by lia. rewrite bool_decide_eq_true_2 by lia. by rewrite Z0.
      * do 2 case_bool_decide; (done || lia).
    + rewrite !isset_if_Ok, !bind_Ok, E, bind_Ok by lia. eexists. split; [reflexivity |].
      split; [rewrite zlen_cons; lia |]. split; [constructor; [cbn; lia | done] |].
      intros fd. cbn [fired_bits]. rewrite B. destruct (Z.eqb_spec j fd) as [<- | Hne].
      * rewrite bool_decide_eq_false_2 by lia. rewrite bool_decide_eq_true_2 by lia.
        apply Z.eqb_neq in Z0. rewrite Z0. apply Z.lor_0_r.
      * rewrite Z.lor_0_l. do 2 case_bool_decide; (done || lia).
Qed.

Lemma select_poll_bits k n top a r fired fd :
  select_wf k n -> select_answers k n a r -> -1 <= top < n -> 0 < sel_ret a ->
  (forall g, top < g -> select_watched k g = 0) ->
  (forall g, fired_bits fired g =
      if bool_decide (0 <= g < 0 + Z.of_nat (Z.to_nat (top + 1))) && negb (select_watched k g =? 0)
      then from_bits (has (select_watched k g) AE_READABLE && isset (sel_r a) g)
        (has (select_watched k g) AE_WRITABLE && isset (sel_w a) g)
      else 0) ->
  Z.land (select_watched k fd) (fired_bits fired fd) = Z.land (select_watched k fd) (r fd).
Proof.
  intros W A Ht Hp Htop B. rewrite B. destruct (Z.eqb_spec (select_watched k fd) 0) as [-> | Hw]; [by rewrite !Z.land_0_l |].
  pose proof (sw_range _ _ W fd Hw). pose proof (sw_room _ _ W).
  destruct (Z.le_gt_cases fd top) as [Hle | Hgt]; [| by rewrite Htop in Hw].
  rewrite bool_decide_eq_true_2 by lia. cbn [andb negb].
  destruct (sa_ready _ _ _ _ A fd Hp ltac:(lia)) as [R1 R2]. unfold select_watched.
  destruct (has_from_bits (isset (rfds k) fd) (isset (wfds k) fd)) as (H1 & H2 & H3).
  apply land_small_ext; [done | |]; rewrite ?H1, ?H2, R1, R2.
  - intros ->. cbn [andb]. apply has_from_bits.
  - intros ->. cbn [andb]. apply has_from_bits.
Qed.

#[export] Instance select_api_laws : AeApiLaws fd_sets.
Proof.
  split; cbn [api_masks api_wf api_watched api_add api_del api_resize api_poll api_answers select_api].
  - done.
  - unfold AE_READABLE. lia.
  - unfold AE_WRITABLE. lia.
  - intros k n fd W. apply (sw_range _ _ W).
  - intros k n fd mask W Hfd Hm. destruct (select_change k n fd mask true W Hfd) as (k' & E & W' & F).
    exists 0, k'. unfold aeApiAddEvent. split; [| split; [done |]].
    + apply bind_Ok_inv in E as (r & -> & E). apply bind_Ok_inv in E as (w & Ew & [= <-]). by rewrite bind_Ok, Ew.
    + right. split; [done |]. intros g. rewrite F. destruct (g =? fd); [| done]. apply from_bits_lor. lia.
  - intros k n fd mask W Hfd Hm _. destruct (select_change k n fd mask false W Hfd) as (k' & E & W' & F).
    exists k'. split; [exact E |]. split; [done |]. intros g. rewrite F. destruct (g =? fd); [| done]. apply from_bits_clear. lia.
  - intros k n n' [Lr Lw Room Rng] Hn _ Ht. unfold aeApiResize. rewrite Z.geb_leb.
    destruct (Z.leb_spec FD_SETSIZE n') as [| Hlt]; [by left | right]. split; try done; [lia |].
    intros fd Hw. pose proof (Rng fd Hw). pose proof (Ht fd Hw). lia.
  - intros k n cur top a r W Ht Hc Htop A. unfold aeApiPoll. rewrite Z.gtb_ltb.
    pose proof (sw_room _ _ W). pose proof (sa_r _ _ _ _ A). pose proof (sa_w _ _ _ _ A).
    destruct (Z.ltb_spec 0 (sel_ret a)) as [Hp | Hp].
    + destruct (poll_loop_spec (Z.to_nat (top + 1)) 0 cur (select_watched k) (sel_r a) (sel_w a)) as (fired & E & L & F & B);
        [lia | lia | lia | intros fd Hfd; apply Hc; lia |].
      rewrite E, bind_Ok. exists fired, k. split; [done |]. split; [done |]. split; [done |]. split; [lia |]. split.
      * eapply Forall_impl; [exact F |]. intros e ?. cbn beta in *. lia.
      * intros fd. by apply (select_poll_bits k n top a).
    + rewrite bind_Ok. exists [], k. split; [done |]. split; [done |]. split; [done |]. split; [unfold zlen; cbn; lia |].
      split; [done |]. intros fd. cbn [fired_bits]. rewrite (sa_none _ _ _ _ A fd Hp). apply Z.land_0_r.
Qed.

Lemma select_create_wf n : n <= FD_SETSIZE ->
  select_wf aeApiCreate n /\ forall fd, select_watched aeApiCreate fd = 0.
Proof.
  intros Hn. assert (E : forall fd, select_watched aeApiCreate fd = 0).
  { intros fd. unfold select_watched, isset, aget. cbn [aeApiCreate rfds wfds].
    destruct (0 <=? fd); [| done]. destruct (replicate _ false !! _) as [b |] eqn:E; [| done].
    by apply lookup_replicate in E as [-> _]. }
  split; [| done]. split; [by apply zlen_replicate .. | done |]. intros fd. by rewrite E.
Qed.

(** The table of the loop may be larger than the sets: nothing checks the size
    on creation, and registering a descriptor past the sets writes outside of
    them. *)
Lemma select_add_overruns P D (el : aeEventLoop P D fd_sets) fd p d :
  zlen (events el) = setsize el -> zlen (rfds (kernel el)) = FD_SETSIZE -> FD_SETSIZE <= fd < setsize el ->
  aeCreateFileEvent el fd AE_READABLE p d = Fault OutOfBounds.
Proof.
  intros Hl Hr Hfd. unfold aeCreateFileEvent. rewrite Z.geb_leb. destruct (Z.leb_spec (setsize el) fd); [lia |].
  unfold Ae.aeApiAddEvent, event_mask. destruct (aget_is_Ok (events el) fd) as (fe & _ & Efe); [unfold FD_SETSIZE in *; lia |].
  rewrite Efe. cbn [fmap outcome_fmap]. rewrite bind_Ok. cbn [api_add select_api]. unfold aeApiAddEvent, set_if.
  change (has AE_READABLE AE_READABLE) with true. cbn iota. unfold aset.
  destruct (Z.ltb_spec fd (zlen (rfds (kernel el)))); [lia |]. by rewrite andb_false_r.
Qed.
