(* ===== verification/AeKqueue.v ===== *)
(** * ae_kqueue.c: the back end on BSD

    The kernel's queue is outside the program: [Kqueue] states what the back end
    relies on, and [set_kqueue] is a model of it.  A descriptor has a filter for
    each direction, so a mask of both takes two system calls. *)
From S2P Require Import Prelude Ae.

Definition EVFILT_READ : Z := -1.
Definition EVFILT_WRITE : Z := -2.

Inductive ev_flag := EV_ADD | EV_DELETE.

(** ** The kernel's side: kevent(2) with one change and no events *)
Class Kqueue (K : Type) := {
  filters : K -> gset (Z * Z);
  kevent_change : K -> Z -> Z -> ev_flag -> Z * K;
}.

Class KqueueLaws (K : Type) `{Kqueue K} : Prop := {
  kev_fail k fd f a : (kevent_change k fd f a).1 = -1 -> filters (kevent_change k fd f a).2 = filters k;
  kev_add k fd f : (kevent_change k fd f EV_ADD).1 <> -1 ->
    filters (kevent_change k fd f EV_ADD).2 = filters k ∪ {[(fd, f)]};
  kev_delete k fd f : (kevent_change k fd f EV_DELETE).1 <> -1 ->
    filters (kevent_change k fd f EV_DELETE).2 = filters k ∖ {[(fd, f)]};
  (** a registered filter can be removed *)
  kev_registered k fd f : (fd, f) ∈ filters k -> (kevent_change k fd f EV_DELETE).1 <> -1;
}.

(** ** The functions of the back end *)
Section AeKqueue.
  Context {K : Type} `{Kqueue K}.

(** [if (mask & AE_READABLE) ...; if (mask & AE_WRITABLE) ...] *)
Definition aeApiAddEvent (k : K) (cur fd mask : Z) : outcome (Z * K) :=
  let r := if has mask AE_READABLE then kevent_change k fd EVFILT_READ EV_ADD else (0, k) in
  if r.1 =? -1 then mret (-1, r.2)
  else
    let r := if has mask AE_WRITABLE then kevent_change r.2 fd EVFILT_WRITE EV_ADD else (0, r.2) in
    mret (if r.1 =? -1 then -1 else 0, r.2).

Definition aeApiDelEvent (k : K) (cur fd mask : Z) : outcome K :=
  let k := if has mask AE_READABLE then (kevent_change k fd EVFILT_READ EV_DELETE).2 else k in
  mret (if has mask AE_WRITABLE then (kevent_change k fd EVFILT_WRITE EV_DELETE).2 else k).

(** [zrealloc] of the array for kevent. *)
Definition aeApiResize (k : K) (n : Z) : Z := 0.

Definition filter_mask (f : Z) : Z := from_bits (f =? EVFILT_READ) (f =? EVFILT_WRITE).

(** [es] are the descriptors and filters kevent has stored, none if it returned 0
    or -1. *)
Definition aeApiPoll (k : K) (cur : Z -> outcome Z) (maxfd : Z) (es : list (Z * Z))
    : outcome (list (Z * Z) * K) :=
  mret ((fun e => (e.1, filter_mask e.2)) <$> es, k).

(** ** What it watches *)
Definition kqueue_watched (k : K) (fd : Z) : Z :=
  from_bits (bool_decide ((fd, EVFILT_READ) ∈ filters k)) (bool_decide ((fd, EVFILT_WRITE) ∈ filters k)).

Definition kqueue_wf (k : K) (n : Z) : Prop := forall fd, kqueue_watched k fd <> 0 -> 0 <= fd < n.

(** kevent(2): at most as many events as asked for, each of a registered filter
    that is ready; a filter that is not listed does not count as ready. *)
Record kqueue_answers (k : K) (n : Z) (es : list (Z * Z)) (r : Z -> Z) : Prop := {
  ka_fits : zlen es <= n;
  ka_registered : Forall (fun e => e ∈ filters k /\ (e.2 = EVFILT_READ \/ e.2 = EVFILT_WRITE)) es;
  ka_read fd : (fd, EVFILT_READ) ∈ filters k -> has (r fd) AE_READABLE = bool_decide ((fd, EVFILT_READ) ∈ es);
  ka_write fd : (fd, EVFILT_WRITE) ∈ filters k -> has (r fd) AE_WRITABLE = bool_decide ((fd, EVFILT_WRITE) ∈ es);
}.

(** One direction at a time: see [kqueue_add_partial]. *)
#[export] Instance kqueue_api : AeApi K := {
  api_answer := list (Z * Z);
  api_add := aeApiAddEvent;
  api_del := aeApiDelEvent;
  api_resize := aeApiResize;
  api_poll := aeApiPoll;
  api_watched := kqueue_watched;
  api_wf := kqueue_wf;
  api_masks m := m = AE_READABLE \/ m = AE_WRITABLE;
  api_room n := True;
  api_answers := kqueue_answers;
}.
End AeKqueue.

(** ** It keeps the promises of [AeApi] *)
Section laws.
  Context {K : Type} `{KqueueLaws K}.

Lemma watched_bits k fd :
  has (kqueue_watched k fd) AE_READABLE = bool_decide ((fd, EVFILT_READ) ∈ filters k) /\
  has (kqueue_watched k fd) AE_WRITABLE = bool_decide ((fd, EVFILT_WRITE) ∈ filters k) /\
  0 <= kqueue_watched k fd < 4.
Proof. apply has_from_bits. Qed.

Lemma kqueue_wf_ext k k' n fd m :
  kqueue_wf k n -> 0 <= fd < n -> (forall g, kqueue_watched k' g = if g =? fd then m else kqueue_watched k g) ->
  kqueue_wf k' n.
Proof. intros W Hfd F g. rewrite F. destruct (Z.eqb_spec g fd) as [-> |]; [done | apply W]. Qed.

(** The effect of one filter on the masks. *)
Lemma add_filter k k' fd f : f = EVFILT_READ \/ f = EVFILT_WRITE -> filters k' = filters k ∪ {[(fd, f)]} ->
  forall g, kqueue_watched k' g = if g =? fd then Z.lor (filter_mask f) (kqueue_watched k fd) else kqueue_watched k g.
Proof.
  intros Hf E g. unfold kqueue_watched. rewrite E.
  assert (Hm : forall h, bool_decide ((g, h) ∈ filters k ∪ {[(fd, f)]}) =
    bool_decide ((g, h) ∈ filters k) || ((g =? fd) && (h =? f))).
  { intros h. apply eq_bool_prop_intro. rewrite bool_decide_spec, orb_True, andb_True, bool_decide_spec,
      elem_of_union, elem_of_singleton, !Is_true_true, !Z.eqb_eq. intuition congruence. }
  rewrite !Hm. clear Hm. destruct (Z.eqb_spec g fd) as [-> | Hne]; [| by rewrite !orb_false_r].
  destruct Hf as [-> | ->]; by do 2 case_bool_decide.
Qed.

Lemma del_filter k k' fd f : f = EVFILT_READ \/ f = EVFILT_WRITE -> filters k' = filters k ∖ {[(fd, f)]} ->
  forall g, kqueue_watched k' g =
    if g =? fd then Z.land (kqueue_watched k fd) (Z.lnot (filter_mask f)) else kqueue_watched k g.
Proof.
  intros Hf E g. unfold kqueue_watched. rewrite E.
  assert (Hm : forall h, bool_decide ((g, h) ∈ filters k ∖ {[(fd, f)]}) =
    bool_decide ((g, h) ∈ filters k) && negb ((g =? fd) && (h =? f))).
  { intros h. apply eq_bool_prop_intro. rewrite bool_decide_spec, andb_True, negb_True, andb_True, bool_decide_spec,
      elem_of_difference, elem_of_singleton, !Is_true_true, !Z.eqb_eq.
    split; intros [? Hn]; (split; [done |]); [by intros [-> ->] | by intros [= -> ->]; apply Hn]. }
  rewrite !Hm. clear Hm. destruct (Z.eqb_spec g fd) as [-> | Hne]; [| by rewrite !andb_true_r].
  destruct Hf as [-> | ->]; by do 2 case_bool_decide.
Qed.

(** Removing a filter, registered or not. *)
Lemma del_filters k fd f : filters (kevent_change k fd f EV_DELETE).2 = filters k ∖ {[(fd, f)]}.
Proof.
  destruct (decide ((fd, f) ∈ filters k)) as [Hin | Hout]; [by apply kev_delete, kev_registered |].
  destruct (Z.eq_dec (kevent_change k fd f EV_DELETE).1 (-1)) as [E | E]; [| by apply kev_delete].
  rewrite (kev_fail _ _ _ _ E). apply set_eq. intros x. rewrite elem_of_difference, elem_of_singleton.
  split; [| by intros [? _]]. intros Hx. split; [done |]. by intros ->.
Qed.

Lemma del_watched k fd f : f = EVFILT_READ \/ f = EVFILT_WRITE ->
  forall g, kqueue_watched (kevent_change k fd f EV_DELETE).2 g =
    if g =? fd then Z.land (kqueue_watched k fd) (Z.lnot (filter_mask f)) else kqueue_watched k g.
Proof. intros Hf. apply del_filter; [done | apply del_filters]. Qed.

Lemma kqueue_del_spec k fd mask : 0 < mask < 4 ->
  exists k', aeApiDelEvent k (Z.land (kqueue_watched k fd) (Z.lnot mask)) fd mask = Ok k' /\
    forall g, kqueue_watched k' g =
      if g =? fd then Z.land (kqueue_watched k fd) (Z.lnot mask) else kqueue_watched k g.
Proof.
  intros Hm. unfold aeApiDelEvent. eexists. split; [reflexivity |]. intros g.
  pose proof (del_watched k fd EVFILT_READ (or_introl eq_refl)) as R.
  pose proof (fun k => del_watched k fd EVFILT_WRITE (or_intror eq_refl)) as W.
  assert (mask = 1 \/ mask = 2 \/ mask = 3) as [-> | [-> | ->]] by lia.
  - exact (R g).
  - exact (W k g).
  - change (has 3 AE_READABLE) with true. change (has 3 AE_WRITABLE) with true. cbv iota. rewrite W. destruct (Z.eqb_spec g fd) as [-> | Hne]; rewrite R; rewrite ?Z.eqb_refl; [by rewrite <- Z.land_assoc |].
    by apply Z.eqb_neq in Hne as ->.
Qed.

Lemma kqueue_poll_bits es k n r fd :
  kqueue_answers k n es r ->
  Z.land (kqueue_watched k fd) (fired_bits ((fun e => (e.1, filter_mask e.2)) <$> es) fd) =
  Z.land (kqueue_watched k fd) (r fd).
Proof.
  intros A. destruct (watched_bits k fd) as (Wr & Ww & Hw). set (fired := _ <$> es).
  assert (Hb : forall b f, has (filter_mask f) b = true ->
      (forall f', f' = EVFILT_READ \/ f' = EVFILT_WRITE -> has (filter_mask f') b = true -> f' = f) ->
      has (fired_bits fired fd) b = bool_decide ((fd, f) ∈ es)).
  { intros b f Hf Hu. apply eq_bool_prop_intro. rewrite bool_decide_spec, Is_true_true, fired_bits_has. split.
    - intros (mask & Hin & Hm). apply list_elem_of_fmap in Hin as ([g f'] & [= -> ->] & Hin).
      destruct (proj1 (Forall_forall _ _) (ka_registered _ _ _ _ A) _ Hin) as [_ Hf']. by rewrite <- (Hu f').
    - intros Hin. exists (filter_mask f). split; [| done]. by apply (list_elem_of_fmap_2' (fun e => (e.1, filter_mask e.2)) _ (fd, f)). }
  apply land_small_ext; [done | |].
  - rewrite Wr. intros Hin%bool_decide_eq_true. rewrite (ka_read _ _ _ _ A fd Hin).
    apply Hb; [done |]. by intros f' [-> | ->].
  - rewrite Ww. intros Hin%bool_decide_eq_true. rewrite (ka_write _ _ _ _ A fd Hin).
    apply Hb; [done |]. by intros f' [-> | ->].
Qed.

#[export] Instance kqueue_api_laws : AeApiLaws K.
Proof.
  split; cbn [api_masks api_wf api_watched api_add api_del api_resize api_poll api_answers kqueue_api].
  - unfold AE_READABLE, AE_WRITABLE. lia.
  - by left.
  - by right.
  - intros k n fd W. apply W.
  - intros k n fd mask W Hfd Hm.
    assert (Hone : exists f, (f = EVFILT_READ \/ f = EVFILT_WRITE) /\ filter_mask f = mask /\
      aeApiAddEvent k (kqueue_watched k fd) fd mask =
        (let r := kevent_change k fd f EV_ADD in Ok (if r.1 =? -1 then -1 else 0, r.2))).
    { destruct Hm as [-> | ->]; [exists EVFILT_READ | exists EVFILT_WRITE]; (split; [auto | split; [done |]]);
        unfold aeApiAddEvent; [change (has AE_READABLE AE_READABLE) with true; change (has AE_READABLE AE_WRITABLE) with false
          | change (has AE_WRITABLE AE_READABLE) with false; change (has AE_WRITABLE AE_WRITABLE) with true]; cbv iota zeta; [| done].
      by destruct (_ =? -1). }
    destruct Hone as (f & Hf & <- & ->). cbv zeta. eexists _, _. split; [reflexivity |].
    destruct (Z.eqb_spec (kevent_change k fd f EV_ADD).1 (-1)) as [E | E].
    + apply kev_fail in E. assert (F : forall g, kqueue_watched (kevent_change k fd f EV_ADD).2 g = kqueue_watched k g)
        by (intros g; unfold kqueue_watched; by rewrite E).
      split; [intros g; rewrite F; apply W | by left].
    + pose proof (add_filter k _ fd f Hf (kev_add k fd f E)) as F. split; [by eapply kqueue_wf_ext | by right].
  - intros k n fd mask W Hfd Hm _. destruct (kqueue_del_spec k fd mask Hm) as (k' & E & F).
    exists k'. split; [done |]. split; [by eapply kqueue_wf_ext | done].
  - intros k n n' W Hn _ Ht. right. intros fd Hw. pose proof (W fd Hw). pose proof (Ht fd Hw). lia.
  - intros k n cur top a r W _ _ _ A. unfold aeApiPoll. eexists _, k. split; [reflexivity |].
    split; [done |]. split; [done |]. split; [unfold zlen; rewrite length_fmap; apply A |]. split.
    + apply Forall_fmap, (Forall_impl _ _ _ (ka_registered _ _ _ _ A)). intros [g f] [Hin Hf]. apply (W g).
      intros Z0. destruct (watched_bits k g) as (Wr & Ww & _). rewrite Z0 in Wr, Ww. cbn [snd] in Hf.
      destruct Hf as [-> | ->]; [apply (bool_decide_eq_false_1 _ (eq_sym Wr)) | apply (bool_decide_eq_false_1 _ (eq_sym Ww))]; exact Hin.
    + intros fd. by apply (kqueue_poll_bits a k n).
Qed.

(** A mask of both directions is not registered as a whole: when the second call
    fails the first stays, and the kernel goes on to report a descriptor the loop
    has no mask for. *)
Lemma kqueue_add_partial k fd :
  (kevent_change k fd EVFILT_READ EV_ADD).1 <> -1 ->
  (kevent_change (kevent_change k fd EVFILT_READ EV_ADD).2 fd EVFILT_WRITE EV_ADD).1 = -1 ->
  kqueue_watched k fd = 0 ->
  exists k', aeApiAddEvent k 0 fd (Z.lor AE_READABLE AE_WRITABLE) = Ok (-1, k') /\
    kqueue_watched k' fd = AE_READABLE.
Proof.
  intros E1 E2 Hw. unfold aeApiAddEvent. change (has (Z.lor AE_READABLE AE_WRITABLE) AE_READABLE) with true.
  change (has (Z.lor AE_READABLE AE_WRITABLE) AE_WRITABLE) with true. cbn iota zeta.
  apply Z.eqb_neq in E1 as E1'. rewrite E1', E2. eexists. split; [reflexivity |].
  assert (F : forall g, kqueue_watched (kevent_change (kevent_change k fd EVFILT_READ EV_ADD).2 fd EVFILT_WRITE EV_ADD).2 g =
    kqueue_watched (kevent_change k fd EVFILT_READ EV_ADD).2 g) by (intros g; unfold kqueue_watched; by rewrite (kev_fail _ _ _ _ E2)).
  rewrite F, (add_filter k _ fd EVFILT_READ (or_introl eq_refl) (kev_add k fd EVFILT_READ E1)), Z.eqb_refl, Hw. done.
Qed.
End laws.

(** A queue as a finite set of filters, for concrete runs. *)
Definition set_change (k : gset (Z * Z)) (fd f : Z) (a : ev_flag) : Z * gset (Z * Z) :=
  match a with
  | EV_ADD => (0, k ∪ {[(fd, f)]})
  | EV_DELETE => if decide ((fd, f) ∈ k) then (0, k ∖ {[(fd, f)]}) else (-1, k)
  end.

#[export] Instance set_kqueue : Kqueue (gset (Z * Z)) := { filters k := k; kevent_change := set_change }.

#[export] Instance set_kqueue_laws : KqueueLaws (gset (Z * Z)).
Proof.
  split; cbn; unfold set_change; try done.
  - intros k fd f []; [done |]. by case_decide.
  - intros k fd f. by case_decide.
  - intros k fd f Hin. by rewrite decide_True.
Qed.
