(* ===== verification/AeEvport.v ===== *)
(** * ae_evport.c: the back end on illumos

    A port forgets a descriptor when it reports it, so the back end remembers
    the reported ones as pending and associates them again at the next poll.  The
    port is outside the program: [Port] states what the back end relies on, and
    [map_port] is a model of it.  [abort()] is the fault [AssertFailed]. *)
From S2P Require Import Prelude Ae.

Definition MAX_EVENT_BATCHSZ : Z := 512.

(** ** The kernel's side: port_associate(3C), port_dissociate(3C), port_getn(3C)

    The association of a descriptor holds the events asked for and a word of the
    caller's.  [port_take] is what port_getn does to the port when it returns
    events of some descriptors.  [port_valid] are the descriptors that are open
    and have been associated before. *)
Class Port (K : Type) := {
  assoc : K -> gmap Z (Z * Z);
  port_associate : K -> Z -> Z -> Z -> Z * K;
  port_dissociate : K -> Z -> Z * K;
  port_take : K -> list Z -> K;
  port_valid : K -> Z -> Prop;
  port_limit : Z;
}.

Class PortLaws (K : Type) `{Port K} : Prop := {
  associate_fail k fd ev u : (port_associate k fd ev u).1 <> 0 ->
    (port_associate k fd ev u).1 = -1 /\ (port_associate k fd ev u).2 = k;
  associate_ok k fd ev u : (port_associate k fd ev u).1 = 0 ->
    assoc (port_associate k fd ev u).2 = <[fd := (ev, u)]> (assoc k) /\
    forall g, port_valid (port_associate k fd ev u).2 g <-> g = fd \/ port_valid k g;
  (** EAGAIN only when the limit is reached by other descriptors *)
  associate_again k fd ev u : port_valid k fd ->
    is_Some (assoc k !! fd) \/ Z.of_nat (size (assoc k)) < port_limit -> (port_associate k fd ev u).1 = 0;
  dissociate_ok k fd : is_Some (assoc k !! fd) ->
    (port_dissociate k fd).1 = 0 /\ assoc (port_dissociate k fd).2 = delete fd (assoc k) /\
    forall g, port_valid (port_dissociate k fd).2 g <-> port_valid k g;
  take_spec k fds fd : assoc (port_take k fds) !! fd = (if bool_decide (fd ∈ fds) then None else assoc k !! fd) /\
    (port_valid (port_take k fds) fd <-> port_valid k fd);
}.

(** ** The functions of the back end

    [pending] is the first [npending] entries of the two arrays: a descriptor,
    -1 if it has been deleted since, and the mask to associate it with. *)
Record evport (K : Type) := EvPort {
  port : K;
  pending : list (Z * Z);
}.
Arguments EvPort {K}.
Arguments port {K}.
Arguments pending {K}.

(** What port_getn answers; the events have the descriptor, the poll(2) bits and
    the word of the association. *)
Inductive getn_answer :=
  | GetnOk (es : list (Z * Z * Z))
  | GetnTime (es : list (Z * Z * Z))
  | GetnIntr
  | GetnError.

Section AeEvport.
  Context {K : Type} `{Port K}.

Definition aeApiCreate (p : K) : evport K := EvPort p [].

Definition aeApiResize (k : evport K) (n : Z) : Z := 0.

(** The index of [fd] among the entries from [i] on, or -1. *)
Fixpoint lookup_from (i : Z) (l : list (Z * Z)) (fd : Z) : Z :=
  match l with
  | [] => -1
  | e :: l => if e.1 =? fd then i else lookup_from (i + 1) l fd
  end.

Definition aeApiLookupPending (k : evport K) (fd : Z) : Z := lookup_from 0 (pending k) fd.

Definition poll_events (mask : Z) : Z :=
  Z.lor (if has mask AE_READABLE then POLLIN else 0) (if has mask AE_WRITABLE then POLLOUT else 0).

Definition aeApiAssociate (p : K) (fd mask : Z) : Z * K := port_associate p fd (poll_events mask) mask.

Definition aeApiAddEvent (k : evport K) (cur fd mask : Z) : outcome (Z * evport K) :=
  let fullmask := Z.lor mask cur in
  let pfd := aeApiLookupPending k fd in
  if negb (pfd =? -1) then
    e ← aget (pending k) pfd;
    l ← aset (pending k) pfd (e.1, Z.lor e.2 fullmask);
    mret (0, EvPort (port k) l)
  else
    let r := aeApiAssociate (port k) fd fullmask in
    mret (r.1, EvPort r.2 (pending k)).

Definition aeApiDelEvent (k : evport K) (cur fd mask : Z) : outcome (evport K) :=
  let pfd := aeApiLookupPending k fd in
  if negb (pfd =? -1) then
    e ← aget (pending k) pfd;
    let m := Z.land e.2 (Z.lnot mask) in
    l ← aset (pending k) pfd (if m =? AE_NONE then -1 else e.1, m);
    mret (EvPort (port k) l)
  else if cur =? AE_NONE then
    let r := port_dissociate (port k) fd in
    if negb (r.1 =? 0) then Fault AssertFailed else mret (EvPort r.2 (pending k))
  else
    let r := aeApiAssociate (port k) fd cur in
    if negb (r.1 =? 0) then Fault AssertFailed else mret (EvPort r.2 (pending k)).

(** The loop that associates the pending descriptors again. *)
Fixpoint reassociate (l : list (Z * Z)) (p : K) : outcome K :=
  match l with
  | [] => mret p
  | (fd, mask) :: l =>
    if fd =? -1 then reassociate l p
    else
      let r := aeApiAssociate p fd mask in
      if negb (r.1 =? 0) then Fault AssertFailed else reassociate l r.2
  end.

(** The events port_getn has stored; the array has [MAX_EVENT_BATCHSZ] entries. *)
Definition returned (p : K) (es : list (Z * Z * Z)) : outcome (list (Z * Z) * evport K) :=
  if zlen es >? MAX_EVENT_BATCHSZ then Fault OutOfBounds
  else mret ((fun e => (e.1.1, from_bits (has e.1.2 POLLIN) (has e.1.2 POLLOUT))) <$> es,
    EvPort (port_take p es.*1.*1) ((fun e => (e.1.1, e.2)) <$> es)).

Definition aeApiPoll (k : evport K) (cur : Z -> outcome Z) (maxfd : Z) (a : getn_answer)
    : outcome (list (Z * Z) * evport K) :=
  p ← reassociate (pending k) (port k);
  match a with
  | GetnOk es => returned p es
  | GetnTime [] | GetnIntr => mret ([], EvPort p [])
  | GetnTime es => returned p es
  | GetnError => Fault AssertFailed
  end.

(** ** What it watches *)

Fixpoint pending_mask (l : list (Z * Z)) (fd : Z) : option Z :=
  match l with
  | [] => None
  | e :: l => if e.1 =? fd then Some e.2 else pending_mask l fd
  end.

Definition evport_watched (k : evport K) (fd : Z) : Z :=
  match pending_mask (pending k) fd with
  | Some m => m
  | None => match assoc (port k) !! fd with Some (_, u) => u | None => AE_NONE end
  end.

(** The descriptors that are pending. *)
Definition live_fds (l : list (Z * Z)) : list Z := filter (fun fd => fd <> -1) l.*1.

Record evport_wf (k : evport K) (n : Z) : Prop := {
  ew_room : n <= port_limit;
  ew_once : NoDup (live_fds (pending k));
  ew_pending : Forall (fun e =>
    if e.1 =? -1 then e.2 = AE_NONE
    else 0 <= e.1 < n /\ 0 < e.2 < 4 /\ assoc (port k) !! e.1 = None /\ port_valid (port k) e.1) (pending k);
  ew_assoc fd e u : assoc (port k) !! fd = Some (e, u) ->
    0 <= fd < n /\ 0 < u < 4 /\ e = poll_events u /\ port_valid (port k) fd;
}.

(** port_getn(3C): events of associated descriptors, each once, with the word
    of the association; descriptors that are not listed are not ready for what
    they are associated for.  At that moment everything watched is associated. *)
Record evport_events (k : evport K) (es : list (Z * Z * Z)) (r : Z -> Z) : Prop := {
  ee_fits : zlen es <= MAX_EVENT_BATCHSZ;
  ee_once : NoDup es.*1.*1;
  ee_assoc : Forall (fun e => evport_watched k e.1.1 <> 0 /\ e.2 = evport_watched k e.1.1) es;
  ee_ready fd ev u : (fd, ev, u) ∈ es ->
    has (r fd) AE_READABLE = has ev POLLIN /\ has (r fd) AE_WRITABLE = has ev POLLOUT;
  ee_not_ready fd : (fd ∉ es.*1.*1) -> Z.land (evport_watched k fd) (r fd) = 0;
}.

Definition evport_answers (k : evport K) (n : Z) (a : getn_answer) (r : Z -> Z) : Prop :=
  match a with
  | GetnOk es | GetnTime es => evport_events k es r
  | GetnIntr => forall fd, Z.land (evport_watched k fd) (r fd) = 0
  | GetnError => False
  end.

#[export] Instance evport_api : AeApi (evport K) := {
  api_answer := getn_answer;
  api_add := aeApiAddEvent;
  api_del := aeApiDelEvent;
  api_resize := aeApiResize;
  api_poll := aeApiPoll;
  api_watched := evport_watched;
  api_wf := evport_wf;
  api_masks m := 0 < m < 4;
  api_room n := n <= port_limit;
  api_answers := evport_answers;
}.
End AeEvport.

(** ** It keeps the promises of [AeApi] *)
Section laws.
  Context {K : Type} `{PortLaws K}.
  Implicit Types (l : list (Z * Z)) (p : K) (k : evport K).

Lemma pending_mask_app l1 l2 fd :
  pending_mask (l1 ++ l2) fd = match pending_mask l1 fd with Some m => Some m | None => pending_mask l2 fd end.
Proof. induction l1 as [| e l1 IH]; [done |]. simpl. by destruct (e.1 =? fd). Qed.

Lemma pending_mask_Some l fd m : pending_mask l fd = Some m -> (fd, m) ∈ l.
Proof.
  induction l as [| [g x] l IH]; [done |]. simpl. destruct (Z.eqb_spec g fd) as [-> |].
  - intros [= ->]. by left.
  - intros E. right. by apply IH.
Qed.

Lemma pending_mask_None l fd : pending_mask l fd = None <-> (fd ∉ l.*1).
Proof.
  induction l as [| [g x] l IH]; [split; [intros _; apply not_elem_of_nil | done] |]. cbn.
  rewrite not_elem_of_cons. destruct (Z.eqb_spec g fd) as [-> | Hne]; [split; [done | by intros []] |].
  rewrite IH. split; [by split; [intros -> |] | by intros []].
Qed.

(** The search finds the first entry of a descriptor. *)
Lemma lookup_from_spec i l fd :
  0 <= i -> (lookup_from i l fd = -1 /\ pending_mask l fd = None) \/
  exists l1 m l2, l = l1 ++ (fd, m) :: l2 /\ pending_mask l1 fd = None /\ lookup_from i l fd = i + zlen l1.
Proof.
  revert i. induction l as [| [g x] l IH]; intros i Hi; [by left |]. simpl.
  destruct (Z.eqb_spec g fd) as [-> | Hne].
  - right. exists [], x, l. split; [done |]. split; [done |]. unfold zlen. cbn. lia.
  - destruct (IH (i + 1) ltac:(lia)) as [[-> ->] | (l1 & m & l2 & -> & E & ->)]; [by left | right].
    exists ((g, x) :: l1), m, l2. split; [done |]. split; [| rewrite zlen_cons; lia].
    simpl. by apply Z.eqb_neq in Hne as ->.
Qed.

Lemma lookup_pending_spec k fd :
  ((aeApiLookupPending k fd =? -1) = true /\ pending_mask (pending k) fd = None) \/
  exists l1 m l2, pending k = l1 ++ (fd, m) :: l2 /\ pending_mask l1 fd = None /\
    (aeApiLookupPending k fd =? -1) = false /\
    aget (pending k) (aeApiLookupPending k fd) = Ok (fd, m) /\
    forall x, aset (pending k) (aeApiLookupPending k fd) x = Ok (l1 ++ x :: l2).
Proof.
  unfold aeApiLookupPending. destruct (lookup_from_spec 0 (pending k) fd ltac:(lia)) as [[-> E] | (l1 & m & l2 & El & E & ->)]; [by left | right].
  exists l1, m, l2. split; [done |]. split; [done |]. pose proof (zlen_nonneg l1).
  split; [apply Z.eqb_neq; lia |]. rewrite Z.add_0_l. split.
  - apply aget_Ok; [done |]. rewrite El, list_lookup_middle; [done |]. unfold zlen. lia.
  - intros x. rewrite aset_Ok by (rewrite El, zlen_app, zlen_cons; pose proof (zlen_nonneg l2); lia).
    f_equal. rewrite El. unfold zlen. by rewrite Nat2Z.id, insert_app_r_alt, Nat.sub_diag by lia.
Qed.

Lemma live_fds_app l1 l2 : live_fds (l1 ++ l2) = live_fds l1 ++ live_fds l2.
Proof. unfold live_fds. by rewrite fmap_app, filter_app. Qed.

Lemma live_fds_cons fd m l : fd <> -1 -> live_fds ((fd, m) :: l) = fd :: live_fds l.
Proof. intros Hfd. unfold live_fds. rewrite fmap_cons. by rewrite filter_cons_True. Qed.

Lemma live_fds_deleted m l : live_fds ((-1, m) :: l) = live_fds l.
Proof. unfold live_fds. rewrite fmap_cons. by rewrite filter_cons_False by (intros ?; done). Qed.

Lemma elem_of_live_fds fd l : fd ∈ live_fds l <-> fd <> -1 /\ fd ∈ l.*1.
Proof. unfold live_fds. by rewrite list_elem_of_filter. Qed.

(** What is watched is known of the entries. *)
Lemma evport_watched_cases k n fd :
  evport_wf k n -> evport_watched k fd <> 0 ->
  0 <= fd < n /\ 0 < evport_watched k fd < 4 /\ port_valid (port k) fd /\
  (((fd, evport_watched k fd) ∈ pending k /\ assoc (port k) !! fd = None /\
      pending_mask (pending k) fd = Some (evport_watched k fd)) \/
   (pending_mask (pending k) fd = None /\ assoc (port k) !! fd = Some (poll_events (evport_watched k fd), evport_watched k fd))).
Proof.
  intros W. unfold evport_watched. destruct (pending_mask (pending k) fd) as [m |] eqn:E.
  - intros Hm. apply pending_mask_Some in E. pose proof (proj1 (Forall_forall _ _) (ew_pending _ _ W) _ E) as P. cbn [fst snd] in P.
    destruct (fd =? -1); [done |]. destruct P as (? & ? & ? & ?). auto 8.
  - destruct (assoc (port k) !! fd) as [[e u] |] eqn:Ea; [| done]. intros _.
    destruct (ew_assoc _ _ W _ _ _ Ea) as (? & ? & -> & ?). auto 8.
Qed.

Lemma evport_watched_range k n fd : evport_wf k n -> evport_watched k fd <> 0 -> 0 <= fd < n.
Proof. intros W Hw. by destruct (evport_watched_cases k n fd W Hw). Qed.

Lemma evport_not_negative k n : evport_wf k n -> evport_watched k (-1) = 0.
Proof.
  intros W. destruct (Z.eq_dec (evport_watched k (-1)) 0) as [| Hw]; [done |].
  apply (evport_watched_range k n) in Hw; [lia | done].
Qed.

(** A descriptor that is not associated leaves room for its association. *)
Lemma assoc_room k n fd :
  evport_wf k n -> 0 <= fd < n -> assoc (port k) !! fd = None -> Z.of_nat (size (assoc (port k))) < port_limit.
Proof.
  intros W Hfd E. assert (L : zlen (fd :: (map_to_list (assoc (port k))).*1) <= n).
  { apply zlen_distinct; [lia | |].
    - constructor; [| apply NoDup_fst_map_to_list]. intros ([g [e u]] & Eg & Hin)%list_elem_of_fmap. cbn in Eg. subst g.
      apply elem_of_map_to_list in Hin. congruence.
    - constructor; [done |]. apply Forall_forall. intros g ([g' [e u]] & -> & Hin)%list_elem_of_fmap.
      apply elem_of_map_to_list in Hin. apply (ew_assoc _ _ W _ _ _ Hin). }
  rewrite zlen_cons in L. unfold zlen in L. rewrite length_fmap in L.
  rewrite length_map_to_list in L. pose proof (ew_room _ _ W). lia.
Qed.

(** After a successful association of a descriptor that is not pending. *)
Lemma associated k n fd m :
  evport_wf k n -> 0 <= fd < n -> 0 < m < 4 -> pending_mask (pending k) fd = None ->
  (aeApiAssociate (port k) fd m).1 = 0 ->
  let k' := EvPort (aeApiAssociate (port k) fd m).2 (pending k) in
  evport_wf k' n /\ forall g, evport_watched k' g = if g =? fd then m else evport_watched k g.
Proof.
  intros W Hfd Hm Hp E k'. unfold aeApiAssociate in *. destruct (associate_ok _ _ _ _ E) as [Ea Ev].
  split; [destruct W as [W1 W2 W3 W4]; split |]; cbn [k' pending port]; try done.
  - apply Forall_forall. intros [g x] Hin. pose proof (proj1 (Forall_forall _ _) W3 _ Hin) as P. cbn [fst snd] in *.
    destruct (g =? -1); [done |]. destruct P as (? & ? & Hn & Hv). rewrite Ev, Ea. split; [done |]. split; [done |].
    split; [| by right]. rewrite lookup_insert_ne; [done |]. intros ->. apply pending_mask_None in Hp. apply Hp.
    by apply (list_elem_of_fmap_2' fst _ (g, x)).
  - intros g e u. rewrite Ea, Ev, lookup_insert. case_decide as Hg.
    + intros [= <- <-]. subst g. auto.
    + intros Hg'. destruct (W4 _ _ _ Hg') as (? & ? & ? & ?). auto.
  - intros g. unfold k', evport_watched. cbn [pending port]. rewrite Ea. destruct (Z.eqb_spec g fd) as [-> |].
    + by rewrite Hp, lookup_insert_eq.
    + by rewrite lookup_insert_ne.
Qed.

(** Changing the mask of a pending descriptor, or deleting it. *)
Lemma pending_changed k n fd l1 m l2 m' :
  evport_wf k n -> 0 <= fd < n -> pending k = l1 ++ (fd, m) :: l2 -> pending_mask l1 fd = None -> 0 <= m' < 4 ->
  let k' := EvPort (port k) (l1 ++ (if m' =? AE_NONE then -1 else fd, m') :: l2) in
  evport_wf k' n /\ forall g, evport_watched k' g = if g =? fd then m' else evport_watched k g.
Proof.
  intros W Hfd El Hp Hm' k'.
  pose proof (ew_once _ _ W) as ND. rewrite El, live_fds_app, live_fds_cons in ND by lia.
  pose proof (ew_pending _ _ W) as FP. rewrite El in FP. apply Forall_app in FP as [F1 F2].
  apply Forall_cons in F2 as [F0 F2]. cbn [fst snd] in F0. destruct (Z.eqb_spec fd (-1)); [lia |].
  destruct F0 as (_ & _ & Hn & Hv).
  assert (H2 : pending_mask l2 fd = None).
  { apply pending_mask_None. intros Hin. apply NoDup_app in ND as (_ & _ & ND). apply NoDup_cons in ND as [ND _].
    apply ND, elem_of_live_fds. split; [lia | done]. }
  unfold AE_NONE in *. split.
  - destruct W as [W1 W2 W3 W4]. split; cbn [k' pending port]; try done.
    + rewrite live_fds_app. destruct (Z.eqb_spec m' 0); [rewrite live_fds_deleted | by rewrite live_fds_cons by lia].
      apply NoDup_app in ND as (N1 & N2 & N3). apply NoDup_cons in N3 as [_ N3]. apply NoDup_app. split; [done |].
      split; [| done]. intros x Hx Hx'. apply (N2 x Hx). by right.
    + apply Forall_app. split; [done |]. constructor; [| done]. cbn [fst snd].
      destruct (Z.eqb_spec m' 0); [done |]. destruct (Z.eqb_spec fd (-1)); [lia |]. split; [done |]. split; [lia | done].
  - intros g. unfold k', evport_watched. cbn [pending port]. rewrite El, !pending_mask_app.
    destruct (Z.eqb_spec g fd) as [-> | Hne].
    + rewrite Hp. cbn [pending_mask fst snd]. destruct (Z.eqb_spec m' 0) as [-> | Hm0].
      * destruct (Z.eqb_spec (-1) fd); [lia |]. by rewrite H2, Hn.
      * by rewrite Z.eqb_refl.
    + destruct (pending_mask l1 g); [done |]. cbn [pending_mask fst snd].
      destruct (Z.eqb_spec fd g); [congruence |]. destruct (Z.eqb_spec m' 0) as [-> |]; cbn [fst].
      * destruct (Z.eqb_spec (-1) g) as [<- |]; [| done].
        (* nothing has the number -1 *)
        destruct (pending_mask l2 (-1)) as [x |] eqn:Ex.
        { apply pending_mask_Some in Ex. by pose proof (proj1 (Forall_forall _ _) F2 _ Ex). }
        destruct (assoc (port k) !! (-1)) as [[e u] |] eqn:Ea; [| done]. apply (ew_assoc _ _ W) in Ea. lia.
      * destruct (Z.eqb_spec fd g); [congruence | done].
Qed.

Lemma evport_add_spec k n fd mask :
  evport_wf k n -> 0 <= fd < n -> 0 < mask < 4 ->
  exists r k', aeApiAddEvent k (evport_watched k fd) fd mask = Ok (r, k') /\ evport_wf k' n /\
    (r = -1 /\ (forall g, evport_watched k' g = evport_watched k g) \/
     r = 0 /\ forall g, evport_watched k' g =
       if g =? fd then Z.lor mask (evport_watched k fd) else evport_watched k g).
Proof.
  intros W Hfd Hm. assert (Hw : 0 <= evport_watched k fd < 4).
  { destruct (Z.eq_dec (evport_watched k fd) 0) as [-> | Hw]; [lia |].
    destruct (evport_watched_cases k n fd W Hw) as (_ & ? & _). lia. }
  pose proof (lor_small mask _ ltac:(lia) Hw) as Hl. pose proof (lor_nonzero _ _ (proj1 Hm) (proj1 Hw)) as Hn.
  assert (Hlp : 0 < Z.lor mask (evport_watched k fd) < 4) by lia.
  unfold aeApiAddEvent. destruct (lookup_pending_spec k fd) as [[-> Hp] | (l1 & m & l2 & El & Hp & -> & Eg & Es)]; cbn [negb].
  - eexists _, _. split; [reflexivity |].
    destruct (Z.eq_dec (aeApiAssociate (port k) fd (Z.lor mask (evport_watched k fd))).1 0) as [E | E].
    + destruct (associated k n fd _ W Hfd Hlp Hp E) as [W' F]. split; [exact W' |]. by right.
    + unfold aeApiAssociate in *. apply associate_fail in E as [-> ->]. destruct k. split; [done | by left].
  - rewrite Eg, bind_Ok, Es, bind_Ok. eexists _, _. split; [reflexivity |]. cbn [fst snd].
    assert (Em : evport_watched k fd = m).
    { unfold evport_watched. by rewrite El, pending_mask_app, Hp; cbn; rewrite Z.eqb_refl. }
    rewrite Em in *. replace (Z.lor m (Z.lor mask m)) with (Z.lor mask m)
      by (rewrite (Z.lor_comm mask m), Z.lor_assoc, Z.lor_diag; done).
    destruct (pending_changed k n fd l1 m l2 (Z.lor mask m) W Hfd El Hp Hl) as [W' F].
    apply Z.eqb_neq in Hn. unfold AE_NONE in *. rewrite Hn in W', F. split; [exact W' |]. by right.
Qed.

Lemma evport_del_spec k n fd mask :
  evport_wf k n -> 0 <= fd < n -> 0 < mask < 4 -> evport_watched k fd <> 0 ->
  exists k', aeApiDelEvent k (Z.land (evport_watched k fd) (Z.lnot mask)) fd mask = Ok k' /\ evport_wf k' n /\
    forall g, evport_watched k' g =
      if g =? fd then Z.land (evport_watched k fd) (Z.lnot mask) else evport_watched k g.
Proof.
  intros W Hfd Hm Hw. destruct (evport_watched_cases k n fd W Hw) as (_ & Hr & Hv & C).
  pose proof (clear_small _ mask (conj (Z.lt_le_incl _ _ (proj1 Hr)) (proj2 Hr)) ltac:(lia)) as Hc.
  unfold aeApiDelEvent. destruct (lookup_pending_spec k fd) as [[-> Hp] | (l1 & m & l2 & El & Hp & -> & Eg & Es)]; cbn [negb].
  - destruct C as [(_ & _ & Hp') | [_ Ea]]; [congruence |].
    set (m := Z.land _ _) in *. unfold AE_NONE. destruct (Z.eqb_spec m 0) as [Z0 | Z0].
    + destruct (dissociate_ok (port k) fd ltac:(by rewrite Ea)) as (-> & Ed & Ev). cbn [Z.eqb negb].
      eexists. split; [reflexivity |]. split; [destruct W as [W1 W2 W3 W4]; split; cbn [pending port]; try done |].
      * apply Forall_forall. intros [g x] Hin. pose proof (proj1 (Forall_forall _ _) W3 _ Hin) as P. cbn [fst snd] in *.
        destruct (g =? -1); [done |]. destruct P as (? & ? & Hn & Hg). rewrite Ev, Ed. split; [done |]. split; [done |].
        split; [| done]. rewrite lookup_delete. by case_decide.
      * intros g e u. rewrite Ed, Ev, lookup_delete. case_decide; [done | apply W4].
      * intros g. unfold evport_watched. cbn [pending port]. rewrite Ed. destruct (Z.eqb_spec g fd) as [-> |].
        -- by rewrite Hp, lookup_delete_eq, Z0.
        -- by rewrite lookup_delete_ne.
    + assert (E : (aeApiAssociate (port k) fd m).1 = 0) by (apply associate_again; [done | left; by rewrite Ea]).
      rewrite E. cbn [Z.eqb negb]. eexists. split; [reflexivity |]. apply associated; [done | done | lia | done | done].
  - rewrite Eg, bind_Ok, Es, bind_Ok. cbn [fst snd]. eexists. split; [reflexivity |].
    assert (Em : evport_watched k fd = m) by (unfold evport_watched; by rewrite El, pending_mask_app, Hp; cbn; rewrite Z.eqb_refl).
    rewrite Em in *. by apply (pending_changed k n fd l1 m l2).
Qed.

(** Leaving out a deleted entry, or moving the first entry into the port. *)
Lemma drop_deleted p m l n :
  evport_wf (EvPort p ((-1, m) :: l)) n ->
  evport_wf (EvPort p l) n /\ forall g, evport_watched (EvPort p l) g = evport_watched (EvPort p ((-1, m) :: l)) g.
Proof.
  intros W. assert (W' : evport_wf (EvPort p l) n).
  { destruct W as [W1 W2 W3 W4]. split; cbn [pending port] in *; [done | exact W2 | by apply Forall_cons in W3 as [_ ?] | exact W4]. }
  split; [done |]. intros g. destruct (Z.eq_dec g (-1)) as [-> | Hne]; [by rewrite !(evport_not_negative _ n) |].
  unfold evport_watched. cbn [pending port pending_mask fst]. destruct (Z.eqb_spec (-1) g); [congruence | done].
Qed.

Lemma move_first p fd m l n :
  fd <> -1 -> evport_wf (EvPort p ((fd, m) :: l)) n ->
  (aeApiAssociate p fd m).1 = 0 /\ evport_wf (EvPort (aeApiAssociate p fd m).2 l) n /\
  forall g, evport_watched (EvPort (aeApiAssociate p fd m).2 l) g = evport_watched (EvPort p ((fd, m) :: l)) g.
Proof.
  intros Hne W. pose proof (ew_once _ _ W) as ND. pose proof (ew_pending _ _ W) as FP. cbn [pending port] in *.
  apply Forall_cons in FP as [F0 FP]. cbn [fst snd] in F0. rewrite live_fds_cons in ND by done.
  apply NoDup_cons in ND as [Hout ND]. destruct (Z.eqb_spec fd (-1)); [done |]. destruct F0 as (Hfd & Hm & Hn & Hv).
  assert (Hp : pending_mask l fd = None).
  { apply pending_mask_None. intros Hin. apply Hout, elem_of_live_fds. by split. }
  assert (W' : evport_wf (EvPort p l) n) by (destruct W; by split).
  assert (E : (aeApiAssociate p fd m).1 = 0).
  { apply associate_again; [done |]. right. by apply (assoc_room _ n fd W'). }
  destruct (associated (EvPort p l) n fd m W' Hfd Hm Hp E) as [W2 F]. split; [done |]. split; [done |].
  intros g. cbn [port pending] in F. rewrite F. unfold evport_watched. cbn [pending port pending_mask fst snd].
  rewrite Z.eqb_sym. by destruct (fd =? g).
Qed.

Lemma reassociate_spec n l p :
  evport_wf (EvPort p l) n -> exists p', reassociate l p = Ok p' /\ evport_wf (EvPort p' []) n /\
    forall g, evport_watched (EvPort p' []) g = evport_watched (EvPort p l) g.
Proof.
  revert p. induction l as [| [fd m] l IH]; intros p W; [by exists p |]. simpl.
  destruct (Z.eqb_spec fd (-1)) as [-> | Hne].
  - destruct (drop_deleted p m l n W) as [W' F]. destruct (IH p W') as (p' & E & W2 & F2).
    exists p'. split; [done |]. split; [done |]. intros g. by rewrite F2.
  - destruct (move_first p fd m l n Hne W) as (E & W' & F). rewrite E. cbn [Z.eqb negb].
    destruct (IH _ W') as (p' & E2 & W2 & F2). exists p'. split; [done |]. split; [done |]. intros g. by rewrite F2.
Qed.

Lemma elem_of_fds {A B} (es : list (Z * A * B)) fd ev u : (fd, ev, u) ∈ es -> fd ∈ es.*1.*1.
Proof.
  intros Hin. apply (list_elem_of_fmap_2' fst _ (fd, ev)); [| done].
  by apply (list_elem_of_fmap_2' fst _ (fd, ev, u)).
Qed.

(** After events were returned. *)
Lemma returned_spec n p es r :
  evport_wf (EvPort p []) n -> 0 <= n -> evport_events (EvPort p []) es r ->
  exists fired k', returned p es = Ok (fired, k') /\ evport_wf k' n /\
    (forall g, evport_watched k' g = evport_watched (EvPort p []) g) /\
    zlen fired <= n /\ Forall (fun e => 0 <= e.1 < n) fired /\
    forall fd, Z.land (evport_watched (EvPort p []) fd) (fired_bits fired fd) =
      Z.land (evport_watched (EvPort p []) fd) (r fd).
Proof.
  intros W Hn A. set (k := EvPort p []) in *. unfold returned. rewrite Z.gtb_ltb.
  destruct (Z.ltb_spec MAX_EVENT_BATCHSZ (zlen es)); [pose proof (ee_fits _ _ _ A); lia |].
  eexists _, _. split; [reflexivity |]. set (fired := (fun e : Z * Z * Z => (e.1.1, from_bits (has e.1.2 POLLIN) (has e.1.2 POLLOUT))) <$> es).
  set (l := (fun e : Z * Z * Z => (e.1.1, e.2)) <$> es).
  assert (Hes : forall fd ev u, (fd, ev, u) ∈ es -> 0 <= fd < n /\ 0 < u < 4 /\ u = evport_watched k fd /\
      port_valid p fd /\ assoc p !! fd = Some (poll_events u, u)).
  { intros fd ev u Hin. destruct (proj1 (Forall_forall _ _) (ee_assoc _ _ _ A) _ Hin) as [Hw Hu]. cbn [fst snd] in Hw, Hu.
    destruct (evport_watched_cases k n fd W Hw) as (? & ? & ? & [(Hin' & _) | (_ & Ea)]); [by apply elem_of_nil in Hin' |].
    rewrite Hu. auto. }
  assert (Efds : l.*1 = es.*1.*1) by (unfold l; rewrite <- !list_fmap_compose; done).
  assert (Hrange : forall fd, fd ∈ es.*1.*1 -> 0 <= fd < n).
  { intros fd ([? ev] & -> & ([[g e'] u] & Eg & Hin)%list_elem_of_fmap)%list_elem_of_fmap. cbn in Eg. injection Eg as -> ->.
    apply (Hes _ _ _ Hin). }
  assert (Hpm : forall fd, pending_mask l fd = if bool_decide (fd ∈ es.*1.*1) then Some (evport_watched k fd) else None).
  { intros fd. case_bool_decide as Hin.
    - destruct (pending_mask l fd) as [m |] eqn:E.
      + apply pending_mask_Some in E. apply list_elem_of_fmap in E as ([[g ev] u] & [= -> ->] & Hin').
        by destruct (Hes _ _ _ Hin') as (_ & _ & -> & _).
      + apply pending_mask_None in E. by rewrite Efds in E.
    - apply pending_mask_None. by rewrite Efds. }
  split; [| split; [| split; [| split]]].
  - split; cbn [pending port].
    + apply (ew_room _ _ W).
    + unfold live_fds. rewrite Efds. apply NoDup_filter, (ee_once _ _ _ A).
    + apply Forall_fmap, Forall_forall. intros [[fd ev] u] Hin. cbn [compose fst snd].
      destruct (Hes _ _ _ Hin) as (? & ? & ? & ? & ?). destruct (Z.eqb_spec fd (-1)); [lia |].
      destruct (take_spec p es.*1.*1 fd) as [-> ->]. rewrite bool_decide_eq_true_2; [done |].
      by eapply elem_of_fds.
    + intros fd e u. destruct (take_spec p es.*1.*1 fd) as [-> ->]. case_bool_decide; [done |]. apply (ew_assoc _ _ W).
  - intros g. unfold evport_watched at 1. cbn [pending port]. rewrite Hpm. case_bool_decide as Hin; [done |].
    destruct (take_spec p es.*1.*1 g) as [-> _]. by rewrite bool_decide_eq_false_2.
  - unfold fired, zlen. rewrite length_fmap. pose proof (zlen_distinct es.*1.*1 n Hn (ee_once _ _ _ A)) as L.
    unfold zlen in L. rewrite !length_fmap in L. apply L, Forall_forall, Hrange.
  - apply Forall_fmap, Forall_forall. intros [[fd ev] u] Hin. apply (Hes _ _ _ Hin).
  - intros fd. assert (Hw : 0 <= evport_watched k fd < 4).
    { destruct (Z.eq_dec (evport_watched k fd) 0) as [-> | Hw]; [lia |].
      destruct (evport_watched_cases k n fd W Hw) as (_ & ? & _). lia. }
    assert (Hb : forall b, has (fired_bits fired fd) b = true <->
      exists ev u, (fd, ev, u) ∈ es /\ has (from_bits (has ev POLLIN) (has ev POLLOUT)) b = true).
    { intros b. rewrite fired_bits_has. split.
      - intros (m & Hin & Hm). apply list_elem_of_fmap in Hin as ([[g ev] u] & [= -> ->] & Hin). by exists ev, u.
      - intros (ev & u & Hin & Hm). eexists. split; [| exact Hm].
        by apply (list_elem_of_fmap_2' (fun e => (e.1.1, from_bits (has e.1.2 POLLIN) (has e.1.2 POLLOUT))) _ (fd, ev, u)). }
    destruct (decide (fd ∈ es.*1.*1)) as [Hin | Hout].
    + apply list_elem_of_fmap in Hin as ([g ev] & -> & ([[g' e'] u] & Eg & Hin)%list_elem_of_fmap).
      cbn in Eg. injection Eg as -> ->. cbn [fst] in *.
      assert (Hu : forall b, has (fired_bits fired g') b = has (from_bits (has e' POLLIN) (has e' POLLOUT)) b).
      { intros b. apply eq_bool_prop_intro. rewrite !Is_true_true, Hb. split; [| by exists e', u].
        intros (ev' & u' & Hin' & Hm). replace e' with ev'; [done |].
        apply (NoDup_fst_eq es.*1 g'); [apply (ee_once _ _ _ A) | by apply (list_elem_of_fmap_2' fst _ (g', ev', u'))
          | by apply (list_elem_of_fmap_2' fst _ (g', e', u))]. }
      destruct (ee_ready _ _ _ A _ _ _ Hin) as [R1 R2].
      apply land_small_ext; [done | |]; intros _; rewrite Hu, ?R1, ?R2; apply has_from_bits.
    + rewrite (ee_not_ready _ _ _ A fd Hout), <- (Z.land_0_r (evport_watched k fd)).
      apply land_small_ext; [done | |]; intros _; apply not_true_iff_false; rewrite Hb;
        intros (ev & u & Hin & _); apply Hout;
        by eapply elem_of_fds.
Qed.

(** What the answers say does not depend on where the masks are kept. *)
Lemma evport_events_ext k k' es r :
  (forall g, evport_watched k' g = evport_watched k g) -> evport_events k es r -> evport_events k' es r.
Proof.
  intros F []. split; try done.
  - eapply Forall_impl; [exact ee_assoc0 |]. intros e. cbn beta. by rewrite F.
  - intros fd. rewrite F. apply ee_not_ready0.
Qed.

Lemma evport_poll_spec k n a r cur top :
  evport_wf k n -> 0 <= n -> evport_answers k n a r ->
  exists fired k', aeApiPoll k cur top a = Ok (fired, k') /\ evport_wf k' n /\
    (forall g, evport_watched k' g = evport_watched k g) /\
    zlen fired <= n /\ Forall (fun e => 0 <= e.1 < n) fired /\
    forall fd, Z.land (evport_watched k fd) (fired_bits fired fd) = Z.land (evport_watched k fd) (r fd).
Proof.
  intros W Hn A. destruct k as [p0 l]. destruct (reassociate_spec n l p0 W) as (p & E & Wp & F).
  unfold aeApiPoll. cbn [pending port]. rewrite E, bind_Ok.
  assert (Hnone : (forall fd, Z.land (evport_watched (EvPort p0 l) fd) (r fd) = 0) ->
    exists fired k', Ok ([], EvPort p []) = Ok (fired, k') /\ evport_wf k' n /\
    (forall g, evport_watched k' g = evport_watched (EvPort p0 l) g) /\
    zlen fired <= n /\ Forall (fun e : Z * Z => 0 <= e.1 < n) fired /\
    forall fd, Z.land (evport_watched (EvPort p0 l) fd) (fired_bits fired fd) = Z.land (evport_watched (EvPort p0 l) fd) (r fd)).
  { intros R0. exists [], (EvPort p []). split; [done |]. split; [done |]. split; [done |]. split; [unfold zlen; cbn; lia |].
    split; [done |]. intros fd. cbn [fired_bits]. by rewrite R0, Z.land_0_r. }
  assert (Hret : forall es, evport_events (EvPort p0 l) es r -> exists fired k', returned p es = Ok (fired, k') /\
    evport_wf k' n /\ (forall g, evport_watched k' g = evport_watched (EvPort p0 l) g) /\
    zlen fired <= n /\ Forall (fun e : Z * Z => 0 <= e.1 < n) fired /\
    forall fd, Z.land (evport_watched (EvPort p0 l) fd) (fired_bits fired fd) = Z.land (evport_watched (EvPort p0 l) fd) (r fd)).
  { intros es Ae. destruct (returned_spec n p es r Wp Hn (evport_events_ext _ _ _ _ F Ae)) as (fired & k' & Er & W' & F' & L & R & B).
    exists fired, k'. split; [done |]. split; [done |]. split; [intros g; by rewrite F' |]. split; [done |]. split; [done |].
    intros fd. rewrite <- F. apply B. }
  destruct a as [es | es | |]; cbn [evport_answers] in A; [by apply Hret | | by apply Hnone | done].
  destruct es as [| e es]; [| by apply Hret]. apply Hnone. intros fd. apply (ee_not_ready _ _ _ A). apply not_elem_of_nil.
Qed.

#[export] Instance evport_api_laws : AeApiLaws (evport K).
Proof.
  split; cbn [api_masks api_wf api_watched api_add api_del api_resize api_poll api_answers evport_api].
  - done.
  - unfold AE_READABLE. lia.
  - unfold AE_WRITABLE. lia.
  - intros k n fd. apply evport_watched_range.
  - intros k n fd mask. apply evport_add_spec.
  - intros k n fd mask. apply evport_del_spec.
  - intros k n n' W Hn Hroom Ht. right. assert (Hr : forall fd, evport_watched k fd <> 0 -> 0 <= fd < n').
    { intros fd Hw. pose proof (evport_watched_range k n fd W Hw). pose proof (Ht fd Hw). lia. }
    assert (Hw : forall fd, (fd <> -1 /\ fd ∈ (pending k).*1) \/ is_Some (assoc (port k) !! fd) -> evport_watched k fd <> 0).
    { intros fd Hfd. unfold evport_watched. destruct (pending_mask (pending k) fd) as [m |] eqn:E.
      - apply pending_mask_Some in E. pose proof (proj1 (Forall_forall _ _) (ew_pending _ _ W) _ E) as P. cbn [fst snd] in P.
        destruct (Z.eqb_spec fd (-1)) as [-> |]; [| lia]. destruct Hfd as [[] | [[e u] Ea]]; [done |].
        apply (ew_assoc _ _ W) in Ea. lia.
      - apply pending_mask_None in E. destruct Hfd as [[] | [[e u] Ea]]; [done |]. rewrite Ea.
        apply (ew_assoc _ _ W) in Ea. lia. }
    destruct W as [W1 W2 W3 W4]. split; [done | done | |].
    + apply Forall_forall. intros [fd m] Hin. pose proof (proj1 (Forall_forall _ _) W3 _ Hin) as P. cbn [fst snd] in *.
      destruct (Z.eqb_spec fd (-1)); [done |]. destruct P as (? & ? & ? & ?). split; [| done]. apply Hr, Hw. left.
      split; [done |]. by apply (list_elem_of_fmap_2' fst _ (fd, m)).
    + intros fd e u Ea. destruct (W4 _ _ _ Ea) as (? & ? & -> & ?). split; [| done]. apply Hr, Hw. right. by eexists.
  - intros k n cur top a r W Ht _ _ A. apply evport_poll_spec; [done | lia | done].
Qed.
End laws.

(** Unlike epoll's, an event that is only an error or a hang-up is reported with
    an empty mask: no handler runs, and the descriptor is associated again. *)
Lemma evport_hangup_unseen {K} `{Port K} p fd u :
  returned p [(fd, Z.lor POLLERR POLLHUP, u)] =
    Ok ([(fd, AE_NONE)], EvPort (port_take p [fd]) [(fd, u)]).
Proof. reflexivity. Qed.

(** A port with room for 65536 descriptors, for concrete runs: the associations and
    the descriptors that have had one. *)
Definition map_associate (k : gmap Z (Z * Z) * gset Z) (fd ev u : Z) : Z * (gmap Z (Z * Z) * gset Z) :=
  if bool_decide (is_Some (k.1 !! fd)) || (Z.of_nat (size k.1) <? 65536)
  then (0, (<[fd := (ev, u)]> k.1, {[fd]} ∪ k.2)) else (-1, k).

Definition map_dissociate (k : gmap Z (Z * Z) * gset Z) (fd : Z) : Z * (gmap Z (Z * Z) * gset Z) :=
  if bool_decide (is_Some (k.1 !! fd)) then (0, (delete fd k.1, k.2)) else (-1, k).

Definition map_take (k : gmap Z (Z * Z) * gset Z) (fds : list Z) : gmap Z (Z * Z) * gset Z :=
  (filter (fun e => e.1 ∉ fds) k.1, k.2).

#[export] Instance map_port : Port (gmap Z (Z * Z) * gset Z) := {
  assoc k := k.1;
  port_associate := map_associate;
  port_dissociate := map_dissociate;
  port_take := map_take;
  port_valid k fd := fd ∈ k.2;
  port_limit := 65536;
}.

#[export] Instance map_port_laws : PortLaws (gmap Z (Z * Z) * gset Z).
Proof.
  split; cbn; unfold map_associate, map_dissociate, map_take.
  - intros k fd ev u. by destruct (_ || _).
  - intros k fd ev u. destruct (_ || _); [| done]. intros _. split; [done |]. intros g. cbn.
    by rewrite elem_of_union, elem_of_singleton.
  - intros k fd ev u _ Hr. destruct (bool_decide_reflect (is_Some (k.1 !! fd))) as [| Hn]; [done |].
    destruct Hr as [| Hr]; [done |]. apply Z.ltb_lt in Hr. by rewrite Hr.
  - intros k fd Hs. by rewrite bool_decide_eq_true_2.
  - intros k fds fd. cbn. split; [| done]. case_bool_decide as Hin.
    + apply map_lookup_filter_None. right. intros x _ Hx. by apply Hx.
    + destruct (k.1 !! fd) as [x |] eqn:E; [by apply map_lookup_filter_Some |].
      apply map_lookup_filter_None. by left.
Qed.
