(* ===== verification/AeBackends.v ===== *)
(** * The four back ends of ae.c compared

    A loop does not show which back end it runs on: the same registrations, with
    the same results, make the same table, and the same readiness is then
    reported as the same events. *)
From S2P Require Import Prelude AeEpoll AeSelect AeKqueue AeEvport Ae.

Section runs.
  Context {P D : Type} `{EqDecision P}.

(** One operation with the result the caller sees. *)
Definition run_op {K} `{AeApi K} (o : file_op P D) (el : aeEventLoop P D K) : outcome (Z * aeEventLoop P D K) :=
  match o with
  | FCreate fd mask p d => aeCreateFileEvent el fd mask p d
  | FDelete fd mask => el ← aeDeleteFileEvent el fd mask; mret (0, el)
  | FResize n => mret (aeResizeSetSize el n)
  end.

Fixpoint run_trace {K} `{AeApi K} (os : list (file_op P D)) (el : aeEventLoop P D K)
    : outcome (list Z * aeEventLoop P D K) :=
  match os with
  | [] => mret ([], el)
  | o :: os =>
    '(r, el) ← run_op o el;
    '(rs, el) ← run_trace os el;
    mret (r :: rs, el)
  end.

(** What the back end does not own. *)
Definition same_table {K1 K2} (el1 : aeEventLoop P D K1) (el2 : aeEventLoop P D K2) : Prop :=
  events el1 = events el2 /\ setsize el1 = setsize el2 /\ maxfd el1 = maxfd el2.

(** Registering with the kernel leaves the table alone. *)
Lemma add_table {K} `{AeApi K} (el : aeEventLoop P D K) fd mask r el' :
  aeApiAddEvent el fd mask = Ok (r, el') -> events el' = events el /\ setsize el' = setsize el /\ maxfd el' = maxfd el.
Proof. intros A. apply bind_Ok_inv in A as (c & _ & A). by apply bind_Ok_inv in A as ([? k] & _ & [= <- <-]). Qed.

Lemma del_table {K} `{AeApi K} (el : aeEventLoop P D K) fd mask el' :
  aeApiDelEvent el fd mask = Ok el' -> events el' = events el /\ setsize el' = setsize el /\ maxfd el' = maxfd el.
Proof. intros A. apply bind_Ok_inv in A as (c & _ & A). by apply bind_Ok_inv in A as (k & _ & [= <-]). Qed.

Lemma create_same {K1 K2} `{AeApiLaws K1} `{AeApiLaws K2} (el1 : aeEventLoop P D K1) (el2 : aeEventLoop P D K2)
    fd mask p d r el1' el2' :
  same_table el1 el2 ->
  aeCreateFileEvent el1 fd mask p d = Ok (r, el1') -> aeCreateFileEvent el2 fd mask p d = Ok (r, el2') ->
  same_table el1' el2'.
Proof.
  intros (Ev & Es & Em) E1 E2. unfold aeCreateFileEvent in E1, E2. rewrite <- Es in E2.
  destruct (fd >=? setsize el1); [by injection E1 as _ <-; injection E2 as _ <- |].
  apply bind_Ok_inv in E1 as ([r1 l1] & A1 & E1). apply bind_Ok_inv in E2 as ([r2 l2] & A2 & E2).
  destruct (add_table _ _ _ _ _ A1) as (V1 & S1 & M1), (add_table _ _ _ _ _ A2) as (V2 & S2 & M2). cbn [fst snd] in *. rewrite V1 in E1. rewrite V2, <- Ev in E2.
  destruct (r1 =? -1), (r2 =? -1).
  - injection E1 as _ <-. injection E2 as _ <-. repeat split; congruence.
  - injection E1 as <- <-. apply bind_Ok_inv in E2 as (? & _ & E2). by apply bind_Ok_inv in E2 as (? & _ & [=]).
  - injection E2 as <- <-. apply bind_Ok_inv in E1 as (? & _ & E1). by apply bind_Ok_inv in E1 as (? & _ & [=]).
  - apply bind_Ok_inv in E1 as (fe & G1 & E1). rewrite G1, bind_Ok in E2.
    apply bind_Ok_inv in E1 as (evs & A & E1). rewrite A, bind_Ok in E2.
    injection E1 as _ <-. injection E2 as _ <-. cbn [set_events maxfd]. rewrite M1, M2, Em.
    destruct (fd >? maxfd el2); repeat split; cbn; congruence.
Qed.

Lemma delete_same {K1 K2} `{AeApiLaws K1} `{AeApiLaws K2} (el1 : aeEventLoop P D K1) (el2 : aeEventLoop P D K2)
    fd mask el1' el2' :
  same_table el1 el2 -> aeDeleteFileEvent el1 fd mask = Ok el1' -> aeDeleteFileEvent el2 fd mask = Ok el2' ->
  same_table el1' el2'.
Proof.
  intros (Ev & Es & Em) E1 E2. unfold aeDeleteFileEvent in E1, E2. rewrite <- Es, <- Ev in E2.
  destruct (fd >=? setsize el1); [by injection E1 as <-; injection E2 as <- |].
  apply bind_Ok_inv in E1 as (fe & G & E1). rewrite G, bind_Ok in E2.
  destruct (fmask fe =? AE_NONE); [by injection E1 as <-; injection E2 as <- |].
  apply bind_Ok_inv in E1 as (evs & A & E1). rewrite A, bind_Ok in E2. cbn [set_events maxfd] in *. rewrite <- Em in E2.
  apply bind_Ok_inv in E1 as (l1 & L1 & X1). apply bind_Ok_inv in E2 as (l2 & L2 & X2).
  unfold same_table.
  apply del_table in X1 as (-> & -> & ->). apply del_table in X2 as (-> & -> & ->).
  destruct (_ && _).
  - apply bind_Ok_inv in L1 as (j & J & [= <-]). rewrite J, bind_Ok in L2. injection L2 as <-. repeat split; cbn; congruence.
  - injection L1 as <-. injection L2 as <-. repeat split; cbn; congruence.
Qed.

Lemma resize_same {K1 K2} `{AeApiLaws K1} `{AeApiLaws K2} (el1 : aeEventLoop P D K1) (el2 : aeEventLoop P D K2) n :
  same_table el1 el2 -> (aeResizeSetSize el1 n).1 = (aeResizeSetSize el2 n).1 ->
  same_table (aeResizeSetSize el1 n).2 (aeResizeSetSize el2 n).2.
Proof.
  intros (Ev & Es & Em). unfold aeResizeSetSize. rewrite <- Es, <- Em, <- Ev.
  destruct (n =? setsize el1); [done |]. destruct (maxfd el1 >=? n); [done |].
  destruct (api_resize (kernel el1) n =? -1), (api_resize (kernel el2) n =? -1); cbn; done.
Qed.
End runs.

Section agree.
  Context {P D K1 K2 : Type} `{EqDecision P} `{AeApiLaws K1} `{AeApiLaws K2}.

Lemma run_op_ok {K} `{AeApiLaws K} (o : file_op P D) (el : aeEventLoop P D K) :
  ae_ok el -> valid_op K o -> exists r el', run_op o el = Ok (r, el') /\ ae_ok el'.
Proof.
  intros I Ho. destruct o as [fd mask p d | fd mask | n]; destruct Ho as [Hf Hm]; simpl.
  - destruct (aeCreateFileEvent_cases el fd mask p d I Hf Hm) as (r & el' & E & I' & _). by exists r, el'.
  - destruct (aeDeleteFileEvent_cases el fd mask I Hf Hm) as (el' & E & I' & _). rewrite E. by exists 0, el'.
  - destruct (aeResizeSetSize_cases el n I Hf Hm) as (el' & E & I' & _). rewrite E. by eexists _, el'.
Qed.

Lemma run_op_same o (el1 : aeEventLoop P D K1) (el2 : aeEventLoop P D K2) r el1' el2' :
  same_table el1 el2 -> run_op o el1 = Ok (r, el1') -> run_op o el2 = Ok (r, el2') -> same_table el1' el2'.
Proof.
  intros S. destruct o as [fd mask p d | fd mask | n]; simpl.
  - by apply create_same.
  - intros (x & E1 & [= <- <-])%bind_Ok_inv (y & E2 & [= <-])%bind_Ok_inv. by eapply delete_same.
  - intros [= E1] [= E2]. pose proof (resize_same el1 el2 n S) as R. rewrite E1, E2 in R. by apply R.
Qed.

Lemma run_trace_ok {K} `{AeApiLaws K} os (el : aeEventLoop P D K) :
  ae_ok el -> Forall (valid_op K) os -> exists rs el', run_trace os el = Ok (rs, el') /\ ae_ok el'.
Proof.
  intros I Hv. revert el I. induction Hv as [| o os Ho _ IH]; intros el I; [by exists [], el |].
  destruct (run_op_ok o el I Ho) as (r & el1 & E & I1). destruct (IH el1 I1) as (rs & el2 & E2 & I2).
  simpl. rewrite E, bind_Ok, E2. by exists (r :: rs), el2.
Qed.

Lemma run_trace_same os (el1 : aeEventLoop P D K1) (el2 : aeEventLoop P D K2) rs el1' el2' :
  same_table el1 el2 -> run_trace os el1 = Ok (rs, el1') -> run_trace os el2 = Ok (rs, el2') ->
  same_table el1' el2'.
Proof.
  revert el1 el2 rs. induction os as [| o os IH]; intros el1 el2 rs S; simpl.
  - by intros [= _ <-] [= _ <-].
  - intros ([r1 l1] & E1 & ([rs1 m1] & F1 & [= <- <-])%bind_Ok_inv)%bind_Ok_inv
      ([r2 l2] & E2 & ([rs2 m2] & F2 & [= <- <- <-])%bind_Ok_inv)%bind_Ok_inv.
    eapply IH; [by eapply run_op_same | exact F1 | exact F2].
Qed.

(** C16: a client cannot tell the back ends apart.  Run the same registrations,
    removals and resizes on two fresh loops over any two of epoll, select,
    kqueue and event ports: neither run reads or writes out of bounds, and if the
    results were the same then so are the two tables, and whenever the two
    kernels show the same descriptors to be ready, both polls fit in [fired]
    and report the same registered events. *)
Theorem backends_agree sz now (k1 : K1) (k2 : K2) (os : list (file_op P D)) :
  0 <= sz -> api_wf k1 sz -> api_wf k2 sz ->
  (forall fd, api_watched k1 fd = 0) -> (forall fd, api_watched k2 fd = 0) ->
  Forall (valid_op K1) os -> Forall (valid_op K2) os ->
  exists rs1 el1 rs2 el2,
    run_trace os (aeCreateEventLoop sz now k1) = Ok (rs1, el1) /\
    run_trace os (aeCreateEventLoop sz now k2) = Ok (rs2, el2) /\
    (rs1 = rs2 -> same_table el1 el2 /\
     forall a1 a2 r, api_answers (kernel el1) (setsize el1) a1 r -> api_answers (kernel el2) (setsize el2) a2 r ->
       exists f1 el1' f2 el2', aeApiPoll el1 a1 = Ok (f1, el1') /\ aeApiPoll el2 a2 = Ok (f2, el2') /\
         forall fd, 0 <= fd ->
           Z.land (fd_mask el1 fd) (fired_bits f1 fd) = Z.land (fd_mask el2 fd) (fired_bits f2 fd)).
Proof.
  intros Hs W1 W2 Z1 Z2 V1 V2.
  destruct (run_trace_ok os (aeCreateEventLoop sz now k1)) as (rs1 & el1 & E1 & I1); [by apply aeCreateEventLoop_ok | done |].
  destruct (run_trace_ok os (aeCreateEventLoop sz now k2)) as (rs2 & el2 & E2 & I2); [by apply aeCreateEventLoop_ok | done |].
  exists rs1, el1, rs2, el2. split; [done |]. split; [done |]. intros <-.
  assert (T : same_table el1 el2) by (eapply run_trace_same; [| exact E1 | exact E2]; done).
  split; [done |]. intros a1 a2 r A1 A2. destruct T as (Ev & _).
  destruct (polls_agree el1 el2 a1 a2 r I1 I2) as (f1 & el1' & f2 & el2' & P1 & P2 & _ & _ & _ & Hb);
    [intros fd; unfold fd_mask; by rewrite Ev | done | done |].
  by exists f1, el1', f2, el2'.
Qed.
End agree.

Definition two_fds : list (file_op Z Z) :=
  [FCreate 5 AE_READABLE 1 None; FCreate 7 AE_WRITABLE 2 None; FCreate 7 AE_READABLE 3 None; FDelete 5 AE_READABLE;
   FCreate 40 AE_READABLE 4 None; FResize 64].

(** epoll and event ports. *)
Lemma backends_agree_witness :
  exists rs1 el1 rs2 el2,
    run_trace two_fds (aeCreateEventLoop 16 0 (∅ : gmap Z Z)) = Ok (rs1, el1) /\
    run_trace two_fds (aeCreateEventLoop 16 0 (AeEvport.aeApiCreate (∅, ∅))) = Ok (rs2, el2) /\
    rs1 = [0; 0; 0; 0; -1; 0] /\ same_table el1 el2.
Proof.
  destruct (backends_agree (K1 := gmap Z Z) (K2 := evport (gmap Z (Z * Z) * gset Z)) 16 0 ∅
    (AeEvport.aeApiCreate (∅, ∅)) two_fds) as (rs1 & el1 & rs2 & el2 & E1 & E2 & T).
  - lia.
  - by intros fd ev [=].
  - split; [done | constructor | constructor |]. intros fd e u. cbn. by rewrite lookup_empty.
  - intros fd. apply epoll_watched_None. exact (lookup_empty (M := gmap Z) fd).
  - intros fd. unfold api_watched, evport_api, evport_watched. cbn. by rewrite lookup_empty.
  - repeat constructor; vm_compute; congruence.
  - repeat constructor; vm_compute; congruence.
  - exists rs1, el1, rs2, el2. split; [exact E1 |]. split; [exact E2 |].
    assert (R : rs1 = [0; 0; 0; 0; -1; 0] /\ rs2 = [0; 0; 0; 0; -1; 0]).
    { clear T. revert E1 E2. vm_compute. intros [= <- _] [= <- _]. done. }
    destruct R as [R1 R2]. split; [exact R1 |]. apply T. congruence.
Defined.
