(* ===== verification/Socket.v ===== *)
(** * socket.c: the state of a connection and its event handlers

    The sockets live in one array ([T->sockets] of tcp.c) and share the event
    loop; both are fields of [net], which every function here threads.  What
    the operating system answers (readv, send, write, accept, getsockopt) is an
    argument of the handler that asks.  The messages sent to the services
    ([zSendx]), the descriptors closed and the bytes handed to the kernel are
    recorded in order. *)
From S2P Require Import Prelude Define Buffer Proto Ae.

Definition READ_BUFFER_INITIAL : Z := 64.
Definition SEND_BUFFER_INITIAL : Z := 64.

Inductive socketTypeE := kSocketNoneType | kReserveType | kAcceptType | kSocketType | kConnectType.
Inductive socketStateE :=
  | kSocketDisconnected | kSocketConnecting | kSocketConnected | kSocketDisConnecting.

#[export] Instance socketTypeE_eq_dec : EqDecision socketTypeE.
Proof. solve_decision. Defined.
#[export] Instance socketStateE_eq_dec : EqDecision socketStateE.
Proof. solve_decision. Defined.

Record socket := Socket {
  s_from : Z;
  s_protoType : Z;
  s_id : Z;
  s_fd : Z;
  s_type : socketTypeE;
  s_state : socketStateE;
  s_readBuffer : option buffer;
  s_sendBuffer : option buffer;
}.

Definition set_from (s : socket) v := Socket v (s_protoType s) (s_id s) (s_fd s) (s_type s) (s_state s) (s_readBuffer s) (s_sendBuffer s).
Definition set_protoType (s : socket) v := Socket (s_from s) v (s_id s) (s_fd s) (s_type s) (s_state s) (s_readBuffer s) (s_sendBuffer s).
Definition set_id (s : socket) v := Socket (s_from s) (s_protoType s) v (s_fd s) (s_type s) (s_state s) (s_readBuffer s) (s_sendBuffer s).
Definition set_fd (s : socket) v := Socket (s_from s) (s_protoType s) (s_id s) v (s_type s) (s_state s) (s_readBuffer s) (s_sendBuffer s).
Definition set_type (s : socket) v := Socket (s_from s) (s_protoType s) (s_id s) (s_fd s) v (s_state s) (s_readBuffer s) (s_sendBuffer s).
Definition set_state (s : socket) v := Socket (s_from s) (s_protoType s) (s_id s) (s_fd s) (s_type s) v (s_readBuffer s) (s_sendBuffer s).
Definition set_readBuffer (s : socket) v := Socket (s_from s) (s_protoType s) (s_id s) (s_fd s) (s_type s) (s_state s) v (s_sendBuffer s).
Definition set_sendBuffer (s : socket) v := Socket (s_from s) (s_protoType s) (s_id s) (s_fd s) (s_type s) (s_state s) (s_readBuffer s) v.

(** The functions registered with the event loop; the client data is the index
    of the socket.  [PMsgqueue] is the message queue's descriptor. *)
Inductive proc := PAccept | PRead | PWrite | PConnecting | PMsgqueue.
#[export] Instance proc_eq_dec : EqDecision proc.
Proof. solve_decision. Defined.

(** What readv, send and write return: the bytes, or a count, which is at most
    the count passed in; or [-1] with the errno tests the code makes. *)
Inductive read_result := ReadBytes (bs : list Z) | ReadError.
Inductive send_result := Sent (n : nat) | SendAgain | SendError.
Inductive write_result := Wrote (n : nat) | WriteAgain | WriteReset | WriteOther.
Inductive accept_result := Accepted (cfd : Z) (ip : list Z) | AcceptError.

(** The error texts the code formats with the system's own messages. *)
Inductive tcp_error :=
  | ErrAccept | ErrIdFull | ErrConnect | ErrErrno
  | ErrListen | ErrListenId | ErrStartId | ErrStartState | ErrStart
  | ErrConnectId | ErrConnectAddr | ErrAsyncId | ErrAsyncAddr | ErrAsyncEvent
  | ErrCloseId | ErrSendId.

Section Socket.
  Context {K : Type} `{AeApi K}.
  Variable undef : Z.
  Variable errtext : tcp_error -> list Z.

Record net := Net {
  allocId : Z;
  setsize : Z;
  sockets : list socket;
  loop : aeEventLoop proc nat K;
  out : list zsend;
  closed : list Z;
  wire : list (Z * list Z);
}.

Definition with_sockets (n : net) v := Net (allocId n) (setsize n) v (loop n) (out n) (closed n) (wire n).
Definition with_allocId (n : net) v := Net v (setsize n) (sockets n) (loop n) (out n) (closed n) (wire n).
Definition with_loop (n : net) v := Net (allocId n) (setsize n) (sockets n) v (out n) (closed n) (wire n).
Definition with_out (n : net) v := Net (allocId n) (setsize n) (sockets n) (loop n) v (closed n) (wire n).
Definition with_closed (n : net) v := Net (allocId n) (setsize n) (sockets n) (loop n) (out n) v (wire n).
Definition with_wire (n : net) v := Net (allocId n) (setsize n) (sockets n) (loop n) (out n) (closed n) v.

Definition sock (i : nat) : ST net socket := fun n =>
  match sockets n !! i with Some s => Ok (s, n) | None => Fault OutOfBounds end.
Definition upd (i : nat) (f : socket -> socket) : ST net unit :=
  st_modify (fun n => with_sockets n (alter f i (sockets n))).
Definition send_msg (m : zsend) : ST net unit := st_modify (fun n => with_out n (out n ++ [m])).
Definition close_fd (fd : Z) : ST net unit := st_modify (fun n => with_closed n (closed n ++ [fd])).
Definition to_wire (fd : Z) (bs : list Z) : ST net unit :=
  st_modify (fun n => with_wire n (wire n ++ [(fd, bs)])).
Definition ae_create (fd mask : Z) (p : proc) (i : nat) : ST net Z := fun n =>
  r ← aeCreateFileEvent (loop n) fd mask p (Some i); Ok (r.1, with_loop n r.2).
Definition ae_delete (fd mask : Z) : ST net unit := fun n =>
  el ← aeDeleteFileEvent (loop n) fd mask; Ok (tt, with_loop n el).

(** ** tcp.c: identifiers and the error message *)

Definition tcpError (to id : Z) (err : tcp_error) : ST net unit :=
  send_msg (ZSend 0 to 0 (sock_type MSG_TYPE_SOCK_ERROR)
    (Some (errtext err ++ [undef])) (zlen (errtext err)) id).

Definition getIndex (id : Z) : ST net nat :=
  n ← st_get; mret (Z.to_nat (Z.land id (setsize n - 1))).

Definition tcpGetSocket (id : Z) : ST net (option nat) :=
  i ← getIndex id; s ← sock i; mret (if s_id s =? id then Some i else None).

Definition tcpRecoverId (id : Z) : ST net Z :=
  if id <? 0 then mret (-1)
  else
    i ← getIndex id; s ← sock i;
    _ ← st_assert (bool_decide (s_state s = kSocketDisconnected));
    _ ← upd i (fun s => set_type s kSocketNoneType);
    mret 0.

(** One turn of the loop of [tcpGetReserveId]; the compare-and-swap cannot fail
    when nobody else runs. *)
Definition reserve_turn : ST net (option Z) :=
  n ← st_get;
  let id := allocId n in
  _ ← st_modify (fun n => with_allocId n (i32 (id + 1)));
  id ← (if id <? 0 then
          let id := Z.land (i32 (id + 1)) 0x7FFFFFFF in
          _ ← st_modify (fun n => with_allocId n id); mret id
        else mret id);
  i ← getIndex id; s ← sock i;
  if bool_decide (s_type s = kSocketNoneType) then
    _ ← upd i (fun s => set_fd (set_id (set_type s kReserveType) id) (-1));
    mret (Some id)
  else mret None.

Fixpoint reserve_loop (k : nat) : ST net Z :=
  match k with
  | O => st_fault AssertFailed
  | S k => r ← reserve_turn; match r with Some id => mret id | None => reserve_loop k end
  end.

Definition tcpGetReserveId : ST net Z := n ← st_get; reserve_loop (Z.to_nat (setsize n)).

(** ** Closing *)

Definition handleClose (i : nat) : ST net unit :=
  s ← sock i;
  _ ← ae_delete (s_fd s) AE_READABLE;
  _ ← ae_delete (s_fd s) AE_WRITABLE;
  _ ← close_fd (s_fd s);
  _ ← upd i (fun s => set_state s kSocketDisconnected);
  _ ← tcpRecoverId (s_id s);
  send_msg (ZSend 0 (s_from s) 0 (sock_type MSG_TYPE_SOCK_CLOSE) None 0 (s_id s)).

Definition handleError (i : nat) : ST net unit :=
  _ ← handleClose i; s ← sock i; tcpError (s_from s) (s_id s) ErrErrno.

Definition socketForceClose (i : nat) : ST net Z :=
  s ← sock i;
  _ ← (if bool_decide (s_state s = kSocketConnected) || bool_decide (s_state s = kSocketConnecting)
       then handleClose i else _ ← tcpRecoverId (s_id s); mret tt);
  mret 0.

Definition socketStop (i : nat) : ST net unit :=
  s ← sock i;
  _ ← (if s_fd s >? 0 then close_fd (s_fd s) else mret tt);
  _ ← upd i (fun s => set_state s kSocketDisconnected);
  _ ← tcpRecoverId (s_id s);
  mret tt.

(** ** Reading *)

(** [readv] fills the buffer's free space, then [extrabuf]; the result is the
    byte count it returned, [-1] for an error. *)
Definition socketRead (i : nat) (r : read_result) : ST net Z :=
  s ← sock i;
  let buf := default (bufferCreate undef READ_BUFFER_INITIAL) (s_readBuffer s) in
  _ ← upd i (fun s => set_readBuffer s (Some buf));
  match r with
  | ReadError => mret (-1)
  | ReadBytes bs =>
    let writeable := bufferWriteableBytes buf in
    let n := zlen bs in
    if n =? 0 then mret n
    else
      let first := take (Z.to_nat writeable) bs in
      d ← st_lift (deref (data buf));
      d' ← st_lift (acopy_in d (writeIndex buf) first);
      let buf := Buffer (writeIndex buf) (readIndex buf) (initSize buf) (size buf) (Some d') in
      buf ← (if n <=? writeable then mret (bufferMoveWriteIndex buf n)
             else st_lift (bufferAppend undef (bufferSetWriteIndex buf (bufferGetSize buf))
                             (drop (Z.to_nat writeable) bs)));
      _ ← upd i (fun s => set_readBuffer s (Some buf));
      mret n
  end.

Definition onRead (i : nat) (r : read_result) : ST net unit :=
  n ← socketRead i r;
  if n >? 0 then
    s ← sock i;
    buf ← st_lift (deref (s_readBuffer s));
    '(ms, bad, buf) ← st_lift (onMessageCallback undef (s_protoType s) (s_from s) (s_id s) buf);
    _ ← upd i (fun s => set_readBuffer s (Some buf));
    _ ← st_modify (fun n => with_out n (out n ++ ms));
    if (bad : bool) then _ ← socketForceClose i; mret tt else mret tt
  else if n =? 0 then handleClose i
  else handleError i.

(** ** Writing *)

(** The send buffer and how the loop ended: everything sent, to be continued
    ([Some]), or an error; [sends k] is the [k]-th answer of [send]. *)
Fixpoint send_loop (fuel k : nat) (sends : nat -> send_result) (fd : Z) (buf : buffer)
    : ST net (buffer * option bool) :=
  match fuel with
  | O => st_fault OutOfFuel
  | S fuel =>
    match sends k with
    | Sent m =>
      let n := Z.min (Z.of_nat m) (bufferReadableBytes buf) in
      if n >? 0 then
        bs ← st_lift (bufferPeek buf 0 n);
        _ ← to_wire fd bs;
        let buf := bufferMoveReadIndex buf n in
        if bufferReadableBytes buf <=? 0 then mret (buf, Some true)
        else send_loop fuel (S k) sends fd buf
      else mret (buf, Some false)
    | SendAgain => mret (buf, Some false)
    | SendError => mret (buf, None)
    end
  end.

Definition onWrite (i : nat) (sends : nat -> send_result) : ST net unit :=
  s ← sock i;
  buf ← st_lift (deref (s_sendBuffer s));
  r ← send_loop (S (Z.to_nat (bufferReadableBytes buf))) 0 sends (s_fd s) buf;
  _ ← upd i (fun s => set_sendBuffer s (Some r.1));
  match r.2 with
  | None => handleError i
  | Some false => mret tt
  | Some true =>
    _ ← upd i (fun s => set_sendBuffer s (Some (bufferRetrieveAll r.1)));
    ae_delete (s_fd s) AE_WRITABLE
  end.

Definition hasSendBuffer (s : socket) : bool :=
  match s_sendBuffer s with
  | None => false
  | Some buf => negb (bufferReadableBytes buf =? 0)
  end.

Definition socketWrite (i : nat) (buf : list Z) (w : write_result) : ST net Z :=
  s ← sock i;
  if negb (bool_decide (s_state s = kSocketConnected)) then mret (-1)
  else
    '(nwrote, faultError) ←
      (if negb (hasSendBuffer s) then
         match w with
         | Wrote m =>
           _ ← to_wire (s_fd s) (take m buf); mret (Z.min (Z.of_nat m) (zlen buf), false)
         | WriteReset => mret (0, true)
         | _ => mret (0, false)
         end
       else mret (0, false));
    let remaining := zlen buf - nwrote in
    _ ← st_assert (0 <=? remaining);
    _ ← (if negb faultError && (remaining >? 0) then
           let sb := default (bufferCreate undef SEND_BUFFER_INITIAL) (s_sendBuffer s) in
           sb ← st_lift (bufferAppend undef sb (drop (Z.to_nat nwrote) buf));
           _ ← upd i (fun s => set_sendBuffer s (Some sb));
           _ ← ae_create (s_fd s) AE_WRITABLE PWrite i;
           mret tt
         else mret tt);
    if (faultError : bool) then _ ← handleError i; mret (-1) else mret 0.

(** ** Starting, accepting, connecting *)

Definition socketStart (i : nat) : ST net Z :=
  s ← sock i;
  _ ← st_assert (negb (s_fd s =? INVALID_FD));
  _ ← upd i (fun s => set_state s kSocketConnected);
  ae_create (s_fd s) AE_READABLE PRead i.

Definition socketAccept (i : nat) : ST net Z :=
  s ← sock i;
  _ ← st_assert (s_fd s >? 0);
  ae_create (s_fd s) AE_READABLE PAccept i.

Definition socketConnect (i : nat) : ST net Z :=
  s ← sock i; ae_create (s_fd s) AE_WRITABLE PConnecting i.

(** The message's block for the peer's address is allocated and not filled. *)
Definition onAccept (i : nat) (a : accept_result) : ST net unit :=
  s ← sock i;
  match a with
  | AcceptError => tcpError (s_from s) (s_id s) ErrAccept
  | Accepted cfd ip =>
    id ← tcpGetReserveId;
    if id <? 0 then tcpError (s_from s) (s_id s) ErrIdFull
    else
      j ← tcpGetSocket id;
      j ← match j with Some j => mret j | None => st_fault AssertFailed end;
      _ ← upd j (fun ns => Socket 0 (s_protoType s) (s_id ns) cfd kSocketType kSocketConnecting
            (bufferRetrieveAll <$> s_readBuffer ns) (bufferRetrieveAll <$> s_sendBuffer ns));
      ns ← sock j;
      send_msg (ZSend 0 (s_from s) (s_id s) (sock_type MSG_TYPE_SOCK_ACCEPT)
        (Some (zmalloc undef (zlen ip + 1))) (zlen ip) (s_id ns))
  end.

(** [err] is what [getsockopt(SO_ERROR)] yields, [None] its own failure. *)
Definition onConnecting (i : nat) (fd : Z) (err : option Z) : ST net unit :=
  _ ← ae_delete fd AE_WRITABLE;
  s ← sock i;
  if bool_decide (err = Some 0) then
    _ ← upd i (fun s => set_state s kSocketConnecting);
    send_msg (ZSend 0 (s_from s) 0 (sock_type MSG_TYPE_SOCK_CONNECT) None 0 (s_id s))
  else
    _ ← tcpError (s_from s) (s_id s) ErrConnect;
    socketStop i.

(** [socketInit]; the event loop is the state's. *)
Definition socketInit : socket :=
  Socket 0 0 0 0 kSocketNoneType kSocketDisconnected None None.
End Socket.
Arguments net : clear implicits.
