(* ===== verification/Tcp.v ===== *)
(** * tcp.c: the request queue in front of the sockets

    Services post requests from worker threads; the event-loop thread takes
    them off its message queue and runs [handleEvent].  [emPush] of
    event_msgqueue.c is represented by whether it accepted the request. *)
From S2P Require Import Prelude Bits Define Buffer Proto Ae Socket.

Inductive tcpRequestBody :=
  | kTcpSocketListen (addr : list Z) (port protoType backlog : Z)
  | kTcpSocketStart
  | kTcpSocketConnect (addr : list Z) (port protoType : Z)
  | kTcpSocketAsyncConnect (addr : list Z) (port protoType : Z)
  | kTcpSocketClose
  | kTcpSocketSend (data : option (list Z)) (sz : Z)
  | kTcpStop.

Record tcpRequest := Request {
  req_from : Z;
  req_ids : list Z;
  req_body : tcpRequestBody;
}.

(** What the system answers while one request is handled: the descriptor of
    [anetTcpServer] or [anetTcpConnect] ([-1] for [ANET_ERR]), whether [errno]
    is [EINPROGRESS], and the [write] of each socket. *)
Record answers := Answers {
  an_fd : Z;
  an_inprogress : bool;
  an_write : nat -> write_result;
}.

Section Tcp.
  Context {K : Type} `{AeApi K}.
  Variable undef : Z.
  Variable errtext : tcp_error -> list Z.

Definition req_id (r : tcpRequest) : outcome Z := aget (req_ids r) 0.

Definition handleTcpSocketListen (r : tcpRequest) (protoType fd : Z) : ST (net K) unit :=
  id ← st_lift (req_id r);
  if fd =? -1 then tcpError undef errtext (req_from r) id ErrListen
  else
    o ← tcpGetSocket id;
    match o with
    | None => tcpError undef errtext (req_from r) id ErrListenId
    | Some i =>
      upd i (fun s => set_protoType (set_fd (set_type (set_state s kSocketConnecting) kAcceptType) fd) protoType)
    end.

Definition handleTcpSocketStart (r : tcpRequest) : ST (net K) unit :=
  id ← st_lift (req_id r);
  o ← tcpGetSocket id;
  match o with
  | None => tcpError undef errtext (req_from r) id ErrStartId
  | Some i =>
    s ← sock i;
    if negb (bool_decide (s_state s = kSocketConnecting)) then tcpError undef errtext (req_from r) id ErrStartState
    else
      _ ← upd i (fun s => set_from s (req_from r));
      ret ← (if bool_decide (s_type s = kAcceptType) then socketAccept i
             else if bool_decide (s_type s = kSocketType) || bool_decide (s_type s = kConnectType)
             then socketStart i else mret (-1));
      if ret <? 0 then _ ← socketStop i; tcpError undef errtext (req_from r) id ErrStart else mret tt
  end.

Definition handleTcpSocketConnect (r : tcpRequest) (protoType fd : Z) : ST (net K) unit :=
  id ← st_lift (req_id r);
  o ← tcpGetSocket id;
  match o with
  | None => tcpError undef errtext (req_from r) id ErrConnectId
  | Some i =>
    if fd =? -1 then tcpError undef errtext (req_from r) id ErrConnectAddr
    else upd i (fun s => set_fd (set_state (set_protoType (set_type s kConnectType) protoType) kSocketConnecting) fd)
  end.

Definition handleTcpSocketAsyncConnect (r : tcpRequest) (protoType fd : Z) (inprogress : bool)
    : ST (net K) unit :=
  id ← st_lift (req_id r);
  o ← tcpGetSocket id;
  match o with
  | None => tcpError undef errtext (req_from r) id ErrAsyncId
  | Some i =>
    _ ← upd i (fun s => set_from s (req_from r));
    if (fd =? -1) || negb inprogress then
      _ ← tcpRecoverId id;
      s ← sock i; tcpError undef errtext (req_from r) (s_id s) ErrAsyncAddr
    else
      ret ← socketConnect i;
      if ret <? 0 then
        _ ← tcpRecoverId id;
        s ← sock i; tcpError undef errtext (req_from r) (s_id s) ErrAsyncEvent
      else
        upd i (fun s => set_protoType (set_type (set_fd (set_state s kSocketConnecting) fd) kConnectType) protoType)
  end.

Definition handleTcpSocketClose (r : tcpRequest) : ST (net K) unit :=
  id ← st_lift (req_id r);
  o ← tcpGetSocket id;
  match o with
  | None => tcpError undef errtext (req_from r) id ErrCloseId
  | Some i => _ ← socketForceClose i; mret tt
  end.

(** The [for] loop over the ids; [k] counts them. *)
Fixpoint send_each (r : tcpRequest) (data : list Z) (w : nat -> write_result) (k : nat) (ids : list Z)
    : ST (net K) unit :=
  match ids with
  | [] => mret tt
  | id :: ids =>
    o ← tcpGetSocket id;
    _ ← (match o with
         | None => tcpError undef errtext (req_from r) id ErrSendId
         | Some i => _ ← socketWrite undef errtext i data (w k); mret tt
         end);
    send_each r data w (S k) ids
  end.

Definition handleTcpSocketSend (r : tcpRequest) (data : option (list Z)) (sz : Z)
    (w : nat -> write_result) : ST (net K) unit :=
  match data with
  | None => mret tt
  | Some d => bs ← st_lift (acopy_out d 0 sz); send_each r bs w 0 (req_ids r)
  end.

Definition handleEvent (r : tcpRequest) (a : answers) : ST (net K) unit :=
  match req_body r with
  | kTcpSocketListen _ _ p _ => handleTcpSocketListen r p (an_fd a)
  | kTcpSocketStart => handleTcpSocketStart r
  | kTcpSocketConnect _ _ p => handleTcpSocketConnect r p (an_fd a)
  | kTcpSocketAsyncConnect _ _ p => handleTcpSocketAsyncConnect r p (an_fd a) (an_inprogress a)
  | kTcpSocketClose => handleTcpSocketClose r
  | kTcpSocketSend data sz => handleTcpSocketSend r data sz (an_write a)
  | kTcpStop => st_modify (fun n => with_loop n (aeStop (loop n)))
  end.

(** ** The services' side; [pushed] is whether [emPush] accepted the request *)

Definition tcpPostRequest (pushed : bool) (id : Z) (r : tcpRequest) : ST (net K) (Z * option tcpRequest) :=
  if negb pushed then _ ← tcpRecoverId id; mret (-1, None) else mret (id, Some r).

(** [snprintf(dst, 32, "%s", addr)] *)
Definition addr32 (addr : list Z) : list Z := take 31 addr.

Definition SOMAXCONN : Z := 4096.

Definition tcpSocketListen (pushed : bool) (ctx protoType : Z) (addr : list Z) (port : Z)
    : ST (net K) (Z * option tcpRequest) :=
  id ← tcpGetReserveId;
  tcpPostRequest pushed id (Request ctx [id] (kTcpSocketListen (addr32 addr) port protoType SOMAXCONN)).

Definition tcpSocketStart (pushed : bool) (ctx id : Z) : ST (net K) (Z * option tcpRequest) :=
  tcpPostRequest pushed id (Request ctx [id] kTcpSocketStart).

Definition tcpSocketConnect (pushed : bool) (ctx protoType : Z) (addr : list Z) (port : Z)
    : ST (net K) (Z * option tcpRequest) :=
  id ← tcpGetReserveId;
  tcpPostRequest pushed id (Request ctx [id] (kTcpSocketConnect (addr32 addr) port protoType)).

Definition tcpSocketAsyncConnect (pushed : bool) (ctx protoType : Z) (addr : list Z) (port : Z)
    : ST (net K) (Z * option tcpRequest) :=
  id ← tcpGetReserveId;
  tcpPostRequest pushed id (Request ctx [id] (kTcpSocketAsyncConnect (addr32 addr) port protoType)).

Definition tcpSocketClose (pushed : bool) (ctx id : Z) : ST (net K) (Z * option tcpRequest) :=
  tcpPostRequest pushed id (Request ctx [id] kTcpSocketClose).

Definition tcpSocketSend (pushed : bool) (ctx : Z) (ids : list Z) (data : option (list Z)) (sz : Z)
    : ST (net K) (Z * option tcpRequest) :=
  tcpPostRequest pushed (-1) (Request ctx ids (kTcpSocketSend data sz)).

Definition tcpStop (pushed : bool) : ST (net K) (Z * option tcpRequest) :=
  tcpPostRequest pushed (-1) (Request 0 [] kTcpStop).

Definition tcpInit (setsize : Z) (el : aeEventLoop proc nat K) : net K :=
  let setsize := nextpow2 setsize in
  Net 1 setsize (replicate (Z.to_nat setsize) socketInit) el [] [] [].
End Tcp.
