(* ===== verification/NetProps.v ===== *)
(** * Properties of socket.c and tcp.c

    What [Socket] and [Tcp] do, branch by branch, and the theorems about
    connections: delivery of the received stream, order of the sent stream,
    identifiers, closing, and the failures the code runs into. *)
From S2P Require Import Prelude Bits Define Buffer Proto Ae AeEpoll Socket Tcp.

(** ** Running single statements *)
Section basics.
  Context {K : Type} `{AeApi K}.
  Implicit Types n : net K.

Lemma sock_Ok i n s : sockets n !! i = Some s -> sock i n = Ok (s, n).
Proof. unfold sock. by intros ->. Qed.

Lemma alter_known {A} (f : A -> A) i (l : list A) x :
  l !! i = Some x -> alter f i l = <[i := f x]> l.
Proof.
  revert i. induction l as [| y l IH]; intros [| i] E; simplify_eq/=; [done |].
  f_equal. by apply IH.
Qed.

Lemma upd_Ok i f n s :
  sockets n !! i = Some s -> upd i f n = Ok (tt, with_sockets n (<[i := f s]> (sockets n))).
Proof. intros E. unfold upd, st_modify. by rewrite (alter_known _ _ _ _ E). Qed.

Lemma upd_upd n i s1 s2 :
  with_sockets (with_sockets n (<[i := s1]> (sockets n)))
    (<[i := s2]> (sockets (with_sockets n (<[i := s1]> (sockets n))))) =
  with_sockets n (<[i := s2]> (sockets n)).
Proof. unfold with_sockets. simpl. by rewrite list_insert_insert_eq. Qed.

Lemma lookup_upd n i s s' :
  sockets n !! i = Some s -> sockets (with_sockets n (<[i := s']> (sockets n))) !! i = Some s'.
Proof. intros E. simpl. apply list_lookup_insert_eq. by apply lookup_lt_Some in E. Qed.

(** The table of tcp.c: a power of two of slots. *)
Record table_ok n : Prop := {
  tbl_pow2 : is_pow2 (Socket.setsize n);
  tbl_size : Socket.setsize n <= 2147483648;
  tbl_len : zlen (sockets n) = Socket.setsize n;
}.

Lemma getIndex_Ok id n :
  table_ok n -> getIndex id n = Ok (Z.to_nat (id mod Socket.setsize n), n).
Proof. intros T. unfold getIndex. st_run. by rewrite mask_mod by apply T. Qed.

Lemma slot_exists id n :
  table_ok n -> exists s, sockets n !! Z.to_nat (id mod Socket.setsize n) = Some s.
Proof.
  intros T. pose proof (Z.mod_pos_bound id _ (is_pow2_pos _ (tbl_pow2 _ T))).
  destruct (aget_is_Ok (sockets n) (id mod Socket.setsize n)) as (s & E & _); [| by exists s].
  by rewrite (tbl_len _ T).
Qed.

Lemma tcpGetSocket_Ok id n s :
  table_ok n -> sockets n !! Z.to_nat (id mod Socket.setsize n) = Some s ->
  tcpGetSocket id n =
    Ok (if s_id s =? id then Some (Z.to_nat (id mod Socket.setsize n)) else None, n).
Proof.
  intros T E. unfold tcpGetSocket. rewrite (st_bind_Ok _ _ _ _ _ (getIndex_Ok id n T)).
  by rewrite (st_bind_Ok _ _ _ _ _ (sock_Ok _ _ _ E)).
Qed.

Lemma tcpRecoverId_Ok id n s :
  table_ok n -> 0 <= id -> sockets n !! Z.to_nat (id mod Socket.setsize n) = Some s ->
  tcpRecoverId id n =
    if bool_decide (s_state s = kSocketDisconnected)
    then Ok (0, with_sockets n (<[Z.to_nat (id mod Socket.setsize n) := set_type s kSocketNoneType]> (sockets n)))
    else Fault AssertFailed.
Proof.
  intros T Hid E. unfold tcpRecoverId. destruct (Z.ltb_spec id 0); [lia |].
  rewrite (st_bind_Ok _ _ _ _ _ (getIndex_Ok id n T)), (st_bind_Ok _ _ _ _ _ (sock_Ok _ _ _ E)).
  unfold st_assert, st_lift. destruct (bool_decide _); [| done].
  erewrite st_bind_Ok by reflexivity. by rewrite (st_bind_Ok _ _ _ _ _ (upd_Ok _ _ _ _ E)).
Qed.
End basics.

(** ** Reading: [socketRead] appends what was received *)

(** The bytes received and not yet consumed. *)
Definition unread (o : option buffer) : list Z := from_option readable [] o.

(** A read buffer as the code keeps it: absent, or with at least the initial
    size and no more than its contents have ever needed. *)
Definition rbuf_ok (bound : Z) (o : option buffer) : Prop :=
  match o with
  | None => True
  | Some b => bwf b /\ READ_BUFFER_INITIAL <= size b <= bound
  end.

Definition read_buffer (undef : Z) (o : option buffer) : buffer :=
  default (bufferCreate undef READ_BUFFER_INITIAL) o.

Lemma read_buffer_ok undef bound o :
  READ_BUFFER_INITIAL <= bound -> rbuf_ok bound o ->
  bwf (read_buffer undef o) /\ readable (read_buffer undef o) = unread o /\
  READ_BUFFER_INITIAL <= size (read_buffer undef o) <= bound.
Proof.
  intros Hb. destruct o as [b |]; cbn [rbuf_ok read_buffer from_option unread].
  - by intros [? ?].
  - intros _. destruct (bufferCreate_wf undef READ_BUFFER_INITIAL) as [W R];
      [unfold READ_BUFFER_INITIAL; lia |].
    split; [done |]. split; [done |]. cbn. unfold READ_BUFFER_INITIAL in *. lia.
Qed.

(** The buffer after [readv] and the bookkeeping that follows it. *)
Definition received (undef : Z) (b : buffer) (bs : list Z) : outcome buffer :=
  let writeable := bufferWriteableBytes b in
  d ← deref (data b);
  d' ← acopy_in d (writeIndex b) (take (Z.to_nat writeable) bs);
  let b := Buffer (writeIndex b) (readIndex b) (initSize b) (size b) (Some d') in
  if zlen bs <=? writeable then mret (bufferMoveWriteIndex b (zlen bs))
  else bufferAppend undef (bufferSetWriteIndex b (bufferGetSize b)) (drop (Z.to_nat writeable) bs).

Lemma received_spec undef b bs :
  bwf b -> size b < 1073741824 -> zlen bs < 2147483648 ->
  if zlen bs <=? 2 * size b - writeIndex b then
    exists b', received undef b bs = Ok b' /\ bwf b' /\ readable b' = readable b ++ bs /\
      size b <= size b' <= Z.max (size b) (2 * (zlen (readable b) + zlen bs))
  else received undef b bs = Fault OutOfBounds.
Proof.
  intros W Hs Hb. destruct (bwf_rep _ W) as (pre & post & Rp).
  pose proof Rp as [D R Wi S B]. pose proof (zlen_nonneg pre). pose proof (zlen_nonneg bs).
  pose proof (zlen_nonneg (readable b)). pose proof (zlen_nonneg post).
  unfold received. rewrite (bufferWriteableBytes_rep _ _ _ _ Rp).
  assert (T : take (Z.to_nat (zlen post)) bs = take (length post) bs) by (unfold zlen; by rewrite Nat2Z.id).
  assert (T' : drop (Z.to_nat (zlen post)) bs = drop (length post) bs) by (unfold zlen; by rewrite Nat2Z.id).
  rewrite T, T'. set (first := take (length post) bs).
  assert (Hf : zlen first <= zlen post) by (unfold first, zlen; rewrite length_take; lia).
  destruct (store_fits b pre (readable b) post first Rp Hf) as (b1 & E1 & R1).
  rewrite D in E1 |- *. c_simpl. destruct (acopy_in _ _ first) as [d' | f]; [| done].
  rewrite !bind_Ok in E1 |- *. injection E1 as <-.
  assert (Lf : zlen first = Z.min (zlen post) (zlen bs)) by (unfold first, zlen; rewrite length_take; lia).
  destruct (Z.leb_spec (zlen bs) (zlen post)) as [Hle | Hgt].
  - destruct (Z.leb_spec (zlen bs) (2 * size b - writeIndex b)); [| lia].
    assert (Ef : first = bs) by (apply take_ge; unfold zlen in *; lia). rewrite Ef in R1.
    eexists. split; [reflexivity |]. unfold bufferMoveWriteIndex. cbn [writeIndex readIndex initSize size data].
    apply rep_bwf in R1 as [W1 Er]. split; [exact W1 |]. split; [exact Er |]. lia.
  - unfold bufferSetWriteIndex, bufferGetSize. cbn [writeIndex readIndex initSize size data].
    assert (Ew : writeIndex b +u zlen first = size b) by (rewrite u32_small; lia).
    rewrite Ew in R1. pose proof (rep_bwf _ _ _ _ R1) as [W1 Er].
    set (b1 := Buffer (size b) _ _ _ _) in *. change (size b) with (size b1) in Hs |- *.
    pose proof (bufferAppend_cases undef b1 (drop (length post) bs) W1 Hs) as C.
    assert (Ld : zlen (drop (length post) bs) = zlen bs - zlen post) by (unfold zlen in *; rewrite length_drop; lia).
    rewrite Ld in C. specialize (C ltac:(lia)). change (writeIndex b1) with (size b) in C.
    change (size b1) with (size b) in *.
    destruct (Z.leb_spec (zlen bs) (2 * size b - writeIndex b)),
      (Z.leb_spec (zlen bs - zlen post) (2 * size b - size b)); try lia; [| done].
    destruct C as (b2 & E2 & W2 & R2). exists b2. split; [done |]. split; [done |].
    split; [rewrite R2, Er, <- app_assoc; by unfold first; rewrite take_drop |].
    pose proof (bufferAppend_size undef b1 (drop (length post) bs) b2 W1 Hs) as Sz. rewrite Ld, Er, zlen_app, Lf in Sz.
    specialize (Sz ltac:(lia) E2). change (size b1) with (size b) in Sz. lia.
Qed.

Section reading.
  Context {K : Type} `{AeApi K}.
  Variables (undef : Z) (errtext : tcp_error -> list Z).
  Implicit Types n : net K.

Lemma socketRead_received i bs n s :
  sockets n !! i = Some s -> 0 < zlen bs ->
  socketRead undef i (ReadBytes bs) n =
    match received undef (read_buffer undef (s_readBuffer s)) bs with
    | Ok b => Ok (zlen bs, with_sockets n (<[i := set_readBuffer s (Some b)]> (sockets n)))
    | Fault f => Fault f
    end.
Proof.
  intros E Hb. unfold socketRead. rewrite (st_bind_Ok _ _ _ _ _ (sock_Ok _ _ _ E)).
  change (default _ (s_readBuffer s)) with (read_buffer undef (s_readBuffer s)).
  set (b := read_buffer undef (s_readBuffer s)).
  rewrite (st_bind_Ok _ _ _ _ _ (upd_Ok _ _ _ _ E)).
  destruct (Z.eqb_spec (zlen bs) 0) as [| _]; [lia |]. unfold received, st_lift.
  set (n1 := with_sockets n _).
  assert (E1 : sockets n1 !! i = Some (set_readBuffer s (Some b))) by (by eapply lookup_upd).
  destruct (deref (data b)) as [d | f]; [| done]. erewrite st_bind_Ok by reflexivity. rewrite bind_Ok.
  destruct (acopy_in d (writeIndex b) _) as [d' | f]; [| done].
  erewrite st_bind_Ok by reflexivity. rewrite bind_Ok.
  destruct (zlen bs <=? bufferWriteableBytes b).
  - erewrite st_bind_Ok by reflexivity. rewrite (st_bind_Ok _ _ _ _ _ (upd_Ok _ _ _ _ E1)).
    unfold mret, st_ret, outcome_ret. unfold n1. by rewrite upd_upd.
  - destruct (bufferAppend _ _ _) as [b' | f]; [| done].
    erewrite st_bind_Ok by reflexivity. rewrite (st_bind_Ok _ _ _ _ _ (upd_Ok _ _ _ _ E1)).
    unfold mret, st_ret. unfold n1. by rewrite upd_upd.
Qed.

(** The messages a service gets for these bodies. *)
Definition data_messages (s : socket) (ms : list (list Z)) : list zsend :=
  (fun m => protoMessageCallback (s_from s) (s_id s) (Some (m ++ [undef])) (zlen m)) <$> ms.

Lemma onRead_head i bs n s ms rest bound :
  sockets n !! i = Some s -> s_protoType s = HEAD_PROTO_TYPE ->
  rbuf_ok bound (s_readBuffer s) -> READ_BUFFER_INITIAL <= bound -> bound < 1073741824 ->
  0 < zlen bs < 2147483648 ->
  zlen bs <= 2 * size (read_buffer undef (s_readBuffer s)) - writeIndex (read_buffer undef (s_readBuffer s)) ->
  2 * (zlen (unread (s_readBuffer s)) + zlen bs) <= bound ->
  parse (unread (s_readBuffer s) ++ bs) = (ms, false, rest) ->
  exists b, onRead undef errtext i (ReadBytes bs) n =
      Ok (tt, with_out (with_sockets n (<[i := set_readBuffer s (Some b)]> (sockets n)))
                (out n ++ data_messages s ms)) /\
    readable b = rest /\ bwf b /\ READ_BUFFER_INITIAL <= size b <= bound.
Proof.
  intros E Hp Hok Hb1 Hb2 Hbs Hcap Hbound Hparse.
  destruct (read_buffer_ok undef bound _ Hb1 Hok) as (W & R & Sz).
  unfold onRead. set (rb := read_buffer undef (s_readBuffer s)) in *.
  pose proof (received_spec undef rb bs W ltac:(lia) ltac:(lia)) as Hr.
  destruct (Z.leb_spec (zlen bs) (2 * size rb - writeIndex rb)) as [_ |]; [| lia].
  destruct Hr as (b & Eb & Wb & Rb & Sb). rewrite R in Rb, Sb.
  pose proof (socketRead_received i bs n s E ltac:(lia)) as Hs. fold rb in Hs. rewrite Eb in Hs.
  rewrite (st_bind_Ok _ _ _ _ _ Hs). rewrite Z.gtb_ltb.
  destruct (Z.ltb_spec 0 (zlen bs)); [| lia]. set (n1 := with_sockets n _).
  assert (E1 : sockets n1 !! i = Some (set_readBuffer s (Some b))) by (by eapply lookup_upd).
  rewrite (st_bind_Ok _ _ _ _ _ (sock_Ok _ _ _ E1)).
  cbn [set_readBuffer s_readBuffer s_protoType s_from s_id deref]. unfold st_lift at 1.
  erewrite st_bind_Ok by reflexivity. unfold onMessageCallback. rewrite Hp.
  change (c_assert _) with (Ok tt). rewrite bind_Ok. change (HEAD_PROTO_TYPE =? HEAD_PROTO_TYPE) with true.
  cbn iota. unfold headMessageCallback.
  destruct (headMessageLoop_refines undef
    (fun body len => [protoMessageCallback (s_from s) (s_id s) (Some body) len]) b Wb) as (b' & El & W' & R').
  rewrite Rb, Hparse in El, R'. rewrite deliver_singleton in El. cbn [fst snd] in El, R'.
  rewrite El. unfold st_lift. erewrite st_bind_Ok by reflexivity. cbv beta iota.
  erewrite st_bind_Ok by (apply (upd_Ok _ _ _ _ E1)).
  erewrite st_bind_Ok by reflexivity. exists b'. split.
  - unfold mret, st_ret. unfold n1. rewrite upd_upd. done.
  - split; [done |]. split; [done |].
    pose proof (headMessageLoop_size undef _ b _ _ _ El). lia.
Qed.
End reading.

(** ** Properties: the received stream *)

(** A sequence of readiness events on one socket. *)
Fixpoint read_all {K} `{AeApi K} undef errtext (i : nat) (chunks : list (list Z)) : ST (net K) unit :=
  match chunks with
  | [] => mret tt
  | c :: chunks => _ ← onRead undef errtext i (ReadBytes c); read_all undef errtext i chunks
  end.

Definition stream_bound : Z := 2 * (kMaxMessageLen + 4 + READ_BUFFER_INITIAL).

Section streams.
  Context {K : Type} `{AeApi K}.

(** What is parsed of a stream is what is parsed of its first part, and of the
    rest with what that part left. *)
Lemma parse_split a c ms rest : parse (a ++ c) = (ms, false, rest) ->
  exists ms1 r1 ms2, parse a = (ms1, false, r1) /\ parse (r1 ++ c) = (ms2, false, rest) /\ ms = ms1 ++ ms2.
Proof.
  intros Hparse. destruct (parse a) as [[ms1 bad1] r1] eqn:E1. destruct bad1.
  { pose proof (parse_bad_app a c) as Hbad. rewrite E1, Hparse in Hbad. by specialize (Hbad eq_refl). }
  pose proof (parse_app _ c _ _ E1) as Happ. rewrite Hparse in Happ.
  destruct (parse (r1 ++ c)) as [[ms2 bad2] r2] eqn:E2. injection Happ as -> <- ->.
  by exists ms1, r1, ms2.
Qed.

(** A socket with the length-prefixed protocol between two reads. *)
Record reads (n : net K) (i : nat) (s : socket) : Prop := {
  rd_sock : sockets n !! i = Some s;
  rd_proto : s_protoType s = HEAD_PROTO_TYPE;
  rd_buf : rbuf_ok stream_bound (s_readBuffer s);
  rd_rest : parse (unread (s_readBuffer s)) = ([], false, unread (s_readBuffer s));
}.

Lemma reads_step undef errtext i c (n : net K) s ms rest :
  reads n i s -> 0 < zlen c <= READ_BUFFER_INITIAL -> parse (unread (s_readBuffer s) ++ c) = (ms, false, rest) ->
  exists b n', onRead undef errtext i (ReadBytes c) n = Ok (tt, n') /\ out n' = out n ++ data_messages undef s ms /\
    reads n' i (set_readBuffer s (Some b)) /\ readable b = rest.
Proof.
  intros [E Hp Hok Hinc] Hc Hparse. destruct (parse_rest _ _ _ Hinc) as [_ Hlen].
  destruct (read_buffer_ok undef stream_bound _ ltac:(unfold stream_bound, kMaxMessageLen, READ_BUFFER_INITIAL; lia) Hok)
    as (W & _ & Sz).
  destruct (onRead_head undef errtext i c n s ms rest stream_bound E Hp Hok) as (b & Eb & Rb & Wb & Sb).
  1-3: unfold stream_bound, kMaxMessageLen, READ_BUFFER_INITIAL in *; lia.
  { pose proof (bwf_size _ W). lia. }
  { unfold stream_bound in *. lia. }
  { done. }
  eexists b, _. split; [exact Eb |]. split; [done |]. split; [| done].
  split; [by eapply (lookup_upd n) | done | done |]. cbn [set_readBuffer s_readBuffer unread from_option].
  rewrite Rb. by destruct (parse_rest _ _ _ Hparse).
Qed.

Lemma read_all_delivers undef errtext i chunks (n : net K) s ms rest :
  reads n i s -> Forall (fun c => 0 < zlen c <= READ_BUFFER_INITIAL) chunks ->
  parse (unread (s_readBuffer s) ++ concat chunks) = (ms, false, rest) ->
  exists rb n', read_all undef errtext i chunks n = Ok (tt, n') /\
    out n' = out n ++ data_messages undef s ms /\
    sockets n' !! i = Some (set_readBuffer s rb) /\ unread rb = rest.
Proof.
  intros R Hc. revert n s ms rest R. induction Hc as [| c chunks Hc _ IH]; intros n s ms rest R Hparse.
  { rewrite app_nil_r, (rd_rest _ _ _ R) in Hparse. injection Hparse as <- <-.
    exists (s_readBuffer s), n. split; [done |]. split; [by rewrite app_nil_r |].
    split; [by rewrite (rd_sock _ _ _ R); destruct s |]. done. }
  cbn [concat read_all] in *. rewrite app_assoc in Hparse.
  destruct (parse_split _ _ _ _ Hparse) as (ms1 & r1 & ms2 & E1 & E2 & ->).
  destruct (reads_step undef errtext i c n s ms1 r1 R Hc E1) as (b & n1 & Eb & Eo1 & R1 & Rb).
  rewrite (st_bind_Ok _ _ _ _ _ Eb).
  destruct (IH n1 _ ms2 rest R1) as (rb & n' & Er & Eo & Esk & Eu); [by cbn; rewrite Rb |].
  exists rb, n'. split; [done |]. split; [| done].
  rewrite Eo, Eo1, <- app_assoc. f_equal. unfold data_messages. by rewrite fmap_app.
Qed.
End streams.

(** C7: a stream received in reads of 1 to 64 bytes is reassembled.  On a fresh
    connection with the length-prefixed protocol, any such sequence of reads (a
    larger one may overrun the buffer: [socketRead_overruns]) is handled without a
    fault; if the concatenation of the
    reads is a sequence of legal frames and a last, incomplete one, the service
    is sent exactly the frames' bodies, in order, and the incomplete frame
    stays buffered. *)
Theorem socket_stream_reassembled {K} `{AeApi K} undef errtext i chunks (n : net K) s bodies tail :
  sockets n !! i = Some s -> s_protoType s = HEAD_PROTO_TYPE -> s_readBuffer s = None ->
  Forall (fun c => 0 < zlen c <= READ_BUFFER_INITIAL) chunks ->
  Forall (fun b => zlen b <= kMaxMessageLen) bodies -> parse tail = ([], false, tail) ->
  concat chunks = concat (encode <$> bodies) ++ tail ->
  exists rb n', read_all undef errtext i chunks n = Ok (tt, n') /\
    out n' = out n ++ data_messages undef s bodies /\
    sockets n' !! i = Some (set_readBuffer s rb) /\ unread rb = tail.
Proof.
  intros E Hp Hr Hc Hb Ht Hs. eapply read_all_delivers; rewrite ?Hr; [split; rewrite ?Hr | ..]; try done.
  cbn [unread from_option app]. rewrite Hs. by apply parse_frames.
Qed.

(** One socket, connected, with nothing buffered. *)
Definition socket1 : socket := Socket 7 HEAD_PROTO_TYPE 1 5 kSocketType kSocketConnected None None.

Definition one_socket : net (gmap Z Z) :=
  Net 2 1 [socket1]
    (aeCreateEventLoop 16 0 ∅) [] [] [].

Lemma socket_stream_reassembled_witness :
  exists rb n', read_all 0 (fun _ => []) 0 [[2; 0]; [0; 0; 65]; [66; 1; 0; 0; 0; 67; 9]] one_socket = Ok (tt, n') /\
    out n' = [protoMessageCallback 7 1 (Some [65; 66; 0]) 2; protoMessageCallback 7 1 (Some [67; 0]) 1] /\
    sockets n' !! 0%nat = Some (set_readBuffer socket1 rb) /\
    unread rb = [9].
Proof.
  apply (socket_stream_reassembled 0 (fun _ => []) 0 [[2; 0]; [0; 0; 65]; [66; 1; 0; 0; 0; 67; 9]]
    one_socket socket1 [[65; 66]; [67]] [9]);
    try reflexivity; repeat constructor; vm_compute; congruence.
Defined.

(** A read can overrun the heap.  [readv] may return up to 65536 bytes more
    than the buffer has room for, and [bufferAppend] makes room by doubling
    once: a read of more than [2 * size - writeIndex] bytes (129 bytes on a
    fresh connection) is written past the end of the block. *)
Theorem socketRead_overruns {K} `{AeApi K} undef errtext i bs (n : net K) s :
  sockets n !! i = Some s ->
  rbuf_ok 1073741823 (s_readBuffer s) ->
  2 * size (read_buffer undef (s_readBuffer s)) - writeIndex (read_buffer undef (s_readBuffer s))
    < zlen bs < 2147483648 ->
  onRead undef errtext i (ReadBytes bs) n = Fault OutOfBounds.
Proof.
  intros E Hok Hb.
  destruct (read_buffer_ok undef 1073741823 _ ltac:(unfold READ_BUFFER_INITIAL; lia) Hok) as (W & _ & Sz).
  pose proof (received_spec undef _ bs W ltac:(lia) ltac:(lia)) as Hr.
  destruct (Z.leb_spec (zlen bs) (2 * size (read_buffer undef (s_readBuffer s)) -
    writeIndex (read_buffer undef (s_readBuffer s)))) as [| _]; [lia |].
  pose proof (bwf_size _ W). unfold onRead.
  pose proof (socketRead_received undef i bs n s E ltac:(unfold READ_BUFFER_INITIAL in *; lia)) as Hs. rewrite Hr in Hs.
  by rewrite (st_bind_Fault _ _ _ _ Hs).
Qed.

Lemma socketRead_overruns_witness :
  onRead 0 (fun _ => []) 0 (ReadBytes (replicate 129 65)) one_socket = Fault OutOfBounds.
Proof.
  apply (socketRead_overruns 0 (fun _ => []) 0 (replicate 129 65) one_socket socket1).
  - reflexivity.
  - exact I.
  - vm_compute. split; congruence.
Defined.

(** ** Writing: nothing is lost, duplicated or reordered *)

(** Bytes handed to the kernel for a descriptor. *)
Definition wire_of (fd : Z) (w : list (Z * list Z)) : list Z :=
  concat ((fun e => if e.1 =? fd then e.2 else []) <$> w).

Lemma wire_of_app fd w1 w2 : wire_of fd (w1 ++ w2) = wire_of fd w1 ++ wire_of fd w2.
Proof. unfold wire_of. by rewrite fmap_app, concat_app. Qed.

Lemma wire_of_one fd bs : wire_of fd [(fd, bs)] = bs.
Proof. unfold wire_of. simpl. by rewrite Z.eqb_refl, app_nil_r. Qed.

Definition sbuf_ok (o : option buffer) : Prop := match o with None => True | Some b => bwf b end.

Lemma take_min_drop (l : list Z) m :
  take (Z.to_nat (Z.min (Z.of_nat m) (zlen l))) l = take m l /\
  drop (Z.to_nat (Z.min (Z.of_nat m) (zlen l))) l = drop m l.
Proof.
  unfold zlen. destruct (Z.le_gt_cases (Z.of_nat m) (Z.of_nat (length l))).
  - rewrite Z.min_l by lia. by rewrite Nat2Z.id.
  - rewrite Z.min_r by lia. rewrite Nat2Z.id, !take_ge, !drop_ge by lia. done.
Qed.

Lemma split_order (p : list Z) k data :
  (take k data <> [] -> p = []) -> take k data ++ p ++ drop k data = p ++ data.
Proof.
  intros H. destruct (decide (take k data = [])) as [E | E].
  - rewrite <- (take_drop k data) at 3. by rewrite E.
  - rewrite (H E). simpl. apply take_drop.
Qed.

Section writing.
  Context {K : Type} `{AeApiLaws K}.
  Variables (undef : Z) (errtext : tcp_error -> list Z).
  Implicit Types n : net K.

Lemma send_loop_spec fuel k sends fd b n :
  bwf b -> (length (readable b) < fuel)%nat ->
  exists b' r sent, send_loop fuel k sends fd b n = Ok ((b', r), with_wire n (wire n ++ sent)) /\
    bwf b' /\ readable b = wire_of fd sent ++ readable b' /\ (r = Some true -> readable b' = []).
Proof.
  revert k b n. induction fuel as [| fuel IH]; intros k b n W Hf; [lia |]. cbn [send_loop].
  assert (Hsame : forall r, r <> Some true -> exists b' r' sent,
    (mret (b, r) : ST (net K) _) n = Ok ((b', r'), with_wire n (wire n ++ sent)) /\
    bwf b' /\ readable b = wire_of fd sent ++ readable b' /\ (r' = Some true -> readable b' = [])).
  { intros r Hr. exists b, r, []. rewrite app_nil_r. split; [by destruct n |]. done. }
  destruct (sends k) as [m | |]; [| by apply Hsame | by apply Hsame].
  cbv zeta. rewrite (readable_bytes _ W). rewrite Z.gtb_ltb.
  destruct (Z.ltb_spec 0 (Z.min (Z.of_nat m) (zlen (readable b)))) as [Hm | Hm]; [| by apply Hsame].
  destruct (take_min_drop (readable b) m) as [Et Ed].
  rewrite (bufferPeek_spec b 0 _ W) by lia. cbn [Z.to_nat drop]. rewrite drop_0, Et.
  unfold st_lift. erewrite st_bind_Ok by reflexivity.
  erewrite st_bind_Ok by reflexivity.
  destruct (bufferMoveReadIndex_spec b (Z.min (Z.of_nat m) (zlen (readable b))) W ltac:(lia)) as [W1 R1].
  set (b1 := bufferMoveReadIndex _ _) in *. rewrite Ed in R1.
  rewrite (readable_bytes _ W1).
  set (n1 := with_wire n _).
  destruct (Z.leb_spec (zlen (readable b1)) 0) as [Hz | Hz].
  - exists b1, (Some true), [(fd, take m (readable b))]. split; [done |]. split; [done |].
    rewrite wire_of_one, R1, take_drop. split; [done |]. intros _.
    rewrite <- R1. destruct (readable b1); [done |]. cbn in Hz. unfold zlen in Hz. simpl in Hz. lia.
  - destruct (IH (S k) b1 n1 W1) as (b' & r & sent & E & W' & R' & Hr).
    { rewrite R1, length_drop. unfold zlen in *. lia. }
    exists b', r, ((fd, take m (readable b)) :: sent). rewrite E. split.
    { unfold n1, with_wire. simpl. by rewrite <- app_assoc. }
    split; [done |]. split; [| done].
    change ((fd, take m (readable b)) :: sent) with ([(fd, take m (readable b))] ++ sent).
    rewrite wire_of_app, wire_of_one, <- app_assoc, <- R', R1. by rewrite take_drop.
Qed.

(** A connected socket of a consistent event loop. *)
Record conn_ok n (i : nat) (s : socket) : Prop := {
  co_sock : sockets n !! i = Some s;
  co_state : s_state s = kSocketConnected;
  co_fd : 0 <= s_fd s;
  co_loop : ae_ok (loop n);
  co_sbuf : sbuf_ok (s_sendBuffer s);
}.

Definition no_send_error (sends : nat -> send_result) : Prop := forall k, sends k <> SendError.

Lemma send_loop_no_error fuel k sends fd b n b' n' :
  no_send_error sends -> send_loop fuel k sends fd b n <> Ok ((b', None), n').
Proof.
  intros Hn. revert k b n. induction fuel as [| fuel IH]; intros k b n; [done |]. cbn [send_loop].
  destruct (sends k) eqn:Es; [| done | by specialize (Hn k)].
  cbv zeta. destruct (_ >? 0); [| done]. intros E. apply st_bind_inv in E as (x & n1 & _ & E).
  apply st_bind_inv in E as (y & n2 & _ & E). destruct (_ <=? 0); [done |]. by apply IH in E.
Qed.

Lemma onWrite_conserves i sends n s :
  conn_ok n i s -> s_sendBuffer s <> None -> no_send_error sends ->
  exists n' s', onWrite undef errtext i sends n = Ok (tt, n') /\ conn_ok n' i s' /\
    s_fd s' = s_fd s /\ s_sendBuffer s' <> None /\
    wire_of (s_fd s) (wire n') ++ unread (s_sendBuffer s') =
    wire_of (s_fd s) (wire n) ++ unread (s_sendBuffer s).
Proof.
  intros [E St Hfd I Sb] Hsb Hne. unfold onWrite. rewrite (st_bind_Ok _ _ _ _ _ (sock_Ok _ _ _ E)).
  destruct (s_sendBuffer s) as [b |] eqn:Eb; [| done]. cbn [deref sbuf_ok] in *.
  unfold st_lift at 1. erewrite st_bind_Ok by reflexivity.
  destruct (send_loop_spec (S (Z.to_nat (bufferReadableBytes b))) 0 sends (s_fd s) b n Sb)
    as (b' & r & sent & El & W' & R' & Hr).
  { rewrite (readable_bytes _ Sb). unfold zlen. lia. }
  rewrite (st_bind_Ok _ _ _ _ _ El). set (n1 := with_wire _ _).
  assert (E1 : sockets n1 !! i = Some s) by done.
  rewrite (st_bind_Ok _ _ _ _ _ (upd_Ok _ _ _ _ E1)). cbn [fst snd].
  set (n2 := with_sockets n1 _).
  assert (E2 : sockets n2 !! i = Some (set_sendBuffer s (Some b'))) by (by eapply lookup_upd).
  destruct r as [[] |].
  - rewrite (st_bind_Ok _ _ _ _ _ (upd_Ok _ _ _ _ E2)). set (n3 := with_sockets n2 _).
    assert (E3 : sockets n3 !! i = Some (set_sendBuffer s (Some (bufferRetrieveAll b')))).
    { unfold n3. by rewrite (lookup_upd _ _ _ _ E2). }
    destruct (aeDeleteFileEvent_cases (loop n) (s_fd s) AE_WRITABLE I Hfd ltac:(unfold AE_WRITABLE; lia))
      as (el & Ea & Ia & _).
    unfold ae_delete. change (loop n3) with (loop n). rewrite Ea. rewrite bind_Ok.
    eexists _, _. split; [reflexivity |].
    destruct (bufferRetrieveAll_spec _ W') as [Wr Rr]. split; [by split |].
    split; [done |]. split; [done |]. cbn [s_sendBuffer set_sendBuffer unread from_option wire with_loop].
    change (wire n3) with (wire n ++ sent).
    by rewrite Rr, wire_of_app, app_nil_r, R', (Hr eq_refl), app_nil_r.
  - eexists _, _. split; [reflexivity |]. split; [by split |]. split; [done |]. split; [done |].
    cbn [s_sendBuffer set_sendBuffer unread from_option].
    change (wire n2) with (wire n ++ sent). by rewrite wire_of_app, <- app_assoc, R'.
  - by apply send_loop_no_error in El.
Qed.

(** The direct write takes some first bytes of the data, and only if nothing is
    waiting in the send buffer. *)
Lemma direct_write data w n s :
  sbuf_ok (s_sendBuffer s) -> w <> WriteReset ->
  exists k sent, (if negb (hasSendBuffer s) then
         match w with
         | Wrote m =>
           _ ← to_wire (s_fd s) (take m data); mret (Z.min (Z.of_nat m) (zlen data), false)
         | WriteReset => mret (0, true)
         | _ => mret (0, false)
         end
       else mret (0, false)) n = Ok ((zlen (take k data), false), with_wire n (wire n ++ sent)) /\
    wire_of (s_fd s) sent = take k data /\ (take k data <> [] -> unread (s_sendBuffer s) = []) /\
    drop (Z.to_nat (zlen (take k data))) data = drop k data.
Proof.
  intros Sb Hw.
  assert (Hnone : exists k sent, (mret (0, false) : ST (net K) _) n =
      Ok ((zlen (take k data), false), with_wire n (wire n ++ sent)) /\
      wire_of (s_fd s) sent = take k data /\ (take k data <> [] -> unread (s_sendBuffer s) = []) /\
      drop (Z.to_nat (zlen (take k data))) data = drop k data).
  { exists 0%nat, []. rewrite app_nil_r. split; [by destruct n | done]. }
  destruct (hasSendBuffer s) eqn:Hh; cbn [negb]; [done |].
  destruct w as [m | | |]; try done.
  exists m, [(s_fd s, take m data)]. erewrite st_bind_Ok by reflexivity. split; [| split; [| split]].
  - unfold mret, st_ret. repeat f_equal. unfold zlen. rewrite length_take. lia.
  - by rewrite wire_of_one.
  - intros _. unfold hasSendBuffer in Hh. destruct (s_sendBuffer s) as [b |]; [| done].
    cbn [sbuf_ok unread from_option] in *. rewrite (readable_bytes _ Sb) in Hh.
    apply negb_false_iff, Z.eqb_eq in Hh. destruct (readable b); [done |].
    unfold zlen in Hh. simpl in Hh. lia.
  - unfold zlen. rewrite Nat2Z.id, length_take.
    destruct (Nat.le_gt_cases m (length data)); [by rewrite Nat.min_l |].
    rewrite Nat.min_r, !drop_ge by lia. done.
Qed.

(** What is left goes behind what waits in the send buffer. *)
Lemma queue_rest i rest n n' s x :
  conn_ok n i s -> zlen rest < 4294967296 ->
  (sb ← st_lift (bufferAppend undef (default (bufferCreate undef SEND_BUFFER_INITIAL) (s_sendBuffer s)) rest);
   _ ← upd i (fun s => set_sendBuffer s (Some sb));
   _ ← ae_create (s_fd s) AE_WRITABLE PWrite i;
   mret tt) n = Ok (x, n') ->
  exists b, conn_ok n' i (set_sendBuffer s (Some b)) /\ wire n' = wire n /\ readable b = unread (s_sendBuffer s) ++ rest.
Proof.
  intros [E St Hfd I Sb] Hl Eb. set (sb := default _ _) in Eb.
  assert (Hsb : bwf sb /\ readable sb = unread (s_sendBuffer s)).
  { unfold sb. destruct (s_sendBuffer s) as [b |]; [done |]. apply bufferCreate_wf. unfold SEND_BUFFER_INITIAL. lia. }
  destruct Hsb as [Wsb Rsb]. apply st_bind_inv in Eb as (b' & n3 & Ea & Eb). unfold st_lift in Ea.
  destruct (bufferAppend undef sb rest) as [b1 | f] eqn:Eapp; [| done]. injection Ea as -> <-.
  destruct (bufferAppend_ok undef sb _ b' Wsb Hl Eapp) as [Wb Rb].
  rewrite (st_bind_Ok _ _ _ _ _ (upd_Ok _ _ _ _ E)) in Eb. set (n4 := with_sockets n _) in *.
  destruct (aeCreateFileEvent_cases (loop n) (s_fd s) AE_WRITABLE PWrite (Some i) I Hfd
    masks_writable) as (rr & el & Ec & Ic & _).
  unfold ae_create in Eb. apply st_bind_inv in Eb as (y & n5 & Ey & Eb). injection Eb as _ <-.
  change (loop n4) with (loop n) in Ey. rewrite Ec in Ey. injection Ey as _ <-.
  exists b'. split; [| split; [done | by rewrite Rb, Rsb]].
  split; try done. cbn [sockets with_loop]. by eapply (lookup_upd n).
Qed.

Lemma socketWrite_conserves i data w n n' r s :
  conn_ok n i s -> zlen data < 4294967296 -> w <> WriteReset ->
  socketWrite undef errtext i data w n = Ok (r, n') ->
  exists s', r = 0 /\ conn_ok n' i s' /\ s_fd s' = s_fd s /\
    (s_sendBuffer s <> None -> s_sendBuffer s' <> None) /\
    wire_of (s_fd s) (wire n') ++ unread (s_sendBuffer s') =
    wire_of (s_fd s) (wire n) ++ unread (s_sendBuffer s) ++ data.
Proof.
  intros C Hd Hw. pose proof C as [E St Hfd I Sb]. unfold socketWrite.
  rewrite (st_bind_Ok _ _ _ _ _ (sock_Ok _ _ _ E)), bool_decide_eq_true_2 by done. cbn [negb].
  destruct (direct_write data w n s Sb Hw) as (k & sent & Ek & Hs & Hp & Hk). rewrite (st_bind_Ok _ _ _ _ _ Ek).
  set (n1 := with_wire _ _). cbv beta iota zeta. assert (C1 : conn_ok n1 i s) by (by split).
  assert (Lk : zlen data - zlen (take k data) = zlen (drop k data)).
  { unfold zlen. rewrite length_take, length_drop. lia. }
  rewrite Lk. pose proof (zlen_nonneg (drop k data)). unfold st_assert.
  destruct (Z.leb_spec 0 (zlen (drop k data))); [| lia]. unfold st_lift at 1.
  erewrite st_bind_Ok by reflexivity. cbn [negb andb]. rewrite Hk, Z.gtb_ltb.
  destruct (Z.ltb_spec 0 (zlen (drop k data))) as [Hr | Hr]; intros Er.
  - apply st_bind_inv in Er as (x & n2 & Eb & Er). injection Er as <- <-.
    destruct (queue_rest i (drop k data) n1 n2 s x C1) as (b & C2 & Ew & Rb); [| exact Eb |].
    { clear - Hd. unfold zlen in *. rewrite length_drop. lia. }
    exists (set_sendBuffer s (Some b)). do 3 (split; [done |]). split; [done |].
    cbn [s_sendBuffer set_sendBuffer unread from_option]. rewrite Ew, Rb.
    change (wire n1) with (wire n ++ sent). rewrite wire_of_app, Hs, <- !app_assoc. f_equal. by apply split_order.
  - erewrite st_bind_Ok in Er by reflexivity. injection Er as <- <-.
    exists s. do 4 (split; [done |]).
    change (wire n1) with (wire n ++ sent). rewrite wire_of_app, Hs, <- !app_assoc. f_equal.
    assert (Ed : drop k data = []) by (destruct (drop k data); [done | unfold zlen in Hr; simpl in Hr; lia]).
    rewrite <- (split_order _ k data Hp), Ed. by rewrite app_nil_r.
Qed.
End writing.

(** What happens to a connection's sending side: a service's message is
    written, or the descriptor becomes writable. *)
Inductive wop := OWrite (data : list Z) (w : write_result) | OReady (sends : nat -> send_result).

Definition wop_ok (o : wop) : Prop :=
  match o with
  | OWrite data w => zlen data < 4294967296 /\ w <> WriteReset
  | OReady sends => no_send_error sends
  end.

Definition wop_data (o : wop) : list Z := match o with OWrite data _ => data | OReady _ => [] end.

Fixpoint run_wops {K} `{AeApi K} undef errtext (i : nat) (os : list wop) : ST (net K) unit :=
  match os with
  | [] => mret tt
  | OWrite data w :: os => _ ← socketWrite undef errtext i data w; run_wops undef errtext i os
  | OReady sends :: os => _ ← onWrite undef errtext i sends; run_wops undef errtext i os
  end.

Lemma run_wops_conserves {K} `{AeApiLaws K} undef errtext i os (n n' : net K) s :
  conn_ok n i s -> Forall wop_ok os -> run_wops undef errtext i os n = Ok (tt, n') ->
  exists s', sockets n' !! i = Some s' /\
    wire_of (s_fd s) (wire n') ++ unread (s_sendBuffer s') =
    wire_of (s_fd s) (wire n) ++ unread (s_sendBuffer s) ++ concat (wop_data <$> os).
Proof.
  intros C Ho. revert n s C. induction Ho as [| o os Ho _ IH]; intros n s C R; cbn [run_wops] in R.
  { injection R as <-. exists s. split; [apply C |]. simpl. by rewrite app_nil_r. }
  destruct o as [data w | sends]; apply st_bind_inv in R as (x & n1 & E & R); cbn [wop_ok] in Ho.
  - destruct Ho as [Hd Hw].
    destruct (socketWrite_conserves undef errtext i data w n n1 x s C Hd Hw E)
      as (s1 & _ & C1 & Ef & _ & Ew).
    destruct (IH n1 s1 C1 R) as (s' & Es & Ew'). exists s'. split; [done |].
    rewrite Ef in Ew'. rewrite Ew', app_assoc, Ew, <- !app_assoc. done.
  - destruct (decide (s_sendBuffer s = None)) as [Hn | Hn].
    { unfold onWrite in E. rewrite (st_bind_Ok _ _ _ _ _ (sock_Ok _ _ _ (co_sock _ _ _ C))), Hn in E. done. }
    destruct (onWrite_conserves undef errtext i sends n s C Hn Ho) as (n2 & s1 & E2 & C1 & Ef & _ & Ew).
    rewrite E2 in E. injection E as <- <-.
    destruct (IH n2 s1 C1 R) as (s' & Es & Ew'). exists s'. split; [done |].
    rewrite Ef in Ew'. rewrite Ew', app_assoc, Ew, <- !app_assoc. done.
Qed.

(** The sent stream is in order and complete.  As long as the peer does not
    reset the connection, after any sequence of messages written to it and of
    writability events, however little each write or send accepts, the bytes
    handed to the kernel followed by the bytes still in the send buffer are the
    bytes of the messages in order, nothing lost or duplicated. *)
Theorem socket_send_order {K} `{AeApiLaws K} undef errtext i os (n n' : net K) s :
  conn_ok n i s -> Forall wop_ok os -> run_wops undef errtext i os n = Ok (tt, n') ->
  exists s', sockets n' !! i = Some s' /\
    wire_of (s_fd s) (wire n') ++ unread (s_sendBuffer s') =
    wire_of (s_fd s) (wire n) ++ unread (s_sendBuffer s) ++ concat (wop_data <$> os).
Proof. apply run_wops_conserves. Qed.

Lemma one_socket_conn : conn_ok one_socket 0 socket1.
Proof.
  split; try done. apply epoll_create_ok; [lia | done].
Qed.

(** A write of 3 of 5 bytes, a second message behind it, a partial send. *)
Definition sample_wops : list wop :=
  [OWrite [1; 2; 3; 4; 5] (Wrote 3); OWrite [6; 7] WriteAgain;
   OReady (fun k => match k with O => Sent 1 | _ => SendAgain end)].

Lemma socket_send_order_witness :
  exists n', run_wops 0 (fun _ => []) 0 sample_wops one_socket = Ok (tt, n') /\
    wire_of 5 (wire n') = [1; 2; 3; 4] /\
    exists s', sockets n' !! 0%nat = Some s' /\
      wire_of 5 (wire n') ++ unread (s_sendBuffer s') = [1; 2; 3; 4; 5; 6; 7].
Proof.
  eexists. split; [vm_compute; reflexivity |]. split; [reflexivity |].
  apply (socket_send_order 0 (fun _ => []) 0 sample_wops one_socket _ socket1 one_socket_conn).
  - repeat constructor; try (vm_compute; congruence). by intros [| k].
  - vm_compute; reflexivity.
Defined.

(** ** Identifiers *)
Section reserve.
  Context {K : Type} `{AeApi K}.
  Implicit Types n : net K.

Definition slot_of n (id : Z) : nat := Z.to_nat (id mod Socket.setsize n).

Definition reserved (id : Z) (s : socket) : socket := set_fd (set_id (set_type s kReserveType) id) (-1).

Lemma table_ok_allocId n v : table_ok n -> table_ok (with_allocId n v).
Proof. intros []. by split. Qed.

Lemma reserve_turn_Ok n s :
  table_ok n -> 0 <= allocId n < 2147483647 -> sockets n !! slot_of n (allocId n) = Some s ->
  reserve_turn n =
    if bool_decide (s_type s = kSocketNoneType)
    then Ok (Some (allocId n), with_sockets (with_allocId n (allocId n + 1))
               (<[slot_of n (allocId n) := reserved (allocId n) s]> (sockets n)))
    else Ok (None, with_allocId n (allocId n + 1)).
Proof.
  intros T Ha E. unfold reserve_turn. erewrite st_bind_Ok by reflexivity.
  erewrite st_bind_Ok by reflexivity. rewrite i32_small by lia.
  destruct (Z.ltb_spec (allocId n) 0); [lia |]. erewrite st_bind_Ok by reflexivity.
  set (n1 := with_allocId n _).
  rewrite (st_bind_Ok _ _ _ _ _ (getIndex_Ok _ n1 (table_ok_allocId _ _ T))).
  assert (E1 : sockets n1 !! slot_of n (allocId n) = Some s) by done.
  change (Socket.setsize n1) with (Socket.setsize n).
  rewrite (st_bind_Ok _ _ _ _ _ (sock_Ok _ _ _ E1)).
  destruct (bool_decide _); [| done].
  by rewrite (st_bind_Ok _ _ _ _ _ (upd_Ok _ _ _ _ E1)).
Qed.

(** The first free slot from [allocId] on, if there is one among [k]. *)
Lemma reserve_loop_spec k n :
  table_ok n -> 0 <= allocId n -> allocId n + Z.of_nat k < 2147483648 ->
  (exists j s, (j < k)%nat /\ let id := allocId n + Z.of_nat j in
     sockets n !! slot_of n id = Some s /\ s_type s = kSocketNoneType /\
     reserve_loop k n = Ok (id, with_sockets (with_allocId n (id + 1))
       (<[slot_of n id := reserved id s]> (sockets n)))) \/
  (reserve_loop k n = Fault AssertFailed /\
   forall j s, (j < k)%nat -> sockets n !! slot_of n (allocId n + Z.of_nat j) = Some s ->
     s_type s <> kSocketNoneType).
Proof.
  revert n. induction k as [| k IH]; intros n T Ha Hk; [right; split; [done | lia] |].
  cbn [reserve_loop]. destruct (slot_exists (allocId n) n T) as [s E].
  pose proof (reserve_turn_Ok n s T ltac:(lia) E) as R.
  destruct (bool_decide (s_type s = kSocketNoneType)) eqn:Et.
  - left. exists 0%nat, s. cbv zeta. rewrite Z.add_0_r. split; [lia |]. split; [done |].
    apply bool_decide_eq_true in Et. split; [done |]. by rewrite (st_bind_Ok _ _ _ _ _ R).
  - rewrite (st_bind_Ok _ _ _ _ _ R). apply bool_decide_eq_false in Et.
    set (n1 := with_allocId n (allocId n + 1)).
    destruct (IH n1 (table_ok_allocId _ _ T)) as [(j & s' & Hj & E' & Et' & R') | [R' Hall]];
      [cbn; lia | cbn; lia | left | right].
    + exists (S j), s'. cbv zeta in *. change (allocId n1) with (allocId n + 1) in *.
      replace (allocId n + Z.of_nat (S j)) with (allocId n + 1 + Z.of_nat j) by lia.
      split; [lia |]. split; [done |]. split; [done |]. rewrite R'. done.
    + split; [done |]. intros [| j] s' Hj E'.
      * unfold slot_of in E'. rewrite Z.add_0_r in E'. congruence.
      * apply (Hall j s'); [lia |]. change (allocId n1) with (allocId n + 1).
        replace (allocId n + 1 + Z.of_nat j) with (allocId n + Z.of_nat (S j)) by lia. done.
Qed.

Lemma all_slots_visited n i s :
  table_ok n -> sockets n !! i = Some s ->
  exists j, (j < Z.to_nat (Socket.setsize n))%nat /\ slot_of n (allocId n + Z.of_nat j) = i.
Proof.
  intros T E. pose proof (is_pow2_pos _ (tbl_pow2 _ T)) as Hp.
  assert (Hi : Z.of_nat i < Socket.setsize n).
  { rewrite <- (tbl_len _ T). apply lookup_lt_Some in E. unfold zlen. lia. }
  set (a := allocId n). set (m := Socket.setsize n) in *.
  exists (Z.to_nat ((Z.of_nat i - a) mod m)). pose proof (Z.mod_pos_bound (Z.of_nat i - a) m Hp).
  split; [lia |]. unfold slot_of. fold m. rewrite Z2Nat.id by lia.
  rewrite Zplus_mod_idemp_r. replace (a + (Z.of_nat i - a)) with (Z.of_nat i) by lia.
  rewrite Z.mod_small by lia. lia.
Qed.
End reserve.

(** [tcpGetReserveId], away from the wrap of the 31-bit counter: if any slot
    is free it returns a fresh identifier whose slot was free, marks that slot
    reserved with that identifier and no descriptor, and changes no other slot;
    it fails its assertion exactly when every slot is taken. *)
Theorem tcpGetReserveId_spec {K} `{AeApi K} (n : net K) :
  table_ok n -> 0 <= allocId n -> allocId n + Socket.setsize n < 2147483648 ->
  (exists id s, allocId n <= id < allocId n + Socket.setsize n /\
     sockets n !! slot_of n id = Some s /\ s_type s = kSocketNoneType /\
     tcpGetReserveId n = Ok (id, with_sockets (with_allocId n (id + 1))
       (<[slot_of n id := reserved id s]> (sockets n)))) \/
  (tcpGetReserveId n = Fault AssertFailed /\
   Forall (fun s => s_type s <> kSocketNoneType) (sockets n)).
Proof.
  intros T Ha Hb. pose proof (is_pow2_pos _ (tbl_pow2 _ T)).
  unfold tcpGetReserveId. erewrite st_bind_Ok by reflexivity.
  destruct (reserve_loop_spec (Z.to_nat (Socket.setsize n)) n T Ha ltac:(lia))
    as [(j & s & Hj & E & Et & R) | [R Hall]]; [left | right].
  - exists (allocId n + Z.of_nat j), s. split; [lia | done].
  - split; [done |]. apply Forall_lookup. intros i s E.
    destruct (all_slots_visited n i s T E) as (j & Hj & Hs). apply (Hall j); [done |]. by rewrite Hs.
Qed.

Definition empty_table : net (gmap Z Z) := tcpInit 3 (aeCreateEventLoop 16 0 ∅).

Lemma tcpGetReserveId_spec_witness :
  exists id n', tcpGetReserveId empty_table = Ok (id, n') /\ 1 <= id < 5 /\
    Socket.setsize empty_table = 4.
Proof.
  destruct (tcpGetReserveId_spec empty_table) as [(id & s & Hid & _ & _ & E) | [E _]].
  - split; [by exists 2 | vm_compute; congruence | reflexivity].
  - vm_compute; congruence.
  - reflexivity.
  - exists id. eexists. split; [exact E |]. split; [exact Hid | reflexivity].
  - exfalso. revert E. vm_compute. congruence.
Defined.

(** ** Closing *)
Section closing.
  Context {K : Type} `{AeApiLaws K}.
  Variables (undef : Z) (errtext : tcp_error -> list Z).
  Implicit Types n : net K.

(** A slot that holds a descriptor. *)
Record live n (i : nat) (s : socket) : Prop := {
  lv_sock : sockets n !! i = Some s;
  lv_table : table_ok n;
  lv_loop : ae_ok (loop n);
  lv_fd : 0 <= s_fd s;
  lv_id : 0 <= s_id s /\ i = slot_of n (s_id s);
  lv_state : s_state s = kSocketConnected \/ s_state s = kSocketConnecting;
}.

Definition close_message (s : socket) : zsend :=
  ZSend 0 (s_from s) 0 (sock_type MSG_TYPE_SOCK_CLOSE) None 0 (s_id s).

Definition freed (s : socket) : socket := set_type (set_state s kSocketDisconnected) kSocketNoneType.

Lemma fd_mask_range (el : aeEventLoop proc nat K) fd : ae_ok el -> 0 <= fd_mask el fd < 4.
Proof.
  intros I. unfold fd_mask. destruct (events el !! Z.to_nat fd) eqn:E; [by apply (ok_mask _ I _ _ E) | lia].
Qed.

Lemma delete_clears (el : aeEventLoop proc nat K) fd m :
  ae_ok el -> 0 <= fd -> 0 < m < 4 ->
  exists el', aeDeleteFileEvent el fd m = Ok el' /\ ae_ok el' /\
    fd_mask el' fd = Z.land (fd_mask el fd) (Z.lnot m).
Proof.
  intros I Hfd Hm. destruct (aeDeleteFileEvent_cases el fd m I Hfd Hm) as (el' & E & I' & _ & C).
  exists el'. split; [done |]. split; [done |]. destruct C as [[Ev E0] | (fe & Ef & Ev)].
  - rewrite E0. unfold fd_mask. rewrite Ev. by unfold fd_mask in E0.
  - unfold fd_mask. rewrite Ev, Ef, list_lookup_insert_eq; [done |]. by apply lookup_lt_Some in Ef.
Qed.

Lemma handleClose_Ok i n s :
  live n i s ->
  exists el, handleClose i n =
      Ok (tt, Net (allocId n) (Socket.setsize n) (<[i := freed s]> (sockets n)) el
                (out n ++ [close_message s]) (closed n ++ [s_fd s]) (wire n)) /\
    ae_ok el /\ fd_mask el (s_fd s) = 0.
Proof.
  intros [E T I Hfd [Hid Hi] _]. unfold handleClose. rewrite (st_bind_Ok _ _ _ _ _ (sock_Ok _ _ _ E)).
  destruct (delete_clears (loop n) (s_fd s) AE_READABLE I Hfd ltac:(unfold AE_READABLE; lia))
    as (el1 & E1 & I1 & M1).
  destruct (delete_clears el1 (s_fd s) AE_WRITABLE I1 Hfd ltac:(unfold AE_WRITABLE; lia))
    as (el2 & E2 & I2 & M2).
  assert (D1 : ae_delete (s_fd s) AE_READABLE n = Ok (tt, with_loop n el1))
    by (unfold ae_delete; by rewrite E1).
  rewrite (st_bind_Ok _ _ _ _ _ D1).
  assert (D2 : ae_delete (s_fd s) AE_WRITABLE (with_loop n el1) = Ok (tt, with_loop n el2))
    by (unfold ae_delete; cbn [loop with_loop]; by rewrite E2).
  rewrite (st_bind_Ok _ _ _ _ _ D2). erewrite st_bind_Ok by reflexivity.
  set (n1 := with_closed _ _). assert (En1 : sockets n1 !! i = Some s) by done.
  rewrite (st_bind_Ok _ _ _ _ _ (upd_Ok _ _ _ _ En1)). set (n2 := with_sockets n1 _).
  assert (En2 : sockets n2 !! i = Some (set_state s kSocketDisconnected)) by (by eapply lookup_upd).
  assert (T2 : table_ok n2).
  { destruct T as [T1 T2 T3]. split; [done | done |]. cbn. by rewrite zlen_insert. }
  pose proof (tcpRecoverId_Ok (s_id s) n2 (set_state s kSocketDisconnected) T2 Hid) as R.
  change (Socket.setsize n2) with (Socket.setsize n) in R. fold (slot_of n (s_id s)) in R.
  rewrite <- Hi in R. specialize (R En2). cbn [s_state set_state] in R.
  rewrite bool_decide_eq_true_2 in R by done.
  rewrite (st_bind_Ok _ _ _ _ _ R). exists el2. split.
  - unfold n2. rewrite upd_upd. done.
  - split; [done |]. rewrite M2, M1. pose proof (fd_mask_range (loop n) (s_fd s) I) as Hr.
    revert Hr. generalize (fd_mask (loop n) (s_fd s)) as m. apply small_cases; reflexivity.
Qed.

Definition close_request (from id : Z) : tcpRequest := Request from [id] kTcpSocketClose.

Lemma close_live from i n s a :
  live n i s ->
  exists el, handleEvent undef errtext (close_request from (s_id s)) a n =
      Ok (tt, Net (allocId n) (Socket.setsize n) (<[i := freed s]> (sockets n)) el
                (out n ++ [close_message s]) (closed n ++ [s_fd s]) (wire n)) /\
    ae_ok el /\ fd_mask el (s_fd s) = 0.
Proof.
  intros L. destruct (handleClose_Ok i n s L) as (el & E & I & M). destruct L as [Es T Il Hfd [Hid Hi] St].
  exists el. split; [| done]. unfold handleEvent. cbn [req_body close_request].
  unfold handleTcpSocketClose. change (req_id (close_request from (s_id s))) with (Ok (s_id s)).
  unfold st_lift. erewrite st_bind_Ok by reflexivity.
  assert (Es' : sockets n !! slot_of n (s_id s) = Some s) by (by rewrite <- Hi).
  rewrite (st_bind_Ok _ _ _ _ _ (tcpGetSocket_Ok _ _ _ T Es')), Z.eqb_refl.
  fold (slot_of n (s_id s)). rewrite <- Hi. unfold socketForceClose.
  erewrite st_bind_Ok; [reflexivity |]. rewrite (st_bind_Ok _ _ _ _ _ (sock_Ok _ _ _ Es)).
  assert (B : bool_decide (s_state s = kSocketConnected) || bool_decide (s_state s = kSocketConnecting) = true)
    by (destruct St as [-> | ->]; done).
  rewrite B. by rewrite (st_bind_Ok _ _ _ _ _ E).
Qed.
End closing.

(** C22: closing a connection closes it once.  A close request for a live
    connection closes its descriptor, removes it from the epoll set, frees the
    slot for reuse and sends the service exactly one CLOSE message; a second
    close request for the same identifier has no further effect on the service,
    the descriptors or the slot. *)
Theorem tcpSocketClose_once {K} `{AeApiLaws K} undef errtext from i (n : net K) s a :
  live n i s ->
  exists n1 n2,
    handleEvent undef errtext (close_request from (s_id s)) a n = Ok (tt, n1) /\
    handleEvent undef errtext (close_request from (s_id s)) a n1 = Ok (tt, n2) /\
    out n2 = out n ++ [close_message s] /\ closed n2 = closed n ++ [s_fd s] /\
    sockets n2 = <[i := freed s]> (sockets n) /\
    api_watched (kernel (loop n2)) (s_fd s) = AE_NONE.
Proof.
  intros L. destruct (close_live undef errtext from i n s a L) as (el & E & I & M).
  destruct L as [Es T Il Hfd [Hid Hi] St]. set (n1 := Net _ _ _ el _ _ _) in E.
  exists n1. assert (E1 : sockets n1 !! i = Some (freed s)).
  { cbn. apply list_lookup_insert_eq. by apply lookup_lt_Some in Es. }
  assert (T1 : table_ok n1).
  { destruct T as [T1 T2 T3]. split; [done | done |]. cbn. by rewrite zlen_insert. }
  assert (Hi1 : i = slot_of n1 (s_id (freed s))) by done.
  pose proof (tcpRecoverId_Ok (s_id (freed s)) n1 (freed s) T1 Hid) as R.
  fold (slot_of n1 (s_id (freed s))) in R. rewrite <- Hi1 in R. specialize (R E1).
  cbn [freed s_state set_type set_state] in R. rewrite bool_decide_eq_true_2 in R by done.
  exists n1. split; [done |]. split; [| split; [done |]; split; [done |]; split; [done |]].
  - unfold handleEvent. cbn [req_body close_request]. unfold handleTcpSocketClose.
    change (req_id (close_request from (s_id s))) with (Ok (s_id s)).
    unfold st_lift. erewrite st_bind_Ok by reflexivity.
    pose proof (tcpGetSocket_Ok (s_id s) n1 (freed s) T1) as G.
    fold (slot_of n1 (s_id s)) in G. change (slot_of n1 (s_id s)) with (slot_of n1 (s_id (freed s))) in G.
    rewrite <- Hi1 in G. specialize (G E1). change (s_id (freed s)) with (s_id s) in G.
    rewrite Z.eqb_refl in G. rewrite (st_bind_Ok _ _ _ _ _ G).
    unfold socketForceClose. erewrite st_bind_Ok; [reflexivity |].
    rewrite (st_bind_Ok _ _ _ _ _ (sock_Ok _ _ _ E1)).
    cbn [freed s_state set_type set_state s_id]. rewrite !bool_decide_eq_false_2 by done. cbn [orb].
    erewrite st_bind_Ok; [reflexivity |]. erewrite st_bind_Ok; [reflexivity |]. change (s_id (freed s)) with (s_id s) in R. rewrite R.
    unfold with_sockets, n1. cbn. by rewrite list_insert_insert_eq.
  - cbn [loop n1]. destruct (decide (api_watched (kernel el) (s_fd s) = AE_NONE)) as [| Hw]; [done |].
    pose proof (ok_range el (s_fd s) I Hw). destruct (aget_is_Ok (events el) (s_fd s)) as (fe & Hfe & _).
    { rewrite (ok_len _ I). lia. }
    rewrite (ok_watched el (s_fd s) fe I) by (done || lia). unfold fd_mask in M. by rewrite Hfe in M.
Qed.

Lemma one_socket_live : live one_socket 0 socket1.
Proof.
  split; try done; [| apply one_socket_conn | by left].
  split; [by exists 0 | vm_compute; congruence | reflexivity].
Qed.

Lemma tcpSocketClose_once_witness :
  exists n1 n2,
    handleEvent 0 (fun _ => []) (close_request 7 1) (Answers 0 false (fun _ => WriteOther)) one_socket = Ok (tt, n1) /\
    handleEvent 0 (fun _ => []) (close_request 7 1) (Answers 0 false (fun _ => WriteOther)) n1 = Ok (tt, n2) /\
    out n2 = [close_message socket1] /\ closed n2 = [5] /\
    sockets n2 = [freed socket1] /\
    api_watched (kernel (loop n2)) 5 = AE_NONE.
Proof.
  exact (tcpSocketClose_once 0 (fun _ => []) 7 0 one_socket socket1 _ one_socket_live).
Defined.

(** ** Failures of tcp.c *)

(** An asynchronous connect never succeeds.  When the non-blocking connect
    is under way, the handler registers [socket->fd] with the event loop before
    it has stored the new descriptor there: the reserved socket's descriptor is
    still [-1] and the loop indexes its event table with it. *)
Theorem tcpSocketAsyncConnect_out_of_bounds {K} `{AeApi K} undef errtext pushed ctx p addr port a (n n1 : net K) id r :
  table_ok n -> 0 <= allocId n -> allocId n + Socket.setsize n < 2147483648 ->
  0 <= Ae.setsize (loop n) ->
  tcpSocketAsyncConnect pushed ctx p addr port n = Ok ((id, Some r), n1) ->
  an_fd a <> -1 -> an_inprogress a = true ->
  handleEvent undef errtext r a n1 = Fault OutOfBounds.
Proof.
  intros T Ha Hb Hl Hr Hf Hp. unfold tcpSocketAsyncConnect in Hr.
  destruct (tcpGetReserveId_spec n T Ha Hb) as [(id' & s & Hid & Es & Et & R) | [R _]];
    [| by rewrite (st_bind_Fault _ _ _ _ R) in Hr].
  rewrite (st_bind_Ok _ _ _ _ _ R) in Hr. unfold tcpPostRequest in Hr.
  destruct pushed; cbn [negb] in Hr.
  2: { apply st_bind_inv in Hr as (x & n2 & _ & Hr). discriminate. }
  injection Hr as <- <- <-. set (n1 := with_sockets _ _).
  assert (T1 : table_ok n1).
  { destruct T as [T1 T2 T3]. split; [done | done |]. cbn. by rewrite zlen_insert. }
  assert (E1 : sockets n1 !! slot_of n1 id' = Some (reserved id' s)).
  { cbn. apply list_lookup_insert_eq. by apply lookup_lt_Some in Es. }
  unfold handleEvent. cbn [req_body]. unfold handleTcpSocketAsyncConnect.
  change (req_id _) with (Ok id'). unfold st_lift. erewrite st_bind_Ok by reflexivity.
  pose proof (tcpGetSocket_Ok id' n1 (reserved id' s) T1 E1) as G.
  change (s_id (reserved id' s)) with id' in G. rewrite Z.eqb_refl in G.
  fold (slot_of n1 id') in G. rewrite (st_bind_Ok _ _ _ _ _ G).
  rewrite (st_bind_Ok _ _ _ _ _ (upd_Ok _ _ _ _ E1)). set (n2 := with_sockets n1 _).
  destruct (Z.eqb_spec (an_fd a) (-1)); [done |]. rewrite Hp. cbn [orb negb].
  assert (C : socketConnect (slot_of n1 id') n2 = Fault OutOfBounds).
  { unfold socketConnect. assert (E2 : sockets n2 !! slot_of n1 id' = Some (set_from (reserved id' s) ctx))
      by (by eapply (lookup_upd n1)).
    rewrite (st_bind_Ok _ _ _ _ _ (sock_Ok _ _ _ E2)).
    unfold ae_create, aeCreateFileEvent. change (s_fd (set_from (reserved id' s) ctx)) with (-1).
    rewrite Z.geb_leb. destruct (Z.leb_spec (Ae.setsize (loop n2)) (-1)) as [Hx |]; [| done].
    exfalso. change (loop n2) with (loop n) in Hx. lia. }
  by rewrite (st_bind_Fault _ _ _ _ C).
Qed.

Lemma tcpSocketAsyncConnect_out_of_bounds_witness :
  exists r n1, tcpSocketAsyncConnect true 9 1 [49] 80 empty_table = Ok ((1, Some r), n1) /\
    handleEvent 0 (fun _ => []) r (Answers 6 true (fun _ => WriteOther)) n1 = Fault OutOfBounds.
Proof.
  eexists _, _. split; [reflexivity |].
  apply (tcpSocketAsyncConnect_out_of_bounds 0 (fun _ => []) true 9 1 [49] 80 _ empty_table _ 1).
  - split; [by exists 2 | vm_compute; congruence | reflexivity].
  - vm_compute; congruence.
  - reflexivity.
  - vm_compute; congruence.
  - reflexivity.
  - vm_compute; congruence.
  - reflexivity.
Defined.

(** When the request queue is full, starting or closing a live connection
    aborts the server: [tcpPostRequest] recovers the identifier as if it had
    just been reserved, and [tcpRecoverId] asserts that the socket is
    disconnected. *)
Theorem tcpPostRequest_full_aborts {K} `{AeApi K} ctx i (n : net K) s :
  sockets n !! i = Some s -> table_ok n -> 0 <= s_id s -> i = slot_of n (s_id s) ->
  s_state s <> kSocketDisconnected ->
  tcpSocketStart false ctx (s_id s) n = Fault AssertFailed /\
  tcpSocketClose false ctx (s_id s) n = Fault AssertFailed.
Proof.
  intros E T Hid Hi Hs. unfold tcpSocketStart, tcpSocketClose, tcpPostRequest. cbn [negb].
  pose proof (tcpRecoverId_Ok (s_id s) n s T Hid) as R. fold (slot_of n (s_id s)) in R.
  rewrite <- Hi in R. specialize (R E). rewrite bool_decide_eq_false_2 in R by done.
  by rewrite !(st_bind_Fault _ _ _ _ R).
Qed.

Lemma tcpPostRequest_full_aborts_witness :
  tcpSocketStart false 7 1 one_socket = Fault AssertFailed /\
  tcpSocketClose false 7 1 one_socket = Fault AssertFailed.
Proof.
  apply (tcpPostRequest_full_aborts 7 0 one_socket socket1); try reflexivity.
  - split; [by exists 0 | vm_compute; congruence | reflexivity].
  - vm_compute; congruence.
  - vm_compute; congruence.
Defined.

(** A connect that the peer refuses. *)
Definition failed_connect (undef : Z) (errtext : tcp_error -> list Z) : ST (net (gmap Z Z)) unit :=
  '(id, r) ← tcpSocketConnect true 7 HEAD_PROTO_TYPE [49] 80;
  match r with
  | Some r => handleEvent undef errtext r (Answers (-1) false (fun _ => WriteOther))
  | None => mret tt
  end.

(** Failed connects leak their slots.  The handler of a refused connect
    reports the error and leaves the slot reserved for ever: on a table of 4
    slots, the fifth connect finds none and fails the assertion of
    [tcpGetReserveId], which ends the process. *)
Theorem failed_connect_leaks_slots undef errtext :
  exists n, (_ ← failed_connect undef errtext; _ ← failed_connect undef errtext;
             _ ← failed_connect undef errtext; failed_connect undef errtext) empty_table = Ok (tt, n) /\
    Forall (fun s => s_type s = kReserveType /\ s_state s = kSocketDisconnected) (sockets n) /\
    failed_connect undef errtext n = Fault AssertFailed.
Proof.
  eexists. split; [vm_compute; reflexivity |]. split; [by repeat constructor | reflexivity].
Qed.

(** A connection made with [tcpSocketConnect] and started. *)
Definition connect_start (undef : Z) (errtext : tcp_error -> list Z) : ST (net (gmap Z Z)) Z :=
  let a := Answers 5 false (fun _ => WriteOther) in
  '(id, r) ← tcpSocketConnect true 7 HEAD_PROTO_TYPE [49] 80;
  r ← st_lift (deref r); _ ← handleEvent undef errtext r a;
  '(_, r) ← tcpSocketStart true 7 id;
  r ← st_lift (deref r); _ ← handleEvent undef errtext r a; mret id.

(** Bytes of a closed connection reach the next one.  The read buffer of a
    slot survives its connection and [handleTcpSocketConnect] does not clear it
    (the accepting path does): here the first connection ends inside a frame of
    5 bytes; the first complete frame the second peer sends is cut into a
    message of 5 bytes that it never sent, and the rest of it is taken for an
    illegal length and closes the connection. *)
Theorem stale_read_buffer undef errtext :
  exists n, (id1 ← connect_start undef errtext;
      _ ← onRead undef errtext 0 (ReadBytes [5; 0; 0; 0; 1]);
      _ ← handleClose 0;
      id2 ← connect_start undef errtext;
      _ ← onRead undef errtext 0 (ReadBytes (encode [9; 9; 9; 9]));
      mret (id1, id2)) (tcpInit 1 (aeCreateEventLoop 16 0 ∅)) = Ok ((1, 2), n) /\
    out n = [ZSend 0 7 0 (sock_type MSG_TYPE_SOCK_CLOSE) None 0 1;
             protoMessageCallback 7 2 (Some [1; 4; 0; 0; 0; undef]) 5;
             ZSend 0 7 0 (sock_type MSG_TYPE_SOCK_CLOSE) None 0 2].
Proof. eexists. split; vm_compute; reflexivity. Qed.
