(* ===== verification/Session.v ===== *)
(** * session.c, tcp_server.c, tcp_client.c: sessions on the heap

    The sessions of the generic network layer are heap blocks; the table of
    gen_tcp.c, the client data of the event loop and the timers hold pointers to
    them.  A pointer is a number that is never handed out twice, so a read or a
    write of a freed session is the fault [UseAfterFree].  What the system
    answers (readv, send, write, accept, getsockopt) is an argument of the
    function that asks; the messages to the services, the descriptors closed and
    the bytes handed to the kernel are recorded in order. *)
From S2P Require Import Prelude Bits Define Buffer Proto Protocol Ae Socket.

Inductive StateE := kDisconnected | kConnecting | kConnected | kDisConnecting.
Inductive SessionTypeE :=
  | kSessionTypeNONE | kSessionAcceptType | kSessionSocketType | kSessionConnectType.

#[export] Instance StateE_eq_dec : EqDecision StateE.
Proof. solve_decision. Defined.
#[export] Instance SessionTypeE_eq_dec : EqDecision SessionTypeE.
Proof. solve_decision. Defined.

(** The addresses of the two callback tables, and which of their members are set. *)
Inductive callbacks := tcpServerCallback | tcpClientCallback.
Definition members (cb : callbacks) : netCallback := NetCallback true true true.

(** The functions registered with the event loop; the client data is the session.
    [SMsgqueue] is the handler of the request queue, [SStartConnect] a timer's. *)
Inductive sproc := SAccept | SRead | SWrite | SConnecting | SMsgqueue | SStartConnect.
#[export] Instance sproc_eq_dec : EqDecision sproc.
Proof. solve_decision. Defined.

(** [struct session]; the loop is the state's.  [cb] and [ud] are [None] until they
    are set. *)
Record session := Session {
  ss_from : Z;
  ss_type : SessionTypeE;
  ss_cb : option callbacks;
  ss_protoType : Z;
  ss_destId : Z;
  ss_id : Z;
  ss_fd : Z;
  ss_port : Z;
  ss_ip : list Z;
  ss_state : StateE;
  ss_readBuffer : option buffer;
  ss_sendBuffer : option buffer;
  ss_ud : option nat;
}.

Definition set_from (s : session) v := Session v (ss_type s) (ss_cb s) (ss_protoType s) (ss_destId s) (ss_id s) (ss_fd s) (ss_port s) (ss_ip s) (ss_state s) (ss_readBuffer s) (ss_sendBuffer s) (ss_ud s).
Definition set_fd (s : session) v := Session (ss_from s) (ss_type s) (ss_cb s) (ss_protoType s) (ss_destId s) (ss_id s) v (ss_port s) (ss_ip s) (ss_state s) (ss_readBuffer s) (ss_sendBuffer s) (ss_ud s).
Definition set_state (s : session) v := Session (ss_from s) (ss_type s) (ss_cb s) (ss_protoType s) (ss_destId s) (ss_id s) (ss_fd s) (ss_port s) (ss_ip s) v (ss_readBuffer s) (ss_sendBuffer s) (ss_ud s).
Definition set_readBuffer (s : session) v := Session (ss_from s) (ss_type s) (ss_cb s) (ss_protoType s) (ss_destId s) (ss_id s) (ss_fd s) (ss_port s) (ss_ip s) (ss_state s) v (ss_sendBuffer s) (ss_ud s).
Definition set_sendBuffer (s : session) v := Session (ss_from s) (ss_type s) (ss_cb s) (ss_protoType s) (ss_destId s) (ss_id s) (ss_fd s) (ss_port s) (ss_ip s) (ss_state s) (ss_readBuffer s) v (ss_ud s).
Definition sessionSetud (s : session) v := Session (ss_from s) (ss_type s) (ss_cb s) (ss_protoType s) (ss_destId s) (ss_id s) (ss_fd s) (ss_port s) (ss_ip s) (ss_state s) (ss_readBuffer s) (ss_sendBuffer s) v.

Record tcpClient := TcpClient { retryDelayMs : Z; retry : Z }.

Definition kRetryState : Z := 1.
Definition kMaxRetryDelayMs : Z := 30 * 1000.
Definition isReConnect (cli : tcpClient) : bool := retry cli =? kRetryState.

(** What accept(2) yields: descriptor, address and port. *)
Inductive tcp_accept := TcpAccepted (cfd : Z) (ip : list Z) (port : Z) | TcpAcceptError.

Section Session.
  Context {K : Type} `{AeApi K}.
  Variable undef : Z.
  (** the reading of the clock *)
  Variable now : Z * Z.

(** [struct genTcp] with the heap of the sessions, the event loop and what has
    been sent; [gt_next] is the next address. *)
Record genTcp := GenTcp {
  gt_id : Z;
  gt_setsize : Z;
  gt_sessions : list (option nat);
  gt_heap : gmap nat session;
  gt_clients : gmap nat tcpClient;
  gt_next : nat;
  gt_loop : aeEventLoop sproc nat K;
  gt_out : list zsend;
  gt_closed : list Z;
  gt_wire : list (Z * list Z);
}.

Definition with_id (n : genTcp) v := GenTcp v (gt_setsize n) (gt_sessions n) (gt_heap n) (gt_clients n) (gt_next n) (gt_loop n) (gt_out n) (gt_closed n) (gt_wire n).
Definition with_sessions (n : genTcp) v := GenTcp (gt_id n) (gt_setsize n) v (gt_heap n) (gt_clients n) (gt_next n) (gt_loop n) (gt_out n) (gt_closed n) (gt_wire n).
Definition with_heap (n : genTcp) v := GenTcp (gt_id n) (gt_setsize n) (gt_sessions n) v (gt_clients n) (gt_next n) (gt_loop n) (gt_out n) (gt_closed n) (gt_wire n).
Definition with_clients (n : genTcp) v := GenTcp (gt_id n) (gt_setsize n) (gt_sessions n) (gt_heap n) v (gt_next n) (gt_loop n) (gt_out n) (gt_closed n) (gt_wire n).
Definition with_next (n : genTcp) v := GenTcp (gt_id n) (gt_setsize n) (gt_sessions n) (gt_heap n) (gt_clients n) v (gt_loop n) (gt_out n) (gt_closed n) (gt_wire n).
Definition with_loop (n : genTcp) v := GenTcp (gt_id n) (gt_setsize n) (gt_sessions n) (gt_heap n) (gt_clients n) (gt_next n) v (gt_out n) (gt_closed n) (gt_wire n).
Definition with_out (n : genTcp) v := GenTcp (gt_id n) (gt_setsize n) (gt_sessions n) (gt_heap n) (gt_clients n) (gt_next n) (gt_loop n) v (gt_closed n) (gt_wire n).
Definition with_closed (n : genTcp) v := GenTcp (gt_id n) (gt_setsize n) (gt_sessions n) (gt_heap n) (gt_clients n) (gt_next n) (gt_loop n) (gt_out n) v (gt_wire n).
Definition with_wire (n : genTcp) v := GenTcp (gt_id n) (gt_setsize n) (gt_sessions n) (gt_heap n) (gt_clients n) (gt_next n) (gt_loop n) (gt_out n) (gt_closed n) v.

(** Reading, writing, allocating and freeing a session. *)
Definition sess (p : nat) : ST genTcp session := fun n =>
  match gt_heap n !! p with Some s => Ok (s, n) | None => Fault UseAfterFree end.
Definition upd (p : nat) (f : session -> session) : ST genTcp unit := fun n =>
  match gt_heap n !! p with
  | Some s => Ok (tt, with_heap n (<[p := f s]> (gt_heap n)))
  | None => Fault UseAfterFree
  end.
Definition new_sess (s : session) : ST genTcp nat := fun n =>
  Ok (gt_next n, with_next (with_heap n (<[gt_next n := s]> (gt_heap n))) (S (gt_next n))).
Definition free_sess (p : nat) : ST genTcp unit := fun n =>
  match gt_heap n !! p with
  | Some _ => Ok (tt, with_heap n (delete p (gt_heap n)))
  | None => Fault UseAfterFree
  end.

Definition zSendx (m : zsend) : ST genTcp unit := st_modify (fun n => with_out n (gt_out n ++ [m])).
Definition close_fd (fd : Z) : ST genTcp unit := st_modify (fun n => with_closed n (gt_closed n ++ [fd])).
Definition to_wire (fd : Z) (bs : list Z) : ST genTcp unit :=
  st_modify (fun n => with_wire n (gt_wire n ++ [(fd, bs)])).
Definition ae_create (fd mask : Z) (p : sproc) (d : nat) : ST genTcp Z := fun n =>
  r ← aeCreateFileEvent (gt_loop n) fd mask p (Some d); Ok (r.1, with_loop n r.2).
Definition ae_delete (fd mask : Z) : ST genTcp unit := fun n =>
  el ← aeDeleteFileEvent (gt_loop n) fd mask; Ok (tt, with_loop n el).

(** ** gen_tcp.c: the table *)

Definition getIndex (id : Z) : ST genTcp nat :=
  n ← st_get; mret (Z.to_nat (Z.land id (gt_setsize n - 1))).

Definition slot (i : nat) : ST genTcp (option nat) := fun n =>
  match gt_sessions n !! i with Some o => Ok (o, n) | None => Fault OutOfBounds end.
Definition set_slot (i : nat) (o : option nat) : ST genTcp unit := fun n =>
  if decide (i < length (gt_sessions n))%nat
  then Ok (tt, with_sessions n (<[i := o]> (gt_sessions n))) else Fault OutOfBounds.

Definition getSession (id : Z) : ST genTcp (option nat) := i ← getIndex id; slot i.

(** The compare-and-swap acts on a local copy of the slot: it is a test. *)
Fixpoint reserve_loop (k : nat) : ST genTcp Z :=
  match k with
  | O => mret (-1)
  | S k =>
    n ← st_get;
    let id := gt_id n in
    _ ← st_modify (fun n => with_id n (i32 (id + 1)));
    id ← (if id <=? 0 then _ ← st_modify (fun n => with_id n 1); mret 1 else mret id);
    o ← getSession id;
    match o with None => mret id | Some _ => reserve_loop k end
  end.

Definition getReserveId : ST genTcp Z := n ← st_get; reserve_loop (Z.to_nat (gt_setsize n)).

Definition buildSessionUd (s : session) : Z := ss_id s.

(** ** tcp_server.c, tcp_client.c: the callbacks *)

Definition onConnection (p : nat) : ST genTcp unit :=
  s ← sess p;
  zSendx (ZSend 0 (ss_from s) 0 (sock_type MSG_TYPE_SOCK_OPEN) None 0 (buildSessionUd s)).

Definition onMessage (p : nat) (data : option (list Z)) (sz : Z) : ST genTcp unit :=
  s ← sess p;
  zSendx (ZSend 0 (ss_from s) 0 (sock_type MSG_TYPE_SOCK_DATA) data sz (buildSessionUd s)).

Definition server_onClose (p : nat) : ST genTcp unit :=
  s ← sess p;
  zSendx (ZSend 0 (ss_from s) 0 (sock_type MSG_TYPE_SOCK_CLOSE) None 0 (buildSessionUd s)).

Definition client (c : nat) : ST genTcp tcpClient := fun n =>
  match gt_clients n !! c with Some cli => Ok (cli, n) | None => Fault UseAfterFree end.

Definition onReConnect (p c : nat) (cli : tcpClient) : ST genTcp unit :=
  _ ← st_modify (fun n =>
        with_loop n (aeCreateTimeEvent (gt_loop n) now (retryDelayMs cli) SStartConnect (Some p) None).2);
  let d := if retryDelayMs cli <? kMaxRetryDelayMs then i32 (retryDelayMs cli * 2) else kMaxRetryDelayMs in
  st_modify (fun n => with_clients n (<[c := TcpClient d (retry cli)]> (gt_clients n))).

Definition reConnect (p c : nat) : ST genTcp unit :=
  cli ← client c;
  if isReConnect cli then onReConnect p c cli
  else
    s ← sess p;
    _ ← zSendx (ZSend 0 (ss_from s) 0 (sock_type MSG_TYPE_SOCK_CLOSE) None 0 (buildSessionUd s));
    st_modify (fun n => with_clients n (delete c (gt_clients n))).

Definition client_onClose (p : nat) : ST genTcp unit :=
  s ← sess p; c ← st_lift (deref (ss_ud s)); reConnect p c.

Definition cb_onClose (p : nat) : ST genTcp unit :=
  s ← sess p;
  match ss_cb s with
  | None => st_fault NullDeref
  | Some tcpServerCallback => server_onClose p
  | Some tcpClientCallback => client_onClose p
  end.

(** ** session.c: states and release

    Leaving the connected state removes the session from the table, which
    releases it; releasing a connected session leaves that state first.  The
    functions below take what [sessionRelease] is, and the recursion is tied
    under them. *)

Section states.
  Variable release : nat -> ST genTcp unit.

Definition removeSession_ (id : Z) : ST genTcp unit :=
  o ← getSession id;
  _ ← match o with Some p => release p | None => mret tt end;
  i ← getIndex id; set_slot i None.

(** What the effects of protocol.c's functions do here. *)
Definition run_event (p : nat) (e : sevent) : ST genTcp unit :=
  match e with
  | EvProtoMessage body len => onMessage p body len
  | EvConnection => onConnection p
  | EvClose => cb_onClose p
  | EvRemoveSession id => removeSession_ id
  end.

Fixpoint run_events (p : nat) (es : list sevent) : ST genTcp unit :=
  match es with [] => mret tt | e :: es => _ ← run_event p e; run_events p es end.

Definition sessionSetState_ (p : nat) (st : StateE) : ST genTcp unit :=
  _ ← upd p (fun s => set_state s st);
  s ← sess p;
  match st with
  | kConnected =>
    _ ← ae_create (ss_fd s) AE_READABLE SRead p;
    es ← st_lift (defaultConnectionCallback (members <$> ss_cb s)); run_events p es
  | kConnecting => _ ← ae_create (ss_fd s) AE_WRITABLE SConnecting p; mret tt
  | kDisConnecting =>
    _ ← ae_delete (ss_fd s) AE_READABLE;
    _ ← ae_delete (ss_fd s) AE_WRITABLE;
    _ ← close_fd (ss_fd s);
    es ← st_lift (defaultCloseCallback (ss_id s) (members <$> ss_cb s)); run_events p es
  | kDisconnected => mret tt
  end.
End states.

Definition is_open (s : session) : bool :=
  bool_decide (ss_state s = kConnected) || bool_decide (ss_state s = kConnecting).

Fixpoint release_fuel (fuel : nat) (p : nat) : ST genTcp unit :=
  match fuel with
  | O => st_fault OutOfFuel
  | S fuel =>
    s ← sess p;
    _ ← (if is_open s then sessionSetState_ (release_fuel fuel) p kDisConnecting else mret tt);
    _ ← sess p;
    free_sess p
  end.

(** Every level of the recursion turns an open session into a closing one. *)
Definition sessionRelease (p : nat) : ST genTcp unit :=
  n ← st_get; release_fuel (S (base.size (gt_heap n))) p.
Definition removeSession (id : Z) : ST genTcp unit := removeSession_ sessionRelease id.
Definition sessionSetState (p : nat) (st : StateE) : ST genTcp unit := sessionSetState_ sessionRelease p st.

(** [anetNonBlock] and [anetEnableTcpNoDelay] set options of the descriptor. *)
Definition sessionBindfd (p : nat) (fd : Z) : ST genTcp Z :=
  s ← sess p;
  _ ← st_assert (ss_fd s =? INVALID_FD);
  if fd =? INVALID_FD then mret (-1)
  else
    _ ← upd p (fun s => set_fd s fd);
    _ ← sessionSetState p kConnected; mret 0.

Definition sessionCreate (id fd : Z) : ST genTcp nat :=
  p ← new_sess (Session undef kSessionTypeNONE None undef undef id INVALID_FD 0 [0]
         kDisconnected None None None);
  _ ← sessionBindfd p fd; mret p.

Definition newSession (id fd : Z) : ST genTcp nat :=
  _ ← st_assert (0 <=? id);
  p ← sessionCreate id fd;
  i ← getIndex id; _ ← set_slot i (Some p); mret p.

Definition handleClose (p : nat) : ST genTcp unit := sessionSetState p kDisConnecting.
Definition handleError (p : nat) : ST genTcp unit := handleClose p.

Definition sessionForceClose (p : nat) : ST genTcp Z :=
  s ← sess p; _ ← (if is_open s then handleClose p else mret tt); mret 0.

Definition sessionStart (p : nat) : ST genTcp Z :=
  s ← sess p;
  _ ← st_assert (negb (ss_fd s =? INVALID_FD));
  _ ← sessionSetState p kConnected; mret 0.

Definition sessionAccept (p : nat) (fd : Z) : ST genTcp unit :=
  _ ← upd p (fun s => set_fd s fd); _ ← ae_create fd AE_READABLE SAccept p; mret tt.

(** [fd] is what [anetTcpNonBlockConnect] yields, [inprogress] whether [errno] is
    [EINPROGRESS]. *)
Definition sessionConnect (p : nat) (fd : Z) (inprogress : bool) : ST genTcp Z :=
  _ ← sess p;
  if fd =? -1 then mret (-1)
  else if inprogress then _ ← ae_create fd AE_WRITABLE SConnecting p; mret 0
  else _ ← sessionBindfd p fd; mret 0.

Definition _startConnect (p : nat) (fd : Z) (inprogress : bool) : ST genTcp Z :=
  _ ← sessionConnect p fd inprogress; mret AE_NOMORE.

Definition sessionResetReadBuffer (s : session) : session :=
  set_readBuffer s (bufferReset undef <$> ss_readBuffer s).

(** ** Reading and writing *)

(** [readv] fills the buffer's free space, then [extrabuf]. *)
Definition sessionRead (p : nat) (r : read_result) : ST genTcp Z :=
  s ← sess p;
  let buf := default (bufferCreate undef READ_BUFFER_INITIAL) (ss_readBuffer s) in
  _ ← upd p (fun s => set_readBuffer s (Some buf));
  match r with
  | ReadError => mret (-1)
  | ReadBytes bs =>
    let writeable := bufferWriteableBytes buf in
    let n := zlen bs in
    if n =? 0 then mret n
    else
      let first := take (Z.to_nat writeable) bs in
      d ← st_lift (deref (data buf));
      d' ← st_lift (acopy_in d (writeIndex buf) first);
      let buf := Buffer (writeIndex buf) (readIndex buf) (initSize buf) (size buf) (Some d') in
      buf ← (if n <=? writeable then mret (bufferMoveWriteIndex buf n)
             else st_lift (bufferAppend undef (bufferSetWriteIndex buf (bufferGetSize buf))
                             (drop (Z.to_nat writeable) bs)));
      _ ← upd p (fun s => set_readBuffer s (Some buf));
      mret n
  end.

Definition onRead (p : nat) (r : read_result) : ST genTcp unit :=
  n ← sessionRead p r;
  if n >? 0 then
    s ← sess p;
    buf ← st_lift (deref (ss_readBuffer s));
    '(es, bad, buf) ← st_lift (defaultMessageCallback undef (ss_protoType s) (members <$> ss_cb s) buf);
    _ ← run_events sessionRelease p es;
    _ ← upd p (fun s => set_readBuffer s (Some buf));
    if (bad : bool) then _ ← sessionForceClose p; mret tt else mret tt
  else if n =? 0 then handleClose p
  else handleError p.

(** The send buffer and how the loop ended: everything sent, to be continued
    ([Some]), or an error; [sends k] is the [k]-th answer of [send]. *)
Fixpoint send_loop (fuel k : nat) (sends : nat -> send_result) (fd : Z) (buf : buffer)
    : ST genTcp (buffer * option bool) :=
  match fuel with
  | O => st_fault OutOfFuel
  | S fuel =>
    match sends k with
    | Sent m =>
      let n := Z.min (Z.of_nat m) (bufferReadableBytes buf) in
      if n >? 0 then
        bs ← st_lift (bufferPeek buf 0 n);
        _ ← to_wire fd bs;
        let buf := bufferMoveReadIndex buf n in
        if bufferReadableBytes buf <=? 0 then mret (buf, Some true)
        else send_loop fuel (S k) sends fd buf
      else mret (buf, Some false)
    | SendAgain => mret (buf, Some false)
    | SendError => mret (buf, None)
    end
  end.

Definition onWrite (p : nat) (sends : nat -> send_result) : ST genTcp unit :=
  s ← sess p;
  buf ← st_lift (deref (ss_sendBuffer s));
  r ← send_loop (S (Z.to_nat (bufferReadableBytes buf))) 0 sends (ss_fd s) buf;
  _ ← upd p (fun s => set_sendBuffer s (Some r.1));
  match r.2 with
  | None => handleError p
  | Some false => mret tt
  | Some true =>
    _ ← upd p (fun s => set_sendBuffer s (Some (bufferRetrieveAll r.1)));
    _ ← ae_delete (ss_fd s) AE_WRITABLE;
    st_lift (defaultWriteCompleteCallback (members <$> ss_cb s))
  end.

Definition hasSendBuffer (s : session) : bool :=
  match ss_sendBuffer s with
  | None => false
  | Some buf => negb (bufferReadableBytes buf =? 0)
  end.

(** The [len] bytes at [buf]; nothing is read when there are none. *)
Definition bytes_at (buf : option (list Z)) (len : Z) : outcome (list Z) :=
  if len =? 0 then mret [] else d ← deref buf; acopy_out d 0 len.

(** [bufferAppend] takes a 32-bit length. *)
Definition sessionWrite (p : nat) (buf : option (list Z)) (len : Z) (w : write_result) : ST genTcp Z :=
  s ← sess p;
  if negb (bool_decide (ss_state s = kConnected)) then mret (-1)
  else
    bs ← st_lift (bytes_at buf len);
    '(nwrote, faultError) ←
      (if negb (hasSendBuffer s) then
         match w with
         | Wrote m =>
           _ ← to_wire (ss_fd s) (take m bs);
           let nwrote := Z.min (Z.of_nat m) (zlen bs) in
           _ ← (if zlen bs - nwrote =? 0
                then st_lift (defaultWriteCompleteCallback (members <$> ss_cb s)) else mret tt);
           mret (nwrote, false)
         | WriteReset => mret (0, true)
         | _ => mret (0, false)
         end
       else mret (0, false));
    let remaining := zlen bs - nwrote in
    _ ← st_assert (0 <=? remaining);
    _ ← (if negb faultError && (remaining >? 0) then
           let sb := default (bufferCreate undef SEND_BUFFER_INITIAL) (ss_sendBuffer s) in
           sb ← st_lift (bufferAppend undef sb (take (Z.to_nat (u32 remaining)) (drop (Z.to_nat nwrote) bs)));
           _ ← upd p (fun s => set_sendBuffer s (Some sb));
           _ ← ae_create (ss_fd s) AE_WRITABLE SWrite p;
           mret tt
         else mret tt);
    if (faultError : bool) then _ ← handleError p; mret (-1) else mret 0.

(** ** The handlers *)

(** With no identifier left the new descriptor is not closed. *)
Definition onAccept (p : nat) (a : tcp_accept) : ST genTcp unit :=
  match a with
  | TcpAcceptError => mret tt
  | TcpAccepted cfd ip port =>
    id ← getReserveId;
    if id <? 0 then mret tt
    else
      _ ← sess p;
      q ← newSession id INVALID_FD;
      s ← sess p;
      _ ← upd q (fun ns => Session (ss_from ns) kSessionSocketType (ss_cb s) (ss_protoType s) (ss_id s)
            (ss_id ns) cfd port ip (ss_state ns) (ss_readBuffer ns) (ss_sendBuffer ns) (ss_ud ns));
      ns ← sess q;
      zSendx (ZSend 0 (ss_from s) (ss_id s) (sock_type MSG_TYPE_SOCK_ACCEPT) None 0 (ss_id ns))
  end.

(** [err] is what [getsockopt(SO_ERROR)] yields, [None] its own failure. *)
Definition onConnecting (p : nat) (fd : Z) (err : option Z) : ST genTcp unit :=
  _ ← sess p;
  _ ← ae_delete fd AE_WRITABLE;
  if bool_decide (err = Some 0) then _ ← sessionBindfd p fd; mret tt
  else
    _ ← upd p (fun s => set_fd s fd); sessionSetState p kDisConnecting.
End Session.
Arguments genTcp : clear implicits.
