(* ===== verification/GenTcp.v ===== *)
(** * gen_tcp.c: requests to the sessions, and the dispatch of the event loop

    Services post requests from their threads; the event-loop thread takes them
    off its queue and runs [handleEvent].  [emPush] of event_msgqueue.c is
    represented by whether it accepted the request, [contextNewsession] by the
    identifier it gave. *)
From S2P Require Import Prelude Bits Define Buffer Proto Protocol Ae Socket Session.

Inductive socketRequestE :=
  | kListen (addr : list Z) (port protoType backlog : Z)
  | kStart (id : Z)
  | kConnect (addr : list Z) (port protoType : Z)
  | kSend (sz : Z) (data : option (list Z)) (ids : list Z)
  | kClose (id : Z)
  | kExit.

(** [struct socketRequest]; the tag and the member of the union are one value. *)
Record socketRequest := SocketRequest {
  rq_from : Z;
  rq_sessionid : Z;
  rq_id : Z;
  rq_body : socketRequestE;
}.

(** What the system answers while one request is handled: the descriptor of
    [anetTcpServer] or [anetTcpNonBlockConnect] ([-1] for [ANET_ERR]), whether
    [errno] is [EINPROGRESS], and the [write] of each session. *)
Record sys_answers := SysAnswers {
  sy_fd : Z;
  sy_inprogress : bool;
  sy_write : nat -> write_result;
}.

(** What it answers to the handler of a ready descriptor. *)
Record ready := Ready {
  rd_accept : tcp_accept;
  rd_read : read_result;
  rd_sends : nat -> send_result;
  rd_error : option Z;
}.

Section GenTcp.
  Context {K : Type} `{AeApi K}.
  Variable undef : Z.
  Variable now : Z * Z.
  (** whether [logInfo] formats its arguments *)
  Variable logging : bool.

(** ** The loop's side *)

(** [snprintf(session->ip, IPADDR_LEN, "%s", addr)] *)
Definition ip_of (addr : list Z) : list Z := take (Z.to_nat (IPADDR_LEN - 1)) addr ++ [0].

Definition handleListen (r : socketRequest) (addr : list Z) (port protoType fd : Z) : ST (genTcp K) unit :=
  if fd =? -1 then mret tt
  else
    p ← newSession undef now (rq_id r) INVALID_FD;
    upd p (fun s => Session (ss_from s) kSessionAcceptType (Some tcpServerCallback) protoType (ss_destId s)
      (ss_id s) fd port (ip_of addr) (ss_state s) (ss_readBuffer s) (ss_sendBuffer s) (ss_ud s)).

Definition handleStart (r : socketRequest) (id fd : Z) (inprogress : bool) : ST (genTcp K) unit :=
  o ← getSession id;
  match o with
  | None => mret tt
  | Some p =>
    s ← sess p;
    _ ← st_assert (negb (bool_decide (ss_type s = kSessionTypeNONE)));
    _ ← upd p (fun s => set_from s (rq_from r));
    match ss_type s with
    | kSessionTypeNONE => mret tt
    | kSessionAcceptType => sessionAccept p (ss_fd s)
    | kSessionSocketType => _ ← sessionStart now p; mret tt
    | kSessionConnectType => _ ← sessionConnect now p fd inprogress; mret tt
    end
  end.

(** What the request's block holds from [u.connectRequest.addr] on: the name in
    32 bytes and the other 16 bytes of the union. *)
Definition connect_block (addr : list Z) : list Z :=
  take 32 (addr ++ [0] ++ replicate 32 undef) ++ replicate 16 undef.

Definition handleConnect (r : socketRequest) (addr : list Z) (port protoType : Z) : ST (genTcp K) unit :=
  p ← newSession undef now (rq_id r) INVALID_FD;
  ip ← st_lift (acopy_out (connect_block addr) 0 IPADDR_LEN);
  _ ← upd p (fun s => Session (rq_from r) kSessionConnectType (Some tcpClientCallback) protoType (ss_id s)
        (ss_id s) (ss_fd s) port ip (ss_state s) (ss_readBuffer s) (ss_sendBuffer s) (ss_ud s));
  n ← st_get;
  let c := gt_next n in
  _ ← st_modify (fun n => with_next (with_clients n (<[c := TcpClient 0 0]> (gt_clients n))) (S c));
  upd p (fun s => sessionSetud s (Some c)).

(** The [for] loop over the ids; [k] counts them. *)
Fixpoint send_each (data : option (list Z)) (sz : Z) (w : nat -> write_result) (k : nat) (ids : list Z)
    : ST (genTcp K) unit :=
  match ids with
  | [] => mret tt
  | id :: ids =>
    o ← getSession id;
    _ ← (match o with
         | Some p => _ ← sessionWrite undef now p data sz (w k); mret tt
         | None => mret tt
         end);
    send_each data sz w (S k) ids
  end.

Definition handleSend (data : option (list Z)) (sz : Z) (ids : list Z) (w : nat -> write_result)
    : ST (genTcp K) unit := send_each data sz w 0 ids.

(** For an unknown session the number [id] is printed with [%s]: when the log
    formats the line it reads a string at the address [id]. *)
Definition handleClose (id : Z) : ST (genTcp K) unit :=
  o ← getSession id;
  match o with
  | Some p => _ ← sessionForceClose now p; mret tt
  | None => if logging then st_fault OutOfBounds else mret tt
  end.

Definition handleEvent (r : socketRequest) (a : sys_answers) : ST (genTcp K) unit :=
  match rq_body r with
  | kListen addr port protoType _ => handleListen r addr port protoType (sy_fd a)
  | kStart id => handleStart r id (sy_fd a) (sy_inprogress a)
  | kConnect addr port protoType => handleConnect r addr port protoType
  | kSend sz data ids => handleSend data sz ids (sy_write a)
  | kClose id => handleClose id
  | kExit => mret tt
  end.

(** The handlers as the event loop calls them; the queue's own handler runs
    [handleEvent] on what it pops. *)
Definition call (a : ready) (p : sproc) (fd : Z) (d : option nat) (mask : Z) (n : genTcp K)
    : outcome (genTcp K) :=
  match p, d with
  | SAccept, Some d => r ← onAccept undef now d (rd_accept a) n; mret r.2
  | SRead, Some d => r ← onRead undef now d (rd_read a) n; mret r.2
  | SWrite, Some d => r ← onWrite now d (rd_sends a) n; mret r.2
  | SConnecting, Some d => r ← onConnecting now d fd (rd_error a) n; mret r.2
  | SMsgqueue, _ => mret n
  | _, _ => Fault NullDeref
  end.

(** One ready descriptor, as the event loop serves it. *)
Definition fire (a : ready) (fd mask : Z) (n : genTcp K) : outcome (genTcp K) :=
  process_one (gt_loop (K := K)) (call a) fd mask n.

(** ** The services' side *)

Definition addr31 (addr : list Z) : list Z := take 30 addr.

Definition post (pushed : bool) (ret : Z) (r : socketRequest) : ST (genTcp K) (Z * option socketRequest) :=
  mret (if pushed then (ret, Some r) else (-1, None)).

Definition SOMAXCONN : Z := 4096.

Definition genTcpListen (pushed : bool) (ctx protoType : Z) (addr : list Z) (port : Z)
    : ST (genTcp K) (Z * option socketRequest) :=
  _ ← st_assert (zlen addr <=? NAME_MAX_LEN);
  id ← getReserveId;
  post pushed id (SocketRequest ctx undef id (kListen (addr31 addr) port protoType SOMAXCONN)).

Definition genTcpStartSocket (pushed : bool) (ctx session id : Z) : ST (genTcp K) (Z * option socketRequest) :=
  post pushed session (SocketRequest ctx session undef (kStart id)).

Definition genTcpConnect (pushed : bool) (ctx protoType : Z) (addr : list Z) (port : Z)
    : ST (genTcp K) (Z * option socketRequest) :=
  _ ← st_assert (zlen addr <=? NAME_MAX_LEN);
  id ← getReserveId;
  post pushed id (SocketRequest ctx undef id (kConnect (addr31 addr) port protoType)).

(** [ids] is [None] for a null pointer. *)
Definition genTcpSend (pushed : bool) (ctx session : Z) (ids : option (list Z)) (data : option (list Z)) (sz : Z)
    : ST (genTcp K) (Z * option socketRequest) :=
  post pushed session (SocketRequest ctx session undef (kSend sz data (default [] ids))).

Definition genTcpCloseSocket (pushed : bool) (ctx session id : Z) : ST (genTcp K) (Z * option socketRequest) :=
  post pushed session (SocketRequest ctx session undef (kClose id)).

Definition genTcpStop (pushed : bool) : option socketRequest :=
  if pushed then Some (SocketRequest undef undef undef kExit) else None.

(** ** Set-up and tear-down *)

Definition genTcpInit (setsize : Z) (el : aeEventLoop sproc nat K) : genTcp K :=
  let setsize := nextpow2 (u32 setsize) in
  GenTcp 1 setsize (replicate (Z.to_nat setsize) None) ∅ ∅ 0 el [] [] [].

Fixpoint uninit_from (k i : nat) : ST (genTcp K) unit :=
  match k with
  | O => mret tt
  | S k =>
    o ← slot i;
    _ ← (match o with
         | Some p => _ ← sessionRelease now p; set_slot i None
         | None => mret tt
         end);
    uninit_from k (S i)
  end.

Definition genTcpUninit : ST (genTcp K) unit := n ← st_get; uninit_from (Z.to_nat (gt_setsize n)) 0.
End GenTcp.
