(* ===== verification/SessionProps.v ===== *)
(** * Properties of session.c and gen_tcp.c

    The invariant of the table, the heap of sessions and the event loop, that
    every step of the loop thread keeps it, and the failures it does not
    exclude. *)
From S2P Require Import Prelude Wp Bits Define Buffer Proto Protocol Ae AeEpoll Socket NetProps Session GenTcp.

(** ** Buffers *)

(** What can go wrong with a buffer: [bufferExpand] doubles once whatever is
    needed, and cannot double beyond 2^31. *)
Definition buffer_fault (f : fault) : Prop := f = OutOfBounds \/ f = OutOfMemory.

Definition sbuf_ok (b : buffer) : Prop := bwf b /\ initSize b = READ_BUFFER_INITIAL.
Definition obuf_ok (o : option buffer) : Prop := match o with None => True | Some b => sbuf_ok b end.

Lemma fresh_buffer_ok undef o : obuf_ok o -> sbuf_ok (default (bufferCreate undef READ_BUFFER_INITIAL) o).
Proof.
  destruct o as [b |]; [done |]. intros _. split; [| done].
  apply bufferCreate_wf. unfold READ_BUFFER_INITIAL. lia.
Qed.

Lemma bufferExpand_large undef buf : bwf buf -> 1073741824 <= size buf -> bufferExpand undef buf = Fault OutOfMemory.
Proof.
  intros W Hs. pose proof (bwf_size _ W). unfold bufferExpand. rewrite Z.shiftl_mul_pow2 by lia.
  change (2 ^ 1) with 2. rewrite u32_small by lia.
  replace (i32 (size buf * 2)) with (size buf * 2 - 4294967296); [by destruct (Z.ltb_spec (size buf * 2 - 4294967296) 0); [| lia] |].
  unfold i32. replace (size buf * 2 + 2147483648) with (size buf * 2 - 2147483648 + 1 * 4294967296) by lia.
  rewrite Z.mod_add, Z.mod_small by lia. lia.
Qed.

Lemma bufferMakeSpace_init undef buf n b : bufferMakeSpace undef buf n = Ok b -> initSize b = initSize buf.
Proof.
  unfold bufferMakeSpace, bufferExpand. destruct (data buf) as [d |]; [| by intros [= <-]].
  destruct (_ <? _).
  - destruct (_ <? 0); [done | by intros [= <-]].
  - intros E. inv_ok. done.
Qed.

Lemma bufferAppend_init undef buf bytes b : bufferAppend undef buf bytes = Ok b -> initSize b = initSize buf.
Proof.
  unfold bufferAppend. intros E. apply bind_Ok_inv in E as (b1 & E1 & E2).
  assert (initSize b1 = initSize buf) as <-.
  { destruct (_ >? _); [by apply bufferMakeSpace_init in E1 | by injection E1 as <-]. }
  inv_ok. done.
Qed.

Lemma bufferAppend_large undef buf bytes :
  bwf buf -> 1073741824 <= size buf -> zlen bytes < 4294967296 ->
  bufferAppend undef buf bytes = Fault OutOfMemory \/
  exists b, bufferAppend undef buf bytes = Ok b /\ bwf b.
Proof.
  intros W Hs Hb. destruct (bwf_rep _ W) as (pre & post & Rp). pose proof Rp as [D R Wr S B].
  pose proof (zlen_nonneg pre). pose proof (zlen_nonneg post). pose proof (zlen_nonneg (readable buf)).
  unfold bufferAppend. rewrite (bufferWriteableBytes_rep _ _ _ _ Rp), Z.gtb_ltb.
  destruct (Z.ltb_spec (zlen post) (zlen bytes)) as [Hgt | Hle].
  - destruct (Z.lt_ge_cases (zlen post + zlen pre) (zlen bytes)) as [Hx | Hx].
    + left. unfold bufferMakeSpace, bufferPrependableBytes, kCheapPrepend. rewrite D.
      rewrite (bufferWriteableBytes_rep _ _ _ _ Rp), R, Z.add_0_r, !u32_small by lia.
      destruct (Z.ltb_spec (zlen post + zlen pre) (zlen bytes)); [| lia]. by rewrite bufferExpand_large.
    + right. destruct (bufferMakeSpace_spec undef _ _ _ _ (zlen bytes) Rp ltac:(lia) ltac:(lia))
        as (b & pre' & post' & -> & Rp' & Hc). rewrite bind_Ok.
      destruct (store_fits _ _ _ _ bytes Rp') as (b2 & E2 & R2).
      { destruct Hc as [(_ & Hc & _) | (? & _)]; lia. }
      exists b2. split; [exact E2 | by destruct (rep_bwf _ _ _ _ R2)].
  - right. destruct (store_fits _ _ _ _ bytes Rp Hle) as (b2 & E2 & R2).
    exists b2. split; [exact E2 | by destruct (rep_bwf _ _ _ _ R2)].
Qed.

(** Appending never leaves a broken buffer behind. *)
Lemma bufferAppend_safe undef buf bytes :
  sbuf_ok buf -> zlen bytes < 4294967296 ->
  match bufferAppend undef buf bytes with Ok b => sbuf_ok b | Fault f => buffer_fault f end.
Proof.
  intros [W Hi] Hb. pose proof (bufferAppend_init undef buf bytes) as Hinit.
  destruct (Z.lt_ge_cases (size buf) 1073741824) as [Hs | Hs].
  - pose proof (bufferAppend_cases undef buf bytes W Hs Hb) as C.
    destruct (zlen bytes <=? 2 * size buf - writeIndex buf); [| rewrite C; by left].
    destruct C as (b' & E & W' & _). rewrite E in Hinit |- *. split; [done |]. by rewrite (Hinit _ eq_refl).
  - destruct (bufferAppend_large undef buf bytes W Hs Hb) as [-> | (b' & E & W')]; [by right |].
    rewrite E in Hinit |- *. split; [done |]. by rewrite (Hinit _ eq_refl).
Qed.

Lemma received_safe undef b bs :
  sbuf_ok b -> zlen bs < 2147483648 ->
  match received undef b bs with Ok b' => sbuf_ok b' | Fault f => buffer_fault f end.
Proof.
  intros [W Hi] Hb. destruct (bwf_rep _ W) as (pre & post & Rp). pose proof Rp as [D R Wi S B].
  pose proof (zlen_nonneg pre). pose proof (zlen_nonneg (readable b)). pose proof (zlen_nonneg post).
  pose proof (zlen_nonneg bs). unfold received. rewrite (bufferWriteableBytes_rep _ _ _ _ Rp).
  set (first := take (Z.to_nat (zlen post)) bs).
  assert (Lf : zlen first = Z.min (zlen post) (zlen bs)) by (unfold first, zlen; rewrite length_take; lia).
  destruct (store_fits b pre (readable b) post first Rp ltac:(lia)) as (b1 & E1 & R1).
  rewrite D in E1 |- *. c_simpl. destruct (acopy_in _ _ first) as [d' | f]; [| done].
  rewrite !bind_Ok in E1 |- *. injection E1 as <-. apply rep_bwf in R1 as [W1 _].
  destruct (Z.leb_spec (zlen bs) (zlen post)) as [Hle | Hgt].
  - unfold bufferMoveWriteIndex. cbn [writeIndex readIndex initSize size data].
    rewrite Z.min_r in Lf by lia. by rewrite Lf in W1.
  - rewrite Lf, Z.min_l, u32_small in W1 by lia. replace (writeIndex b + zlen post) with (size b) in W1 by lia.
    apply bufferAppend_safe; [by split |]. unfold zlen in *. rewrite length_drop. lia.
Qed.

(** Cutting messages keeps the buffer, and only asks for messages to be sent. *)
Definition is_message (e : sevent) : Prop := match e with EvProtoMessage _ _ => True | _ => False end.

Lemma headMessageLoop_init {E} undef (emit : list Z -> Z -> list E) b es bad b' :
  headMessageLoop undef emit b = Ok (es, bad, b') -> initSize b' = initSize b.
Proof.
  unfold headMessageLoop. generalize (Datatypes.S (Z.to_nat (bufferReadableBytes b))) as fuel. intros fuel.
  revert b es bad b'. induction fuel as [| fuel IH]; intros b es bad b'; [done |]. cbn [headLoop].
  destruct (_ >=? _); [| by intros [= <- <- <-]].
  destruct (bufferPeekInt32 b) as [x | f]; [| done]. rewrite bind_Ok.
  destruct (_ || _); [by intros [= <- <- <-] |].
  destruct (_ >=? _); [| by intros [= <- <- <-]].
  destruct (bufferPeek b _ _) as [bs | f]; [| done]. rewrite bind_Ok.
  destruct (acopy_in _ _ _) as [body | f]; [| done]. rewrite bind_Ok.
  destruct (headLoop _ _ _ _) as [[[es' bad'] b1] | f] eqn:El; [| done].
  intros [= <- <- <-]. rewrite (IH _ _ _ _ El). unfold bufferMoveReadIndex. by destruct (_ <? _).
Qed.

Lemma defaultMessageCallback_ok undef pt cb b :
  sbuf_ok b -> 0 < pt < 3 ->
  exists es bad b', defaultMessageCallback undef pt (Some (members cb)) b = Ok (es, bad, b') /\
    sbuf_ok b' /\ Forall is_message es.
Proof.
  intros [W Hi] Hp. unfold defaultMessageCallback.
  replace ((pt >? 0) && (pt <? 3)) with true by (symmetry; rewrite Z.gtb_ltb; apply andb_true_intro; lia).
  cbn [c_assert]. rewrite bind_Ok. destruct (pt =? HEAD_PROTO_TYPE).
  - unfold headMessageCallback. cbn [members onProtoMessage].
    destruct (headMessageLoop_refines undef (fun body len => [EvProtoMessage (Some body) len]) b W)
      as (b' & E & W' & _). rewrite E. eexists _, _, _. split; [reflexivity |].
    split; [split; [done | by rewrite (headMessageLoop_init _ _ _ _ _ _ E)] |].
    rewrite deliver_singleton. apply Forall_fmap, Forall_true. done.
  - unfold httpMessageCallback, ON_PROTO_MESSAGE. cbn [members onProtoMessage]. rewrite bind_Ok.
    eexists _, _, _. split; [reflexivity |]. split; [| by repeat constructor].
    split; [| done]. replace (bufferReset undef b) with (bufferCreate undef READ_BUFFER_INITIAL)
      by (unfold bufferReset; by rewrite Hi).
    apply bufferCreate_wf. unfold READ_BUFFER_INITIAL. lia.
Qed.

(** ** The invariant *)

(** A session a server made: its state fits its type and its buffers are sound. *)
Record sess_ok (s : session) : Prop := {
  so_cb : ss_cb s = Some tcpServerCallback;
  so_proto : 0 < ss_protoType s < 3;
  so_fd : 0 <= ss_fd s;
  so_state : ss_type s = kSessionAcceptType /\ ss_state s = kDisconnected \/
    ss_type s = kSessionSocketType /\ (ss_state s = kDisconnected \/ ss_state s = kConnected);
  so_read : obuf_ok (ss_readBuffer s);
  so_send : obuf_ok (ss_sendBuffer s);
}.

(** The handlers registered for a session are the ones its state allows. *)
Definition ev_ok (s : session) (fe : aeFileEvent sproc nat) : Prop :=
  (ss_type s = kSessionAcceptType /\ fmask fe = AE_READABLE /\ rfileProc fe = Some SAccept) \/
  (ss_state s = kConnected /\ (has (fmask fe) AE_READABLE = true -> rfileProc fe = Some SRead) /\
   (has (fmask fe) AE_WRITABLE = true -> wfileProc fe = Some SWrite /\ is_Some (ss_sendBuffer s))).

(** A descriptor with a mask is the request queue's or a live session's. *)
Definition event_ok (h : gmap nat session) (fd : nat) (fe : aeFileEvent sproc nat) : Prop :=
  fmask fe = 0 \/
  (rfileProc fe = Some SMsgqueue /\ fmask fe = AE_READABLE /\
   forall p s, h !! p = Some s -> ss_fd s <> Z.of_nat fd) \/
  (exists p s, clientData fe = Some p /\ h !! p = Some s /\ ss_fd s = Z.of_nat fd /\ ev_ok s fe).

Section invariant.
  Context {K : Type} `{AeApiLaws K}.
  Implicit Types n : genTcp K.

Definition idx n (id : Z) : nat := Z.to_nat (id mod gt_setsize n).

(** The table and the heap name the same sessions, descriptors are not shared, and
    every registered event belongs to a live session. *)
Record gen_ok n : Prop := {
  go_loop : ae_ok (gt_loop n);
  go_pow2 : is_pow2 (gt_setsize n);
  go_size : gt_setsize n <= 2147483648;
  go_len : zlen (gt_sessions n) = gt_setsize n;
  go_heap : forall p s, gt_heap n !! p = Some s -> gt_sessions n !! idx n (ss_id s) = Some (Some p) /\ sess_ok s;
  go_slot : forall i p, gt_sessions n !! i = Some (Some p) -> exists s, gt_heap n !! p = Some s /\ idx n (ss_id s) = i;
  go_fd : forall p q s t, gt_heap n !! p = Some s -> gt_heap n !! q = Some t -> ss_fd s = ss_fd t -> p = q;
  go_events : forall fd fe, events (gt_loop n) !! fd = Some fe -> event_ok (gt_heap n) fd fe;
  go_next : forall p, is_Some (gt_heap n !! p) -> (p < gt_next n)%nat;
}.

(** What is left of it when sessions are released without being closed. *)
Record slots_ok n : Prop := {
  to_loop : ae_ok (gt_loop n);
  to_pow2 : is_pow2 (gt_setsize n);
  to_len : zlen (gt_sessions n) = gt_setsize n;
  to_heap : forall p s, gt_heap n !! p = Some s -> gt_sessions n !! idx n (ss_id s) = Some (Some p) /\ sess_ok s;
  to_slot : forall i p, gt_sessions n !! i = Some (Some p) -> exists s, gt_heap n !! p = Some s /\ idx n (ss_id s) = i;
}.

Lemma gen_table n : gen_ok n -> slots_ok n.
Proof. by intros []. Qed.

Lemma gen_ok_frame n n' :
  gt_setsize n' = gt_setsize n -> gt_sessions n' = gt_sessions n -> gt_heap n' = gt_heap n ->
  gt_next n' = gt_next n -> gt_loop n' = gt_loop n -> gen_ok n -> gen_ok n'.
Proof. intros E1 E2 E3 E4 E5 []. split; unfold idx; rewrite ?E1, ?E2, ?E3, ?E4, ?E5; try done. Qed.

(** Changing a session in a way its events allow. *)
Lemma gen_ok_upd n p s s' :
  gen_ok n -> gt_heap n !! p = Some s -> sess_ok s' -> ss_id s' = ss_id s -> ss_fd s' = ss_fd s ->
  (forall fe, ev_ok s fe -> ev_ok s' fe) -> gen_ok (with_heap n (<[p := s']> (gt_heap n))).
Proof.
  intros I E Hs' Hid Hfd Hev. destruct I as [I1 I2 I3 I4 I5 I6 I7 I8 I9].
  assert (Hl : forall q t, <[p := s']> (gt_heap n) !! q = Some t ->
    exists t0, gt_heap n !! q = Some t0 /\ ss_id t = ss_id t0 /\ ss_fd t = ss_fd t0 /\ (t = t0 \/ q = p /\ t = s')).
  { intros q t Hq. apply lookup_insert_Some in Hq as [[<- <-] | [Hn Hq]]; [exists s | exists t]; split_and!; auto. }
  split; cbn [with_heap gt_loop gt_setsize gt_sessions gt_heap gt_next]; unfold idx; try done.
  - intros q t (t0 & Eq & -> & _ & Ht)%Hl. destruct (I5 q t0 Eq) as [? ?].
    split; [done |]. destruct Ht as [-> | [_ ->]]; done.
  - intros i q Hi. destruct (I6 i q Hi) as (t & Et & Eidx). destruct (decide (q = p)) as [-> | Hn].
    + exists s'. rewrite lookup_insert_eq, Hid. split; [done |]. by simplify_eq.
    + exists t. by rewrite lookup_insert_ne.
  - intros q1 q2 t1 t2 (u1 & E1 & _ & -> & _)%Hl (u2 & E2 & _ & -> & _)%Hl. by apply I7.
  - intros fd fe Hfe. destruct (I8 fd fe Hfe) as [Hz | [(Hm & Hr & Hx) | (q & t & Hd & Hq & Ht & Ht2)]].
    + by left.
    + right. left. split; [done |]. split; [done |]. intros q t (t0 & Eq & _ & -> & _)%Hl. by apply (Hx q).
    + right. right. exists q. destruct (decide (q = p)) as [-> | Hn].
      * exists s'. simplify_eq. rewrite lookup_insert_eq, Hfd. auto.
      * exists t. rewrite lookup_insert_ne by done. auto.
  - intros q [t (t0 & Eq & _)%Hl]. apply I9. by exists t0.
Qed.

(** Changing the entry of a session's descriptor. *)
Lemma gen_ok_entry n p s el' fe' :
  gen_ok n -> gt_heap n !! p = Some s -> ae_ok el' ->
  events el' = <[Z.to_nat (ss_fd s) := fe']> (events (gt_loop n)) ->
  (fmask fe' = 0 \/ clientData fe' = Some p /\ ev_ok s fe') -> gen_ok (with_loop n el').
Proof.
  intros I E Hok Hev Hfe'. pose proof (so_fd _ (proj2 (go_heap _ I _ _ E))) as Hfd.
  destruct I as [I1 I2 I3 I4 I5 I6 I7 I8 I9].
  split; cbn [with_loop gt_loop gt_setsize gt_sessions gt_heap gt_next]; try done.
  intros fd fe. rewrite Hev. intros [(<- & <- & _) | [Hn Hfe]]%list_lookup_insert_Some; [| by apply I8].
  destruct Hfe' as [Hz | [Hd Ho]]; [by left |]. right. right. exists p, s.
  rewrite Z2Nat.id by done. done.
Qed.

Lemma old_entry n p s fe :
  gen_ok n -> gt_heap n !! p = Some s -> events (gt_loop n) !! Z.to_nat (ss_fd s) = Some fe ->
  fmask fe = 0 \/ clientData fe = Some p /\ ev_ok s fe.
Proof.
  intros I E Hfe. pose proof (so_fd _ (proj2 (go_heap _ I _ _ E))) as Hfd.
  destruct (go_events _ I _ _ Hfe) as [Hz | [(_ & _ & Hx) | (q & t & Hd & Hq & Ht & Ho)]]; [by left | |].
  - exfalso. apply (Hx p s E). by rewrite Z2Nat.id.
  - right. rewrite Z2Nat.id in Ht by done. assert (q = p) as -> by (by eapply go_fd).
    rewrite E in Hq. injection Hq as <-. auto.
Qed.

(** Registering a handler the session's state allows. *)
Lemma ae_create_ok F n p s mask pr (Q : Z -> genTcp K -> Prop) :
  gen_ok n -> gt_heap n !! p = Some s -> api_masks mask ->
  (forall fe, events (gt_loop n) !! Z.to_nat (ss_fd s) = Some fe ->
    fmask fe = 0 \/ ev_ok s fe -> 0 <= fmask fe < 4 ->
    ev_ok s (FileEvent (Z.lor (fmask fe) mask) (if has mask AE_READABLE then Some pr else rfileProc fe)
      (if has mask AE_WRITABLE then Some pr else wfileProc fe) (Some p))) ->
  (forall r el', gen_ok (with_loop n el') -> Q r (with_loop n el')) ->
  wp F Q (ae_create (ss_fd s) mask pr p) n.
Proof.
  intros I E Hm Hev HQ. pose proof (so_fd _ (proj2 (go_heap _ I _ _ E))) as Hfd.
  destruct (aeCreateFileEvent_cases (gt_loop n) (ss_fd s) mask pr (Some p) (go_loop _ I) Hfd Hm)
    as (r & el' & Er & Hok & _).
  unfold wp, ae_create. rewrite Er, bind_Ok. cbn [fst snd]. apply HQ.
  destruct (aeCreateFileEvent_entry _ _ _ _ _ _ _ Hfd Er) as [Ev | (fe & Hfe & Ev)].
  - destruct I. split; cbn [with_loop gt_loop gt_setsize gt_sessions gt_heap gt_next]; try done. by rewrite Ev.
  - eapply gen_ok_entry; [done | done | done | exact Ev |]. right. split; [done |].
    apply Hev; [done | | by apply (ok_mask _ (go_loop _ I) _ _ Hfe)].
    destruct (old_entry _ _ _ _ I E Hfe) as [? | [_ ?]]; auto.
Qed.

(** ** Closing *)

Definition close_message (s : session) : zsend :=
  ZSend 0 (ss_from s) 0 (sock_type MSG_TYPE_SOCK_CLOSE) None 0 (ss_id s).

(** The state after the session [s] at [p] has been closed. *)
Definition closed_state n (p : nat) (s : session) (el : aeEventLoop sproc nat K) : genTcp K :=
  GenTcp (gt_id n) (gt_setsize n) (<[idx n (ss_id s) := None]> (gt_sessions n)) (delete p (gt_heap n))
    (gt_clients n) (gt_next n) el (gt_out n ++ [close_message s]) (gt_closed n ++ [ss_fd s]) (gt_wire n).

(** Both deletions of a close, on an entry with any mask. *)
Lemma delete_both (el : aeEventLoop sproc nat K) fd :
  ae_ok el -> 0 <= fd ->
  exists el1 el2, aeDeleteFileEvent el fd AE_READABLE = Ok el1 /\ aeDeleteFileEvent el1 fd AE_WRITABLE = Ok el2 /\
    ae_ok el2 /\ (forall i fe, events el2 !! i = Some fe ->
      i = Z.to_nat fd /\ fmask fe = 0 \/ i <> Z.to_nat fd /\ events el !! i = Some fe).
Proof.
  intros I Hfd. destruct (aeDeleteFileEvent_cases el fd AE_READABLE I Hfd) as (el1 & E1 & I1 & _ & C1);
    [unfold AE_READABLE; lia |].
  destruct (aeDeleteFileEvent_cases el1 fd AE_WRITABLE I1 Hfd) as (el2 & E2 & I2 & _ & C2);
    [unfold AE_WRITABLE; lia |].
  exists el1, el2. split; [done |]. split; [done |]. split; [done |]. intros i fe Hi.
  assert (Hclear : forall m, 0 <= m < 4 -> Z.land (Z.land m (Z.lnot AE_READABLE)) (Z.lnot AE_WRITABLE) = 0)
    by (apply small_cases; done).
  assert (H1 : forall i fe, events el1 !! i = Some fe ->
    i = Z.to_nat fd /\ Z.land (fmask fe) (Z.lnot AE_WRITABLE) = 0 \/ i <> Z.to_nat fd /\ events el !! i = Some fe).
  { intros j fe1 Hj. destruct C1 as [[Ev1 M1] | (fe0 & Hfe0 & Ev1)]; rewrite Ev1 in Hj.
    - destruct (decide (j = Z.to_nat fd)) as [-> |]; [left | by right]. split; [done |].
      unfold fd_mask in M1. rewrite Hj in M1. by rewrite M1.
    - apply list_lookup_insert_Some in Hj as [(<- & <- & _) | [? ?]]; [left | right; auto].
      split; [done |]. apply Hclear. by apply (ok_mask _ I _ _ Hfe0). }
  destruct C2 as [[Ev2 M2] | (fe0 & Hfe0 & Ev2)]; rewrite Ev2 in Hi.
  - destruct (H1 i fe Hi) as [[-> _] | ?]; [left | by right]. split; [done |].
    unfold fd_mask in M2. by rewrite Hi in M2.
  - apply list_lookup_insert_Some in Hi as [(<- & <- & _) | [Hn Hi]].
    + left. split; [done |]. destruct (H1 _ _ Hfe0) as [[_ Hz] | [? _]]; done.
    + destruct (H1 i fe Hi) as [[-> _] | ?]; [done | by right].
Qed.

Lemma gen_ok_closed n p s el :
  gen_ok n -> gt_heap n !! p = Some s -> ae_ok el ->
  (forall i fe, events el !! i = Some fe ->
    i = Z.to_nat (ss_fd s) /\ fmask fe = 0 \/ i <> Z.to_nat (ss_fd s) /\ events (gt_loop n) !! i = Some fe) ->
  gen_ok (closed_state n p s el).
Proof.
  intros I E Hel Hev. destruct I as [I1 I2 I3 I4 I5 I6 I7 I8 I9].
  assert (Hl : forall q t, delete p (gt_heap n) !! q = Some t -> q <> p /\ gt_heap n !! q = Some t).
  { intros q t [? ?]%lookup_delete_Some. auto. }
  pose proof (so_fd _ (proj2 (I5 _ _ E))) as Hfd.
  split; cbn [closed_state gt_loop gt_setsize gt_sessions gt_heap gt_next]; unfold idx; cbn [gt_setsize]; try done.
  - by rewrite zlen_insert.
  - intros q t [Hn Eq]%Hl. destruct (I5 q t Eq) as [Hs ?]. split; [| done].
    rewrite list_lookup_insert_ne; [exact Hs |]. unfold idx in *. intros Ei.
    destruct (I5 p s E) as [Hs' _]. unfold idx in *. cbn [closed_state gt_setsize] in Ei; congruence.
  - intros i q [(_ & Hx & _) | [Hn Hi]]%list_lookup_insert_Some; [done |].
    destruct (I6 i q Hi) as (t & Et & Ei). exists t. split; [| done].
    apply lookup_delete_Some. split; [| done]. intros <-. unfold idx in *. simplify_eq.
  - intros q1 q2 t1 t2 [_ E1]%Hl [_ E2]%Hl. by apply I7.
  - intros fd fe [[-> Hz] | [Hn Hfe]]%Hev; [by left |].
    destruct (I8 fd fe Hfe) as [Hz | [(Hm & Hr & Hx) | (q & t & Hd & Hq & Ht & Ho)]]; [by left | right; left | right; right].
    + split; [done |]. split; [done |]. intros q t [_ Hq]%Hl. by apply (Hx q).
    + exists q, t. split; [done |]. split; [| done]. apply lookup_delete_Some. split; [| done].
      intros <-. simplify_eq. lia.
  - intros q [t [_ Hq]%Hl]. apply I9. by exists t.
Qed.

Lemma getIndex_ok n id : is_pow2 (gt_setsize n) -> getIndex id n = Ok (idx n id, n).
Proof. intros Hp. unfold getIndex, idx. st_run. by rewrite mask_mod. Qed.

Lemma idx_lt n id : gen_ok n -> (idx n id < length (gt_sessions n))%nat.
Proof.
  intros I. pose proof (Z.mod_pos_bound id _ (is_pow2_pos _ (go_pow2 _ I))).
  pose proof (go_len _ I). unfold zlen, idx in *. lia.
Qed.

Lemma sess_Ok n p s : gt_heap n !! p = Some s -> sess p n = Ok (s, n).
Proof. unfold sess. by intros ->. Qed.

Lemma supd_Ok n p f s : gt_heap n !! p = Some s -> upd p f n = Ok (tt, with_heap n (<[p := f s]> (gt_heap n))).
Proof. unfold upd. by intros ->. Qed.

Lemma getSession_Ok n id o :
  is_pow2 (gt_setsize n) -> gt_sessions n !! idx n id = Some o -> getSession id n = Ok (o, n).
Proof.
  intros Hp E. unfold getSession. rewrite (st_bind_Ok _ _ _ _ _ (getIndex_ok n id Hp)).
  unfold slot. by rewrite E.
Qed.

(** Any number of levels of the recursion, from one. *)
Definition releases now (rel : nat -> ST (genTcp K) unit) : Prop :=
  forall p n, exists f, rel p n = release_fuel now (S f) p n.

(** Removing the identifier of a session that is not open frees it. *)
Lemma removeSession_own now rel n p s : releases now rel ->
  is_pow2 (gt_setsize n) -> gt_sessions n !! idx n (ss_id s) = Some (Some p) -> gt_heap n !! p = Some s ->
  is_open s = false ->
  removeSession_ rel (ss_id s) n =
    Ok (tt, with_sessions (with_heap n (delete p (gt_heap n))) (<[idx n (ss_id s) := None]> (gt_sessions n))).
Proof.
  intros Hrel Hp Hs E Ho. unfold removeSession_. rewrite (st_bind_Ok _ _ _ _ _ (getSession_Ok n _ _ Hp Hs)).
  destruct (Hrel p n) as [fuel Ef]. cbn [release_fuel] in Ef.
  erewrite st_bind_Ok; [| rewrite Ef].
  2: { rewrite (st_bind_Ok _ _ _ _ _ (sess_Ok _ _ _ E)), Ho. erewrite st_bind_Ok by reflexivity.
       rewrite (st_bind_Ok _ _ _ _ _ (sess_Ok _ _ _ E)). unfold free_sess. by rewrite E. }
  set (n1 := with_heap n _). rewrite (st_bind_Ok _ _ _ _ _ (getIndex_ok n1 (ss_id s) Hp)).
  unfold set_slot. apply lookup_lt_Some in Hs. change (idx n1 (ss_id s)) with (idx n (ss_id s)).
  destruct (decide _) as [|[]]; [done | exact Hs].
Qed.

(** A session that closes itself is freed by the removal of its identifier. *)
Lemma setState_closes now rel n p s :
  releases now rel -> slots_ok n -> gt_heap n !! p = Some s ->
  exists el, sessionSetState_ now rel p kDisConnecting n = Ok (tt, closed_state n p s el) /\
    (gen_ok n -> gen_ok (closed_state n p s el)).
Proof.
  intros Hrel I E. destruct (to_heap _ I _ _ E) as [Hs Ho]. pose proof (so_fd _ Ho) as Hfd.
  destruct (delete_both (gt_loop n) (ss_fd s) (to_loop _ I) Hfd) as (el1 & el2 & E1 & E2 & Ok2 & Hev).
  exists el2. split; [| intros ?; by apply gen_ok_closed]. set (s1 := set_state s kDisConnecting).
  set (n1 := with_heap n (<[p := s1]> (gt_heap n))).
  assert (Hp1 : gt_heap n1 !! p = Some s1) by apply lookup_insert_eq.
  unfold sessionSetState_. rewrite (st_bind_Ok _ _ _ _ _ (supd_Ok _ _ _ _ E)). fold s1. fold n1.
  rewrite (st_bind_Ok _ _ _ _ _ (sess_Ok _ _ _ Hp1)). cbn iota.
  assert (D1 : ae_delete (ss_fd s1) AE_READABLE n1 = Ok (tt, with_loop n1 el1)).
  { unfold ae_delete, n1, s1. cbn [with_heap gt_loop set_state ss_fd]. by rewrite E1. }
  rewrite (st_bind_Ok _ _ _ _ _ D1).
  assert (D2 : ae_delete (ss_fd s1) AE_WRITABLE (with_loop n1 el1) = Ok (tt, with_loop n1 el2)).
  { unfold ae_delete, s1. cbn [with_loop gt_loop set_state ss_fd]. by rewrite E2. }
  rewrite (st_bind_Ok _ _ _ _ _ D2). unfold close_fd at 1. erewrite st_bind_Ok by reflexivity.
  change (ss_cb s1) with (ss_cb s). rewrite (so_cb _ Ho). cbn [fmap option_fmap option_map].
  unfold defaultCloseCallback. cbn [members onClose app]. unfold st_lift at 1. erewrite st_bind_Ok by reflexivity.
  cbn [run_events run_event]. set (n2 := with_closed _ _).
  assert (Hp2 : gt_heap n2 !! p = Some s1) by exact Hp1.
  assert (D3 : cb_onClose now p n2 = Ok (tt, with_out n2 (gt_out n2 ++ [close_message s]))).
  { unfold cb_onClose. rewrite (st_bind_Ok _ _ _ _ _ (sess_Ok _ _ _ Hp2)). change (ss_cb s1) with (ss_cb s).
    rewrite (so_cb _ Ho). unfold server_onClose. by rewrite (st_bind_Ok _ _ _ _ _ (sess_Ok _ _ _ Hp2)). }
  rewrite (st_bind_Ok _ _ _ _ _ D3). set (n3 := with_out _ _).
  erewrite st_bind_Ok by (apply (removeSession_own now rel n3 p s1); [exact Hrel | apply I | exact Hs | exact Hp1 | done]).
  unfold mret, st_ret, n3, n2, n1, closed_state. cbn. by rewrite delete_insert_eq.
Qed.

Lemma sessionRelease_releases now : releases now (sessionRelease now).
Proof. intros p n. by eexists. Qed.

Lemma handleClose_ok now n p s :
  gen_ok n -> gt_heap n !! p = Some s ->
  exists el, Session.handleClose now p n = Ok (tt, closed_state n p s el) /\ gen_ok (closed_state n p s el).
Proof.
  intros I E. destruct (setState_closes now _ n p s (sessionRelease_releases now) (gen_table _ I) E) as (el & Ec & Ho).
  exists el. auto.
Qed.

(** Releasing an open session frees it twice: leaving its state removes it from the
    table, which releases it, and the release that was asked for goes on. *)
Lemma release_open_faults now n p s :
  slots_ok n -> gt_heap n !! p = Some s -> is_open s = true ->
  sessionRelease now p n = Fault UseAfterFree.
Proof.
  intros I E Hc. unfold sessionRelease. erewrite st_bind_Ok by reflexivity. cbn [release_fuel].
  rewrite (st_bind_Ok _ _ _ _ _ (sess_Ok _ _ _ E)), Hc.
  assert (Hrel : releases now (release_fuel now (base.size (gt_heap n)))).
  { intros q m. destruct (base.size (gt_heap n)) as [| f] eqn:Ez; [| by exists f].
    apply map_size_empty_inv in Ez. rewrite Ez, lookup_empty in E. done. }
  destruct (setState_closes now _ n p s Hrel I E) as (el & E1 & _).
  rewrite (st_bind_Ok _ _ _ _ _ E1). apply st_bind_Fault. unfold sess. cbn. by rewrite lookup_delete_eq.
Qed.

(** ** Reading *)

Lemma gen_ok_out n v : gen_ok n -> gen_ok (with_out n v).
Proof. by apply gen_ok_frame. Qed.
Lemma gen_ok_wire n v : gen_ok n -> gen_ok (with_wire n v).
Proof. by apply gen_ok_frame. Qed.
Lemma gen_ok_id n v : gen_ok n -> gen_ok (with_id n v).
Proof. by apply gen_ok_frame. Qed.

Lemma gen_ok_read n p s b :
  gen_ok n -> gt_heap n !! p = Some s -> sbuf_ok b ->
  gen_ok (with_heap n (<[p := set_readBuffer s (Some b)]> (gt_heap n))).
Proof.
  intros I E Hb. destruct (go_heap _ I _ _ E) as [_ []]. by eapply gen_ok_upd.
Qed.

Lemma gen_ok_send n p s b :
  gen_ok n -> gt_heap n !! p = Some s -> sbuf_ok b ->
  gen_ok (with_heap n (<[p := set_sendBuffer s (Some b)]> (gt_heap n))).
Proof.
  intros I E Hb. destruct (go_heap _ I _ _ E) as [_ []]. eapply gen_ok_upd; try done.
  intros fe [? | (Hc & Hr & Hw)]; [by left | right]. split; [done |]. split; [done |].
  intros Hm. split; [by apply Hw | by eexists].
Qed.

Lemma with_heap_twice n p s1 s2 :
  with_heap (with_heap n (<[p := s1]> (gt_heap n))) (<[p := s2]> (gt_heap (with_heap n (<[p := s1]> (gt_heap n))))) =
  with_heap n (<[p := s2]> (gt_heap n)).
Proof. unfold with_heap. cbn. by rewrite insert_insert_eq. Qed.

Lemma sessionRead_safe undef n p s r :
  gen_ok n -> gt_heap n !! p = Some s ->
  (match r with ReadBytes bs => zlen bs < 2147483648 | ReadError => True end) ->
  wp buffer_fault (fun _ n' => exists b, sbuf_ok b /\ n' = with_heap n (<[p := set_readBuffer s (Some b)]> (gt_heap n)))
    (sessionRead undef p r) n.
Proof.
  intros I E Hr. destruct (go_heap _ I _ _ E) as [_ Ho].
  pose proof (fresh_buffer_ok undef _ (so_read _ Ho)) as Hb. unfold sessionRead.
  apply wp_bind. eapply wp_Ok; [by apply sess_Ok |]. set (b := default _ _) in *.
  apply wp_bind. eapply wp_Ok; [by apply supd_Ok |]. set (n1 := with_heap n _).
  assert (E1 : gt_heap n1 !! p = Some (set_readBuffer s (Some b))) by apply lookup_insert_eq.
  destruct r as [bs |]; [| apply wp_ret; by exists b].
  destruct (zlen bs =? 0); [apply wp_ret; by exists b |].
  pose proof (received_safe undef b bs Hb Hr) as Hs. unfold received in Hs.
  apply wp_bind, wp_lift. destruct (deref (data b)) as [d | f]; [| exact Hs]. rewrite bind_Ok in Hs.
  apply wp_bind, wp_lift. destruct (acopy_in d (writeIndex b) _) as [d' | f]; [| exact Hs]. rewrite bind_Ok in Hs.
  apply wp_bind. destruct (zlen bs <=? bufferWriteableBytes b).
  - apply wp_ret, wp_bind. eapply wp_Ok; [by apply supd_Ok |]. apply wp_ret. eexists. split; [exact Hs |].
    apply with_heap_twice.
  - apply wp_lift. destruct (bufferAppend _ _ _) as [b' | f]; [| exact Hs].
    apply wp_bind. eapply wp_Ok; [by apply supd_Ok |]. apply wp_ret. exists b'. split; [exact Hs |].
    apply with_heap_twice.
Qed.

Lemma run_messages now rel n p s es :
  gt_heap n !! p = Some s -> Forall is_message es ->
  exists v, run_events now rel p es n = Ok (tt, with_out n v).
Proof.
  intros E Hes. revert n E. induction Hes as [| e es He _ IH]; intros n E.
  - exists (gt_out n). by destruct n.
  - destruct e as [body len | | |]; try done. cbn [run_events run_event]. unfold onMessage.
    erewrite st_bind_Ok; [| by rewrite (st_bind_Ok _ _ _ _ _ (sess_Ok _ _ _ E))].
    apply (IH (with_out n _) E).
Qed.

Lemma handleClose_safe now n p s :
  gen_ok n -> gt_heap n !! p = Some s ->
  wp buffer_fault (fun _ n' => gen_ok n') (Session.handleClose now p) n.
Proof. intros I E. destruct (handleClose_ok now n p s I E) as (el & Ec & Ho). by eapply wp_Ok. Qed.

Lemma forceClose_safe now n p s :
  gen_ok n -> gt_heap n !! p = Some s ->
  wp buffer_fault (fun _ n' => gen_ok n') (sessionForceClose now p) n.
Proof.
  intros I E. unfold sessionForceClose. apply wp_bind. eapply wp_Ok; [by apply sess_Ok |].
  apply wp_bind. destruct (is_open s); [| done].
  eapply wp_mono; [by eapply handleClose_safe |]. done.
Qed.

Lemma onRead_safe undef now n p s r :
  gen_ok n -> gt_heap n !! p = Some s ->
  (match r with ReadBytes bs => zlen bs < 2147483648 | ReadError => True end) ->
  wp buffer_fault (fun _ n' => gen_ok n') (onRead undef now p r) n.
Proof.
  intros I E Hr. unfold onRead. apply wp_bind.
  eapply wp_mono; [by eapply sessionRead_safe |]. intros a n' (b & Hb & ->).
  pose proof (gen_ok_read _ _ _ _ I E Hb) as I1. set (n1 := with_heap n _) in *.
  set (s1 := set_readBuffer s (Some b)) in *.
  assert (E1 : gt_heap n1 !! p = Some s1) by apply lookup_insert_eq.
  destruct (a >? 0); [| destruct (a =? 0); by eapply handleClose_safe].
  destruct (go_heap _ I _ _ E) as [_ Ho].
  apply wp_bind. eapply wp_Ok; [by apply sess_Ok |]. apply wp_bind, wp_lift. cbn [s1 set_readBuffer ss_readBuffer deref].
  change (ss_cb s1) with (ss_cb s). change (ss_protoType s1) with (ss_protoType s).
  rewrite (so_cb _ Ho). cbn [fmap option_fmap option_map]. apply wp_bind, wp_lift.
  destruct (defaultMessageCallback_ok undef (ss_protoType s) tcpServerCallback b Hb (so_proto _ Ho))
    as (es & bad & b' & -> & Hb' & Hes).
  apply wp_bind. destruct (run_messages now (sessionRelease now) n1 p s1 es E1 Hes) as [v Ev].
  eapply wp_Ok; [exact Ev |]. set (n2 := with_out n1 v).
  pose proof (gen_ok_out _ v I1) as I2. fold n2 in I2.
  assert (E2 : gt_heap n2 !! p = Some s1) by exact E1.
  apply wp_bind. eapply wp_Ok; [by apply supd_Ok |].
  pose proof (gen_ok_read _ _ _ _ I2 E2 Hb') as I3. set (n3 := with_heap n2 _) in *.
  destruct bad; [| done]. apply wp_bind.
  eapply wp_mono; [eapply forceClose_safe; [exact I3 | apply lookup_insert_eq] |]. done.
Qed.

(** ** Writing *)

Lemma move_ok b k : sbuf_ok b -> 0 <= k -> sbuf_ok (bufferMoveReadIndex b k).
Proof.
  intros [W Hi] Hk. split; [by apply bufferMoveReadIndex_spec |].
  unfold bufferMoveReadIndex. by destruct (_ <? _).
Qed.

Lemma send_loop_ok fuel k sends fd b n :
  sbuf_ok b -> (length (readable b) < fuel)%nat ->
  exists b' r w, Session.send_loop fuel k sends fd b n = Ok ((b', r), with_wire n w) /\ sbuf_ok b'.
Proof.
  revert k b n. induction fuel as [| fuel IH]; intros k b n Hb Hf; [lia |]. cbn [Session.send_loop].
  assert (Hsame : forall r : option bool, exists b' r' w,
    (mret (b, r) : ST (genTcp K) _) n = Ok ((b', r'), with_wire n w) /\ sbuf_ok b').
  { intros r. exists b, r, (gt_wire n). split; [by destruct n | done]. }
  destruct (sends k) as [m | |]; [| apply Hsame | apply Hsame].
  destruct Hb as [W Hi]. cbv zeta. rewrite (readable_bytes _ W), Z.gtb_ltb.
  destruct (Z.ltb_spec 0 (Z.min (Z.of_nat m) (zlen (readable b)))) as [Hm |]; [| apply Hsame].
  set (k1 := Z.min _ _) in *. rewrite (bufferPeek_spec b 0 k1 W) by lia. unfold st_lift.
  do 2 erewrite st_bind_Ok by reflexivity.
  pose proof (move_ok b k1 (conj W Hi) ltac:(lia)) as Hb1.
  destruct (bufferMoveReadIndex_spec b k1 W ltac:(lia)) as [W1 R1].
  set (n1 := with_wire n _). destruct (_ <=? 0); [by exists (bufferMoveReadIndex b k1), (Some true), (gt_wire n1) |].
  destruct (IH (S k) _ n1 Hb1) as (b' & r & w & -> & Hb'); [| by exists b', r, w].
  rewrite R1, length_drop. unfold zlen in *. lia.
Qed.

(** Dropping the write handler, or any other. *)
Lemma ae_delete_ok F n p s mask (Q : unit -> genTcp K -> Prop) :
  gen_ok n -> gt_heap n !! p = Some s -> 0 < mask < 4 ->
  (forall fe, events (gt_loop n) !! Z.to_nat (ss_fd s) = Some fe -> 0 <= fmask fe < 4 ->
    fmask fe = 0 \/ ev_ok s fe ->
    let m := Z.land (fmask fe) (Z.lnot mask) in
    m = 0 \/ ev_ok s (FileEvent m (rfileProc fe) (wfileProc fe) (Some p))) ->
  (forall el', gen_ok (with_loop n el') -> Q tt (with_loop n el')) ->
  wp F Q (ae_delete (ss_fd s) mask) n.
Proof.
  intros I E Hm Hev HQ. pose proof (so_fd _ (proj2 (go_heap _ I _ _ E))) as Hfd.
  destruct (aeDeleteFileEvent_cases (gt_loop n) (ss_fd s) mask (go_loop _ I) Hfd Hm)
    as (el' & Er & Hok & _ & [[Ev _] | (fe & Hfe & Ev)]);
    unfold wp, ae_delete; rewrite Er, bind_Ok; apply HQ.
  - destruct I. split; cbn [with_loop gt_loop gt_setsize gt_sessions gt_heap gt_next]; try done. by rewrite Ev.
  - pose proof (ok_mask _ (go_loop _ I) _ _ Hfe) as Hm4.
    destruct (old_entry _ _ _ _ I E Hfe) as [Hz | [Hd Ho]].
    + eapply gen_ok_entry; [done | done | done | exact Ev |]. left. cbn. by rewrite Hz.
    + eapply gen_ok_entry; [done | done | done | exact Ev |].
      destruct (Hev fe Hfe Hm4 (or_intror Ho)) as [Hz | Ho']; [by left | right].
      rewrite Hd. done.
Qed.

Lemma read_bit m : 0 <= m < 4 -> Z.land m (Z.lnot AE_WRITABLE) = 0 \/
  has (Z.land m (Z.lnot AE_WRITABLE)) AE_WRITABLE = false /\
  has (Z.land m (Z.lnot AE_WRITABLE)) AE_READABLE = has m AE_READABLE.
Proof. revert m. apply small_cases; vm_compute; auto. Qed.

Lemma onWrite_safe now n p s sends :
  gen_ok n -> gt_heap n !! p = Some s -> is_Some (ss_sendBuffer s) -> ss_type s = kSessionSocketType ->
  wp buffer_fault (fun _ n' => gen_ok n') (Session.onWrite now p sends) n.
Proof.
  intros I E [b Eb] Hty. destruct (go_heap _ I _ _ E) as [_ Ho]. unfold Session.onWrite.
  apply wp_bind. eapply wp_Ok; [by apply sess_Ok |]. rewrite Eb. cbn [deref].
  apply wp_bind, wp_lift. pose proof (so_send _ Ho) as Hb. rewrite Eb in Hb. cbn in Hb.
  destruct (send_loop_ok (S (Z.to_nat (bufferReadableBytes b))) 0 sends (ss_fd s) b n Hb) as (b' & r & w & Es & Hb').
  { rewrite (readable_bytes _ (proj1 Hb)). unfold zlen. lia. }
  apply wp_bind. eapply wp_Ok; [exact Es |]. cbn [fst snd].
  set (n1 := with_wire n w). pose proof (gen_ok_wire _ w I) as I1. fold n1 in I1.
  apply wp_bind. eapply wp_Ok; [by apply (supd_Ok n1 _ _ s) |].
  pose proof (gen_ok_send n1 p s b' I1 E Hb') as I2. set (s2 := set_sendBuffer s (Some b')) in *.
  set (n2 := with_heap n1 _) in *. assert (E2 : gt_heap n2 !! p = Some s2) by apply lookup_insert_eq.
  destruct r as [[|] |]; [| done | by eapply handleClose_safe].
  apply wp_bind. eapply wp_Ok; [by apply supd_Ok |].
  destruct (bufferRetrieveAll_spec b' (proj1 Hb')) as [W3 _].
  pose proof (gen_ok_send n2 p s2 (bufferRetrieveAll b') I2 E2 (conj W3 (proj2 Hb'))) as I3.
  set (s3 := set_sendBuffer s2 _) in *. set (n3 := with_heap n2 _) in *.
  assert (E3 : gt_heap n3 !! p = Some s3) by apply lookup_insert_eq.
  apply wp_bind. change (ss_fd s) with (ss_fd s3). eapply ae_delete_ok; [exact I3 | exact E3 | unfold AE_WRITABLE; lia | |].
  - intros fe _ Hm Hev m. destruct (read_bit (fmask fe) Hm) as [? | [Hw Hr]]; [by left |].
    destruct Hev as [Hz | [(Ht & _) | (Hc & Hr1 & _)]]; [left; subst m; by rewrite Hz | |].
    + change (ss_type s3) with (ss_type s) in Ht. congruence.
    + right. right. cbn [fmask rfileProc wfileProc]. subst m. rewrite Hw, Hr. split_and!; done.
  - intros el' I4. rewrite (so_cb _ Ho). apply wp_lift. done.
Qed.

(** The block a send request points to holds its bytes. *)
Definition block_ok (data : option (list Z)) (sz : Z) : Prop :=
  sz = 0 \/ match data with Some d => 0 <= sz <= zlen d | None => False end.

Lemma bytes_at_ok data sz : block_ok data sz -> exists bs, bytes_at data sz = Ok bs.
Proof.
  unfold bytes_at. destruct data as [d |]; intros [-> | Hs]; [by eexists | | by eexists | done].
  destruct (sz =? 0); [by eexists |]. cbn [deref]. rewrite bind_Ok, acopy_out_Ok by lia. by eexists.
Qed.

Lemma write_registers F n p s (Q : Z -> genTcp K -> Prop) :
  gen_ok n -> gt_heap n !! p = Some s -> ss_state s = kConnected -> is_Some (ss_sendBuffer s) ->
  (forall r n', gen_ok n' -> gt_heap n' = gt_heap n -> Q r n') ->
  wp F Q (ae_create (ss_fd s) AE_WRITABLE SWrite p) n.
Proof.
  intros I E Hc Hb HQ. eapply ae_create_ok; [exact I | exact E | exact masks_writable | |].
  - intros fe _ Hev Hm. right. split; [done |]. cbn [fmask rfileProc wfileProc]. rewrite has_lor.
    change (has AE_WRITABLE AE_READABLE) with false. change (has AE_WRITABLE AE_WRITABLE) with true.
    rewrite orb_false_r. cbn iota. split; [| done]. intros Hr.
    destruct Hev as [Hz | [(Ht & _) | (_ & Hp & _)]]; [by rewrite Hz in Hr | | by apply Hp].
    destruct (go_heap _ I _ _ E) as [_ Ho]. destruct (so_state _ Ho) as [[_ ?] | [? _]]; congruence.
  - intros r el' Hok. by apply HQ.
Qed.

Lemma sessionWrite_safe undef now n p s data sz w :
  gen_ok n -> gt_heap n !! p = Some s -> block_ok data sz ->
  wp buffer_fault (fun _ n' => gen_ok n') (sessionWrite undef now p data sz w) n.
Proof.
  intros I E Hd. destruct (go_heap _ I _ _ E) as [_ Ho]. unfold sessionWrite.
  apply wp_bind. eapply wp_Ok; [by apply sess_Ok |].
  destruct (bool_decide _) eqn:Ec; cbn [negb]; [apply bool_decide_eq_true in Ec | done].
  destruct (bytes_at_ok _ _ Hd) as [bs Eb]. rewrite Eb. apply wp_bind, wp_lift.
  apply wp_bind. eapply (wp_mono buffer_fault _ (fun r n' => 0 <= r.1 <= zlen bs /\ gen_ok n' /\ gt_heap n' = gt_heap n)).
  - pose proof (zlen_nonneg bs). destruct (negb (hasSendBuffer s)); [| by apply wp_ret; cbn; auto with lia].
    destruct w as [m | | |]; [| by apply wp_ret; cbn; auto with lia ..].
    apply wp_bind, wp_modify. cbv beta zeta. apply wp_bind. eapply (wp_mono buffer_fault _ (fun _ n' => n' = _)).
    + destruct (_ =? 0); [| by apply wp_ret]. rewrite (so_cb _ Ho). by apply wp_lift.
    + intros _ n' ->. apply wp_ret. cbn. split; [lia |]. split; [by apply gen_ok_wire | done].
  - intros [nwrote fault] n1 (Hn & I1 & Eh). cbn [fst] in Hn.
    apply wp_bind, wp_assert; [by apply Z.leb_le; lia |].
    assert (E1 : gt_heap n1 !! p = Some s) by (by rewrite Eh).
    apply wp_bind. eapply (wp_mono buffer_fault _ (fun _ n' => gen_ok n' /\ exists s', gt_heap n' !! p = Some s')).
    + destruct (_ && _); [| apply wp_ret; eauto]. apply wp_bind, wp_lift.
      pose proof (fresh_buffer_ok undef _ (so_send _ Ho)) as Hb.
      pose proof (bufferAppend_safe undef _ (take (Z.to_nat (u32 (zlen bs - nwrote))) (drop (Z.to_nat nwrote) bs)) Hb) as Ha.
      destruct (bufferAppend _ _ _) as [b | f]; [| apply Ha].
      2: { pose proof (u32_range (zlen bs - nwrote)). unfold zlen at 1. rewrite length_take. lia. }
      apply wp_bind. eapply wp_Ok; [by apply supd_Ok |].
      assert (Hb' : sbuf_ok b).
      { apply Ha. pose proof (u32_range (zlen bs - nwrote)). unfold zlen at 1. rewrite length_take. lia. }
      pose proof (gen_ok_send n1 p s b I1 E1 Hb') as I2. set (s2 := set_sendBuffer s (Some b)) in *.
      set (n2 := with_heap n1 _) in *. assert (E2 : gt_heap n2 !! p = Some s2) by apply lookup_insert_eq.
      apply wp_bind. change (ss_fd s) with (ss_fd s2). eapply write_registers; [done | done | done | by eexists |].
      intros r n3 I3 Eh3. apply wp_ret. split; [done |]. exists s2. by rewrite Eh3.
    + intros _ n2 (I2 & s2 & E2). destruct fault; [| done].
      apply wp_bind. eapply wp_mono; [by eapply handleClose_safe |]. done.
Qed.

(** ** Starting *)

Lemma onConnection_ok n p s :
  gt_heap n !! p = Some s -> exists v, Session.onConnection p n = Ok (tt, with_out n v).
Proof. intros E. unfold Session.onConnection. rewrite (st_bind_Ok _ _ _ _ _ (sess_Ok _ _ _ E)). by eexists. Qed.

Lemma sessionStart_safe now n p s :
  gen_ok n -> gt_heap n !! p = Some s -> ss_type s = kSessionSocketType ->
  wp buffer_fault (fun _ n' => gen_ok n') (sessionStart now p) n.
Proof.
  intros I E Ht. destruct (go_heap _ I _ _ E) as [_ Ho]. unfold sessionStart.
  apply wp_bind. eapply wp_Ok; [by apply sess_Ok |]. apply wp_bind, wp_assert.
  { apply negb_true_iff, Z.eqb_neq. pose proof (so_fd _ Ho). unfold INVALID_FD. lia. }
  unfold sessionSetState, sessionSetState_. apply wp_bind.
  apply wp_bind. eapply wp_Ok; [by apply supd_Ok |]. set (s1 := set_state s kConnected).
  assert (I1 : gen_ok (with_heap n (<[p := s1]> (gt_heap n)))).
  { destruct Ho. eapply gen_ok_upd; try done; [by split; auto |].
    intros fe [(? & _) | (_ & Hr & Hw)]; [congruence | right]. by split_and!. }
  set (n1 := with_heap n _) in *. assert (E1 : gt_heap n1 !! p = Some s1) by apply lookup_insert_eq.
  apply wp_bind. eapply wp_Ok; [by apply sess_Ok |]. cbn iota.
  apply wp_bind. eapply ae_create_ok; [exact I1 | exact E1 | exact masks_readable | |].
  - intros fe _ Hev Hm. right. split; [done |]. cbn [fmask rfileProc wfileProc]. split; [done |].
    rewrite has_lor. change (has AE_READABLE AE_WRITABLE) with false. rewrite orb_false_r. cbn iota. intros Hw.
    destruct Hev as [Hz | [(? & _) | (_ & _ & Hp)]]; [by rewrite Hz in Hw | | by apply Hp].
    change (ss_type s1) with (ss_type s) in *. congruence.
  - intros r el' I2. change (ss_cb s1) with (ss_cb s). rewrite (so_cb _ Ho). cbn [fmap option_fmap option_map].
    apply wp_bind, wp_lift. cbn [defaultConnectionCallback members Protocol.onConnection run_events run_event].
    apply wp_bind. destruct (onConnection_ok (with_loop n1 el') p s1 E1) as [v Ev].
    eapply wp_Ok; [exact Ev |]. apply wp_ret, wp_ret. by apply gen_ok_out.
Qed.

Lemma sessionAccept_safe n p s :
  gen_ok n -> gt_heap n !! p = Some s -> ss_type s = kSessionAcceptType ->
  wp buffer_fault (fun _ n' => gen_ok n') (sessionAccept p (ss_fd s)) n.
Proof.
  intros I E Ht. destruct (go_heap _ I _ _ E) as [_ Ho]. unfold sessionAccept.
  apply wp_bind. eapply wp_Ok; [by apply supd_Ok |].
  assert (Es : set_fd s (ss_fd s) = s) by (by destruct s). cbv beta. rewrite Es, insert_id by done.
  replace (with_heap n (gt_heap n)) with n by (by destruct n).
  apply wp_bind. eapply ae_create_ok; [exact I | exact E | exact masks_readable | |].
  - intros fe _ Hev Hm. left. split; [done |]. cbn [fmask rfileProc wfileProc]. split; [| done].
    destruct (so_state _ Ho) as [[_ Hst] | [? _]]; [| congruence].
    destruct Hev as [-> | [(_ & -> & _) | (? & _)]]; [done | done | congruence].
  - intros r el' I2. by apply wp_ret.
Qed.

(** ** New sessions *)

(** A descriptor the system has just made: no session has it and the loop does not
    watch it. *)
Definition fresh_fd n (fd : Z) : Prop :=
  0 <= fd /\ map_Forall (fun _ s => ss_fd s <> fd) (gt_heap n) /\ fd_mask (gt_loop n) fd = 0.

Definition with_new n (s : session) : genTcp K :=
  with_sessions (with_next (with_heap n (<[gt_next n := s]> (gt_heap n))) (S (gt_next n)))
    (<[idx n (ss_id s) := Some (gt_next n)]> (gt_sessions n)).

Lemma gen_ok_new n s :
  gen_ok n -> gt_sessions n !! idx n (ss_id s) = Some None -> sess_ok s -> fresh_fd n (ss_fd s) ->
  gen_ok (with_new n s).
Proof.
  intros I Hnone Ho (Hf0 & Hf1 & Hf2). pose proof (idx_lt n (ss_id s) I) as Hlt.
  destruct I as [I1 I2 I3 I4 I5 I6 I7 I8 I9].
  assert (Hne : gt_heap n !! gt_next n = None).
  { destruct (gt_heap n !! gt_next n) eqn:E; [| done]. pose proof (I9 (gt_next n) ltac:(by eexists)). lia. }
  assert (Hl : forall q t, <[gt_next n := s]> (gt_heap n) !! q = Some t ->
    q = gt_next n /\ t = s \/ q <> gt_next n /\ gt_heap n !! q = Some t).
  { intros q t [[<- <-] | [? ?]]%lookup_insert_Some; auto. }
  split; cbn [with_new with_sessions with_next with_heap gt_loop gt_setsize gt_sessions gt_heap gt_next]; try done.
  - by rewrite zlen_insert.
  - intros q t [[-> ->] | [Hq Eq]]%Hl; unfold idx; cbn [gt_setsize].
    + split; [| done]. by apply list_lookup_insert_eq.
    + destruct (I5 q t Eq) as [Hs ?]. split; [| done]. rewrite list_lookup_insert_ne; [exact Hs |].
      unfold idx in *. cbn. congruence.
  - intros i q [(<- & Hx & _) | [Hn Hi]]%list_lookup_insert_Some.
    + injection Hx as <-. exists s. split; [apply lookup_insert_eq | done].
    + destruct (I6 i q Hi) as (t & Et & Ei). exists t. split; [| done]. rewrite lookup_insert_ne; congruence.
  - intros q1 q2 t1 t2 [[-> ->] | [_ E1]]%Hl [[-> ->] | [_ E2]]%Hl Ef; try done.
    + exfalso. by apply (Hf1 q2 t2).
    + exfalso. by apply (Hf1 q1 t1).
    + by eapply I7.
  - intros fd fe Hfe. destruct (I8 fd fe Hfe) as [Hz | [(Hm & Hr & Hx) | (q & t & Hd & Hq & Ht & Ht2)]].
    + by left.
    + right. left. split; [done |]. split; [done |]. intros q t [[-> ->] | [_ Hq]]%Hl; [| by apply (Hx q)].
      intros Ef. unfold fd_mask in Hf2. rewrite Ef, Nat2Z.id, Hfe, Hr in Hf2. done.
    + right. right. exists q, t. split; [done |]. split; [| done]. rewrite lookup_insert_ne; congruence.
  - intros q [t [[-> _] | [_ Hq]]%Hl]; [lia |]. pose proof (I9 q ltac:(by eexists)). lia.
Qed.

(** The session [newSession] makes; its callers fill it in. *)
Definition blank_session (undef id : Z) : session :=
  Session undef kSessionTypeNONE None undef undef id INVALID_FD 0 [0] kDisconnected None None None.

Lemma newSession_any undef now n id :
  is_pow2 (gt_setsize n) -> (idx n id < length (gt_sessions n))%nat -> 0 <= id ->
  newSession undef now id INVALID_FD n = Ok (gt_next n, with_new n (blank_session undef id)).
Proof.
  intros Hp2 Hlt Hid. unfold newSession, st_assert, st_lift. destruct (Z.leb_spec 0 id); [| lia].
  erewrite st_bind_Ok by reflexivity.
  assert (Ec : sessionCreate undef now id INVALID_FD n =
    Ok (gt_next n, with_next (with_heap n (<[gt_next n := blank_session undef id]> (gt_heap n))) (S (gt_next n)))).
  { unfold sessionCreate, new_sess. erewrite st_bind_Ok by reflexivity. set (n1 := with_next _ _).
    assert (E1 : gt_heap n1 !! gt_next n = Some (blank_session undef id)) by apply lookup_insert_eq.
    erewrite st_bind_Ok; [reflexivity |]. unfold sessionBindfd.
    rewrite (st_bind_Ok _ _ _ _ _ (sess_Ok _ _ _ E1)). by erewrite st_bind_Ok by reflexivity. }
  rewrite (st_bind_Ok _ _ _ _ _ Ec). erewrite st_bind_Ok by (by apply getIndex_ok).
  unfold set_slot. cbn [with_next with_heap gt_sessions].
  change (idx (with_next _ _) id) with (idx n id). erewrite st_bind_Ok; [reflexivity |].
  by rewrite decide_True.
Qed.

Lemma newSession_Ok undef now n id :
  gen_ok n -> 0 <= id ->
  newSession undef now id INVALID_FD n = Ok (gt_next n, with_new n (blank_session undef id)).
Proof. intros I Hid. apply newSession_any; [apply I | by apply idx_lt | done]. Qed.

(** Filling it in at once is making the filled session. *)
Lemma new_upd n s f :
  ss_id (f s) = ss_id s -> upd (gt_next n) f (with_new n s) = Ok (tt, with_new n (f s)).
Proof.
  intros Hid. erewrite supd_Ok by apply lookup_insert_eq. unfold with_new. rewrite Hid.
  cbn [with_heap with_sessions with_next gt_heap]. by rewrite insert_insert_eq.
Qed.

Lemma reserve_loop_ok k n :
  gen_ok n -> exists id v, Session.reserve_loop k n = Ok (id, with_id n v) /\
    (id < 0 \/ gt_sessions n !! idx n id = Some None).
Proof.
  revert n. induction k as [| k IH]; intros n I; cbn [Session.reserve_loop].
  { exists (-1), (gt_id n). split; [by destruct n | left; lia]. }
  erewrite st_bind_Ok by reflexivity. cbv zeta. erewrite st_bind_Ok by reflexivity. set (n1 := with_id n _).
  assert (Hid : exists id v, (if gt_id n <=? 0 then _ ← st_modify (fun n => with_id n 1); mret 1 else mret (gt_id n)) n1
    = Ok (id, with_id n v)).
  { destruct (gt_id n <=? 0); by eexists _, _. }
  destruct Hid as (id & v & Hid). rewrite (st_bind_Ok _ _ _ _ _ Hid).
  destruct (lookup_lt_is_Some_2 _ _ (idx_lt n id I)) as [o Eo].
  rewrite (st_bind_Ok _ _ _ _ _ (getSession_Ok (with_id n v) id o (go_pow2 _ I) Eo)).
  destruct o as [q |]; [| by exists id, v; auto].
  destruct (IH (with_id n v) (gen_ok_id _ _ I)) as (id' & v' & E & Hs). exists id', v'. by rewrite E.
Qed.

Lemma onAccept_safe undef now n p s a :
  gen_ok n -> gt_heap n !! p = Some s ->
  (match a with TcpAccepted cfd _ _ => fresh_fd n cfd | TcpAcceptError => True end) ->
  wp buffer_fault (fun _ n' => gen_ok n') (Session.onAccept undef now p a) n.
Proof.
  intros I E Ha. destruct (go_heap _ I _ _ E) as [_ Ho]. destruct a as [cfd ip port |]; [| done].
  unfold Session.onAccept. apply wp_bind.
  destruct (reserve_loop_ok (Z.to_nat (gt_setsize n)) n I) as (id & v & Er & Hid).
  eapply wp_Ok; [unfold getReserveId; by erewrite st_bind_Ok by reflexivity |].
  destruct (Z.ltb_spec id 0); [by apply gen_ok_id |]. destruct Hid as [? | Hid]; [lia |].
  set (n1 := with_id n v). pose proof (gen_ok_id n v I) as I1. fold n1 in I1.
  apply wp_bind. eapply wp_Ok; [by apply sess_Ok |]. apply wp_bind.
  eapply wp_Ok; [by apply newSession_Ok |].
  assert (Hp : (p < gt_next n)%nat) by (apply (go_next _ I); by exists s).
  apply wp_bind. eapply wp_Ok.
  { apply sess_Ok. cbn. rewrite lookup_insert_ne by lia. exact E. }
  apply wp_bind. eapply wp_Ok; [by apply new_upd |]. cbv beta. cbn [ss_from ss_cb ss_protoType ss_id blank_session].
  set (ns := Session _ _ _ _ _ _ _ _ _ _ _ _ _).
  assert (I2 : gen_ok (with_new n1 ns)).
  { destruct Ho. apply gen_ok_new; try done. split; cbn; auto. by destruct Ha. }
  apply wp_bind. eapply wp_Ok; [apply sess_Ok, lookup_insert_eq |]. apply wp_modify. by apply gen_ok_out.
Qed.

(** ** Requests and ready descriptors *)

(** What the callers of gen_tcp.c and the system are expected to provide.  A
    listener's identifier still has its slot when the request is handled: this is
    what [getReserveId] is there for and does not ensure. *)
Definition legal_request n (r : socketRequest) (a : sys_answers) : Prop :=
  match rq_body r with
  | kListen _ _ protoType _ =>
    sy_fd a = -1 \/ (0 < protoType < 3 /\ 0 <= rq_id r /\
      gt_sessions n !! idx n (rq_id r) = Some None /\ fresh_fd n (sy_fd a))
  | kConnect _ _ _ => 0 <= rq_id r
  | kSend sz data _ => block_ok data sz
  | _ => True
  end.

Definition legal_ready n (a : ready) : Prop :=
  (match rd_accept a with TcpAccepted cfd _ _ => fresh_fd n cfd | TcpAcceptError => True end) /\
  (match rd_read a with ReadBytes bs => zlen bs < 2147483648 | ReadError => True end).

Lemma slot_session n id :
  gen_ok n -> exists o, getSession id n = Ok (o, n) /\
    match o with Some p => exists s, gt_heap n !! p = Some s | None => True end.
Proof.
  intros I. destruct (lookup_lt_is_Some_2 _ _ (idx_lt n id I)) as [o Eo]. exists o.
  split; [by apply getSession_Ok; [apply I |] |]. destruct o as [p |]; [| done].
  destruct (go_slot _ I _ _ Eo) as (s & E & _). by exists s.
Qed.

Lemma send_each_safe undef now data sz w k ids n :
  gen_ok n -> block_ok data sz -> wp buffer_fault (fun _ n' => gen_ok n') (send_each undef now data sz w k ids) n.
Proof.
  intros I Hd. revert k n I. induction ids as [| id ids IH]; intros k n I; [done |]. cbn [send_each].
  destruct (slot_session n id I) as (o & Eo & Ho). apply wp_bind. eapply wp_Ok; [exact Eo |].
  apply wp_bind. eapply (wp_mono buffer_fault _ (fun _ n' => gen_ok n')); [| intros; by apply IH].
  destruct o as [p |]; [| done]. destruct Ho as [s E]. apply wp_bind.
  eapply wp_mono; [by eapply sessionWrite_safe |]. done.
Qed.

Lemma handleStart_safe now n r id fd inprogress :
  gen_ok n -> wp buffer_fault (fun _ n' => gen_ok n') (handleStart now r id fd inprogress) n.
Proof.
  intros I. unfold handleStart. destruct (slot_session n id I) as (o & Eo & Hs).
  apply wp_bind. eapply wp_Ok; [exact Eo |]. destruct o as [p |]; [| done]. destruct Hs as [s E].
  destruct (go_heap _ I _ _ E) as [_ Ho]. apply wp_bind. eapply wp_Ok; [by apply sess_Ok |].
  apply wp_bind, wp_assert.
  { apply negb_true_iff, bool_decide_eq_false. destruct (so_state _ Ho) as [[-> _] | [-> _]]; done. }
  apply wp_bind. eapply wp_Ok; [by apply supd_Ok |]. set (s1 := set_from s (rq_from r)).
  assert (I1 : gen_ok (with_heap n (<[p := s1]> (gt_heap n)))).
  { destruct Ho. by eapply gen_ok_upd. }
  set (n1 := with_heap n _) in *. assert (E1 : gt_heap n1 !! p = Some s1) by apply lookup_insert_eq.
  destruct (ss_type s) eqn:Et; try done.
  - change (ss_fd s) with (ss_fd s1). by apply sessionAccept_safe.
  - apply wp_bind. eapply wp_mono; [by eapply sessionStart_safe |]. done.
  - destruct (so_state _ Ho) as [[? _] | [? _]]; congruence.
Qed.

Lemma handleEvent_safe undef now logging n r a :
  gen_ok n -> legal_request n r a ->
  wp buffer_fault (fun _ n' => gen_ok n') (handleEvent undef now logging r a) n.
Proof.
  intros I. unfold legal_request, handleEvent. destruct (rq_body r) as [addr port pt bl | id | addr port pt | sz data ids | id |].
  - unfold handleListen. destruct (Z.eqb_spec (sy_fd a) (-1)) as [| Hne]; [done |].
    intros [? | (Hp & Hid & Hs & Hf)]; [done |]. apply wp_bind. eapply wp_Ok; [by apply newSession_Ok |].
    eapply wp_Ok; [by apply new_upd |]. apply gen_ok_new; try done. split; cbn; auto. by destruct Hf.
  - intros _. by apply handleStart_safe.
  - intros Hid. unfold handleConnect. apply wp_bind. eapply wp_Ok; [by apply newSession_Ok |].
    apply wp_bind, wp_lift. rewrite acopy_out_fault; [by left |].
    unfold connect_block, zlen, IPADDR_LEN. rewrite length_app, length_take, !length_app, !length_replicate. lia.
  - intros Hd. by apply send_each_safe.
  - intros _. unfold handleClose. destruct (slot_session n id I) as (o & Eo & Hs).
    apply wp_bind. eapply wp_Ok; [exact Eo |]. destruct o as [p |]; [| destruct logging; [by left | done]].
    destruct Hs as [s E]. apply wp_bind. eapply wp_mono; [by eapply forceClose_safe |]. done.
  - done.
Qed.

Lemma has_land a b c : has (Z.land a b) c = true -> has a c = true.
Proof.
  unfold has. rewrite !negb_true_iff, !Z.eqb_neq. intros Hn Hz. apply Hn.
  by rewrite <- Z.land_assoc, (Z.land_comm b c), Z.land_assoc, Hz, Z.land_0_l.
Qed.

(** The handler registered for reading, and then the one for writing. *)
Lemma call_read_safe undef now n a fd fe mask :
  gen_ok n -> legal_ready n a -> events (gt_loop n) !! Z.to_nat fd = Some fe -> has (fmask fe) AE_READABLE = true ->
  exists p, rfileProc fe = Some p /\
    match call undef now a p fd (clientData fe) mask n with Ok n' => gen_ok n' | Fault f => buffer_fault f end.
Proof.
  intros I [La Lr] Hfe Hm.
  destruct (go_events _ I _ _ Hfe) as [Hz | [(-> & _) | (p & s & -> & E & _ & Ho)]];
    [by rewrite Hz in Hm | by exists SMsgqueue |].
  destruct Ho as [(_ & _ & ->) | (_ & Hr & _)].
  - exists SAccept. split; [done |]. cbn [call]. apply (wp_outcome buffer_fault _ snd (fun n' => gen_ok n')).
    by eapply onAccept_safe.
  - exists SRead. split; [by apply Hr |]. cbn [call]. apply (wp_outcome buffer_fault _ snd (fun n' => gen_ok n')).
    by eapply onRead_safe.
Qed.

Lemma call_write_safe undef now n a fd fe mask :
  gen_ok n -> events (gt_loop n) !! Z.to_nat fd = Some fe -> has (fmask fe) AE_WRITABLE = true ->
  exists p, wfileProc fe = Some p /\
    match call undef now a p fd (clientData fe) mask n with Ok n' => gen_ok n' | Fault f => buffer_fault f end.
Proof.
  intros I Hfe Hm.
  destruct (go_events _ I _ _ Hfe) as [Hz | [(_ & Hz & _) | (p & s & -> & E & _ & Ho)]];
    [by rewrite Hz in Hm | by rewrite Hz in Hm |].
  destruct Ho as [(_ & Hz & _) | (Hc & _ & Hw)]; [by rewrite Hz in Hm |].
  destruct (Hw Hm) as [-> Hb]. exists SWrite. split; [done |]. cbn [call].
  apply (wp_outcome buffer_fault _ snd (fun n' => gen_ok n')). eapply onWrite_safe; try done.
  destruct (go_heap _ I _ _ E) as [_ Hs]. destruct (so_state _ Hs) as [[_ ?] | [? _]]; congruence.
Qed.

Lemma aget_fault {A} (l : list A) i f : aget l i = Fault f -> f = OutOfBounds.
Proof. unfold aget. destruct (0 <=? i), (l !! Z.to_nat i); congruence. Qed.

(** Serving a ready descriptor: a session closed by its read handler is not handed
    to the write handler. *)
Lemma fire_safe undef now n a fd mask :
  gen_ok n -> legal_ready n a ->
  match fire undef now a fd mask n with Ok n' => gen_ok n' | Fault f => buffer_fault f end.
Proof.
  intros I La. unfold fire, process_one.
  destruct (aget (events (gt_loop n)) fd) as [fe | f] eqn:Eg.
  2: { apply aget_fault in Eg as ->. by left. }
  rewrite bind_Ok. apply aget_Ok_inv in Eg as [_ Hfe]. cbv zeta.
  assert (H1 : match (if has (Z.land (fmask fe) mask) AE_READABLE
      then p ← deref (rfileProc fe); call undef now a p fd (clientData fe) mask n else mret n) with
    Ok n' => gen_ok n' | Fault f => buffer_fault f end).
  { destruct (has (Z.land (fmask fe) mask) AE_READABLE) eqn:Hr; [| done]. apply has_land in Hr.
    destruct (call_read_safe undef now n a fd fe mask I La Hfe Hr) as (p & -> & Hc). exact Hc. }
  destruct (if has _ AE_READABLE then _ else _) as [n1 | f]; [| done]. rewrite bind_Ok.
  destruct (aget (events (gt_loop n1)) fd) as [fe1 | f] eqn:Eg.
  2: { apply aget_fault in Eg as ->. by left. }
  rewrite bind_Ok. apply aget_Ok_inv in Eg as [_ Hfe1].
  destruct (has (Z.land (fmask fe1) mask) AE_WRITABLE) eqn:Hw; cbn [andb]; [| done].
  destruct (_ || _); [| done]. apply has_land in Hw.
  destruct (call_write_safe undef now n1 a fd fe1 mask H1 Hfe1 Hw) as (p & -> & Hc). exact Hc.
Qed.

(** ** Runs *)

(** One thing that happens: a request the loop takes off its queue, a ready
    descriptor, or an identifier that a service's thread reserves. *)
Inductive gevent :=
  | GRequest (r : socketRequest) (a : sys_answers)
  | GReady (fd mask : Z) (a : ready)
  | GReserve.

Definition gexec (undef : Z) (now : Z * Z) (logging : bool) (e : gevent) n : outcome (genTcp K) :=
  match e with
  | GRequest r a => x ← handleEvent undef now logging r a n; mret x.2
  | GReady fd mask a => fire undef now a fd mask n
  | GReserve => x ← getReserveId n; mret x.2
  end.

Fixpoint grun (undef : Z) (now : Z * Z) (logging : bool) (es : list gevent) n : outcome (genTcp K) :=
  match es with
  | [] => Ok n
  | e :: es => n ← gexec undef now logging e n; grun undef now logging es n
  end.

Definition legal_event n (e : gevent) : Prop :=
  match e with
  | GRequest r a => legal_request n r a
  | GReady _ _ a => legal_ready n a
  | GReserve => True
  end.

(** Every event is legal in the state it happens in. *)
Fixpoint legal_run (undef : Z) (now : Z * Z) (logging : bool) (es : list gevent) n : Prop :=
  match es with
  | [] => True
  | e :: es => legal_event n e /\
    match gexec undef now logging e n with Ok n => legal_run undef now logging es n | Fault _ => True end
  end.

Lemma gexec_safe undef now logging e n :
  gen_ok n -> legal_event n e ->
  match gexec undef now logging e n with Ok n' => gen_ok n' | Fault f => buffer_fault f end.
Proof.
  intros I L. destruct e as [r a | fd mask a |]; cbn [gexec].
  - apply (wp_outcome buffer_fault _ snd (fun n' => gen_ok n')). by apply handleEvent_safe.
  - by apply fire_safe.
  - unfold getReserveId. destruct (reserve_loop_ok (Z.to_nat (gt_setsize n)) n I) as (id & v & E & _).
    rewrite (st_bind_Ok _ _ _ n n eq_refl), E. by apply gen_ok_id.
Qed.

Lemma gexec_run_safe undef now logging es n :
  gen_ok n -> legal_run undef now logging es n ->
  match grun undef now logging es n with Ok n' => gen_ok n' | Fault f => buffer_fault f end.
Proof.
  revert n. induction es as [| e es IH]; intros n I; [done |]. cbn [legal_run grun]. intros [L Hl].
  pose proof (gexec_safe undef now logging e n I L) as He.
  destruct (gexec _ _ _ e n) as [n1 | f]; [| exact He]. rewrite bind_Ok. by apply IH.
Qed.

(** Before anything is opened only the request queue is watched. *)
Definition queue_only (el : aeEventLoop sproc nat K) : Prop :=
  forall fd fe, events el !! fd = Some fe -> fmask fe = 0 \/ rfileProc fe = Some SMsgqueue /\ fmask fe = AE_READABLE.

Lemma genTcpInit_ok setsize el :
  1 <= setsize <= 2147483648 -> ae_ok el -> queue_only el -> gen_ok (genTcpInit setsize el).
Proof.
  intros Hs Hok Hq. assert (E : u32 setsize = setsize) by (apply u32_small; lia).
  destruct (nextpow2_spec setsize Hs) as [_ Hn]. pose proof (is_pow2_nextpow2 setsize Hs) as Hp.
  split; unfold genTcpInit; rewrite ?E; cbn [gt_loop gt_setsize gt_sessions gt_heap gt_next]; try done.
  - destruct Hp as (k & Hk & Ep). rewrite Ep in Hn |- *.
    destruct (Z.lt_ge_cases 31 k) as [Hgt | Hle].
    + exfalso. pose proof (Z.pow_le_mono_r 2 32 k ltac:(lia) ltac:(lia)). lia.
    + change 2147483648 with (2 ^ 31). by apply Z.pow_le_mono_r.
  - apply zlen_replicate. pose proof (is_pow2_pos _ Hp). lia.
  - intros i p [? _]%lookup_replicate. done.
  - intros fd fe Hfe. destruct (Hq fd fe Hfe) as [? | [? ?]]; [by left | right; left]. split_and!; done.
  - intros p [? ?]. done.
Qed.

(** ** Tear-down *)

(** Releasing a session that is not open leaves the table and the heap together. *)
Lemma release_closed_ok now n i p s :
  slots_ok n -> gt_sessions n !! i = Some (Some p) -> gt_heap n !! p = Some s -> is_open s = false ->
  exists n', (_ ← sessionRelease now p; set_slot i None) n = Ok (tt, n') /\ slots_ok n' /\
    (forall q t, q <> p -> gt_heap n !! q = Some t -> gt_heap n' !! q = Some t) /\ gt_setsize n' = gt_setsize n.
Proof.
  intros I Hi E Ho. set (n1 := with_heap n (delete p (gt_heap n))).
  assert (Er : sessionRelease now p n = Ok (tt, n1)).
  { unfold sessionRelease. erewrite st_bind_Ok by reflexivity. cbn [release_fuel].
    rewrite (st_bind_Ok _ _ _ _ _ (sess_Ok _ _ _ E)), Ho. erewrite st_bind_Ok by reflexivity.
    rewrite (st_bind_Ok _ _ _ _ _ (sess_Ok _ _ _ E)). unfold free_sess. by rewrite E. }
  rewrite (st_bind_Ok _ _ _ _ _ Er). unfold set_slot.
  rewrite decide_True by (by apply lookup_lt_Some in Hi). eexists. split; [reflexivity |].
  destruct I as [I1 I2 I3 I4 I5]. destruct (I5 _ _ Hi) as (s' & E' & Hidx). simplify_eq.
  split; [| split; [| done]].
  - split; cbn [with_sessions with_heap n1 gt_loop gt_setsize gt_sessions gt_heap]; try done.
    + by rewrite zlen_insert.
    + intros q t [Hn Eq]%lookup_delete_Some. destruct (I4 q t Eq) as [Hs ?]. split; [| done].
      rewrite list_lookup_insert_ne; [exact Hs |]. unfold idx in *. cbn. congruence.
    + intros i q [(_ & Hx & _) | [Hn Hi2]]%list_lookup_insert_Some; [done |].
      destruct (I5 i q Hi2) as (t & Et & Ei). exists t. split; [| done].
      apply lookup_delete_Some. split; [| done]. intros <-. unfold idx in *. congruence.
  - intros q t Hq Eq. cbn. by rewrite lookup_delete_ne.
Qed.

Lemma uninit_from_faults now k i n p s :
  slots_ok n -> gt_heap n !! p = Some s -> is_open s = true ->
  (i <= idx n (ss_id s) < i + k)%nat -> uninit_from now k i n = Fault UseAfterFree.
Proof.
  revert i n. induction k as [| k IH]; intros i n I E Ho Hr; [lia |]. cbn [uninit_from].
  destruct (to_heap _ I _ _ E) as [Hs _].
  destruct (lookup_lt_is_Some_2 (gt_sessions n) i) as [o Ei].
  { apply lookup_lt_Some in Hs. lia. }
  assert (Esl : slot i n = Ok (o, n)) by (unfold slot; by rewrite Ei). rewrite (st_bind_Ok _ _ _ _ _ Esl).
  destruct o as [q |].
  2: { erewrite st_bind_Ok by reflexivity. apply (IH _ _ I E Ho).
       assert (i <> idx n (ss_id s)) by congruence. lia. }
  destruct (to_slot _ I _ _ Ei) as (t & Et & Eidx). destruct (is_open t) eqn:Hot.
  - apply st_bind_Fault, st_bind_Fault. by eapply release_open_faults.
  - assert (Hpq : p <> q) by congruence.
    destruct (release_closed_ok now n i q t I Ei Et Hot) as (n' & En & I' & Hk & Hsz).
    rewrite (st_bind_Ok _ _ _ _ _ En). eapply IH; [done | by apply Hk | done |].
    unfold idx in *. rewrite Hsz. assert (i <> Z.to_nat (ss_id s mod gt_setsize n)) by congruence. lia.
Qed.

(** What is needed to run the concrete examples below: legality can be decided. *)
#[export] Instance block_ok_dec data sz : Decision (block_ok data sz).
Proof. unfold block_ok. destruct data; solve_decision. Defined.
#[export] Instance fresh_fd_dec n fd : Decision (fresh_fd n fd).
Proof. unfold fresh_fd. solve_decision. Defined.
#[export] Instance legal_request_dec n r a : Decision (legal_request n r a).
Proof. unfold legal_request. destruct (rq_body r); solve_decision. Defined.
#[export] Instance legal_ready_dec n a : Decision (legal_ready n a).
Proof. unfold legal_ready. destruct (rd_accept a), (rd_read a); solve_decision. Defined.
#[export] Instance legal_event_dec n e : Decision (legal_event n e).
Proof. destruct e; cbn [legal_event]; solve_decision. Defined.
#[export] Instance legal_run_dec undef now logging es n : Decision (legal_run undef now logging es n).
Proof.
  revert n. induction es as [| e es IH]; intros n; cbn [legal_run]; [solve_decision |].
  destruct (decide (legal_event n e)) as [L | L]; [| right; by intros [? _]].
  destruct (gexec _ _ _ e n) as [n1 | f]; [| by left].
  destruct (IH n1) as [Hl | Hl]; [by left | right; by intros [_ ?]].
Defined.
End invariant.
(** ** Concrete runs *)

(** A loop that watches the request queue on descriptor 3. *)
Definition queue_loop : aeEventLoop sproc nat (gmap Z Z) :=
  match aeCreateFileEvent (aeCreateEventLoop 16 0 ∅) 3 AE_READABLE SMsgqueue None with
  | Ok (_, el) => el
  | Fault _ => aeCreateEventLoop 16 0 ∅
  end.

Definition idle_ready : ready := Ready TcpAcceptError ReadError (fun _ => SendAgain) None.
Definition accepts (cfd : Z) : ready := Ready (TcpAccepted cfd [] 4000) ReadError (fun _ => SendAgain) None.
Definition reads (bs : list Z) : ready := Ready TcpAcceptError (ReadBytes bs) (fun _ => SendAgain) None.
Definition sends_all : ready := Ready TcpAcceptError ReadError (fun _ => Sent 100) None.

Definition opens (fd : Z) : sys_answers := SysAnswers fd false (fun _ => Wrote 1).
Definition listen_request (id fd : Z) : gevent :=
  GRequest (SocketRequest 7 0 id (kListen [49] 80 HEAD_PROTO_TYPE 128)) (opens fd).
Definition start_request (from id : Z) : gevent := GRequest (SocketRequest from 1 0 (kStart id)) (opens (-1)).
Definition send_request (id : Z) (bs : list Z) : gevent :=
  GRequest (SocketRequest 8 1 0 (kSend (zlen bs) (Some bs) [id])) (opens (-1)).
Definition close_request (id : Z) : gevent := GRequest (SocketRequest 8 1 0 (kClose id)) (opens (-1)).

(** A listener on descriptor 5; a connection on 6 is accepted, started by service 8,
    sends a frame, is sent three bytes in two pieces and ends. *)
Definition echo_run : list gevent :=
  [GReserve; listen_request 1 5; start_request 7 1; GReady 5 1 (accepts 6); start_request 8 2;
   GReady 6 1 (reads [2; 0; 0; 0; 65; 66]); send_request 2 [67; 68; 69]; GReady 6 2 sends_all;
   GReady 6 1 (reads []); close_request 1].

(** A service reserves identifier 3; before its request is handled a connection is
    accepted in the same slot, under identifier 5.  The listener then takes the slot,
    the end of the connection frees the listener, and the next accept uses it. *)
Definition race_run : list gevent :=
  [GReserve; GReserve; listen_request 2 5; start_request 7 2; GReserve; GReady 5 1 (accepts 6); start_request 8 5;
   listen_request 3 8; start_request 7 3; GReady 6 1 (reads []); GReady 8 1 (accepts 9)].

(** ** Properties *)

(** C8: the sessions of the generic layer are never used after they are freed, as
    long as no two of them are given one slot.  From [genTcpInit], under any
    sequence of requests (listen, start, connect, send, close, exit), ready
    descriptors (accepts, reads of any length, partial and failing sends) and
    reservations, in which the identifier of a listen request has a free slot when
    it is handled, new descriptors are new and a send request's block holds its
    bytes, every step ends in a state where the table and the heap name the same
    sessions, no descriptor is shared and every registered handler belongs to a
    live session and fits its state.  The only faults are those of buffers and
    copies (out of bounds, or no memory): no freed session is read or written, no
    null pointer is used, no assertion fails and no recursion runs out. *)
Theorem sessions_safe {K} `{AeApiLaws K} undef now logging setsize (el : aeEventLoop sproc nat K) es :
  1 <= setsize <= 2147483648 -> ae_ok el -> queue_only el ->
  legal_run undef now logging es (genTcpInit setsize el) ->
  match grun undef now logging es (genTcpInit setsize el) with
  | Ok n => gen_ok n
  | Fault f => f = OutOfBounds \/ f = OutOfMemory
  end.
Proof.
  intros Hs Hok Hq. apply gexec_run_safe. by apply genTcpInit_ok.
Qed.

Lemma queue_loop_ok : ae_ok queue_loop /\ queue_only queue_loop.
Proof.
  split.
  - unfold queue_loop. pose proof (epoll_create_ok (P := sproc) (D := nat) 16 0 (∅ : gmap Z Z) ltac:(lia) eq_refl) as Hok.
    destruct (aeCreateFileEvent_cases _ 3 AE_READABLE SMsgqueue None Hok ltac:(lia) masks_readable)
      as (r & el & -> & Hel & _). exact Hel.
  - assert (Hf : Forall (fun fe => fmask fe = 0 \/ rfileProc fe = Some SMsgqueue /\ fmask fe = AE_READABLE)
      (events queue_loop)) by (apply (bool_decide_unpack _); vm_compute; exact I).
    intros fd fe Hfe. by apply (Forall_lookup_1 _ _ _ _ Hf Hfe).
Qed.

Lemma sessions_safe_witness :
  match grun 0 (0, 0) true echo_run (genTcpInit 4 queue_loop) with
  | Ok n => gen_ok n
  | Fault f => f = OutOfBounds \/ f = OutOfMemory
  end /\
  (n ← grun 0 (0, 0) true echo_run (genTcpInit 4 queue_loop); mret (zs_data <$> gt_out n, gt_closed n, gt_wire n)) =
    Ok ([None; None; Some [65; 66; 0]; None], [6], [(6, [67]); (6, [68; 69])]).
Proof.
  split; [| vm_compute; reflexivity].
  apply (sessions_safe 0 (0, 0) true 4 queue_loop echo_run); [lia | apply queue_loop_ok | apply queue_loop_ok |].
  apply (bool_decide_unpack _). vm_compute. exact I.
Defined.

(** Tearing the layer down frees every connection twice.  In any state the
    invariant describes, if some session is connected, [genTcpUninit] releases a
    freed session: [sessionRelease] closes the connection, which takes the session
    out of the table and releases it, and then goes on with the freed block. *)
Theorem genTcpUninit_double_free {K} `{AeApiLaws K} now (n : genTcp K) p s :
  gen_ok n -> gt_heap n !! p = Some s -> ss_state s = kConnected ->
  genTcpUninit now n = Fault UseAfterFree.
Proof.
  intros I E Hc. unfold genTcpUninit. erewrite st_bind_Ok by reflexivity.
  apply (uninit_from_faults now _ _ _ p s); [by apply gen_table | done | |].
  - unfold is_open. by rewrite bool_decide_eq_true_2.
  - pose proof (Z.mod_pos_bound (ss_id s) _ (is_pow2_pos _ (go_pow2 _ I))). unfold idx. lia.
Qed.

(** The state after the connection of [echo_run] has been started. *)
Definition connected_state : genTcp (gmap Z Z) :=
  match grun 0 (0, 0) true (take 5 echo_run) (genTcpInit 4 queue_loop) with
  | Ok n => n
  | Fault _ => genTcpInit 4 queue_loop
  end.

Definition connected_session : session :=
  Session 8 kSessionSocketType (Some tcpServerCallback) HEAD_PROTO_TYPE 1 2 6 4000 [] kConnected None None None.

Lemma connected_state_ok : gen_ok connected_state.
Proof.
  unfold connected_state.
  pose proof (gexec_run_safe 0 (0, 0) true (take 5 echo_run) (genTcpInit 4 queue_loop)
    (genTcpInit_ok 4 queue_loop ltac:(lia) (proj1 queue_loop_ok) (proj2 queue_loop_ok))) as S.
  destruct (grun _ _ _ _ _) as [n | f] eqn:E; [| apply (genTcpInit_ok 4); [lia | apply queue_loop_ok ..]].
  apply S. apply (bool_decide_unpack _). vm_compute. exact I.
Qed.

Lemma genTcpUninit_double_free_witness :
  gt_heap connected_state !! 1%nat = Some connected_session /\
  genTcpUninit (0, 0) connected_state = Fault UseAfterFree.
Proof.
  split; [vm_compute; reflexivity |].
  apply (genTcpUninit_double_free (0, 0) connected_state 1 connected_session);
    [apply connected_state_ok | vm_compute; reflexivity | reflexivity].
Defined.

(** ** Reservations nobody has claimed *)

Section reservations.
  Context {K : Type} `{AeApiLaws K}.
  Implicit Types n : genTcp K.

(** [m] callers that ask for an identifier before any puts a session in place. *)
Fixpoint reserve_many (m : nat) : ST (genTcp K) (list Z) :=
  match m with
  | O => mret []
  | S m => id ← getReserveId; ids ← reserve_many m; mret (id :: ids)
  end.

Definition free_slots n : list nat := filter (fun i => gt_sessions n !! i = Some None) (seq 0 (length (gt_sessions n))).

Lemma reserve_loop_finds k : forall n j, gen_ok n -> 1 <= gt_id n -> gt_id n + Z.of_nat k < 2147483648 ->
  (j < k)%nat -> gt_sessions n !! idx n (gt_id n + Z.of_nat j) = Some None ->
  exists id, Session.reserve_loop k n = Ok (id, with_id n (id + 1)) /\ gt_id n <= id < gt_id n + Z.of_nat k /\
    gt_sessions n !! idx n id = Some None.
Proof.
  induction k as [| k IH]; intros n j I H1' Hk Hj Ej; [lia |]. cbn [Session.reserve_loop].
  erewrite st_bind_Ok by reflexivity. cbv zeta. erewrite st_bind_Ok by reflexivity. rewrite i32_small by lia.
  destruct (Z.leb_spec (gt_id n) 0); [lia |]. erewrite st_bind_Ok by reflexivity.
  set (n1 := with_id n (gt_id n + 1)). destruct (lookup_lt_is_Some_2 _ _ (idx_lt n (gt_id n) I)) as [o Eo].
  rewrite (st_bind_Ok _ _ _ _ _ (getSession_Ok n1 (gt_id n) o (go_pow2 _ I) Eo)). destruct o as [q |].
  - destruct j as [| j]; [rewrite Z.add_0_r in Ej; congruence |].
    destruct (IH n1 j (gen_ok_id _ _ I)) as (id & E & Hid & Es); [cbn; lia | cbn; lia | lia | |].
    { cbn [gt_id n1 with_id]. replace (gt_id n + 1 + Z.of_nat j) with (gt_id n + Z.of_nat (S j)) by lia. exact Ej. }
    cbn [gt_id n1 with_id] in Hid. exists id. split; [by rewrite E |]. split; [lia | exact Es].
  - exists (gt_id n). split; [done |]. split; [lia | done].
Qed.

Lemma getReserveId_finds n i : gen_ok n -> 1 <= gt_id n -> gt_id n + gt_setsize n < 2147483648 -> gt_sessions n !! i = Some None ->
  exists id, getReserveId n = Ok (id, with_id n (id + 1)) /\ gt_id n <= id < gt_id n + gt_setsize n /\
    gt_sessions n !! idx n id = Some None.
Proof.
  intros I Hid Hb Ei. pose proof (is_pow2_pos _ (go_pow2 _ I)) as Hp. pose proof (go_len _ I) as Hl.
  assert (Hi : Z.of_nat i < gt_setsize n) by (apply lookup_lt_Some in Ei; unfold zlen in Hl; lia).
  pose proof (Z.mod_pos_bound (Z.of_nat i - gt_id n) (gt_setsize n) Hp).
  destruct (reserve_loop_finds (Z.to_nat (gt_setsize n)) n (Z.to_nat ((Z.of_nat i - gt_id n) mod gt_setsize n)) I Hid)
    as (id & E & Hr & Es); [lia | lia | |].
  - unfold idx. rewrite Z2Nat.id, Zplus_mod_idemp_r by lia. replace (gt_id n + (Z.of_nat i - gt_id n)) with (Z.of_nat i) by lia.
    by rewrite Z.mod_small, Nat2Z.id by lia.
  - exists id. split; [| split; [lia | done]]. unfold getReserveId. by erewrite st_bind_Ok by reflexivity.
Qed.

Lemma reserve_many_finds m : forall n i, gen_ok n -> 1 <= gt_id n -> gt_id n + Z.of_nat m * gt_setsize n < 2147483648 ->
  gt_sessions n !! i = Some None ->
  exists ids v, reserve_many m n = Ok (ids, with_id n v) /\ length ids = m /\
    Forall (fun id => gt_id n <= id /\ gt_sessions n !! idx n id = Some None) ids /\ NoDup ids.
Proof.
  induction m as [| m IH]; intros n i I Hid Hb Ei; cbn [reserve_many].
  { exists [], (gt_id n). split; [by destruct n |]. split; [done |]. split; constructor. }
  pose proof (is_pow2_pos _ (go_pow2 _ I)).
  destruct (getReserveId_finds n i I Hid) as (id & E & Hr & Es); [nia | done |]. rewrite (st_bind_Ok _ _ _ _ _ E).
  destruct (IH (with_id n (id + 1)) i (gen_ok_id _ _ I)) as (ids & v & E2 & El & Hf & Hn); [cbn; lia | cbn; nia | done |].
  rewrite (st_bind_Ok _ _ _ _ _ E2). exists (id :: ids), v. split; [done |]. split; [cbn; lia |].
  cbn [gt_id with_id] in Hf. split.
  - constructor; [split; [lia | done] |]. eapply Forall_impl; [exact Hf |]. intros x [Hx Hs]. split; [lia | exact Hs].
  - constructor; [| done]. intros Hin. rewrite Forall_forall in Hf. destruct (Hf id Hin). lia.
Qed.

Lemma dup_exists (l : list nat) : ~ NoDup l -> exists j k x, (j < k)%nat /\ l !! j = Some x /\ l !! k = Some x.
Proof.
  induction l as [| x l IH]; intros Hn; [by destruct Hn; constructor |].
  destruct (decide (x ∈ l)) as [Hin | Hout].
  - apply list_elem_of_lookup in Hin as [k Ek]. exists 0%nat, (S k), x. by split; [lia |].
  - destruct IH as (j & k & y & Hjk & Ej & Ek); [intros HN; apply Hn; by constructor |].
    exists (S j), (S k), y. by split; [lia |].
Qed.

(** More claims than slots. *)
Lemma slots_collide n ids : Forall (fun id => gt_sessions n !! idx n id = Some None) ids ->
  (length (free_slots n) < length ids)%nat ->
  exists j k id1 id2, (j < k)%nat /\ ids !! j = Some id1 /\ ids !! k = Some id2 /\ idx n id1 = idx n id2.
Proof.
  intros Hf Hlen. destruct (dup_exists (idx n <$> ids)) as (j & k & x & Hjk & Ej & Ek).
  - intros HN. assert (Hle : (length (idx n <$> ids) <= length (free_slots n))%nat); [| rewrite length_fmap in Hle; lia].
    apply submseteq_length, NoDup_submseteq; [done |]. intros x (id & -> & Hin)%list_elem_of_fmap.
    rewrite Forall_forall in Hf. specialize (Hf id Hin). apply list_elem_of_filter. split; [done |].
    apply elem_of_seq. apply lookup_lt_Some in Hf. lia.
  - rewrite list_lookup_fmap in Ej, Ek. destruct (ids !! j) as [id1 |] eqn:E1; [| done]. destruct (ids !! k) as [id2 |] eqn:E2; [| done].
    cbn in Ej, Ek. exists j, k, id1, id2. split; [done |]. split; [done |]. split; [done |]. congruence.
Qed.

(** The second of two sessions made for one slot takes it. *)
Lemma newSession_twice undef now n id1 id2 : gen_ok n -> 0 <= id1 -> 0 <= id2 -> idx n id1 = idx n id2 ->
  exists n', (p1 ← newSession undef now id1 INVALID_FD; p2 ← newSession undef now id2 INVALID_FD; mret (p1, p2)) n =
      Ok ((gt_next n, S (gt_next n)), n') /\
    gt_sessions n' !! idx n id1 = Some (Some (S (gt_next n))) /\
    gt_heap n' !! gt_next n = Some (blank_session undef id1) /\
    forall i, gt_sessions n' !! i <> Some (Some (gt_next n)).
Proof.
  intros I H1' H2' Hs. rewrite (st_bind_Ok _ _ _ _ _ (newSession_Ok undef now n id1 I H1')). set (n1 := with_new n _).
  pose proof (idx_lt n id2 I) as Hlt.
  assert (E2 : newSession undef now id2 INVALID_FD n1 = Ok (gt_next n1, with_new n1 (blank_session undef id2))).
  { apply newSession_any; [apply I | cbn; rewrite length_insert; exact Hlt | done]. }
  rewrite (st_bind_Ok _ _ _ _ _ E2). eexists. split; [reflexivity |].
  cbn [with_new with_sessions with_next with_heap gt_sessions gt_heap gt_next n1 ss_id blank_session].
  change (idx n1 id2) with (idx n id2). rewrite <- Hs in Hlt |- *. rewrite list_insert_insert_eq.
  split; [by apply list_lookup_insert_eq |]. split.
  - rewrite lookup_insert_ne by lia. apply lookup_insert_eq.
  - intros i [(_ & Hx & _) | [_ Ei]]%list_lookup_insert_Some; [by injection Hx; lia |].
    destruct (go_slot _ I _ _ Ei) as (s & Es & _). pose proof (go_next _ I _ ltac:(by eexists)). lia.
Qed.
End reservations.

(** C28: an identifier that has been handed out reserves nothing.  In any table in
    order that has a free slot, away from the wrap of the counter, any number of
    callers that ask before one of them has put a session in place all get an
    identifier, different ones, each of a slot that is free; but nothing in the
    table has changed, so as soon as there are more callers than free slots two of
    them have identifiers of one slot.  When these two make their sessions, the
    second takes the slot, and the first stays allocated and is in no slot. *)
Theorem reservation_race {K} `{AeApiLaws K} undef now (n : genTcp K) m i :
  gen_ok n -> 1 <= gt_id n -> gt_id n + Z.of_nat m * gt_setsize n < 2147483648 -> gt_sessions n !! i = Some None ->
  exists ids v, reserve_many m n = Ok (ids, with_id n v) /\ length ids = m /\ NoDup ids /\
    Forall (fun id => gt_sessions n !! idx n id = Some None) ids /\
    ((length (free_slots n) < m)%nat -> exists j k id1 id2,
       (j < k)%nat /\ ids !! j = Some id1 /\ ids !! k = Some id2 /\ idx n id1 = idx n id2 /\
       exists n', (p1 ← newSession undef now id1 INVALID_FD; p2 ← newSession undef now id2 INVALID_FD; mret (p1, p2)) (with_id n v) =
           Ok ((gt_next n, S (gt_next n)), n') /\
         gt_sessions n' !! idx n id1 = Some (Some (S (gt_next n))) /\
         gt_heap n' !! gt_next n = Some (blank_session undef id1) /\
         forall i, gt_sessions n' !! i <> Some (Some (gt_next n))).
Proof.
  intros I Hid Hb Ei. destruct (reserve_many_finds m n i I Hid Hb Ei) as (ids & v & E & El & Hf & Hn).
  assert (Hfree : Forall (fun id => gt_sessions n !! idx n id = Some None) ids) by (eapply Forall_impl; [exact Hf | tauto]).
  exists ids, v. do 4 (split; [done |]). intros Hlen.
  destruct (slots_collide n ids Hfree ltac:(lia)) as (j & k & id1 & id2 & Hjk & E1 & E2 & Hs).
  exists j, k, id1, id2. do 4 (split; [done |]).
  rewrite Forall_forall in Hf.
  destruct (Hf id1) as [P1 _]; [by eapply list_elem_of_lookup_2 |]. destruct (Hf id2) as [P2 _]; [by eapply list_elem_of_lookup_2 |].
  apply (newSession_twice undef now (with_id n v) id1 id2 (gen_ok_id _ _ I)); [lia | lia | exact Hs].
Qed.

Lemma reservation_race_witness :
  exists ids v, reserve_many 3 (genTcpInit 2 queue_loop) = Ok (ids, with_id (genTcpInit 2 queue_loop) v) /\ ids = [1; 2; 3] /\
    exists j k id1 id2, (j < k)%nat /\ ids !! j = Some id1 /\ ids !! k = Some id2 /\
      idx (genTcpInit 2 queue_loop) id1 = idx (genTcpInit 2 queue_loop) id2.
Proof.
  destruct (reservation_race 0 (0, 0) (genTcpInit 2 queue_loop) 3 0
    (genTcpInit_ok 2 queue_loop ltac:(lia) (proj1 queue_loop_ok) (proj2 queue_loop_ok)))
    as (ids & v & E & _ & _ & _ & Hrace); [by vm_compute | by vm_compute | reflexivity |].
  assert (Ei : (r ← reserve_many 3 (genTcpInit 2 queue_loop); Ok r.1) = Ok [1; 2; 3]) by (vm_compute; reflexivity).
  assert (ids = [1; 2; 3]) as Hids by (rewrite E in Ei; by injection Ei).
  destruct Hrace as (j & k & id1 & id2 & H1 & H2 & H3 & H4 & _); [by vm_compute; lia |].
  exists ids, v. split; [exact E |]. split; [exact Hids |]. exists j, k, id1, id2.
  split; [exact H1 |]. split; [exact H2 |]. split; [exact H3 | exact H4].
Defined.

(** A run in which this ends in the use of a freed session.  In a table of two
    slots a service reserves 3 for a listener; before its request is handled the
    loop accepts a connection, is given 5, and puts the connection into the same
    slot: all this is what the callers may do.  The listener then takes the slot
    over; when the connection ends, the listener is what is removed and freed,
    while its handler stays registered; the next client that connects to it makes
    the loop use the freed session. *)
Theorem reservation_race_run :
  legal_run 0 (0, 0) true (take 7 race_run) (genTcpInit 2 queue_loop) /\
  is_ok (grun 0 (0, 0) true (take 10 race_run) (genTcpInit 2 queue_loop)) = true /\
  grun 0 (0, 0) true race_run (genTcpInit 2 queue_loop) = Fault UseAfterFree.
Proof. split; [apply (bool_decide_unpack _); vm_compute; exact I | by vm_compute]. Qed.
