(* ===== verification/Anet.v ===== *)
(** * anet.c: sockets

    The functions that make, configure and connect sockets, over an interface of
    the system calls.  A world [W] is the state of the process in the kernel; the
    laws say which descriptors are open after each call, what is unfreed of
    getaddrinfo(3), and what has been written.  The text that a failing function
    leaves in [err] is not modelled: [anetSetError] writes at most [ANET_ERR_LEN]
    bytes of it. *)
From S2P Require Import Prelude Wp CString.

Definition ANET_OK : Z := 0.
Definition ANET_ERR : Z := -1.
Definition ANET_NONE : Z := 0.
Definition ANET_IP_ONLY : Z := 1.
Definition ANET_CONNECT_NONE : Z := 0.
Definition ANET_CONNECT_NONBLOCK : Z := 1.

(** Constants of the system's headers. *)
Definition AF_UNSPEC : Z := 0.
Definition AF_LOCAL : Z := 1.
Definition AF_INET : Z := 2.
Definition AF_INET6 : Z := 10.
Definition AI_PASSIVE : Z := 1.
Definition AI_NUMERICHOST : Z := 4.
Definition SOL_SOCKET : Z := 1.
Definition SO_REUSEADDR : Z := 2.
Definition SO_SNDBUF : Z := 7.
Definition SO_KEEPALIVE : Z := 9.
Definition IPPROTO_TCP : Z := 6.
Definition TCP_NODELAY : Z := 1.
Definition TCP_KEEPIDLE : Z := 4.
Definition TCP_KEEPINTVL : Z := 5.
Definition TCP_KEEPCNT : Z := 6.
Definition IPPROTO_IPV6 : Z := 41.
Definition IPV6_V6ONLY : Z := 26.
Definition O_NONBLOCK : Z := 2048.
Definition EINTR : Z := 4.
Definition EINPROGRESS : Z := 115.

(** A socket address: its family, what inet_ntop(3) prints for it (a path for
    [AF_LOCAL]) and the port in the host's order. *)
Record sockaddr := Sockaddr { sa_family : Z; sa_text : list Z; sa_port : Z }.
Record addrinfo := Addrinfo { ai_family : Z; ai_addr : sockaddr }.

(** The calls that only return a number and leave the descriptors as they are. *)
Inductive plain_call :=
  | GetFl (fd : Z)
  | SetFl (fd flags : Z)
  | SetSockOpt (fd level name value : Z)
  | Connect (fd : Z) (sa : sockaddr)
  | Bind (fd : Z) (sa : sockaddr)
  | Listen (fd backlog : Z)
  | Chmod (path : list Z) (perm : Z).

Class Sys (W : Type) := {
  sys_plain : plain_call -> W -> Z * W;
  sys_socket : Z -> W -> Z * W;
  sys_close : Z -> W -> W;
  sys_accept : Z -> W -> Z * sockaddr * W;
  sys_getaddrinfo : list Z -> option (list Z) -> Z -> Z -> W -> Z * list addrinfo * W;
  sys_freeaddrinfo : list addrinfo -> W -> W;
  sys_read : Z -> Z -> W -> Z * list Z * W;
  sys_write : Z -> list Z -> W -> Z * W;
  sys_peername : Z -> W -> Z * sockaddr * W;
  sys_sockname : Z -> W -> Z * sockaddr * W;
  errno : W -> Z;
  open_fds : W -> gset Z;
  infos : W -> nat;
  written : W -> Z -> list Z;
}.

(** A call that may have opened a descriptor. *)
Definition opened (fds : gset Z) (r : Z) (fds' : gset Z) : Prop :=
  r = -1 /\ fds' = fds \/ 0 <= r /\ (r ∉ fds) /\ fds' = {[r]} ∪ fds.

Class SysLaws (W : Type) `{Sys W} := {
  plain_fds c w : open_fds (sys_plain c w).2 = open_fds w;
  plain_infos c w : infos (sys_plain c w).2 = infos w;
  socket_fds d w : opened (open_fds w) (sys_socket d w).1 (open_fds (sys_socket d w).2);
  socket_infos d w : infos (sys_socket d w).2 = infos w;
  close_fds fd w : open_fds (sys_close fd w) = open_fds w ∖ {[fd]};
  close_infos fd w : infos (sys_close fd w) = infos w;
  accept_fds fd w : opened (open_fds w) (sys_accept fd w).1.1 (open_fds (sys_accept fd w).2);
  accept_infos fd w : infos (sys_accept fd w).2 = infos w;
  getaddrinfo_fds h s f fl w : open_fds (sys_getaddrinfo h s f fl w).2 = open_fds w;
  getaddrinfo_infos h s f fl w : infos (sys_getaddrinfo h s f fl w).2 =
    if (sys_getaddrinfo h s f fl w).1.1 =? 0 then S (infos w) else infos w;
  (** a successful look-up has at least one result *)
  getaddrinfo_some h s f fl w : (sys_getaddrinfo h s f fl w).1.1 = 0 -> (sys_getaddrinfo h s f fl w).1.2 <> [];
  free_fds l w : open_fds (sys_freeaddrinfo l w) = open_fds w;
  free_infos l w : infos (sys_freeaddrinfo l w) = pred (infos w);
  (** a count between -1 and what was asked for *)
  read_range fd n w : 0 <= n -> -1 <= (sys_read fd n w).1.1 <= n /\
    zlen (sys_read fd n w).1.2 = Z.max 0 (sys_read fd n w).1.1;
  write_range fd bs w : -1 <= (sys_write fd bs w).1 <= zlen bs;
  write_stream fd bs w : written (sys_write fd bs w).2 fd =
    written w fd ++ take (Z.to_nat (sys_write fd bs w).1) bs;
}.

Section Anet.
  Context {W : Type} `{Sys W}.
  Implicit Types w : W.

Definition plain (c : plain_call) : ST W Z := fun w => Ok (sys_plain c w).
Definition socket (domain : Z) : ST W Z := fun w => Ok (sys_socket domain w).
Definition close (fd : Z) : ST W unit := st_modify (sys_close fd).
Definition getaddrinfo (host : list Z) (service : option (list Z)) (family flags : Z)
    : ST W (Z * list addrinfo) := fun w => Ok (sys_getaddrinfo host service family flags w).
Definition freeaddrinfo (l : list addrinfo) : ST W unit := st_modify (sys_freeaddrinfo l).
Definition get_errno : ST W Z := fun w => Ok (errno w, w).

(** [ANET_ERR] when a call's result is negative. *)
Definition checked (c : plain_call) : ST W Z :=
  r ← plain c; mret (if r =? -1 then ANET_ERR else ANET_OK).

Definition anetNonBlock (fd : Z) : ST W Z :=
  flags ← plain (GetFl fd);
  if flags =? -1 then mret ANET_ERR else checked (SetFl fd (Z.lor flags O_NONBLOCK)).

Definition anetKeepAlive (fd interval : Z) : ST W Z :=
  r ← plain (SetSockOpt fd SOL_SOCKET SO_KEEPALIVE 1);
  if r =? -1 then mret ANET_ERR
  else
    r ← plain (SetSockOpt fd IPPROTO_TCP TCP_KEEPIDLE interval);
    if r <? 0 then mret ANET_ERR
    else
      let val := Z.quot interval 3 in
      let val := if val =? 0 then 1 else val in
      r ← plain (SetSockOpt fd IPPROTO_TCP TCP_KEEPINTVL val);
      if r <? 0 then mret ANET_ERR
      else
        r ← plain (SetSockOpt fd IPPROTO_TCP TCP_KEEPCNT 3);
        mret (if r <? 0 then ANET_ERR else ANET_OK).

Definition anetSetTcpNoDelay (fd val : Z) : ST W Z := checked (SetSockOpt fd IPPROTO_TCP TCP_NODELAY val).
Definition anetEnableTcpNoDelay (fd : Z) : ST W Z := anetSetTcpNoDelay fd 1.
Definition anetDisableTcpNoDelay (fd : Z) : ST W Z := anetSetTcpNoDelay fd 0.
Definition anetSetSendBuffer (fd buffsize : Z) : ST W Z := checked (SetSockOpt fd SOL_SOCKET SO_SNDBUF buffsize).
Definition anetTcpKeepAlive (fd : Z) : ST W Z := checked (SetSockOpt fd SOL_SOCKET SO_KEEPALIVE 1).
Definition anetSetReuseAddr (fd : Z) : ST W Z := checked (SetSockOpt fd SOL_SOCKET SO_REUSEADDR 1).

(** inet_ntop(3) into a block of [len] bytes: nothing is written when it is short. *)
Definition inet_ntop (sa : sockaddr) (len : Z) : option (list Z) :=
  if zlen (sa_text sa) <? len then Some (sa_text sa) else None.

Definition anetGenericResolve (host : list Z) (ipbuf_len flags : Z) : ST W (Z * option (list Z)) :=
  r ← getaddrinfo host None AF_UNSPEC (if negb (Z.land flags ANET_IP_ONLY =? 0) then AI_NUMERICHOST else 0);
  if negb (r.1 =? 0) then mret (ANET_ERR, None)
  else
    info ← st_lift (deref (head r.2));
    _ ← freeaddrinfo r.2;
    mret (ANET_OK, inet_ntop (ai_addr info) ipbuf_len).

Definition anetResolve (host : list Z) (ipbuf_len : Z) : ST W (Z * option (list Z)) :=
  anetGenericResolve host ipbuf_len ANET_NONE.
Definition anetResolveIP (host : list Z) (ipbuf_len : Z) : ST W (Z * option (list Z)) :=
  anetGenericResolve host ipbuf_len ANET_IP_ONLY.

Definition anetCreateSocket (domain : Z) : ST W Z :=
  s ← socket domain;
  if s =? -1 then mret ANET_ERR
  else
    r ← anetSetReuseAddr s;
    if r =? ANET_ERR then _ ← close s; mret ANET_ERR else mret s.

(** The loop over the addresses, with what the labels [error] and [end] do to [s]. *)
Fixpoint connect_loop (flags : Z) (ps : list addrinfo) : ST W Z :=
  match ps with
  | [] => mret ANET_ERR
  | p :: ps =>
    let nonblock := negb (Z.land flags ANET_CONNECT_NONBLOCK =? 0) in
    s ← socket (ai_family p);
    if s =? -1 then connect_loop flags ps
    else
      r ← anetSetReuseAddr s;
      if r =? ANET_ERR then _ ← close s; mret ANET_ERR
      else
        r ← (if nonblock then anetNonBlock s else mret ANET_OK);
        if negb (r =? ANET_OK) then _ ← close s; mret ANET_ERR
        else
          r ← plain (Connect s (ai_addr p));
          if r =? -1 then
            e ← get_errno;
            if (e =? EINPROGRESS) && nonblock then mret s
            else _ ← close s; connect_loop flags ps
          else mret s
  end.

Definition port_text (port : Z) : list Z := snprintf 6 (print_d port).

Definition anetTcpGenericConnect (addr : list Z) (port flags : Z) : ST W Z :=
  r ← getaddrinfo addr (Some (port_text port)) AF_UNSPEC 0;
  if negb (r.1 =? 0) then mret ANET_ERR
  else s ← connect_loop flags r.2; _ ← freeaddrinfo r.2; mret s.

Definition anetTcpConnect (addr : list Z) (port : Z) : ST W Z :=
  anetTcpGenericConnect addr port ANET_CONNECT_NONE.
Definition anetTcpNonBlockConnect (addr : list Z) (port : Z) : ST W Z :=
  anetTcpGenericConnect addr port ANET_CONNECT_NONBLOCK.

(** [strncpy] into [sun_path], which has 108 bytes. *)
Definition sun_path (path : list Z) : sockaddr := Sockaddr AF_LOCAL (take 107 path) 0.

Definition anetUnixGenericConnect (path : list Z) (flags : Z) : ST W Z :=
  let nonblock := negb (Z.land flags ANET_CONNECT_NONBLOCK =? 0) in
  s ← anetCreateSocket AF_LOCAL;
  if s =? ANET_ERR then mret ANET_ERR
  else
    r ← (if nonblock then anetNonBlock s else mret ANET_OK);
    if negb (r =? ANET_OK) then mret ANET_ERR
    else
      r ← plain (Connect s (sun_path path));
      if r =? -1 then
        e ← get_errno;
        if (e =? EINPROGRESS) && nonblock then mret s
        else _ ← close s; mret ANET_ERR
      else mret s.

Definition anetUnixConnect (path : list Z) : ST W Z := anetUnixGenericConnect path ANET_CONNECT_NONE.
Definition anetUnixNonBlockConnect (path : list Z) : ST W Z := anetUnixGenericConnect path ANET_CONNECT_NONBLOCK.

(** The loops that read or write [count] bytes; every turn moves at least one. *)
Fixpoint read_loop (fuel : nat) (fd count : Z) (got : list Z) : ST W (Z * list Z) :=
  match fuel with
  | O => st_fault OutOfFuel
  | S fuel =>
    if zlen got =? count then mret (zlen got, got)
    else
      r ← (fun w => Ok (sys_read fd (count - zlen got) w));
      let '(nread, bs) := r in
      if nread =? 0 then mret (zlen got, got)
      else if nread =? -1 then mret (-1, got)
      else read_loop fuel fd count (got ++ bs)
  end.

Definition anetRead (fd count : Z) : ST W (Z * list Z) := read_loop (S (Z.to_nat count)) fd count [].

Fixpoint write_loop (fuel : nat) (fd : Z) (buf : list Z) (totlen : Z) : ST W Z :=
  match fuel with
  | O => st_fault OutOfFuel
  | S fuel =>
    match buf with
    | [] => mret totlen
    | _ =>
      nwritten ← (fun w => Ok (sys_write fd buf w));
      if nwritten =? 0 then mret totlen
      else if nwritten =? -1 then mret (-1)
      else write_loop fuel fd (drop (Z.to_nat nwritten) buf) (totlen + nwritten)
    end
  end.

Definition anetWrite (fd : Z) (buf : list Z) : ST W Z := write_loop (S (length buf)) fd buf 0.

Definition anetListen (s : Z) (sa : sockaddr) (backlog : Z) : ST W Z :=
  r ← plain (Bind s sa);
  if r =? -1 then _ ← close s; mret ANET_ERR
  else
    r ← plain (Listen s backlog);
    if r =? -1 then _ ← close s; mret ANET_ERR else mret ANET_OK.

Definition anetV6Only (s : Z) : ST W Z :=
  r ← plain (SetSockOpt s IPPROTO_IPV6 IPV6_V6ONLY 1);
  if r =? -1 then _ ← close s; mret ANET_ERR else mret ANET_OK.

Fixpoint server_loop (af backlog : Z) (ps : list addrinfo) : ST W Z :=
  match ps with
  | [] => mret ANET_ERR
  | p :: ps =>
    s ← socket (ai_family p);
    if s =? -1 then server_loop af backlog ps
    else
      r ← (if af =? AF_INET6 then anetV6Only s else mret ANET_OK);
      if r =? ANET_ERR then mret ANET_ERR
      else
        r ← anetSetReuseAddr s;
        if r =? ANET_ERR then mret ANET_ERR
        else
          r ← anetListen s (ai_addr p) backlog;
          if r =? ANET_ERR then mret ANET_ERR else mret s
  end.

Definition _anetTcpServer (port : Z) (bindaddr : list Z) (af backlog : Z) : ST W Z :=
  r ← getaddrinfo bindaddr (Some (port_text port)) af AI_PASSIVE;
  if negb (r.1 =? 0) then mret ANET_ERR
  else s ← server_loop af backlog r.2; _ ← freeaddrinfo r.2; mret s.

Definition anetTcpServer (port : Z) (bindaddr : list Z) (backlog : Z) : ST W Z :=
  _anetTcpServer port bindaddr AF_INET backlog.
Definition anetTcp6Server (port : Z) (bindaddr : list Z) (backlog : Z) : ST W Z :=
  _anetTcpServer port bindaddr AF_INET6 backlog.

Definition anetUnixServer (path : list Z) (perm backlog : Z) : ST W Z :=
  s ← anetCreateSocket AF_LOCAL;
  if s =? ANET_ERR then mret ANET_ERR
  else
    r ← anetListen s (sun_path path) backlog;
    if r =? ANET_ERR then mret ANET_ERR
    else
      _ ← (if negb (perm =? 0) then _ ← plain (Chmod (take 107 path) perm); mret tt else mret tt);
      mret s.

(** [fuel] bounds how often the call may be interrupted. *)
Fixpoint anetGenericAccept (fuel : nat) (s : Z) : ST W (Z * sockaddr) :=
  match fuel with
  | O => st_fault OutOfFuel
  | S fuel =>
    r ← (fun w => Ok (sys_accept s w));
    let '(fd, sa) := r in
    if fd =? -1 then
      e ← get_errno;
      if e =? EINTR then anetGenericAccept fuel s else mret (ANET_ERR, sa)
    else mret (fd, sa)
  end.

(** The descriptor, and the address and the port of the peer when there is one. *)
Definition anetTcpAccept (fuel : nat) (s ip_len : Z) : ST W (Z * option (option (list Z) * Z)) :=
  r ← anetGenericAccept fuel s;
  let '(fd, sa) := r in
  mret (if fd =? ANET_ERR then (ANET_ERR, None) else (fd, Some (inet_ntop sa ip_len, sa_port sa))).

Definition anetUnixAccept (fuel : nat) (s : Z) : ST W Z :=
  r ← anetGenericAccept fuel s; mret (if r.1 =? ANET_ERR then ANET_ERR else r.1).

Definition anetPeerToString (fd ip_len : Z) : ST W (Z * option (list Z) * Z) :=
  r ← (fun w => Ok (sys_peername fd w));
  let '(ret, sa) := r in
  mret (if ret =? -1 then (-1, Some [63], 0) else (0, inet_ntop sa ip_len, sa_port sa)).

Definition anetSockName (fd ip_len : Z) : ST W (Z * option (list Z) * Z) :=
  r ← (fun w => Ok (sys_sockname fd w));
  let '(ret, sa) := r in
  mret (if ret =? -1 then (-1, Some [63], 0) else (0, inet_ntop sa ip_len, sa_port sa)).
End Anet.

(** ** Descriptors are neither lost nor left open *)
Section descriptors.
  Context {W : Type} `{SysLaws W}.
  Implicit Types w : W.

(** The same descriptors are open and the same lists are unfreed. *)
Definition same w w' : Prop := open_fds w' = open_fds w /\ infos w' = infos w.

(** [s] is open in [w], and was not in [w0]. *)
Definition holds w0 (s : Z) w : Prop :=
  0 <= s /\ (s ∉ open_fds w0) /\ open_fds w = {[s]} ∪ open_fds w0 /\ infos w = infos w0.

Lemma same_trans w1 w2 w3 : same w1 w2 -> same w2 w3 -> same w1 w3.
Proof. intros [? ?] [? ?]. split; congruence. Qed.

Lemma holds_same w0 s w w' : holds w0 s w -> same w w' -> holds w0 s w'.
Proof. intros (? & ? & ? & ?) [? ?]. split_and!; congruence. Qed.

(** Computations that change neither, whatever they return. *)
Definition quiet {A} (m : ST W A) : Prop :=
  forall F (Q : A -> W -> Prop) w, (forall r w', same w w' -> Q r w') -> wp F Q m w.

Lemma quiet_plain c : quiet (plain c).
Proof.
  intros F Q w HQ. unfold wp, plain. pose proof (plain_fds c w) as E1. pose proof (plain_infos c w) as E2.
  destruct (sys_plain c w) as [r w']. by apply HQ.
Qed.

Lemma quiet_ret {A} (a : A) : quiet (mret a : ST W A).
Proof. intros F Q w HQ. by apply HQ. Qed.

Lemma quiet_bind {A B} (m : ST W A) (k : A -> ST W B) : quiet m -> (forall a, quiet (k a)) -> quiet (m ≫= k).
Proof.
  intros Hm Hk F Q w HQ. apply wp_bind, Hm. intros a w1 S1. apply Hk. intros b w2 S2.
  apply HQ. by eapply same_trans.
Qed.

Lemma quiet_if {A} (b : bool) (m1 m2 : ST W A) : quiet m1 -> quiet m2 -> quiet (if b then m1 else m2).
Proof. by destruct b. Qed.

Hint Resolve quiet_plain quiet_ret : core.

Lemma checked_quiet c : quiet (checked c).
Proof. apply quiet_bind; auto. Qed.
Hint Resolve checked_quiet : core.

Lemma anetNonBlock_quiet fd : quiet (anetNonBlock fd).
Proof. apply quiet_bind; [auto |]. intros a. apply quiet_if; auto. Qed.
Hint Resolve anetNonBlock_quiet : core.

Lemma anetKeepAlive_quiet fd interval : quiet (anetKeepAlive fd interval).
Proof. repeat first [apply quiet_if; [auto |] | apply quiet_bind; [auto | intros ?] | auto]. Qed.

Lemma wp_socket F d (Q : Z -> W -> Prop) w :
  (forall w', same w w' -> Q (-1) w') -> (forall s w', holds w s w' -> Q s w') -> wp F Q (socket d) w.
Proof.
  intros H1 H2. unfold wp, socket. pose proof (socket_fds d w) as Hf. pose proof (socket_infos d w) as Hi.
  destruct (sys_socket d w) as [r w']. cbn in *.
  destruct Hf as [[-> Hf] | (Hr & Hn & Hf)]; [by apply H1 | by apply H2].
Qed.

Lemma wp_close F s (Q : unit -> W -> Prop) w0 w :
  holds w0 s w -> (forall w', same w0 w' -> Q tt w') -> wp F Q (close s) w.
Proof.
  intros (Hs & Hn & Hf & Hi) HQ. apply wp_modify, HQ. split; [| by rewrite close_infos].
  rewrite close_fds, Hf. apply set_eq. intros x.
  rewrite elem_of_difference, elem_of_union, !elem_of_singleton. split.
  - by intros [[-> | ?] ?].
  - intros Hx. split; [by right |]. by intros ->.
Qed.

(** What a function that makes a socket leaves open: the descriptor it returns, or
    nothing. *)
Definition opens (m : ST W Z) : Prop :=
  forall w, wp (fun f => f = OutOfFuel) (fun r w' => infos w' = infos w /\ opened (open_fds w) r (open_fds w')) m w.

(** Or -1, and a descriptor that was opened is left open, which [refused] accounts for. *)
Definition lost (refused : Z -> Prop) w (r : Z) w' : Prop :=
  r = -1 /\ exists s, holds w s w' /\ refused s.

Definition opens_or_loses (refused : Z -> Prop) (m : ST W Z) : Prop :=
  forall w, wp (fun f => f = OutOfFuel)
    (fun r w' => infos w' = infos w /\ opened (open_fds w) r (open_fds w') \/ lost refused w r w') m w.

(** Setting SO_REUSEADDR on [s] is refused; making it non-blocking is. *)
Definition reuse_refused (s : Z) : Prop :=
  exists w, (sys_plain (SetSockOpt s SOL_SOCKET SO_REUSEADDR 1) w).1 = -1.
Definition nonblock_refused (s : Z) : Prop :=
  exists w, (sys_plain (GetFl s) w).1 = -1 \/
    exists flags, (sys_plain (SetFl s (Z.lor flags O_NONBLOCK)) w).1 = -1.

Definition made w (r : Z) w' : Prop := infos w' = infos w /\ opened (open_fds w) r (open_fds w').

Lemma made_none w w' : same w w' -> made w (-1) w'.
Proof. intros [? ?]. split; [done | by left]. Qed.
Lemma made_one w s w' : holds w s w' -> made w s w'.
Proof. intros (? & ? & ? & ?). split; [done | by right]. Qed.
Lemma made_same w0 w r w' : same w0 w -> made w r w' -> made w0 r w'.
Proof. intros [E1 E2] [? ?]. split; [congruence | by rewrite E1 in *]. Qed.

Lemma holds_pos w0 s w : holds w0 s w -> (s =? -1) = false.
Proof. intros (? & _). by apply Z.eqb_neq; lia. Qed.

(** Closing what is held and giving up, or going on with something else. *)
Lemma close_then F w0 s w (m : ST W Z) :
  holds w0 s w -> (forall w', same w0 w' -> wp F (made w0) m w') -> wp F (made w0) (_ ← close s; m) w.
Proof. intros Hh Hm. apply wp_bind. by eapply wp_close. Qed.

Lemma fail_made F w0 w : same w0 w -> wp F (made w0) (mret ANET_ERR : ST W Z) w.
Proof. intros S. by apply wp_ret, made_none. Qed.
Hint Resolve fail_made made_one made_none holds_same : core.

Lemma anetCreateSocket_made F d w : wp F (made w) (anetCreateSocket d) w.
Proof.
  apply wp_bind, wp_socket; [eauto | intros s w1 H1]. rewrite (holds_pos _ _ _ H1).
  apply wp_bind, checked_quiet. intros r w2 S2. destruct (r =? ANET_ERR).
  - eapply close_then; eauto.
  - apply wp_ret; eauto.
Qed.

Lemma connect_loop_made F flags ps w0 w : same w0 w -> wp F (made w0) (connect_loop flags ps) w.
Proof.
  revert w. induction ps as [| p ps IH]; intros w S0; cbn [connect_loop]; [eauto |]. cbv zeta.
  apply wp_bind, wp_socket; [intros w1 S1; apply IH; by eapply same_trans | intros s w1 H1].
  assert (H1' : holds w0 s w1) by (destruct S0 as [E1 E2], H1 as (? & ? & ? & ?); split_and!; congruence).
  rewrite (holds_pos _ _ _ H1'). apply wp_bind, checked_quiet. intros r w2 S2.
  destruct (r =? ANET_ERR); [eapply close_then; eauto |].
  apply wp_bind. apply quiet_if; [auto | auto |]. intros r2 w3 S3.
  pose proof (holds_same _ _ _ _ (holds_same _ _ _ _ H1' S2) S3) as H3.
  destruct (negb _); [eapply close_then; eauto |].
  apply wp_bind, quiet_plain. intros r3 w4 S4. destruct (r3 =? -1); [| apply wp_ret; eauto].
  apply wp_bind. eapply wp_Ok; [reflexivity |].
  destruct (_ && _); [apply wp_ret; eauto | eapply close_then; eauto].
Qed.

(** getaddrinfo and the release of its result around a loop. *)
Lemma with_addresses h sv f fl (m : list addrinfo -> ST W Z) w F (Q : Z -> W -> Prop) :
  (forall ps w1, open_fds w1 = open_fds w -> infos w1 = S (infos w) ->
    wp F (fun r w2 => infos w2 = S (infos w) /\
      forall w3, open_fds w3 = open_fds w2 -> infos w3 = infos w -> Q r w3) (m ps) w1) ->
  (forall w1, same w w1 -> Q ANET_ERR w1) ->
  wp F Q (r ← getaddrinfo h sv f fl; if negb (r.1 =? 0) then mret ANET_ERR else s ← m r.2; _ ← freeaddrinfo r.2; mret s) w.
Proof.
  intros Hm HQ. apply wp_bind. unfold wp at 1, getaddrinfo.
  pose proof (getaddrinfo_fds h sv f fl w) as Ef. pose proof (getaddrinfo_infos h sv f fl w) as Ei.
  destruct (sys_getaddrinfo h sv f fl w) as [[r ps] w1]. cbn [fst snd] in *.
  destruct (r =? 0); cbn [negb]; [| by apply wp_ret, HQ].
  apply wp_bind. eapply wp_mono; [by apply Hm |]. intros s w2 [Hi HQ2].
  apply wp_bind, wp_modify, wp_ret, HQ2; [apply free_fds | by rewrite free_infos, Hi].
Qed.

Lemma generic_connect_opens addr port flags : opens (anetTcpGenericConnect addr port flags).
Proof.
  intros w. apply with_addresses; [| by apply made_none]. intros ps w1 Ef Ei.
  eapply wp_mono; [by apply (connect_loop_made _ flags ps w1) |]. intros r w2 [Hi Ho].
  split; [congruence |]. intros w3 E3 I3. split; [done |]. by rewrite E3, <- Ef.
Qed.

Lemma checked_answers c F (Q : Z -> W -> Prop) w :
  (forall w', same w w' -> Q ANET_OK w') ->
  (forall w', same w w' -> (sys_plain c w).1 = -1 -> Q ANET_ERR w') -> wp F Q (checked c) w.
Proof.
  intros H1 H2. unfold checked, wp, mbind, st_bind, plain.
  pose proof (plain_fds c w) as Ef. pose proof (plain_infos c w) as Ei.
  destruct (sys_plain c w) as [r w'] eqn:Ec. cbn in *.
  destruct (Z.eqb_spec r (-1)); [by apply H2 | by apply H1].
Qed.

Lemma anetNonBlock_answers fd F (Q : Z -> W -> Prop) w :
  (forall w', same w w' -> Q ANET_OK w') ->
  (forall w', same w w' -> nonblock_refused fd -> Q ANET_ERR w') -> wp F Q (anetNonBlock fd) w.
Proof.
  intros H1 H2. unfold anetNonBlock. apply wp_bind. unfold wp at 1, plain.
  pose proof (plain_fds (GetFl fd) w) as Ef. pose proof (plain_infos (GetFl fd) w) as Ei.
  destruct (sys_plain (GetFl fd) w) as [flags w1] eqn:Ec. cbn [snd] in *.
  assert (S1 : same w w1) by done. destruct (Z.eqb_spec flags (-1)) as [-> | Hn].
  - apply wp_ret, H2; [done |]. exists w. left. by rewrite Ec.
  - apply checked_answers; intros w2 S2; [| intros E]; [apply H1 | apply H2]; try by eapply same_trans.
    exists w1. right. by exists flags.
Qed.

(** Connecting to a path: the socket is lost when it cannot be made non-blocking. *)
Lemma unix_connect_opens path flags w F :
  wp F (fun r w' => made w r w' \/
    (Z.land flags ANET_CONNECT_NONBLOCK =? 0) = false /\ lost nonblock_refused w r w')
    (anetUnixGenericConnect path flags) w.
Proof.
  apply wp_bind. eapply wp_mono; [apply anetCreateSocket_made |]. intros s w1 [Hi Ho].
  destruct Ho as [[-> Ho] | (Hs & Hn & Ho)]; [apply wp_ret; left; by split; [| left] |].
  assert (H1 : holds w s w1) by (split_and!; done). change ANET_ERR with (-1). rewrite (holds_pos _ _ _ H1).
  assert (Hrest : forall w2, holds w s w2 -> wp F (fun r w' => made w r w' \/
    (Z.land flags ANET_CONNECT_NONBLOCK =? 0) = false /\ lost nonblock_refused w r w')
    (r ← plain (Connect s (sun_path path));
      if r =? -1 then e ← get_errno;
        if (e =? EINPROGRESS) && negb (Z.land flags ANET_CONNECT_NONBLOCK =? 0) then mret s
        else _ ← close s; mret ANET_ERR
      else mret s) w2).
  { intros w2 H2. apply wp_bind, quiet_plain. intros r w3 S3. destruct (r =? -1); [| apply wp_ret; left; eauto].
    apply wp_bind. eapply wp_Ok; [reflexivity |]. destruct (_ && _); [apply wp_ret; left; eauto |].
    eapply wp_mono; [eapply close_then; eauto | by left]. }
  cbv zeta. apply wp_bind. destruct (Z.land flags ANET_CONNECT_NONBLOCK =? 0); cbn [negb].
  - by apply wp_ret, Hrest.
  - apply anetNonBlock_answers; intros w2 S2; [by apply Hrest; eauto |]. intros Hr.
    apply wp_ret. right. split; [done |]. split; [done |]. exists s. split; [by eauto | done].
Qed.

Lemma anetUnixConnect_opens path : opens (anetUnixConnect path).
Proof.
  intros w. eapply wp_mono; [apply unix_connect_opens |]. intros r w' [Hm | [Hf _]]; [exact Hm | discriminate].
Qed.

Lemma anetUnixNonBlockConnect_opens path : opens_or_loses nonblock_refused (anetUnixNonBlockConnect path).
Proof.
  intros w. eapply wp_mono; [apply unix_connect_opens |]. intros r w' [Hm | [_ Hl]]; [by left | by right].
Qed.

Lemma anetListen_spec s sa backlog w0 w F (Q : Z -> W -> Prop) :
  holds w0 s w -> (forall w', same w0 w' -> Q ANET_ERR w') -> (forall w', holds w0 s w' -> Q ANET_OK w') ->
  wp F Q (anetListen s sa backlog) w.
Proof.
  intros H1 Hf Hs. apply wp_bind, quiet_plain. intros r w2 S2. pose proof (holds_same _ _ _ _ H1 S2) as H2.
  destruct (r =? -1); [apply wp_bind; eapply wp_close; [exact H2 |]; intros; by apply wp_ret, Hf |].
  apply wp_bind, quiet_plain. intros r3 w3 S3. pose proof (holds_same _ _ _ _ H2 S3) as H3.
  destruct (r3 =? -1); [apply wp_bind; eapply wp_close; [exact H3 |]; intros; by apply wp_ret, Hf |].
  by apply wp_ret, Hs.
Qed.

Lemma anetV6Only_spec s w0 w F (Q : Z -> W -> Prop) :
  holds w0 s w -> (forall w', same w0 w' -> Q ANET_ERR w') -> (forall w', holds w0 s w' -> Q ANET_OK w') ->
  wp F Q (anetV6Only s) w.
Proof.
  intros H1 Hf Hs. apply wp_bind, quiet_plain. intros r w2 S2. pose proof (holds_same _ _ _ _ H1 S2) as H2.
  destruct (r =? -1); [| by apply wp_ret, Hs].
  apply wp_bind. eapply wp_close; [exact H2 |]. intros. by apply wp_ret, Hf.
Qed.

Lemma anetUnixServer_opens path perm backlog : opens (anetUnixServer path perm backlog).
Proof.
  intros w. apply wp_bind. eapply wp_mono; [apply anetCreateSocket_made |]. intros s w1 [Hi Ho].
  destruct Ho as [[-> Ho] | (Hs & Hn & Ho)]; [apply wp_ret; by split; [| left] |].
  assert (H1 : holds w s w1) by (split_and!; done). change ANET_ERR with (-1). rewrite (holds_pos _ _ _ H1).
  apply wp_bind. eapply anetListen_spec; [exact H1 | |].
  - intros w' S'. by apply wp_ret, made_none.
  - intros w2 H2. cbn [ANET_OK Z.eqb]. apply wp_bind, quiet_if; [apply quiet_bind; auto | auto |].
    intros _ w3 S3. apply wp_ret, made_one; eauto.
Qed.

Lemma server_loop_made F af backlog ps w0 w : same w0 w ->
  wp F (fun r w' => made w0 r w' \/ lost reuse_refused w0 r w') (server_loop af backlog ps) w.
Proof.
  revert w. induction ps as [| p ps IH]; intros w S0; cbn [server_loop]; [left; eauto |].
  apply wp_bind, wp_socket; [intros w1 S1; apply IH; by eapply same_trans | intros s w1 H1].
  assert (H1' : holds w0 s w1) by (destruct S0 as [E1 E2], H1 as (? & ? & ? & ?); split_and!; congruence).
  rewrite (holds_pos _ _ _ H1').
  assert (Hrest : forall w2, holds w0 s w2 -> wp F (fun r w' => made w0 r w' \/ lost reuse_refused w0 r w')
    (r ← anetSetReuseAddr s; if r =? ANET_ERR then mret ANET_ERR
     else r ← anetListen s (ai_addr p) backlog; if r =? ANET_ERR then mret ANET_ERR else mret s) w2).
  { intros w2 H2. apply wp_bind, checked_answers; intros w3 S3.
    2: { intros Hr. apply wp_ret. right. split; [done |]. exists s. split; [by eauto | by exists w2]. }
    cbn [ANET_OK ANET_ERR Z.eqb]. apply wp_bind. eapply anetListen_spec; [eauto | |].
    - intros w4 S4. apply wp_ret. left. by apply made_none.
    - intros w4 H4. apply wp_ret. left. by apply made_one. }
  apply wp_bind. destruct (af =? AF_INET6).
  - eapply anetV6Only_spec; [exact H1' | |].
    + intros w2 S2. apply wp_ret. left. by apply made_none.
    + intros w2 H2. by apply Hrest.
  - by apply wp_ret, Hrest.
Qed.

Lemma server_opens port bindaddr af backlog : opens_or_loses reuse_refused (_anetTcpServer port bindaddr af backlog).
Proof.
  intros w. apply with_addresses; [| left; by apply made_none]. intros ps w1 Ef Ei.
  eapply wp_mono; [by apply (server_loop_made _ af backlog ps w1) |]. intros r w2 [[Hi Ho] | (Er & s & Hh & Hr)].
  - split; [congruence |]. intros w3 E3 I3. left. split; [done |]. by rewrite E3, <- Ef.
  - destruct Hh as (? & ? & Hf & Hi). split; [congruence |]. intros w3 E3 I3. right. split; [done |].
    exists s. split; [| done]. by split_and!; [| rewrite <- Ef | rewrite E3, <- Ef |].
Qed.

(** Nothing is lost when the call is never refused. *)
Lemma loses_nothing refused m : (forall s, refused s -> False) -> opens_or_loses refused m -> opens m.
Proof.
  intros Hr Hm w. eapply wp_mono; [apply Hm |]. intros r w' [Ho | (_ & s & _ & Hs)]; [done |]. by destruct (Hr s).
Qed.

Lemma anetGenericAccept_made fuel s w :
  wp (fun f => f = OutOfFuel) (fun r w' => made w r.1 w') (anetGenericAccept fuel s) w.
Proof.
  revert w. induction fuel as [| fuel IH]; intros w; [done |]. cbn [anetGenericAccept].
  apply wp_bind. unfold wp at 1. pose proof (accept_fds s w) as Hf. pose proof (accept_infos s w) as Hi.
  destruct (sys_accept s w) as [[fd sa] w1]. cbn [fst snd] in *. destruct (Z.eqb_spec fd (-1)) as [-> |].
  - destruct Hf as [[_ Hf] | [? _]]; [| lia]. assert (S1 : same w w1) by done.
    apply wp_bind. eapply wp_Ok; [reflexivity |]. destruct (_ =? EINTR).
    + eapply wp_mono; [apply IH |]. intros a w2 Hm. by eapply made_same.
    + by apply wp_ret, made_none.
  - by apply wp_ret.
Qed.
End descriptors.

(** A world for concrete runs: [refuse] says which calls answer -1, a write takes at
    most [w_chunk] bytes. *)
Record world (refuse : plain_call -> bool) := World {
  w_fds : gset Z;
  w_infos : nat;
  w_written : gmap Z (list Z);
  w_chunk : nat;
}.
Arguments World {refuse} _ _ _ _.
Arguments w_fds {refuse} _.
Arguments w_infos {refuse} _.
Arguments w_written {refuse} _.
Arguments w_chunk {refuse} _.

Section world.
  Context {refuse : plain_call -> bool}.

Definition next_fd (w : world refuse) : Z := Z.of_nat (fresh (set_map Z.to_nat (w_fds w) : gset nat)).
Definition with_fds (w : world refuse) (fds : gset Z) : world refuse := World fds (w_infos w) (w_written w) (w_chunk w).
Definition with_infos (w : world refuse) (k : nat) : world refuse := World (w_fds w) k (w_written w) (w_chunk w).

Lemma next_fd_new w : next_fd w ∉ w_fds w.
Proof.
  intros Hin. unfold next_fd in Hin.
  apply (is_fresh (set_map Z.to_nat (w_fds w) : gset nat)). apply elem_of_map.
  eexists. split; [| exact Hin]. by rewrite Nat2Z.id.
Qed.

Definition localhost : sockaddr := Sockaddr AF_INET [49] 80.

#[export] Instance world_sys : Sys (world refuse) := {
  sys_plain c w := (if refuse c then -1 else 0, w);
  sys_socket _ w := (next_fd w, with_fds w ({[next_fd w]} ∪ w_fds w));
  sys_close fd w := with_fds w (w_fds w ∖ {[fd]});
  sys_accept _ w := (next_fd w, localhost, with_fds w ({[next_fd w]} ∪ w_fds w));
  sys_getaddrinfo _ _ _ _ w := (0, [Addrinfo AF_INET localhost], with_infos w (S (w_infos w)));
  sys_freeaddrinfo _ w := with_infos w (pred (w_infos w));
  sys_read _ _ w := (0, [], w);
  sys_write fd bs w := (Z.of_nat (w_chunk w `min` length bs),
    World (w_fds w) (w_infos w)
      (<[fd := default [] (w_written w !! fd) ++ take (w_chunk w) bs]> (w_written w)) (w_chunk w));
  sys_peername _ w := (0, localhost, w);
  sys_sockname _ w := (0, localhost, w);
  errno _ := 0;
  open_fds := w_fds;
  infos := w_infos;
  written w fd := default [] (w_written w !! fd);
}.

#[export] Instance world_laws : SysLaws (world refuse).
Proof.
  assert (Hnew : forall w, opened (w_fds w) (next_fd w) ({[next_fd w]} ∪ w_fds w)).
  { intros w. right. split; [unfold next_fd; lia |]. split; [apply next_fd_new | done]. }
  split; try done; try (intros; apply Hnew); try (intros [] w; done).
  - intros fd bs w. cbn. unfold zlen. lia.
  - intros fd bs w. cbn. rewrite lookup_insert_eq. cbn. f_equal. rewrite Nat2Z.id.
    destruct (Nat.le_ge_cases (w_chunk w) (length bs)).
    + by rewrite Nat.min_l.
    + rewrite Nat.min_r by done. by rewrite !take_ge.
Qed.
End world.

(** ** Properties *)

(** C23: sockets are neither lost nor left open, but on two paths.  Whatever the
    system calls answer, connecting to an address (blocking or not), connecting to a
    path, serving a path and accepting return a descriptor that was not open before
    and is the only one more that is open afterwards, or -1 and then none is: every
    error path closes what it opened, and every list of addresses is freed.  The
    non-blocking connection to a path and the servers of a port do the same, except
    that they may return -1 with their socket left open: the former only when that
    socket could not be made non-blocking, the latter only when SO_REUSEADDR was
    refused on it.  So all do it when those calls are not refused. *)
Theorem anet_opens_exactly {W} `{SysLaws W} :
  (forall addr port, opens (anetTcpConnect addr port) /\ opens (anetTcpNonBlockConnect addr port)) /\
  (forall path, opens (anetUnixConnect path)) /\
  (forall path perm backlog, opens (anetUnixServer path perm backlog)) /\
  (forall fuel s, opens (anetUnixAccept fuel s)) /\
  (forall fuel s len, opens (r ← anetTcpAccept fuel s len; mret r.1)) /\
  (forall path, opens_or_loses nonblock_refused (anetUnixNonBlockConnect path)) /\
  (forall port addr backlog,
    opens_or_loses reuse_refused (anetTcpServer port addr backlog) /\
    opens_or_loses reuse_refused (anetTcp6Server port addr backlog)) /\
  ((forall s, nonblock_refused s -> False) -> forall path, opens (anetUnixNonBlockConnect path)) /\
  ((forall s, reuse_refused s -> False) -> forall port addr backlog,
    opens (anetTcpServer port addr backlog) /\ opens (anetTcp6Server port addr backlog)).
Proof.
  split_and!; try (intros; split; apply generic_connect_opens).
  - apply anetUnixConnect_opens.
  - apply anetUnixServer_opens.
  - intros fuel s w. apply wp_bind. eapply wp_mono; [apply anetGenericAccept_made |].
    intros [fd sa] w1 Hm. apply wp_ret. cbn in *. change ANET_ERR with (-1). by destruct (Z.eqb_spec fd (-1)) as [-> |].
  - intros fuel s len w. apply wp_bind, wp_bind. eapply wp_mono; [apply anetGenericAccept_made |].
    intros [fd sa] w1 Hm. apply wp_ret, wp_ret. cbn in *. change ANET_ERR with (-1). by destruct (Z.eqb_spec fd (-1)) as [-> |].
  - apply anetUnixNonBlockConnect_opens.
  - split; apply server_opens.
  - intros Hr path. eapply loses_nothing; [exact Hr | apply anetUnixNonBlockConnect_opens].
  - intros Hr port addr backlog. split; (eapply loses_nothing; [exact Hr | apply server_opens]).
Qed.

Definition world0 (refuse : plain_call -> bool) : world refuse := World ∅ 0 ∅ 2.

(** Worlds that refuse nothing, SO_REUSEADDR, and to make a socket non-blocking. *)
Definition grant (_ : plain_call) : bool := false.
Definition no_reuse (c : plain_call) : bool :=
  match c with SetSockOpt _ _ name _ => name =? SO_REUSEADDR | _ => false end.
Definition no_nonblock (c : plain_call) : bool :=
  match c with SetFl _ _ => true | _ => false end.

Lemma grant_reuse s : reuse_refused (W := world grant) s -> False.
Proof. intros [w Hw]. discriminate. Qed.

Lemma anet_opens_exactly_witness :
  wp (fun f => f = OutOfFuel) (fun r w' => infos w' = 0%nat /\ opened ∅ r (open_fds w'))
    (anetTcpNonBlockConnect [49] 80) (world0 no_reuse) /\
  wp (fun f => f = OutOfFuel) (fun r w' => infos w' = 0%nat /\ opened ∅ r (open_fds w'))
    (anetTcpServer 80 [49] 128) (world0 grant) /\
  wp (fun f => f = OutOfFuel) (fun r w' => infos w' = 0%nat /\ opened ∅ r (open_fds w') \/
      lost (nonblock_refused (W := world no_nonblock)) (world0 no_nonblock) r w')
    (anetUnixNonBlockConnect [47]) (world0 no_nonblock).
Proof.
  split; [| split].
  - exact (proj2 (proj1 anet_opens_exactly [49] 80) (world0 no_reuse)).
  - destruct (anet_opens_exactly (W := world grant)) as (_ & _ & _ & _ & _ & _ & _ & _ & Hs).
    exact (proj1 (Hs grant_reuse 80 [49] 128) (world0 grant)).
  - destruct (anet_opens_exactly (W := world no_nonblock)) as (_ & _ & _ & _ & _ & Hu & _).
    exact (Hu [47] (world0 no_nonblock)).
Defined.

(** Both exceptions are real: when the call is refused, -1 is returned and the
    descriptor stays open. *)
Lemma anetTcpServer_leaks :
  match anetTcpServer 80 [49] 128 (world0 no_reuse) with
  | Ok (r, w) => r = -1 /\ size (open_fds w) = 1%nat
  | Fault _ => False
  end.
Proof. by vm_compute. Qed.

Lemma anetUnixNonBlockConnect_leaks :
  match anetUnixNonBlockConnect [47] (world0 no_nonblock) with
  | Ok (r, w) => r = -1 /\ size (open_fds w) = 1%nat
  | Fault _ => False
  end.
Proof. by vm_compute. Qed.

(** [anetWrite] ends, and what reaches the descriptor is a prefix of the buffer
    in order: all of it, or what was written before a call that wrote nothing
    (then its length is returned) or failed (then -1 is). *)
Theorem anetWrite_prefix {W} `{SysLaws W} fd buf (w : W) :
  exists r w' k, anetWrite fd buf w = Ok (r, w') /\ written w' fd = written w fd ++ take k buf /\
    (k <= length buf)%nat /\
    (r = Z.of_nat k /\ (k = length buf \/ exists w1, (sys_write fd (drop k buf) w1).1 = 0) \/
     r = -1 /\ exists w1, (sys_write fd (drop k buf) w1).1 = -1).
Proof.
  unfold anetWrite. assert (Hg : forall fuel w buf0 tot, (length buf0 < fuel)%nat -> exists r w' k,
    write_loop fuel fd buf0 tot w = Ok (r, w') /\ written w' fd = written w fd ++ take k buf0 /\
    (k <= length buf0)%nat /\
    (r = tot + Z.of_nat k /\ (k = length buf0 \/ exists w1, (sys_write fd (drop k buf0) w1).1 = 0) \/
     r = -1 /\ exists w1, (sys_write fd (drop k buf0) w1).1 = -1)).
  2: { apply (Hg _ w buf 0). lia. }
  clear w buf. induction fuel as [| fuel IH]; intros w buf tot Hl; [lia |]. cbn [write_loop].
  destruct buf as [| b buf].
  { exists tot, w, 0%nat. split; [done |]. split; [by rewrite app_nil_r |]. split; [done |]. left.
    split; [lia | by left]. }
  set (bs := b :: buf) in *. unfold mbind, st_bind.
  pose proof (write_range fd bs w) as Hr. pose proof (write_stream fd bs w) as Hs.
  destruct (sys_write fd bs w) as [n w1] eqn:Ew. cbn [fst snd] in Hr, Hs.
  destruct (Z.eqb_spec n 0) as [-> |]; [| destruct (Z.eqb_spec n (-1)) as [-> |]].
  - exists tot, w1, 0%nat. split; [done |]. split; [exact Hs |]. split; [lia |]. left. split; [lia |]. right.
    exists w. by rewrite drop_0, Ew.
  - exists (-1), w1, 0%nat. split; [done |]. split; [exact Hs |]. split; [lia |]. right. split; [done |].
    exists w. by rewrite drop_0, Ew.
  - assert (Hn : (Z.to_nat n <= length bs)%nat) by (unfold zlen in Hr; lia).
    destruct (IH w1 (drop (Z.to_nat n) bs) (tot + n)) as (r & w' & k & E & Hw & Hk & Hc).
    { rewrite length_drop. lia. }
    rewrite length_drop in Hk, Hc. exists r, w', (Z.to_nat n + k)%nat. split; [exact E |].
    rewrite drop_drop in Hc. split; [| split; [lia |]].
    + rewrite Hw, Hs, <- app_assoc. f_equal. by rewrite <- take_take_drop.
    + destruct Hc as [[-> [Hk' | Hx]] | [-> Hx]]; [left; split; [lia | left; lia] | left; split; [lia | by right] | by right].
Qed.

Lemma anetWrite_prefix_witness :
  anetWrite 3 [1; 2; 3; 4; 5] (world0 grant) = Ok (5, World ∅ 0 {[3 := [1; 2; 3; 4; 5]]} 2) /\
  exists r w' k, anetWrite 3 [1; 2; 3; 4; 5] (world0 grant) = Ok (r, w') /\
    written w' 3 = take k [1; 2; 3; 4; 5].
Proof.
  split; [vm_compute; reflexivity |].
  destruct (anetWrite_prefix 3 [1; 2; 3; 4; 5] (world0 grant)) as (r & w' & k & E & Hw & _).
  exists r, w', k. split; [exact E | exact Hw].
Defined.
