(* ===== verification/Module.v ===== *)
(** * module.c: finding and opening the code of actors

    [_tryOpen] builds file names from the templates of the search path in a
    buffer on the stack; [moduleQuery] keeps the table of modules that were
    opened.  [dlopen], [dlsym] and the functions of a module are parameters. *)
From S2P Require Import Prelude CString.

Definition MAX_MODULE_TYPE : Z := 32.

Section Module.
  (** Handles of shared objects, functions in them. *)
  Context {H F : Type}.
  Variables (dlopen : list Z -> option H) (dlsym : H -> list Z -> option F).

Record module := Mod {
  m_name : list Z;
  m_module : option H;
  m_create : option F;
  m_init : option F;
  m_release : option F;
}.

(** [struct modules]; the table has [MAX_MODULE_TYPE] slots, in use below [count]. *)
Record modules := Modules {
  count : Z;
  path : list Z;
  tab : list module;
}.

(** How a search ends; [Exit1] is the call of [exit]. *)
Inductive opened := Opened (dl : H) | NotFound | Exit1.

(** The loop that skips semicolons. *)
Fixpoint skip_semicolons (p : list Z) : list Z :=
  match p with c :: p' => if c =? 59 then skip_semicolons p' else p | [] => [] end.

(** The loop that copies the template up to the mark. *)
Fixpoint copy_to_mark (fuel : nat) (i len : Z) (p tmp : list Z) : outcome (Z * list Z) :=
  match fuel with
  | O => Fault OutOfFuel
  | S fuel =>
    c ← aget p i;
    if negb (c =? 63) && (i <? len) then
      tmp ← aset tmp i c;
      copy_to_mark fuel (i + 1) len p tmp
    else mret (i, tmp)
  end.

(** The file name made from the template of [len] bytes at [p]; [None] when it has no mark. *)
Definition fill (sz len : Z) (name p : list Z) : outcome (option (list Z)) :=
  let tmp := replicate (Z.to_nat sz) 0 in
  '(i, tmp) ← copy_to_mark (S (Z.to_nat len)) 0 len p tmp;
  tmp ← acopy_in tmp i name;
  c ← aget p i;
  if c =? 63 then
    post ← strncpy_bytes (Z.to_nat (len - i - 1)) (drop (Z.to_nat (i + 1)) p);
    tmp ← acopy_in tmp (i + zlen name) post;
    f ← c_str tmp;
    mret (Some f)
  else mret None.

(** The [do] loop; [p] is the rest of the path, up to and with its zero, and
    [tried] are the names [dlopen] was called with. *)
Fixpoint try_loop (fuel : nat) (sz : Z) (name p : list Z) (tried : list (list Z)) : outcome (list (list Z) * opened) :=
  match fuel with
  | O => Fault OutOfFuel
  | S fuel =>
    let p := skip_semicolons p in
    c ← aget p 0;
    if c =? 0 then mret (tried, NotFound)
    else
      len ← (o ← strchr p 59; match o with Some l => mret l | None => strlen p end);
      f ← fill sz len name p;
      match f with
      | None => mret (tried, Exit1)
      | Some tmp =>
        match dlopen tmp with
        | Some dl => mret (tried ++ [tmp], Opened dl)
        | None => try_loop fuel sz name (drop (Z.to_nat len) p) (tried ++ [tmp])
        end
      end
  end.

(** [char tmp[sz]] must have at least one byte. *)
Definition _tryOpen (path name : list Z) : outcome (list (list Z) * opened) :=
  let sz := i32 (zlen path + zlen name) in
  if sz <=? 0 then Fault OutOfBounds
  else try_loop (S (length path)) sz name (path ++ [0]) [].

(** [strcmp(M->m[i].name, name) == 0] from slot [i] on. *)
Fixpoint query_from (k : nat) (i : Z) (m : modules) (name : list Z) : outcome (option Z) :=
  match k with
  | O => mret None
  | S k =>
    x ← aget (tab m) i;
    if decide (m_name x = name) then mret (Some i) else query_from k (i + 1) m name
  end.

Definition _query (m : modules) (name : list Z) : outcome (option Z) := query_from (Z.to_nat (count m)) 0 m name.

(** The name of a symbol, built in [char tmp[name_size + 9]]. *)
Definition sym_name (name suffix : list Z) : outcome (list Z) :=
  tmp ← acopy_in (replicate (Z.to_nat (zlen name + 9)) 170) 0 name;
  tmp ← acopy_in tmp (zlen name) (suffix ++ [0]);
  c_str tmp.

Definition _openSym (dl : H) (md : module) : outcome (bool * module) :=
  c ← sym_name (m_name md) (str "Create");
  i ← sym_name (m_name md) (str "Init");
  r ← sym_name (m_name md) (str "Release");
  let md := Mod (m_name md) (Some dl) (dlsym dl c) (dlsym dl i) (dlsym dl r) in
  mret (match m_init md with None => true | Some _ => false end, md).

Inductive queried := Found (i : Z) | NoModule | Exited.

(** The names tried, whether and which module was found, the table, and the
    handle that was opened but not kept. *)
Definition moduleQuery (m : modules) (name : list Z) : outcome (list (list Z) * queried * modules) :=
  result ← _query m name;
  match result with
  | Some i => mret ([], Found i, m)
  | None =>
    result ← _query m name;
    match result with
    | Some i => mret ([], Found i, m)
    | None =>
      if count m <? MAX_MODULE_TYPE then
        let index := count m in
        '(tried, dl) ← _tryOpen (path m) name;
        match dl with
        | Exit1 => mret (tried, Exited, m)
        | NotFound => mret (tried, NoModule, m)
        | Opened dl =>
          slot ← aget (tab m) index;
          '(bad, md) ← _openSym dl (Mod name (Some dl) (m_create slot) (m_init slot) (m_release slot));
          t ← aset (tab m) index md;
          if (bad : bool) then mret (tried, NoModule, Modules (count m) (path m) t)
          else mret (tried, Found index, Modules (count m + 1) (path m) t)
        end
      else mret ([], NoModule, m)
    end
  end.

Definition moduleInsert (m : modules) (md : module) : outcome modules :=
  r ← _query m (m_name md);
  _ ← c_assert (match r with None => true | Some _ => false end && (count m <? MAX_MODULE_TYPE));
  t ← aset (tab m) (count m) md;
  mret (Modules (count m + 1) (path m) t).

(** Instances are pointers; [call] runs a function of a module. *)
Section instances.
  Context {I : Type}.
  Variables (minus1 : I) (call_create : F -> option I) (call_init : F -> I -> Z -> list Z -> Z).

Definition moduleInstanceCreate (md : module) : option I :=
  match m_create md with Some f => call_create f | None => Some minus1 end.

Definition moduleInstanceInit (md : module) (inst : I) (ctx : Z) (parm : list Z) : outcome Z :=
  f ← deref (m_init md); mret (call_init f inst ctx parm).

(** The function that is called, if the module has one. *)
Definition moduleInstanceRelease (md : module) (inst : I) : option (F * I) :=
  match m_release md with Some f => Some (f, inst) | None => None end.
End instances.

(** The slots are not initialised: [junk]. *)
Definition moduleInit (junk : list module) (path : list Z) : modules := Modules 0 path junk.

(** The handles closed and the names freed. *)
Fixpoint uninit_from (k : nat) (i : Z) (m : modules) : outcome (list H * list (list Z)) :=
  match k with
  | O => mret ([], [])
  | S k =>
    x ← aget (tab m) i;
    r ← uninit_from k (i + 1) m;
    mret (match m_module x with Some h => h :: r.1 | None => r.1 end, m_name x :: r.2)
  end.

Definition moduleUninit (m : modules) : outcome (list H * list (list Z)) := uninit_from (Z.to_nat (count m)) 0 m.
(** ** What the search is meant to try *)

(** The path cut at every semicolon. *)
Fixpoint split_semicolons (s : list Z) : list (list Z) :=
  match s with
  | [] => [[]]
  | c :: s =>
    if c =? 59 then [] :: split_semicolons s
    else match split_semicolons s with t :: ts => (c :: t) :: ts | [] => [[c]] end
  end.

(** Empty templates are skipped. *)
Definition templates (s : list Z) : list (list Z) := filter (.≠ []) (split_semicolons s).

(** The name takes the place of the first question mark. *)
Definition candidate (name t : list Z) : option (list Z) :=
  match break (Z.eqb 63) t with
  | (pre, _ :: post) => Some (pre ++ name ++ post)
  | (_, []) => None
  end.

Fixpoint search (name : list Z) (ts tried : list (list Z)) : list (list Z) * opened :=
  match ts with
  | [] => (tried, NotFound)
  | t :: ts =>
    match candidate name t with
    | None => (tried, Exit1)
    | Some f =>
      match dlopen f with
      | Some dl => (tried ++ [f], Opened dl)
      | None => search name ts (tried ++ [f])
      end
    end
  end.

Lemma split_app t s : Forall (fun c => (59 =? c) = false) t -> split_semicolons (t ++ 59 :: s) = t :: split_semicolons s.
Proof.
  induction 1 as [| c t Hc Ht IH]; [done |]. cbn [app split_semicolons]. rewrite (Z.eqb_sym c), Hc, IH. done.
Qed.

Lemma split_last t : Forall (fun c => (59 =? c) = false) t -> split_semicolons t = [t].
Proof. induction 1 as [| c t Hc Ht IH]; [done |]. cbn [split_semicolons]. by rewrite (Z.eqb_sym c), Hc, IH. Qed.

Lemma templates_cons t s : t <> [] -> Forall (fun c => (59 =? c) = false) t ->
  match s with [] => True | c :: _ => c = 59 end -> templates (t ++ s) = t :: templates s.
Proof.
  intros Hn Ht Hs. unfold templates. destruct s as [| c s].
  - rewrite app_nil_r, split_last by done. cbn. by rewrite decide_True.
  - subst c. rewrite split_app by done. rewrite filter_cons_True by done. done.
Qed.

Lemma skip_semicolons_spec s : nul_free s ->
  exists s', skip_semicolons (s ++ [0]) = s' ++ [0] /\ templates s' = templates s /\ nul_free s' /\
    (length s' <= length s)%nat /\ match s' with [] => True | c :: _ => (59 =? c) = false end.
Proof.
  induction s as [| c s IH]; intros Hs; [by exists [] |]. apply Forall_cons in Hs as Hcs. destruct Hcs as [Hc Hs'].
  cbn [app skip_semicolons]. destruct (Z.eqb_spec c 59) as [-> | Hne].
  - destruct (IH Hs') as (s' & E & T & N & L & Hh). exists s'.
    split; [done |]. split; [by rewrite T |]. split; [done |]. split; [cbn; lia | done].
  - exists (c :: s). repeat (split; [done |]). by destruct (Z.eqb_spec 59 c).
Qed.

(** ** The buffer *)

Lemma copy_to_mark_spec pre2 : forall fuel pre1 c rest z1 z2 len,
  Forall (fun x => (63 =? x) = false) pre2 -> zlen z1 = zlen pre2 ->
  c = 63 \/ zlen (pre1 ++ pre2) = len -> zlen (pre1 ++ pre2) <= len -> (length pre2 < fuel)%nat ->
  copy_to_mark fuel (zlen pre1) len (pre1 ++ pre2 ++ c :: rest) (pre1 ++ z1 ++ z2) =
    Ok (zlen (pre1 ++ pre2), pre1 ++ pre2 ++ z2).
Proof.
  induction pre2 as [| x pre2 IH]; intros fuel pre1 c rest z1 z2 len HF Hz Hc Hl Hf;
    (destruct fuel as [| fuel]; [cbn in Hf; lia |]); cbn [copy_to_mark].
  - destruct z1; [| unfold zlen in Hz; cbn in Hz; lia].
    rewrite app_nil_r in *. cbn [app]. rewrite (aget_Ok _ _ c).
    2: apply zlen_nonneg.
    2: unfold zlen; by rewrite Nat2Z.id, list_lookup_middle.
    rewrite bind_Ok. destruct (Z.eqb_spec c 63) as [-> | Hne]; [done |].
    destruct (Z.ltb_spec (zlen pre1) len); [lia | done].
  - destruct z1 as [| y z1]; [unfold zlen in Hz; cbn in Hz; lia |].
    rewrite !zlen_cons in Hz. apply Forall_cons in HF as [Hx HF].
    rewrite (aget_Ok _ _ x).
    2: apply zlen_nonneg.
    2: unfold zlen; rewrite Nat2Z.id; cbn [app]; by rewrite list_lookup_middle.
    rewrite bind_Ok, (Z.eqb_sym x), Hx. rewrite zlen_app, zlen_cons in Hl.
    pose proof (zlen_nonneg pre1). pose proof (zlen_nonneg pre2). pose proof (zlen_nonneg z1). pose proof (zlen_nonneg z2).
    destruct (Z.ltb_spec (zlen pre1) len); [| lia]. cbn [negb andb].
    rewrite aset_Ok by (cbn [app]; rewrite zlen_app, zlen_cons, zlen_app; lia). rewrite bind_Ok.
    unfold zlen at 2. rewrite Nat2Z.id, <- (Nat.add_0_r (length pre1)), insert_app_r. cbn [app insert list_insert].
    specialize (IH fuel (pre1 ++ [x]) c rest z1 z2 len HF ltac:(lia)).
    rewrite <- !app_assoc in IH. cbn [app] in IH. rewrite (zlen_app pre1 [x]) in IH.
    apply IH; [done | | cbn in Hf; lia]. rewrite zlen_app, zlen_cons. lia.
Qed.

Lemma acopy_in_zeros l z src : zlen src <= z ->
  acopy_in (l ++ replicate (Z.to_nat z) 0) (zlen l) src = Ok (l ++ src ++ replicate (Z.to_nat (z - zlen src)) 0).
Proof.
  intros Hz. pose proof (zlen_nonneg src).
  replace (Z.to_nat z) with (Z.to_nat (zlen src) + Z.to_nat (z - zlen src))%nat by lia.
  rewrite replicate_add. apply acopy_in_app. by rewrite zlen_replicate.
Qed.

(** The name made from a template, within the buffer. *)
Lemma fill_spec sz name t c rest : t <> [] -> nul_free t -> nul_free name -> c = 59 \/ c = 0 ->
  zlen t + zlen name <= sz -> fill sz (zlen t) name (t ++ c :: rest) = Ok (candidate name t).
Proof.
  intros Hn Ht Hname Hc Hsz. unfold fill, candidate.
  destruct (break_spec (Z.eqb 63) t) as (E & HF & Hh). destruct (break (Z.eqb 63) t) as [pre suf] eqn:Eb.
  cbn [fst snd] in *. subst t. apply Forall_app in Ht as [Hpre Hsuf].
  pose proof (zlen_nonneg pre). pose proof (zlen_nonneg suf). pose proof (zlen_nonneg name).
  rewrite zlen_app in Hsz |- *.
  replace (replicate (Z.to_nat sz) 0)
    with ([] ++ replicate (Z.to_nat (zlen pre)) 0 ++ replicate (Z.to_nat (sz - zlen pre)) 0)
    by (rewrite <- replicate_add; cbn; f_equal; lia).
  assert (Hlen : (length pre < S (Z.to_nat (zlen pre + zlen suf)))%nat) by (unfold zlen; lia). cbn [app].
  destruct suf as [| q post].
  - rewrite !app_nil_r, Z.add_0_r in *.
    pose proof (copy_to_mark_spec pre (S (Z.to_nat (zlen pre))) [] c rest _ (replicate (Z.to_nat (sz - zlen pre)) 0)
      (zlen pre) HF (zlen_replicate (zlen pre) 0 ltac:(lia))) as Ec. cbn [app] in Ec.
    change (zlen []) with 0 in Ec. rewrite Ec by (auto; lia). rewrite bind_Ok, acopy_in_zeros by lia. rewrite bind_Ok.
    rewrite (aget_Ok _ _ c); [| lia | unfold zlen; by rewrite Nat2Z.id, list_lookup_middle].
    rewrite bind_Ok. by destruct Hc as [-> | ->].
  - apply Z.eqb_eq in Hh as <-. rewrite zlen_cons in *. pose proof (zlen_nonneg post). apply Forall_cons in Hsuf as [_ Hpost].
    rewrite <- app_assoc. cbn [app].
    pose proof (copy_to_mark_spec pre (S (Z.to_nat (zlen pre + (1 + zlen post)))) [] 63 (post ++ c :: rest) _
      (replicate (Z.to_nat (sz - zlen pre)) 0) (zlen pre + (1 + zlen post)) HF (zlen_replicate (zlen pre) 0 ltac:(lia))) as Ec.
    cbn [app] in Ec. change (zlen []) with 0 in Ec. rewrite Ec by (auto; lia). rewrite bind_Ok, acopy_in_zeros by lia. rewrite bind_Ok.
    rewrite (aget_Ok _ _ 63); [| lia | unfold zlen; by rewrite Nat2Z.id, list_lookup_middle].
    rewrite bind_Ok. cbn [Z.eqb Pos.eqb].
    replace (Z.to_nat (zlen pre + (1 + zlen post) - zlen pre - 1)) with (length post) by (unfold zlen; lia).
    replace (drop (Z.to_nat (zlen pre + 1)) (pre ++ 63 :: post ++ c :: rest)) with (post ++ c :: rest).
    2:{ rewrite (cons_middle 63), app_assoc. replace (Z.to_nat (zlen pre + 1)) with (length (pre ++ [63])); [by rewrite drop_app_length |].
        rewrite length_app. unfold zlen. cbn. lia. }
    rewrite strncpy_bytes_app, bind_Ok by done.
    rewrite <- zlen_app, app_assoc, acopy_in_zeros by lia. rewrite bind_Ok.
    replace (Z.to_nat (sz - zlen pre - zlen name - zlen post)) with (S (Z.to_nat (sz - zlen pre - zlen name - zlen post - 1))) by lia.
    cbn [replicate]. rewrite app_assoc, c_str_app by (repeat apply Forall_app_2; done). by rewrite <- !app_assoc.
Qed.

Lemma no_semicolon_template s : nul_free s -> (59 =? List.hd 59 s) = false ->
  exists t s', s = t ++ s' /\ t = (break (Z.eqb 59) s).1 /\ t <> [] /\ nul_free t /\ nul_free s' /\
    Forall (fun c => (59 =? c) = false) t /\ match s' with [] => True | c :: _ => c = 59 end.
Proof.
  intros Hs Hh. destruct (break_spec (Z.eqb 59) s) as (E & HF & Hb).
  exists (break (Z.eqb 59) s).1, (break (Z.eqb 59) s).2. split; [done |]. split; [done |].
  rewrite E in Hs. apply Forall_app in Hs as [H1 H2].
  split; [destruct s as [| c s]; cbn in Hh |- *; [done | by rewrite Hh] |].
  split; [done |]. split; [done |]. split; [done |].
  destruct (break (Z.eqb 59) s).2; [done | by apply Z.eqb_eq in Hb].
Qed.

Lemma try_loop_spec fuel : forall sz name s tried,
  nul_free s -> nul_free name -> (length s < fuel)%nat -> zlen s + zlen name <= sz ->
  try_loop fuel sz name (s ++ [0]) tried = Ok (search name (templates s) tried).
Proof.
  induction fuel as [| fuel IH]; intros sz name s tried Hs Hname Hf Hsz; [lia |]. cbn [try_loop].
  destruct (skip_semicolons_spec s Hs) as (s1 & -> & <- & Hs1 & Hl1 & Hh1).
  destruct s1 as [| c s1]; [done |]. apply Forall_cons in Hs1 as Hc. destruct Hc as [Hc _].
  destruct (no_semicolon_template (c :: s1) Hs1 Hh1) as (t & s2 & Es & Et & Hn & Ht & Hs2 & HF & Hb).
  change (aget ((c :: s1) ++ [0]) 0) with (Ok c). rewrite bind_Ok. destruct (Z.eqb_spec c 0); [lia |].
  rewrite strchr_len by done. rewrite bind_Ok, <- Et, Es.
  rewrite templates_cons by done. cbn [search].
  assert (Hl : (length t + length s2 <= length s)%nat) by (rewrite <- length_app, <- Es; done).
  assert (Hl2 : (0 < length t)%nat) by (destruct t; [done | cbn; lia]).
  assert (Hfill : fill sz (zlen t) name ((t ++ s2) ++ [0]) = Ok (candidate name t)).
  { rewrite <- app_assoc. destruct s2 as [| d s2]; cbn [app]; apply fill_spec; try done; unfold zlen in *; auto; lia. }
  rewrite Hfill, bind_Ok. destruct (candidate name t) as [f |]; [| done]. destruct (dlopen f); [done |].
  rewrite <- app_assoc. unfold zlen at 1. rewrite Nat2Z.id, drop_app_length.
  apply IH; [done | done | lia |]. unfold zlen in *. lia.
Qed.

Lemma tryOpen_searches_core path name :
  nul_free path -> nul_free name -> 0 < zlen path + zlen name < 2147483648 ->
  _tryOpen path name = Ok (search name (templates path) []).
Proof.
  intros Hp Hn Hsz. unfold _tryOpen. rewrite i32_small by lia.
  destruct (Z.leb_spec (zlen path + zlen name) 0); [lia |]. apply try_loop_spec; [done | done | lia | lia].
Qed.

(** The search for a module.  Whatever the path and the name, the templates
    and names built on the stack stay within the buffer, the loop ends, and
    [dlopen] is called with exactly the names got by putting the module's name
    for the first question mark of each non-empty template, in order, until one
    opens; a template without a mark that is reached ends the process. *)
Theorem tryOpen_searches path name :
  nul_free path -> nul_free name -> 0 < zlen path + zlen name < 2147483648 ->
  _tryOpen path name = Ok (search name (templates path) []).
Proof. apply tryOpen_searches_core. Qed.

(** ** The table *)

Definition visible (m : modules) : list module := take (Z.to_nat (count m)) (tab m).

(** What every module of the table has: a name of its own, a handle and an [Init]. *)
Record mods_ok (m : modules) : Prop := {
  mo_count : 0 <= count m <= MAX_MODULE_TYPE;
  mo_tab : zlen (tab m) = MAX_MODULE_TYPE;
  mo_names : NoDup (m_name <$> visible m);
  mo_init : Forall (fun x => m_init x <> None /\ m_module x <> None) (visible m);
}.

Lemma query_from_spec k : forall (i : nat) m name, (i + k <= length (tab m))%nat ->
  match query_from k (Z.of_nat i) m name with
  | Ok (Some j) => exists x : module, take k (drop i (tab m)) !! (Z.to_nat j - i)%nat = Some x /\ m_name x = name /\ Z.of_nat i <= j
  | Ok None => name ∉ m_name <$> take k (drop i (tab m))
  | Fault _ => False
  end.
Proof.
  induction k as [| k IH]; intros i m name Hl; cbn [query_from]; [apply not_elem_of_nil |].
  destruct (lookup_lt_is_Some_2 (tab m) i ltac:(lia)) as [x Ex].
  rewrite (aget_Ok _ _ x) by (rewrite ?Nat2Z.id; first [done | lia]). rewrite bind_Ok.
  rewrite (drop_S _ _ _ Ex). cbn [take fmap list_fmap]. case_decide as Ed.
  - exists x. split; [| split; [done | lia]]. by rewrite Nat2Z.id, Nat.sub_diag.
  - specialize (IH (S i) m name ltac:(lia)). replace (Z.of_nat i + 1) with (Z.of_nat (S i)) by lia.
    destruct (query_from k _ m name) as [[j |] |]; [| | done].
    + destruct IH as (y & Ey & Hy & Hj). exists y. split; [| split; [done | lia]].
      by replace (Z.to_nat j - i)%nat with (S (Z.to_nat j - S i)) by lia.
    + apply not_elem_of_cons. auto.
Qed.

Lemma query_spec m name : mods_ok m ->
  (exists i x, _query m name = Ok (Some i) /\ visible m !! Z.to_nat i = Some x /\ m_name x = name /\ 0 <= i) \/
  (_query m name = Ok None /\ name ∉ m_name <$> visible m).
Proof.
  intros W. pose proof (mo_count _ W) as Hc. pose proof (mo_tab _ W) as Ht. unfold zlen in Ht.
  pose proof (query_from_spec (Z.to_nat (count m)) 0 m name ltac:(lia)) as Hq. unfold _query.
  change (Z.of_nat 0) with 0 in Hq. destruct (query_from _ 0 m name) as [[j |] |]; [| by right | done].
  left. destruct Hq as (x & Ex & Hx & Hj). exists j, x. rewrite Nat.sub_0_r in Ex. done.
Qed.

Lemma sym_name_spec name suffix : nul_free name -> nul_free suffix -> zlen suffix <= 8 ->
  sym_name name suffix = Ok (name ++ suffix).
Proof.
  intros Hn Hs Hl. unfold sym_name. pose proof (zlen_nonneg name). pose proof (zlen_nonneg suffix).
  replace (Z.to_nat (zlen name + 9)) with (length name + (length suffix + 1 + (8 - length suffix)))%nat by (unfold zlen in *; lia).
  rewrite !replicate_add.
  pose proof (acopy_in_app [] (replicate (length name) 170)
    ((replicate (length suffix) 170 ++ replicate 1 170) ++ replicate (8 - length suffix) 170) name) as E1.
  cbn [app] in E1. change (zlen []) with 0 in E1. rewrite E1 by (unfold zlen; by rewrite length_replicate).
  rewrite bind_Ok, acopy_in_app by (unfold zlen; rewrite !length_app, !length_replicate; done). rewrite bind_Ok.
  rewrite <- app_assoc. cbn [app]. rewrite app_assoc. apply c_str_app, Forall_app_2; done.
Qed.

Lemma visible_grow m x : mods_ok m -> count m < MAX_MODULE_TYPE ->
  visible (Modules (count m + 1) (path m) (<[Z.to_nat (count m) := x]> (tab m))) = visible m ++ [x] /\
  visible (Modules (count m) (path m) (<[Z.to_nat (count m) := x]> (tab m))) = visible m.
Proof.
  intros W Hc. pose proof (mo_count _ W). pose proof (mo_tab _ W) as Ht. unfold visible, zlen in *. cbn [count tab].
  split; [| by rewrite take_insert_ge by lia].
  replace (Z.to_nat (count m + 1)) with (S (Z.to_nat (count m))) by lia.
  rewrite (take_S_r _ _ x) by (apply list_lookup_insert_eq; lia). by rewrite take_insert_ge by lia.
Qed.

(** What opening [name] makes of it. *)
Definition loaded (name : list Z) (dl : H) : module :=
  Mod name (Some dl) (dlsym dl (name ++ str "Create")) (dlsym dl (name ++ str "Init")) (dlsym dl (name ++ str "Release")).

(** The table of modules.  A query for a module that is in the table finds
    it and opens nothing; otherwise, unless the 32 slots are taken, the search
    path is tried, and what opens is entered under the name with the functions
    [<name>Create], [<name>Init] and [<name>Release], if it has an [Init]; a
    query changes nothing else that later queries can see, stays within the
    buffers and the table, and keeps the names of the table distinct. *)
Theorem moduleQuery_spec m name :
  mods_ok m -> nul_free (path m) -> nul_free name -> 0 < zlen (path m) + zlen name < 2147483648 ->
  exists tried r m', moduleQuery m name = Ok (tried, r, m') /\ mods_ok m' /\ path m' = path m /\
  match r with
  | Found i => exists x, visible m' !! Z.to_nat i = Some x /\ m_name x = name /\ 0 <= i /\
      ((m' = m /\ tried = []) \/
       (name ∉ m_name <$> visible m) /\ visible m' = visible m ++ [x] /\
       exists dl, search name (templates (path m)) [] = (tried, Opened dl) /\ x = loaded name dl)
  | NoModule => (name ∉ m_name <$> visible m) /\ visible m' = visible m /\
      ((count m = MAX_MODULE_TYPE /\ tried = []) \/ search name (templates (path m)) [] = (tried, NotFound) \/
       exists dl, search name (templates (path m)) [] = (tried, Opened dl) /\ m_init (loaded name dl) = None)
  | Exited => (name ∉ m_name <$> visible m) /\ m' = m /\ search name (templates (path m)) [] = (tried, Exit1)
  end.
Proof.
  intros W Hp Hn Hsz. pose proof (mo_count _ W). pose proof (mo_tab _ W) as Ht. unfold moduleQuery.
  destruct (query_spec m name W) as [(i & x & Eq & Ex & Hx & Hi) | (Eq & Hnin)]; rewrite Eq, bind_Ok.
  { exists [], (Found i), m. repeat (split; [done |]). exists x. repeat (split; [done |]). by left. }
  rewrite bind_Ok. destruct (Z.ltb_spec (count m) MAX_MODULE_TYPE) as [Hlt | Hge].
  2:{ exists [], NoModule, m. repeat (split; [done |]). left. split; [lia | done]. }
  rewrite tryOpen_searches_core by done. destruct (search name (templates (path m)) []) as [tried dl]. rewrite bind_Ok.
  destruct dl as [dl | |]; [| by exists tried, NoModule, m; auto 10 | by exists tried, Exited, m; auto 10].
  destruct (aget_is_Ok (tab m) (count m)) as (slot & _ & Es); [lia |]. rewrite Es, bind_Ok.
  assert (Eo : _openSym dl (Mod name (Some dl) (m_create slot) (m_init slot) (m_release slot)) =
    Ok (match m_init (loaded name dl) with None => true | Some _ => false end, loaded name dl)).
  { unfold _openSym. cbn [m_name]. by rewrite !sym_name_spec by (first [done | by apply str_nul_free | by vm_compute]). }
  rewrite Eo, bind_Ok, aset_Ok, bind_Ok by lia.
  destruct (visible_grow m (loaded name dl) W Hlt) as [V1 V2].
  destruct (m_init (loaded name dl)) eqn:Ei.
  - eexists _, _, _. split; [reflexivity |].
    assert (W' : mods_ok (Modules (count m + 1) (path m) (<[Z.to_nat (count m) := loaded name dl]> (tab m)))).
    { split; [cbn; lia | cbn [tab]; by rewrite zlen_insert | |]; rewrite V1.
      - rewrite fmap_app. apply NoDup_app. split; [apply W |]. split; [| apply NoDup_singleton].
        intros y Hy Hin. apply list_elem_of_singleton in Hin as ->. by apply Hnin.
      - apply Forall_app. split; [apply W |]. constructor; [by rewrite Ei | constructor]. }
    split; [done |]. split; [done |]. exists (loaded name dl). rewrite V1. split; [| split; [done | split; [lia |]]].
    + rewrite list_lookup_middle; [done |]. unfold visible, zlen in *. rewrite length_take. lia.
    + right. split; [done |]. split; [done |]. by exists dl.
  - eexists _, _, _. split; [reflexivity |].
    assert (W' : mods_ok (Modules (count m) (path m) (<[Z.to_nat (count m) := loaded name dl]> (tab m)))).
    { split; [done | cbn [tab]; by rewrite zlen_insert | |]; rewrite V2; apply W. }
    split; [done |]. split; [done |]. split; [done |]. rewrite V2. split; [done |]. right. right. by exists dl.
Qed.

(** [moduleUninit] closes each handle of the table once. *)
Lemma uninit_from_spec k : forall (i : nat) m, (i + k <= length (tab m))%nat ->
  uninit_from k (Z.of_nat i) m = Ok (omap m_module (take k (drop i (tab m))), m_name <$> take k (drop i (tab m))).
Proof.
  induction k as [| k IH]; intros i m Hl; [done |]. cbn [uninit_from].
  destruct (lookup_lt_is_Some_2 (tab m) i ltac:(lia)) as [x Ex].
  rewrite (aget_Ok _ _ x) by (rewrite ?Nat2Z.id; first [done | lia]). rewrite bind_Ok.
  replace (Z.of_nat i + 1) with (Z.of_nat (S i)) by lia. rewrite (IH (S i)) by lia. rewrite bind_Ok, (drop_S _ _ _ Ex).
  cbn. by destruct (m_module x).
Qed.

Lemma moduleUninit_spec m : mods_ok m -> moduleUninit m = Ok (omap m_module (visible m), m_name <$> visible m).
Proof.
  intros W. pose proof (mo_count _ W). pose proof (mo_tab _ W) as Ht. unfold zlen in Ht. unfold moduleUninit.
  change 0 with (Z.of_nat 0). rewrite uninit_from_spec by lia. done.
Qed.

End Module.

(** ** A server with one module *)

Definition demo_open (f : list Z) : option nat := if decide (f = str "./cservice/zlua.so") then Some 1%nat else None.
Definition demo_sym (h : nat) (s : list Z) : option nat :=
  if decide (s = str "zluaInit") then Some 2%nat else if decide (s = str "zluaCreate") then Some 3%nat else None.
Definition demo_path : list Z := str "./game/?.so;;./cservice/?.so;bad".
Definition demo_mods : modules (H := nat) (F := nat) := moduleInit (replicate 32 (Mod [] None None None None)) demo_path.

Lemma tryOpen_searches_witness :
  _tryOpen demo_open demo_path (str "zlua") =
    Ok ([str "./game/zlua.so"; str "./cservice/zlua.so"], Opened 1%nat) /\
  _tryOpen demo_open demo_path (str "zlua") = Ok (search demo_open (str "zlua") (templates demo_path) []).
Proof.
  split; [reflexivity |]. apply (tryOpen_searches demo_open); [by apply str_nul_free | by apply str_nul_free | by vm_compute].
Defined.

Lemma moduleQuery_spec_witness :
  exists tried r m', moduleQuery demo_open demo_sym demo_mods (str "zlua") = Ok (tried, r, m') /\
    mods_ok m' /\ r = Found 0.
Proof.
  destruct (moduleQuery_spec demo_open demo_sym demo_mods (str "zlua")) as (tried & r & m' & E & W & _).
  - split; [by vm_compute | reflexivity | constructor | constructor].
  - by apply str_nul_free.
  - by apply str_nul_free.
  - by vm_compute.
  - exists tried, r, m'. split; [exact E |]. split; [exact W |].
    assert (E' : exists tried m', moduleQuery demo_open demo_sym demo_mods (str "zlua") = Ok (tried, Found 0, m'))
      by (eexists _, _; reflexivity).
    destruct E' as (t' & m2 & E'). rewrite E' in E. by injection E.
Defined.
