(* ===== verification/Context.v ===== *)
(** * context.c, ctx_mgr.c: actors and the table that finds them

    Contexts live on a heap ([gmap] from addresses; a freed context is absent,
    and touching it is a fault) and are found through a table indexed by
    [id % setsize].  The message queue is any implementation of [Fifo]; the
    code's is [messageQueue], the instance of [LockFree]. *)
From S2P Require Import Prelude CString Fifo LockFree Define.

Section Context.
  Context {Q : Type} `{FifoLaws Q message}.

(** The fields that are used; [cb] tells whether a callback is set, and the two
    buffers of 32 bytes, [name] and [result], are the strings in them. *)
Record context := Ctx {
  c_id : Z;
  c_name : list Z;
  c_ref : Z;
  c_sessionid : Z;
  c_cb : bool;
  c_queue : Q;
  c_inGlobal : Z;
  c_result : list Z;
}.

Definition set_c_id (c : context) v := Ctx v (c_name c) (c_ref c) (c_sessionid c) (c_cb c) (c_queue c) (c_inGlobal c) (c_result c).
Definition set_c_name (c : context) v := Ctx (c_id c) v (c_ref c) (c_sessionid c) (c_cb c) (c_queue c) (c_inGlobal c) (c_result c).
Definition set_c_ref (c : context) v := Ctx (c_id c) (c_name c) v (c_sessionid c) (c_cb c) (c_queue c) (c_inGlobal c) (c_result c).
Definition set_c_sessionid (c : context) v := Ctx (c_id c) (c_name c) (c_ref c) v (c_cb c) (c_queue c) (c_inGlobal c) (c_result c).
Definition set_c_cb (c : context) v := Ctx (c_id c) (c_name c) (c_ref c) (c_sessionid c) v (c_queue c) (c_inGlobal c) (c_result c).
Definition set_c_queue (c : context) v := Ctx (c_id c) (c_name c) (c_ref c) (c_sessionid c) (c_cb c) v (c_inGlobal c) (c_result c).
Definition set_c_inGlobal (c : context) v := Ctx (c_id c) (c_name c) (c_ref c) (c_sessionid c) (c_cb c) (c_queue c) v (c_result c).
Definition set_c_result (c : context) v := Ctx (c_id c) (c_name c) (c_ref c) (c_sessionid c) (c_cb c) (c_queue c) (c_inGlobal c) v.

(** [struct ctxMgr] and the heap; [next] is an address never used before. *)
Record sys := Sys {
  heap : gmap nat context;
  next : nat;
  allocId : Z;
  contextNum : Z;
  contexts : list (option nat);
  setsize : Z;
}.

Definition with_heap (s : sys) v := Sys v (next s) (allocId s) (contextNum s) (contexts s) (setsize s).
Definition with_allocId (s : sys) v := Sys (heap s) (next s) v (contextNum s) (contexts s) (setsize s).
Definition with_table (s : sys) num tbl sz := Sys (heap s) (next s) (allocId s) num tbl sz.

Definition load (a : nat) : ST sys context := fun s =>
  match heap s !! a with Some c => Ok (c, s) | None => Fault UseAfterFree end.
Definition store (a : nat) (c : context) : ST sys unit :=
  st_modify (fun s => with_heap s (<[a := c]> (heap s))).

(** ** context.c *)

(** [mod] and [inst]: whether [moduleQuery] and [moduleInstanceCreate]
    succeed; [q] is the queue [messageQueueCreate(1024)] makes. *)
Definition contextCreate (mod_ok inst_ok : bool) (q : Q) : ST sys (option nat) :=
  if negb mod_ok then mret None
  else if negb inst_ok then mret None
  else
    s ← st_get;
    _ ← st_modify (fun s => Sys (<[next s := Ctx 0 [] 1 1 false q 0 []]> (heap s)) (S (next s))
          (allocId s) (contextNum s) (contexts s) (setsize s));
    mret (Some (next s)).

(** [None] when this was the last reference and the context was freed. *)
Definition contextRelease (a : nat) : ST sys (option nat) :=
  c ← load a;
  _ ← store a (set_c_ref c (c_ref c -u 1));
  if c_ref c =? 1 then _ ← st_modify (fun s => with_heap s (delete a (heap s))); mret None
  else mret (Some a).

Definition contextSetCallback (a : nat) (cb : bool) : ST sys unit :=
  c ← load a; store a (set_c_cb c cb).

Definition contextNewsession (a : nat) : ST sys Z :=
  c ← load a;
  let id := c_sessionid c in
  let c := set_c_sessionid c (id +u 1) in
  _ ← store a c;
  if c_sessionid c =? 0 then _ ← store a (set_c_sessionid c 1); mret 1 else mret id.

Definition contextRetain (o : option nat) : ST sys unit :=
  match o with
  | None => mret tt
  | Some a => c ← load a; store a (set_c_ref c (c_ref c +u 1))
  end.

(** The result and the message handed to the callback, if one was. *)
Definition contextDispatchMessage (a : nat) : ST sys (Z * option message) :=
  c ← load a;
  '(o, q) ← st_lift (q_pop (c_queue c));
  match o with
  | None => mret (-1, None)
  | Some msg =>
    _ ← store a (set_c_queue c q);
    if negb (c_cb c) then mret (-1, None)
    else if type msg =? MSG_TYPE_EXIT_CONTEXT then
      r ← contextRelease a;
      _ ← st_assert (match r with Some _ => true | None => false end);
      mret (-2, None)
    else mret (0, Some msg)
  end.

(** ** ctx_mgr.c *)

Definition ctxMgrCreate (setsize : Z) : sys :=
  Sys ∅ 0 0 0 (replicate (Z.to_nat setsize) None) setsize.

(** The copy loop of a table that grows. *)
Fixpoint rehash (h : gmap nat context) (old tmp : list (option nat)) (newsetsize : Z)
    : outcome (list (option nat)) :=
  match old with
  | [] => mret tmp
  | None :: old => rehash h old tmp newsetsize
  | Some a :: old =>
    match h !! a with
    | None => Fault UseAfterFree
    | Some c =>
      tmp ← aset tmp (c_id c mod newsetsize) (Some a);
      rehash h old tmp newsetsize
    end
  end.

Definition grow_table : ST sys unit :=
  s ← st_get;
  let newsetsize := setsize s * 2 in
  tmp ← st_lift (rehash (heap s) (contexts s) (replicate (Z.to_nat newsetsize) None) newsetsize);
  st_modify (fun s => with_table s (contextNum s) tmp newsetsize).

(** The search for a free slot; [k] turns are left. *)
Fixpoint alloc_slot (k : nat) (a : nat) : ST sys Z :=
  match k with
  | O => mret (-1)
  | S k =>
    s ← st_get;
    let id := allocId s in
    _ ← st_modify (fun s => with_allocId s (id +u 1));
    id ← (if id <=? 0 then _ ← st_modify (fun s => with_allocId s 1); mret 1 else mret id);
    c ← load a;
    _ ← store a (set_c_id c id);
    o ← st_lift (aget (contexts s) (id mod setsize s));
    match o with
    | None =>
      tbl ← st_lift (aset (contexts s) (id mod setsize s) (Some a));
      _ ← st_modify (fun s => with_table s (contextNum s +u 1) tbl (setsize s));
      mret (i32 id)
    | Some _ => alloc_slot k a
    end
  end.

Definition ctxMgrAddContext (a : nat) : ST sys Z :=
  s ← st_get;
  _ ← (if contextNum s >=? setsize s then grow_table else mret tt);
  s ← st_get;
  alloc_slot (Z.to_nat (setsize s)) a.

Definition ctxMgrRemoveContext (id : Z) : ST sys Z :=
  if id <? 0 then mret (-1)
  else
    s ← st_get;
    o ← st_lift (aget (contexts s) (id mod setsize s));
    match o with
    | Some _ =>
      tbl ← st_lift (aset (contexts s) (id mod setsize s) None);
      _ ← st_modify (fun s => with_table s (contextNum s -u 1) tbl (setsize s));
      mret 0
    | None => mret 0
    end.

(** The server a module runs in ([W]) holds more than the contexts; [on] runs an
    operation on them there.  [init] is the module's own [Init] on the new context:
    it may use all of the server, and its result decides. *)
Definition ctxMgrCreateContext {W} (on : forall A, ST sys A -> ST W A) (mod_ok inst_ok : bool) (q : Q)
    (init : nat -> ST W Z) : ST W (option nat) :=
  o ← on _ (contextCreate mod_ok inst_ok q);
  match o with
  | None => mret None
  | Some a =>
    id ← on _ (ctxMgrAddContext a);
    if id <? 0 then mret None
    else
      c ← on _ (load a);
      _ ← on _ (store a (set_c_name c (snprintf 32 (str "c_" ++ print_d id))));
      r ← init a;
      if negb (r =? 0) then _ ← on _ (ctxMgrRemoveContext id); mret None
      else mret (Some a)
  end.

Definition ctxMgrReleaseContext (a : nat) : ST sys unit :=
  c ← load a;
  r ← contextRelease a;
  match r with
  | None => _ ← ctxMgrRemoveContext (i32 (c_id c)); mret tt
  | Some _ => mret tt
  end.

(** The look-up under the read lock; the reference is taken after unlocking. *)
Definition ctxMgrLookup (id : Z) : ST sys (option nat) :=
  s ← st_get; st_lift (aget (contexts s) (id mod setsize s)).

Definition ctxMgrGetContext (id : Z) : ST sys (option nat) :=
  o ← ctxMgrLookup id; _ ← contextRetain o; mret o.

Definition ctxMgrGetContextNum : ST sys Z := s ← st_get; mret (contextNum s).

(** The loop of [ctxMgrStop] from slot [i] on. *)
Fixpoint stop_from (k : nat) (i : nat) : ST sys unit :=
  match k with
  | O => mret tt
  | S k =>
    s ← st_get;
    o ← st_lift (aget (contexts s) (Z.of_nat i));
    _ ← (match o with
         | None => mret tt
         | Some a =>
           r ← contextRelease a;
           match r with
           | Some _ => mret tt
           | None =>
             st_modify (fun s => with_table s (contextNum s -u 1) (<[i := None]> (contexts s)) (setsize s))
           end
         end);
    stop_from k (S i)
  end.

Definition ctxMgrStop : ST sys unit := s ← st_get; stop_from (Z.to_nat (setsize s)) 0.
End Context.
Arguments context : clear implicits.
Arguments sys : clear implicits.

(** ** The table *)

Definition count (l : list (option nat)) : Z := zlen (omap id l).

Lemma count_app l1 l2 : count (l1 ++ l2) = count l1 + count l2.
Proof. unfold count. by rewrite omap_app, zlen_app. Qed.

Lemma count_cons o l : count (o :: l) = count [o] + count l.
Proof. exact (count_app [o] l). Qed.

Lemma count_insert (l : list (option nat)) i (o o' : option nat) :
  l !! i = Some o ->
  count (<[i := o']> l) = count l - count [o] + count [o'].
Proof.
  intros E. rewrite <- (take_drop_middle l i o E) at 2.
  rewrite insert_take_drop by (by apply lookup_lt_Some in E).
  rewrite !count_app. change (o' :: drop (S i) l) with ([o'] ++ drop (S i) l).
  change (o :: drop (S i) l) with ([o] ++ drop (S i) l). rewrite !count_app.
  destruct o, o'; cbn; lia.
Qed.

Lemma count_le l : 0 <= count l <= zlen l.
Proof.
  induction l as [| o l IH]; [done |]. rewrite count_cons, zlen_cons.
  destruct o; [change (count [Some n]) with 1 | change (count [@None nat]) with 0]; lia.
Qed.

Lemma count_free (l : list (option nat)) : count l < zlen l -> exists i, l !! i = Some None.
Proof.
  induction l as [| [a |] l IH]; intros H; [done | | by exists 0%nat].
  destruct IH as [i E]; [| by exists (S i)].
  rewrite count_cons, zlen_cons in H. change (count [Some a]) with 1 in H. lia.
Qed.

Lemma count_replicate n : count (replicate n None) = 0.
Proof. induction n as [| n IH]; [done |]. cbn [replicate]. by rewrite count_cons, IH. Qed.

Section table.
  Context {Q : Type} `{FifoLaws Q message}.
  Implicit Types s : sys Q.

(** Address [a] is the context with identifier [id], in its slot. *)
Definition registered s (id : Z) (a : nat) : Prop :=
  contexts s !! Z.to_nat (id mod setsize s) = Some (Some a) /\
  exists c, heap s !! a = Some c /\ c_id c = id.

Record tbl_ok s : Prop := {
  tk_size : 0 < setsize s;
  tk_len : zlen (contexts s) = setsize s;
  tk_num : contextNum s = count (contexts s);
  tk_slots : forall i a, contexts s !! i = Some (Some a) ->
    exists c, heap s !! a = Some c /\ 1 <= c_id c /\ Z.to_nat (c_id c mod setsize s) = i;
}.

Lemma rehash_spec (h : gmap nat (context Q)) n old : forall tmp,
  0 < n -> zlen tmp = n ->
  (forall i a, old !! i = Some (Some a) -> exists c, h !! a = Some c /\
     tmp !! Z.to_nat (c_id c mod n) = Some None) ->
  (forall i j a b ca cb, old !! i = Some (Some a) -> old !! j = Some (Some b) -> i <> j ->
     h !! a = Some ca -> h !! b = Some cb -> c_id ca mod n <> c_id cb mod n) ->
  exists tmp', rehash h old tmp n = Ok tmp' /\ zlen tmp' = n /\
    count tmp' = count tmp + count old /\
    (forall i a c, old !! i = Some (Some a) -> h !! a = Some c ->
       tmp' !! Z.to_nat (c_id c mod n) = Some (Some a)) /\
    (forall j x, tmp !! j = Some (Some x) -> tmp' !! j = Some (Some x)) /\
    (forall j x, tmp' !! j = Some (Some x) -> tmp !! j = Some (Some x) \/
       exists i c, old !! i = Some (Some x) /\ h !! x = Some c /\ Z.to_nat (c_id c mod n) = j).
Proof.
  induction old as [| [a |] old IH]; intros tmp Hn Hl Hfree Hdist; cbn [rehash].
  - exists tmp. split; [done |]. split; [done |]. change (count []) with 0.
    split; [lia |]. split; [done |]. split; [done | auto].
  - destruct (Hfree 0%nat a eq_refl) as (c & Ec & Et). rewrite Ec.
    pose proof (Z.mod_pos_bound (c_id c) n Hn) as Hr.
    rewrite aset_Ok, bind_Ok by lia. set (tmp1 := <[_ := Some a]> tmp).
    destruct (IH tmp1) as (tmp' & E & L & C & M & Keep & Only).
    + done.
    + unfold tmp1. by rewrite zlen_insert.
    + intros i b Eb. destruct (Hfree (S i) b Eb) as (cb & Ecb & Etb). exists cb. split; [done |].
      unfold tmp1. rewrite list_lookup_insert_ne; [done |]. intros Ex.
      pose proof (Z.mod_pos_bound (c_id cb) n Hn).
      apply (Hdist 0%nat (S i) a b c cb eq_refl Eb); [lia | done | done | lia].
    + intros i j x y cx cy Ex Ey Hij. apply (Hdist (S i) (S j)); auto.
    + exists tmp'. split; [done |]. split; [done |]. split; [| split; [| split]].
      * rewrite C. unfold tmp1. rewrite (count_insert _ _ _ _ Et), (count_cons (Some a) old).
        change (count [@None nat]) with 0. lia.
      * intros [| i] b cb Eb Ecb; [| by apply (M i)].
        simplify_eq/=. apply Keep. unfold tmp1.
        rewrite list_lookup_insert_eq; [done | by apply lookup_lt_Some in Et].
      * intros j x Ex. apply Keep. unfold tmp1. rewrite list_lookup_insert_ne; [done |].
        intros <-. congruence.
      * intros j x Ex. destruct (Only j x Ex) as [Ex1 | (i & cx & Ei & Ecx & Ej)].
        -- unfold tmp1 in Ex1. apply list_lookup_insert_Some in Ex1 as [(<- & Ea & _) | [_ ?]]; [| auto].
           simplify_eq. right. exists 0%nat, c. done.
        -- right. exists (S i), cx. done.
  - destruct (IH tmp Hn Hl) as (tmp' & E & L & C & M & Keep & Only).
    + intros i b Eb. apply (Hfree (S i) b Eb).
    + intros i j x y cx cy Ex Ey Hij. apply (Hdist (S i) (S j)); auto.
    + exists tmp'. split; [done |]. split; [done |]. split; [by rewrite C |]. split; [| split; [done |]].
      * intros [| i] b cb Eb Ecb; [done |]. by apply (M i).
      * intros j x Ex. destruct (Only j x Ex) as [| (i & cx & Ei & Ecx & Ej)]; [auto |].
        right. by exists (S i), cx.
Qed.

Lemma mod_double_ne x y n : 0 < n -> x mod n <> y mod n -> x mod (n * 2) <> y mod (n * 2).
Proof.
  intros Hn Hne E. apply Hne.
  assert (D : forall z, z mod n = (z mod (n * 2)) mod n)
    by (intros z; symmetry; apply Z.mod_mod_divide; exists 2; lia).
  by rewrite (D x), (D y), E.
Qed.

Lemma registered_slot s i a :
  tbl_ok s -> contexts s !! i = Some (Some a) -> exists id, registered s id a /\ Z.to_nat (id mod setsize s) = i.
Proof.
  intros T E. destruct (tk_slots _ T i a E) as (c & Ec & _ & Ei). exists (c_id c).
  split; [| done]. split; [by rewrite Ei | by exists c].
Qed.

Lemma grow_table_spec s :
  tbl_ok s -> exists s', grow_table s = Ok (tt, s') /\ tbl_ok s' /\ setsize s' = setsize s * 2 /\
    heap s' = heap s /\ allocId s' = allocId s /\ next s' = next s /\ contextNum s' = contextNum s /\
    forall id a, registered s id a <-> registered s' id a.
Proof.
  intros T. pose proof (tk_size _ T) as Hsz. unfold grow_table. erewrite st_bind_Ok by reflexivity.
  assert (Hrep : zlen (replicate (Z.to_nat (setsize s * 2)) (@None nat)) = setsize s * 2)
    by (apply zlen_replicate; lia).
  destruct (rehash_spec (heap s) (setsize s * 2) (contexts s)
    (replicate (Z.to_nat (setsize s * 2)) None) ltac:(lia) Hrep) as (tmp & E & L & C & M & _ & Only).
  - intros i a Ea. destruct (tk_slots _ T i a Ea) as (c & Ec & _ & _). exists c. split; [done |].
    apply lookup_replicate_2. pose proof (Z.mod_pos_bound (c_id c) (setsize s * 2)). lia.
  - intros i j a b ca cb Ea Eb Hij Eca Ecb. apply mod_double_ne; [done |]. intros Em. apply Hij.
    destruct (tk_slots _ T i a Ea) as (c1 & E1 & _ & <-).
    destruct (tk_slots _ T j b Eb) as (c2 & E2 & _ & <-). simplify_eq. by rewrite Em.
  - unfold st_lift at 1. rewrite E. erewrite st_bind_Ok by reflexivity.
    eexists. split; [reflexivity |]. cbn [with_table heap next allocId contextNum contexts setsize].
    assert (Hreg : forall j x, tmp !! j = Some (Some x) -> exists i c, contexts s !! i = Some (Some x) /\
      heap s !! x = Some c /\ Z.to_nat (c_id c mod (setsize s * 2)) = j).
    { intros j x Ex. destruct (Only j x Ex) as [Ex0 |]; [| done].
      apply lookup_replicate in Ex0 as [? _]. done. }
    split; [| split; [done |]; split; [done |]; split; [done |]; split; [done |]; split; [done |]].
    + split; cbn; [lia | done | |].
      * rewrite (tk_num _ T), C, count_replicate. lia.
      * intros i a Ea. destruct (Hreg i a Ea) as (i0 & c & Ei0 & Ec & Ej).
        destruct (tk_slots _ T i0 a Ei0) as (c' & Ec' & Hc & _). simplify_eq. by eexists.
    + intros id a. unfold registered. cbn. split.
      * intros [Ea (c & Ec & <-)]. split; [by apply (M _ a c Ea) | by exists c].
      * intros [Ea (c & Ec & <-)]. destruct (Hreg _ a Ea) as (i0 & c' & Ei0 & Ec' & _). simplify_eq.
        destruct (tk_slots _ T i0 a Ei0) as (c2 & Ec2 & _ & Ei). simplify_eq.
        split; [done | by eexists].
Qed.

(** [a] has been given slot and identifier [id]; nothing else changed. *)
Record added s s' (a : nat) (id : Z) : Prop := {
  ad_ok : tbl_ok s';
  ad_new : registered s' id a;
  ad_old : forall id' b, registered s id' b -> registered s' id' b;
  ad_only : forall id' b, registered s' id' b -> registered s id' b \/ (id' = id /\ b = a);
  ad_fresh : forall b, ~ registered s id b;
}.

Definition absent s (a : nat) : Prop := forall i, contexts s !! i <> Some (Some a).

Definition placed s (a : nat) (c : context Q) (id alloc : Z) : sys Q :=
  Sys (<[a := set_c_id c id]> (heap s)) (next s) alloc (contextNum s +u 1)
    (<[Z.to_nat (id mod setsize s) := Some a]> (contexts s)) (setsize s).

Lemma placed_added s a c id alloc :
  tbl_ok s -> heap s !! a = Some c -> absent s a -> 1 <= id -> setsize s < 4294967295 ->
  contexts s !! Z.to_nat (id mod setsize s) = Some None ->
  added s (placed s a c id alloc) a id.
Proof.
  intros T Ec Ha Hid Hb E. pose proof (tk_size _ T) as Hsz.
  pose proof (Z.mod_pos_bound id (setsize s) Hsz) as Hr.
  assert (Hlt : (Z.to_nat (id mod setsize s) < length (contexts s))%nat) by (by apply lookup_lt_Some in E).
  assert (Hload : forall b cb, b <> a -> heap s !! b = Some cb ->
    heap (placed s a c id alloc) !! b = Some cb).
  { intros b cb Hb' Ecb. cbn. by rewrite lookup_insert_ne by done. }
  assert (Hne : forall i b, contexts s !! i = Some (Some b) -> b <> a).
  { intros i b Eb ->. by apply (Ha i). }
  split.
  - split; cbn; [done | by rewrite zlen_insert; apply T | |].
    + rewrite (count_insert _ _ _ _ E), (tk_num _ T). change (count [@None nat]) with 0.
      change (count [Some a]) with 1. rewrite u32_small; [lia |].
      pose proof (count_le (contexts s)) as Hc. rewrite (tk_len _ T) in Hc. lia.
    + intros i b Eb. apply list_lookup_insert_Some in Eb as [(<- & Ea & _) | [Hi Eb]].
      * injection Ea as <-. exists (set_c_id c id). by rewrite lookup_insert_eq.
      * destruct (tk_slots _ T i b Eb) as (cb & Ecb & Hcb & Ei). exists cb.
        split; [apply Hload; eauto | done].
  - split; cbn; [by rewrite list_lookup_insert_eq |]. exists (set_c_id c id). by rewrite lookup_insert_eq.
  - intros id' b [Eb (cb & Ecb & Eid)]. assert (Hba : b <> a) by eauto. split.
    + cbn. rewrite list_lookup_insert_ne; [done |]. intros Ei. congruence.
    + exists cb. auto.
  - intros id' b [Eb (cb & Ecb & Eid)]. cbn in Eb, Ecb.
    apply list_lookup_insert_Some in Eb as [(Ei & Ea & _) | [Hi Eb]].
    + injection Ea as <-. rewrite lookup_insert_eq in Ecb. injection Ecb as <-. right. by cbn in Eid.
    + left. assert (Hba : b <> a) by eauto. rewrite lookup_insert_ne in Ecb by done. split; eauto.
  - intros b [Eb _]. congruence.
Qed.

(** Renumbering an unregistered context does not touch the table. *)
Lemma tbl_ok_renumber s a c alloc :
  tbl_ok s -> absent s a -> tbl_ok (Sys (<[a := c]> (heap s)) (next s) alloc (contextNum s) (contexts s) (setsize s)).
Proof.
  intros [T1 T2 T3 T4] Ha. split; try done. intros i b Eb. cbn in *.
  rewrite lookup_insert_ne; [by apply T4 |]. intros ->. by apply (Ha i).
Qed.

Lemma alloc_slot_step k s a c :
  tbl_ok s -> heap s !! a = Some c -> absent s a -> 1 <= allocId s < 2147483647 ->
  exists o, contexts s !! Z.to_nat (allocId s mod setsize s) = Some o /\
  alloc_slot (S k) a s =
    match o with
    | None => Ok (allocId s, placed s a c (allocId s) (allocId s + 1))
    | Some _ => alloc_slot k a (Sys (<[a := set_c_id c (allocId s)]> (heap s)) (next s) (allocId s + 1)
                 (contextNum s) (contexts s) (setsize s))
    end.
Proof.
  intros T Ec Ha Hid. pose proof (tk_size _ T) as Hsz.
  pose proof (Z.mod_pos_bound (allocId s) (setsize s) Hsz) as Hr.
  destruct (aget_is_Ok (contexts s) (allocId s mod setsize s)) as (o & Eo & Eg).
  { rewrite (tk_len _ T). lia. }
  exists o. split; [done |]. cbn [alloc_slot]. erewrite st_bind_Ok by reflexivity.
  erewrite st_bind_Ok by reflexivity. rewrite u32_small by lia.
  destruct (Z.leb_spec (allocId s) 0); [lia |]. erewrite st_bind_Ok by reflexivity.
  set (s1 := with_allocId s (allocId s + 1)).
  assert (L : load a s1 = Ok (c, s1)) by (unfold load; cbn; by rewrite Ec).
  rewrite (st_bind_Ok _ _ _ _ _ L). erewrite st_bind_Ok by reflexivity.
  unfold st_lift. rewrite Eg. erewrite st_bind_Ok by reflexivity.
  destruct o as [b |]; [done |]. rewrite aset_Ok by (rewrite (tk_len _ T); lia).
  erewrite st_bind_Ok by reflexivity. erewrite st_bind_Ok by reflexivity.
  unfold mret, st_ret. rewrite i32_small by lia. done.
Qed.

Lemma alloc_slot_spec k : forall s a c,
  tbl_ok s -> heap s !! a = Some c -> absent s a -> setsize s < 4294967295 ->
  1 <= allocId s -> allocId s + Z.of_nat k < 2147483647 ->
  (exists j, (j < k)%nat /\ contexts s !! Z.to_nat ((allocId s + Z.of_nat j) mod setsize s) = Some None) ->
  exists id s', alloc_slot k a s = Ok (id, s') /\ 1 <= id < 2147483647 /\ added s s' a id /\
    heap s' = <[a := set_c_id c id]> (heap s).
Proof.
  induction k as [| k IH]; intros s a c T Ec Ha Hb Hid Hk (j & Hj & Ej); [lia |].
  destruct (alloc_slot_step k s a c T Ec Ha ltac:(lia)) as (o & Eo & E). rewrite E.
  destruct o as [b |].
  - set (s1 := Sys _ _ _ _ _ _).
    assert (T1 : tbl_ok s1) by (by apply tbl_ok_renumber).
    destruct (IH s1 a (set_c_id c (allocId s)) T1) as (id & s' & E' & Hid' & A & Hh).
    + cbn. by rewrite lookup_insert_eq.
    + done.
    + done.
    + cbn. lia.
    + cbn. lia.
    + destruct j as [| j]; [rewrite Z.add_0_r in Ej; congruence |]. exists j. split; [lia |]. cbn.
      by replace (allocId s + 1 + Z.of_nat j) with (allocId s + Z.of_nat (S j)) by lia.
    + assert (Hreg : forall id' x, registered s id' x <-> registered s1 id' x).
      { intros id' x. unfold registered. cbn. split; intros [Ex (cx & Ecx & Eid)]; (split; [done |]);
          exists cx; (split; [| done]);
          (destruct (decide (x = a)) as [-> | Hne]; [exfalso; by apply (Ha _ Ex) |]);
          [by rewrite lookup_insert_ne | by rewrite lookup_insert_ne in Ecx]. }
      exists id, s'. split; [done |]. split; [done |]. split.
      * destruct A as [A1 A2 A3 A4 A5]. split; [done | done | | |].
        -- intros id' x Hx. by apply A3, Hreg.
        -- intros id' x Hx. rewrite Hreg. by apply A4.
        -- intros x. rewrite Hreg. apply A5.
      * rewrite Hh. cbn. by rewrite insert_insert_eq.
  - exists (allocId s), (placed s a c (allocId s) (allocId s + 1)). split; [done |]. split; [lia |].
    split; [by apply placed_added | done].
Qed.

(** Neither does a change of a context that keeps its identifier. *)
Lemma tbl_ok_store s a c c' :
  tbl_ok s -> heap s !! a = Some c -> c_id c' = c_id c ->
  tbl_ok (with_heap s (<[a := c']> (heap s))) /\
  forall id x, registered (with_heap s (<[a := c']> (heap s))) id x <-> registered s id x.
Proof.
  intros [T1 T2 T3 T4] Ec Ei. split.
  - split; try done. intros i b Eb. destruct (T4 i b Eb) as (cb & Ecb & Hb). destruct (decide (b = a)) as [-> | Hne].
    + exists c'. cbn. rewrite lookup_insert_eq. simplify_eq. by rewrite Ei.
    + exists cb. cbn. by rewrite lookup_insert_ne.
  - intros id x. unfold registered. cbn. split; intros [Ex (cx & Ecx & Hid)]; (split; [done |]);
      destruct (decide (x = a)) as [-> | Hne].
    + rewrite lookup_insert_eq in Ecx. simplify_eq. by exists c.
    + rewrite lookup_insert_ne in Ecx by done. by exists cx.
    + simplify_eq. exists c'. by rewrite lookup_insert_eq.
    + exists cx. by rewrite lookup_insert_ne.
Qed.

(** A context made at a fresh address is in no slot. *)
Lemma tbl_ok_new s a c nx :
  tbl_ok s -> heap s !! a = None ->
  let s' := Sys (<[a := c]> (heap s)) nx (allocId s) (contextNum s) (contexts s) (setsize s) in
  tbl_ok s' /\ absent s' a /\ forall id x, registered s id x -> registered s' id x.
Proof.
  intros [T1 T2 T3 T4] Ea s'.
  assert (Hab : absent s a) by (intros i Ei; destruct (T4 i a Ei) as (c0 & Ec0 & _); congruence).
  split; [| split; [exact Hab |]].
  - split; try done. intros i b Eb. cbn in Eb |- *. destruct (T4 i b Eb) as (cb & Ecb & Hb). exists cb.
    rewrite lookup_insert_ne; [done |]. intros <-. by apply (Hab i).
  - intros id x [Ex (cx & Ecx & Hid)]. split; [done |]. exists cx. cbn. rewrite lookup_insert_ne; [done |].
    intros <-. by apply (Hab _ Ex).
Qed.
End table.

(** ** Properties *)

Lemma free_slot_ahead {Q} `{FifoLaws Q message} (s : sys Q) :
  tbl_ok s -> contextNum s < setsize s ->
  exists j, (j < Z.to_nat (setsize s))%nat /\
    contexts s !! Z.to_nat ((allocId s + Z.of_nat j) mod setsize s) = Some None.
Proof.
  intros T Hn. pose proof (tk_size _ T) as Hsz. rewrite (tk_num _ T) in Hn.
  destruct (count_free (contexts s)) as [i E]; [by rewrite (tk_len _ T) |].
  pose proof (Z.mod_pos_bound (Z.of_nat i - allocId s) (setsize s) Hsz).
  assert (Hi : Z.of_nat i < setsize s).
  { rewrite <- (tk_len _ T). apply lookup_lt_Some in E. unfold zlen. lia. }
  exists (Z.to_nat ((Z.of_nat i - allocId s) mod setsize s)). split; [lia |].
  rewrite Z2Nat.id, Zplus_mod_idemp_r by lia.
  replace (allocId s + (Z.of_nat i - allocId s)) with (Z.of_nat i) by lia.
  by rewrite Z.mod_small, Nat2Z.id by lia.
Qed.

(** The first context of a process gets identifier 1. *)
Lemma alloc_first {Q} `{FifoLaws Q message} k (s : sys Q) a c :
  tbl_ok s -> heap s !! a = Some c -> absent s a -> setsize s < 4294967295 ->
  allocId s = 0 -> contextNum s = 0 ->
  exists id s', alloc_slot (S k) a s = Ok (id, s') /\ 1 <= id < 2147483647 /\ added s s' a id /\
    heap s' = <[a := set_c_id c id]> (heap s).
Proof.
  intros T Ec Ha Hb Hid Hn. pose proof (tk_size _ T) as Hsz.
  pose proof (Z.mod_pos_bound 1 (setsize s) Hsz) as Hr.
  destruct (aget_is_Ok (contexts s) (1 mod setsize s)) as (o & Eo & Eg).
  { rewrite (tk_len _ T). lia. }
  assert (o = None) as ->.
  { destruct o as [b |]; [| done]. exfalso. pose proof (tk_num _ T) as Hc. rewrite Hn in Hc.
    pose proof (count_insert _ _ _ None Eo) as Hi. rewrite <- Hc in Hi.
    change (count [Some b]) with 1 in Hi. change (count [@None nat]) with 0 in Hi.
    pose proof (count_le (<[Z.to_nat (1 mod setsize s):=None]> (contexts s))). lia. }
  exists 1, (placed s a c 1 1). split; [| split; [lia | split; [by apply placed_added | done]]].
  cbn [alloc_slot]. erewrite st_bind_Ok by reflexivity. rewrite Hid.
  erewrite st_bind_Ok by reflexivity. change (0 <=? 0) with true. cbn iota.
  erewrite st_bind_Ok by reflexivity. set (s1 := with_allocId (with_allocId s _) 1).
  assert (L : load a s1 = Ok (c, s1)) by (unfold load; cbn; by rewrite Ec).
  rewrite (st_bind_Ok _ _ _ _ _ L). erewrite st_bind_Ok by reflexivity.
  unfold st_lift. rewrite Eg. erewrite st_bind_Ok by reflexivity.
  rewrite aset_Ok by (rewrite (tk_len _ T); lia).
  erewrite st_bind_Ok by reflexivity. erewrite st_bind_Ok by reflexivity. done.
Qed.

Lemma ctxMgrAddContext_adds {Q} `{FifoLaws Q message} (s : sys Q) a c :
  tbl_ok s -> heap s !! a = Some c -> absent s a ->
  0 <= allocId s -> (allocId s = 0 -> contextNum s = 0) ->
  allocId s + 2 * setsize s < 2147483647 ->
  exists id s', ctxMgrAddContext a s = Ok (id, s') /\ 1 <= id < 2147483647 /\ added s s' a id /\
    heap s' = <[a := set_c_id c id]> (heap s).
Proof.
  intros T Ec Ha Hid Hzero Hb. pose proof (tk_size _ T) as Hsz. unfold ctxMgrAddContext.
  erewrite st_bind_Ok by reflexivity. rewrite Z.geb_leb.
  assert (Hgo : forall s1, tbl_ok s1 -> heap s1 = heap s -> allocId s1 = allocId s ->
    contextNum s1 = contextNum s -> setsize s1 <= 2 * setsize s -> contextNum s1 < setsize s1 ->
    (forall id x, registered s id x <-> registered s1 id x) ->
    exists id s', alloc_slot (Z.to_nat (setsize s1)) a s1 = Ok (id, s') /\ 1 <= id < 2147483647 /\ added s s' a id /\
      heap s' = <[a := set_c_id c id]> (heap s)).
  { intros s1 T1 Eh Ea En Hs1 Hlt Hreg.
    assert (Ha1 : absent s1 a).
    { intros i Ei. destruct (registered_slot _ _ _ T1 Ei) as (id & Hr & _).
      apply Hreg in Hr as [Ex _]. by apply (Ha _ Ex). }
    assert (Hadd : forall s' id, added s1 s' a id -> added s s' a id).
    { intros s' id [A1 A2 A3 A4 A5]. split; [done | done | | |].
      - intros id' x Hx. by apply A3, Hreg.
      - intros id' x Hx. rewrite Hreg. by apply A4.
      - intros x. rewrite Hreg. apply A5. }
    destruct (Z.eq_dec (allocId s) 0) as [Hz | Hz].
    - pose proof (tk_size _ T1). replace (Z.to_nat (setsize s1)) with (S (Z.to_nat (setsize s1 - 1))) by lia.
      destruct (alloc_first (Z.to_nat (setsize s1 - 1)) s1 a c T1) as (id & s' & E & Hi & A & Hh);
        [by rewrite Eh | done | lia | lia | rewrite En; auto |].
      exists id, s'. rewrite Hh, Eh. auto.
    - destruct (alloc_slot_spec (Z.to_nat (setsize s1)) s1 a c T1) as (id & s' & E & Hi & A & Hh);
        [by rewrite Eh | done | lia | lia | lia | by apply free_slot_ahead |].
      exists id, s'. rewrite Hh, Eh. auto. }
  destruct (Z.leb_spec (setsize s) (contextNum s)) as [Hfull | Hroom].
  - destruct (grow_table_spec s T) as (s1 & E & T1 & Sz & Eh & Ea & _ & En & Hreg).
    rewrite (st_bind_Ok _ _ _ _ _ E). erewrite st_bind_Ok by reflexivity.
    apply Hgo; try done; [lia |]. rewrite En, Sz, (tk_num _ T).
    pose proof (count_le (contexts s)) as Hc. rewrite (tk_len _ T) in Hc. lia.
  - erewrite st_bind_Ok by reflexivity. erewrite st_bind_Ok by reflexivity.
    apply Hgo; try done; lia.
Qed.

(** C10: adding a context to the table, growing it when it is full, always
    succeeds below the 31-bit identifier space: the context gets an identifier
    no registered context has, is found under it, and every context registered
    before is still found under its own identifier, none besides. *)
Theorem ctxMgrAddContext_spec {Q} `{FifoLaws Q message} (s : sys Q) a c :
  tbl_ok s -> heap s !! a = Some c -> absent s a ->
  0 <= allocId s -> (allocId s = 0 -> contextNum s = 0) ->
  allocId s + 2 * setsize s < 2147483647 ->
  exists id s', ctxMgrAddContext a s = Ok (id, s') /\ 1 <= id /\ added s s' a id.
Proof.
  intros T Ec Ha Hid Hzero Hb.
  destruct (ctxMgrAddContext_adds s a c T Ec Ha Hid Hzero Hb) as (id & s' & E & Hi & A & _).
  exists id, s'. split; [done |]. split; [lia | done].
Qed.

(** A full table of one context. *)
Definition ctx0 : context (lfq message) := Ctx 1 [] 1 1 true (MessageQueue.messageQueueCreate 4) 0 [].

Definition full_table : sys (lfq message) :=
  Sys {[0%nat := ctx0; 1%nat := Ctx 0 [] 1 1 false (MessageQueue.messageQueueCreate 4) 0 []]} 2 1 1 [Some 0%nat] 1.

Lemma full_table_ok : tbl_ok full_table.
Proof.
  split; [reflexivity | reflexivity | reflexivity |].
  intros [| i] a E; simplify_eq/=. exists ctx0. by vm_compute.
Qed.

Lemma ctxMgrAddContext_spec_witness :
  exists id s', ctxMgrAddContext 1 full_table = Ok (id, s') /\ 1 <= id /\ added full_table s' 1 id.
Proof.
  apply (ctxMgrAddContext_spec full_table 1 (Ctx 0 [] 1 1 false (MessageQueue.messageQueueCreate 4) 0 [])).
  - exact full_table_ok.
  - reflexivity.
  - intros [| i]; discriminate.
  - vm_compute; congruence.
  - vm_compute; congruence.
  - reflexivity.
Defined.

(** [ctxMgrGetContext] does not compare identifiers.  For a registered
    context it returns that context and takes a reference; and it does the same
    for every other identifier that falls into the same slot, so a message to a
    dead or never allocated identifier is delivered to a living stranger. *)
Theorem ctxMgrGetContext_by_slot {Q} `{FifoLaws Q message} (s : sys Q) id a id' :
  tbl_ok s -> registered s id a -> id' mod setsize s = id mod setsize s ->
  exists c, heap s !! a = Some c /\ c_id c = id /\
    ctxMgrGetContext id' s = Ok (Some a, with_heap s (<[a := set_c_ref c (c_ref c +u 1)]> (heap s))).
Proof.
  intros T [Ea (c & Ec & Eid)] Em. exists c. split; [done |]. split; [done |].
  pose proof (Z.mod_pos_bound id (setsize s) (tk_size _ T)).
  unfold ctxMgrGetContext, ctxMgrLookup.
  assert (L : (s0 ← st_get; st_lift (aget (contexts s0) (id' mod setsize s0))) s = Ok (Some a, s)).
  { erewrite st_bind_Ok by reflexivity. unfold st_lift. by rewrite Em, (aget_Ok _ _ (Some a)) by first [done | lia]. }
  rewrite (st_bind_Ok _ _ _ _ _ L). unfold contextRetain.
  assert (L' : load a s = Ok (c, s)) by (unfold load; by rewrite Ec).
  erewrite st_bind_Ok by (by rewrite (st_bind_Ok _ _ _ _ _ L')). done.
Qed.

Lemma ctxMgrGetContext_by_slot_witness :
  exists c, heap full_table !! 0%nat = Some c /\ c_id c = 1 /\
    ctxMgrGetContext 77 full_table =
      Ok (Some 0%nat, with_heap full_table (<[0%nat := set_c_ref c (c_ref c +u 1)]> (heap full_table))).
Proof.
  apply (ctxMgrGetContext_by_slot full_table 1 0 77 full_table_ok); [| reflexivity].
  split; [reflexivity |]. exists ctx0. split; reflexivity.
Defined.

(** Session numbers.  [contextNewsession] returns the counter and advances
    it, never returning 0, and never repeating a number before the 32-bit
    counter wraps; at the wrap 1 is returned for two calls in a row. *)
Theorem contextNewsession_spec {Q} `{Fifo Q message} (s : sys Q) a c :
  heap s !! a = Some c -> 0 < c_sessionid c < 4294967296 ->
  exists r s' c', contextNewsession a s = Ok (r, s') /\ heap s' !! a = Some c' /\
    0 < r /\ 0 < c_sessionid c' < 4294967296 /\
    (c_sessionid c < 4294967295 -> r = c_sessionid c /\ c_sessionid c' = c_sessionid c + 1) /\
    (c_sessionid c = 4294967295 -> r = 1 /\ c_sessionid c' = 1).
Proof.
  intros E Hc. unfold contextNewsession.
  assert (L : load a s = Ok (c, s)) by (unfold load; by rewrite E).
  rewrite (st_bind_Ok _ _ _ _ _ L). erewrite st_bind_Ok by reflexivity. cbn [c_sessionid set_c_sessionid].
  destruct (Z.eq_dec (c_sessionid c) 4294967295) as [Hw | Hw].
  - rewrite Hw. change (4294967295 +u 1) with 0. cbn [Z.eqb]. erewrite st_bind_Ok by reflexivity.
    eexists _, _, _. split; [reflexivity |]. split; [by apply lookup_insert_eq |]. cbn. lia.
  - rewrite u32_small by lia. destruct (Z.eqb_spec (c_sessionid c + 1) 0); [lia |].
    eexists _, _, _. split; [reflexivity |]. split; [by apply lookup_insert_eq |]. cbn. lia.
Qed.

Lemma contextNewsession_spec_witness :
  exists r s' c', contextNewsession 0 full_table = Ok (r, s') /\ heap s' !! 0%nat = Some c' /\
    0 < r /\ 0 < c_sessionid c' < 4294967296.
Proof.
  destruct (contextNewsession_spec full_table 0 ctx0 eq_refl) as (r & s' & c' & E & Ec & Hr & Hs & _).
  - split; reflexivity.
  - exists r, s', c'. split; [exact E |]. split; [exact Ec |]. split; [exact Hr | exact Hs].
Defined.
