(* ===== verification/WorkerPool.v ===== *)
(** * worker_pool.c: sending messages and running contexts

    [workerPoolSend] is translated as a function for a caller that runs alone,
    and again, with [handle], as threads whose steps are the shared accesses of
    the code: a queue operation, a compare-and-swap, a critical section.  Both
    queues are any implementation of [Fifo]. *)
From S2P Require Import Prelude Fifo LockFree Define Context.

Section WorkerPool.
  Context {Q G : Type} `{FifoLaws Q message} `{FifoLaws G nat}.

(** [struct workerPool] beside the contexts: the global queue and [running]. *)
Record pool := Pool {
  base : sys Q;
  gqueue : G;
  running : bool;
}.

Definition with_base (p : pool) v := Pool v (gqueue p) (running p).
Definition with_gqueue (p : pool) v := Pool (base p) v (running p).
Definition on_base {A} (m : ST (sys Q) A) : ST pool A := fun p =>
  r ← m (base p); Ok (r.1, with_base p r.2).

(** [contextQueueSize(M->queue) > 0] *)
Definition workerPoolHaveWork (p : pool) : bool :=
  match q_elems (gqueue p) with [] => false | _ => true end.

(** [contextQueuePush]; its callers ignore the result. *)
Definition enqueue (a : nat) : ST pool unit := fun p =>
  r ← q_push a (gqueue p); Ok (tt, with_gqueue p r.2).

(** [CAS(&ctx->inGlobal, old, new)] *)
Definition casInGlobal (a : nat) (old new : Z) : ST pool bool :=
  c ← on_base (load a);
  if c_inGlobal c =? old then _ ← on_base (store a (set_c_inGlobal c new)); mret true
  else mret false.

(** [messageQueuePush] and the assertion on a full queue. *)
Definition pushMessage (a : nat) (m : message) : ST pool unit :=
  c ← on_base (load a);
  '(ok, q) ← st_lift (q_push m (c_queue c));
  _ ← on_base (store a (set_c_queue c q));
  st_assert ok.

(** ** A send without interference

    [ctx] is the sending context, or none. *)
Definition workerPoolSend (ctx : option nat) (fromid to sess ty : Z) (dat : option (list Z)) (size ud' : Z)
    : ST pool Z :=
  fromid ← (if fromid =? 0 then
              match ctx with Some x => c ← on_base (load x); mret (c_id c) | None => mret fromid end
            else mret fromid);
  if to =? 0 then mret (-1)
  else
    toctx ← on_base (ctxMgrGetContext to);
    match toctx with
    | None => mret (-1)
    | Some a =>
      sess ← (if negb (Z.land ty MSG_TYPE_NEWSESSION =? 0) then
                x ← st_lift (deref ctx); on_base (contextNewsession x)
              else mret sess);
      _ ← pushMessage a (Message fromid sess ty ud' size dat);
      won ← casInGlobal a 0 1;
      _ ← (if (won : bool) then enqueue a else on_base (ctxMgrReleaseContext a));
      mret (i32 sess)
    end.

Definition workerPoolStop : ST pool unit := st_modify (fun p => Pool (base p) (gqueue p) false).

(** ** Threads *)

(** Where a thread is; a sender in [workerPoolSend], a worker in [handle].  A
    callback runs as one step of its worker; what it sends is sent by a sender
    thread, whose steps may fall anywhere.  The fields of a message are filled in
    by the caller: they are private to it until the push. *)
Inductive wpc :=
  | SIdle
  | SRetain (o : option nat) (m : message)
  | SPush (a : nat) (m : message)
  | SCas (a : nat)
  | SEnq (a : nat)
  | SWake
  | WPop
  | WDisp (a : nat)
  | WRun (a : nat) (m : message)
  | WHave (a : nat)
  | WRepush (a : nat)
  | WCas (a : nat)
  | Rel (a : nat) (worker : bool)
  | Remove (id : Z) (worker : bool)
  | WNum (sleep : bool)
  | WSleepCheck
  | WSleep
  | WExit.

(** One step of a thread: the shared state after it and where the thread goes.
    A broadcast by the step is the third component. *)
Definition wstep (pc : wpc) (p : pool) : outcome (wpc * pool * bool) :=
  match pc with
  | SRetain o m =>
    r ← on_base (contextRetain o) p;
    Ok (match o with Some a => SPush a m | None => SIdle end, r.2, false)
  | SPush a m => r ← pushMessage a m p; Ok (SCas a, r.2, false)
  | SCas a => r ← casInGlobal a 0 1 p; Ok (if r.1 : bool then SEnq a else Rel a false, r.2, false)
  | SEnq a => r ← enqueue a p; Ok (SWake, r.2, false)
  | WPop =>
    r ← q_pop (gqueue p);
    Ok (match r.1 with Some a => WDisp a | None => WNum true end, with_gqueue p r.2, false)
  | WDisp a =>
    r ← on_base (contextDispatchMessage a) p;
    Ok (match r.1.2 with Some m => WRun a m | None => WCas a end, r.2, false)
  | WRun a m => Ok (WHave a, p, false)
  | WHave a => Ok (if workerPoolHaveWork p then WRepush a else WDisp a, p, false)
  | WRepush a => r ← enqueue a p; Ok (WNum false, r.2, false)
  | WCas a =>
    r ← casInGlobal a 1 0 p;
    if r.1 : bool then Ok (Rel a true, r.2, false) else Fault AssertFailed
  | Rel a w =>
    c ← (load a (base p) : outcome (context Q * sys Q));
    r ← on_base (contextRelease a) p;
    Ok (match r.1 with
        | None => Remove (i32 (c_id c.1)) w
        | Some _ => if w : bool then WNum true else SIdle
        end, r.2, false)
  | Remove id w =>
    r ← on_base (ctxMgrRemoveContext id) p; Ok (if w then WNum true else SIdle, r.2, false)
  | WNum sleep =>
    if contextNum (base p) =? 0 then Ok (WExit, Pool (base p) (gqueue p) false, true)
    else Ok (if sleep : bool then WSleepCheck else WPop, p, false)
  | WSleepCheck => Ok (if negb (workerPoolHaveWork p) && running p then WSleep else WPop, p, false)
  | SIdle | SWake | WSleep | WExit => Ok (pc, p, false)
  end.

(** [wsent] and [wran] log, in order, the messages pushed to and run by each
    context; no step reads them. *)
Record wstate := WState {
  wpool : pool;
  wthr : list wpc;
  wsent : list (nat * message);
  wran : list (nat * message);
}.

(** [ASend t id m]: an idle thread calls [workerPoolSend] and looks the target
    up under the read lock.  [AWake t w]: the signal of [threadWakeUp], which
    makes sleeping thread [w], if there is one, test its condition again. *)
Inductive waction := AStep (t : nat) | ASend (t : nat) (id : Z) (m : message) | AWake (t w : nat).

Definition asleep (pc : wpc) : bool := match pc with WSleep => true | _ => false end.
Definition wake_all (ts : list wpc) : list wpc := (fun pc => if asleep pc then WSleepCheck else pc) <$> ts.
Definition blocked (pc : wpc) : bool :=
  match pc with SIdle | SWake | WSleep | WExit => true | _ => false end.

(** [None]: the action is not possible now. *)
Definition wexec (x : waction) (s : wstate) : option (outcome wstate) :=
  match x with
  | AStep t =>
    match wthr s !! t with
    | Some pc =>
      if blocked pc then None
      else Some (
        r ← wstep pc (wpool s);
        let ts := <[t := r.1.1]> (wthr s) in
        Ok (WState r.1.2 (if r.2 : bool then wake_all ts else ts)
              (match pc with SPush a m => wsent s ++ [(a, m)] | _ => wsent s end)
              (match pc with WRun a m => wran s ++ [(a, m)] | _ => wran s end)))
    | None => None
    end
  | ASend t id m =>
    match wthr s !! t with
    | Some SIdle => Some (
        r ← on_base (ctxMgrLookup id) (wpool s);
        Ok (WState r.2 (<[t := SRetain r.1 m]> (wthr s)) (wsent s) (wran s)))
    | _ => None
    end
  | AWake t w =>
    match wthr s !! t with
    | Some SWake =>
      match wthr s !! w with
      | Some WSleep => Some (Ok (WState (wpool s) (<[t := SIdle]> (<[w := WSleepCheck]> (wthr s))) (wsent s) (wran s)))
      | _ => if forallb (fun pc => negb (asleep pc)) (wthr s)
             then Some (Ok (WState (wpool s) (<[t := SIdle]> (wthr s)) (wsent s) (wran s))) else None
      end
    | _ => None
    end
  end.

Inductive wnext : wstate -> wstate -> Prop :=
  | WNext x s s' : wexec x s = Some (Ok s') -> wnext s s'.

(** Execute a list of actions. *)
Fixpoint wrun (xs : list waction) (s : wstate) : option (outcome wstate) :=
  match xs with
  | [] => Some (Ok s)
  | x :: xs =>
    match wexec x s with
    | Some (Ok s') => wrun xs s'
    | Some (Fault f) => match xs with [] => Some (Fault f) | _ => None end
    | None => None
    end
  end.

Lemma wrun_sound xs s s' : wrun xs s = Some (Ok s') -> rtc wnext s s'.
Proof.
  revert s. induction xs as [| x xs IH]; intros s E; cbn [wrun] in E.
  - injection E as <-. apply rtc_refl.
  - destruct (wexec x s) as [[s1 | f] |] eqn:Ex; [| by destruct xs | done].
    eapply rtc_l; [by econstructor | by apply IH].
Qed.

(** ** One dispatcher per context *)

(** The right to dispatch a context: in the global queue, or with a thread. *)
Definition holds (a : nat) (pc : wpc) : bool :=
  match pc with
  | SEnq b | WDisp b | WRun b _ | WHave b | WRepush b | WCas b => bool_decide (b = a)
  | _ => false
  end.

Definition hold (a : nat) (pc : wpc) : Z := if holds a pc then 1 else 0.

Fixpoint thr_tokens (a : nat) (ts : list wpc) : Z :=
  match ts with [] => 0 | pc :: ts => hold a pc + thr_tokens a ts end.

Fixpoint queue_tokens (a : nat) (l : list nat) : Z :=
  match l with [] => 0 | b :: l => (if bool_decide (b = a) then 1 else 0) + queue_tokens a l end.

Definition tokens (a : nat) (s : wstate) : Z :=
  queue_tokens a (q_elems (gqueue (wpool s))) + thr_tokens a (wthr s).

(** The [inGlobal] flag of a context counts its tokens. *)
Definition flag (a : nat) (h : gmap nat (context Q)) : Z :=
  match h !! a with Some c => c_inGlobal c | None => 1 end.

Record winv (s : wstate) : Prop := {
  wi_queue : q_wf (gqueue (wpool s));
  wi_tokens : forall a, tokens a s <= flag a (heap (base (wpool s))) <= 1;
}.

(** What the table and reference operations leave alone: the queue, the
    callback and the flag of every context they do not free. *)
Definition same (c c' : context Q) : Prop :=
  c_queue c' = c_queue c /\ c_cb c' = c_cb c /\ c_inGlobal c' = c_inGlobal c.

Definition hkeep (h h' : gmap nat (context Q)) : Prop :=
  forall a c', h' !! a = Some c' -> exists c, h !! a = Some c /\ same c c'.

Lemma hkeep_refl h : hkeep h h.
Proof. intros a c' E. by exists c'. Qed.

Lemma hkeep_trans h1 h2 h3 : hkeep h1 h2 -> hkeep h2 h3 -> hkeep h1 h3.
Proof.
  intros K1 K2 a c3 E3. destruct (K2 a c3 E3) as (c2 & E2 & S2), (K1 a c2 E2) as (c1 & E1 & S1).
  exists c1. split; [done |]. unfold same in *. intuition congruence.
Qed.

Lemma hkeep_insert h a c c' : h !! a = Some c -> same c c' -> hkeep h (<[a := c']> h).
Proof. intros E Es b cb [[<- <-] | [_ Eb]]%lookup_insert_Some; [by exists c | by exists cb]. Qed.

Lemma hkeep_delete h a : hkeep h (delete a h).
Proof. intros b cb [_ Eb]%lookup_delete_Some. by exists cb. Qed.

Lemma hkeep_flag h h' a : hkeep h h' -> flag a h' = flag a h \/ flag a h' = 1.
Proof.
  intros K. unfold flag. destruct (h' !! a) as [c' |] eqn:E; [| by right].
  destruct (K a c' E) as (c & -> & _ & _ & Ei). by left.
Qed.

Lemma load_inv a (s : sys Q) c s' : load a s = Ok (c, s') -> s' = s /\ heap s !! a = Some c.
Proof. unfold load. destruct (heap s !! a); [| done]. by intros [= -> ->]. Qed.

Lemma contextRetain_keep o (s s' : sys Q) r : contextRetain o s = Ok (r, s') -> hkeep (heap s) (heap s').
Proof.
  destruct o as [a |]; cbn [contextRetain].
  - intros E. apply st_bind_inv in E as (c & s1 & L & E). apply load_inv in L as [-> L].
    injection E as _ <-. by eapply hkeep_insert.
  - intros [= _ <-]. apply hkeep_refl.
Qed.

Lemma contextRelease_keep a (s s' : sys Q) r : contextRelease a s = Ok (r, s') -> hkeep (heap s) (heap s').
Proof.
  unfold contextRelease. intros E. apply st_bind_inv in E as (c & s1 & L & E). apply load_inv in L as [-> L].
  apply st_bind_inv in E as (u & s2 & St & E). injection St as _ <-.
  assert (K1 : hkeep (heap s) (<[a := set_c_ref c (c_ref c -u 1)]> (heap s))) by (by eapply hkeep_insert).
  destruct (c_ref c =? 1); [| by injection E as _ <-].
  injection E as _ <-. eapply hkeep_trans; [exact K1 | apply hkeep_delete].
Qed.

(** A dispatch pops at most one message; the callback gets it unless it is an
    exit message or no callback is set. *)
Lemma contextDispatchMessage_inv a (s s' : sys Q) r :
  contextDispatchMessage a s = Ok (r, s') -> exists c, heap s !! a = Some c /\
    ((r.2 = None /\ heap s' = heap s /\ exists q, q_pop (c_queue c) = Ok (None, q)) \/
     exists m q, q_pop (c_queue c) = Ok (Some m, q) /\ hkeep (<[a := set_c_queue c q]> (heap s)) (heap s') /\
       r.2 = if c_cb c && negb (type m =? MSG_TYPE_EXIT_CONTEXT) then Some m else None).
Proof.
  unfold contextDispatchMessage. intros E. apply st_bind_inv in E as (c & s1 & L & E).
  apply load_inv in L as [-> L]. apply st_bind_inv in E as ([o q] & s2 & Ep & E).
  exists c. split; [done |].
  assert (s2 = s /\ q_pop (c_queue c) = Ok (o, q)) as [-> Eq].
  { unfold st_lift in Ep. destruct (q_pop (c_queue c)) as [[] |]; [| done]. by injection Ep as <- <- ->. }
  destruct o as [m |]; [right; exists m, q | left; injection E as <- <-; eauto].
  split; [done |]. apply st_bind_inv in E as (u & s3 & St & E). injection St as _ <-.
  destruct (c_cb c); cbn [negb] in E; [| injection E as <- <-; split; [apply hkeep_refl | done]].
  destruct (_ =? _); [| injection E as <- <-; split; [apply hkeep_refl | done]].
  apply st_bind_inv in E as (x & s4 & Er & E). apply contextRelease_keep in Er.
  apply st_bind_inv in E as (y & s5 & Ea & E). injection E as <- <-.
  assert (s5 = s4) as -> by (unfold st_assert, st_lift in Ea; destruct x; [by injection Ea as _ -> | done]).
  split; [exact Er | done].
Qed.

Lemma ctxMgrRemoveContext_keep id (s s' : sys Q) r : ctxMgrRemoveContext id s = Ok (r, s') -> heap s' = heap s.
Proof.
  unfold ctxMgrRemoveContext. destruct (id <? 0); [by intros [= _ <-] |].
  intros E. apply st_bind_inv in E as (s1 & s2 & G1 & E). injection G1 as <- <-.
  apply st_bind_inv in E as (o & s2 & G2 & E).
  assert (s2 = s) as -> by (unfold st_lift in G2; destruct (aget _ _); [by injection G2 as _ -> | done]).
  destruct o as [a |]; [| by injection E as _ <-].
  apply st_bind_inv in E as (tbl & s3 & G3 & E).
  assert (s3 = s) as -> by (unfold st_lift in G3; destruct (aset _ _ _); [by injection G3 as _ -> | done]).
  by injection E as _ <-.
Qed.

Lemma on_base_inv {A} (m : ST (sys Q) A) p r p' :
  on_base m p = Ok (r, p') -> exists b', m (base p) = Ok (r, b') /\ p' = with_base p b'.
Proof.
  unfold on_base. destruct (m (base p)) as [[r0 b'] | f]; [| done]. cbn. intros [= <- <-]. eauto.
Qed.

Lemma pushMessage_inv a m p p' r :
  pushMessage a m p = Ok (r, p') -> gqueue p' = gqueue p /\ exists c q, heap (base p) !! a = Some c /\
    q_push m (c_queue c) = Ok (true, q) /\ heap (base p') = <[a := set_c_queue c q]> (heap (base p)).
Proof.
  unfold pushMessage. intros E. apply st_bind_inv in E as (c & p1 & L & E).
  apply on_base_inv in L as (b1 & L & ->). apply load_inv in L as [-> L].
  apply st_bind_inv in E as ([ok q] & p2 & Ep & E).
  assert (p2 = with_base p (base p) /\ q_push m (c_queue c) = Ok (ok, q)) as [-> Eq].
  { unfold st_lift in Ep. destruct (q_push _ _) as [[] |]; [| done]. by injection Ep as <- <- ->. }
  apply st_bind_inv in E as (u & p3 & St & E). apply on_base_inv in St as (b2 & St & ->).
  injection St as _ <-. destruct ok; [| done]. injection E as _ <-. split; [done |]. by exists c, q.
Qed.

Lemma casInGlobal_inv a old new p r p' :
  casInGlobal a old new p = Ok (r, p') ->
  gqueue p' = gqueue p /\ exists c, heap (base p) !! a = Some c /\
  ((r = true /\ c_inGlobal c = old /\ heap (base p') = <[a := set_c_inGlobal c new]> (heap (base p))) \/
   (r = false /\ c_inGlobal c <> old /\ heap (base p') = heap (base p))).
Proof.
  unfold casInGlobal. intros E. apply st_bind_inv in E as (c & p1 & L & E).
  apply on_base_inv in L as (b1 & L & ->). apply load_inv in L as [-> L].
  destruct (Z.eqb_spec (c_inGlobal c) old) as [Eo | Eo].
  - apply st_bind_inv in E as (u & p3 & St & E). apply on_base_inv in St as (b2 & St & ->).
    injection St as _ <-. injection E as <- <-. split; [done |]. exists c. split; [done |]. by left.
  - injection E as <- <-. split; [done |]. exists c. split; [done |]. by right.
Qed.

(** ** Token accounting *)

Lemma hold_bounds a pc : 0 <= hold a pc <= 1.
Proof. unfold hold. destruct (holds a pc); lia. Qed.

Lemma thr_tokens_insert a ts t pc pc' :
  ts !! t = Some pc -> thr_tokens a (<[t := pc']> ts) = thr_tokens a ts - hold a pc + hold a pc'.
Proof.
  revert t. induction ts as [| p0 ts IH]; intros [| t] E; simplify_eq/=; [lia |].
  rewrite (IH t E). lia.
Qed.

Lemma thr_tokens_nonneg a ts : 0 <= thr_tokens a ts.
Proof. induction ts as [| p ts IH]; cbn; [lia |]. pose proof (hold_bounds a p). lia. Qed.

Lemma thr_tokens_wake a ts : thr_tokens a (wake_all ts) = thr_tokens a ts.
Proof. induction ts as [| p ts IH]; [done |]. cbn. rewrite <- IH. by destruct p. Qed.

Lemma thr_tokens_hold a ts t pc : ts !! t = Some pc -> hold a pc <= thr_tokens a ts.
Proof.
  intros E. pose proof (thr_tokens_insert a ts t pc SIdle E) as Hi.
  pose proof (thr_tokens_nonneg a (<[t := SIdle]> ts)).
  change (hold a SIdle) with 0 in Hi. lia.
Qed.

Lemma queue_tokens_app a l1 l2 : queue_tokens a (l1 ++ l2) = queue_tokens a l1 + queue_tokens a l2.
Proof. induction l1 as [| b l1 IH]; cbn in *; lia. Qed.

Lemma queue_tokens_nonneg a l : 0 <= queue_tokens a l.
Proof. induction l as [| b l IH]; cbn; [lia |]. destruct (bool_decide _); lia. Qed.

Lemma enqueue_inv a p p' r :
  q_wf (gqueue p) -> enqueue a p = Ok (r, p') ->
  base p' = base p /\ q_wf (gqueue p') /\
  forall b, queue_tokens b (q_elems (gqueue p')) <= queue_tokens b (q_elems (gqueue p)) + (if bool_decide (a = b) then 1 else 0).
Proof.
  intros W E. unfold enqueue in E. destruct (q_push_spec (gqueue p) a W) as (ok & q & Ep & W' & El).
  rewrite Ep in E. injection E as _ <-. split; [done |]. split; [done |]. intros b. cbn [with_gqueue gqueue].
  rewrite El. destruct ok; [rewrite queue_tokens_app; cbn [queue_tokens] |]; destruct (bool_decide _); lia.
Qed.

(** What a step does to the tokens of every context: the global queue and the
    thread gain no more than the flag does. *)
Definition tok_step (pc pc' : wpc) (p p' : pool) : Prop :=
  forall a, queue_tokens a (q_elems (gqueue p')) + hold a pc' + flag a (heap (base p)) <=
    queue_tokens a (q_elems (gqueue p)) + hold a pc + flag a (heap (base p')) /\
    flag a (heap (base p')) <= 1.

Lemma tok_step_flag pc pc' p p' :
  (forall a, flag a (heap (base p)) <= 1) ->
  (forall a, flag a (heap (base p')) = flag a (heap (base p)) \/ flag a (heap (base p')) = 1) ->
  (forall a, queue_tokens a (q_elems (gqueue p')) + hold a pc' <= queue_tokens a (q_elems (gqueue p)) + hold a pc) ->
  tok_step pc pc' p p'.
Proof. intros F K Ht a. specialize (F a). specialize (Ht a). destruct (K a) as [-> | ->]; lia. Qed.

Lemma tok_step_keep pc pc' p p' :
  (forall a, flag a (heap (base p)) <= 1) -> hkeep (heap (base p)) (heap (base p')) ->
  (forall a, queue_tokens a (q_elems (gqueue p')) + hold a pc' <= queue_tokens a (q_elems (gqueue p)) + hold a pc) ->
  tok_step pc pc' p p'.
Proof. intros F K Ht. apply tok_step_flag; [done | | done]. intros a. by apply hkeep_flag. Qed.

Lemma flag_insert a b (h : gmap nat (context Q)) c : flag b (<[a := c]> h) = if bool_decide (a = b) then c_inGlobal c else flag b h.
Proof. unfold flag. case_bool_decide; subst; [by rewrite lookup_insert_eq | by rewrite lookup_insert_ne]. Qed.

Lemma flag_set_queue a (h : gmap nat (context Q)) c q b :
  h !! a = Some c -> flag b (<[a := set_c_queue c q]> h) = flag b h.
Proof. intros E. rewrite flag_insert. case_bool_decide; subst; [unfold flag; by rewrite E | done]. Qed.

Lemma tok_step_cas pc pc' p p' a c v :
  (forall b, flag b (heap (base p)) <= 1) -> gqueue p' = gqueue p -> heap (base p) !! a = Some c ->
  heap (base p') = <[a := set_c_inGlobal c v]> (heap (base p)) -> v <= 1 ->
  (forall b, hold b pc' + (if bool_decide (a = b) then c_inGlobal c else 0) <=
     hold b pc + (if bool_decide (a = b) then v else 0)) ->
  tok_step pc pc' p p'.
Proof.
  intros F Eg Ec Eh Hv Ht b. rewrite Eg, Eh, flag_insert. specialize (F b). specialize (Ht b).
  destruct (decide (a = b)) as [-> | Hne]; [rewrite bool_decide_true in * by done | rewrite bool_decide_false in * by done]; [| lia].
  unfold flag at 1. rewrite Ec. cbn [set_c_inGlobal c_inGlobal]. lia.
Qed.

(** A thread that holds [a] puts it on the global queue; a worker takes one. *)
Lemma tok_step_enqueue pc pc' a p p1 r :
  q_wf (gqueue p) -> (forall b, flag b (heap (base p)) <= 1) ->
  (forall b, hold b pc' + (if bool_decide (a = b) then 1 else 0) <= hold b pc) ->
  enqueue a p = Ok (r, p1) -> q_wf (gqueue p1) /\ tok_step pc pc' p p1.
Proof.
  intros W F Hh E. apply (enqueue_inv _ _ _ _ W) in E as (Eb & W' & Hq). split; [done |].
  apply tok_step_keep; [done | rewrite Eb; apply hkeep_refl |].
  intros b. specialize (Hq b). specialize (Hh b). lia.
Qed.

Lemma tok_step_pop p r q :
  q_wf (gqueue p) -> (forall b, flag b (heap (base p)) <= 1) -> q_pop (gqueue p) = Ok (r, q) ->
  q_wf q /\ tok_step WPop (match r with Some a => WDisp a | None => WNum true end) p (with_gqueue p q).
Proof.
  intros W F E. destruct (q_elems (gqueue p)) as [| x rest] eqn:El.
  - rewrite (q_pop_nil _ W El) in E. injection E as <- <-. split; [done |].
    apply tok_step_keep; [done | apply hkeep_refl |]. intros b. cbn. rewrite El. cbn. lia.
  - destruct (q_pop_cons _ _ _ W El) as (q2 & Ep & W' & El'). rewrite Ep in E. injection E as <- <-.
    split; [done |]. apply tok_step_keep; [done | apply hkeep_refl |]. intros b. cbn. rewrite El, El'. cbn.
    unfold hold, holds. lia.
Qed.

Lemma wstep_tokens pc p pc' p' b :
  q_wf (gqueue p) -> (forall a, flag a (heap (base p)) <= 1) -> wstep pc p = Ok (pc', p', b) ->
  q_wf (gqueue p') /\ tok_step pc pc' p p'.
Proof.
  intros W F E.
  assert (K0 : forall pc1 pc2, (forall a, hold a pc2 <= hold a pc1) -> tok_step pc1 pc2 p p).
  { intros pc1 pc2 Hh. apply tok_step_keep; [done | apply hkeep_refl |]. intros a. specialize (Hh a). lia. }
  assert (Kb : forall pc1 pc2 b1, (forall a, hold a pc2 <= hold a pc1) -> hkeep (heap (base p)) (heap b1) ->
    tok_step pc1 pc2 p (with_base p b1)).
  { intros pc1 pc2 b1 Hh K. apply tok_step_keep; [done | done |]. intros a. specialize (Hh a). cbn. lia. }
  assert (Kw : forall pc1, (forall a, 0 <= hold a pc1)) by (intros; apply hold_bounds).
  destruct pc as [| o m | a m | a | a | | | a | a m | a | a | a | a w | id w | sl | | |]; cbn [wstep] in E;
    try (injection E as <- <- _; split; [done |]; by apply K0).
  - apply bind_Ok_inv in E as ([r p1] & E1 & E). injection E as <- <- _.
    apply on_base_inv in E1 as (b1 & E1 & ->). split; [done |].
    apply Kb; [by destruct o |]. by eapply contextRetain_keep.
  - apply bind_Ok_inv in E as ([r p1] & E1 & E). injection E as <- <- _.
    apply pushMessage_inv in E1 as (Eg & c & q & Ec & _ & Eh). cbn [snd]. rewrite Eg. split; [done |].
    apply tok_step_flag; [done | | by intros; cbn; rewrite Eg]. left. rewrite Eh. by apply flag_set_queue.
  - apply bind_Ok_inv in E as ([r p1] & E1 & E). injection E as <- <- _.
    apply casInGlobal_inv in E1 as (Eg & c & Ec & [(-> & Ei & Eh) | (-> & Ei & Eh)]); cbn [fst snd]; rewrite Eg;
      (split; [done |]).
    + eapply tok_step_cas; [done | done | done | done | lia |]. intros b'. rewrite Ei.
      unfold hold, holds. destruct (bool_decide _); lia.
    + apply tok_step_keep; [done | by rewrite Eh; apply hkeep_refl | by intros; rewrite Eg; cbn].
  - apply bind_Ok_inv in E as ([r p1] & E1 & E). injection E as <- <- _. apply (tok_step_enqueue _ _ a p p1 r); [done | done | | done].
    intros b'. unfold hold, holds. destruct (bool_decide _); lia.
  - apply bind_Ok_inv in E as ([r q1] & E1 & E). injection E as <- <- _. cbn [fst snd].
    by apply (tok_step_pop p r q1).
  - apply bind_Ok_inv in E as ([r p1] & E1 & E). injection E as <- <- _.
    apply on_base_inv in E1 as (b1 & E1 & ->). split; [done |]. cbn [fst snd].
    apply tok_step_flag; [done | | intros b'; by destruct r as [z [m |]]; cbn; unfold hold, holds; lia]. intros b'.
    cbn [base with_base].
    apply contextDispatchMessage_inv in E1 as (c & Ec & [(_ & -> & _) | (m & q & _ & K & _)]); [by left |].
    apply (hkeep_flag _ _ b') in K. by rewrite (flag_set_queue _ _ _ _ _ Ec) in K.
  - injection E as <- <- _. split; [done |]. apply K0. by destruct (workerPoolHaveWork p).
  - apply bind_Ok_inv in E as ([r p1] & E1 & E). injection E as <- <- _. apply (tok_step_enqueue _ _ a p p1 r); [done | done | | done].
    intros b'. unfold hold, holds. destruct (bool_decide _); lia.
  - apply bind_Ok_inv in E as ([r p1] & E1 & E).
    apply casInGlobal_inv in E1 as (Eg & c & Ec & [(-> & Ei & Eh) | (-> & Ei & Eh)]); [| done].
    injection E as <- <- _. rewrite Eg. split; [done |].
    eapply tok_step_cas; [done | done | done | done | lia |]. intros b'. rewrite Ei.
    unfold hold, holds. destruct (bool_decide _); lia.
  - apply bind_Ok_inv in E as ([c s1] & _ & E). apply bind_Ok_inv in E as ([r p1] & E1 & E).
    injection E as <- <- _. apply on_base_inv in E1 as (b1 & E1 & ->). split; [done |].
    apply Kb; [by destruct r, w | by eapply contextRelease_keep].
  - apply bind_Ok_inv in E as ([r p1] & E1 & E). injection E as <- <- _.
    apply on_base_inv in E1 as (b1 & E1 & ->). split; [done |].
    apply Kb; [by destruct w |]. rewrite (ctxMgrRemoveContext_keep _ _ _ _ E1). apply hkeep_refl.
  - destruct (_ =? 0); injection E as <- <- _; (split; [done |]).
    + apply tok_step_keep; [done | apply hkeep_refl | done].
    + apply K0. by destruct sl.
  - injection E as <- <- _. split; [done |]. apply K0. by destruct (_ && _).
Qed.

Lemma winv_flag s a : winv s -> flag a (heap (base (wpool s))) <= 1.
Proof. intros I. apply (wi_tokens _ I a). Qed.

(** A thread goes from [pc] to [pc'] while the pool goes to [p']. *)
Lemma winv_move s t pc pc' p' ts' sent ran :
  winv s -> wthr s !! t = Some pc -> q_wf (gqueue p') -> tok_step pc pc' (wpool s) p' ->
  (forall a, thr_tokens a ts' = thr_tokens a (<[t := pc']> (wthr s))) ->
  winv (WState p' ts' sent ran).
Proof.
  intros I Et W T Hts. split; [done |]. intros a. pose proof (wi_tokens _ I a) as Ha. unfold tokens in *. cbn.
  rewrite Hts, (thr_tokens_insert _ _ _ _ _ Et). destruct (T a). lia.
Qed.

Lemma wnext_step_inv s t s' :
  wexec (AStep t) s = Some (Ok s') -> exists pc pc' p' b,
    wthr s !! t = Some pc /\ wstep pc (wpool s) = Ok (pc', p', b) /\ wpool s' = p' /\
    wthr s' = (if b : bool then wake_all (<[t := pc']> (wthr s)) else <[t := pc']> (wthr s)) /\
    wsent s' = (match pc with SPush a m => wsent s ++ [(a, m)] | _ => wsent s end) /\
    wran s' = (match pc with WRun a m => wran s ++ [(a, m)] | _ => wran s end).
Proof.
  cbn [wexec]. destruct (wthr s !! t) as [pc |]; [| done]. destruct (blocked pc); [done |].
  intros [= E]. apply bind_Ok_inv in E as ([[pc' p'] b] & Es & E). injection E as <-.
  exists pc, pc', p', b. done.
Qed.

Lemma winv_next s s' : winv s -> wnext s s' -> winv s'.
Proof.
  intros I N. revert I. destruct N as [x s0 s1 E]. intros I. pose proof (fun a => winv_flag _ a I) as F.
  destruct x as [t | t id m | t w].
  - apply wnext_step_inv in E as (pc & pc' & p' & b & Et & Es & Ep & Ets & _).
    destruct (wstep_tokens _ _ _ _ _ (wi_queue _ I) F Es) as [W T].
    destruct s1 as [p1 ts1 st1 rn1]; cbn in *; subst p1 ts1. eapply winv_move; [done | done | done | done |].
    intros a. destruct b; [apply thr_tokens_wake | done].
  - cbn [wexec] in E. destruct (wthr s0 !! t) as [[] |] eqn:Et; try done. injection E as E.
    apply bind_Ok_inv in E as ([o p'] & El & E). injection E as <-.
    apply on_base_inv in El as (b1 & El & ->).
    assert (b1 = base (wpool s0)) as ->.
    { unfold ctxMgrLookup in El. erewrite st_bind_Ok in El by reflexivity. unfold st_lift in El.
      destruct (aget _ _); [by injection El as _ -> | done]. }
    eapply winv_move; [done | done | exact (wi_queue _ I) | | done].
    apply tok_step_keep; [done | apply hkeep_refl | intros a; cbn; lia].
  - cbn [wexec] in E. destruct (wthr s0 !! t) as [[] |] eqn:Et; try done.
    assert (Hid : winv (WState (wpool s0) (<[t := SIdle]> (wthr s0)) (wsent s0) (wran s0))).
    { eapply winv_move; [done | done | exact (wi_queue _ I) | | done].
      apply tok_step_keep; [done | apply hkeep_refl | intros a; cbn; lia]. }
    destruct (wthr s0 !! w) as [pc |] eqn:Ew.
    + destruct pc; try (destruct (forallb _ _); [by injection E as <- | done]). injection E as <-.
      split; [exact (wi_queue _ I) |]. intros a. pose proof (wi_tokens _ I a). unfold tokens in *. cbn.
      assert (<[w := WSleepCheck]> (wthr s0) !! t = Some SWake).
      { rewrite list_lookup_insert_ne; [done |]. congruence. }
      erewrite !thr_tokens_insert by eassumption. cbn. lia.
    + destruct (forallb _ _); [by injection E as <- | done].
Qed.

(** A pool at rest: every context is outside the global queue with an empty
    queue and a callback, and every thread is idle or looking for work. *)
Record winit (s : wstate) : Prop := {
  in_queue : q_wf (gqueue (wpool s)) /\ q_elems (gqueue (wpool s)) = [];
  in_thr : Forall (fun pc => pc = SIdle \/ pc = WPop \/ pc = WSleep) (wthr s);
  in_ctx : forall a c, heap (base (wpool s)) !! a = Some c ->
    q_wf (c_queue c) /\ q_elems (c_queue c) = [] /\ c_cb c = true /\ c_inGlobal c = 0;
  in_log : wsent s = [] /\ wran s = [];
}.

Lemma winit_tokens s a : winit s -> tokens a s = 0.
Proof.
  intros I. unfold tokens. destruct (in_queue _ I) as [_ ->]. cbn. pose proof (in_thr _ I) as Ht.
  induction Ht as [| pc ts Hpc _ IH]; [done |]. cbn in *. destruct Hpc as [-> | [-> | ->]]; cbn; lia.
Qed.

Lemma winit_winv s : winit s -> winv s.
Proof.
  intros I. split; [apply (in_queue _ I) |]. intros a. rewrite winit_tokens by done. unfold flag.
  destruct (heap _ !! a) as [c |] eqn:E; [| lia]. destruct (in_ctx _ I a c E) as (_ & _ & _ & ->). lia.
Qed.

Lemma winv_reachable s s' : winv s -> rtc wnext s s' -> winv s'.
Proof. intros I R. induction R as [| s1 s2 s3 N _ IH]; [done |]. apply IH. by eapply winv_next. Qed.

Lemma thr_tokens_two a ts t1 t2 pc1 pc2 :
  ts !! t1 = Some pc1 -> ts !! t2 = Some pc2 -> t1 <> t2 -> hold a pc1 + hold a pc2 <= thr_tokens a ts.
Proof.
  intros E1 E2 Hne. pose proof (thr_tokens_insert a ts t1 pc1 SIdle E1) as Hi.
  assert (E2' : <[t1 := SIdle]> ts !! t2 = Some pc2) by (by rewrite list_lookup_insert_ne).
  pose proof (thr_tokens_hold a _ _ _ E2'). change (hold a SIdle) with 0 in Hi. lia.
Qed.

(** ** The messages of one context *)

Definition of_ctx (a : nat) (l : list (nat * message)) : list message :=
  snd <$> filter (fun x => x.1 = a) l.

(** Exit messages are consumed by the dispatcher; the others are run. *)
Definition runnable (l : list message) : list message :=
  filter (fun m => type m <> MSG_TYPE_EXIT_CONTEXT) l.

(** The message a thread has taken from the queue and is about to run. *)
Definition taken (a : nat) (pc : wpc) : list message :=
  match pc with WRun b m => if bool_decide (b = a) then [m] else [] | _ => [] end.

Definition flight (a : nat) (ts : list wpc) : list message := ts ≫= taken a.

Record finv (s : wstate) : Prop := {
  fi_ctx : forall a c, heap (base (wpool s)) !! a = Some c -> q_wf (c_queue c) /\ c_cb c = true;
  fi_order : forall a, exists rest,
    runnable (of_ctx a (wsent s)) = of_ctx a (wran s) ++ flight a (wthr s) ++ rest /\
    forall c, heap (base (wpool s)) !! a = Some c -> rest = runnable (q_elems (c_queue c));
}.

Lemma of_ctx_app a l1 l2 : of_ctx a (l1 ++ l2) = of_ctx a l1 ++ of_ctx a l2.
Proof. unfold of_ctx. by rewrite filter_app, fmap_app. Qed.

Lemma of_ctx_one a b m : of_ctx a [(b, m)] = if bool_decide (b = a) then [m] else [].
Proof. unfold of_ctx. case_bool_decide as E; [by rewrite filter_cons_True | by rewrite filter_cons_False]. Qed.

Lemma runnable_app l1 l2 : runnable (l1 ++ l2) = runnable l1 ++ runnable l2.
Proof. apply filter_app. Qed.

Lemma runnable_one m : runnable [m] = if type m =? MSG_TYPE_EXIT_CONTEXT then [] else [m].
Proof.
  unfold runnable. destruct (Z.eqb_spec (type m) MSG_TYPE_EXIT_CONTEXT) as [E | E];
    [rewrite filter_cons_False | rewrite filter_cons_True]; auto.
Qed.

Lemma flight_other a ts t pc pc' :
  ts !! t = Some pc -> taken a pc' = taken a pc -> flight a (<[t := pc']> ts) = flight a ts.
Proof.
  revert t. unfold flight. induction ts as [| p0 ts IH]; intros [| t] E Ht; simplify_eq/=; [by rewrite Ht |].
  by rewrite (IH t).
Qed.

Lemma flight_nil a ts : thr_tokens a ts <= 0 -> flight a ts = [].
Proof.
  unfold flight. induction ts as [| p ts IH]; [done |]. cbn. intros H'. pose proof (thr_tokens_nonneg a ts).
  pose proof (hold_bounds a p). rewrite IH by lia. assert (Hp : hold a p = 0) by lia. rewrite app_nil_r.
  destruct p; try done. unfold hold, holds in Hp. cbn. by destruct (bool_decide _).
Qed.

(** The only thread that may hold a message of [a] is the one with its token. *)
Lemma flight_single a ts t pc pc' :
  thr_tokens a ts <= 1 -> ts !! t = Some pc -> hold a pc = 1 -> flight a (<[t := pc']> ts) = taken a pc'.
Proof.
  unfold flight. revert t. induction ts as [| p0 ts IH]; intros [| t] Ht E Hh; simplify_eq/=.
  - fold (flight a ts). rewrite flight_nil by lia. apply app_nil_r.
  - rewrite (IH t) by first [done | pose proof (hold_bounds a p0); lia].
    pose proof (thr_tokens_hold a ts t pc E). pose proof (hold_bounds a p0).
    assert (Hp : hold a p0 = 0) by lia.
    destruct p0; try done. unfold hold, holds in Hp. cbn. by destruct (bool_decide _).
Qed.

Lemma flight_wake a ts : flight a (wake_all ts) = flight a ts.
Proof. unfold flight. induction ts as [| p ts IH]; [done |]. cbn. unfold wake_all in IH. rewrite IH. by destruct p. Qed.

(** The part of [hkeep] that concerns messages. *)
Definition qkeep (h h' : gmap nat (context Q)) : Prop :=
  forall a c', h' !! a = Some c' -> exists c, h !! a = Some c /\ c_queue c' = c_queue c /\ c_cb c' = c_cb c.

Lemma hkeep_qkeep h h' : hkeep h h' -> qkeep h h'.
Proof. intros K a c' E. destruct (K a c' E) as (c & Ec & Eq & Eb & _). by exists c. Qed.

(** A step that neither pushes, pops nor runs. *)
Lemma finv_keep s p' ts' :
  finv s -> qkeep (heap (base (wpool s))) (heap (base p')) -> (forall a, flight a ts' = flight a (wthr s)) ->
  finv (WState p' ts' (wsent s) (wran s)).
Proof.
  intros [Fc Fo] K Hf. split; cbn [wpool wthr wsent wran base with_base with_heap heap].
  - intros a c' E. destruct (K a c' E) as (c & Ec & -> & ->). by apply (Fc a).
  - intros a. destruct (Fo a) as (rest & Eo & Er). exists rest. rewrite Hf. split; [done |].
    intros c' E. destruct (K a c' E) as (c & Ec & -> & _). by apply Er.
Qed.

(** A message is pushed on the queue of [a]. *)
Lemma finv_push s p' ts' a m c q :
  finv s -> heap (base (wpool s)) !! a = Some c -> q_wf q -> q_elems q = q_elems (c_queue c) ++ [m] ->
  heap (base p') = <[a := set_c_queue c q]> (heap (base (wpool s))) ->
  (forall b, flight b ts' = flight b (wthr s)) ->
  finv (WState p' ts' (wsent s ++ [(a, m)]) (wran s)).
Proof.
  intros [Fc Fo] Ec W Eq Eh Hf. split; cbn [wpool wthr wsent wran]; rewrite Eh.
  - intros b cb [[<- <-] | [_ E]]%lookup_insert_Some; [| by apply (Fc b)]. split; [done |].
    apply (Fc a c Ec).
  - intros b. destruct (Fo b) as (rest & Eo & Er). rewrite of_ctx_app, of_ctx_one, Hf, runnable_app, Eo.
    case_bool_decide as Hab.
    + subst b. exists (rest ++ runnable [m]). rewrite !app_assoc. split; [done |]. intros cb Ecb.
      rewrite lookup_insert_eq in Ecb. injection Ecb as <-. cbn. rewrite Eq, runnable_app. by rewrite (Er c Ec).
    + exists rest. cbn. rewrite app_nil_r. split; [done |]. intros cb Ecb.
      rewrite lookup_insert_ne in Ecb by done. by apply Er.
Qed.

(** A message is popped from the queue of [a] and kept, or dropped if it is an
    exit message. *)
Lemma finv_pop s p' ts' a m c q :
  finv s -> heap (base (wpool s)) !! a = Some c -> q_wf q -> q_elems (c_queue c) = m :: q_elems q ->
  hkeep (<[a := set_c_queue c q]> (heap (base (wpool s)))) (heap (base p')) ->
  flight a (wthr s) = [] -> flight a ts' = runnable [m] ->
  (forall b, b <> a -> flight b ts' = flight b (wthr s)) ->
  finv (WState p' ts' (wsent s) (wran s)).
Proof.
  intros F Ec W Eq K Hf0 Hf1 Hf2.
  assert (F1 : finv (WState (with_base (wpool s) (with_heap (base (wpool s)) (<[a := set_c_queue c q]> (heap (base (wpool s))))))
    ts' (wsent s) (wran s))); [| apply (finv_keep _ p' ts' F1 (hkeep_qkeep _ _ K) (fun _ => eq_refl))].
  destruct F as [Fc Fo]. split; cbn [wpool wthr wsent wran base with_base with_heap heap].
  - intros b cb [[<- <-] | [_ E]]%lookup_insert_Some; [| by apply (Fc b)]. split; [done |].
    apply (Fc a c Ec).
  - intros b. destruct (Fo b) as (rest & Eo & Er). destruct (decide (b = a)) as [-> | Hne].
    + exists (runnable (q_elems q)). rewrite Eo, Hf0, Hf1, (Er c Ec), Eq. split.
      * change (m :: q_elems q) with ([m] ++ q_elems q). by rewrite runnable_app.
      * intros cb Ecb. rewrite lookup_insert_eq in Ecb. by injection Ecb as <-.
    + exists rest. rewrite Hf2 by done. split; [done |]. intros cb Ecb.
      rewrite lookup_insert_ne in Ecb by done. by apply Er.
Qed.

(** A taken message is run. *)
Lemma finv_run s ts' a m :
  finv s -> flight a (wthr s) = [m] -> flight a ts' = [] ->
  (forall b, b <> a -> flight b ts' = flight b (wthr s)) ->
  finv (WState (wpool s) ts' (wsent s) (wran s ++ [(a, m)])).
Proof.
  intros [Fc Fo] Hf0 Hf1 Hf2. split; [done |]. intros b. cbn [wpool wthr wsent wran]. destruct (Fo b) as (rest & Eo & Er).
  exists rest. split; [| done]. rewrite of_ctx_app, of_ctx_one, Eo. case_bool_decide as Hab.
  - subst b. by rewrite Hf0, Hf1, <- app_assoc.
  - by rewrite Hf2, app_nil_r by done.
Qed.

Lemma wstep_qkeep pc p pc' p' b :
  wstep pc p = Ok (pc', p', b) ->
  match pc with SPush _ _ | WDisp _ => True
  | _ => qkeep (heap (base p)) (heap (base p')) /\ forall a, taken a pc' = []
  end.
Proof.
  intros E. assert (K0 : qkeep (heap (base p)) (heap (base p))) by apply hkeep_qkeep, hkeep_refl.
  destruct pc as [| o m | a m | a | a | | | a | a m | a | a | a | a w | id w | sl | | |]; cbn [wstep] in E;
    try done; try (injection E as <- <- _; by split).
  - apply bind_Ok_inv in E as ([r p1] & E1 & E). injection E as <- <- _.
    apply on_base_inv in E1 as (b1 & E1 & ->). split; [| by destruct o].
    apply hkeep_qkeep. by eapply contextRetain_keep.
  - apply bind_Ok_inv in E as ([r p1] & E1 & E). injection E as <- <- _. split; [| by destruct r].
    apply casInGlobal_inv in E1 as (_ & c & Ec & [(_ & _ & Eh) | (_ & _ & Eh)]); cbn [snd]; rewrite Eh; [| done].
    intros b' cb [[<- <-] | [_ Eb]]%lookup_insert_Some; [by exists c | by exists cb].
  - apply bind_Ok_inv in E as ([r p1] & E1 & E). injection E as <- <- _. split; [| done].
    unfold enqueue in E1. apply bind_Ok_inv in E1 as ([ok q] & _ & E1). by injection E1 as _ <-.
  - apply bind_Ok_inv in E as ([r q1] & E1 & E). injection E as <- <- _. split; [done |]. by destruct r.
  - injection E as <- <- _. split; [done |]. by destruct (workerPoolHaveWork p).
  - apply bind_Ok_inv in E as ([r p1] & E1 & E). injection E as <- <- _. split; [| done].
    unfold enqueue in E1. apply bind_Ok_inv in E1 as ([ok q] & _ & E1). by injection E1 as _ <-.
  - apply bind_Ok_inv in E as ([r p1] & E1 & E). destruct r; [| done]. injection E as <- <- _. split; [| done].
    apply casInGlobal_inv in E1 as (_ & c & Ec & [(_ & _ & Eh) | (_ & _ & Eh)]); cbn [snd]; rewrite Eh; [| done].
    intros b' cb [[<- <-] | [_ Eb]]%lookup_insert_Some; [by exists c | by exists cb].
  - apply bind_Ok_inv in E as ([c s1] & _ & E). apply bind_Ok_inv in E as ([r p1] & E1 & E).
    injection E as <- <- _. apply on_base_inv in E1 as (b1 & E1 & ->). split; [| by destruct r, w].
    apply hkeep_qkeep. by eapply contextRelease_keep.
  - apply bind_Ok_inv in E as ([r p1] & E1 & E). injection E as <- <- _.
    apply on_base_inv in E1 as (b1 & E1 & ->). cbn. rewrite (ctxMgrRemoveContext_keep _ _ _ _ E1).
    split; [done | by destruct w].
  - destruct (_ =? 0); injection E as <- <- _; (split; [done |]); [done | by destruct sl].
  - injection E as <- <- _. split; [done |]. by destruct (_ && _).
Qed.

Lemma thr_tokens_le_1 a s : winv s -> thr_tokens a (wthr s) <= 1.
Proof.
  intros I. pose proof (wi_tokens _ I a). pose proof (queue_tokens_nonneg a (q_elems (gqueue (wpool s)))).
  unfold tokens in *. lia.
Qed.

Lemma hold_same (a : nat) : (if bool_decide (a = a) then 1 else 0) = 1.
Proof. by rewrite bool_decide_true. Qed.

Lemma finv_step s pc pc' p' b t :
  winv s -> finv s -> wthr s !! t = Some pc -> wstep pc (wpool s) = Ok (pc', p', b) ->
  finv (WState p' (<[t := pc']> (wthr s))
     (match pc with SPush a m => wsent s ++ [(a, m)] | _ => wsent s end)
     (match pc with WRun a m => wran s ++ [(a, m)] | _ => wran s end)).
Proof.
  intros I F Et Es. pose proof (wstep_qkeep _ _ _ _ _ Es) as K.
  destruct pc as [| o m | a m | a | a | | | a | a m | a | a | a | a w | id w | sl | | |];
    try (apply finv_keep; [done | by apply K | intros x; apply (flight_other _ _ _ _ _ Et); apply K]).
  - cbn [wstep] in Es. apply bind_Ok_inv in Es as ([r p1] & E1 & E). injection E as <- <- _.
    apply pushMessage_inv in E1 as (_ & c & q & Ec & Eq & Eh). destruct (fi_ctx _ F a c Ec) as [W _].
    destruct (q_push_spec (c_queue c) m W) as (ok & q1 & Eq1 & W1 & El). rewrite Eq1 in Eq. injection Eq as -> ->.
    eapply finv_push; [done | done | done | done | done |]. intros x. by rewrite (flight_other _ _ _ _ _ Et).
  - cbn [wstep] in Es. apply bind_Ok_inv in Es as ([[z o] p1] & E1 & E). injection E as <- <- _.
    apply on_base_inv in E1 as (b1 & E1 & ->). cbn [fst snd].
    apply contextDispatchMessage_inv in E1 as (c & Ec & [(Eo & Eh & _) | (m & q & Ep & Kd & Eo)]); cbn [snd] in Eo; subst o.
    + apply finv_keep; [done | cbn; rewrite Eh; apply hkeep_qkeep, hkeep_refl |].
      intros x. by rewrite (flight_other _ _ _ _ _ Et).
    + destruct (fi_ctx _ F a c Ec) as [W Ecb]. rewrite Ecb. cbn [andb].
      assert (Ht : hold a (WDisp a) = 1) by apply hold_same.
      pose proof (thr_tokens_le_1 a _ I) as Hle.
      destruct (q_elems (c_queue c)) as [| m0 rest] eqn:El; [by rewrite (q_pop_nil _ W El) in Ep |].
      destruct (q_pop_cons _ _ _ W El) as (q1 & Ep1 & W1 & El1). rewrite Ep1 in Ep. injection Ep as -> ->.
      apply (finv_pop _ _ _ a m c q); [done | done | done | by rewrite El, El1 | done | | |].
      * rewrite <- (list_insert_id _ _ _ Et). by rewrite (flight_single _ _ _ _ _ Hle Et Ht).
      * rewrite (flight_single _ _ _ _ _ Hle Et Ht), runnable_one. destruct (type m =? _); [done |]. cbn.
        by rewrite bool_decide_true.
      * intros x Hx. apply (flight_other _ _ _ _ _ Et). destruct (type m =? _); [done |]. cbn.
        by rewrite bool_decide_false.
  - destruct K as [_ K2]. cbn [wstep] in Es. injection Es as <- <- _.
    assert (Ht : hold a (WRun a m) = 1) by apply hold_same.
    pose proof (thr_tokens_le_1 a _ I) as Hle. apply finv_run; [done | | |].
    + rewrite <- (list_insert_id _ _ _ Et). rewrite (flight_single _ _ _ _ _ Hle Et Ht). cbn.
      by rewrite bool_decide_true.
    + by rewrite (flight_single _ _ _ _ _ Hle Et Ht).
    + intros x Hx. apply (flight_other _ _ _ _ _ Et). cbn. by rewrite bool_decide_false.
Qed.

Lemma finv_next s s' : winv s -> finv s -> wnext s s' -> finv s'.
Proof.
  intros I F N. revert I F. destruct N as [x s0 s1 E]. intros I F.
  assert (K0 : qkeep (heap (base (wpool s0))) (heap (base (wpool s0)))) by apply hkeep_qkeep, hkeep_refl.
  destruct x as [t | t id m | t w].
  - apply wnext_step_inv in E as (pc & pc' & p' & b & Et & Es & Ep & Ets & Esn & Er).
    pose proof (finv_step _ _ _ _ _ _ I F Et Es) as F1.
    destruct s1 as [p1 ts1 st1 rn1]; cbn in *; subst p1 ts1 st1 rn1. destruct b; [| done].
    apply (finv_keep _ p' (wake_all (<[t := pc']> (wthr s0))) F1 (hkeep_qkeep _ _ (hkeep_refl _))).
    intros a. apply flight_wake.
  - cbn [wexec] in E. destruct (wthr s0 !! t) as [[] |] eqn:Et; try done. injection E as E.
    apply bind_Ok_inv in E as ([o p'] & El & E). injection E as <-.
    apply on_base_inv in El as (b1 & El & ->).
    assert (b1 = base (wpool s0)) as ->.
    { unfold ctxMgrLookup in El. erewrite st_bind_Ok in El by reflexivity. unfold st_lift in El.
      destruct (aget _ _); [by injection El as _ -> | done]. }
    apply finv_keep; [done | done |]. intros a. by apply (flight_other _ _ _ _ _ Et).
  - cbn [wexec] in E. destruct (wthr s0 !! t) as [[] |] eqn:Et; try done.
    assert (Hid : finv (WState (wpool s0) (<[t := SIdle]> (wthr s0)) (wsent s0) (wran s0))).
    { apply finv_keep; [done | done |]. intros a. by apply (flight_other _ _ _ _ _ Et). }
    destruct (wthr s0 !! w) as [pc |] eqn:Ew.
    + destruct pc; try (destruct (forallb _ _); [by injection E as <- | done]). injection E as <-.
      apply finv_keep; [done | done |]. intros a.
      assert (Et' : <[w := WSleepCheck]> (wthr s0) !! t = Some SWake).
      { rewrite list_lookup_insert_ne; [done |]. congruence. }
      by rewrite (flight_other _ _ _ _ _ Et'), (flight_other _ _ _ _ _ Ew).
    + destruct (forallb _ _); [by injection E as <- | done].
Qed.

Lemma winit_finv s : winit s -> finv s.
Proof.
  intros I. split.
  - intros a c E. by destruct (in_ctx _ I a c E) as (W & _ & Eb & _).
  - intros a. exists []. destruct (in_log _ I) as [-> ->]. split.
    + rewrite flight_nil; [done |]. pose proof (winit_tokens s a I) as Ht. unfold tokens in Ht.
      destruct (in_queue _ I) as [_ Hq]. rewrite Hq in Ht. cbn in Ht. lia.
    + intros c E. by destruct (in_ctx _ I a c E) as (_ & -> & _).
Qed.

Lemma finv_reachable s s' : winv s -> finv s -> rtc wnext s s' -> finv s'.
Proof.
  intros I F R. induction R as [| s1 s2 s3 N _ IH]; [done |].
  apply IH; [by eapply winv_next | by eapply finv_next].
Qed.

(** C5: however sends and workers interleave, a context is run by one thread
    at a time: two threads between the pop of a context from the global queue
    and the clearing of its [inGlobal] are the same thread, that context is then
    in the global queue nowhere, it never is there twice, and the assertion on
    clearing [inGlobal] cannot fail. *)
Theorem single_dispatcher s0 s :
  winit s0 -> rtc wnext s0 s ->
  (forall t1 t2 pc1 pc2 a, wthr s !! t1 = Some pc1 -> wthr s !! t2 = Some pc2 ->
     holds a pc1 = true -> holds a pc2 = true -> t1 = t2) /\
  (forall t pc a, wthr s !! t = Some pc -> holds a pc = true -> a ∉ q_elems (gqueue (wpool s))) /\
  NoDup (q_elems (gqueue (wpool s))) /\
  (forall t a, wthr s !! t = Some (WCas a) -> wstep (WCas a) (wpool s) <> Fault AssertFailed).
Proof.
  intros I0 R. pose proof (winv_reachable _ _ (winit_winv _ I0) R) as I.
  assert (Hh : forall a pc, holds a pc = true -> hold a pc = 1) by (by intros a pc E; unfold hold; rewrite E).
  assert (Hq : forall a l, a ∈ l -> 1 <= queue_tokens a l).
  { intros a l. induction l as [| b l IH]; [by intros ?%not_elem_of_nil |]. cbn.
    pose proof (queue_tokens_nonneg a l). intros [-> | Hin]%elem_of_cons; [rewrite bool_decide_true by done; lia |].
    specialize (IH Hin). destruct (bool_decide _); lia. }
  assert (Hle : forall a, queue_tokens a (q_elems (gqueue (wpool s))) + thr_tokens a (wthr s) <= 1)
    by (intros a; pose proof (wi_tokens _ I a); unfold tokens in *; lia).
  split; [| split; [| split]].
  - intros t1 t2 pc1 pc2 a E1 E2 H1' H2'. destruct (decide (t1 = t2)) as [| Hne]; [done |]. exfalso.
    pose proof (thr_tokens_two a _ _ _ _ _ E1 E2 Hne) as Ht. rewrite !Hh in Ht by done.
    specialize (Hle a). pose proof (queue_tokens_nonneg a (q_elems (gqueue (wpool s)))). lia.
  - intros t pc a E H' Hin. apply Hq in Hin. pose proof (thr_tokens_hold a _ _ _ E) as Ht.
    rewrite Hh in Ht by done. specialize (Hle a). lia.
  - assert (Hle' : forall a, queue_tokens a (q_elems (gqueue (wpool s))) <= 1)
      by (intros a; specialize (Hle a); pose proof (thr_tokens_nonneg a (wthr s)); lia).
    clear -Hle' Hq. induction (q_elems (gqueue (wpool s))) as [| b l IH]; [constructor |]. constructor.
    + intros Hin. specialize (Hle' b). cbn in Hle'. rewrite bool_decide_true in Hle' by done.
      apply Hq in Hin. lia.
    + apply IH. intros a. specialize (Hle' a). cbn in Hle'. destruct (bool_decide _); lia.
  - intros t a E Hf. pose proof (wi_tokens _ I a) as Hw. unfold tokens in Hw.
    pose proof (thr_tokens_hold a _ _ _ E) as Ht. rewrite Hh in Ht by (cbn; by rewrite bool_decide_true).
    pose proof (queue_tokens_nonneg a (q_elems (gqueue (wpool s)))).
    assert (Hfl : flag a (heap (base (wpool s))) = 1) by lia. unfold flag in Hfl.
    cbn [wstep] in Hf. unfold casInGlobal in Hf.
    destruct (heap (base (wpool s)) !! a) as [c |] eqn:Ec.
    + assert (L : on_base (load a) (wpool s) = Ok (c, with_base (wpool s) (base (wpool s))))
        by (unfold on_base, load; by rewrite Ec).
      rewrite (st_bind_Ok _ _ _ _ _ L) in Hf. by rewrite Hfl in Hf.
    + assert (L : on_base (load a) (wpool s) = Fault UseAfterFree)
        by (unfold on_base, load; by rewrite Ec).
      by rewrite (st_bind_Fault _ _ _ _ L) in Hf.
Qed.

(** C4: however sends and workers interleave, the messages of a context are run
    in the order they were pushed on its queue, each once and none invented: the
    runnable messages pushed to a living context are those it has run, the one a
    worker is about to run, and those still in its queue, in this order.  For a
    freed context those run are still a prefix of those pushed. *)
Theorem context_runs_in_order s0 s a :
  winit s0 -> rtc wnext s0 s ->
  (forall c, heap (base (wpool s)) !! a = Some c ->
    runnable (of_ctx a (wsent s)) =
      of_ctx a (wran s) ++ flight a (wthr s) ++ runnable (q_elems (c_queue c))) /\
  of_ctx a (wran s) `prefix_of` runnable (of_ctx a (wsent s)) /\
  zlen (flight a (wthr s)) <= 1.
Proof.
  intros I0 R. pose proof (winv_reachable _ _ (winit_winv _ I0) R) as I.
  pose proof (finv_reachable _ _ (winit_winv _ I0) (winit_finv _ I0) R) as F.
  destruct (fi_order _ F a) as (rest & Eo & Er). split; [| split].
  - intros c E. by rewrite Eo, (Er c E).
  - rewrite Eo. by eexists.
  - pose proof (thr_tokens_le_1 a _ I) as Hle. clear -Hle. unfold flight.
    induction (wthr s) as [| p ts IH]; [done |]. cbn in *. rewrite zlen_app.
    pose proof (thr_tokens_nonneg a ts). pose proof (hold_bounds a p).
    assert (Hp : zlen (taken a p) <= hold a p).
    { destruct p; try apply hold_bounds. unfold hold, holds. cbn. by destruct (bool_decide _). }
    destruct (Z.eq_dec (thr_tokens a ts) 0) as [E |]; [| specialize (IH ltac:(lia)); lia].
    fold (flight a ts). rewrite flight_nil by lia. change (zlen []) with 0. lia.
Qed.

(** ** The result of a send *)

Lemma on_base_Ok {A} (m : ST (sys Q) A) p r b' :
  m (base p) = Ok (r, b') -> on_base m p = Ok (r, with_base p b').
Proof. intros E. unfold on_base. by rewrite E. Qed.

Lemma load_Ok a (s : sys Q) c : heap s !! a = Some c -> load a s = Ok (c, s).
Proof. intros E. unfold load. by rewrite E. Qed.

Lemma ctxMgrLookup_Ok (s : sys Q) id o :
  aget (contexts s) (id mod setsize s) = Ok o -> ctxMgrLookup id s = Ok (o, s).
Proof.
  intros Ea. unfold ctxMgrLookup. erewrite st_bind_Ok by reflexivity. unfold st_lift. by rewrite Ea.
Qed.

Lemma ctxMgrGetContext_Ok (s : sys Q) id a c :
  aget (contexts s) (id mod setsize s) = Ok (Some a) -> heap s !! a = Some c ->
  ctxMgrGetContext id s = Ok (Some a, with_heap s (<[a := set_c_ref c (c_ref c +u 1)]> (heap s))).
Proof.
  intros Ea Ec. unfold ctxMgrGetContext. rewrite (st_bind_Ok _ _ _ _ _ (ctxMgrLookup_Ok _ _ _ Ea)).
  unfold contextRetain. rewrite (st_bind_Ok _ _ _ tt (with_heap s (<[a := set_c_ref c (c_ref c +u 1)]> (heap s)))).
  - done.
  - by rewrite (st_bind_Ok _ _ _ _ _ (load_Ok _ _ _ Ec)).
Qed.

Lemma ctxMgrGetContext_None (s : sys Q) id :
  aget (contexts s) (id mod setsize s) = Ok None -> ctxMgrGetContext id s = Ok (None, s).
Proof.
  intros Ea. unfold ctxMgrGetContext. by rewrite (st_bind_Ok _ _ _ _ _ (ctxMgrLookup_Ok _ _ _ Ea)).
Qed.

Lemma contextNewsession_counts x (s : sys Q) cx :
  heap s !! x = Some cx -> 0 < c_sessionid cx < 4294967295 ->
  contextNewsession x s =
    Ok (c_sessionid cx, with_heap s (<[x := set_c_sessionid cx (c_sessionid cx + 1)]> (heap s))).
Proof.
  intros E Hc. unfold contextNewsession. rewrite (st_bind_Ok _ _ _ _ _ (load_Ok _ _ _ E)).
  erewrite st_bind_Ok by reflexivity. cbn [c_sessionid set_c_sessionid]. rewrite u32_small by lia.
  destruct (Z.eqb_spec (c_sessionid cx + 1) 0); [lia | done].
Qed.

Lemma pushMessage_Ok a m p c q :
  heap (base p) !! a = Some c -> q_push m (c_queue c) = Ok (true, q) ->
  pushMessage a m p = Ok (tt, with_base p (with_heap (base p) (<[a := set_c_queue c q]> (heap (base p))))).
Proof.
  intros Ec Eq. unfold pushMessage. rewrite (st_bind_Ok _ _ _ _ _ (on_base_Ok _ _ _ _ (load_Ok _ _ _ Ec))).
  assert (L : (st_lift (q_push m (c_queue c)) : ST pool _) (with_base p (base p)) = Ok ((true, q), with_base p (base p)))
    by (unfold st_lift; by rewrite Eq).
  by rewrite (st_bind_Ok _ _ _ _ _ L).
Qed.

Lemma casInGlobal_Ok a old new p c :
  heap (base p) !! a = Some c ->
  casInGlobal a old new p = Ok (if c_inGlobal c =? old
    then (true, with_base p (with_heap (base p) (<[a := set_c_inGlobal c new]> (heap (base p)))))
    else (false, with_base p (base p))).
Proof.
  intros Ec. unfold casInGlobal. rewrite (st_bind_Ok _ _ _ _ _ (on_base_Ok _ _ _ _ (load_Ok _ _ _ Ec))).
  by destruct (_ =? _).
Qed.

(** What the target of a send looks like when it returns. *)
Record delivered (p p' : pool) (a : nat) (c : context Q) (m : message) : Prop := {
  de_ctx : exists c', heap (base p') !! a = Some c' /\ c_id c' = c_id c /\ c_inGlobal c' = 1 /\
    q_elems (c_queue c') = q_elems (c_queue c) ++ [m] /\
    c_ref c' = (if c_inGlobal c =? 0 then c_ref c + 1 else c_ref c) /\
    q_push m (c_queue c) = Ok (true, c_queue c') /\ c_cb c' = c_cb c;
  de_table : contexts (base p') = contexts (base p) /\ setsize (base p') = setsize (base p);
  de_wf : q_wf (gqueue p');
  de_queue : c_inGlobal c = 1 -> gqueue p' = gqueue p;
  de_enqueued : c_inGlobal c = 0 -> exists r, enqueue a p = Ok (tt, with_gqueue p r) /\ gqueue p' = r;
  de_others : forall b cb, b <> a -> heap (base p) !! b = Some cb ->
    exists cb', heap (base p') !! b = Some cb' /\ same cb cb' /\ c_ref cb' = c_ref cb;
}.


Lemma ctxMgrReleaseContext_Ok a (s : sys Q) c :
  heap s !! a = Some c -> 2 <= c_ref c < 4294967296 ->
  ctxMgrReleaseContext a s = Ok (tt, with_heap s (<[a := set_c_ref c (c_ref c - 1)]> (heap s))).
Proof.
  intros Ec Hr. unfold ctxMgrReleaseContext. rewrite (st_bind_Ok _ _ _ _ _ (load_Ok _ _ _ Ec)).
  assert (R : contextRelease a s = Ok (Some a, with_heap s (<[a := set_c_ref c (c_ref c - 1)]> (heap s)))).
  { unfold contextRelease. rewrite (st_bind_Ok _ _ _ _ _ (load_Ok _ _ _ Ec)).
    erewrite st_bind_Ok by reflexivity. rewrite u32_small by lia. by destruct (Z.eqb_spec (c_ref c) 1); [lia |]. }
  by rewrite (st_bind_Ok _ _ _ _ _ R).
Qed.

(** The context as a send leaves it, but for the references to it. *)
Definition scheduled_as (c c' : context Q) : Prop :=
  c_id c' = c_id c /\ c_inGlobal c' = 1 /\ c_queue c' = c_queue c /\ c_cb c' = c_cb c.

(** The end of a send: the flag decides between the queue and a release. *)
Lemma send_finish {B} (k : unit -> ST pool B) a p c :
  heap (base p) !! a = Some c -> 2 <= c_ref c < 4294967296 -> c_inGlobal c = 0 \/ c_inGlobal c = 1 ->
  q_wf (gqueue p) ->
  exists p' c', (won ← casInGlobal a 0 1;
      r ← (if (won : bool) then enqueue a else on_base (ctxMgrReleaseContext a)); k r) p = k tt p' /\
    base p' = with_heap (base p) (<[a := c']> (heap (base p))) /\ scheduled_as c c' /\ q_wf (gqueue p') /\
    c_ref c' = (if c_inGlobal c =? 0 then c_ref c else c_ref c - 1) /\
    (c_inGlobal c = 1 -> gqueue p' = gqueue p) /\
    (c_inGlobal c = 0 -> enqueue a p = Ok (tt, with_gqueue p (gqueue p'))).
Proof.
  intros Ec Hr Hi W. pose proof (casInGlobal_Ok a 0 1 p c Ec) as Ecas.
  destruct Hi as [Hi | Hi]; rewrite Hi in Ecas; cbn [Z.eqb] in Ecas; rewrite (st_bind_Ok _ _ _ _ _ Ecas).
  - destruct (q_push_spec (gqueue p) a W) as (ok & q & Ep & Wq & _).
    set (p1 := with_base p _). exists (with_gqueue p1 q), (set_c_inGlobal c 1).
    assert (Ee : enqueue a p1 = Ok (tt, with_gqueue p1 q)) by (unfold enqueue; cbn; by rewrite Ep).
    rewrite (st_bind_Ok _ _ _ _ _ Ee), Hi. unfold enqueue. rewrite Ep. by repeat (split; [by repeat split |]).
  - set (p1 := with_base p _).
    exists (with_base p1 (with_heap (base p) (<[a := set_c_ref c (c_ref c - 1)]> (heap (base p))))), (set_c_ref c (c_ref c - 1)).
    rewrite (st_bind_Ok _ _ _ _ _ (on_base_Ok _ p1 _ _ (ctxMgrReleaseContext_Ok a _ c Ec Hr))), Hi.
    by repeat (split; [by repeat split |]).
Qed.

Definition send_from (ctx : option (context Q)) (fromid : Z) : Z :=
  if fromid =? 0 then match ctx with Some cx => c_id cx | None => fromid end else fromid.

Definition send_sess (ctx : option (context Q)) (sess ty : Z) : Z :=
  if negb (Z.land ty MSG_TYPE_NEWSESSION =? 0) then
    match ctx with Some cx => c_sessionid cx | None => sess end
  else sess.

(** The session step of a send, between the retain and the push. *)
Lemma send_session p ctx sender sess ty a cr :
  match ctx, sender with
  | Some x, Some cx => exists cx', heap (base p) !! x = Some cx' /\ c_sessionid cx' = c_sessionid cx /\
      0 < c_sessionid cx < 4294967295
  | None, None => Z.land ty MSG_TYPE_NEWSESSION = 0
  | _, _ => False
  end -> heap (base p) !! a = Some cr ->
  exists b c2, ((if negb (Z.land ty MSG_TYPE_NEWSESSION =? 0) then
       x ← st_lift (deref ctx); on_base (contextNewsession x) else mret sess) : ST pool Z) p =
      Ok (send_sess sender sess ty, with_base p b) /\
    contexts b = contexts (base p) /\ setsize b = setsize (base p) /\
    heap b !! a = Some c2 /\ same cr c2 /\ c_ref c2 = c_ref cr /\ c_id c2 = c_id cr /\
    forall i ci, heap (base p) !! i = Some ci ->
      exists ci', heap b !! i = Some ci' /\ same ci ci' /\ c_ref ci' = c_ref ci.
Proof.
  intros Hs Ea. unfold send_sess. destruct (negb _) eqn:En.
  - destruct ctx as [x |], sender as [cx |]; try done; [| by rewrite Hs in En].
    destruct Hs as (cx' & Ex & Ese & Hb).
    rewrite <- Ese in Hb |- *. pose proof (contextNewsession_counts x (base p) cx' Ex Hb) as En'.
    set (h2 := <[x := set_c_sessionid cx' (c_sessionid cx' + 1)]> (heap (base p))).
    assert (Hh : forall i ci, heap (base p) !! i = Some ci ->
      exists ci', h2 !! i = Some ci' /\ same ci ci' /\ c_ref ci' = c_ref ci /\ c_id ci' = c_id ci).
    { intros i ci Ei. destruct (decide (i = x)) as [-> | Hne].
      - rewrite Ex in Ei. injection Ei as <-. eexists. split; [apply lookup_insert_eq | done].
      - exists ci. split; [by unfold h2; rewrite lookup_insert_ne | done]. }
    destruct (Hh a cr Ea) as (c2 & E2 & S2 & R2 & I2). exists (with_heap (base p) h2), c2.
    split; [erewrite st_bind_Ok by reflexivity; exact (on_base_Ok _ _ _ _ En') |].
    do 6 (split; [done |]). intros i ci Ei. destruct (Hh i ci Ei) as (ci' & ? & ? & ? & _). by exists ci'.
  - exists (base p), cr. split; [by destruct p |]. do 6 (split; [done |]). intros i ci Ei. by exists ci.
Qed.

(** Who sends: the identifier given, or the sender's. *)
Lemma send_from_Ok p ctx sender fromid :
  match ctx, sender with
  | Some x, Some cx => heap (base p) !! x = Some cx
  | None, None => True
  | _, _ => False
  end ->
  ((if fromid =? 0 then
      match ctx with Some x => c ← on_base (load x); mret (c_id c) | None => mret fromid end
    else mret fromid) : ST pool Z) p = Ok (send_from sender fromid, with_base p (base p)).
Proof.
  intros Hs. unfold send_from. destruct p as [b g rn]. destruct (fromid =? 0); [| done].
  destruct ctx as [x |], sender as [cx |]; try done.
  by rewrite (st_bind_Ok _ _ _ _ _ (on_base_Ok _ (Pool b g rn) _ _ (load_Ok _ _ _ Hs))).
Qed.

(** The sender: its context and the session counter it has left. *)
Definition sends_as (p : pool) (ctx : option nat) (sender : option (context Q)) : Prop :=
  match ctx, sender with
  | Some x, Some cx => heap (base p) !! x = Some cx /\ 0 < c_sessionid cx < 4294967295
  | None, None => True
  | _, _ => False
  end.

Lemma sends_as_from p ctx sender fromid : sends_as p ctx sender ->
  ((if fromid =? 0 then
      match ctx with Some x => c ← on_base (load x); mret (c_id c) | None => mret fromid end
    else mret fromid) : ST pool Z) p = Ok (send_from sender fromid, with_base p (base p)).
Proof. intros Hs. apply send_from_Ok. destruct ctx, sender; try done. apply Hs. Qed.

Lemma workerPoolSend_nobody p ctx sender fromid to sess ty dat sz ud' :
  sends_as p ctx sender -> to = 0 \/ aget (contexts (base p)) (to mod setsize (base p)) = Ok None ->
  exists p', workerPoolSend ctx fromid to sess ty dat sz ud' p = Ok (-1, p') /\ base p' = base p /\ gqueue p' = gqueue p.
Proof.
  intros Hs Hto. exists (with_base p (base p)). split; [| done].
  unfold workerPoolSend. rewrite (st_bind_Ok _ _ _ _ _ (sends_as_from _ _ _ fromid Hs)).
  destruct (Z.eqb_spec to 0) as [| Hne]; [done |]. destruct Hto as [| Hto]; [done |].
  by rewrite (st_bind_Ok _ _ _ _ _ (on_base_Ok _ _ _ _ (ctxMgrGetContext_None (base (with_base p (base p))) to Hto))).
Qed.

(** A send up to the session: the target is found and a reference to it taken. *)
Definition held (p : pool) (a : nat) (c : context Q) : pool :=
  with_base p (with_heap (base p) (<[a := set_c_ref c (c_ref c +u 1)]> (heap (base p)))).

Lemma workerPoolSend_found p ctx sender fromid to sess ty dat sz ud' a c :
  sends_as p ctx sender -> to <> 0 -> aget (contexts (base p)) (to mod setsize (base p)) = Ok (Some a) ->
  heap (base p) !! a = Some c ->
  workerPoolSend ctx fromid to sess ty dat sz ud' p =
    (sess ← (if negb (Z.land ty MSG_TYPE_NEWSESSION =? 0) then
               x ← st_lift (deref ctx); on_base (contextNewsession x) else mret sess);
     _ ← pushMessage a (Message (send_from sender fromid) sess ty ud' sz dat);
     won ← casInGlobal a 0 1;
     _ ← (if (won : bool) then enqueue a else on_base (ctxMgrReleaseContext a));
     mret (i32 sess)) (held p a c).
Proof.
  intros Hs Hto Ea Ec. unfold workerPoolSend. rewrite (st_bind_Ok _ _ _ _ _ (sends_as_from _ _ _ fromid Hs)).
  destruct (Z.eqb_spec to 0) as [| _]; [done |].
  by rewrite (st_bind_Ok _ _ _ _ _ (on_base_Ok _ _ _ _ (ctxMgrGetContext_Ok (base (with_base p (base p))) to a c Ea Ec))).
Qed.

(** The session step of a send that holds its target. *)
Lemma held_session p ctx sender sess ty a c :
  sends_as p ctx sender -> (ctx = None -> Z.land ty MSG_TYPE_NEWSESSION = 0) -> heap (base p) !! a = Some c ->
  exists b c2, ((if negb (Z.land ty MSG_TYPE_NEWSESSION =? 0) then
       x ← st_lift (deref ctx); on_base (contextNewsession x) else mret sess) : ST pool Z) (held p a c) =
      Ok (send_sess sender sess ty, with_base (held p a c) b) /\
    contexts b = contexts (base p) /\ setsize b = setsize (base p) /\
    heap b !! a = Some c2 /\ same c c2 /\ c_ref c2 = c_ref c +u 1 /\ c_id c2 = c_id c /\
    forall i ci, i <> a -> heap (base p) !! i = Some ci ->
      exists ci', heap b !! i = Some ci' /\ same ci ci' /\ c_ref ci' = c_ref ci.
Proof.
  intros Hs Hn Ec.
  destruct (send_session (held p a c) ctx sender sess ty a (set_c_ref c (c_ref c +u 1)))
    as (b & c2 & Es & Et & Ez & E2 & S2 & R2 & I2 & Ho); [| apply lookup_insert_eq |].
  - destruct ctx as [x |], sender as [cx |]; try done; [| by apply Hn]. destruct Hs as [Ex Hb].
    destruct (decide (x = a)) as [-> | Hne].
    + rewrite Ex in Ec. injection Ec as ->. eexists. split; [apply lookup_insert_eq | done].
    + exists cx. split; [by cbn; rewrite lookup_insert_ne | done].
  - exists b, c2. do 7 (split; [done |]). intros i ci Hne Ei. apply Ho. cbn. by rewrite lookup_insert_ne.
Qed.

Lemma workerPoolSend_accepted p ctx sender fromid to sess ty dat sz ud' a c q :
  sends_as p ctx sender -> (ctx = None -> Z.land ty MSG_TYPE_NEWSESSION = 0) -> q_wf (gqueue p) ->
  to <> 0 -> aget (contexts (base p)) (to mod setsize (base p)) = Ok (Some a) ->
  heap (base p) !! a = Some c -> 1 <= c_ref c < 4294967295 -> c_inGlobal c = 0 \/ c_inGlobal c = 1 ->
  let m := Message (send_from sender fromid) (send_sess sender sess ty) ty ud' sz dat in
  q_wf (c_queue c) -> q_push m (c_queue c) = Ok (true, q) ->
  exists p', workerPoolSend ctx fromid to sess ty dat sz ud' p = Ok (i32 (session m), p') /\ delivered p p' a c m.
Proof.
  intros Hs Hn W Hto Ea Ec Hr Hi m Wq Eq. rewrite (workerPoolSend_found _ _ _ _ _ _ _ _ _ _ _ _ Hs Hto Ea Ec).
  destruct (held_session p ctx sender sess ty a c Hs Hn Ec) as (b2 & c2 & Es & Et & Ez & E2 & (Sq & Sc & Si) & Sr & Sid & Ho).
  rewrite (st_bind_Ok _ _ _ _ _ Es).
  assert (Eq2 : q_push m (c_queue c2) = Ok (true, q)) by (by rewrite Sq).
  rewrite (st_bind_Ok _ _ _ _ _ (pushMessage_Ok a m (with_base (held p a c) b2) c2 q E2 Eq2)).
  set (p3 := with_base _ _). set (c3 := set_c_queue c2 q) in p3.
  assert (E3 : heap (base p3) !! a = Some c3) by apply lookup_insert_eq.
  assert (Hr3 : c_ref c3 = c_ref c + 1) by (change (c_ref c2 = c_ref c + 1); rewrite Sr; apply u32_small; lia).
  assert (Hi3 : c_inGlobal c3 = c_inGlobal c) by done.
  destruct (send_finish (fun _ => mret (i32 (send_sess sender sess ty))) a p3 c3 E3 ltac:(lia) ltac:(by rewrite Hi3) W)
    as (p' & c' & Ef & Eb & (Eid & Eg' & Eq' & Ecb) & Wg & Er' & G1 & G0).
  rewrite Ef. exists p'. split; [done |].
  destruct (q_push_spec (c_queue c) m Wq) as (ok & q0 & Ep & _ & El).
  rewrite Eq in Ep. injection Ep as <- <-. split; [| by rewrite Eb | done | ..].
  - exists c'. split; [by rewrite Eb; apply lookup_insert_eq |]. rewrite Eid, Ecb, Eq'. do 2 (split; [done |]).
    split; [exact El |]. split; [by rewrite Er', Hr3, Hi3; destruct (c_inGlobal c =? 0); lia |]. by split.
  - intros Hc. rewrite G1; [done | by rewrite Hi3].
  - intros Hc. exists (gqueue p'). split; [| done]. rewrite Hi3 in G0. specialize (G0 Hc).
    unfold enqueue in *. cbn [gqueue p3 held with_base] in G0. destruct (q_push a (gqueue p)) as [[ok g] |]; [| done].
    by injection G0 as <-.
  - intros i ci Hne Ei. destruct (Ho i ci Hne Ei) as (ci' & Ei' & Hsm & Hrf).
    exists ci'. split; [| done]. rewrite Eb. cbn. by rewrite !lookup_insert_ne.
Qed.

(** A queue that refuses the message ends the server. *)
Lemma workerPoolSend_refused p ctx sender fromid to sess ty dat sz ud' a c q :
  sends_as p ctx sender -> (ctx = None -> Z.land ty MSG_TYPE_NEWSESSION = 0) -> to <> 0 ->
  aget (contexts (base p)) (to mod setsize (base p)) = Ok (Some a) -> heap (base p) !! a = Some c ->
  q_push (Message (send_from sender fromid) (send_sess sender sess ty) ty ud' sz dat) (c_queue c) = Ok (false, q) ->
  workerPoolSend ctx fromid to sess ty dat sz ud' p = Fault AssertFailed.
Proof.
  intros Hs Hn Hto Ea Ec Eq. rewrite (workerPoolSend_found _ _ _ _ _ _ _ _ _ _ _ _ Hs Hto Ea Ec).
  destruct (held_session p ctx sender sess ty a c Hs Hn Ec) as (b2 & c2 & Es & _ & _ & E2 & (Sq & _ & _) & _).
  rewrite (st_bind_Ok _ _ _ _ _ Es). set (p1 := with_base _ b2).
  assert (Ep : pushMessage a (Message (send_from sender fromid) (send_sess sender sess ty) ty ud' sz dat) p1 = Fault AssertFailed).
  { unfold pushMessage. rewrite (st_bind_Ok _ _ _ _ _ (on_base_Ok _ p1 _ _ (load_Ok _ _ _ E2))), Sq.
    unfold st_lift at 1. rewrite Eq. by erewrite st_bind_Ok by reflexivity. }
  by rewrite (st_bind_Fault _ _ _ _ Ep).
Qed.

(** A new session is one of the caller, and there is none. *)
Lemma workerPoolSend_orphan p fromid to sess ty dat sz ud' a c :
  Z.land ty MSG_TYPE_NEWSESSION <> 0 -> to <> 0 ->
  aget (contexts (base p)) (to mod setsize (base p)) = Ok (Some a) -> heap (base p) !! a = Some c ->
  workerPoolSend None fromid to sess ty dat sz ud' p = Fault NullDeref.
Proof.
  intros Hs Hto Ea Ec. rewrite (workerPoolSend_found p None None fromid to sess ty dat sz ud' a c I Hto Ea Ec).
  by destruct (Z.eqb_spec (Z.land ty MSG_TYPE_NEWSESSION) 0).
Qed.

(** A send that schedules its target, with the state it leaves. *)
Lemma workerPoolSend_schedules p ctx sender fromid to sess ty dat sz ud' a c q ok g :
  sends_as p ctx sender -> Z.land ty MSG_TYPE_NEWSESSION = 0 -> to <> 0 ->
  aget (contexts (base p)) (to mod setsize (base p)) = Ok (Some a) -> heap (base p) !! a = Some c ->
  c_inGlobal c = 0 -> q_push (Message (send_from sender fromid) sess ty ud' sz dat) (c_queue c) = Ok (true, q) ->
  q_push a (gqueue p) = Ok (ok, g) ->
  workerPoolSend ctx fromid to sess ty dat sz ud' p = Ok (i32 sess,
    Pool (with_heap (base p) (<[a := set_c_inGlobal (set_c_queue (set_c_ref c (c_ref c +u 1)) q) 1]> (heap (base p))))
      g (running p)).
Proof.
  intros Hs Ht Hto Ea Ec Hi Eq Eg. rewrite (workerPoolSend_found _ _ _ _ _ _ _ _ _ _ _ _ Hs Hto Ea Ec), Ht.
  erewrite st_bind_Ok by reflexivity. set (c1 := set_c_ref c (c_ref c +u 1)).
  assert (E1 : heap (base (held p a c)) !! a = Some c1) by apply lookup_insert_eq.
  rewrite (st_bind_Ok _ _ _ _ _ (pushMessage_Ok a _ (held p a c) c1 q E1 Eq)). set (p2 := with_base _ _).
  assert (E2 : heap (base p2) !! a = Some (set_c_queue c1 q)) by apply lookup_insert_eq.
  pose proof (casInGlobal_Ok a 0 1 p2 _ E2) as Ecas. cbn [c_inGlobal set_c_queue c1 set_c_ref] in Ecas. rewrite Hi in Ecas.
  cbn [Z.eqb] in Ecas. rewrite (st_bind_Ok _ _ _ _ _ Ecas). set (p3 := with_base _ _).
  assert (Ee : enqueue a p3 = Ok (tt, with_gqueue p3 g)) by (unfold enqueue; cbn; by rewrite Eg).
  rewrite (st_bind_Ok _ _ _ _ _ Ee). unfold mret, st_ret. do 2 f_equal.
  unfold p3, p2, held, with_gqueue, with_base, with_heap. cbn. by rewrite !insert_insert_eq.
Qed.

(** A dispatch of a context that handles messages hands over the oldest. *)
Lemma contextDispatchMessage_Ok a (s : sys Q) c m rest :
  heap s !! a = Some c -> q_wf (c_queue c) -> q_elems (c_queue c) = m :: rest -> c_cb c = true ->
  type m <> MSG_TYPE_EXIT_CONTEXT ->
  exists q, contextDispatchMessage a s = Ok ((0, Some m), with_heap s (<[a := set_c_queue c q]> (heap s))) /\
    q_wf q /\ q_elems q = rest.
Proof.
  intros Ec W E Hcb Ht. destruct (q_pop_cons _ _ _ W E) as (q & Ep & Wq & Eq). exists q. split; [| done].
  unfold contextDispatchMessage. rewrite (st_bind_Ok _ _ _ _ _ (load_Ok _ _ _ Ec)).
  unfold st_lift. rewrite Ep. erewrite st_bind_Ok by reflexivity. cbv beta iota.
  erewrite st_bind_Ok by reflexivity. rewrite Hcb. cbn [negb]. by destruct (Z.eqb_spec (type m) MSG_TYPE_EXIT_CONTEXT).
Qed.

(** C19: a send in a quiet pool, on every branch.  To identifier 0, or to one
    whose slot of the table is empty, it returns -1 and changes nothing.  With a
    target: a new session for a sender that is no context reads a [NULL] context;
    a queue that takes the message gets it last (sender and session filled in),
    the session is returned, the target is marked as scheduled and was put in the
    global queue exactly if it was not, with the reference the send took, which is
    given back otherwise, and no other context's queue, flag or count changes; a
    queue that is full ends the process at the assertion. *)
Theorem workerPoolSend_spec p ctx sender fromid to sess ty dat sz ud' :
  sends_as p ctx sender -> q_wf (gqueue p) ->
  (to = 0 \/ aget (contexts (base p)) (to mod setsize (base p)) = Ok None ->
     exists p', workerPoolSend ctx fromid to sess ty dat sz ud' p = Ok (-1, p') /\
       base p' = base p /\ gqueue p' = gqueue p) /\
  forall a c, to <> 0 -> aget (contexts (base p)) (to mod setsize (base p)) = Ok (Some a) ->
    heap (base p) !! a = Some c -> 1 <= c_ref c < 4294967295 -> c_inGlobal c = 0 \/ c_inGlobal c = 1 ->
    q_wf (c_queue c) ->
    (ctx = None -> Z.land ty MSG_TYPE_NEWSESSION <> 0 ->
       workerPoolSend ctx fromid to sess ty dat sz ud' p = Fault NullDeref) /\
    ((ctx = None -> Z.land ty MSG_TYPE_NEWSESSION = 0) ->
       let m := Message (send_from sender fromid) (send_sess sender sess ty) ty ud' sz dat in
       exists ok q, q_push m (c_queue c) = Ok (ok, q) /\
         if (ok : bool)
         then exists p', workerPoolSend ctx fromid to sess ty dat sz ud' p = Ok (i32 (session m), p') /\ delivered p p' a c m
         else workerPoolSend ctx fromid to sess ty dat sz ud' p = Fault AssertFailed).
Proof.
  intros Hs W. split; [intros Hto; by eapply workerPoolSend_nobody |]. intros a c Hto Ea Ec Hr Hi Wq. split.
  - intros -> Ht. by eapply workerPoolSend_orphan.
  - intros Hn m. destruct (q_push_spec (c_queue c) m Wq) as (ok & q & Eq & _). exists ok, q. split; [done |].
    destruct ok; [by eapply workerPoolSend_accepted | by eapply workerPoolSend_refused].
Qed.
End WorkerPool.
Arguments pool : clear implicits.
Arguments wstate : clear implicits.

(** ** Schedules on the lock-free queues *)

Definition demo_ctx : context (lfq message) := Ctx 1 [] 1 1 true (MessageQueue.messageQueueCreate 4) 0 [].

(** One registered context, two senders and a worker. *)
Definition demo : wstate (lfq message) (lfq nat) :=
  WState (Pool (Sys {[0%nat := demo_ctx]} 1 2 1 [None; Some 0%nat] 2) (lfCreate 0%nat 4) true)
    [SIdle; SIdle; WPop] [] [].

Lemma demo_winit : winit demo.
Proof.
  split; [by apply lfCreate_wf | do 3 (constructor; [auto |]); constructor | | done].
  intros a c E. change (({[0%nat := demo_ctx]} : gmap nat _) !! a = Some c) in E.
  apply lookup_singleton_Some in E as [<- <-].
  destruct (lfCreate_wf MessageQueue.zero_message 4) as [W E]; [lia |].
  split; [exact W |]. split; [exact E | done].
Qed.

Definition msg1 : message := Message 9 0 MSG_TYPE_PROTO_LUA 0 0 None.
Definition msg2 : message := Message 8 0 MSG_TYPE_PROTO_LUA 0 0 None.
Definition exit_msg : message := Message 9 0 MSG_TYPE_EXIT_CONTEXT 0 0 None.

Definition steps (t n : nat) : list waction := replicate n (AStep t).

(** The second send runs between the worker's empty dispatch and its clearing
    of [inGlobal]. *)
Definition lost_wakeup_run : list waction :=
  ASend 0 1 msg1 :: steps 0 4 ++ AWake 0 2 :: steps 2 5 ++
  ASend 1 1 msg2 :: steps 1 4 ++ steps 2 4.

(** The first sender has looked the context up and not yet retained it. *)
Definition retain_race : list waction :=
  ASend 0 1 msg1 :: ASend 1 1 exit_msg :: steps 1 4 ++ AWake 1 2 :: steps 2 5 ++ steps 0 1.

(** A second exit message is pushed while the first is dispatched. *)
Definition exit_race : list waction :=
  ASend 0 1 exit_msg :: steps 0 4 ++ AWake 0 2 :: steps 2 2 ++
  ASend 1 1 exit_msg :: steps 1 2 ++ steps 2 4 ++ steps 1 2 ++ AWake 1 2 :: steps 2 3.

Lemma single_dispatcher_witness :
  exists s, rtc wnext demo s /\ wthr s = [SWake; SIdle; WDisp 0] /\
    (0%nat ∉ q_elems (gqueue (wpool s))) /\ NoDup (q_elems (gqueue (wpool s))).
Proof.
  destruct (wrun (ASend 0 1 msg1 :: steps 0 4 ++ steps 2 1) demo) as [[s | f] |] eqn:E;
    [| by vm_compute in E | by vm_compute in E].
  exists s. assert (Et : wthr s = [SWake; SIdle; WDisp 0]) by (vm_compute in E; by injection E as <-).
  assert (R : rtc wnext demo s) by exact (wrun_sound _ _ _ E).
  destruct (single_dispatcher demo s demo_winit R) as (_ & Hq & Hn & _).
  split; [exact R |]. split; [exact Et |]. split; [| exact Hn].
  apply (Hq 2%nat (WDisp 0)); [by rewrite Et | reflexivity].
Defined.

Lemma context_runs_in_order_witness :
  exists s, rtc wnext demo s /\ of_ctx 0 (wsent s) = [msg1; msg2] /\ of_ctx 0 (wran s) = [msg1] /\
    (of_ctx 0 (wran s) `prefix_of` runnable (of_ctx 0 (wsent s))).
Proof.
  destruct (wrun lost_wakeup_run demo) as [[s | f] |] eqn:E; [| by vm_compute in E | by vm_compute in E].
  exists s. assert (R : rtc wnext demo s) by exact (wrun_sound _ _ _ E).
  destruct (context_runs_in_order demo s 0 demo_winit R) as (_ & Hp & _).
  split; [exact R |]. split; [vm_compute in E; by injection E as <- |].
  split; [vm_compute in E; by injection E as <- | exact Hp].
Defined.

(** The same pool with the queue of its context full. *)
Definition demo_full : pool (lfq message) (lfq nat) :=
  with_base (wpool demo) (with_heap (base (wpool demo))
    {[0%nat := set_c_queue demo_ctx (MessageQueue.messageQueueCreate 1)]}).

Lemma workerPoolSend_spec_witness :
  (exists p', workerPoolSend None 7 1 5 MSG_TYPE_PROTO_LUA None 0 0 (wpool demo) = Ok (5, p') /\
    delivered (wpool demo) p' 0 demo_ctx (Message 7 5 MSG_TYPE_PROTO_LUA 0 0 None)) /\
  workerPoolSend None 7 1 5 (Z.lor MSG_TYPE_PROTO_LUA MSG_TYPE_NEWSESSION) None 0 0 (wpool demo) = Fault NullDeref /\
  (exists p', workerPoolSend None 7 2 5 MSG_TYPE_PROTO_LUA None 0 0 (wpool demo) = Ok (-1, p') /\ base p' = base (wpool demo)) /\
  workerPoolSend None 7 1 5 MSG_TYPE_PROTO_LUA None 0 0 demo_full = Fault AssertFailed.
Proof.
  destruct (workerPoolSend_spec (wpool demo) None None 7 1 5 MSG_TYPE_PROTO_LUA None 0 0) as [_ Hd];
    [exact I | apply demo_winit |].
  destruct (workerPoolSend_spec (wpool demo) None None 7 1 5 (Z.lor MSG_TYPE_PROTO_LUA MSG_TYPE_NEWSESSION) None 0 0) as [_ Ho];
    [exact I | apply demo_winit |].
  destruct (workerPoolSend_spec (wpool demo) None None 7 2 5 MSG_TYPE_PROTO_LUA None 0 0) as [Hn _];
    [exact I | apply demo_winit |].
  destruct (workerPoolSend_spec demo_full None None 7 1 5 MSG_TYPE_PROTO_LUA None 0 0) as [_ Hf];
    [exact I | apply demo_winit |].
  assert (Wq : q_wf (c_queue demo_ctx)) by (apply lfCreate_wf; lia).
  split; [| split; [| split]].
  - destruct (Hd 0%nat demo_ctx ltac:(discriminate) eq_refl eq_refl ltac:(split; reflexivity || (cbn; lia)) ltac:(by left) Wq)
      as [_ Hm].
    destruct (Hm ltac:(reflexivity)) as (ok & q & Eq & R).
    assert (ok = true) as -> by (vm_compute in Eq; by injection Eq as <- _). exact R.
  - apply (Ho 0%nat demo_ctx ltac:(discriminate) eq_refl eq_refl ltac:(split; reflexivity || (cbn; lia)) ltac:(by left) Wq);
      [reflexivity | by vm_compute].
  - destruct Hn as (p' & E & Eb & _); [by right |]. exists p'. split; [exact E | exact Eb].
  - destruct (Hf 0%nat (set_c_queue demo_ctx (MessageQueue.messageQueueCreate 1)) ltac:(discriminate) eq_refl eq_refl
      ltac:(split; reflexivity || (cbn; lia)) ltac:(by left) ltac:(apply lfCreate_wf; lia)) as [_ Hm].
    destruct (Hm ltac:(reflexivity)) as (ok & q & Eq & R).
    assert (ok = false) as -> by (vm_compute in Eq; by injection Eq as <- _). exact R.
Defined.

(** A wake-up can be lost.  A message pushed after the worker found the
    queue empty and before it clears [inGlobal] leaves the sender believing the
    context is scheduled: all threads come to rest, the global queue is empty,
    and the message stays in the queue of a context nobody will dispatch. *)
Theorem workerPool_lost_wakeup :
  winit demo /\ exists s, rtc wnext demo s /\ wthr s = [SIdle; SIdle; WSleep] /\
    q_elems (gqueue (wpool s)) = [] /\
    exists c, heap (base (wpool s)) !! 0%nat = Some c /\ c_inGlobal c = 0 /\ q_elems (c_queue c) = [msg2].
Proof.
  split; [exact demo_winit |].
  destruct (wrun lost_wakeup_run demo) as [[s | f] |] eqn:E; [| by vm_compute in E | by vm_compute in E].
  exists s. split; [exact (wrun_sound _ _ _ E) |]. vm_compute in E. injection E as <-.
  split; [done |]. split; [done |]. eexists. split; [reflexivity |]. by vm_compute.
Qed.

(** Releasing a context races with sending to it.  [ctxMgrGetContext] takes
    its reference after it has left the table's lock, so a context released in
    between is used after it was freed; and of two exit messages the second can
    release the last reference, which the dispatcher asserts it never does. *)
Theorem exit_races :
  winit demo /\ wrun retain_race demo = Some (Fault UseAfterFree) /\
  wrun exit_race demo = Some (Fault AssertFailed).
Proof. split; [exact demo_winit |]. split; by vm_compute. Qed.
