(* ===== verification/Blocks.v ===== *)
(** * Who frees the data of a message

    The data of a message is a block from [zmalloc] whose address is handed from
    the sender to the queue, to the worker and to the callback.  Here the
    threads of [WorkerPool] run on a set of live blocks, which every step changes
    as its code does: a sender allocates the data it sends, [workerPoolSend] frees
    them if there is no target, [contextDispatchMessage] frees them when the
    callback is done. *)
From S2P Require Import Prelude Fifo LockFree Define Context WorkerPool.

(** The address a message carries: its data is the block with this number. *)
Definition block (m : message) : option nat :=
  match data m with Some [b] => Some (Z.to_nat b) | _ => None end.

Definition at_block (b : nat) : option (list Z) := Some [Z.of_nat b].

Section Blocks.
  Context {Q G : Type} `{FifoLaws Q message} `{FifoLaws G nat}.

(** [o_live]: blocks allocated and not freed; [o_used]: blocks ever allocated;
    [o_lost]: messages nobody will free, a log that no step reads. *)
Record ostate := OState {
  o_w : wstate Q G;
  o_live : gset nat;
  o_used : gset nat;
  o_lost : list message;
}.

(** [if (data) zfree(data)] *)
Definition free_data (m : message) (live : gset nat) : outcome (gset nat) :=
  match block m with
  | None => Ok live
  | Some b => if bool_decide (b ∈ live) then Ok (live ∖ {[b]}) else Fault UseAfterFree
  end.

Definition alloc (m : message) (live : gset nat) : gset nat :=
  match block m with None => live | Some b => {[b]} ∪ live end.

Definition messages (h : gmap nat (context Q)) (a : nat) : list message :=
  match h !! a with Some c => q_elems (c_queue c) | None => [] end.

Definition wheap (s : wstate Q G) : gmap nat (context Q) := heap (base (wpool s)).

(** What thread [t], which was at [pc] and is now at [pc'], does to the blocks:
    the target was not found; a message was taken that the callback does not get;
    the callback has run.  The queue of a freed context goes with it. *)
Definition step_blocks (pc pc' : wpc) (s s' : wstate Q G) (live : gset nat) : outcome (gset nat * list message) :=
  match pc, pc' with
  | SRetain None m, _ => l ← free_data m live; Ok (l, [])
  | WDisp a, WRun _ _ => Ok (live, [])
  | WDisp a, _ =>
    match messages (wheap s) a with
    | m :: _ => l ← free_data m live; Ok (l, [])
    | [] => Ok (live, [])
    end
  | WRun a m, _ => l ← free_data m live; Ok (l, [])
  | Rel a _, _ => Ok (live, match wheap s' !! a with None => messages (wheap s) a | Some _ => [] end)
  | _, _ => Ok (live, [])
  end.

(** [OSend]: the data are allocated for the call ([lua_tolstring] copied, a
    packed text); to identifier 0 nothing is sent and nothing freed.  [OForward]:
    the caller passes an address it has got from somewhere. *)
Inductive oaction := OSend (t : nat) (id : Z) (m : message) | OForward (t : nat) (id : Z) (m : message) | OStep (t : nat) | OWake (t w : nat).

Definition send_to (t : nat) (id : Z) (m : message) (live used : gset nat) (S : ostate) : option (outcome ostate) :=
  if id =? 0 then
    match wthr (o_w S) !! t with
    | Some SIdle => Some (Ok (OState (o_w S) live used (o_lost S ++ [m])))
    | _ => None
    end
  else
    match wexec (ASend t id m) (o_w S) with
    | Some r => Some (w ← r; Ok (OState w live used (o_lost S)))
    | None => None
    end.

Definition oexec (x : oaction) (S : ostate) : option (outcome ostate) :=
  match x with
  | OSend t id m => send_to t id m (alloc m (o_live S)) (alloc m (o_used S)) S
  | OForward t id m => send_to t id m (o_live S) (o_used S) S
  | OStep t =>
    match wthr (o_w S) !! t, wexec (AStep t) (o_w S) with
    | Some pc, Some r =>
      Some (w ← r;
        '(live, lost) ← step_blocks pc (default SIdle (wthr w !! t)) (o_w S) w (o_live S);
        Ok (OState w live (o_used S) (o_lost S ++ lost)))
    | _, _ => None
    end
  | OWake t w =>
    match wexec (AWake t w) (o_w S) with
    | Some r => Some (w ← r; Ok (OState w (o_live S) (o_used S) (o_lost S)))
    | None => None
    end
  end.

(** Every send has data of its own. *)
Definition own_data (x : oaction) (S : ostate) : Prop :=
  match x with
  | OSend _ _ m => forall b, block m = Some b -> b ∉ o_used S
  | OForward _ _ m => block m = None
  | _ => True
  end.

Inductive onext : ostate -> ostate -> Prop :=
  | ONext x S S' : own_data x S -> oexec x S = Some (Ok S') -> onext S S'.

Fixpoint orun (xs : list oaction) (S : ostate) : option (outcome ostate) :=
  match xs with
  | [] => Some (Ok S)
  | x :: xs => match oexec x S with Some (Ok S') => orun xs S' | r => r end
  end.

(** ** Counting the owners *)

Definition here (b : nat) (m : message) : Z := if bool_decide (block m = Some b) then 1 else 0.
Definition among (b : nat) (l : list message) : Z := foldr (fun m n => here b m + n) 0 l.

(** The message a thread has in hand. *)
Definition in_hand (pc : wpc) : list message :=
  match pc with SRetain _ m | SPush _ m | WRun _ m => [m] | _ => [] end.

Definition with_threads (b : nat) (ts : list wpc) : Z := among b (ts ≫= in_hand).

Definition queues (h : gmap nat (context Q)) : gmap nat (list message) := (fun c => q_elems (c_queue c)) <$> h.
Definition in_queues (b : nat) (qs : gmap nat (list message)) : Z := map_fold (fun _ l n => among b l + n) 0 qs.

Definition owners (b : nat) (S : ostate) : Z :=
  with_threads b (wthr (o_w S)) + in_queues b (queues (wheap (o_w S))) + among b (o_lost S).

Definition is_live (b : nat) (live : gset nat) : Z := if bool_decide (b ∈ live) then 1 else 0.

Record oinv (S : ostate) : Prop := {
  oi_w : winv (o_w S);
  oi_f : finv (o_w S);
  oi_owners : forall b, owners b S = is_live b (o_live S);
  oi_used : o_live S ⊆ o_used S;
}.

Lemma among_app b l1 l2 : among b (l1 ++ l2) = among b l1 + among b l2.
Proof. unfold among. induction l1 as [| m l1 IH]; cbn; [done | rewrite IH; lia]. Qed.

Lemma here_bounds b m : 0 <= here b m <= 1.
Proof. unfold here. by case_bool_decide. Qed.

Lemma among_nonneg b l : 0 <= among b l.
Proof. unfold among. induction l as [| m l IH]; cbn; [done |]. pose proof (here_bounds b m). lia. Qed.

Lemma with_threads_insert b ts t pc pc' : ts !! t = Some pc ->
  with_threads b (<[t := pc']> ts) = with_threads b ts - among b (in_hand pc) + among b (in_hand pc').
Proof.
  revert t. unfold with_threads. induction ts as [| p ts IH]; intros [| t] E; simplify_eq/=; rewrite !among_app; [lia |].
  rewrite (IH t E). lia.
Qed.

Lemma with_threads_hold b ts t pc : ts !! t = Some pc -> among b (in_hand pc) <= with_threads b ts.
Proof.
  revert t. unfold with_threads. induction ts as [| p ts IH]; intros [| t] E; simplify_eq/=; rewrite among_app.
  - pose proof (among_nonneg b (ts ≫= in_hand)). lia.
  - specialize (IH t E). pose proof (among_nonneg b (in_hand p)). lia.
Qed.

Lemma with_threads_wake b ts : with_threads b (wake_all ts) = with_threads b ts.
Proof.
  unfold with_threads. f_equal. induction ts as [| p ts IH]; [done |]. cbn. unfold wake_all in IH. rewrite IH. by destruct p.
Qed.

Lemma with_threads_nonneg b ts : 0 <= with_threads b ts.
Proof. apply among_nonneg. Qed.

Lemma in_queues_delete b qs a l : qs !! a = Some l -> in_queues b qs = among b l + in_queues b (delete a qs).
Proof. intros E. unfold in_queues. by rewrite (map_fold_delete_L _ _ a l qs) by (done || (intros; lia)). Qed.

Lemma in_queues_insert b qs a l l' : qs !! a = Some l ->
  in_queues b (<[a := l']> qs) = in_queues b qs - among b l + among b l'.
Proof.
  intros E. rewrite (in_queues_delete b qs a l E), (in_queues_delete b (<[a := l']> qs) a l') by apply lookup_insert_eq.
  rewrite delete_insert_eq. lia.
Qed.

Lemma in_queues_hold b qs a l : qs !! a = Some l -> among b l <= in_queues b qs.
Proof.
  intros E. rewrite (in_queues_delete b qs a l E). enough (0 <= in_queues b (delete a qs)) by lia. unfold in_queues.
  apply (map_fold_weak_ind (fun n _ => 0 <= n)); [done |]. intros k x m r _ Hr. pose proof (among_nonneg b x). lia.
Qed.

(** ** What the steps do to the queues *)

Lemma queues_insert h a c c' : h !! a = Some c -> q_elems (c_queue c') = q_elems (c_queue c) -> queues (<[a := c']> h) = queues h.
Proof.
  intros E Eq. unfold queues. rewrite fmap_insert. apply insert_id. by rewrite lookup_fmap, E, Eq.
Qed.

Lemma contextRelease_queues a (s s' : sys Q) r : contextRelease a s = Ok (r, s') ->
  match r with
  | Some _ => queues (heap s') = queues (heap s) /\ is_Some (heap s' !! a)
  | None => queues (heap s') = delete a (queues (heap s)) /\ heap s' !! a = None
  end.
Proof.
  unfold contextRelease. intros E. apply st_bind_inv in E as (c & s1 & L & E). apply load_inv in L as [-> L].
  apply st_bind_inv in E as (u & s2 & St & E). injection St as _ <-. destruct (c_ref c =? 1).
  - injection E as <- <-. cbn. unfold queues. rewrite fmap_delete, fmap_insert, delete_insert_eq. split; [done | apply lookup_delete_eq].
  - injection E as <- <-. cbn. split; [by eapply queues_insert | rewrite lookup_insert_eq; by eexists].
Qed.

Lemma contextDispatchMessage_queues a (s s' : sys Q) r :
  (forall c, heap s !! a = Some c -> q_wf (c_queue c)) -> contextDispatchMessage a s = Ok (r, s') ->
  exists l, queues (heap s) !! a = Some l /\
    match l with
    | [] => queues (heap s') = queues (heap s) /\ r.2 = None
    | m :: rest => queues (heap s') = <[a := rest]> (queues (heap s)) /\ (r.2 = Some m \/ r.2 = None)
    end.
Proof.
  unfold contextDispatchMessage. intros Hw E. apply st_bind_inv in E as (c & s1 & L & E).
  apply load_inv in L as [-> L]. specialize (Hw c L). apply st_bind_inv in E as ([o q] & s2 & Ep & E).
  assert (s2 = s /\ q_pop (c_queue c) = Ok (o, q)) as [-> Eq].
  { unfold st_lift in Ep. destruct (q_pop (c_queue c)) as [[] |]; [| done]. by injection Ep as <- <- ->. }
  exists (q_elems (c_queue c)). split; [unfold queues; by rewrite lookup_fmap, L |].
  destruct (q_elems (c_queue c)) as [| m rest] eqn:El.
  - rewrite (q_pop_nil _ Hw El) in Eq. injection Eq as <- <-. by injection E as <- <-.
  - destruct (q_pop_cons _ _ _ Hw El) as (q1 & Eq1 & _ & Er). rewrite Eq1 in Eq. injection Eq as <- ->.
    apply st_bind_inv in E as (u & s3 & St & E). injection St as _ <-.
    assert (Eh : queues (<[a := set_c_queue c q]> (heap s)) = <[a := rest]> (queues (heap s))) by (unfold queues; by rewrite fmap_insert, <- Er).
    destruct (c_cb c); cbn [negb] in E; [| injection E as <- <-; auto].
    destruct (_ =? _); [| injection E as <- <-; auto].
    apply st_bind_inv in E as (x & s4 & Er4 & E). apply contextRelease_queues in Er4.
    apply st_bind_inv in E as (y & s5 & Ea & E). injection E as <- <-. destruct x; [| done]. injection Ea as _ <-.
    destruct Er4 as [E4 _]. rewrite E4. auto.
Qed.

(** The queues after a step of a thread. *)
Definition queue_step (pc pc' : wpc) (h h' : gmap nat (context Q)) : Prop :=
  match pc with
  | SPush a m => exists l, queues h !! a = Some l /\ queues h' = <[a := l ++ [m]]> (queues h) /\ in_hand pc' = []
  | WDisp a => exists l, queues h !! a = Some l /\
      match l with
      | [] => queues h' = queues h /\ pc' = WCas a
      | m :: rest => queues h' = <[a := rest]> (queues h) /\ (pc' = WRun a m \/ pc' = WCas a)
      end
  | Rel a _ => in_hand pc' = [] /\ exists l, queues h !! a = Some l /\
      (queues h' = queues h /\ is_Some (h' !! a) \/ queues h' = delete a (queues h) /\ h' !! a = None)
  | SRetain (Some a) m => queues h' = queues h /\ pc' = SPush a m
  | _ => queues h' = queues h /\ in_hand pc' = []
  end.

Lemma wstep_queues pc p pc' p' b :
  (forall a c, heap (base p) !! a = Some c -> q_wf (c_queue c)) -> wstep pc p = Ok (pc', p', b) ->
  blocked pc = false -> queue_step pc pc' (heap (base p)) (heap (base p')).
Proof.
  intros Hw E Hb. destruct pc as [| o m | a m | a | a | | | a | a m | a | a | a | a w | id w | sl | | |]; try done; cbn [wstep] in E;
    try (injection E as <- <- _; done).
  - apply bind_Ok_inv in E as ([r p1] & E1 & E). injection E as <- <- _. apply on_base_inv in E1 as (b1 & E1 & ->).
    destruct o as [a |]; cbn [contextRetain] in E1; [| by injection E1 as _ <-].
    apply st_bind_inv in E1 as (c & s1 & L & E1). apply load_inv in L as [-> L]. injection E1 as _ <-.
    split; [| done]. by eapply queues_insert.
  - apply bind_Ok_inv in E as ([r p1] & E1 & E). injection E as <- <- _.
    apply pushMessage_inv in E1 as (_ & c & q & Ec & Eq & Eh). cbn [snd]. exists (q_elems (c_queue c)).
    split; [unfold queues; by rewrite lookup_fmap, Ec |]. split; [| done].
    destruct (q_push_spec (c_queue c) m (Hw a c Ec)) as (ok & q1 & Eq1 & _ & El). rewrite Eq1 in Eq. injection Eq as -> ->.
    rewrite Eh. unfold queues. by rewrite fmap_insert, <- El.
  - apply bind_Ok_inv in E as ([r p1] & E1 & E). injection E as <- <- _. split; [| by destruct r].
    apply casInGlobal_inv in E1 as (_ & c & Ec & [(_ & _ & Eh) | (_ & _ & Eh)]); cbn [snd]; rewrite Eh; [by eapply queues_insert | done].
  - apply bind_Ok_inv in E as ([r p1] & E1 & E). injection E as <- <- _. split; [| done].
    unfold enqueue in E1. apply bind_Ok_inv in E1 as ([ok q] & _ & E1). by injection E1 as _ <-.
  - apply bind_Ok_inv in E as ([r q1] & E1 & E). injection E as <- <- _. split; [done |]. by destruct r.
  - apply bind_Ok_inv in E as ([[z o] p1] & E1 & E). injection E as <- <- _. apply on_base_inv in E1 as (b1 & E1 & ->). cbn [fst snd].
    destruct (contextDispatchMessage_queues _ _ _ _ (Hw a) E1) as (l & El & Hl). exists l. split; [done |]. cbn [base with_base].
    destruct l as [| m rest]; cbn [snd] in Hl; [destruct Hl as [-> ->]; done |]. destruct Hl as [-> [-> | ->]]; auto.
  - injection E as <- <- _. split; [done |]. by destruct (workerPoolHaveWork p).
  - apply bind_Ok_inv in E as ([r p1] & E1 & E). injection E as <- <- _. split; [| done].
    unfold enqueue in E1. apply bind_Ok_inv in E1 as ([ok q] & _ & E1). by injection E1 as _ <-.
  - apply bind_Ok_inv in E as ([r p1] & E1 & E). destruct r; [| done]. injection E as <- <- _. split; [| done].
    apply casInGlobal_inv in E1 as (_ & c & Ec & [(_ & _ & Eh) | (_ & _ & Eh)]); cbn [snd]; rewrite Eh; [by eapply queues_insert | done].
  - apply bind_Ok_inv in E as ([c s1] & L & E). apply load_inv in L as [_ L]. apply bind_Ok_inv in E as ([r p1] & E1 & E).
    injection E as <- <- _. apply on_base_inv in E1 as (b1 & E1 & ->). split; [by destruct r, w |].
    exists (q_elems (c_queue c)). split; [unfold queues; by rewrite lookup_fmap, L |]. apply contextRelease_queues in E1.
    destruct r; [by left | by right].
  - apply bind_Ok_inv in E as ([r p1] & E1 & E). injection E as <- <- _.
    apply on_base_inv in E1 as (b1 & E1 & ->). cbn. rewrite (ctxMgrRemoveContext_keep _ _ _ _ E1).
    split; [done | by destruct w].
  - destruct (_ =? 0); injection E as <- <- _; (split; [done |]); [done | by destruct sl].
  - injection E as <- <- _. split; [done |]. by destruct (_ && _).
Qed.

(** ** Every step keeps the count *)

Lemma free_spec m live : (forall b, here b m <= is_live b live) ->
  exists l, free_data m live = Ok l /\ l ⊆ live /\ forall b, is_live b l = is_live b live - here b m.
Proof.
  intros Hm. unfold free_data, here in *. destruct (block m) as [b0 |] eqn:Eb.
  - specialize (Hm b0) as H0'. rewrite bool_decide_eq_true_2 in H0' by done. unfold is_live in *.
    case_bool_decide as Hin; [| lia]. eexists. split; [done |]. split; [set_solver |]. intros b.
    destruct (decide (b = b0)) as [-> | Hne].
    + rewrite (bool_decide_eq_true_2 (Some b0 = Some b0)) by done. rewrite bool_decide_eq_false_2 by set_solver. by rewrite bool_decide_eq_true_2.
    + rewrite (bool_decide_eq_false_2 (Some b0 = Some b)) by congruence. rewrite Z.sub_0_r.
      case_bool_decide; case_bool_decide; set_solver.
  - eexists. split; [done |]. split; [done |]. intros b. rewrite bool_decide_eq_false_2 by done. lia.
Qed.

Lemma broadcast_exits pc p pc' p' : wstep pc p = Ok (pc', p', true) -> pc' = WExit.
Proof.
  intros E. destruct pc as [| o m | a m | a | a | | | a | a m | a | a | a | a w | id w | sl | | |]; cbn [wstep] in E; try done.
  all: try (apply bind_Ok_inv in E as ([r p1] & _ & E); try done).
  - by destruct r.
  - by apply bind_Ok_inv in E as (? & _ & E).
  - by destruct (contextNum (base p) =? 0); injection E as <-.
Qed.

(** The parts of the state a step changes. *)
Lemma step_parts t (s s' : wstate Q G) : finv s -> wexec (AStep t) s = Some (Ok s') ->
  exists pc pc', wthr s !! t = Some pc /\ wthr s' !! t = Some pc' /\ queue_step pc pc' (wheap s) (wheap s') /\
    forall b, with_threads b (wthr s') = with_threads b (wthr s) - among b (in_hand pc) + among b (in_hand pc').
Proof.
  intros F E. assert (Hb : exists pc, wthr s !! t = Some pc /\ blocked pc = false).
  { cbn [wexec] in E. destruct (wthr s !! t) as [pc |]; [| done]. exists pc. split; [done |]. by destruct (blocked pc). }
  apply wnext_step_inv in E as (pc & pc' & p' & b & Et & Es & <- & Ets & _ & _). destruct Hb as (pc0 & Et0 & Hb).
  rewrite Et in Et0. injection Et0 as <-. pose proof (lookup_lt_Some _ _ _ Et) as Hlt.
  exists pc, pc'. split; [done |]. rewrite Ets. split; [| split].
  - destruct b; [| by rewrite list_lookup_insert_eq]. rewrite (broadcast_exits _ _ _ _ Es). unfold wake_all.
    by rewrite list_lookup_fmap, list_lookup_insert_eq.
  - eapply wstep_queues; [| exact Es | done]. intros a c Ec. by apply (fi_ctx _ F a c).
  - intros b0. rewrite <- (with_threads_insert _ _ _ _ _ Et). by destruct b; rewrite ?with_threads_wake.
Qed.

Lemma messages_queues h a l : queues h !! a = Some l -> messages h a = l.
Proof. unfold queues, messages. rewrite lookup_fmap. destruct (h !! a); [by intros [= <-] | done]. Qed.

Lemma in_queues_nonneg b qs : 0 <= in_queues b qs.
Proof.
  unfold in_queues. apply (map_fold_weak_ind (fun n _ => 0 <= n)); [done |]. intros k x m r _ Hr. pose proof (among_nonneg b x). lia.
Qed.

Lemma among_one b m : among b [m] = here b m.
Proof. unfold among. cbn. lia. Qed.

(** Of the owners in threads and queues, [d] are gone after a step. *)
Definition gone (S : ostate) (s' : wstate Q G) (d : nat -> Z) : Prop :=
  forall b, with_threads b (wthr s') + in_queues b (queues (wheap s')) + d b =
    with_threads b (wthr (o_w S)) + in_queues b (queues (wheap (o_w S))).

Definition accounted (S : ostate) (s' : wstate Q G) (r : outcome (gset nat * list message)) : Prop :=
  exists live lost, r = Ok (live, lost) /\ live ⊆ o_live S /\
    forall b, owners b (OState s' live (o_used S) (o_lost S ++ lost)) = is_live b live.

Lemma lose_accounted S s' l : oinv S -> gone S s' (fun b => among b l) -> accounted S s' (Ok (o_live S, l)).
Proof.
  intros [_ _ O _] Hg. exists (o_live S), l. split; [done |]. split; [done |]. intros b. rewrite <- O. unfold owners.
  cbn [o_w o_lost]. rewrite among_app. specialize (Hg b). cbn beta in Hg. lia.
Qed.

Lemma free_accounted S s' m : oinv S -> gone S s' (fun b => here b m) ->
  accounted S s' (l ← free_data m (o_live S); Ok (l, [])).
Proof.
  intros [_ _ O _] Hg. unfold owners in O. destruct (free_spec m (o_live S)) as (l & El & Hl & Hb).
  { intros b. rewrite <- O. specialize (Hg b). cbn beta in Hg. pose proof (with_threads_nonneg b (wthr s')).
    pose proof (in_queues_nonneg b (queues (wheap s'))). pose proof (among_nonneg b (o_lost S)). lia. }
  exists l, []. rewrite El, bind_Ok. split; [done |]. split; [done |]. intros b. rewrite Hb, <- O. unfold owners. cbn [o_w o_lost].
  rewrite app_nil_r. specialize (Hg b). cbn beta in Hg. lia.
Qed.

Lemma step_accounted t S (s' : wstate Q G) pc pc' : oinv S -> wthr (o_w S) !! t = Some pc ->
  queue_step pc pc' (wheap (o_w S)) (wheap s') ->
  (forall b, with_threads b (wthr s') = with_threads b (wthr (o_w S)) - among b (in_hand pc) + among b (in_hand pc')) ->
  accounted S s' (step_blocks pc pc' (o_w S) s' (o_live S)).
Proof.
  intros I Et Hq Ht.
  assert (Keep : gone S s' (fun _ => 0) -> accounted S s' (Ok (o_live S, []))).
  { intros Hg. by apply lose_accounted. }
  destruct pc as [| [a |] m | a m | a | a | | | a | a m | a | a | a | a w | id w | sl | | |]; cbn [queue_step step_blocks in_hand] in *.
  all: try (destruct Hq as [Eq Ep]; apply Keep; intros b; rewrite Ht, Eq, ?Ep; cbn [in_hand]; lia).
  - destruct Hq as [Eq Ep]. apply free_accounted; [done |]. intros b. rewrite Ht, Eq, Ep, among_one. change (among b []) with 0. lia.
  - destruct Hq as (l & El & Eq & Ep). apply Keep. intros b. rewrite Ht, Ep, Eq, (in_queues_insert b _ _ _ _ El), among_app, among_one.
    change (among b []) with 0. lia.
  - destruct Hq as (l & El & Hq). rewrite (messages_queues _ _ _ El). destruct l as [| m rest].
    + destruct Hq as [Eq ->]. apply Keep. intros b. rewrite Ht, Eq. cbn [in_hand]. lia.
    + destruct Hq as [Eq Hpc].
      assert (Hb : forall b, in_queues b (queues (wheap s')) = in_queues b (queues (wheap (o_w S))) - here b m).
      { intros b. rewrite Eq, (in_queues_insert b _ _ _ _ El). change (among b (m :: rest)) with (here b m + among b rest). lia. }
      destruct Hpc as [-> | ->]; cbn [in_hand] in Ht.
      * apply Keep. intros b. rewrite Ht, Hb, among_one. change (among b []) with 0. lia.
      * apply free_accounted; [done |]. intros b. rewrite Ht, Hb. lia.
  - destruct Hq as [Eq Ep]. apply free_accounted; [done |]. intros b. rewrite Ht, Eq, Ep, among_one. change (among b []) with 0. lia.
  - destruct Hq as (Ep & l & El & [[Eq [c Ec]] | [Eq En]]); rewrite ?Ec, ?En.
    + apply Keep. intros b. rewrite Ht, Eq, Ep. lia.
    + rewrite (messages_queues _ _ _ El). apply lose_accounted; [done |]. intros b.
      rewrite Ht, Ep, Eq, (in_queues_delete b _ _ _ El). lia.
Qed.

(** ** Sends and wake-ups *)

Lemma lookup_same id (s s' : sys Q) o : ctxMgrLookup id s = Ok (o, s') -> s' = s.
Proof.
  unfold ctxMgrLookup. erewrite st_bind_Ok by reflexivity. unfold st_lift. destruct (aget _ _); [by intros [= _ ->] | done].
Qed.

Lemma send_parts t id m (s s' : wstate Q G) : wexec (ASend t id m) s = Some (Ok s') ->
  wheap s' = wheap s /\ forall b, with_threads b (wthr s') = with_threads b (wthr s) + here b m.
Proof.
  cbn [wexec]. destruct (wthr s !! t) as [[] |] eqn:Et; try done. intros [= E].
  apply bind_Ok_inv in E as ([o p'] & El & E). injection E as <-. apply on_base_inv in El as (b1 & El & ->).
  apply lookup_same in El as ->. split; [done |]. intros b. cbn [wthr fst]. rewrite (with_threads_insert _ _ _ _ _ Et).
  cbn [in_hand]. rewrite among_one. change (among b []) with 0. lia.
Qed.

Lemma wake_parts t w (s s' : wstate Q G) : wexec (AWake t w) s = Some (Ok s') ->
  wheap s' = wheap s /\ forall b, with_threads b (wthr s') = with_threads b (wthr s).
Proof.
  cbn [wexec]. destruct (wthr s !! t) as [[] |] eqn:Et; try done.
  assert (Hid : forall b, with_threads b (<[t := SIdle]> (wthr s)) = with_threads b (wthr s)).
  { intros b. rewrite (with_threads_insert _ _ _ _ _ Et). cbn [in_hand]. lia. }
  destruct (wthr s !! w) as [pc |] eqn:Ew; [| destruct (forallb _ _); [intros [= <-]; by split | done]].
  destruct pc; try (destruct (forallb _ _); [intros [= <-]; by split | done]). intros [= <-]. split; [done |]. intros b. cbn [wthr].
  rewrite (with_threads_insert b _ t SWake), (with_threads_insert b _ _ _ _ Ew); [cbn [in_hand]; lia |].
  rewrite list_lookup_insert_ne; [done |]. congruence.
Qed.

Lemma send_to_inv t id m live used S S' : oinv S ->
  (forall b, is_live b live = is_live b (o_live S) + here b m) -> live ⊆ used ->
  send_to t id m live used S = Some (Ok S') -> oinv S'.
Proof.
  intros I Hl Hu E. destruct I as [Iw If Io Iu]. unfold send_to in E. destruct (id =? 0).
  - destruct (wthr (o_w S) !! t) as [[] |]; try done. injection E as <-. split; cbn [o_w o_live o_used]; try done.
    intros b. rewrite Hl, <- Io. unfold owners. cbn [o_w o_lost]. rewrite among_app, among_one. lia.
  - destruct (wexec (ASend t id m) (o_w S)) as [r |] eqn:Ew; [| done]. injection E as E. apply bind_Ok_inv in E as (w & -> & [= <-]).
    assert (N : wnext (o_w S) w) by (by econstructor). destruct (send_parts _ _ _ _ _ Ew) as [Eh Et].
    split; cbn [o_w o_live o_used]; [by eapply winv_next | by eapply finv_next | | done].
    intros b. rewrite Hl, <- Io. unfold owners. cbn [o_w o_lost]. rewrite Eh, Et. lia.
Qed.

Lemma alloc_live S m : oinv S -> (forall b, block m = Some b -> b ∉ o_used S) ->
  forall b, is_live b (alloc m (o_live S)) = is_live b (o_live S) + here b m.
Proof.
  intros I Hf b. pose proof (oi_used _ I) as Hu. unfold alloc, here, is_live. destruct (block m) as [b0 |].
  - specialize (Hf b0 eq_refl). destruct (decide (b = b0)) as [-> | Hne].
    + rewrite (bool_decide_eq_true_2 (Some b0 = Some b0)), (bool_decide_eq_false_2 (b0 ∈ o_live S)), bool_decide_eq_true_2 by set_solver. done.
    + rewrite (bool_decide_eq_false_2 (Some b0 = Some b)), Z.add_0_r by congruence.
      assert (Hd : bool_decide (b ∈ {[b0]} ∪ o_live S) = bool_decide (b ∈ o_live S)) by (apply bool_decide_ext; set_solver). by rewrite Hd.
  - rewrite (bool_decide_eq_false_2 (None = Some b)) by done. lia.
Qed.

Lemma oinv_next S S' : oinv S -> onext S S' -> oinv S'.
Proof.
  intros I N. revert I. destruct N as [x S S' Ho E]. intros I. destruct x as [t id m | t id m | t | t w]; cbn [oexec own_data] in *.
  - eapply send_to_inv; [exact I | by apply alloc_live | | exact E]. unfold alloc. pose proof (oi_used _ I). destruct (block m); set_solver.
  - eapply send_to_inv; [exact I | | apply I | exact E]. intros b. unfold here. rewrite Ho. rewrite bool_decide_eq_false_2 by done. lia.
  - destruct (wthr (o_w S) !! t) as [pc |] eqn:Et; [| done]. destruct (wexec (AStep t) (o_w S)) as [r |] eqn:Ew; [| done].
    injection E as E. apply bind_Ok_inv in E as (w & -> & E). assert (N : wnext (o_w S) w) by (by econstructor).
    destruct (step_parts _ _ _ (oi_f _ I) Ew) as (pc0 & pc' & Et0 & Et' & Hq & Ht). rewrite Et in Et0. injection Et0 as <-.
    rewrite Et' in E. cbn [default] in E. destruct (step_accounted _ _ _ _ _ I Et Hq Ht) as (live & lost & Es & Hl & Hc).
    unfold default, from_option, id in E. rewrite Es, bind_Ok in E. injection E as <-.
    split; cbn [o_w o_live o_used]; [eapply winv_next; [apply I | done] | eapply finv_next; [apply I | apply I | done] | exact Hc |].
    etrans; [exact Hl | apply I].
  - destruct (wexec (AWake t w) (o_w S)) as [r |] eqn:Ew; [| done]. injection E as E. apply bind_Ok_inv in E as (w' & -> & [= <-]).
    assert (N : wnext (o_w S) w') by (by econstructor). destruct (wake_parts _ _ _ _ Ew) as [Eh Et].
    split; cbn [o_w o_live o_used]; [eapply winv_next; [apply I | done] | eapply finv_next; [apply I | apply I | done] | | apply I].
    intros b. rewrite <- (oi_owners _ I). unfold owners. cbn [o_w o_lost]. by rewrite Eh, Et.
Qed.

(** The pool at rest, no message anywhere. *)
Lemma ostart_inv (s0 : wstate Q G) : winit s0 -> oinv (OState s0 ∅ ∅ []).
Proof.
  intros W. split; cbn [o_w o_live o_used]; [by apply winit_winv | by apply winit_finv | | done]. intros b. unfold owners. cbn [o_w o_lost].
  assert (Ht : with_threads b (wthr s0) = 0).
  { unfold with_threads. pose proof (in_thr _ W) as Hf. induction Hf as [| pc ts Hpc _ IH]; [done |]. by destruct Hpc as [-> | [-> | ->]]. }
  assert (Hqs : in_queues b (queues (wheap s0)) = 0).
  { unfold in_queues, queues. apply (map_fold_weak_ind (fun n m => (forall a l, m !! a = Some l -> l = []) -> n = 0)); [done | |].
    - intros a l m r Ha IH Hm. rewrite (Hm a l) by apply lookup_insert_eq. change (among b []) with 0. rewrite IH; [done |].
      intros a' l' Ea. apply (Hm a'). rewrite lookup_insert_ne by congruence. done.
    - intros a l Ea. rewrite lookup_fmap in Ea. apply fmap_Some in Ea as (c & Ec & ->). by destruct (in_ctx _ W a c Ec) as (_ & -> & _). }
  rewrite Ht, Hqs. unfold is_live. by rewrite bool_decide_eq_false_2 by set_solver.
Qed.

(** C6: the data of a message are freed exactly once, provided every send hands over
    a block of its own - no callback forwards the block it was given, as
    _sendById of lua-z.c can be told to; then [forwarding_frees_twice].  Under that
    condition, however senders and workers interleave: no thread frees a block
    that is not live, the only faults are those of the pool itself; and every
    live block belongs to exactly one message, which a thread has in hand, which
    is in a queue, or which was sent to identifier 0 or was in the queue of a
    freed context (those are never freed).  A block that was freed has no owner. *)
Theorem blocks_freed_once (s0 : wstate Q G) S :
  winit s0 -> rtc onext (OState s0 ∅ ∅ []) S ->
  (forall x f, own_data x S -> oexec x S = Some (Fault f) -> exists wx, wexec wx (o_w S) = Some (Fault f)) /\
  forall b, owners b S = if bool_decide (b ∈ o_live S) then 1 else 0.
Proof.
  intros W R. assert (I : oinv S).
  { pose proof (ostart_inv s0 W) as I0. induction R as [| S1 S2 S3 N _ IH]; [done |]. apply IH. by eapply oinv_next. }
  split; [| apply I]. intros x f Ho E. destruct x as [t id m | t id m | t | t w]; cbn [oexec] in E.
  1, 2: unfold send_to in E; destruct (id =? 0); [by destruct (wthr (o_w S) !! t) as [[] |] |];
    destruct (wexec (ASend t id m) (o_w S)) as [[w | e] |] eqn:Ew; try done; injection E as <-; by exists (ASend t id m).
  - destruct (wthr (o_w S) !! t) as [pc |] eqn:Et; [| done]. destruct (wexec (AStep t) (o_w S)) as [[w | e] |] eqn:Ew; [| | done].
    2: { injection E as <-. by exists (AStep t). }
    destruct (step_parts _ _ _ (oi_f _ I) Ew) as (pc0 & pc' & Et0 & Et' & Hq & Ht). rewrite Et in Et0. injection Et0 as <-.
    destruct (step_accounted _ _ _ _ _ I Et Hq Ht) as (live & lost & Es & _). rewrite bind_Ok, Et' in E.
    unfold default, from_option, id in E. rewrite Es, bind_Ok in E. done.
  - destruct (wexec (AWake t w) (o_w S)) as [[w' | e] |] eqn:Ew; [done | | done]. injection E as <-. by exists (AWake t w).
Qed.
End Blocks.
Arguments ostate : clear implicits.

Lemma orun_sound {Q G} `{FifoLaws Q message} `{FifoLaws G nat} xs (S S' : ostate Q G) :
  Forall (fun x => forall S1 : ostate Q G, own_data x S1) xs -> orun xs S = Some (Ok S') -> rtc onext S S'.
Proof.
  intros Hx. revert S. induction Hx as [| x xs Hx _ IH]; intros S E; cbn [orun] in E; [injection E as <-; apply rtc_refl |].
  destruct (oexec x S) as [[S1 | f] |] eqn:Ex; try done. eapply rtc_l; [by econstructor | by apply IH].
Qed.

(** ** Runs on the lock-free queues *)

Definition message_with (b : nat) : message := Message 9 0 MSG_TYPE_PROTO_LUA 0 8 (at_block b).
Definition demo_blocks : ostate (lfq message) (lfq nat) := OState demo ∅ ∅ [].

(** A message from thread 0 to the context, which the worker, thread 2, runs. *)
Definition sent_and_run : list oaction :=
  [OStep 0; OStep 0; OStep 0; OStep 0; OWake 0 2; OStep 2; OStep 2; OStep 2].

Lemma blocks_freed_once_witness :
  exists S1 S2, rtc onext demo_blocks S1 /\ rtc onext demo_blocks S2 /\
    owners 7 S1 = 1 /\ o_live S1 = {[7%nat]} /\ owners 7 S2 = 0 /\ o_live S2 = ∅ /\ o_used S2 = {[7%nat]}.
Proof.
  destruct (oexec (OSend 0 1 (message_with 7)) demo_blocks) as [[S1 | f] |] eqn:E1; [| by vm_compute in E1 | by vm_compute in E1].
  assert (N : onext demo_blocks S1) by (apply (ONext (OSend 0 1 (message_with 7))); [intros b Hb; set_solver | exact E1]).
  destruct (orun sent_and_run S1) as [[S2 | f] |] eqn:E2; [| by vm_compute in E1; injection E1 as <-; vm_compute in E2 ..].
  assert (R2 : rtc onext S1 S2) by (apply (orun_sound sent_and_run); [repeat (apply Forall_cons_2; [done |]); apply Forall_nil_2 | exact E2]).
  assert (Hv : o_live S1 = {[7%nat]} /\ o_live S2 = ∅ /\ o_used S2 = {[7%nat]})
    by (vm_compute in E1; injection E1 as <-; vm_compute in E2; injection E2 as <-; by vm_compute).
  clear E1 E2. destruct Hv as (L1 & L2 & U2). exists S1, S2.
  assert (R1 : rtc onext demo_blocks S1) by (by apply rtc_once).
  assert (R3 : rtc onext demo_blocks S2) by (by etrans).
  split; [exact R1 |]. split; [exact R3 |].
  destruct (blocks_freed_once demo S1 demo_winit R1) as [_ O1]. destruct (blocks_freed_once demo S2 demo_winit R3) as [_ O2].
  split; [rewrite O1, L1; reflexivity |]. split; [exact L1 |]. split; [rewrite O2, L2; reflexivity |]. split; [exact L2 | exact U2].
Defined.

(** A callback that forwards the data it was given ([_send] and [_redirect] take a
    light userdata as it is): the address is in two messages, and is freed after
    each. *)
Definition forwarded : list oaction :=
  [OSend 0 1 (message_with 7)] ++ take 7 sent_and_run ++
  [OForward 1 1 (message_with 7); OStep 1; OStep 1; OStep 1; OStep 1; OStep 2; OStep 2; OStep 2].

Theorem forwarding_frees_twice :
  exists S, orun forwarded demo_blocks = Some (Ok S) /\ o_live S = ∅ /\ oexec (OStep 2) S = Some (Fault UseAfterFree).
Proof.
  destruct (orun forwarded demo_blocks) as [[S | f] |] eqn:E; [| by vm_compute in E | by vm_compute in E].
  exists S. split; [done |]. vm_compute in E. injection E as <-. split; by vm_compute.
Qed.

(** A message to identifier 0 is refused and its data are not freed, one to an
    identifier nobody has is refused and they are; what is in the queue of a
    context when it is freed stays as well. *)
Theorem refused_data_lost :
  exists S1 S2, orun [OSend 0 0 (message_with 7)] demo_blocks = Some (Ok S1) /\ o_live S1 = {[7%nat]} /\ o_lost S1 = [message_with 7] /\
    orun [OSend 0 2 (message_with 7); OStep 0] demo_blocks = Some (Ok S2) /\ o_live S2 = ∅ /\ o_lost S2 = [].
Proof. eexists _, _. repeat split; vm_compute; reflexivity. Qed.
