(* ===== verification/Worker.v ===== *)
(** * worker.c: a worker thread that sleeps on a condition variable

    The file is not built: the functions of the pool that it calls are not those
    of worker_pool.c any more, and are parameters here.  [workerSleep] and
    [workerWakeUp] are taken apart into their calls on the mutex and the condition
    variable, for one worker and any number of threads that wake it. *)
From S2P Require Import Prelude.

Definition IDLE_STATE : Z := 0.
Definition WORK_STATE : Z := 1.

(** ** The loop of the thread *)
Section handle.
  Context {W C : Type}.
  Variables (workerPoolPopContext : ST W (option C)) (ctxMgrGetContextNum : ST W Z).
  Variables (contextDispatchMessage : C -> ST W Z) (clear_inGlobal contextRelease : C -> ST W unit).
  Variables (workerPoolHaveWork : ST W bool) (workerPoolPushContext : C -> ST W unit) (workerSleep : ST W unit).

(** The inner loop: one context. *)
Fixpoint dispatch_loop (fuel : nat) (ctx : C) : ST W unit :=
  match fuel with
  | O => st_fault OutOfFuel
  | S fuel =>
    result ← contextDispatchMessage ctx;
    if result =? -1 then _ ← clear_inGlobal ctx; contextRelease ctx
    else
      b ← workerPoolHaveWork;
      if negb b then workerPoolPushContext ctx else dispatch_loop fuel ctx
  end.

Fixpoint handle (fuel : nat) : ST W unit :=
  match fuel with
  | O => st_fault OutOfFuel
  | S fuel =>
    ctx ← workerPoolPopContext;
    match ctx with
    | None =>
      num ← ctxMgrGetContextNum;
      if num <=? 0 then mret tt else _ ← workerSleep; handle fuel
    | Some ctx => _ ← dispatch_loop fuel ctx; handle fuel
    end
  end.
End handle.

(** ** Sleeping and waking *)

Inductive holder := ByWorker | ByWaker (k : nat).

(** The worker in [workerSleep]: outside, after the CAS, holding the mutex, in the
    wait, woken, with the mutex again, before [workerPoolAddWorker]. *)
Inductive wpc := WOut | WLock | WWait | WBlocked | WRelock | WUnlock | WAdd.

(** A thread in [workerWakeUp]. *)
Inductive kpc := KLock | KSignal | KUnlock | KSub | KDone.

Record worker := MkWorker {
  state : Z;
  lock : option holder;
  w_pc : wpc;
  wakers : list kpc;
  slept : nat;
  counted : Z;
}.

Definition workerCreate (n : nat) : worker := MkWorker WORK_STATE None WOut (replicate n KLock) 0 0.

Definition set_w (w : worker) (l : option holder) (p : wpc) : worker := MkWorker (state w) l p (wakers w) (slept w) (counted w).
Definition set_k (w : worker) (l : option holder) (p : wpc) (k : nat) (q : kpc) : worker :=
  MkWorker (state w) l p (<[k := q]> (wakers w)) (slept w) (counted w).

(** [workerSleep]; at [WOut] it is called once more. *)
Definition sleep_step (w : worker) : option (outcome worker) :=
  match w_pc w with
  | WOut =>
    Some (if state w =? WORK_STATE then Ok (MkWorker IDLE_STATE (lock w) WLock (wakers w) (slept w) (counted w))
          else Fault AssertFailed)
  | WLock => match lock w with None => Some (Ok (set_w w (Some ByWorker) WWait)) | Some _ => None end
  | WWait => Some (Ok (set_w w None WBlocked))
  | WBlocked => None
  | WRelock => match lock w with None => Some (Ok (set_w w (Some ByWorker) WUnlock)) | Some _ => None end
  | WUnlock => Some (Ok (set_w w None WAdd))
  | WAdd => Some (Ok (MkWorker (state w) (lock w) WOut (wakers w) (S (slept w)) (counted w + 1)))
  end.

(** [workerWakeUp] of the [k]-th thread. *)
Definition wake_step (w : worker) (k : nat) : option worker :=
  match wakers w !! k with
  | Some KLock => match lock w with None => Some (set_k w (Some (ByWaker k)) (w_pc w) k KSignal) | Some _ => None end
  | Some KSignal => Some (set_k w (lock w) (match w_pc w with WBlocked => WRelock | p => p end) k KUnlock)
  | Some KUnlock => Some (set_k w None (w_pc w) k KSub)
  | Some KSub => Some (MkWorker (state w) (lock w) (w_pc w) (<[k := KDone]> (wakers w)) (slept w) (counted w - 1))
  | _ => None
  end.

Inductive waction := WSleep | WWake (k : nat) | WSpurious.

Definition wexec (a : waction) (w : worker) : option (outcome worker) :=
  match a with
  | WSleep => sleep_step w
  | WWake k => Ok <$> wake_step w k
  | WSpurious => match w_pc w with WBlocked => Some (Ok (set_w w (lock w) WRelock)) | _ => None end
  end.

Inductive wnext (w : worker) : worker -> Prop :=
  | WNext a w' : wexec a w = Some (Ok w') -> wnext w w'.

Fixpoint wrun (xs : list waction) (w : worker) : option (outcome worker) :=
  match xs with
  | [] => Some (Ok w)
  | x :: xs => match wexec x w with Some (Ok w') => wrun xs w' | r => r end
  end.

Lemma worker_run_sound xs w w' : wrun xs w = Some (Ok w') -> rtc wnext w w'.
Proof.
  revert w. induction xs as [| x xs IH]; intros w E; cbn [wrun] in E; [injection E as <-; apply rtc_refl |].
  destruct (wexec x w) as [[w1 | e] |] eqn:Ex; try done. eapply rtc_l; [by econstructor | by apply IH].
Qed.

(** The worker is in its first sleep, or the state is idle for good. *)
Definition once (w : worker) : Prop :=
  (state w = WORK_STATE /\ slept w = 0%nat /\ w_pc w = WOut) \/
  (state w = IDLE_STATE /\ (slept w = 0%nat /\ w_pc w <> WOut \/ slept w = 1%nat /\ w_pc w = WOut)).

Lemma once_next w w' : once w -> wnext w w' -> once w'.
Proof.
  intros I [a w1 E]. destruct w as [s l p ks n c]. unfold once in *. cbn in I. destruct a as [| k |]; cbn in E.
  - unfold sleep_step in E. cbn in E. destruct p; cbn in E; try (destruct l; [done |]); try done; try (injection E as <-; cbn; by unfold IDLE_STATE, WORK_STATE in *; intuition (congruence || lia)).
    destruct (Z.eqb_spec s WORK_STATE); [| done]. injection E as <-. cbn. by unfold IDLE_STATE, WORK_STATE in *; intuition (congruence || lia).
  - unfold wake_step in E. cbn in E. destruct (ks !! k) as [[] |]; cbn in E; try done; try (destruct l; [done |]);
      injection E as <-; cbn; destruct p; by unfold IDLE_STATE, WORK_STATE in *; intuition (congruence || lia).
  - destruct p; try done. injection E as <-. cbn. by unfold IDLE_STATE, WORK_STATE in *; intuition (congruence || lia).
Qed.

(** Nobody sets [state] back: a worker sleeps once, however often and by however
    many threads it is woken, and the next call of [workerSleep] stops the
    process. *)
Theorem workerSleep_once n w :
  rtc wnext (workerCreate n) w ->
  (slept w <= 1)%nat /\ (slept w = 1%nat -> wexec WSleep w = Some (Fault AssertFailed)).
Proof.
  intros R. assert (I : once w).
  { assert (I0 : once (workerCreate n)) by (by left). induction R as [| w1 w2 w3 N _ IH]; [done |]. apply IH. by eapply once_next. }
  destruct I as [(_ & Hs & _) | (Hst & [[Hs _] | [Hs Hp]])]; rewrite Hs; (split; [lia | try done]).
  intros _. cbn. unfold sleep_step. by rewrite Hp, Hst.
Qed.

Definition one_nap : list waction := [WSleep; WSleep; WSleep; WWake 0; WWake 0; WWake 0; WWake 0; WSleep; WSleep; WSleep].

Lemma workerSleep_once_witness :
  exists w, rtc wnext (workerCreate 1) w /\ slept w = 1%nat /\ wexec WSleep w = Some (Fault AssertFailed).
Proof.
  destruct (wrun one_nap (workerCreate 1)) as [[w | e] |] eqn:E; [| by vm_compute in E | by vm_compute in E].
  assert (Hs : slept w = 1%nat) by (vm_compute in E; by injection E as <-). exists w.
  pose proof (worker_run_sound _ _ _ E) as R. split; [exact R |]. split; [exact Hs |]. by apply (workerSleep_once 1 w R).
Defined.

(** A wake-up before the worker waits is lost: everyone who would wake it is done,
    and without another signal it stays. *)
Theorem workerWakeUp_lost :
  exists w, rtc wnext (workerCreate 1) w /\ w_pc w = WBlocked /\ wakers w = [KDone] /\
    wexec WSleep w = None /\ forall k, wexec (WWake k) w = None.
Proof.
  destruct (wrun [WSleep; WWake 0; WWake 0; WWake 0; WWake 0; WSleep; WSleep] (workerCreate 1)) as [[w | e] |] eqn:E; [| by vm_compute in E | by vm_compute in E].
  exists w. split; [by apply (worker_run_sound _ _ _ E) |]. vm_compute in E. injection E as <-. repeat (split; [done |]). by intros [| k].
Qed.

(** With other work in the pool a context is not given up: the thread runs it
    until its queue is empty; without other work it is pushed again after every
    message. *)
Section fairness.
(** A context of [q] messages; the trace of what the thread did with it. *)
Inductive done_with := Ran | Pushed | Released.
Definition run_one (_ : unit) : ST (nat * list done_with) Z :=
    fun '(q, tr) => match q with O => Ok (-1, (O, tr)) | S q => Ok (0, (q, tr ++ [Ran])) end.
Definition note (d : done_with) (_ : unit) : ST (nat * list done_with) unit := fun '(q, tr) => Ok (tt, (q, tr ++ [d])).
Definition busy (b : bool) : ST (nat * list done_with) bool := fun s => Ok (b, s).
Definition loop_of (b : bool) (fuel : nat) := dispatch_loop run_one (fun _ s => Ok (tt, s)) (note Released) (busy b) (note Pushed) fuel tt.

Lemma loop_busy q : forall fuel tr, (q < fuel)%nat -> loop_of true fuel (q, tr) = Ok (tt, (O, tr ++ replicate q Ran ++ [Released])).
Proof.
  induction q as [| q IH]; intros [| fuel] tr Hf; try lia; [done |]. unfold loop_of. cbn [dispatch_loop].
  unfold st_bind, mbind at 1. cbn. change (loop_of true fuel (q, tr ++ [Ran]) = Ok (tt, (0%nat, tr ++ Ran :: replicate q Ran ++ [Released]))).
  rewrite IH by lia. by rewrite <- app_assoc.
Qed.

Theorem handle_unfair q fuel : (S q < fuel)%nat ->
  loop_of true fuel (S q, []) = Ok (tt, (O, replicate (S q) Ran ++ [Released])) /\
  loop_of false fuel (S q, []) = Ok (tt, (q, [Ran; Pushed])).
Proof. intros Hf. split; [by apply loop_busy |]. destruct fuel; [lia | done]. Qed.
End fairness.
