(* ===== verification/EventMsgQueue.v ===== *)
(** * event_msgqueue.c: messages for an event-loop thread

    Producers push onto a lock-free queue and write one byte to a socket pair
    when they see a size of 1; the loop thread is woken by the byte and pops
    until the queue is empty.  The queue is any implementation of [Fifo]; a step
    is one shared access of the code. *)
From S2P Require Import Prelude Fifo LockFree.

Section EventMsgQueue.
  Context {Q X : Type} `{FifoLaws Q X}.

(** A thread in [emPush]: before the push, before the size test, before the send. *)
Inductive ppc := PIdle | PCheck | PSend.

(** The loop thread: waiting for the descriptor, in the pop loop, in the callback. *)
Inductive cpc := CIdle | CPop | CCall (x : X).

(** [struct em]; [bytes] counts what [recv] has not read. *)
Record em := Em {
  equeue : Q;
  bytes : Z;
  isExit : bool;
  producers : list ppc;
  consumer : cpc;
  sent : list X;
  handled : list X;
  exited : bool;
}.

Definition emCreate (q : Q) (n : nat) : em := Em q 0 false (replicate n PIdle) CIdle [] [] false.
Definition emLength (m : em) : Z := zlen (q_elems (equeue m)).

Definition set_producer (m : em) (t : nat) (p : ppc) : em :=
  Em (equeue m) (bytes m) (isExit m) (<[t := p]> (producers m)) (consumer m) (sent m) (handled m) (exited m).

Definition emExit (m : em) : em :=
  Em (equeue m) (bytes m) true (producers m) (consumer m) (sent m) (handled m) (exited m).

(** The three accesses of [emPush]. *)
Definition push_queue (m : em) (t : nat) (x : X) : outcome em :=
  '(ok, q) ← q_push x (equeue m);
  mret (set_producer (Em q (bytes m) (isExit m) (producers m) (consumer m)
    (if ok : bool then sent m ++ [x] else sent m) (handled m) (exited m)) t (if ok then PCheck else PIdle)).

Definition test_size (m : em) (t : nat) : em :=
  set_producer m t (if emLength m =? 1 then PSend else PIdle).

Definition send_byte (m : em) (t : nat) : em :=
  set_producer (Em (equeue m) (bytes m + 1) (isExit m) (producers m) (consumer m) (sent m) (handled m) (exited m)) t PIdle.

(** [popMsgqueue]: [recv] takes up to 64 bytes, then one access per step. *)
Definition recv (m : em) : em :=
  Em (equeue m) (bytes m - Z.min 64 (bytes m)) (isExit m) (producers m) CPop (sent m) (handled m) (exited m).

Definition pop_one (m : em) : outcome em :=
  '(o, q) ← q_pop (equeue m);
  mret (match o with
        | Some x => Em q (bytes m) (isExit m) (producers m) (CCall x) (sent m) (handled m) (exited m)
        | None => Em q (bytes m) (isExit m) (producers m) CIdle (sent m) (handled m) (exited m || isExit m)
        end).

Definition callback (m : em) (x : X) : em :=
  Em (equeue m) (bytes m) (isExit m) (producers m) CPop (sent m) (handled m ++ [x]) (exited m).

Inductive eaction := EPush (t : nat) (x : X) | EStep (t : nat) | ELoop | EExit.

Definition eexec (a : eaction) (m : em) : option (outcome em) :=
  match a with
  | EPush t x => match producers m !! t with Some PIdle => Some (push_queue m t x) | _ => None end
  | EStep t =>
    match producers m !! t with
    | Some PCheck => Some (Ok (test_size m t))
    | Some PSend => Some (Ok (send_byte m t))
    | _ => None
    end
  | ELoop =>
    match consumer m with
    | CIdle => if bytes m >? 0 then Some (Ok (recv m)) else None
    | CPop => Some (pop_one m)
    | CCall x => Some (Ok (callback m x))
    end
  | EExit => Some (Ok (emExit m))
  end.

Inductive enext : em -> em -> Prop :=
  | ENext a m m' : eexec a m = Some (Ok m') -> enext m m'.

Fixpoint erun (acts : list eaction) (m : em) : option (outcome em) :=
  match acts with
  | [] => Some (Ok m)
  | a :: acts => match eexec a m with Some (Ok m') => erun acts m' | r => r end
  end.

Lemma erun_sound acts m m' : erun acts m = Some (Ok m') -> rtc enext m m'.
Proof.
  revert m. induction acts as [| a acts IH]; intros m E; cbn [erun] in E; [injection E as <-; apply rtc_refl |].
  destruct (eexec a m) as [[m1 | f] |] eqn:Ea; [| done | done]. eapply rtc_l; [by econstructor | by apply IH].
Qed.

(** ** Order *)

Definition in_call (c : cpc) : list X := match c with CCall x => [x] | _ => [] end.

Record einv (m : em) : Prop := {
  ei_wf : q_wf (equeue m);
  ei_bytes : 0 <= bytes m;
  ei_order : sent m = handled m ++ in_call (consumer m) ++ q_elems (equeue m);
}.

Lemma einv_next m m' : einv m -> enext m m' -> einv m'.
Proof.
  intros I N. revert I. destruct N as [a m m' E]. intros [W B O].
  destruct a as [t x | t | |]; cbn [eexec] in E.
  - destruct (producers m !! t) as [[] |]; try done. injection E as E. unfold push_queue in E.
    destruct (q_push_spec (equeue m) x W) as (ok & q & Ep & W' & El). rewrite Ep, bind_Ok in E. injection E as <-.
    split; cbn; [done | done |]. rewrite El. destruct ok; [| done]. by rewrite O, <- !app_assoc.
  - destruct (producers m !! t) as [[] |]; try done; injection E as <-; (split; cbn; [done | lia | done]).
  - destruct (consumer m) as [| | x] eqn:Ec.
    + destruct (bytes m >? 0); [| done]. injection E as <-. split; cbn; [done | lia | done].
    + injection E as E. unfold pop_one in E. destruct (q_elems (equeue m)) as [| x rest] eqn:El.
      * rewrite (q_pop_nil _ W El), bind_Ok in E. injection E as <-. split; cbn; [done | done |]. by rewrite O, El.
      * destruct (q_pop_cons _ _ _ W El) as (q & Ep & W' & El'). rewrite Ep, bind_Ok in E. injection E as <-.
        split; cbn; [done | done |]. by rewrite O, El'.
    + injection E as <-. split; cbn; [done | done |]. by rewrite O, <- !app_assoc.
  - injection E as <-. by split.
Qed.

Lemma einv_create q n : q_wf q -> q_elems q = [] -> einv (emCreate q n).
Proof. intros W E. split; cbn; [done | lia | by rewrite E]. Qed.

Lemma einv_reachable m m' : einv m -> rtc enext m m' -> einv m'.
Proof. intros I R. induction R as [| m1 m2 m3 N _ IH]; [done |]. apply IH. by eapply einv_next. Qed.

(** Nothing moves by itself: every producer is out of [emPush] and the loop
    waits for a byte that is not there. *)
Definition asleep (m : em) : Prop :=
  Forall (fun p => p = PIdle) (producers m) /\ consumer m = CIdle /\ bytes m = 0.

(** ** One producer *)

Record sinv (m : em) : Prop := {
  si_one : exists p, producers m = [p];
  si_wake : consumer m = CIdle -> bytes m = 0 ->
    q_elems (equeue m) = [] \/ (exists x, q_elems (equeue m) = [x] /\ producers m <> [PIdle]);
}.

Lemma sinv_next m m' : einv m -> sinv m -> enext m m' -> sinv m'.
Proof.
  intros I S N. revert I S. destruct N as [a m m' E]. intros [W B O] [[p Ep] Hw].
  destruct a as [t x | t | |]; cbn [eexec] in E.
  - destruct (producers m !! t) as [[] |] eqn:Et; try done. injection E as E. unfold push_queue in E.
    rewrite Ep in Et. destruct t as [| t]; [| done]. injection Et as ->.
    destruct (q_push_spec (equeue m) x W) as (ok & q & Eq & W' & El). rewrite Eq, bind_Ok in E. injection E as <-.
    split; cbn; rewrite Ep; cbn; [by eexists |]. intros Hc Hb. rewrite El.
    destruct (Hw Hc Hb) as [-> | (y & _ & Hne)]; [| by rewrite Ep in Hne].
    destruct ok; [right; by exists x | by left].
  - destruct (producers m !! t) as [pt |] eqn:Et; [| done]. rewrite Ep in Et.
    destruct t as [| t]; [| done]. injection Et as ->. destruct pt; try done; injection E as <-.
    + unfold test_size, emLength. split; cbn; rewrite Ep; cbn; [by eexists |]. intros Hc Hb.
      destruct (Hw Hc Hb) as [El | (x & El & _)]; rewrite El; [by left |]. right. by exists x.
    + split; cbn; rewrite Ep; cbn; [by eexists |]. lia.
  - destruct (consumer m) as [| | x] eqn:Ec.
    + destruct (bytes m >? 0); [| done]. injection E as <-. split; cbn; [by exists p | done].
    + injection E as E. unfold pop_one in E. destruct (q_elems (equeue m)) as [| x rest] eqn:El.
      * rewrite (q_pop_nil _ W El), bind_Ok in E. injection E as <-. split; cbn; [by exists p |]. intros _ _. by left.
      * destruct (q_pop_cons _ _ _ W El) as (q & Eq & W' & El'). rewrite Eq, bind_Ok in E. injection E as <-.
        split; cbn; [by exists p | done].
    + injection E as <-. split; cbn; [by exists p | done].
  - injection E as <-. split; cbn; [by exists p | done].
Qed.

(** With one producer, nothing is forgotten. *)
Lemma sinv_asleep m : einv m -> sinv m -> asleep m -> handled m = sent m.
Proof.
  intros I S (Hp & Hc & Hb). pose proof (ei_order _ I) as O. rewrite Hc in O. cbn in O.
  destruct (si_wake _ S Hc Hb) as [El | (x & El & Hne)]; [by rewrite O, El, app_nil_r |].
  destruct (si_one _ S) as [p Ep]. rewrite Ep in Hp, Hne. by apply Forall_cons in Hp as [-> _].
Qed.

Lemma sinv_reachable m m' : einv m -> sinv m -> rtc enext m m' -> sinv m'.
Proof.
  intros I S R. induction R as [| m1 m2 m3 N _ IH]; [done |]. apply IH; [by eapply einv_next | by eapply sinv_next].
Qed.

(** C20: messages are handled in the order they were accepted, each once, by any
    number of producers; and with a single producer thread none is forgotten:
    when producer and loop are at rest, every accepted message was handled. *)
Theorem em_delivers q n m :
  q_wf q -> q_elems q = [] -> rtc enext (emCreate q n) m ->
  sent m = handled m ++ in_call (consumer m) ++ q_elems (equeue m) /\
  (n = 1%nat -> asleep m -> handled m = sent m).
Proof.
  intros W E R. pose proof (einv_reachable _ _ (einv_create q n W E) R) as I. split; [apply I |].
  intros -> Ha. apply sinv_asleep; [done | | done]. eapply sinv_reachable; [by apply einv_create | | exact R].
  split; cbn; [by exists PIdle | intros _ _; by left].
Qed.

(** ** Two producers *)

(** No byte is on its way and a push cannot see a size of 1. *)
Record stuck (m : em) : Prop := {
  st_two : 2 <= emLength m;
  st_bytes : bytes m = 0;
  st_idle : consumer m = CIdle;
  st_nosend : Forall (fun p => p <> PSend) (producers m);
}.

Lemma stuck_next m m' : einv m -> stuck m -> enext m m' -> stuck m' /\ handled m' = handled m.
Proof.
  intros I S N. revert I S. destruct N as [a m m' E]. intros [W B O] [H2 Hb Hc Hs].
  destruct a as [t x | t | |]; cbn [eexec] in E.
  - destruct (producers m !! t) as [[] |] eqn:Et; try done. injection E as E. unfold push_queue in E.
    destruct (q_push_spec (equeue m) x W) as (ok & q & Eq & W' & El). rewrite Eq, bind_Ok in E. injection E as <-.
    split; [| done]. split; cbn; [| done | done | by apply Forall_insert; [| destruct ok]].
    unfold emLength in *. cbn. rewrite El. destruct ok; [rewrite zlen_app; pose proof (zlen_nonneg [x]); lia | done].
  - destruct (producers m !! t) as [pt |] eqn:Et; [| done].
    pose proof (Forall_lookup_1 _ _ _ _ Hs Et) as Hpt. destruct pt; try done. injection E as <-.
    split; [| done]. unfold test_size. destruct (Z.eqb_spec (emLength m) 1); [lia |].
    split; cbn; [done | done | done | by apply Forall_insert].
  - rewrite Hc, Hb in E. done.
  - injection E as <-. split; [| done]. by split.
Qed.
End EventMsgQueue.
Arguments em : clear implicits.
Arguments eaction : clear implicits.

(** Two producers on an empty queue. *)
Definition em0 : em (lfq Z) Z := emCreate (lfCreate 0 8) 2.

Lemma em0_inv : einv em0.
Proof. apply einv_create; by apply lfCreate_wf. Qed.

Definition both_push : list (eaction Z) := [EPush 0 11; EPush 1 22; EStep 0; EStep 1].

Lemma em_delivers_witness :
  exists m, rtc enext (emCreate (lfCreate 0 8) 1) m /\ sent m = [11] /\ handled m = [11].
Proof.
  destruct (erun [EPush 0 11; EStep 0; EStep 0; ELoop; ELoop; ELoop; ELoop] (emCreate (lfCreate 0 8) 1))
    as [[m | f] |] eqn:E; [| by vm_compute in E | by vm_compute in E].
  assert (Hs : sent m = [11] /\ asleep m).
  { vm_compute in E. injection E as <-. split; [done |]. split; [by repeat constructor | done]. }
  exists m. pose proof (erun_sound _ _ _ E) as R. split; [exact R |]. split; [apply Hs |].
  destruct (em_delivers (lfCreate 0 8) 1 m) as [_ Hd];
    [apply lfCreate_wf; lia | apply lfCreate_wf; lia | exact R |].
  rewrite (Hd eq_refl); apply Hs.
Defined.

(** Two producers can silence the loop thread for good.  Two pushes onto an
    empty queue, both before either size test, see a size of 2 and send no byte;
    from then on no push sees a size of 1, so however many messages are pushed,
    the loop thread handles none of them. *)
Theorem em_silenced :
  exists m, rtc enext em0 m /\ asleep m /\ sent m = [11; 22] /\ handled m = [] /\
    forall m', rtc enext m m' -> handled m' = [] /\ consumer m' = CIdle /\ bytes m' = 0.
Proof.
  destruct (erun both_push em0) as [[m | f] |] eqn:E; [| by vm_compute in E | by vm_compute in E].
  exists m. pose proof (erun_sound _ _ _ E) as R. pose proof (einv_reachable _ _ em0_inv R) as I.
  assert (S : asleep m /\ sent m = [11; 22] /\ handled m = [] /\ stuck m).
  { vm_compute in E. injection E as <-. split; [| split; [done | split; [done |]]].
    - split; [by repeat constructor | done].
    - split; [vm_compute; congruence | done | done | by repeat constructor]. }
  destruct S as (Sa & Ss & Sh & St). split; [exact R |]. split; [exact Sa |]. split; [exact Ss |]. split; [exact Sh |].
  intros m' R'. clear E R Sa Ss. induction R' as [m | m1 m2 m3 N _ IH].
  - split; [done |]. split; apply St.
  - destruct (stuck_next _ _ I St N) as [St' Eh]. apply IH; [by eapply einv_next | by rewrite Eh | done].
Qed.
