(* ===== verification/TcpLoop.v ===== *)
(** * tcp.c at work: services, the message queue and the event-loop thread

    The parts of the TCP layer put together as one transition system.  Worker
    threads call the functions of tcp.c, which reserve identifiers and push a
    request ([EventMsgQueue]); the event-loop thread pops requests and runs
    [handleEvent] ([Tcp]), and between them calls the handlers of socket.c
    ([Socket]) for the descriptors the event loop has registered.  A step is one
    shared access of the message queue, one request or one handler; a step that
    would fault ends the process and is not one of [tnext].  What is proved of it is
    about one connection, whatever happens to all others: the computations of
    socket.c and tcp.c are shown [calm] (the connection does not notice them) or,
    for its own slot, to keep [live] with the bytes they add. *)
From S2P Require Import Prelude Wp Fifo LockFree Bits Define Buffer Proto Ae AeEpoll Socket Tcp NetProps EventMsgQueue.

Create HintDb calm.
Create HintDb mono.

(** What the system answers a handler. *)
Record event_answer := EventAnswer {
  ev_accept : accept_result;
  ev_read : read_result;
  ev_sends : nat -> send_result;
  ev_err : option Z;
}.

(** A call of a service. *)
Inductive tcall :=
  | CListen (ctx protoType : Z) (addr : list Z) (port : Z)
  | CStart (ctx id : Z)
  | CConnect (ctx protoType : Z) (addr : list Z) (port : Z)
  | CAsyncConnect (ctx protoType : Z) (addr : list Z) (port : Z)
  | CClose (ctx id : Z)
  | CSend (ctx : Z) (ids : list Z) (data : option (list Z)) (sz : Z)
  | CStop.

Section TcpLoop.
  Context {K Q : Type} `{AeApi K} `{FifoLaws Q tcpRequest}.
  Variables (undef : Z) (errtext : tcp_error -> list Z).

Record tsys := TSys {
  t_em : em Q tcpRequest;
  t_net : net K;
}.

Definition run_call (c : tcall) (accepted : bool) : ST (net K) (Z * option tcpRequest) :=
  match c with
  | CListen ctx p addr port => tcpSocketListen accepted ctx p addr port
  | CStart ctx id => tcpSocketStart accepted ctx id
  | CConnect ctx p addr port => tcpSocketConnect accepted ctx p addr port
  | CAsyncConnect ctx p addr port => tcpSocketAsyncConnect accepted ctx p addr port
  | CClose ctx id => tcpSocketClose accepted ctx id
  | CSend ctx ids data sz => tcpSocketSend accepted ctx ids data sz
  | CStop => tcpStop accepted
  end.

Definition pushed (m : em Q tcpRequest) (t : nat) : bool :=
  match producers m !! t with Some PCheck => true | _ => false end.

(** The call up to its push, which decides how it goes on. *)
Definition post (t : nat) (c : tcall) (T : tsys) : outcome tsys :=
  r ← run_call c true (t_net T);
  req ← deref r.1.2;
  m ← push_queue (t_em T) t req;
  if pushed m t then mret (TSys m r.2)
  else r ← run_call c false (t_net T); mret (TSys m r.2).

(** The functions socket.c registers, called by the event loop. *)
Definition call_proc (p : proc) (fd : Z) (i : nat) (a : event_answer) : ST (net K) unit :=
  match p with
  | PAccept => onAccept undef errtext i (ev_accept a)
  | PRead => onRead undef errtext i (ev_read a)
  | PWrite => onWrite undef errtext i (ev_sends a)
  | PConnecting => onConnecting undef errtext i fd (ev_err a)
  | PMsgqueue => mret tt
  end.

(** A descriptor is ready: what is registered for it is called ([process_one] of
    [Ae] is one or two of these). *)
Definition fire (fd : Z) (w : bool) (a : event_answer) : ST (net K) unit :=
  n ← st_get;
  fe ← st_lift (aget (events (loop n)) fd);
  if has (fmask fe) (if w then AE_WRITABLE else AE_READABLE) then
    p ← st_lift (deref (if w then wfileProc fe else rfileProc fe));
    match p, clientData fe with
    | PMsgqueue, _ => mret tt
    | _, Some i => call_proc p fd i a
    | _, None => st_fault NullDeref
    end
  else mret tt.

Inductive taction :=
  | TCall (t : nat) (c : tcall)
  | TAccess (t : nat)
  | TLoop (a : answers)
  | TFire (fd : Z) (w : bool) (a : event_answer).

Definition on_em (r : option (outcome (em Q tcpRequest))) (T : tsys) : option (outcome tsys) :=
  match r with
  | Some (Ok m) => Some (Ok (TSys m (t_net T)))
  | Some (Fault f) => Some (Fault f)
  | None => None
  end.

Definition texec (a : taction) (T : tsys) : option (outcome tsys) :=
  match a with
  | TCall t c => match producers (t_em T) !! t with Some PIdle => Some (post t c T) | _ => None end
  | TAccess t => on_em (eexec (EStep t) (t_em T)) T
  | TLoop a =>
    match consumer (t_em T) with
    | CCall x => Some (r ← handleEvent undef errtext x a (t_net T); mret (TSys (callback (t_em T) x) r.2))
    | _ => on_em (eexec ELoop (t_em T)) T
    end
  | TFire fd w a =>
    match consumer (t_em T) with
    | CIdle => Some (r ← fire fd w a (t_net T); mret (TSys (t_em T) r.2))
    | _ => None
    end
  end.

(** The descriptors of sockets in use are open, so the kernel does not hand them
    out again; and nobody sends four gigabytes at once. *)
Definition fresh_fd (n : net K) (fd : Z) : Prop :=
  forall j s, sockets n !! j = Some s -> s_state s <> kSocketDisconnected -> s_fd s <> fd.

Definition regular (a : taction) (T : tsys) : Prop :=
  match a with
  | TCall _ (CSend _ _ _ sz) => sz < 4294967296
  | TCall _ _ | TAccess _ => True
  | TLoop a => an_fd a = -1 \/ fresh_fd (t_net T) (an_fd a)
  | TFire _ _ a => match ev_accept a with Accepted cfd _ => fresh_fd (t_net T) cfd | AcceptError => True end
  end.

Inductive tnext : tsys -> tsys -> Prop :=
  | TNext a T T' : regular a T -> texec a T = Some (Ok T') -> tnext T T'.

Fixpoint trun (acts : list taction) (T : tsys) : option (outcome tsys) :=
  match acts with
  | [] => Some (Ok T)
  | a :: acts => match texec a T with Some (Ok T') => trun acts T' | r => r end
  end.

(** ** The bytes a request sends to a connection *)

Definition sent_bytes (id : Z) (r : tcpRequest) : list Z :=
  match req_body r with
  | kTcpSocketSend (Some data) sz =>
    concat ((fun x => if x =? id then take (Z.to_nat sz) data else []) <$> req_ids r)
  | _ => []
  end.

(** The slot a request sets up anew, by the identifier reserved for it. *)
Definition reserved_by (r : tcpRequest) : list Z :=
  match req_body r with
  | kTcpSocketListen _ _ _ _ | kTcpSocketConnect _ _ _ | kTcpSocketAsyncConnect _ _ _ => take 1 (req_ids r)
  | _ => []
  end.

Definition slot (n : net K) (id : Z) : nat := Z.to_nat (Z.land id (Socket.setsize n - 1)).

(** ** One connection among all others *)
Section connection.
  (** its slot, identifier and descriptor; what was closed before *)
  Variables (i : nat) (id fd : Z) (closed0 : list Z).
  Hypothesis fd_pos : 0 <= fd.
  Implicit Types n : net K.

(** What the event loop has registered: the connection's own handlers for its
    descriptor, and never the connection for another. *)
Definition entry_ok n (f : nat) (fe : aeFileEvent proc nat) : Prop :=
  fmask fe <> 0 ->
  (Z.of_nat f = fd -> clientData fe = Some i /\
    (has (fmask fe) AE_READABLE = true -> rfileProc fe = Some PRead) /\
    (has (fmask fe) AE_WRITABLE = true -> wfileProc fe = Some PWrite)) /\
  (Z.of_nat f <> fd -> forall j, clientData fe = Some j ->
    j <> i /\ forall s, sockets n !! j = Some s -> s_fd s <> fd).

(** The connection is up: [W] is what has been handed to the kernel and what waits
    in the send buffer; no other slot that is in use, or will be, has its
    descriptor. *)
Record live (pend W : list Z) n : Prop := {
  lv_sock : exists s, sockets n !! i = Some s /\ s_id s = id /\ s_fd s = fd /\ s_state s = kSocketConnected /\
    s_type s <> kSocketNoneType /\ sbuf_ok (s_sendBuffer s) /\
    wire_of fd (wire n) ++ unread (s_sendBuffer s) = W;
  lv_slot : slot n id = i;
  lv_pend : forall x, x ∈ pend -> x <> id /\ forall s, sockets n !! slot n x = Some s -> s_id s = x -> s_fd s <> fd;
  lv_others : forall j s, j <> i -> sockets n !! j = Some s -> s_fd s = fd -> s_state s = kSocketDisconnected;
  lv_events : forall f fe, events (loop n) !! f = Some fe -> entry_ok n f fe;
  lv_closed : closed0 `prefix_of` closed n;
}.

(** Its descriptor has been closed since. *)
Definition gone n : Prop := exists l, closed n = closed0 ++ l /\ fd ∈ l.

Definition anyf : fault -> Prop := fun _ => True.

(** [closed] only grows. *)
Definition mono {A} (m : ST (net K) A) : Prop := forall n, wp anyf (fun _ n' => closed n `prefix_of` closed n') m n.

Definition held (pend W : list Z) n : Prop := live pend W n \/ gone n.

(** A computation the connection does not notice. *)
Record calm {A} (m : ST (net K) A) : Prop := {
  cm_mono : mono m;
  cm_live pend W n : live pend W n -> wp anyf (fun _ n' => held pend W n') m n;
}.

Lemma gone_prefix n n' : gone n -> closed n `prefix_of` closed n' -> gone n'.
Proof.
  intros (l & E & Hin) [k Ek]. exists (l ++ k). rewrite Ek, E, <- app_assoc. split; [done |]. apply elem_of_app. by left.
Qed.

Lemma mono_gone {A} (m : ST (net K) A) n : mono m -> gone n -> wp anyf (fun _ n' => gone n') m n.
Proof. intros M G. eapply wp_mono; [apply M |]. intros a n' P. by eapply gone_prefix. Qed.

Lemma mono_bind {A B} (m : ST (net K) A) (k : A -> ST (net K) B) : mono m -> (forall a, mono (k a)) -> mono (m ≫= k).
Proof.
  intros M Mk n. apply wp_bind. eapply wp_mono; [apply M |]. intros a n1 P1. cbn.
  eapply wp_mono; [apply Mk |]. intros b n2 P2. etrans; [exact P1 | exact P2].
Qed.

Lemma mono_same {A} (m : ST (net K) A) : (forall n a n', m n = Ok (a, n') -> closed n' = closed n) -> mono m.
Proof. intros Hs n. unfold wp. destruct (m n) as [[a n'] | f] eqn:E; [by rewrite (Hs _ _ _ E) | done]. Qed.

Lemma mono_modify f : (forall n, closed n `prefix_of` closed (f n)) -> mono (st_modify f).
Proof. intros Hf n. apply Hf. Qed.

(** The connection after a computation, and then another. *)
Lemma after {A B} (m : ST (net K) A) (k : A -> ST (net K) B) pend pend' W W' n :
  wp anyf (fun _ n' => held pend W n') m n -> (forall a, mono (k a)) ->
  (forall a n', live pend W n' -> wp anyf (fun _ n'' => held pend' W' n'') (k a) n') ->
  wp anyf (fun _ n' => held pend' W' n') (m ≫= k) n.
Proof.
  intros Hm Mk Hk. apply wp_bind. eapply wp_mono; [exact Hm |]. intros a n' [L | G]; [by apply Hk |].
  eapply wp_mono; [by apply mono_gone; [apply Mk |] |]. intros b n'' G'. by right.
Qed.

Lemma calm_bind {A B} (m : ST (net K) A) (k : A -> ST (net K) B) : calm m -> (forall a, calm (k a)) -> calm (m ≫= k).
Proof.
  intros [M Hm] Ck. split; [apply mono_bind; [done | apply Ck] |]. intros pend W n L.
  eapply after; [by apply Hm | apply Ck |]. intros a n' L'. by apply Ck.
Qed.

(** A statement that leaves the state alone. *)
Lemma calm_same {A} (m : ST (net K) A) : (forall n a n', m n = Ok (a, n') -> n' = n) -> calm m.
Proof.
  intros Hs. split; [apply mono_same; intros n a n' E; by rewrite (Hs _ _ _ E) |]. intros pend W n L. unfold wp.
  destruct (m n) as [[a n'] | f] eqn:E; [| done]. rewrite (Hs _ _ _ E). by left.
Qed.

Lemma calm_ret {A} (a : A) : calm (mret a).
Proof. apply calm_same. by intros n b n' [= _ <-]. Qed.

Lemma calm_fault {A} f : calm (st_fault f : ST (net K) A).
Proof. by apply calm_same. Qed.

Lemma calm_lift {A} (o : outcome A) : calm (st_lift o).
Proof. apply calm_same. intros n b n' E. unfold st_lift in E. destruct o; [by injection E as _ <- | done]. Qed.

Lemma calm_get : calm st_get.
Proof. apply calm_same. by intros n b n' [= _ <-]. Qed.

Lemma calm_sock j : calm (sock j).
Proof. apply calm_same. intros n b n' E. unfold sock in E. destruct (sockets n !! j); [by injection E as _ <- | done]. Qed.

Lemma calm_getIndex x : calm (getIndex x).
Proof. apply calm_same. intros n b n' E. by injection E as _ <-. Qed.

(** ** What the single statements do *)

Lemma live_same pend W n n' : live pend W n -> sockets n' = sockets n -> Socket.setsize n' = Socket.setsize n ->
  events (loop n') = events (loop n) -> wire n' = wire n -> closed n' = closed n -> live pend W n'.
Proof.
  intros [S Sl P O E C] Es Ez Ee Ew Ec. split.
  - by rewrite Es, Ew.
  - unfold slot in *. by rewrite Ez.
  - intros x Hx. destruct (P x Hx) as [Hne Hs]. split; [done |]. unfold slot in *. by rewrite Es, Ez.
  - by rewrite Es.
  - intros f fe Hf. rewrite Ee in Hf. unfold entry_ok. rewrite Es. by apply E.
  - by rewrite Ec.
Qed.

Lemma calm_modify f : (forall n, sockets (f n) = sockets n /\ Socket.setsize (f n) = Socket.setsize n /\
    loop (f n) = loop n /\ wire (f n) = wire n /\ closed (f n) = closed n) -> calm (st_modify f).
Proof.
  intros Hf. split; [apply mono_modify; intros n; by destruct (Hf n) as (_ & _ & _ & _ & ->) |].
  intros pend W n L. left. destruct (Hf n) as (E1 & E2 & E3 & E4 & E5). eapply live_same; [exact L | done | done | by rewrite E3 | done | done].
Qed.

Lemma calm_send_msg e : calm (send_msg e).
Proof. by apply calm_modify. Qed.

Lemma calm_allocId v : calm (st_modify (fun n => with_allocId n v)).
Proof. by apply calm_modify. Qed.

Lemma calm_assert (b : bool) : calm (st_assert b).
Proof. apply calm_lift. Qed.

(** Closing a descriptor: ours or another. *)
Lemma calm_close g : calm (close_fd g).
Proof.
  split; [apply mono_modify; intros n; by apply prefix_app_r |]. intros pend W n [S Sl P O E C]. unfold wp, close_fd, st_modify.
  destruct (decide (g = fd)) as [-> | Hne].
  - right. destruct C as [l El]. exists (l ++ [fd]). cbn. rewrite El, <- app_assoc. split; [done |]. apply elem_of_app. right. by left.
  - left. split; try done. cbn. by apply prefix_app_r.
Qed.

Lemma closed_ours pend W n : live pend W n -> wp anyf (fun _ => gone) (close_fd fd) n.
Proof.
  intros [_ _ _ _ _ [l El]]. exists (l ++ [fd]). cbn. rewrite El, <- app_assoc. split; [done |]. apply elem_of_app. right. by left.
Qed.

Lemma mono_upd j f : mono (upd j f).
Proof. by apply mono_modify. Qed.

Lemma alter_lookup_ne {A} (f : A -> A) j k (l : list A) : j <> k -> alter f j l !! k = l !! k.
Proof. apply list_lookup_alter_ne. Qed.

(** Another slot changes: its descriptor is not ours, or stays and the slot does
    not come into use. *)
Lemma live_other pend W n j f : live pend W n -> j <> i ->
  (forall s, sockets n !! j = Some s -> s_fd (f s) <> fd \/ (s_fd (f s) = s_fd s /\ s_id (f s) = s_id s /\
    (s_state (f s) = kSocketDisconnected \/ s_state (f s) = s_state s))) ->
  live pend W (with_sockets n (alter f j (sockets n))).
Proof.
  intros [S Sl P O E C] Hj Hf.
  assert (Hs : forall k s', alter f j (sockets n) !! k = Some s' -> exists s, sockets n !! k = Some s /\ s' = if decide (k = j) then f s else s).
  { intros k s' Ek. destruct (decide (k = j)) as [-> | Hne].
    - rewrite list_lookup_alter_eq in Ek. apply fmap_Some in Ek as (s & Es & ->). by exists s.
    - rewrite list_lookup_alter_ne in Ek by done. by exists s'. }
  split; cbn [sockets with_sockets wire loop closed].
  - by rewrite list_lookup_alter_ne.
  - done.
  - intros x Hx. destruct (P x Hx) as [Hne Hp]. split; [done |]. intros s' (s & Es & ->)%Hs.
    change (slot (with_sockets n _) x) with (slot n x) in *. destruct (decide (slot n x = j)) as [Ej |]; [| by apply Hp].
    rewrite Ej in Es. intros Ei. destruct (Hf s Es) as [? | (Ef & Eid & _)]; [done |]. rewrite Ef. rewrite Eid in Ei.
    apply Hp; [by rewrite Ej | done].
  - intros k s' Hk (s & Es & ->)%Hs. destruct (decide (k = j)) as [-> |]; [| by apply (O k)].
    intros Ef'. destruct (Hf s Es) as [? | (Ef & Eid & [-> | ->])]; [done | done |]. apply (O j); congruence.
  - intros g fe Eg Hm. destruct (E g fe Eg Hm) as [E1 E2]. split; [done |]. intros Hg k Ek. destruct (E2 Hg k Ek) as [Hk Hk'].
    split; [done |]. intros s' (s & Es & ->)%Hs. destruct (decide (k = j)) as [-> |]; [| by apply Hk'].
    destruct (Hf s Es) as [? | (-> & _)]; [done | by apply Hk'].
  - done.
Qed.

(** Its own slot, where only buffers, and what may not matter, change. *)
Lemma live_own pend W W' n f s : live pend W n -> sockets n !! i = Some s ->
  s_id (f s) = s_id s -> s_fd (f s) = s_fd s -> s_state (f s) = s_state s -> s_type (f s) = s_type s ->
  sbuf_ok (s_sendBuffer (f s)) -> wire_of fd (wire n) ++ unread (s_sendBuffer (f s)) = W' ->
  live pend W' (with_sockets n (alter f i (sockets n))).
Proof.
  intros [(s0 & Es & Hid & Hfd & Hst & Hty & Hsb & HW) Sl P O E C] Es' E1 E2 E3 E4 Sb EW. rewrite Es in Es'. injection Es' as <-.
  split; cbn [sockets with_sockets wire loop closed].
  - exists (f s0). rewrite list_lookup_alter_eq, Es. cbn. split; [done |]. by repeat (split; [congruence |]).
  - done.
  - intros x Hx. destruct (P x Hx) as [Hne Hp]. split; [done |]. change (slot (with_sockets n _) x) with (slot n x).
    destruct (decide (slot n x = i)) as [Ei |].
    + rewrite Ei, list_lookup_alter_eq, Es. cbn. intros s [= <-] Ex. congruence.
    + by rewrite list_lookup_alter_ne by congruence.
  - intros k s Hk. rewrite list_lookup_alter_ne by congruence. by apply O.
  - intros g fe Eg Hm. destruct (E g fe Eg Hm) as [Ea Eb]. split; [done |]. intros Hg k Ek. destruct (Eb Hg k Ek) as [Hk Hk'].
    split; [done |]. cbn. by rewrite list_lookup_alter_ne by congruence.
  - done.
Qed.

Lemma calm_upd j f : (forall s, s_id (f s) = s_id s /\ s_fd (f s) = s_fd s /\ s_state (f s) = s_state s /\
    s_type (f s) = s_type s /\ s_sendBuffer (f s) = s_sendBuffer s) -> calm (upd j f).
Proof.
  intros Hf. split; [apply mono_upd |]. intros pend W n L. left. destruct (decide (j = i)) as [-> | Hj].
  - destruct (lv_sock _ _ _ L) as (s & Es & _ & _ & _ & _ & Sb & EW). destruct (Hf s) as (E1 & E2 & E3 & E4 & E5).
    eapply live_own; [done | exact Es | done | done | done | done | by rewrite E5 | by rewrite E5].
  - apply live_other; [done | done |]. intros s _. destruct (Hf s) as (E1 & E2 & E3 & _). right. by rewrite E1, E2, E3; auto.
Qed.

Lemma wire_other g bs w : g <> fd -> wire_of fd (w ++ [(g, bs)]) = wire_of fd w.
Proof. intros Hg. rewrite wire_of_app. unfold wire_of at 2. cbn. by destruct (Z.eqb_spec g fd); [| rewrite app_nil_r]. Qed.

Lemma live_wire pend W W' n sent s : live pend W n -> sockets n !! i = Some s ->
  wire_of fd (wire n ++ sent) ++ unread (s_sendBuffer s) = W' -> live pend W' (with_wire n (wire n ++ sent)).
Proof.
  intros [(s0 & Es & Hid & Hfd & Hst & Hty & Hsb & HW) Sl P O E C] Es' EW. rewrite Es in Es'. injection Es' as <-.
  split; try done. exists s0. by repeat (split; [done |]).
Qed.

Lemma calm_to_wire g bs : g <> fd -> calm (to_wire g bs).
Proof.
  intros Hg. split; [by apply mono_modify |]. intros pend W n L. left.
  destruct (lv_sock _ _ _ L) as (s & Es & _ & _ & _ & _ & _ & EW). eapply live_wire; [done | exact Es |]. by rewrite wire_other.
Qed.
(** ** The event loop *)

Lemma delete_entry {P D} (el el' : aeEventLoop P D K) g mask : aeDeleteFileEvent el g mask = Ok el' ->
  events el' = events el \/
  exists fe, events el !! Z.to_nat g = Some fe /\
    events el' = <[Z.to_nat g := FileEvent (Z.land (fmask fe) (Z.lnot mask)) (rfileProc fe) (wfileProc fe) (clientData fe)]> (events el).
Proof.
  unfold aeDeleteFileEvent. destruct (g >=? Ae.setsize el); [intros [= <-]; by left |]. intros (fe & Eg & E)%bind_Ok_inv.
  apply aget_Ok_inv in Eg as [Hr Hfe]. destruct (fmask fe =? AE_NONE); [injection E as <-; by left |].
  apply bind_Ok_inv in E as (evs & Es & E). rewrite aset_Ok in Es by done. injection Es as <-.
  apply bind_Ok_inv in E as (el1 & E1 & E). apply bind_Ok_inv in E as (cur & _ & E). apply bind_Ok_inv in E as (k & _ & [= <-]).
  right. exists fe. split; [done |]. destruct (_ && _); [apply bind_Ok_inv in E1 as (j & _ & [= <-]) | injection E1 as <-]; done.
Qed.

Lemma has_less m x b : has (Z.land m x) b = true -> has m b = true.
Proof.
  unfold has. rewrite !negb_true_iff, !Z.eqb_neq. intros Hn E. apply Hn.
  by rewrite <- Z.land_assoc, (Z.land_comm x), Z.land_assoc, E.
Qed.

Lemma live_events pend W n el :
  live pend W n -> (forall f fe, events el !! f = Some fe -> events (loop n) !! f = Some fe \/ entry_ok n f fe) ->
  live pend W (with_loop n el).
Proof.
  intros [S Sl P O E C] He. split; try done. intros f fe Ef. destruct (He f fe Ef) as [Ef' | Hok]; [by apply E | done].
Qed.

Lemma mono_ae_create g mask p j : mono (ae_create g mask p j).
Proof. apply mono_same. intros n a n' E. unfold ae_create in E. by apply bind_Ok_inv in E as (r & _ & [= _ <-]). Qed.

Lemma calm_ae_delete g mask : calm (ae_delete g mask).
Proof.
  split.
  - apply mono_same. intros n a n' E. unfold ae_delete in E. by apply bind_Ok_inv in E as (r & _ & [= _ <-]).
  - intros pend W n L. unfold wp, ae_delete. destruct (aeDeleteFileEvent (loop n) g mask) as [el | f] eqn:E; [| done].
    left. apply live_events; [done |]. intros f fe Ef.
    destruct (delete_entry _ _ _ _ E) as [Ee | (fe0 & E0 & Ee)]; [left; by rewrite <- Ee |]. rewrite Ee in Ef.
    apply list_lookup_insert_Some in Ef as [(<- & <- & _) | [_ Ef]]; [right | by left].
    intros Hm. cbn [fmask rfileProc wfileProc clientData] in *.
    destruct (lv_events _ _ _ L _ _ E0) as [E1 E2]; [intros Hz; by rewrite Hz in Hm |]. split; [| exact E2].
    intros Hg. destruct (E1 Hg) as (Ea & Eb & Ec). split; [done |]. split; intros Hh%has_less; auto.
Qed.

(** Registering: our own handlers for our descriptor, or another slot for another. *)
Lemma live_ae_create pend W n g mask p j : live pend W n ->
  (g = fd /\ j = i /\ (mask = AE_READABLE /\ p = PRead \/ mask = AE_WRITABLE /\ p = PWrite) \/
   g <> fd /\ j <> i /\ forall s, sockets n !! j = Some s -> s_fd s <> fd) ->
  wp anyf (fun _ n' => live pend W n' /\ sockets n' = sockets n) (ae_create g mask p j) n.
Proof.
  intros L Hg. unfold wp, ae_create. destruct (aeCreateFileEvent (loop n) g mask p (Some j)) as [[r el] | f] eqn:E; [| done].
  split; [| done]. apply live_events; [done |]. cbn [snd]. intros f fe Ef.
  assert (Hpos : events el = events (loop n) \/ 0 <= g).
  { destruct (Z.leb_spec 0 g); [by right | left]. unfold aeCreateFileEvent in E.
    destruct (g >=? Ae.setsize (loop n)); [by injection E as _ <- |]. apply bind_Ok_inv in E as (x & E & _).
    unfold aeApiAddEvent, event_mask in E. apply bind_Ok_inv in E as (c & Ec & _). unfold event_mask in Ec. destruct (aget (events (loop n)) g) eqn:Eg; [| done].
    apply aget_Ok_inv in Eg as [Hr _]. lia. }
  destruct Hpos as [Ee | Hpos]; [left; by rewrite <- Ee |].
  destruct (aeCreateFileEvent_entry _ _ _ _ _ _ _ Hpos E) as [Ee | (fe0 & E0 & Ee)]; [left; by rewrite <- Ee |].
  rewrite Ee in Ef. apply list_lookup_insert_Some in Ef as [(<- & <- & _) | [_ Ef]]; [right | by left].
  intros _. cbn [fmask rfileProc wfileProc clientData]. rewrite Z2Nat.id by done. rewrite !has_lor.
  destruct Hg as [(-> & -> & Hp) | (Hg & Hj & Hs)]; (split; [| intros Hne]); try done.
  2: { intros k [= <-]. done. }
  intros _. split; [done |].
  assert (Hold : forall b, has (fmask fe0) b = true -> fmask fe0 <> 0) by (intros b Hb Hz; by rewrite Hz in Hb).
  pose proof (lv_events _ _ _ L _ _ E0) as H0'. unfold entry_ok in H0'. rewrite Z2Nat.id in H0' by done.
  destruct Hp as [[-> ->] | [-> ->]]; cbn; rewrite ?orb_true_r, ?orb_false_r; (split; [intros Hh | intros Hh]); try done.
  - by apply (H0' (Hold _ Hh)).
  - by apply (H0' (Hold _ Hh)).
Qed.

(** ** The functions of socket.c and tcp.c on other slots *)

Lemma wp_sock j (R : socket -> net K -> Prop) n : (forall s, sockets n !! j = Some s -> R s n) -> wp anyf R (sock j) n.
Proof. intros HR. unfold wp, sock. destruct (sockets n !! j); [by apply HR | done]. Qed.

Lemma wp_getIndex x (R : nat -> net K -> Prop) n : R (slot n x) n -> wp anyf R (getIndex x) n.
Proof. done. Qed.

Lemma wp_upd j f (R : unit -> net K -> Prop) n : R tt (with_sockets n (alter f j (sockets n))) -> wp anyf R (upd j f) n.
Proof. done. Qed.

Lemma wp_check (b : bool) (R : unit -> net K -> Prop) n : (b = true -> R tt n) -> wp anyf R (st_assert b) n.
Proof. intros HR. destruct b; [by apply wp_assert, HR | done]. Qed.

Lemma calm_tcpError to x e : calm (tcpError undef errtext to x e).
Proof. apply calm_send_msg. Qed.

Lemma getSocket_spec x n o n' : tcpGetSocket x n = Ok (o, n') ->
  n' = n /\ match o with Some j => j = slot n x /\ exists s, sockets n !! j = Some s /\ s_id s = x | None => forall s, sockets n !! slot n x = Some s -> s_id s <> x end.
Proof.
  unfold tcpGetSocket. intros (j & n1 & E1 & E)%st_bind_inv. injection E1 as <- <-. apply st_bind_inv in E as (s & n2 & E2 & E).
  unfold sock in E2. fold (slot n x) in *. destruct (sockets n !! slot n x) as [s0 |] eqn:Es; [| done]. injection E2 as -> <-.
  injection E as <- <-. split; [done |]. destruct (Z.eqb_spec (s_id s) x); [split; [done | by exists s] | by intros s' [= <-]].
Qed.

Lemma calm_getSocket x : calm (tcpGetSocket x).
Proof. apply calm_same. intros n o n' E. by apply getSocket_spec in E as [-> _]. Qed.

(** The slot of another identifier is not ours. *)
Lemma other_slot pend W n x j : live pend W n -> x <> id -> (exists s, sockets n !! j = Some s /\ s_id s = x) -> j <> i.
Proof. intros L Hx (s & Es & Ei) ->. destruct (lv_sock _ _ _ L) as (s' & Es' & Hid & _). congruence. Qed.

Lemma calm_recover x : calm (tcpRecoverId x).
Proof.
  unfold tcpRecoverId. destruct (x <? 0); [apply calm_ret |]. split.
  { apply mono_bind; [apply calm_getIndex | intros j]. apply mono_bind; [apply calm_sock | intros s].
    apply mono_bind; [apply calm_assert | intros _]. apply mono_bind; [apply mono_upd | intros _; apply calm_ret]. }
  intros pend W n L. apply wp_bind, wp_getIndex, wp_bind, wp_sock. intros s Es. apply wp_bind, wp_check. intros Eb%bool_decide_eq_true_1.
  apply wp_bind, wp_upd, wp_ret. left. apply live_other; [done | |].
  - intros Ei. rewrite Ei in Es. destruct (lv_sock _ _ _ L) as (s' & Es' & _ & _ & Hst & _). congruence.
  - intros s' _. right. auto.
Qed.
Lemma calm_mono {A} (m : ST (net K) A) : calm m -> mono m.
Proof. by intros []. Qed.

(** Computations whose statements are all calm, or only add to [closed]. *)
Ltac calmly :=
  repeat first
    [ apply calm_ret | apply calm_get | apply calm_sock | apply calm_getIndex | apply calm_lift | apply calm_assert
    | apply calm_fault | apply calm_send_msg | apply calm_close | apply calm_ae_delete | apply calm_tcpError
    | apply calm_getSocket | apply calm_recover | apply calm_allocId | solve [auto with calm]
    | apply calm_bind; [| intros ?]
    | match goal with |- calm (match ?x with _ => _ end) => destruct x end
    | progress cbv zeta ].

Ltac monotone :=
  repeat first
    [ apply mono_upd | apply mono_ae_create | solve [auto with mono] | apply mono_bind; [| intros ?]
    | match goal with |- mono (match ?x with _ => _ end) => destruct x end
    | progress cbv zeta | solve [apply calm_mono; calmly] ].

(** From here the descriptor is closed: only [closed] matters. *)
Lemma wp_gone {A} pend W (m : ST (net K) A) n : gone n -> mono m -> wp anyf (fun _ n' => held pend W n') m n.
Proof. intros G M. eapply wp_mono; [by apply mono_gone |]. intros a n' G'. by right. Qed.

Lemma calm_handleClose j : calm (handleClose j).
Proof.
  unfold handleClose. split; [monotone |]. intros pend W n L. apply wp_bind, wp_sock. intros s Es.
  eapply after; [apply calm_ae_delete, L | intros _; monotone | intros _ n1 L1].
  eapply after; [apply calm_ae_delete, L1 | intros _; monotone | intros _ n2 L2]. destruct (decide (s_fd s = fd)) as [Ef | Ef].
  - apply wp_bind. rewrite Ef. eapply wp_mono; [apply (closed_ours _ _ _ L2) |]. intros a n3 G. apply wp_gone; [done | monotone].
  - eapply after; [apply calm_close, L2 | intros _; monotone | intros _ n3 L3]. apply wp_bind, wp_upd.
    assert (C : calm (_ ← tcpRecoverId (s_id s); send_msg (ZSend 0 (s_from s) 0 (sock_type MSG_TYPE_SOCK_CLOSE) None 0 (s_id s)))) by calmly.
    apply C. apply live_other; [done | | intros s' _; right; auto].
    intros ->. destruct (lv_sock _ _ _ L) as (s' & Es' & _ & Hf & _). congruence.
Qed.
#[local] Hint Resolve calm_handleClose : calm.

Lemma calm_handleError j : calm (handleError undef errtext j).
Proof. unfold handleError. calmly. Qed.
#[local] Hint Resolve calm_handleError : calm.

Lemma calm_forceClose j : calm (socketForceClose j).
Proof. unfold socketForceClose. calmly. Qed.
#[local] Hint Resolve calm_forceClose : calm.

Lemma mono_stop j : mono (socketStop j).
Proof. unfold socketStop. monotone. Qed.
#[local] Hint Resolve mono_stop : mono.

Lemma live_stop pend W n j : live pend W n -> j <> i -> wp anyf (fun _ n' => held pend W n') (socketStop j) n.
Proof.
  intros L Hj. unfold socketStop. apply wp_bind, wp_sock. intros s Es.
  eapply after; [| intros _; monotone | intros _ n1 L1].
  - assert (C : calm (if s_fd s >? 0 then close_fd (s_fd s) else mret tt)) by calmly. by apply C.
  - apply wp_bind, wp_upd. assert (C : calm (_ ← tcpRecoverId (s_id s); mret tt)) by calmly.
    apply C, live_other; [done | done | intros s' _; right; auto].
Qed.

Lemma calm_set_readBuffer j b : calm (upd j (fun s => set_readBuffer s b)).
Proof. by apply calm_upd. Qed.
#[local] Hint Resolve calm_set_readBuffer : calm.

Lemma calm_set_from j x : calm (upd j (fun s => set_from s x)).
Proof. by apply calm_upd. Qed.
#[local] Hint Resolve calm_set_from : calm.

Lemma calm_out ms : calm (st_modify (fun n => with_out n (out n ++ ms))).
Proof. by apply calm_modify. Qed.
#[local] Hint Resolve calm_out : calm.

Lemma calm_onRead j r : calm (onRead undef errtext j r).
Proof. unfold onRead, socketRead. calmly. Qed.

(** *** Writing to another descriptor *)

Lemma mono_send_loop fuel : forall k sends g b, mono (send_loop fuel k sends g b).
Proof.
  induction fuel as [| fuel IH]; intros k sends g b; cbn [send_loop]; [monotone |].
  destruct (sends k); monotone; by apply mono_modify.
Qed.
#[local] Hint Resolve mono_send_loop : mono.

Lemma calm_send_loop fuel : forall k sends g b, g <> fd -> calm (send_loop fuel k sends g b).
Proof.
  induction fuel as [| fuel IH]; intros k sends g b Hg; cbn [send_loop]; [calmly |].
  pose proof (calm_to_wire g) as Hw. destruct (sends k); calmly; by first [apply Hw | apply IH].
Qed.
Lemma other_fd pend W n j s : live pend W n -> sockets n !! j = Some s -> s_state s <> kSocketDisconnected -> j <> i -> s_fd s <> fd.
Proof. intros L Es Hs Hj Ef. by apply Hs, (lv_others _ _ _ L j). Qed.

(** What another slot keeps in its send buffer. *)
Lemma calm_set_sendBuffer_other pend W n j b : live pend W n -> j <> i ->
  live pend W (with_sockets n (alter (fun s => set_sendBuffer s b) j (sockets n))).
Proof. intros L Hj. apply live_other; [done | done |]. intros s _. right. auto. Qed.

Lemma mono_onWrite j sends : mono (onWrite undef errtext j sends).
Proof. unfold onWrite. monotone. Qed.
#[local] Hint Resolve mono_onWrite : mono.

Lemma live_onWrite_other pend W n j sends : live pend W n -> j <> i -> (forall s, sockets n !! j = Some s -> s_fd s <> fd) ->
  wp anyf (fun _ n' => held pend W n') (onWrite undef errtext j sends) n.
Proof.
  intros L Hj Hf. unfold onWrite. apply wp_bind, wp_sock. intros s Es. specialize (Hf s Es).
  eapply after; [by apply calm_lift | intros b; monotone | intros b n1 L1].
  eapply after; [by apply (calm_send_loop _ _ _ _ _ Hf) | intros r; monotone | intros [b' r] n2 L2]. cbn [fst snd].
  apply wp_bind, wp_upd. pose proof (calm_set_sendBuffer_other _ _ _ _ (Some b') L2 Hj) as L3. destruct r as [[] |].
  - apply wp_bind, wp_upd. apply calm_ae_delete. by apply (calm_set_sendBuffer_other _ _ _ j _ L3).
  - by apply calm_ret.
  - by apply calm_handleError.
Qed.

(** Our own: bytes move from the send buffer to the kernel. *)
Lemma live_onWrite_own pend W n sends : live pend W n ->
  wp anyf (fun _ n' => held pend W n') (onWrite undef errtext i sends) n.
Proof.
  intros L. pose proof L as [(s & Es & Hid & Hfd & Hst & Hty & Hsb & HW) _ _ _ _ _]. unfold onWrite.
  apply wp_bind, wp_sock. intros s' Es'. rewrite Es in Es'. injection Es' as <-. apply wp_bind, wp_lift.
  destruct (s_sendBuffer s) as [b |] eqn:Eb; [| done]. cbn [deref sbuf_ok unread from_option] in *.
  destruct (send_loop_spec (S (Z.to_nat (bufferReadableBytes b))) 0 sends (s_fd s) b n Hsb) as (b' & r & sent & El & W' & R' & Hr).
  { rewrite (readable_bytes _ Hsb). unfold zlen. lia. }
  apply wp_bind. eapply wp_Ok; [exact El |]. cbn [fst snd]. rewrite Hfd in R'.
  assert (L2 : forall b2, bwf b2 -> readable b2 = readable b' ->
    live pend W (with_sockets (with_wire n (wire n ++ sent)) (alter (fun s => set_sendBuffer s (Some b2)) i (sockets n)))).
  { intros b2 W2 R2. change (sockets n) with (sockets (with_wire n (wire n ++ sent))).
    assert (L1 : live pend (wire_of fd (wire n ++ sent) ++ readable b) (with_wire n (wire n ++ sent))).
    { eapply live_wire; [exact L | exact Es |]. by rewrite Eb. }
    eapply live_own; [exact L1 | exact Es | done | done | done | done | done |].
    cbn [s_sendBuffer set_sendBuffer unread from_option with_wire wire]. rewrite R2, wire_of_app, <- app_assoc, <- R'. exact HW. }
  apply wp_bind, wp_upd. cbn [sockets with_wire]. specialize (L2 b' W' eq_refl) as L3. destruct r as [[] |].
  - apply wp_bind, wp_upd. apply calm_ae_delete. cbn [sockets with_sockets].
    destruct (bufferRetrieveAll_spec _ W') as [Wr Rr].
    eapply live_own; [exact L3 | cbn; by rewrite list_lookup_alter_eq, Es | done | done | done | done | done |].
    cbn [s_sendBuffer set_sendBuffer unread from_option with_sockets with_wire wire]. rewrite Rr, app_nil_r, wire_of_app.
    rewrite <- HW, R', (Hr eq_refl). by rewrite app_nil_r.
  - by apply calm_ret.
  - by apply calm_handleError.
Qed.

Lemma mono_socketWrite j bs w : mono (socketWrite undef errtext j bs w).
Proof. unfold socketWrite. monotone; by apply mono_modify. Qed.
#[local] Hint Resolve mono_socketWrite : mono.

Lemma live_write_other pend W n j bs w : live pend W n -> j <> i ->
  wp anyf (fun _ n' => held pend W n') (socketWrite undef errtext j bs w) n.
Proof.
  intros L Hj. unfold socketWrite. apply wp_bind, wp_sock. intros s Es.
  destruct (bool_decide (s_state s = kSocketConnected)) eqn:Ec; cbn [negb]; [| by apply calm_ret].
  apply bool_decide_eq_true_1 in Ec. assert (Hf : s_fd s <> fd) by (eapply other_fd; [done | done | by rewrite Ec | done]).
  assert (Hw : forall sent, live pend W (with_wire n (wire n ++ [(s_fd s, sent)]))).
  { intros sent. destruct (lv_sock _ _ _ L) as (s' & Es' & _ & _ & _ & _ & _ & EW). eapply live_wire; [done | exact Es' |].
    by rewrite wire_other. }
  apply wp_bind. eapply (wp_mono _ _ (fun _ n' => live pend W n' /\ sockets n' = sockets n)).
  { destruct (hasSendBuffer s); cbn [negb]; [done |]. by destruct w. }
  intros [nwrote fault] n1 [L1 E1]. cbn [fst snd]. apply wp_bind, wp_check. intros _.
  eapply after; [| intros _; monotone | intros _ n2 L2; destruct fault; [|  by apply calm_ret]].
  2: { assert (C : calm (_ ← handleError undef errtext j; mret (-1))) by calmly. by apply C. }
  destruct (_ && _); [| by apply calm_ret]. apply wp_bind, wp_lift.
  destruct (bufferAppend _ _ _) as [b |]; [| done]. apply wp_bind, wp_upd.
  pose proof (calm_set_sendBuffer_other _ _ _ _ (Some b) L1 Hj) as L4. apply wp_bind.
  eapply wp_mono; [apply (live_ae_create _ _ _ _ _ _ _ L4) | intros r n5 [L5 _]; by left].
  right. split; [done |]. split; [done |]. cbn [sockets with_sockets]. rewrite list_lookup_alter_eq, E1, Es. by intros s' [= <-].
Qed.

(** Closing our own socket. *)
Lemma own_handleClose pend W n : live pend W n -> wp anyf (fun _ => gone) (handleClose i) n.
Proof.
  intros L. destruct (lv_sock _ _ _ L) as (s & Es & _ & Hf & _). unfold handleClose. apply wp_bind, wp_sock. intros s' Es'.
  rewrite Es in Es'. injection Es' as <-. rewrite Hf.
  assert (Hgone : forall n1, held pend W n1 -> wp anyf (fun _ => gone)
    (_ ← close_fd fd; _ ← upd i (fun s => set_state s kSocketDisconnected); _ ← tcpRecoverId (s_id s);
     send_msg (ZSend 0 (s_from s) 0 (sock_type MSG_TYPE_SOCK_CLOSE) None 0 (s_id s))) n1).
  { intros n1 [L1 | G]; [| by apply mono_gone; [monotone |]]. apply wp_bind. eapply wp_mono; [by apply (closed_ours pend W) |].
    intros a n2 G. by apply mono_gone; [monotone |]. }
  apply wp_bind. eapply wp_mono; [apply (cm_live _ (calm_ae_delete _ _) _ _ _ L) |]. intros a n1 [L1 | G]; [| by apply mono_gone; [monotone |]].
  apply wp_bind. eapply wp_mono; [apply (cm_live _ (calm_ae_delete _ _) _ _ _ L1) |]. intros b n2 H2. by apply Hgone.
Qed.

(** Our own: the bytes go to the kernel and, what it does not take, behind those
    that wait. *)
Lemma live_write_plain pend W n bs w : live pend W n -> zlen bs < 4294967296 -> w <> WriteReset ->
  wp anyf (fun _ n' => held pend (W ++ bs) n') (socketWrite undef errtext i bs w) n.
Proof.
  intros L Hlen Hw. pose proof L as [(s & Es & Hid & Hfd & Hst & Hty & Hsb & HW) _ _ _ _ _]. unfold socketWrite.
  apply wp_bind, wp_sock. intros s' Es'. rewrite Es in Es'. injection Es' as <-. rewrite bool_decide_eq_true_2 by done. cbn [negb].
  destruct (direct_write bs w n s Hsb Hw) as (k & sent & Ek & Hs & Hp & Hk). apply wp_bind. eapply wp_Ok; [exact Ek |].
  cbn [fst snd]. apply wp_bind, wp_check. intros _. rewrite Hk. set (n1 := with_wire n (wire n ++ sent)).
  assert (L1 : live pend (W ++ take k bs) n1).
  { eapply live_wire; [done | exact Es |]. rewrite wire_of_app, <- Hfd, Hs, Hfd, <- HW, <- !app_assoc. f_equal.
    destruct (decide (take k bs = [])) as [-> | Hne]; [by rewrite app_nil_r | by rewrite (Hp Hne), app_nil_r]. }
  assert (Lk : zlen bs - zlen (take k bs) = zlen (drop k bs)) by (unfold zlen; rewrite length_take, length_drop; lia).
  rewrite Lk. cbn [negb andb]. rewrite Z.gtb_ltb. destruct (Z.ltb_spec 0 (zlen (drop k bs))) as [Hr | Hr].
  - apply wp_bind, wp_bind, wp_lift. set (sb := default _ _). destruct (bufferAppend undef sb (drop k bs)) as [b1 |] eqn:Eapp; [| done].
    assert (Hb : bwf sb /\ readable sb = unread (s_sendBuffer s)).
    { unfold sb. destruct (s_sendBuffer s) as [b |]; [done |]. apply bufferCreate_wf. unfold SEND_BUFFER_INITIAL. lia. }
    destruct Hb as [Wsb Rsb].
    destruct (bufferAppend_ok undef sb (drop k bs) b1 Wsb) as [Wb Rb]; [unfold zlen in *; rewrite length_drop; lia | done |].
    apply wp_bind, wp_upd. assert (L2 : live pend (W ++ bs) (with_sockets n1 (alter (fun s => set_sendBuffer s (Some b1)) i (sockets n1)))).
    { eapply live_own; [exact L1 | exact Es | done | done | done | done | done |].
      cbn [s_sendBuffer set_sendBuffer unread from_option]. rewrite Rb, Rsb. unfold n1. cbn [wire with_wire].
      rewrite wire_of_app, <- HW. rewrite <- Hfd, Hs, <- !app_assoc. f_equal. by apply split_order. }
    apply wp_bind. eapply wp_mono; [apply (live_ae_create _ _ _ _ _ _ _ L2); left; auto 6 |].
    intros r n5 [L5 _]. apply wp_ret, wp_ret. by left.
  - apply wp_bind, wp_ret, wp_ret. left. assert (Ed : drop k bs = []) by (destruct (drop k bs); [done | cbn in Hr; unfold zlen in Hr; cbn in Hr; lia]).
    by rewrite <- (take_drop k bs), Ed, app_nil_r.
Qed.

Lemma live_write_own pend W n bs w : live pend W n -> zlen bs < 4294967296 ->
  wp anyf (fun _ n' => held pend (W ++ bs) n') (socketWrite undef errtext i bs w) n.
Proof.
  intros L Hlen. destruct w; try (by apply live_write_plain). destruct (lv_sock _ _ _ L) as (s & Es & _ & _ & Hst & _).
  destruct (hasSendBuffer s) eqn:Hh.
  - assert (E : socketWrite undef errtext i bs WriteReset n = socketWrite undef errtext i bs WriteAgain n).
    { unfold socketWrite. rewrite !(st_bind_Ok _ _ _ _ _ (sock_Ok _ _ _ Es)), Hh. by destruct (bool_decide _). }
    unfold wp. rewrite E. by apply live_write_plain.
  - unfold socketWrite. apply wp_bind, wp_sock. intros s' Es'. rewrite Es in Es'. injection Es' as <-.
    rewrite bool_decide_eq_true_2, Hh by done. cbn [negb]. apply wp_bind, wp_ret, wp_bind, wp_check. intros _. cbn [negb andb].
    apply wp_bind, wp_ret, wp_bind, wp_bind. eapply wp_mono; [by apply (own_handleClose pend W) |]. intros a n1 G. apply wp_gone; [done | monotone].
Qed.
(** *** Identifiers *)

Lemma mono_reserve_turn : mono reserve_turn.
Proof. unfold reserve_turn. monotone. Qed.
#[local] Hint Resolve mono_reserve_turn : mono.

(** The reserved slot is not ours and has no descriptor. *)
Definition reserved n (x : Z) : Prop :=
  x <> id /\ forall s, sockets n !! slot n x = Some s -> s_id s = x -> s_fd s <> fd.

Lemma live_reserve_turn pend W n : live pend W n ->
  wp anyf (fun o n' => live pend W n' /\ match o with Some x => reserved n' x | None => True end) reserve_turn n.
Proof.
  intros L. unfold reserve_turn. apply wp_bind, wp_get, wp_bind, wp_modify. set (n1 := with_allocId n _).
  assert (L1 : live pend W n1) by (eapply live_same; [exact L | done..]). apply wp_bind.
  assert (Hrest : forall n2 x, live pend W n2 -> wp anyf (fun o n' => live pend W n' /\ match o with Some x => reserved n' x | None => True end)
    (j ← getIndex x; s ← sock j;
     if bool_decide (s_type s = kSocketNoneType)
     then _ ← upd j (fun s => set_fd (set_id (set_type s kReserveType) x) (-1)); mret (Some x) else mret None) n2).
  { intros n2 x L2. apply wp_bind, wp_getIndex, wp_bind, wp_sock. intros s Es.
    destruct (bool_decide (s_type s = kSocketNoneType)) eqn:Eb; [| by apply wp_ret]. apply bool_decide_eq_true_1 in Eb.
    destruct (lv_sock _ _ _ L2) as (s0 & Es0 & _ & _ & _ & Hty & _).
    assert (Hj : slot n2 x <> i) by (intros Ej; rewrite Ej in Es; congruence). apply wp_bind, wp_upd, wp_ret. split.
    - apply live_other; [done | done |]. intros s' _. left. cbn. lia.
    - split; [intros ->; by rewrite (lv_slot _ _ _ L2) in Hj |]. intros s' Es'. change (slot (with_sockets n2 _) x) with (slot n2 x) in Es'.
      cbn [sockets with_sockets] in Es'. rewrite list_lookup_alter_eq, Es in Es'. injection Es' as <-. cbn. lia. }
  destruct (allocId n <? 0).
  - apply wp_bind, wp_modify, wp_ret, Hrest. eapply live_same; [exact L1 | done..].
  - by apply wp_ret, Hrest.
Qed.

Lemma mono_reserve_loop k : mono (reserve_loop k).
Proof. induction k as [| k IH]; cbn [reserve_loop]; monotone. Qed.

Lemma live_reserve_loop pend W k : forall n, live pend W n ->
  wp anyf (fun x n' => live pend W n' /\ reserved n' x) (reserve_loop k) n.
Proof.
  induction k as [| k IH]; intros n L; cbn [reserve_loop]; [done |]. apply wp_bind. eapply wp_mono; [by apply live_reserve_turn |].
  intros [x |] n1 [L1 Hx]; [by apply wp_ret | by apply IH].
Qed.

Lemma mono_reserve : mono tcpGetReserveId.
Proof. unfold tcpGetReserveId. pose proof mono_reserve_loop. monotone. Qed.
#[local] Hint Resolve mono_reserve : mono.

Lemma live_reserve pend W n : live pend W n -> wp anyf (fun x n' => live pend W n' /\ reserved n' x) tcpGetReserveId n.
Proof. intros L. unfold tcpGetReserveId. apply wp_bind, wp_get. by apply live_reserve_loop. Qed.

Lemma wp_getSocket x (R : option nat -> net K -> Prop) n :
  ((forall s, sockets n !! slot n x = Some s -> s_id s <> x) -> R None n) -> (forall j s, j = slot n x -> sockets n !! j = Some s -> s_id s = x -> R (Some j) n) -> wp anyf R (tcpGetSocket x) n.
Proof.
  intros HN HS. unfold wp. destruct (tcpGetSocket x n) as [[o n'] | f] eqn:E; [| done].
  apply getSocket_spec in E as [-> Ho]. destruct o as [j |]; [| by apply HN]. destruct Ho as (Ej & s & Es & Ei). by eapply HS.
Qed.

(** *** The handlers of events *)

Lemma mono_onAccept j a : mono (onAccept undef errtext j a).
Proof. unfold onAccept. monotone. Qed.

Lemma live_onAccept pend W n j a : live pend W n -> match a with Accepted cfd _ => cfd <> fd | AcceptError => True end ->
  wp anyf (fun _ n' => held pend W n') (onAccept undef errtext j a) n.
Proof.
  intros L Ha. unfold onAccept. apply wp_bind, wp_sock. intros s Es. destruct a as [cfd ip |]; [| by apply calm_tcpError].
  apply wp_bind. eapply wp_mono; [by apply live_reserve |]. intros x n1 [L1 [Hx _]]. destruct (x <? 0); [by apply calm_tcpError |].
  apply wp_bind, wp_getSocket; [intros _; by apply wp_bind |]. intros k sk _ Ek Eid. apply wp_bind, wp_ret, wp_bind, wp_upd.
  match goal with |- wp _ _ ?m _ => assert (C : calm m) by calmly end. apply C. apply live_other; [done | | by intros s' _; left].
  apply (other_slot _ _ _ x _ L1 Hx). by exists sk.
Qed.

Lemma mono_onConnecting j g e : mono (onConnecting undef errtext j g e).
Proof. unfold onConnecting. monotone. Qed.

Lemma ae_delete_sockets g mask n u n' : ae_delete g mask n = Ok (u, n') -> sockets n' = sockets n.
Proof. unfold ae_delete. by intros (el & _ & [= _ <-])%bind_Ok_inv. Qed.

Lemma live_onConnecting pend W n j g e : live pend W n -> j <> i -> (forall s, sockets n !! j = Some s -> s_fd s <> fd) ->
  wp anyf (fun _ n' => held pend W n') (onConnecting undef errtext j g e) n.
Proof.
  intros L Hj Hf. unfold onConnecting. apply wp_bind. pose proof (cm_live _ (calm_ae_delete g AE_WRITABLE) _ _ _ L) as Hd.
  unfold wp in Hd |- * at 1. destruct (ae_delete g AE_WRITABLE n) as [[[] n1] | f] eqn:E; [| done].
  pose proof (ae_delete_sockets _ _ _ _ _ E) as E1. destruct Hd as [L1 | G]; [| apply wp_gone; [done | monotone]].
  apply wp_bind, wp_sock. intros s Es. destruct (bool_decide (e = Some 0)).
  - apply wp_bind, wp_upd. apply calm_send_msg. apply live_other; [done | done |]. intros s' Es'. left. apply (Hf s'). by rewrite <- E1.
  - eapply after; [by apply calm_tcpError | intros _; monotone | intros _ n2 L2]. by apply live_stop.
Qed.

(** Whatever is registered and ready. *)
Lemma mono_fire g w a : mono (fire g w a).
Proof.
  pose proof mono_onAccept. pose proof mono_onConnecting. unfold fire. monotone; unfold call_proc; auto with mono.
  all: try apply calm_mono, calm_onRead.
Qed.

Lemma has_nonzero m b : has m b = true -> m <> 0.
Proof. by intros Hh ->. Qed.

Lemma live_fire pend W n g w a : live pend W n -> match ev_accept a with Accepted cfd _ => cfd <> fd | AcceptError => True end ->
  wp anyf (fun _ n' => held pend W n') (fire g w a) n.
Proof.
  intros L Ha. unfold fire. apply wp_bind, wp_get, wp_bind, wp_lift. destruct (aget (events (loop n)) g) as [fe |] eqn:Eg; [| done].
  apply aget_Ok_inv in Eg as [Hg Efe]. pose proof (lv_events _ _ _ L _ _ Efe) as Hok. unfold entry_ok in Hok. rewrite Z2Nat.id in Hok by lia.
  destruct (has (fmask fe) (if w then AE_WRITABLE else AE_READABLE)) eqn:Eh; [| by left].
  destruct (Hok (has_nonzero _ _ Eh)) as [Hown Hoth]. apply wp_bind, wp_lift.
  destruct (if w then wfileProc fe else rfileProc fe) as [p |] eqn:Ep; [| done]. cbn [deref].
  destruct (decide (g = fd)) as [-> | Hne].
  - destruct (Hown eq_refl) as (-> & Hr & Hw). destruct w.
    + rewrite (Hw Eh) in Ep. injection Ep as <-. by apply live_onWrite_own.
    + rewrite (Hr Eh) in Ep. injection Ep as <-. by apply calm_onRead.
  - destruct (clientData fe) as [j |]; [| destruct p; [done.. | by left]]. destruct (Hoth Hne j eq_refl) as [Hj Hs].
    destruct p; [by apply live_onAccept | by apply calm_onRead | by apply live_onWrite_other | by apply live_onConnecting | by left].
Qed.

(** *** Requests *)

Lemma mono_send_each r data w ids : forall k, mono (send_each undef errtext r data w k ids).
Proof. induction ids as [| x ids IH]; intros k; cbn [send_each]; monotone. Qed.

Lemma mono_handleEvent r a : mono (handleEvent undef errtext r a).
Proof.
  pose proof mono_send_each. unfold handleEvent, handleTcpSocketListen, handleTcpSocketStart, handleTcpSocketConnect,
    handleTcpSocketAsyncConnect, handleTcpSocketClose, handleTcpSocketSend, socketStart, socketAccept, socketConnect.
  monotone; by apply mono_modify.
Qed.

(** A request to an identifier: the connection answers to its own only. *)
Lemma live_to pend pend' W n x to e (k : nat -> ST (net K) unit) : live pend W n ->
  pend' = pend ->
  (forall j s, j = slot n x -> sockets n !! j = Some s -> s_id s = x -> wp anyf (fun _ n' => held pend' W n') (k j) n) ->
  wp anyf (fun _ n' => held pend' W n')
    (o ← tcpGetSocket x; match o with None => tcpError undef errtext to x e | Some j => k j end) n.
Proof. intros L -> Hk. apply wp_bind, wp_getSocket; [intros _; by apply calm_tcpError | exact Hk]. Qed.

Lemma wp_req_id r R n : (forall x, head (req_ids r) = Some x -> wp anyf R (mret x : ST (net K) Z) n) ->
  wp anyf R (st_lift (req_id r)) n.
Proof. intros HR. apply wp_lift. unfold req_id. destruct (req_ids r) as [| x xs]; [done |]. by apply (HR x). Qed.

(** The slot set up anew: it gets a descriptor that is not ours. *)
Lemma live_setup pend W n x j s f : live pend W n -> x ∈ pend -> j = slot n x -> sockets n !! j = Some s -> s_id s = x ->
  (forall s, s_fd (f s) <> fd) -> wp anyf (fun _ n' => held pend W n') (upd j f) n.
Proof.
  intros L Hx Ej Es Ei Hf. apply wp_upd. left. apply live_other; [done | | intros s' _; by left].
  apply (other_slot _ _ _ x _ L); [apply (lv_pend _ _ _ L x Hx) | by exists s].
Qed.

Definition fresh_for n (g : Z) : Prop := g = -1 \/ fresh_fd n g.

Lemma fresh_ne pend W n g : live pend W n -> fresh_fd n g -> g <> fd.
Proof.
  intros L Hg ->. destruct (lv_sock _ _ _ L) as (s & Es & _ & Ef & Hst & _). apply (Hg i s Es); [by rewrite Hst | done].
Qed.

Lemma live_Listen pend W n r p g : live pend W n -> (forall x, head (req_ids r) = Some x -> x ∈ pend) -> fresh_for n g ->
  wp anyf (fun _ n' => held pend W n') (handleTcpSocketListen undef errtext r p g) n.
Proof.
  intros L Hx Hg. unfold handleTcpSocketListen. apply wp_bind, wp_req_id. intros x Ex. apply wp_ret.
  destruct (Z.eqb_spec g (-1)) as [-> | Hne]; [by apply calm_tcpError |]. destruct Hg as [? | Hg]; [done |].
  eapply live_to; [exact L | done |]. intros j s Ej Es Ei. eapply live_setup; eauto. intros s'. cbn. by eapply fresh_ne.
Qed.

Lemma live_Connect pend W n r p g : live pend W n -> (forall x, head (req_ids r) = Some x -> x ∈ pend) -> fresh_for n g ->
  wp anyf (fun _ n' => held pend W n') (handleTcpSocketConnect undef errtext r p g) n.
Proof.
  intros L Hx Hg. unfold handleTcpSocketConnect. apply wp_bind, wp_req_id. intros x Ex. apply wp_ret.
  eapply live_to; [exact L | done |]. intros j s Ej Es Ei.
  destruct (Z.eqb_spec g (-1)) as [-> | Hne]; [by apply calm_tcpError |]. destruct Hg as [? | Hg]; [done |].
  eapply live_setup; eauto. intros s'. cbn. by eapply fresh_ne.
Qed.

Lemma live_create_other pend W n g mask p j : live pend W n -> g <> fd -> j <> i ->
  (forall s, sockets n !! j = Some s -> s_fd s <> fd) ->
  wp anyf (fun _ n' => held pend W n') (ae_create g mask p j) n.
Proof.
  intros L Hg Hj Hs. eapply wp_mono; [by apply (live_ae_create _ _ _ _ _ _ _ L); right |]. intros r n' [L' _]. by left.
Qed.

Lemma live_Start pend W n r : live pend W n -> wp anyf (fun _ n' => held pend W n') (handleTcpSocketStart undef errtext r) n.
Proof.
  intros L. unfold handleTcpSocketStart. apply wp_bind, wp_req_id. intros x Ex. apply wp_ret.
  eapply live_to; [exact L | done |]. intros j s _ Es Ei. apply wp_bind, wp_sock. intros s' Es'. rewrite Es in Es'. injection Es' as <-.
  destruct (bool_decide (s_state s = kSocketConnecting)) eqn:Eb; cbn [negb]; [| by apply calm_tcpError]. apply bool_decide_eq_true_1 in Eb.
  assert (Hj : j <> i) by (intros ->; destruct (lv_sock _ _ _ L) as (s0 & Es0 & _ & _ & Hst & _); congruence).
  assert (Hf : s_fd s <> fd) by (eapply other_fd; [exact L | exact Es | congruence | done]).
  apply wp_bind, wp_upd. set (n1 := with_sockets n _).
  assert (L1 : live pend W n1) by (apply live_other; [done | done | intros s0 _; right; auto]).
  assert (E1 : sockets n1 !! j = Some (set_from s (req_from r))) by (unfold n1; cbn; by rewrite list_lookup_alter_eq, Es).
  eapply after; [| intros ret; monotone | intros ret n2 L2; destruct (ret <? 0); [| by left]].
  2: { eapply after; [by apply live_stop | intros _; monotone | intros _ n3 L3]. by apply calm_tcpError. }
  assert (Hacc : wp anyf (fun _ n' => held pend W n') (socketAccept j) n1).
  { unfold socketAccept. apply wp_bind, wp_sock. intros s' Es'. rewrite E1 in Es'. injection Es' as <-. apply wp_bind, wp_check. intros _.
    apply live_create_other; [done.. |]. intros s' Es'. rewrite E1 in Es'. by injection Es' as <-. }
  assert (Hsta : wp anyf (fun _ n' => held pend W n') (socketStart j) n1).
  { unfold socketStart. apply wp_bind, wp_sock. intros s' Es'. rewrite E1 in Es'. injection Es' as <-. apply wp_bind, wp_check. intros _.
    apply wp_bind, wp_upd, live_create_other; [| done | done |].
    - apply live_other; [done | done |]. intros s' Es'. rewrite E1 in Es'. injection Es' as <-. by left.
    - intros s'. cbn [sockets with_sockets]. rewrite list_lookup_alter_eq, E1. by intros [= <-]. }
  destruct (bool_decide _); [done |]. destruct (_ || _); [done | by left].
Qed.

Lemma live_AsyncConnect pend W n r p g b : live pend W n -> (forall x, head (req_ids r) = Some x -> x ∈ pend) -> fresh_for n g ->
  wp anyf (fun _ n' => held pend W n') (handleTcpSocketAsyncConnect undef errtext r p g b) n.
Proof.
  intros L Hx Hg. unfold handleTcpSocketAsyncConnect. apply wp_bind, wp_req_id. intros x Ex. apply wp_ret.
  eapply live_to; [exact L | done |]. intros j s Ej Es Ei. destruct (lv_pend _ _ _ L x (Hx x Ex)) as [Hne Hfd].
  assert (Hj : j <> i) by (apply (other_slot _ _ _ x _ L Hne); by exists s).
  assert (Hf : s_fd s <> fd) by (apply Hfd; congruence).
  apply wp_bind, wp_upd. set (n1 := with_sockets n _).
  assert (L1 : live pend W n1) by (apply live_other; [done | done | intros s0 _; right; auto]).
  assert (E1 : sockets n1 !! j = Some (set_from s (req_from r))) by (unfold n1; cbn; by rewrite list_lookup_alter_eq, Es).
  assert (Cerr : forall e, calm (_ ← tcpRecoverId x; s ← sock j; tcpError undef errtext (req_from r) (s_id s) e)) by (intros e; calmly).
  destruct (_ || negb b) eqn:Eg; [by apply Cerr |]. apply orb_false_iff in Eg as [Eg%Z.eqb_neq _]. destruct Hg as [? | Hg]; [done |].
  eapply after; [| intros ret; monotone | intros ret n2 L2; destruct (ret <? 0); [by apply Cerr |]].
  - unfold socketConnect. apply wp_bind, wp_sock. intros s' Es'. rewrite E1 in Es'. injection Es' as <-.
    apply live_create_other; [done.. |]. intros s' Es'. rewrite E1 in Es'. by injection Es' as <-.
  - apply wp_upd. left. apply live_other; [done | done | intros s' _; left; cbn; by apply (fresh_ne _ _ _ _ L Hg)].
Qed.

Lemma live_Close pend W n r : live pend W n -> wp anyf (fun _ n' => held pend W n') (handleTcpSocketClose undef errtext r) n.
Proof. intros L. assert (C : calm (handleTcpSocketClose undef errtext r)) by (unfold handleTcpSocketClose; calmly). by apply C. Qed.

(** A send reaches our own socket once for every time its identifier is listed. *)
Lemma live_send_each pend r data w ids : zlen data < 4294967296 -> forall k W n, live pend W n ->
  wp anyf (fun _ n' => held pend (W ++ concat ((fun x => if x =? id then data else []) <$> ids)) n')
    (send_each undef errtext r data w k ids) n.
Proof.
  intros Hlen. induction ids as [| x ids IH]; intros k W n L; cbn [send_each fmap list_fmap concat]; [left; by rewrite app_nil_r |].
  assert (Mrest : mono (send_each undef errtext r data w (S k) ids)) by apply mono_send_each. rewrite app_assoc.
  apply wp_bind, wp_getSocket.
  - intros Hno. destruct (Z.eqb_spec x id) as [-> | Hne].
    { destruct (lv_sock _ _ _ L) as (s & Es & Ei & _). exfalso. apply (Hno s); [by rewrite (lv_slot _ _ _ L) | done]. }
    rewrite app_nil_r. eapply after; [by apply calm_tcpError | done |]. intros _ n1 L1. by apply IH.
  - intros j s Ej Es Ei. destruct (Z.eqb_spec x id) as [-> | Hne].
    + rewrite (lv_slot _ _ _ L) in Ej. subst j. eapply after; [| done | intros _ n1 L1; by apply IH].
      eapply after; [by apply live_write_own | intros _; monotone |]. intros _ n2 L2. by left.
    + rewrite app_nil_r. eapply after; [| done | intros _ n1 L1; by apply IH].
      eapply after; [apply live_write_other; [done |] | intros _; monotone |].
      * apply (other_slot _ _ _ x _ L Hne). by exists s.
      * intros _ n2 L2. by left.
Qed.

(** The bytes of a request are counted in 32 bits. *)
Definition sized (r : tcpRequest) : Prop :=
  match req_body r with kTcpSocketSend _ sz => sz < 4294967296 | _ => True end.

Lemma live_Send pend W n r data sz w : live pend W n -> req_body r = kTcpSocketSend data sz -> sz < 4294967296 ->
  wp anyf (fun _ n' => held pend (W ++ sent_bytes id r) n') (handleTcpSocketSend undef errtext r data sz w) n.
Proof.
  intros L Er Hsz. unfold sent_bytes, handleTcpSocketSend. rewrite Er. destruct data as [d |]; [| left; by rewrite app_nil_r].
  apply wp_bind, wp_lift. unfold acopy_out. destruct (_ && _) eqn:Eb; [| done]. rewrite drop_0.
  apply live_send_each; [| done]. unfold zlen. rewrite length_take. lia.
Qed.

Lemma sent_bytes_nil r : (forall data sz, req_body r <> kTcpSocketSend data sz) -> sent_bytes id r = [].
Proof. unfold sent_bytes. destruct (req_body r); try done. intros Hn. by destruct (Hn data sz). Qed.

Lemma live_handleEvent pend W n r a : live pend W n -> (forall x, x ∈ reserved_by r -> x ∈ pend) -> sized r ->
  fresh_for n (an_fd a) ->
  wp anyf (fun _ n' => held pend (W ++ sent_bytes id r) n') (handleEvent undef errtext r a) n.
Proof.
  intros L Hres Hsz Hg. unfold handleEvent. unfold sized in Hsz. unfold reserved_by in Hres.
  destruct (req_body r) as [? ? p ? | | ? ? p | ? ? p | | data sz |] eqn:Er.
  6: { by eapply live_Send. }
  all: rewrite sent_bytes_nil by (intros; congruence); rewrite app_nil_r.
  1, 3, 4: assert (Hh : forall x, head (req_ids r) = Some x -> x ∈ pend)
    by (intros x Ex; apply Hres; destruct (req_ids r) as [| y ys]; [done | injection Ex as <-; by left]).
  - by apply live_Listen.
  - by apply live_Connect.
  - by apply live_AsyncConnect.
  - by apply live_Start.
  - by apply live_Close.
  - left. eapply live_same; [exact L | done..].
Qed.

(** *** Calls of the services *)

Lemma mono_run_call c b : mono (run_call c b).
Proof.
  unfold run_call, tcpSocketListen, tcpSocketStart, tcpSocketConnect, tcpSocketAsyncConnect, tcpSocketClose, tcpSocketSend, tcpStop, tcpPostRequest.
  monotone.
Qed.

Definition sized_call (c : tcall) : Prop := match c with CSend _ _ _ sz => sz < 4294967296 | _ => True end.

Lemma live_posted pend W n (m : ST (net K) Z) (mk : Z -> tcpRequest) :
  live pend W n -> (wp anyf (fun x n' => live pend W n' /\ reserved n' x) m n) ->
  (forall x, sized (mk x) /\ forall y, y ∈ reserved_by (mk x) -> y = x) ->
  wp anyf (fun r n' => live pend W n' /\ forall req, r.2 = Some req -> sized req /\ forall y, y ∈ reserved_by req -> reserved n' y)
    (x ← m; tcpPostRequest true x (mk x)) n.
Proof.
  intros L Hm Hmk. apply wp_bind. eapply wp_mono; [exact Hm |]. intros x n' [L' Hx]. apply wp_ret. split; [done |].
  intros req [= <-]. destruct (Hmk x) as [Hs Hr]. split; [done |]. by intros y ->%Hr.
Qed.

Lemma live_run_call pend W n c : live pend W n -> sized_call c ->
  wp anyf (fun r n' => live pend W n' /\ forall req, r.2 = Some req -> sized req /\ forall y, y ∈ reserved_by req -> reserved n' y)
    (run_call c true) n.
Proof.
  intros L Hc. unfold run_call. destruct c as [ctx p addr port | ctx x | ctx p addr port | ctx p addr port | ctx x | ctx ids data sz |].
  1, 3, 4: (apply live_posted; [done | by apply live_reserve |]; intros x; split; [done |]; intros y; cbn; apply list_elem_of_singleton).
  all: apply wp_ret; (split; [done |]); intros req [= <-]; (split; [done |]); intros y Hy; by apply elem_of_nil in Hy.
Qed.

Lemma live_run_call_rejected pend W n c : live pend W n -> wp anyf (fun _ n' => held pend W n') (run_call c false) n.
Proof.
  intros L. unfold run_call. destruct c as [ctx p addr port | ctx x | ctx p addr port | ctx p addr port | ctx x | ctx ids data sz |].
  1, 3, 4: apply wp_bind; eapply wp_mono; [by apply live_reserve |]; intros x n' [L' _].
  all: match goal with |- wp _ _ ?m _ => assert (C : calm m) by (unfold tcpSocketStart, tcpSocketClose, tcpSocketSend, tcpStop, tcpPostRequest; calmly) end.
  all: by apply C.
Qed.

(** ** The invariant of the system *)

Definition backlog (m : em Q tcpRequest) : list tcpRequest := in_call (consumer m) ++ q_elems (equeue m).

(** The identifiers of requests on their way to the loop thread. *)
Definition pending (m : em Q tcpRequest) : list Z := concat (reserved_by <$> backlog m).

Lemma live_pend pend pend' W n : live pend W n -> (forall x, x ∈ pend' -> x ∈ pend \/ reserved n x) -> live pend' W n.
Proof.
  intros [S Sl P O E C] Hp. split; try done. intros x [Hx | Hx]%Hp; [by apply P | exact Hx].
Qed.

Lemma held_pend pend pend' W n : held pend W n -> (forall x, x ∈ pend' -> x ∈ pend) -> held pend' W n.
Proof. intros [L | G] Hp; [left | by right]. eapply live_pend; [done |]. intros x Hx. left. by apply Hp. Qed.

Record tinv (h0 : list tcpRequest) (W0 : list Z) (T : tsys) : Prop := {
  ti_em : einv (t_em T);
  ti_sized : Forall sized (backlog (t_em T));
  ti_conn : exists hs, handled (t_em T) = h0 ++ hs /\
    held (pending (t_em T)) (W0 ++ concat (sent_bytes id <$> hs)) (t_net T);
}.

(** The queue's side of every step. *)
Lemma backlog_em a m m' : einv m -> eexec a m = Some (Ok m') -> handled m' = handled m -> sent m' = sent m -> einv m' /\ backlog m' = backlog m.
Proof.
  intros I E Hh Hs. pose proof (einv_next _ _ I (ENext _ _ _ E)) as I'. split; [done |].
  pose proof (ei_order _ I) as O. pose proof (ei_order _ I') as O'. rewrite Hh, Hs, O in O'. by apply app_inv_head in O'.
Qed.

Lemma tinv_em h0 W0 T a m' : tinv h0 W0 T -> eexec a (t_em T) = Some (Ok m') -> handled m' = handled (t_em T) ->
  sent m' = sent (t_em T) -> tinv h0 W0 (TSys m' (t_net T)).
Proof.
  intros [I S (hs & Eh & Hc)] E Hh Hs. destruct (backlog_em _ _ _ I E Hh Hs) as [I' Eb].
  split; cbn [t_em t_net]; [done | by rewrite Eb |]. exists hs. unfold pending. rewrite Hh, Eb. by split.
Qed.

Lemma step_quiet t m m' : eexec (EStep t) m = Some (Ok m') -> handled m' = handled m /\ sent m' = sent m.
Proof. cbn [eexec]. destruct (producers m !! t) as [[] |]; [done | | | done]; by intros [= <-]. Qed.

Lemma loop_quiet m m' : (forall x, consumer m <> CCall x) -> eexec ELoop m = Some (Ok m') -> handled m' = handled m /\ sent m' = sent m.
Proof.
  intros Hc. cbn [eexec]. destruct (consumer m) as [| | x]; [| | by destruct (Hc x)].
  - destruct (bytes m >? 0); [| done]. by intros [= <-].
  - intros [= E]. unfold pop_one in E. apply bind_Ok_inv in E as ([o q] & _ & E). by destruct o; injection E as <-.
Qed.

(** A push, accepted or not. *)
Lemma push_cases m t req m' : einv m -> producers m !! t = Some PIdle -> push_queue m t req = Ok m' ->
  einv m' /\ handled m' = handled m /\
  if pushed m' t then backlog m' = backlog m ++ [req] else backlog m' = backlog m.
Proof.
  intros I Ht E. assert (N : enext m m') by (apply (ENext (EPush t req)); cbn [eexec]; by rewrite Ht, E).
  pose proof (einv_next _ _ I N) as I'. pose proof (ei_order _ I) as O. pose proof (ei_order _ I') as O'.
  unfold push_queue in E. apply bind_Ok_inv in E as ([ok q] & _ & [= <-]). cbn in *. split; [done |]. split; [done |].
  apply lookup_lt_Some in Ht. unfold pushed, backlog. cbn. rewrite list_lookup_insert_eq by done. rewrite O in O'. destruct ok.
  - rewrite <- !app_assoc in O'. apply app_inv_head in O'. by rewrite <- O', <- app_assoc.
  - by apply app_inv_head in O'.
Qed.

Lemma wp_inv {S A} (Q' : A -> S -> Prop) (m : ST S A) (n : S) a (n' : S) : wp anyf Q' m n -> m n = Ok (a, n') -> Q' a n'.
Proof. unfold wp. intros HQ E. by rewrite E in HQ. Qed.

Lemma tinv_post h0 W0 T t c T' : tinv h0 W0 T -> producers (t_em T) !! t = Some PIdle -> sized_call c ->
  post t c T = Ok T' -> tinv h0 W0 T'.
Proof.
  intros [I S (hs & Eh & Hc)] Ht Hsz E. unfold post in E. apply bind_Ok_inv in E as ([[v oreq] n1] & E1 & E).
  apply bind_Ok_inv in E as (req & Er & E). cbn [fst snd] in *. destruct oreq as [req' |]; [injection Er as -> | done].
  apply bind_Ok_inv in E as (m & Em & E). destruct (push_cases _ _ _ _ I Ht Em) as (I' & Eh' & Eb).
  assert (Hacc : pushed m t = true -> tinv h0 W0 (TSys m n1)).
  { intros Ed. rewrite Ed in Eb. destruct Hc as [L | G].
    - destruct (wp_inv _ _ _ _ _ (live_run_call _ _ _ _ L Hsz) E1) as [L1 Hr]. destruct (Hr req eq_refl) as [Hs Hres].
      split; cbn [t_em t_net]; [done | rewrite Eb; apply Forall_app; by repeat constructor |]. exists hs. split; [congruence |]. left.
      eapply live_pend; [exact L1 |]. intros x. unfold pending. rewrite Eb, fmap_app, concat_app, elem_of_app.
      intros [Hx | Hx]; [by left | right]. cbn in Hx. rewrite app_nil_r in Hx. by apply Hres.
    - split; cbn [t_em t_net]; [done | |].
      + rewrite Eb. apply Forall_app. split; [done |]. repeat constructor.
        destruct c; cbn in E1; unfold tcpSocketListen, tcpSocketConnect, tcpSocketAsyncConnect in E1;
          try (injection E1 as _ <- _; done); apply st_bind_inv in E1 as (x & n2 & _ & E1); by injection E1 as _ <- _.
      + exists hs. split; [congruence |]. right. apply (wp_inv _ _ _ _ _ (mono_gone _ _ (mono_run_call c true) G) E1). }
  assert (Hrej : pushed m t = false ->
    (r ← run_call c false (t_net T); mret (TSys m r.2)) = Ok T' -> tinv h0 W0 T').
  { intros Ed E'. rewrite Ed in Eb. apply bind_Ok_inv in E' as ([r n2] & E2 & [= <-]). cbn [snd].
    split; cbn [t_em t_net]; [done | by rewrite Eb |]. exists hs. split; [congruence |]. unfold pending. rewrite Eb. destruct Hc as [L | G].
    - apply (wp_inv _ _ _ _ _ (live_run_call_rejected _ _ _ c L) E2).
    - right. apply (wp_inv _ _ _ _ _ (mono_gone _ _ (mono_run_call c false) G) E2). }
  destruct (pushed m t); [| by apply Hrej]. injection E as <-. by apply Hacc.
Qed.

Lemma tinv_handle h0 W0 T x a r n' : tinv h0 W0 T -> consumer (t_em T) = CCall x -> fresh_for (t_net T) (an_fd a) ->
  handleEvent undef errtext x a (t_net T) = Ok (r, n') -> tinv h0 W0 (TSys (callback (t_em T) x) n').
Proof.
  intros [I S (hs & Eh & Hc)] Ec Hfr E.
  assert (Eb : backlog (t_em T) = x :: backlog (callback (t_em T) x)) by (unfold backlog; by rewrite Ec).
  assert (I' : einv (callback (t_em T) x)).
  { apply (einv_next (t_em T)); [done |]. apply (ENext ELoop). cbn [eexec]. by rewrite Ec. }
  rewrite Eb in S. apply Forall_cons in S as [Hx S].
  split; cbn [t_em t_net]; [done | done |]. exists (hs ++ [x]).
  split; [cbn; by rewrite Eh, <- app_assoc |]. destruct Hc as [L | G].
  - rewrite fmap_app, concat_app. cbn [fmap list_fmap concat]. rewrite app_nil_r, app_assoc.
    apply (held_pend (pending (t_em T))).
    + apply (wp_inv _ _ _ _ _ (live_handleEvent _ _ _ x a L ltac:(unfold pending; rewrite Eb; cbn; intros y Hy; apply elem_of_app; by left) Hx Hfr) E).
    + intros y Hy. unfold pending. rewrite Eb. cbn. apply elem_of_app. by right.
  - right. apply (wp_inv _ _ _ _ _ (mono_gone _ _ (mono_handleEvent x a) G) E).
Qed.

Lemma tinv_next h0 W0 T T' : tinv h0 W0 T -> tnext T T' -> tinv h0 W0 T'.
Proof.
  intros I N. revert I. destruct N as [a T T' Hreg E]. intros I. destruct a as [t c | t | a | g w a]; cbn [texec] in E.
  - destruct (producers (t_em T) !! t) as [[] |] eqn:Et; try done. injection E as E. eapply tinv_post; [exact I | exact Et | | exact E].
    by destruct c.
  - destruct (eexec (EStep t) (t_em T)) as [[m | f] |] eqn:Ee; try done. injection E as <-. destruct (step_quiet _ _ _ Ee). by eapply tinv_em.
  - destruct (consumer (t_em T)) as [| | x] eqn:Ec.
    1, 2: destruct (eexec ELoop (t_em T)) as [[m | f] |] eqn:Ee; try done; injection E as <-;
      destruct (loop_quiet _ _ ltac:(intros y; by rewrite Ec) Ee); by eapply tinv_em.
    injection E as E. apply bind_Ok_inv in E as ([r n'] & E1 & [= <-]). cbn [snd]. by eapply tinv_handle.
  - destruct (consumer (t_em T)) eqn:Ec; try done. injection E as E. apply bind_Ok_inv in E as ([r n'] & E1 & [= <-]). cbn [snd].
    destruct I as [Ie S (hs & Eh & Hc)]. split; cbn [t_em t_net]; [done | done |]. exists hs. split; [done |]. destruct Hc as [L | G].
    + refine (wp_inv _ _ _ _ _ (live_fire _ _ _ g w a L _) E1). unfold regular in Hreg. destruct (ev_accept a); [| done]. by eapply fresh_ne.
    + right. apply (wp_inv _ _ _ _ _ (mono_gone _ _ (mono_fire g w a) G) E1).
Qed.

Lemma tinv_reachable h0 W0 T T' : tinv h0 W0 T -> rtc tnext T T' -> tinv h0 W0 T'.
Proof. intros I R. induction R as [| T1 T2 T3 N _ IH]; [done |]. apply IH. by eapply tinv_next. Qed.
End connection.
End TcpLoop.

(** ** The message queue in the system *)
Lemma post_em {K Q} `{AeApi K} `{FifoLaws Q tcpRequest} t c (T T' : tsys (K:=K) (Q:=Q)) :
  producers (t_em T) !! t = Some PIdle -> post t c T = Ok T' -> enext (t_em T) (t_em T').
Proof.
  intros Ht E. unfold post in E. apply bind_Ok_inv in E as (r & _ & E). apply bind_Ok_inv in E as (req & _ & E).
  apply bind_Ok_inv in E as (m & Em & E). apply (ENext (EPush t req)). cbn [eexec]. rewrite Ht, Em.
  destruct (pushed m t); [by injection E as <- |]. apply bind_Ok_inv in E as (r2 & _ & E). by injection E as <-.
Qed.

Lemma tnext_em {K Q} `{AeApi K} `{FifoLaws Q tcpRequest} undef errtext (T T' : tsys (K:=K) (Q:=Q)) :
  tnext undef errtext T T' -> rtc enext (t_em T) (t_em T').
Proof.
  intros [a T1 T1' _ E]. destruct a as [t c | t | a | g w a]; cbn [texec] in E.
  - destruct (producers (t_em T1) !! t) as [[] |] eqn:Et; try done. injection E as E. apply rtc_once. by eapply post_em.
  - destruct (eexec (EStep t) (t_em T1)) as [[m | f] |] eqn:Ee; try done. injection E as <-. by apply rtc_once, (ENext (EStep t)).
  - destruct (consumer (t_em T1)) as [| | x] eqn:Ec.
    1, 2: destruct (eexec ELoop (t_em T1)) as [[m | f] |] eqn:Ee; try done; injection E as <-; by apply rtc_once, (ENext ELoop).
    injection E as E. apply bind_Ok_inv in E as (r & _ & [= <-]). apply rtc_once, (ENext ELoop). cbn [eexec]. by rewrite Ec.
  - destruct (consumer (t_em T1)); try done. injection E as E. by apply bind_Ok_inv in E as (r & _ & [= <-]).
Qed.

Lemma reachable_em {K Q} `{AeApi K} `{FifoLaws Q tcpRequest} undef errtext (T T' : tsys (K:=K) (Q:=Q)) :
  rtc (tnext undef errtext) T T' -> rtc enext (t_em T) (t_em T').
Proof. intros R. induction R as [| T1 T2 T3 N _ IH]; [done |]. etrans; [by eapply tnext_em | done]. Qed.

(** ** What a service's sends amount to *)

(** The connection of slot [i] is up and everything that is queued is in order;
    [W] has been handed to the kernel or waits. *)
Record up {K Q} `{AeApi K} `{FifoLaws Q tcpRequest} (i : nat) (id fd : Z) (W : list Z) (T : tsys (K:=K) (Q:=Q)) : Prop := {
  up_fd : 0 <= fd;
  up_em : einv (t_em T);
  up_sized : Forall sized (backlog (t_em T));
  up_live : live i id fd (closed (t_net T)) (pending (t_em T)) W (t_net T);
}.

Definition closed_since {K Q} `{AeApi K} `{FifoLaws Q tcpRequest} (fd : Z) (T0 T : tsys (K:=K) (Q:=Q)) : Prop :=
  exists l, closed (t_net T) = closed (t_net T0) ++ l /\ fd ∈ l.

Lemma up_reachable {K Q} `{AeApi K} `{FifoLaws Q tcpRequest} undef errtext i id fd W (T0 T : tsys (K:=K) (Q:=Q)) :
  up i id fd W T0 -> rtc (tnext undef errtext) T0 T ->
  sent (t_em T) = handled (t_em T) ++ backlog (t_em T) /\
  exists hs, handled (t_em T) = handled (t_em T0) ++ hs /\
    (closed_since fd T0 T \/
     live i id fd (closed (t_net T0)) (pending (t_em T)) (W ++ concat (sent_bytes id <$> hs)) (t_net T)).
Proof.
  intros [Hfd I S L] R.
  assert (I0 : tinv i id fd (closed (t_net T0)) (handled (t_em T0)) W T0).
  { split; [done | done |]. exists []. split; [by rewrite app_nil_r |]. left. by rewrite app_nil_r. }
  pose proof (tinv_reachable _ _ i id fd _ Hfd _ _ _ _ I0 R) as [I1 _ (hs & Eh & Hc)]. split; [apply (ei_order _ I1) |].
  exists hs. split; [done |]. destruct Hc as [L1 | G]; [by right | by left].
Qed.

(** C3: a service's data reaches its connection in order, whatever else goes on.
    Any number of worker threads listen, connect, start, close, send to any
    connections; the loop thread takes their requests in the order accepted and
    runs socket.c's handlers, in any interleaving, with any answers of the
    system.  At every moment a connection that is up has either been closed
    since, or what was handed to the kernel for its descriptor, followed by
    what waits in its send buffer, is exactly the bytes of the requests handled
    so far that were addressed to it, in order: nothing of another connection
    mixes in, nothing is lost or repeated.  And with a single service thread,
    once nothing moves by itself, all accepted requests are among those. *)
Theorem tcp_sends_in_order {K Q} `{AeApi K} `{FifoLaws Q tcpRequest} undef errtext i id fd W (T0 T : tsys (K:=K) (Q:=Q)) :
  up i id fd W T0 -> rtc (tnext undef errtext) T0 T ->
  sent (t_em T) = handled (t_em T) ++ backlog (t_em T) /\
  exists hs, handled (t_em T) = handled (t_em T0) ++ hs /\
    (closed_since fd T0 T \/
     exists s, sockets (t_net T) !! i = Some s /\ s_id s = id /\ s_fd s = fd /\ s_state s = kSocketConnected /\
       wire_of fd (wire (t_net T)) ++ unread (s_sendBuffer s) = W ++ concat (sent_bytes id <$> hs)) /\
    (sinv (t_em T0) -> asleep (t_em T) -> sent (t_em T) = handled (t_em T0) ++ hs).
Proof.
  intros U R. destruct (up_reachable _ _ _ _ _ _ _ _ U R) as (Hs & hs & Eh & Hc). split; [exact Hs |]. exists hs. split; [exact Eh |]. split.
  2: { intros S Ha. pose proof (reachable_em _ _ _ _ R) as Re. rewrite <- Eh. symmetry.
    apply sinv_asleep; [eapply einv_reachable | eapply sinv_reachable | exact Ha]; eauto using up_em. }
  destruct Hc as [G | L]; [by left | right]. destruct (lv_sock _ _ _ _ _ _ _ L) as (s & Es & Ei & Ef & Hst & _ & _ & EW).
  exists s. by repeat (split; [done |]).
Qed.

Lemma trun_sound {K Q} `{AeApi K} `{FifoLaws Q tcpRequest} undef errtext acts (T T' : tsys (K:=K) (Q:=Q)) :
  Forall (fun a => forall T1, regular (K:=K) (Q:=Q) a T1) acts ->
  trun undef errtext acts T = Some (Ok T') -> rtc (tnext undef errtext) T T'.
Proof.
  intros Ha. revert T. induction Ha as [| a acts Ha _ IH]; intros T E; cbn [trun] in E; [injection E as <-; apply rtc_refl |].
  destruct (texec undef errtext a T) as [[T1 | f] |] eqn:Ea; [| done | done]. eapply rtc_l; [| by apply IH]. by econstructor.
Qed.

(** Two connections, of descriptors 5 and 6, and two workers. *)
Definition ours : socket := Socket 7 HEAD_PROTO_TYPE 1 5 kSocketType kSocketConnected None None.
Definition theirs : socket := Socket 8 HEAD_PROTO_TYPE 2 6 kSocketType kSocketConnected None None.

Definition two_sockets : tsys (K:=gmap Z Z) (Q:=lfq tcpRequest) :=
  TSys (emCreate (lfCreate (Request 0 [] kTcpStop) 8) 2) (Net 3 2 [theirs; ours] (aeCreateEventLoop 16 0 ∅) [] [] []).

(** The kernel takes three bytes of a write at most. *)
Definition small_writes : answers := Answers (-1) false (fun _ => Wrote 3).

Definition writable (room : nat) : event_answer :=
  EventAnswer AcceptError ReadError (fun k => match k with O => Sent room | _ => SendAgain end) None.

(** A message to both, a close of theirs, a second message to ours, and room
    for a few bytes. *)
Definition busy_day (m1 m2 : list Z) (room : nat) : list taction :=
  [TCall 0 (CSend 7 [2; 1] (Some m1) (zlen m1)); TAccess 0; TAccess 0; TLoop small_writes; TLoop small_writes;
   TCall 1 (CClose 8 2); TLoop small_writes; TCall 0 (CSend 7 [1] (Some m2) (zlen m2)); TAccess 1; TAccess 0;
   TLoop small_writes; TLoop small_writes; TLoop small_writes; TLoop small_writes; TLoop small_writes; TFire 5 true (writable room)].

Lemma two_sockets_up : up 1 1 5 [] two_sockets.
Proof.
  split; [lia | apply einv_create; by apply lfCreate_wf | constructor |]. split.
  - exists ours. by repeat split.
  - done.
  - intros x Hx. by apply elem_of_nil in Hx.
  - intros [| [| j]] s Hj; cbn; [| done | done]. by intros [= <-].
  - intros f fe Hf Hm. exfalso. apply Hm. cbn in Hf. do 16 (destruct f as [| f]; [by injection Hf as <- |]). done.
  - by exists [].
Qed.

Lemma busy_day_regular m1 m2 room T : zlen m1 < 4294967296 -> zlen m2 < 4294967296 ->
  trun 0 (fun _ => []) (busy_day m1 m2 room) two_sockets = Some (Ok T) -> rtc (tnext 0 (fun _ => [])) two_sockets T.
Proof.
  intros H1 H2 E. apply (trun_sound _ _ (busy_day m1 m2 room)); [| exact E]. clear E. unfold busy_day.
  repeat (apply Forall_cons_2; [intros T1; cbn; first [exact I | left; reflexivity | lia] |]). apply Forall_nil_2.
Qed.

Lemma tcp_sends_in_order_witness :
  exists T, rtc (tnext 0 (fun _ => [])) two_sockets T /\ wire_of 5 (wire (t_net T)) = [1; 2; 3; 4] /\ closed (t_net T) = [6] /\
    exists s, sockets (t_net T) !! 1%nat = Some s /\ wire_of 5 (wire (t_net T)) ++ unread (s_sendBuffer s) = [1; 2; 3; 4; 5; 6; 7].
Proof.
  destruct (trun 0 (fun _ => []) (busy_day [1; 2; 3; 4; 5] [6; 7] 1) two_sockets) as [[T | f] |] eqn:E; [| by vm_compute in E | by vm_compute in E].
  pose proof (busy_day_regular [1; 2; 3; 4; 5] [6; 7] 1 T ltac:(by vm_compute) ltac:(by vm_compute) E) as R.
  assert (Hv : wire_of 5 (wire (t_net T)) = [1; 2; 3; 4] /\ closed (t_net T) = [6] /\
    concat (sent_bytes 1 <$> handled (t_em T)) = [1; 2; 3; 4; 5; 6; 7]) by (vm_compute in E; injection E as <-; by vm_compute).
  destruct Hv as (Hw & Hc & Hh). exists T. split; [exact R |]. split; [exact Hw |]. split; [exact Hc |].
  destruct (tcp_sends_in_order 0 (fun _ => []) 1 1 5 [] two_sockets T two_sockets_up R) as (_ & hs & Eh & [(l & El & Hin) | (s & Es & _ & _ & _ & EW)] & _).
  - rewrite Hc in El. cbn in El. subst l. by apply list_elem_of_singleton in Hin.
  - exists s. split; [exact Es |]. cbn in Eh. rewrite <- Eh, Hh in EW. exact EW.
Defined.
