(* ===== verification/Dict.v ===== *)
(** * dict.c: hash tables that grow by incremental rehashing

    A bucket is the list of its chain, a table the list of its buckets (NULL is
    the empty list), an entry pointer the place of the entry.  The hash function
    of the [dictType] is a parameter; keys are compared for equality and neither
    keys nor values are duplicated, as in both dictionaries of the server. *)
From S2P Require Import Prelude.

Definition DICT_OK : Z := 0.
Definition DICT_ERR : Z := 1.
Definition DICT_HT_INITIAL_SIZE : Z := 4.
Definition LONG_MAX : Z := 9223372036854775807.
Definition dict_force_resize_ratio : Z := 5.

(** ** Hash functions *)

Definition unot (x : Z) : Z := 4294967295 - x.

Definition dictIntHashFunction (key : Z) : Z :=
  let key := key +u unot (key <<u 15) in
  let key := Z.lxor key (Z.shiftr key 10) in
  let key := key +u (key <<u 3) in
  let key := Z.lxor key (Z.shiftr key 6) in
  let key := key +u unot (key <<u 11) in
  Z.lxor key (Z.shiftr key 16).

Definition murmur_m : Z := 0x5bd1e995.

(** The loop over 4-byte words, little-endian, and the tail of up to 3 bytes. *)
Fixpoint murmur (data : list Z) (h : Z) : Z :=
  match data with
  | b0 :: b1 :: b2 :: b3 :: data =>
    let k := u32 ((b0 + Z.shiftl b1 8 + Z.shiftl b2 16 + Z.shiftl b3 24) * murmur_m) in
    let k := u32 (Z.lxor k (Z.shiftr k 24) * murmur_m) in
    murmur data (Z.lxor (u32 (h * murmur_m)) k)
  | [b0; b1; b2] => u32 (Z.lxor (Z.lxor (Z.lxor h (Z.shiftl b2 16)) (Z.shiftl b1 8)) b0 * murmur_m)
  | [b0; b1] => u32 (Z.lxor (Z.lxor h (Z.shiftl b1 8)) b0 * murmur_m)
  | [b0] => u32 (Z.lxor h b0 * murmur_m)
  | [] => h
  end.

Definition dictGenHashFunction (seed : Z) (key : list Z) : Z :=
  let h := murmur key (Z.lxor seed (u32 (zlen key))) in
  let h := Z.lxor h (Z.shiftr h 13) in
  let h := u32 (h * murmur_m) in
  Z.lxor h (Z.shiftr h 15).

Definition tolower (c : Z) : Z := if (65 <=? c) && (c <=? 90) then c + 32 else c.

Definition dictGenCaseHashFunction (seed : Z) (buf : list Z) : Z :=
  foldl (fun hash c => u32 ((hash <<u 5) + hash + tolower c)) seed buf.

(** ** Tables *)

Section Dict.
  Context {K V : Type} `{EqDecision K}.
  (** [hashFunction]; what [zmalloc] leaves in a fresh entry; [dict_can_resize]. *)
  Variables (hash : K -> Z) (junk : V) (can_resize : bool).

Record dictht := Ht {
  table : list (list (K * V));
  size : Z;
  sizemask : Z;
  used : Z;
}.

Record dict := Dict {
  ht0 : dictht;
  ht1 : dictht;
  rehashidx : Z;
  iterators : Z;
}.

(** A [dictEntry] pointer: table, bucket, position in the chain. *)
Record dictEntry := Entry { e_table : bool; e_idx : Z; e_pos : nat }.

Definition _dictReset : dictht := Ht [] 0 0 0.
Definition _dictInit : dict := Dict _dictReset _dictReset (-1) 0.
Definition dictCreate : dict := _dictInit.

Definition dictIsRehashing (d : dict) : bool := negb (rehashidx d =? -1).
Definition dictSlots (d : dict) : Z := size (ht0 d) + size (ht1 d).
Definition dictSize (d : dict) : Z := used (ht0 d) + used (ht1 d).
Definition ht (d : dict) (t : bool) : dictht := if t then ht1 d else ht0 d.
Definition set_ht (d : dict) (t : bool) (h : dictht) : dict :=
  if t then Dict (ht0 d) h (rehashidx d) (iterators d) else Dict h (ht1 d) (rehashidx d) (iterators d).

(** The loop of [_dictNextPower]; 64 doublings wrap [i] to 0. *)
Fixpoint next_power (fuel : nat) (i sz : Z) : outcome Z :=
  match fuel with
  | O => Fault OutOfFuel
  | S fuel => if i >=? sz then Ok i else next_power fuel (u64 (i * 2)) sz
  end.

Definition _dictNextPower (sz : Z) : outcome Z :=
  if sz >=? LONG_MAX then Ok LONG_MAX else next_power 64 DICT_HT_INITIAL_SIZE sz.

Definition dictExpand (d : dict) (sz : Z) : outcome (Z * dict) :=
  realsize ← _dictNextPower sz;
  if dictIsRehashing d || (used (ht0 d) >? sz) then mret (DICT_ERR, d)
  else
    let n := Ht (replicate (Z.to_nat realsize) []) realsize (realsize - 1) 0 in
    match table (ht0 d) with
    | [] => mret (DICT_OK, Dict n (ht1 d) (rehashidx d) (iterators d))
    | _ => mret (DICT_OK, Dict (ht0 d) n 0 (iterators d))
    end.

Definition dictResize (d : dict) : outcome (Z * dict) :=
  if negb can_resize || dictIsRehashing d then mret (DICT_ERR, d)
  else
    let minimal := i32 (used (ht0 d)) in
    let minimal := if minimal <? DICT_HT_INITIAL_SIZE then DICT_HT_INITIAL_SIZE else minimal in
    dictExpand d (u64 minimal).

(** The first bucket with entries from [idx] on; [tbl] holds the buckets left. *)
Fixpoint skip_empty (tbl : list (list (K * V))) (idx : Z) : outcome (Z * list (K * V)) :=
  match tbl with
  | [] => Fault OutOfBounds
  | [] :: tbl => skip_empty tbl (idx + 1)
  | de :: _ => Ok (idx, de)
  end.

(** A new entry at the head of a chain. *)
Definition ht_cons (h : dictht) (i : Z) (e : K * V) : outcome dictht :=
  chain ← aget (table h) i;
  tbl ← aset (table h) i (e :: chain);
  mret (Ht tbl (size h) (sizemask h) (used h + 1)).

(** The entries of one bucket go to the second table. *)
Fixpoint move_bucket (de : list (K * V)) (h0 h1 : dictht) : outcome (dictht * dictht) :=
  match de with
  | [] => mret (h0, h1)
  | (k, v) :: de =>
    h1 ← ht_cons h1 (Z.land (hash k) (sizemask h1)) (k, v);
    move_bucket de (Ht (table h0) (size h0) (sizemask h0) (used h0 - 1)) h1
  end.

(** [n] turns of [dictRehash]. *)
Fixpoint rehash_turns (n : nat) (d : dict) : outcome (Z * dict) :=
  match n with
  | O => mret (1, d)
  | S n =>
    if used (ht0 d) =? 0 then mret (0, Dict (ht1 d) _dictReset (-1) (iterators d))
    else
      _ ← c_assert (size (ht0 d) >? u32 (rehashidx d));
      '(idx, de) ← skip_empty (drop (Z.to_nat (rehashidx d)) (table (ht0 d))) (rehashidx d);
      '(h0, h1) ← move_bucket de (ht0 d) (ht1 d);
      tbl ← aset (table h0) idx [];
      rehash_turns n (Dict (Ht tbl (size h0) (sizemask h0) (used h0)) h1 (idx + 1) (iterators d))
  end.

Definition dictRehash (d : dict) (n : nat) : outcome (Z * dict) :=
  if negb (dictIsRehashing d) then mret (0, d) else rehash_turns n d.

Definition _dictRehashStep (d : dict) : outcome dict :=
  if iterators d =? 0 then '(_, d) ← dictRehash d 1; mret d else mret d.

Definition rehash_step_if (d : dict) : outcome dict :=
  if dictIsRehashing d then _dictRehashStep d else mret d.

Definition _dictExpandIfNeeded (d : dict) : outcome (Z * dict) :=
  if dictIsRehashing d then mret (DICT_OK, d)
  else if size (ht0 d) =? 0 then dictExpand d DICT_HT_INITIAL_SIZE
  else if (used (ht0 d) >=? size (ht0 d)) &&
          (can_resize || (used (ht0 d) / size (ht0 d) >? dict_force_resize_ratio)) then
    dictExpand d (u64 (used (ht0 d) * 2))
  else mret (DICT_OK, d).

(** The position of a key in a chain. *)
Fixpoint find_pos (key : K) (he : list (K * V)) : option nat :=
  match he with
  | [] => None
  | (k, _) :: he => if decide (key = k) then Some O else S <$> find_pos key he
  end.

(** The search of one table: the bucket and the position in it. *)
Definition ht_search (h : dictht) (key : K) : outcome (Z * option nat) :=
  let idx := Z.land (hash key) (sizemask h) in
  he ← aget (table h) idx;
  mret (idx, find_pos key he).

Definition _dictKeyIndex (d : dict) (key : K) : outcome (Z * dict) :=
  '(r, d) ← _dictExpandIfNeeded d;
  if r =? DICT_ERR then mret (-1, d)
  else
    '(idx, p) ← ht_search (ht0 d) key;
    match p with
    | Some _ => mret (-1, d)
    | None =>
      if negb (dictIsRehashing d) then mret (i32 idx, d)
      else
        '(idx, p) ← ht_search (ht1 d) key;
        match p with Some _ => mret (-1, d) | None => mret (i32 idx, d) end
    end.

Definition dictAddRaw (d : dict) (key : K) : outcome (option dictEntry * dict) :=
  d ← rehash_step_if d;
  '(index, d) ← _dictKeyIndex d key;
  if index =? -1 then mret (None, d)
  else
    let t := dictIsRehashing d in
    h ← ht_cons (ht d t) index (key, junk);
    mret (Some (Entry t index 0), set_ht d t h).

Definition dictGetVal (d : dict) (e : dictEntry) : outcome V :=
  he ← aget (table (ht d (e_table e))) (e_idx e);
  '(_, v) ← deref (he !! e_pos e);
  mret v.

Definition dictSetVal (d : dict) (e : dictEntry) (v : V) : outcome dict :=
  let h := ht d (e_table e) in
  he ← aget (table h) (e_idx e);
  '(k, _) ← deref (he !! e_pos e);
  tbl ← aset (table h) (e_idx e) (<[e_pos e := (k, v)]> he);
  mret (set_ht d (e_table e) (Ht tbl (size h) (sizemask h) (used h))).

Definition dictAdd (d : dict) (key : K) (v : V) : outcome (Z * dict) :=
  '(entry, d) ← dictAddRaw d key;
  match entry with
  | None => mret (DICT_ERR, d)
  | Some e => d ← dictSetVal d e v; mret (DICT_OK, d)
  end.

Definition dictFind (d : dict) (key : K) : outcome (option dictEntry * dict) :=
  if size (ht0 d) =? 0 then mret (None, d)
  else
    d ← rehash_step_if d;
    '(idx, p) ← ht_search (ht0 d) key;
    match p with
    | Some p => mret (Some (Entry false idx p), d)
    | None =>
      if negb (dictIsRehashing d) then mret (None, d)
      else
        '(idx, p) ← ht_search (ht1 d) key;
        mret (Entry true idx <$> p, d)
    end.

Definition dictFetchValue (d : dict) (key : K) : outcome (option V * dict) :=
  '(he, d) ← dictFind d key;
  match he with
  | None => mret (None, d)
  | Some e => v ← dictGetVal d e; mret (Some v, d)
  end.

(** The old value is the one [dictFreeVal] frees. *)
Definition dictReplace (d : dict) (key : K) (v : V) : outcome (Z * option V * dict) :=
  '(r, d) ← dictAdd d key v;
  if r =? DICT_OK then mret (1, None, d)
  else
    '(entry, d) ← dictFind d key;
    e ← deref entry;
    old ← dictGetVal d e;
    d ← dictSetVal d e v;
    mret (0, Some old, d).

Definition dictReplaceRaw (d : dict) (key : K) : outcome (option dictEntry * dict) :=
  '(entry, d) ← dictFind d key;
  match entry with Some e => mret (Some e, d) | None => dictAddRaw d key end.

(** Unlink the entry at a position. *)
Definition ht_unlink (h : dictht) (idx : Z) (p : nat) : outcome ((K * V) * dictht) :=
  he ← aget (table h) idx;
  e ← deref (he !! p);
  tbl ← aset (table h) idx (delete p he);
  mret (e, Ht tbl (size h) (sizemask h) (used h - 1)).

(** With the entry whose key and value are given to the destructors. *)
Definition dictGenericDelete (d : dict) (key : K) (nofree : bool) : outcome (Z * option (K * V) * dict) :=
  if size (ht0 d) =? 0 then mret (DICT_ERR, None, d)
  else
    d ← rehash_step_if d;
    '(idx, p) ← ht_search (ht0 d) key;
    match p with
    | Some p =>
      '(e, h) ← ht_unlink (ht0 d) idx p;
      mret (DICT_OK, if nofree then None else Some e, set_ht d false h)
    | None =>
      if negb (dictIsRehashing d) then mret (DICT_ERR, None, d)
      else
        '(idx, p) ← ht_search (ht1 d) key;
        match p with
        | Some p =>
          '(e, h) ← ht_unlink (ht1 d) idx p;
          mret (DICT_OK, if nofree then None else Some e, set_ht d true h)
        | None => mret (DICT_ERR, None, d)
        end
    end.

Definition dictDelete (d : dict) (key : K) := dictGenericDelete d key false.
Definition dictDeleteNoFree (d : dict) (key : K) := dictGenericDelete d key true.

(** The entries the loop of [_dictClear] frees: it stops when [used] is 0. *)
Fixpoint clear_buckets (tbl : list (list (K * V))) (used : Z) : list (K * V) :=
  match tbl with
  | [] => []
  | he :: tbl => if used >? 0 then he ++ clear_buckets tbl (used - zlen he) else []
  end.

Definition _dictClear (h : dictht) : list (K * V) * dictht :=
  (clear_buckets (table h) (used h), _dictReset).

(** [dictRelease], with what it frees. *)
Definition dictRelease (d : dict) : list (K * V) := (_dictClear (ht0 d)).1 ++ (_dictClear (ht1 d)).1.

Definition dictEmpty (d : dict) : list (K * V) * dict :=
  let c0 := _dictClear (ht0 d) in
  let c1 := _dictClear (ht1 d) in
  (c0.1 ++ c1.1, Dict c0.2 c1.2 (-1) 0).

(** ** Rehashing for a time, random keys, scans *)

(** [dictRehashMilliseconds]: [late n] tells whether the time is up after [n]
    batches of 100 turns. *)
Fixpoint rehash_batches (fuel : nat) (n : Z) (late : Z -> bool) (d : dict) : outcome (Z * dict) :=
  match fuel with
  | O => Fault OutOfFuel
  | S fuel =>
    '(more, d) ← dictRehash d 100;
    if more =? 0 then mret (n * 100, d)
    else if late (n + 1) then mret ((n + 1) * 100, d)
    else rehash_batches fuel (n + 1) late d
  end.

Definition dictRehashMilliseconds (fuel : nat) (late : Z -> bool) (d : dict) : outcome (Z * dict) :=
  rehash_batches fuel 0 late d.

(** A random non-empty bucket; [r n] is the [n]-th result of [random()]. *)
Fixpoint random_bucket (fuel n : nat) (r : nat -> Z) (d : dict) : outcome (nat * list (K * V)) :=
  match fuel with
  | O => Fault OutOfFuel
  | S fuel =>
    he ← (if dictIsRehashing d then
            let h := u32 (r n mod (size (ht0 d) + size (ht1 d))) in
            if h >=? size (ht0 d) then aget (table (ht1 d)) (h - size (ht0 d)) else aget (table (ht0 d)) h
          else aget (table (ht0 d)) (u32 (Z.land (r n) (sizemask (ht0 d)))));
    match he with [] => random_bucket fuel (n + 1) r d | _ => mret ((n + 1)%nat, he) end
  end.

Definition dictGetRandomKey (fuel : nat) (r : nat -> Z) (d : dict) : outcome (option (K * V) * dict) :=
  if dictSize d =? 0 then mret (None, d)
  else
    d ← rehash_step_if d;
    '(n, he) ← random_bucket fuel 0 r d;
    e ← deref (he !! Z.to_nat (r n mod zlen he));
    mret (Some e, d).

(** The bits of a 64-bit word, last first: five halvings and a swap each. *)
Definition rev_step (s : Z) (vm : Z * Z) : Z * Z :=
  let mask := Z.lxor vm.2 (u64 (Z.shiftl vm.2 s)) in
  let nmask := 18446744073709551615 - mask in
  (Z.lor (Z.land (Z.shiftr vm.1 s) mask) (Z.land (u64 (Z.shiftl vm.1 s)) nmask), mask).

Definition rev (v : Z) : Z :=
  (foldl (fun vm s => rev_step s vm) (v, 18446744073709551615) [32; 16; 8; 4; 2; 1]).1.

Definition not64 (x : Z) : Z := 18446744073709551615 - x.

(** The loop over the expansions of the cursor in the larger table. *)
Fixpoint scan_larger (fuel : nat) (t1 : dictht) (m0 m1 v : Z) : outcome (list (K * V) * Z) :=
  match fuel with
  | O => Fault OutOfFuel
  | S fuel =>
    de ← aget (table t1) (Z.land v m1);
    let v := Z.lor (Z.land (u64 (Z.lor v m0 + 1)) (not64 m0)) (Z.land v m0) in
    if Z.land v (Z.lxor m0 m1) =? 0 then mret (de, v)
    else '(es, v) ← scan_larger fuel t1 m0 m1 v; mret (de ++ es, v)
  end.

(** [dictScan], with the entries passed to [fn]. *)
Definition dictScan (fuel : nat) (d : dict) (v : Z) : outcome (list (K * V) * Z) :=
  if dictSize d =? 0 then mret ([], 0)
  else
    let swap := size (ht0 d) >? size (ht1 d) in
    let t0 := if dictIsRehashing d && swap then ht1 d else ht0 d in
    let t1 := if swap then ht0 d else ht1 d in
    let m0 := sizemask t0 in
    de ← aget (table t0) (Z.land v m0);
    '(es, v) ← (if negb (dictIsRehashing d) then mret ([], v)
                else scan_larger fuel t1 m0 (sizemask t1) v);
    let v := Z.lor v (not64 m0) in
    mret (de ++ es, rev (u64 (rev v + 1))).
End Dict.
Arguments dictht : clear implicits.
Arguments dict : clear implicits.

(** ** Chains *)

Section chains.
  Context {K V : Type} `{EqDecision K}.
  Implicit Types he : list (K * V).

Lemma find_pos_Some key he p : find_pos key he = Some p -> exists v, he !! p = Some (key, v).
Proof.
  revert p. induction he as [| [k v] he IH]; intros p E; [done |]. cbn in E.
  destruct (decide (key = k)) as [-> | Hne]; [injection E as <-; by exists v |].
  destruct (find_pos key he) as [p0 |]; [| done]. injection E as <-. by apply IH.
Qed.

Lemma find_pos_None key he : find_pos key he = None -> key ∉ he.*1.
Proof.
  induction he as [| [k v] he IH]; cbn; intros E; [apply not_elem_of_nil |].
  destruct (decide (key = k)) as [-> | Hne]; [done |]. apply not_elem_of_cons. split; [done |].
  apply IH. by destruct (find_pos key he).
Qed.

Lemma insert_Permutation he p e e' : he !! p = Some e -> <[p := e']> he ≡ₚ e' :: delete p he.
Proof.
  intros E. pose proof (lookup_lt_Some _ _ _ E). rewrite insert_take_drop by done.
  rewrite delete_take_drop. by rewrite Permutation_middle.
Qed.

Lemma concat_split {A} (t : list (list A)) i b :
  t !! i = Some b -> exists rest, concat t ≡ₚ b ++ rest /\ forall b', concat (<[i := b']> t) ≡ₚ b' ++ rest.
Proof.
  intros E. exists (concat (take i t) ++ concat (drop (S i) t)). split.
  - rewrite <- (take_drop_middle t i b E) at 1. rewrite concat_app. cbn.
    rewrite !(app_assoc _ b), (Permutation_app_comm (concat _) b). by rewrite <- app_assoc.
  - intros b'. rewrite insert_take_drop by (by eapply lookup_lt_Some). rewrite concat_app. cbn.
    rewrite !(app_assoc _ b'), (Permutation_app_comm (concat _) b'). by rewrite <- app_assoc.
Qed.

Lemma skip_empty_spec (t : list (list (K * V))) : forall i0,
  concat t <> [] -> exists j b, skip_empty t (Z.of_nat i0) = Ok (Z.of_nat (i0 + j), b) /\ b <> [] /\
    t !! j = Some b /\ forall i, (i < j)%nat -> t !! i = Some [].
Proof.
  induction t as [| [| e b] t IH]; intros i0 Hne; [done | |].
  - cbn [skip_empty]. destruct (IH (S i0) Hne) as (j & b & E & Hb & Ej & Hi).
    exists (S j), b. replace (Z.of_nat i0 + 1) with (Z.of_nat (S i0)) by lia. rewrite E.
    split; [do 2 f_equal; lia |]. split; [done |]. split; [done |].
    intros [| i] Hlt; [done |]. apply Hi. lia.
  - exists 0%nat, (e :: b). cbn. rewrite Nat.add_0_r. split; [done |]. split; [done |]. split; [done |]. lia.
Qed.
End chains.

(** ** Well-formed tables *)

Section tables.
  Context {K V : Type} `{Countable K}.
  Variables (hash : K -> Z) (junk : V) (can_resize : bool).
  Implicit Types h : dictht K V.
  Implicit Types d : dict K V.

Definition ents h : list (K * V) := concat (table h).
Definition entries d : list (K * V) := ents (ht0 d) ++ ents (ht1 d).

(** The map a dictionary stands for. *)
Definition abs d : gmap K V := list_to_map (entries d).

Record htwf h : Prop := {
  hw_len : zlen (table h) = size h;
  hw_size : h = _dictReset \/ exists k, 2 <= k <= 30 /\ size h = 2 ^ k /\ sizemask h = size h - 1;
  hw_used : used h = zlen (ents h);
  hw_slot : forall i b k v, table h !! i = Some b -> (k, v) ∈ b -> Z.land (hash k) (sizemask h) = Z.of_nat i;
}.

Record dwf d : Prop := {
  dw_0 : htwf (ht0 d);
  dw_1 : htwf (ht1 d);
  dw_nodup : NoDup (entries d).*1;
  dw_idle : rehashidx d = -1 -> ht1 d = _dictReset;
  dw_busy : rehashidx d <> -1 -> 0 <= rehashidx d <= size (ht0 d) /\ 0 < size (ht0 d) /\ 0 < size (ht1 d) /\
    forall i, Z.of_nat i < rehashidx d -> table (ht0 d) !! i = Some [];
}.

Lemma reset_wf : htwf _dictReset.
Proof. split; [done | by left | done | done]. Qed.

Lemma htwf_max h : htwf h -> 0 <= size h <= 1073741824.
Proof.
  intros W. destruct (hw_size _ W) as [-> | (n & Hn & -> & _)]; [done |]. change 1073741824 with (2 ^ 30).
  split; [lia |]. apply Z.pow_le_mono_r; lia.
Qed.

Lemma slot_range h k : htwf h -> 0 < size h -> 0 <= Z.land (hash k) (sizemask h) < size h.
Proof.
  intros W Hs. destruct (hw_size _ W) as [-> | (n & Hn & -> & ->)]; [done |].
  rewrite Z.sub_1_r, <- Z.ones_equiv, Z.land_ones by lia.
  apply Z.mod_pos_bound. lia.
Qed.

Lemma ents_lookup h k v : (k, v) ∈ ents h -> exists i b, table h !! i = Some b /\ (k, v) ∈ b.
Proof.
  unfold ents. intros Hin. apply list_elem_of_In, in_concat in Hin as (b & Hb & Hin).
  apply list_elem_of_In, list_elem_of_lookup in Hb as [i Hi]. exists i, b. split; [done |]. by apply list_elem_of_In.
Qed.

Lemma ht_search_spec h key :
  htwf h -> 0 < size h -> exists i p, ht_search hash h key = Ok (Z.of_nat i, p) /\
    Z.of_nat i = Z.land (hash key) (sizemask h) /\
    match p with
    | Some p => exists b v, table h !! i = Some b /\ b !! p = Some (key, v)
    | None => key ∉ (ents h).*1
    end.
Proof.
  intros W Hs. pose proof (slot_range h key W Hs) as Hr. unfold ht_search.
  destruct (aget_is_Ok (table h) (Z.land (hash key) (sizemask h))) as (b & Eb & Eg); [by rewrite (hw_len _ W) |].
  rewrite Eg, bind_Ok. exists (Z.to_nat (Z.land (hash key) (sizemask h))), (find_pos key b).
  rewrite Z2Nat.id by lia. split; [done |]. split; [done |]. destruct (find_pos key b) as [p |] eqn:Ep.
  - destruct (find_pos_Some _ _ _ Ep) as [v Ev]. by exists b, v.
  - apply find_pos_None in Ep. intros Hin. apply Ep. apply list_elem_of_fmap in Hin as ([k v] & -> & Hin).
    destruct (ents_lookup _ _ _ Hin) as (i & b' & Eb' & Hin'). cbn in *.
    pose proof (hw_slot _ W _ _ _ _ Eb' Hin') as Ei. rewrite Ei, Nat2Z.id in Eb. simplify_eq.
    apply list_elem_of_fmap. by exists (k, v).
Qed.

(** Replacing a bucket. *)
Lemma htwf_bucket h i b b' :
  htwf h -> table h !! i = Some b ->
  (forall k v, (k, v) ∈ b' -> Z.land (hash k) (sizemask h) = Z.of_nat i) ->
  exists rest, ents h ≡ₚ b ++ rest /\
    let h' := Ht (<[i := b']> (table h)) (size h) (sizemask h) (used h - zlen b + zlen b') in
    htwf h' /\ ents h' ≡ₚ b' ++ rest.
Proof.
  intros W E Hb'. destruct (concat_split _ _ _ E) as (rest & E1 & E2). exists rest. split; [done |]. cbn.
  assert (Hs : 0 < size h).
  { rewrite <- (hw_len _ W). apply lookup_lt_Some in E. unfold zlen. lia. }
  split; [| by apply E2]. split; cbn.
  - rewrite zlen_insert. apply hw_len, W.
  - right. destruct (hw_size _ W) as [Er | Hk]; [by rewrite Er in Hs | done].
  - pose proof (hw_used _ W) as Hu. unfold ents, zlen in *. cbn in *. rewrite E1 in Hu. rewrite (E2 b').
    rewrite length_app in *. lia.
  - intros j c k v [(<- & <- & _) | [_ Ec]]%list_lookup_insert_Some Hin; [by eapply Hb' | by eapply hw_slot].
Qed.

Lemma ht_cons_spec h k v :
  htwf h -> 0 < size h -> exists h', ht_cons h (Z.land (hash k) (sizemask h)) (k, v) = Ok h' /\ htwf h' /\
    ents h' ≡ₚ (k, v) :: ents h /\ size h' = size h /\ sizemask h' = sizemask h /\
    exists b, table h' !! Z.to_nat (Z.land (hash k) (sizemask h)) = Some ((k, v) :: b).
Proof.
  intros W Hs. pose proof (slot_range h k W Hs) as Hr. unfold ht_cons.
  destruct (aget_is_Ok (table h) (Z.land (hash k) (sizemask h))) as (b & Eb & Eg); [by rewrite (hw_len _ W) |].
  rewrite Eg, bind_Ok, aset_Ok, bind_Ok by (by rewrite (hw_len _ W)).
  destruct (htwf_bucket h _ b ((k, v) :: b) W Eb) as (rest & E1 & W' & E2).
  { intros k' v' [[= -> ->] | Hin]%elem_of_cons; [lia |]. by eapply hw_slot. }
  replace (used h - zlen b + zlen ((k, v) :: b)) with (used h + 1) in * by (rewrite zlen_cons; lia).
  eexists. split; [reflexivity |]. split; [exact W' |]. split; [by rewrite E2, E1 |]. split; [done |]. split; [done |].
  exists b. cbn. apply list_lookup_insert_eq. by apply lookup_lt_Some in Eb.
Qed.

Lemma move_bucket_spec de : forall h0 h1,
  htwf h1 -> 0 < size h1 -> exists h1',
    move_bucket hash de h0 h1 = Ok (Ht (table h0) (size h0) (sizemask h0) (used h0 - zlen de), h1') /\
    htwf h1' /\ ents h1' ≡ₚ de ++ ents h1 /\ size h1' = size h1.
Proof.
  induction de as [| [k v] de IH]; intros h0 h1 W Hs; cbn [move_bucket].
  - exists h1. change (zlen []) with 0. rewrite Z.sub_0_r. by destruct h0.
  - destruct (ht_cons_spec h1 k v W Hs) as (h2 & E & W2 & P2 & S2 & _). rewrite E, bind_Ok.
    destruct (IH (Ht (table h0) (size h0) (sizemask h0) (used h0 - 1)) h2 W2 ltac:(lia)) as (h3 & E3 & W3 & P3 & S3).
    rewrite E3. cbn. exists h3. rewrite zlen_cons. split; [by replace (used h0 - (1 + zlen de)) with (used h0 - 1 - zlen de) by lia |].
    split; [done |]. split; [| by rewrite S3]. rewrite P3, P2. by rewrite <- Permutation_middle.
Qed.

(** ** Rehashing *)

Lemma in_ents_lookup h i b : table h !! i = Some b -> b <> [] -> ents h <> [].
Proof.
  intros E Hb Hn. destruct (concat_split _ _ _ E) as (rest & E1 & _). unfold ents in Hn. rewrite Hn in E1.
  apply Permutation_nil_l in E1. by destruct b.
Qed.

(** What rehashing and growing leave alone. *)
Record keeps d d' : Prop := {
  kp_wf : dwf d';
  kp_perm : entries d' ≡ₚ entries d;
  kp_iter : iterators d' = iterators d;
  kp_size : 0 < size (ht0 d) -> 0 < size (ht0 d');
}.

Lemma keeps_refl d : dwf d -> keeps d d.
Proof. by split. Qed.

Lemma keeps_trans d1 d2 d3 : keeps d1 d2 -> keeps d2 d3 -> keeps d1 d3.
Proof.
  intros [] []. split; [done | by etrans | congruence | auto].
Qed.

Lemma dwf_perm d d' : NoDup (entries d).*1 -> entries d' ≡ₚ entries d -> NoDup (entries d').*1.
Proof. by intros N ->. Qed.

(** One bucket is moved. *)
Lemma rehash_turn d n :
  dwf d -> rehashidx d <> -1 -> used (ht0 d) <> 0 ->
  exists d', rehash_turns hash (S n) d = rehash_turns hash n d' /\ keeps d d' /\ rehashidx d' <> -1 /\
    used (ht0 d') < used (ht0 d).
Proof.
  intros D Hr Hu. destruct (dw_busy _ D Hr) as (Hi & Hs0 & Hs1 & Hbelow).
  pose proof (dw_0 _ D) as W0. pose proof (dw_1 _ D) as W1.
  assert (Hne : concat (drop (Z.to_nat (rehashidx d)) (table (ht0 d))) <> []).
  { intros Hn. apply Hu. rewrite (hw_used _ W0). unfold ents.
    rewrite <- (take_drop (Z.to_nat (rehashidx d)) (table (ht0 d))), concat_app, Hn, app_nil_r.
    assert (Ht : concat (take (Z.to_nat (rehashidx d)) (table (ht0 d))) = []); [| by rewrite Ht].
    apply concat_nil_Forall, Forall_lookup. intros i b. rewrite lookup_take_Some. intros [E Hlt].
    rewrite Hbelow in E by lia. by injection E as <-. }
  destruct (skip_empty_spec _ (Z.to_nat (rehashidx d)) Hne) as (j & de & Es & Hde & Ej & Hskip).
  rewrite lookup_drop in Ej. set (idx := (Z.to_nat (rehashidx d) + j)%nat) in *.
  pose proof (lookup_lt_Some _ _ _ Ej) as Hlt. assert (Hidx : Z.of_nat idx < size (ht0 d)).
  { rewrite <- (hw_len _ W0). unfold zlen. lia. }
  pose proof (htwf_max _ W0) as Hmax.
  cbn [rehash_turns]. destruct (Z.eqb_spec (used (ht0 d)) 0) as [| _]; [done |].
  rewrite u32_small by lia. assert (Hg : (size (ht0 d) >? rehashidx d) = true) by lia.
  rewrite Hg. cbn [c_assert]. rewrite bind_Ok. rewrite Z2Nat.id in Es by lia. rewrite Es, bind_Ok.
  destruct (move_bucket_spec de (ht0 d) (ht1 d) W1 Hs1) as (h1 & Em & W1' & P1 & S1). rewrite Em, bind_Ok.
  fold idx. cbn [table size sizemask used]. rewrite aset_Ok by (unfold zlen; lia). rewrite bind_Ok, Nat2Z.id.
  destruct (htwf_bucket (ht0 d) idx de [] W0 Ej) as (rest & E1 & W0' & E2).
  { by intros k v ?%not_elem_of_nil. }
  change (zlen []) with 0 in *. rewrite Z.add_0_r in *.
  eexists. split; [reflexivity |]. split; [| split; [cbn; lia |]].
  - assert (Pm : entries (Dict (Ht (<[idx := []]> (table (ht0 d))) (size (ht0 d)) (sizemask (ht0 d)) (used (ht0 d) - zlen de))
      h1 (Z.of_nat idx + 1) (iterators d)) ≡ₚ entries d).
    { unfold entries. cbn [ht0 ht1]. rewrite E2, P1, E1. cbn. rewrite !app_assoc. f_equiv. by rewrite Permutation_app_comm. }
    split; [| done | done | done]. split; cbn [ht0 ht1 rehashidx].
    + done.
    + done.
    + eapply dwf_perm; [apply (dw_nodup _ D) | done].
    + lia.
    + intros _. cbn [size table]. split; [lia |]. split; [done |]. split; [lia |]. intros i Hlt'.
      destruct (decide (i = idx)) as [-> | Hne']; [by apply list_lookup_insert_eq |].
      rewrite list_lookup_insert_ne by done. destruct (decide (Z.of_nat i < rehashidx d)); [by apply Hbelow |].
      replace i with (Z.to_nat (rehashidx d) + (i - Z.to_nat (rehashidx d)))%nat by lia.
      rewrite <- lookup_drop. apply Hskip. lia.
  - cbn. assert (0 < zlen de); [| lia]. destruct de; [done |]. rewrite zlen_cons. pose proof (zlen_nonneg de). lia.
Qed.

Lemma rehash_turns_spec n : forall d,
  dwf d -> rehashidx d <> -1 -> exists r d', rehash_turns hash n d = Ok (r, d') /\ keeps d d' /\
    (r = 0 \/ r = 1) /\ (r = 0 <-> rehashidx d' = -1) /\ (used (ht0 d) < Z.of_nat n -> r = 0).
Proof.
  induction n as [| n IH]; intros d D Hr.
  - exists 1, d. pose proof (hw_used _ (dw_0 _ D)) as Hu. pose proof (zlen_nonneg (ents (ht0 d))).
    split; [done |]. split; [by apply keeps_refl |]. split; [by right |]. split; lia.
  - destruct (Z.eq_dec (used (ht0 d)) 0) as [Hu | Hu].
    + cbn [rehash_turns]. rewrite Hu. cbn [Z.eqb].
      destruct (dw_busy _ D Hr) as (Hi & Hs0 & Hs1 & Hb).
      assert (He : ents (ht0 d) = []).
      { pose proof (hw_used _ (dw_0 _ D)) as E. rewrite Hu in E. destruct (ents (ht0 d)); [done |].
        rewrite zlen_cons in E. pose proof (zlen_nonneg l). lia. }
      exists 0, (Dict (ht1 d) _dictReset (-1) (iterators d)). split; [done |]. split; [| cbn; lia].
      assert (Ee : entries (Dict (ht1 d) _dictReset (-1) (iterators d)) = entries d).
      { unfold entries. cbn [ht0 ht1]. rewrite He. cbn. apply app_nil_r. }
      split; [| by rewrite Ee | done | done].
      split; cbn [ht0 ht1 rehashidx]; [apply D | apply reset_wf | rewrite Ee; apply D | done | done].
    + destruct (rehash_turn d n D Hr Hu) as (d1 & E & Kp & Hr1 & Hlt). rewrite E.
      destruct (IH d1 (kp_wf _ _ Kp) Hr1) as (r & d2 & E2 & K2 & H01 & Hiff & Hdone).
      exists r, d2. split; [done |]. split; [by eapply keeps_trans |]. split; [done |]. split; [done |].
      intros Hn. apply Hdone. lia.
Qed.

Lemma rehash_step_if_spec d : dwf d -> exists d', rehash_step_if hash d = Ok d' /\ keeps d d'.
Proof.
  intros D. unfold rehash_step_if, dictIsRehashing. destruct (Z.eqb_spec (rehashidx d) (-1)) as [E | E];
    cbn [negb]; [exists d; split; [done | by apply keeps_refl] |].
  unfold _dictRehashStep, dictRehash, dictIsRehashing. destruct (Z.eqb_spec (iterators d) 0);
    [| exists d; split; [done | by apply keeps_refl]].
  destruct (Z.eqb_spec (rehashidx d) (-1)); [done |]. cbn [negb].
  destruct (rehash_turns_spec 1 d D E) as (r & d' & Er & Kp & _). rewrite Er. by exists d'.
Qed.

(** ** Growing *)

Lemma next_power_spec fuel : forall k sz,
  2 <= k -> 0 <= sz <= 1073741824 -> 2 ^ k <= 1073741824 -> 32 <= k + Z.of_nat fuel ->
  exists n, k <= n <= 30 /\ next_power fuel (2 ^ k) sz = Ok (2 ^ n) /\ sz <= 2 ^ n.
Proof.
  induction fuel as [| fuel IH]; intros k sz Hk Hsz Hp Hf.
  - assert (2 ^ 32 <= 2 ^ k) by (apply Z.pow_le_mono_r; lia). lia.
  - assert (Hk30 : k <= 30).
    { destruct (Z.le_gt_cases k 30); [done |]. assert (2 ^ 31 <= 2 ^ k) by (apply Z.pow_le_mono_r; lia). lia. }
    cbn [next_power]. destruct (Z.geb_spec (2 ^ k) sz) as [Hge | Hlt].
    + exists k. split; [lia |]. split; [done | lia].
    + assert (E : u64 (2 ^ k * 2) = 2 ^ (k + 1)) by (rewrite Z.pow_add_r, u64_small by lia; lia).
      rewrite E. assert (k <> 30) by (intros ->; lia).
      destruct (IH (k + 1) sz) as (n & Hn & En & Hs); [lia | lia | | lia | exists n; split; [lia | done]].
      change 1073741824 with (2 ^ 30). apply Z.pow_le_mono_r; lia.
Qed.

Lemma dictExpand_spec d sz :
  dwf d -> rehashidx d = -1 -> used (ht0 d) <= sz <= 1073741824 ->
  exists d', dictExpand d sz = Ok (DICT_OK, d') /\ keeps d d' /\ 0 < size (ht0 d') /\ entries d' = entries d.
Proof.
  intros D Hr Hsz. pose proof (hw_used _ (dw_0 _ D)) as Hu. pose proof (zlen_nonneg (ents (ht0 d))).
  destruct (next_power_spec 64 2 sz) as (n & Hn & En & Hs); [lia | lia | lia | lia |].
  unfold dictExpand, _dictNextPower. replace (sz >=? LONG_MAX) with false by (unfold LONG_MAX; lia).
  change DICT_HT_INITIAL_SIZE with (2 ^ 2). rewrite En, bind_Ok.
  unfold dictIsRehashing. rewrite Hr. cbn [Z.eqb Pos.eqb negb orb].
  replace (used (ht0 d) >? sz) with false by lia.
  set (h := Ht (replicate (Z.to_nat (2 ^ n)) []) (2 ^ n) (2 ^ n - 1) 0).
  assert (He : ents h = []).
  { unfold ents, h. cbn [table]. apply concat_nil_Forall, Forall_replicate. done. }
  assert (Wh : htwf h).
  { split; cbn [h table size sizemask used].
    - apply zlen_replicate. lia.
    - right. exists n. split; [lia | done].
    - change (0 = zlen (ents h)). by rewrite He.
    - intros i b k v [-> _]%lookup_replicate Hin. by apply not_elem_of_nil in Hin. }
  assert (Hpos : 0 < 2 ^ n) by lia. pose proof (dw_idle _ D Hr) as Hidle.
  destruct (table (ht0 d)) as [| b0 t0] eqn:Et.
  - assert (E0 : ents (ht0 d) = []) by (unfold ents; by rewrite Et).
    exists (Dict h (ht1 d) (-1) (iterators d)). split; [done |].
    assert (Ee : entries (Dict h (ht1 d) (-1) (iterators d)) = entries d).
    { unfold entries. cbn [ht0 ht1]. by rewrite He, E0. }
    split; [| split; [exact Hpos | exact Ee]]. split; [| by rewrite Ee | done | intros _; exact Hpos].
    split; cbn [ht0 ht1 rehashidx]; [done | apply D | rewrite Ee; apply D | done | done].
  - exists (Dict (ht0 d) h 0 (iterators d)). split; [done |].
    assert (Ee : entries (Dict (ht0 d) h 0 (iterators d)) = entries d).
    { unfold entries. cbn [ht0 ht1]. by rewrite He, Hidle. }
    assert (Hs0 : 0 < size (ht0 d)).
    { rewrite <- (hw_len _ (dw_0 _ D)), Et, zlen_cons. pose proof (zlen_nonneg t0). lia. }
    split; [| split; [done | done]]. split; [| by rewrite Ee | done | done].
    split; cbn [ht0 ht1 rehashidx]; [apply D | done | rewrite Ee; apply D | done |].
    intros _. split; [lia |]. split; [done |]. split; [done | lia].
Qed.

Lemma used_entries d : dwf d -> used (ht0 d) <= zlen (entries d) /\ 0 <= used (ht0 d).
Proof.
  intros D. rewrite (hw_used _ (dw_0 _ D)). unfold entries. rewrite zlen_app.
  pose proof (zlen_nonneg (ents (ht1 d))). pose proof (zlen_nonneg (ents (ht0 d))). lia.
Qed.

Lemma expandIfNeeded_spec d :
  dwf d -> zlen (entries d) <= 536870912 ->
  exists d', _dictExpandIfNeeded can_resize d = Ok (DICT_OK, d') /\ keeps d d' /\ 0 < size (ht0 d').
Proof.
  intros D Hn. destruct (used_entries d D) as [Hu Hu0]. unfold _dictExpandIfNeeded, dictIsRehashing.
  destruct (Z.eqb_spec (rehashidx d) (-1)) as [Hr | Hr]; cbn [negb].
  - destruct (Z.eqb_spec (size (ht0 d)) 0) as [Hs | Hs].
    + assert (used (ht0 d) = 0).
      { pose proof (hw_used _ (dw_0 _ D)) as E. pose proof (hw_len _ (dw_0 _ D)) as El. rewrite Hs in El.
        unfold ents in E. destruct (table (ht0 d)) as [| b t]; [done |]. rewrite zlen_cons in El. pose proof (zlen_nonneg t). lia. }
      destruct (dictExpand_spec d DICT_HT_INITIAL_SIZE D Hr) as (d' & E & Kp & Hp & _); [unfold DICT_HT_INITIAL_SIZE; lia |].
      by exists d'.
    + pose proof (htwf_max _ (dw_0 _ D)).
      destruct (_ && _); [| exists d; split; [done |]; split; [by apply keeps_refl | lia]].
      rewrite u64_small by lia.
      destruct (dictExpand_spec d (used (ht0 d) * 2) D Hr) as (d' & E & Kp & Hp & _); [lia |]. by exists d'.
  - exists d. split; [done |]. split; [by apply keeps_refl | apply (dw_busy _ D Hr)].
Qed.

(** ** Changing one bucket of a dictionary *)

Lemma dwf_set d t h' :
  dwf d -> htwf h' -> size h' = size (ht d t) -> 0 < size (ht d t) ->
  (rehashidx d = -1 -> t = false) ->
  (rehashidx d <> -1 -> t = false -> forall i, Z.of_nat i < rehashidx d -> table h' !! i = Some []) ->
  NoDup (entries (set_ht d t h')).*1 -> dwf (set_ht d t h').
Proof.
  intros D W Es Hs Hidle Hbelow N. destruct t; cbn [set_ht ht] in *.
  - assert (Hr : rehashidx d <> -1) by (intros E; by specialize (Hidle E)).
    destruct (dw_busy _ D Hr) as (Hi & Hs0 & Hs1 & Hb).
    split; cbn [ht0 ht1 rehashidx]; [apply D | done | done | done | intros _; rewrite Es; done].
  - split; cbn [ht0 ht1 rehashidx]; [done | apply D | done | apply D |].
    intros Hr. destruct (dw_busy _ D Hr) as (Hi & Hs0 & Hs1 & Hb). rewrite Es. auto.
Qed.

Lemma entries_set d t l rest : ents (ht d t) ≡ₚ l ++ rest -> entries d ≡ₚ l ++ (rest ++ ents (ht d (negb t))).
Proof.
  unfold entries. destruct t; cbn; intros E.
  - rewrite E, app_assoc, (Permutation_app_comm (ents _) l). by rewrite <- app_assoc, (Permutation_app_comm (ents _)).
  - by rewrite E, app_assoc.
Qed.

Lemma ht_set d t h : ht (set_ht d t h) t = h /\ ht (set_ht d t h) (negb t) = ht d (negb t).
Proof. by destruct t. Qed.

(** The entry at a place: what changing its value or unlinking it does. *)
Lemma found_split d t i b p key v :
  dwf d -> table (ht d t) !! i = Some b -> b !! p = Some (key, v) ->
  let h := ht d t in
  exists rest, entries d ≡ₚ (key, v) :: rest /\
    (forall v', let d' := set_ht d t (Ht (<[i := <[p := (key, v')]> b]> (table h)) (size h) (sizemask h) (used h)) in
       dwf d' /\ entries d' ≡ₚ (key, v') :: rest) /\
    let d' := set_ht d t (Ht (<[i := delete p b]> (table h)) (size h) (sizemask h) (used h - 1)) in
    dwf d' /\ entries d' ≡ₚ rest.
Proof.
  intros D Eb Ep h. change (ht d t) with h in Eb. assert (W : htwf h) by (unfold h; destruct t; apply D).
  assert (Hs : 0 < size h).
  { rewrite <- (hw_len _ W). apply lookup_lt_Some in Eb. unfold zlen. lia. }
  assert (Hidle : rehashidx d = -1 -> t = false).
  { intros E. destruct t; [| done]. unfold h, ht in Eb. by rewrite (dw_idle _ D E) in Eb. }
  assert (Hbelow : forall b', rehashidx d <> -1 -> t = false -> forall j, Z.of_nat j < rehashidx d ->
    <[i := b']> (table h) !! j = Some []).
  { intros b' Hr -> j Hj. destruct (dw_busy _ D Hr) as (_ & _ & _ & Hb).
    destruct (decide (i = j)) as [<- | Hne]; [| rewrite list_lookup_insert_ne by done; by apply Hb].
    change (table (ht0 d) !! i = Some b) in Eb. rewrite Hb in Eb by done. by injection Eb as <-. }
  pose proof (insert_Permutation b p (key, v)) as Hins.
  destruct (concat_split _ _ _ Eb) as (rest & E1 & E2). pose proof (delete_Permutation b p _ Ep) as Ed.
  assert (Hslot : forall k' v', (k', v') ∈ b -> Z.land (hash k') (sizemask h) = Z.of_nat i).
  { intros k' v' Hin. by eapply (hw_slot _ W). }
  assert (Hkey : Z.land (hash key) (sizemask h) = Z.of_nat i) by (eapply Hslot, list_elem_of_lookup_2; exact Ep).
  assert (Eall : entries d ≡ₚ (key, v) :: (delete p b ++ rest ++ ents (ht d (negb t)))).
  { rewrite (entries_set d t _ _ E1). by rewrite Ed at 1. }
  exists (delete p b ++ rest ++ ents (ht d (negb t))). split; [done |].
  assert (Hset : forall b' u l, ents (Ht (<[i := b']> (table h)) (size h) (sizemask h) u) = concat (<[i := b']> (table h)) ->
    b' ≡ₚ l ++ delete p b ->
    entries (set_ht d t (Ht (<[i := b']> (table h)) (size h) (sizemask h) u)) ≡ₚ
      l ++ delete p b ++ rest ++ ents (ht d (negb t))).
  { intros b' u l _ Hp. set (h' := Ht _ _ _ _). destruct (ht_set d t h') as [Ht1 Ht2].
    rewrite (entries_set (set_ht d t h') t b' rest); [| rewrite Ht1; unfold h', ents; cbn; apply E2].
    rewrite Ht2, Hp. by rewrite <- app_assoc. }
  split.
  - intros v'. pose proof (Hins (key, v') Ep) as Hi.
    pose proof (Hset (<[p := (key, v')]> b) (used h) [(key, v')] eq_refl Hi) as Hp. split; [| exact Hp].
    apply dwf_set; [done | | done | done | done | by apply Hbelow |].
    + destruct (htwf_bucket h i b (<[p := (key, v')]> b) W Eb) as (_ & _ & W' & _).
      * intros k' v0 Hin. rewrite Hi in Hin. apply elem_of_cons in Hin as [[= -> ->] | Hin]; [done |].
        apply (Hslot k' v0). rewrite Ed. by right.
      * unfold zlen in W'. rewrite length_insert in W'. fold (zlen b) in W'.
        by replace (used h - zlen b + zlen b) with (used h) in W' by lia.
    + pose proof (dw_nodup _ D) as N. rewrite Eall in N. by rewrite Hp.
  - pose proof (Hset (delete p b) (used h - 1) [] eq_refl ltac:(done)) as Hp. split; [| exact Hp].
    apply dwf_set; [done | | done | done | done | by apply Hbelow |].
    + destruct (htwf_bucket h i b (delete p b) W Eb) as (_ & _ & W' & _).
      * intros k' v0 Hin. apply (Hslot k' v0). rewrite Ed. by right.
      * assert (El : zlen b = 1 + zlen (delete p b)) by (apply Permutation_length in Ed; cbn [length] in Ed; unfold zlen; lia).
        by replace (used h - zlen b + zlen (delete p b)) with (used h - 1) in W' by lia.
    + pose proof (dw_nodup _ D) as N. rewrite Eall in N. rewrite Hp. by apply NoDup_cons in N as [_ N].
Qed.

(** ** Searching both tables *)

Lemma no_table d : dwf d -> size (ht0 d) = 0 -> entries d = [].
Proof.
  intros D Hs. assert (Hr : rehashidx d = -1).
  { destruct (Z.eq_dec (rehashidx d) (-1)) as [| Hr]; [done |]. pose proof (dw_busy _ D Hr). lia. }
  unfold entries, ents. rewrite (dw_idle _ D Hr). pose proof (hw_len _ (dw_0 _ D)) as El. rewrite Hs in El.
  destruct (table (ht0 d)) as [| b t]; [done |]. rewrite zlen_cons in El. pose proof (zlen_nonneg t). lia.
Qed.

(** The place of [key], found in the order of the code. *)
Definition found d (t : bool) (i p : nat) key : Prop :=
  exists b v, table (ht d t) !! i = Some b /\ b !! p = Some (key, v).

Lemma search_both d key :
  dwf d -> 0 < size (ht0 d) -> exists i p, ht_search hash (ht0 d) key = Ok (Z.of_nat i, p) /\
    Z.of_nat i = Z.land (hash key) (sizemask (ht0 d)) /\
    match p with
    | Some p => found d false i p key
    | None =>
      if dictIsRehashing d then exists i1 p1, ht_search hash (ht1 d) key = Ok (Z.of_nat i1, p1) /\
        Z.of_nat i1 = Z.land (hash key) (sizemask (ht1 d)) /\ 0 < size (ht1 d) /\
        match p1 with Some p1 => found d true i1 p1 key | None => key ∉ (entries d).*1 end
      else key ∉ (entries d).*1
    end.
Proof.
  intros D Hs. destruct (ht_search_spec (ht0 d) key (dw_0 _ D) Hs) as (i & p & E & Ei & Hp).
  exists i, p. split; [done |]. split; [done |]. destruct p as [p |]; [exact Hp |].
  unfold entries. rewrite fmap_app. unfold dictIsRehashing.
  destruct (Z.eqb_spec (rehashidx d) (-1)) as [Hr | Hr]; cbn [negb].
  - rewrite (dw_idle _ D Hr). cbn. by rewrite app_nil_r.
  - destruct (dw_busy _ D Hr) as (_ & _ & Hs1 & _).
    destruct (ht_search_spec (ht1 d) key (dw_1 _ D) Hs1) as (i1 & p1 & E1 & Ei1 & Hp1).
    exists i1, p1. split; [done |]. split; [done |]. split; [done |].
    destruct p1 as [p1 |]; [exact Hp1 |]. rewrite elem_of_app. by intros [? | ?].
Qed.

Lemma dictFind_spec d key :
  dwf d -> exists r d', dictFind hash d key = Ok (r, d') /\ keeps d d' /\
    match r with
    | Some (Entry t i p) => 0 <= i /\ found d' t (Z.to_nat i) p key
    | None => key ∉ (entries d').*1
    end.
Proof.
  intros D. unfold dictFind. destruct (Z.eqb_spec (size (ht0 d)) 0) as [Hz | Hz].
  { exists None, d. split; [done |]. split; [by apply keeps_refl |]. rewrite no_table by done. apply not_elem_of_nil. }
  destruct (rehash_step_if_spec d D) as (d1 & E1 & Kp). rewrite E1, bind_Ok.
  pose proof (htwf_max _ (dw_0 _ D)). pose proof (kp_size _ _ Kp ltac:(lia)) as Hs.
  destruct (search_both d1 key (kp_wf _ _ Kp) Hs) as (i & p & E & Ei & Hp). rewrite E, bind_Ok.
  destruct p as [p |].
  - exists (Some (Entry false (Z.of_nat i) p)), d1. rewrite Nat2Z.id. split; [done |]. split; [done |]. split; [lia | done].
  - destruct (dictIsRehashing d1); cbn [negb].
    + destruct Hp as (i1 & p1 & E2 & _ & _ & Hp1). rewrite E2, bind_Ok.
      exists (Entry true (Z.of_nat i1) <$> p1), d1. split; [done |]. split; [done |].
      destruct p1 as [p1 |]; [| exact Hp1]. cbn. rewrite Nat2Z.id. split; [lia | exact Hp1].
    + by exists None, d1.
Qed.

Lemma found_in d t i p key : found d t i p key -> key ∈ (entries d).*1.
Proof.
  intros (b & v & Eb & Ep). apply list_elem_of_fmap. exists (key, v). split; [done |].
  assert (Hin : (key, v) ∈ ents (ht d t)).
  { destruct (concat_split _ _ _ Eb) as (rest & E & _). unfold ents. rewrite E. apply elem_of_app. left.
    by eapply list_elem_of_lookup_2. }
  unfold entries. apply elem_of_app. destruct t; auto.
Qed.

Lemma keyIndex_spec d key :
  dwf d -> zlen (entries d) <= 536870912 ->
  exists idx d', _dictKeyIndex hash can_resize d key = Ok (idx, d') /\ keeps d d' /\ 0 < size (ht0 d') /\
    ((key ∈ (entries d').*1 /\ idx = -1) \/
     ((key ∉ (entries d').*1) /\ 0 < size (ht d' (dictIsRehashing d')) /\
      idx = Z.land (hash key) (sizemask (ht d' (dictIsRehashing d'))))).
Proof.
  intros D Hn. destruct (expandIfNeeded_spec d D Hn) as (d1 & E1 & Kp & Hs). unfold _dictKeyIndex.
  rewrite E1, bind_Ok. cbn [DICT_OK DICT_ERR Z.eqb].
  pose proof (kp_wf _ _ Kp) as D1. destruct (search_both d1 key D1 Hs) as (i & p & E & Ei & Hp). rewrite E, bind_Ok.
  destruct p as [p |].
  { exists (-1), d1. split; [done |]. split; [done |]. split; [done |]. left. split; [by eapply found_in | done]. }
  assert (H32 : forall j h, htwf h -> 0 < size h -> Z.of_nat j = Z.land (hash key) (sizemask h) -> i32 (Z.of_nat j) = Z.of_nat j).
  { intros j h W Hh Ej. pose proof (slot_range h key W Hh). pose proof (htwf_max h W). apply i32_small. lia. }
  destruct (dictIsRehashing d1) eqn:Er; cbn [negb].
  - destruct Hp as (i1 & p1 & E2 & Ei1 & Hs1 & Hp1). rewrite E2, bind_Ok.
    destruct p1 as [p1 |].
    + exists (-1), d1. split; [done |]. split; [done |]. split; [done |]. left. split; [by eapply found_in | done].
    + exists (Z.of_nat i1), d1. rewrite (H32 i1 (ht1 d1)) by first [done | apply D1].
      split; [done |]. split; [done |]. split; [done |]. right. rewrite Er. done.
  - exists (Z.of_nat i), d1. rewrite (H32 i (ht0 d1)) by first [done | apply D1].
    split; [done |]. split; [done |]. split; [done |]. right. rewrite Er. done.
Qed.

Lemma dictSetVal_spec d t i p key v :
  dwf d -> found d t i p key -> exists d' rest v0, dictSetVal d (Entry t (Z.of_nat i) p) v = Ok d' /\
    dwf d' /\ entries d ≡ₚ (key, v0) :: rest /\ entries d' ≡ₚ (key, v) :: rest /\
    dictGetVal d (Entry t (Z.of_nat i) p) = Ok v0.
Proof.
  intros D (b & v0 & Eb & Ep). destruct (found_split d t i b p key v0 D Eb Ep) as (rest & E & Hset & _).
  destruct (Hset v) as [D' E']. eexists _, rest, v0. split; [| split; [exact D' | split; [done | split; [exact E' |]]]].
  - unfold dictSetVal. cbn [e_table e_idx e_pos]. rewrite (aget_Ok _ _ b) by (rewrite ?Nat2Z.id; first [lia | done]).
    rewrite bind_Ok, Ep. cbn [deref]. rewrite bind_Ok. apply lookup_lt_Some in Eb.
    rewrite aset_Ok by (unfold zlen; lia). by rewrite bind_Ok, Nat2Z.id.
  - unfold dictGetVal. cbn [e_table e_idx e_pos]. rewrite (aget_Ok _ _ b) by (rewrite ?Nat2Z.id; first [lia | done]).
    rewrite bind_Ok, Ep. done.
Qed.

Lemma dictAdd_spec d key v :
  dwf d -> zlen (entries d) <= 536870912 ->
  exists r d', dictAdd hash junk can_resize d key v = Ok (r, d') /\ dwf d' /\
    ((key ∈ (entries d).*1 /\ r = DICT_ERR /\ entries d' ≡ₚ entries d) \/
     ((key ∉ (entries d).*1) /\ r = DICT_OK /\ entries d' ≡ₚ (key, v) :: entries d)).
Proof.
  intros D Hn. unfold dictAdd, dictAddRaw. destruct (rehash_step_if_spec d D) as (d1 & E1 & Kp1).
  rewrite E1, bind_Ok. pose proof (kp_perm _ _ Kp1) as P1.
  destruct (keyIndex_spec d1 key (kp_wf _ _ Kp1)) as (idx & d2 & E2 & Kp2 & Hs2 & Hidx).
  { unfold zlen in *. by rewrite P1. }
  rewrite E2, bind_Ok. pose proof (kp_wf _ _ Kp2) as D2. assert (P2 : entries d2 ≡ₚ entries d) by (by rewrite (kp_perm _ _ Kp2)).
  destruct Hidx as [[Hin ->] | (Hnin & Hs & ->)].
  { exists DICT_ERR, d2. split; [done |]. split; [done |]. left. by rewrite <- P2. }
  set (t := dictIsRehashing d2) in *. assert (W : htwf (ht d2 t)) by (destruct t; apply D2).
  pose proof (slot_range _ key W Hs) as Hr. destruct (Z.eqb_spec (Z.land (hash key) (sizemask (ht d2 t))) (-1)); [lia |].
  destruct (ht_cons_spec (ht d2 t) key junk W Hs) as (h & Ec & Wh & Ph & Sh & Mh & b & Eb). rewrite Ec, bind_Ok.
  set (d3 := set_ht d2 t h). destruct (ht_set d2 t h) as [Ht1 Ht2]. fold d3 in Ht1, Ht2.
  assert (P3 : entries d3 ≡ₚ (key, junk) :: entries d2).
  { rewrite (entries_set d3 t [(key, junk)] (ents (ht d2 t))); [| by rewrite Ht1].
    rewrite Ht2. cbn. f_equiv. unfold entries. destruct t; cbn; [apply Permutation_app_comm | done]. }
  assert (D3 : dwf d3).
  { apply dwf_set; [done | done | done | done | | |].
    - unfold t, dictIsRehashing. intros ->. done.
    - unfold t, dictIsRehashing. intros Hne. destruct (Z.eqb_spec (rehashidx d2) (-1)); done.
    - fold d3. rewrite P3. cbn. apply NoDup_cons. split; [done | apply D2]. }
  set (i := Z.to_nat (Z.land (hash key) (sizemask (ht d2 t)))) in *.
  assert (F : found d3 t i 0 key) by (exists ((key, junk) :: b), junk; rewrite Ht1; done).
  destruct (dictSetVal_spec d3 t i 0 key v D3 F) as (d4 & rest & v0 & Es & D4 & P & P4 & _).
  unfold i in Es. rewrite Z2Nat.id in Es by lia. fold d3. cbn. rewrite Es. exists DICT_OK, d4.
  split; [done |]. split; [done |]. right. rewrite <- P2. split; [done |]. split; [done |]. rewrite P4. f_equiv.
  rewrite P3 in P. assert (v0 = junk /\ rest ≡ₚ entries d2) as [_ ->]; [| done].
  assert (Hin : (key, v0) ∈ (key, junk) :: entries d2) by (rewrite P; by left).
  apply elem_of_cons in Hin as [[= ->] | Hin].
  - split; [done |]. symmetry. by apply Permutation_cons_inv in P.
  - exfalso. apply Hnin, list_elem_of_fmap. by exists (key, v0).
Qed.

Lemma dictDelete_spec d key :
  dwf d -> exists r f d', dictDelete hash d key = Ok (r, f, d') /\ dwf d' /\
    (((key ∉ (entries d).*1) /\ r = DICT_ERR /\ f = None /\ entries d' ≡ₚ entries d) \/
     (exists v, r = DICT_OK /\ f = Some (key, v) /\ entries d ≡ₚ (key, v) :: entries d')).
Proof.
  intros D. unfold dictDelete, dictGenericDelete. destruct (Z.eqb_spec (size (ht0 d)) 0) as [Hz | Hz].
  { exists DICT_ERR, None, d. split; [done |]. split; [done |]. left. rewrite no_table by done.
    split; [apply not_elem_of_nil | done]. }
  destruct (rehash_step_if_spec d D) as (d1 & E1 & Kp). rewrite E1, bind_Ok.
  pose proof (htwf_max _ (dw_0 _ D)). pose proof (kp_size _ _ Kp ltac:(lia)) as Hs. pose proof (kp_wf _ _ Kp) as D1.
  pose proof (kp_perm _ _ Kp) as P1.
  assert (Hu : forall t i p, found d1 t i p key -> exists e h, ht_unlink (ht d1 t) (Z.of_nat i) p = Ok (e, h) /\
    dwf (set_ht d1 t h) /\ exists v, e = (key, v) /\ entries d ≡ₚ (key, v) :: entries (set_ht d1 t h)).
  { intros t i p (b & v & Eb & Ep). destruct (found_split d1 t i b p key v D1 Eb Ep) as (rest & E & _ & D' & E').
    eexists _, _. split; [| split; [exact D' |]].
    - unfold ht_unlink. rewrite (aget_Ok _ _ b) by (rewrite ?Nat2Z.id; first [lia | done]).
      rewrite bind_Ok, Ep. cbn [deref]. rewrite bind_Ok. apply lookup_lt_Some in Eb.
      rewrite aset_Ok by (unfold zlen; lia). by rewrite bind_Ok, Nat2Z.id.
    - exists v. split; [done |]. by rewrite E', <- E, P1. }
  destruct (search_both d1 key D1 Hs) as (i & p & E & Ei & Hp). rewrite E, bind_Ok.
  assert (Hnone : key ∉ (entries d1).*1 -> exists r f d', mret (DICT_ERR, None, d1) = Ok (r, f, d') /\ dwf d' /\
    (((key ∉ (entries d).*1) /\ r = DICT_ERR /\ f = None /\ entries d' ≡ₚ entries d) \/
     (exists v, r = DICT_OK /\ f = Some (key, v) /\ entries d ≡ₚ (key, v) :: entries d'))).
  { intros Hn. exists DICT_ERR, None, d1. split; [done |]. split; [done |]. left. by rewrite <- P1. }
  destruct p as [p |].
  - destruct (Hu false i p Hp) as (e & h & Eu & D' & v & -> & P). change (ht d1 false) with (ht0 d1) in Eu.
    rewrite Eu, bind_Ok. eexists _, _, _. split; [done |]. split; [done |]. right. by exists v.
  - destruct (dictIsRehashing d1); cbn [negb]; [| by apply Hnone].
    destruct Hp as (i1 & p1 & E2 & _ & _ & Hp1). rewrite E2, bind_Ok. destruct p1 as [p1 |]; [| by apply Hnone].
    destruct (Hu true i1 p1 Hp1) as (e & h & Eu & D' & v & -> & P). change (ht d1 true) with (ht1 d1) in Eu.
    rewrite Eu, bind_Ok. eexists _, _, _. split; [done |]. split; [done |]. right. by exists v.
Qed.

Lemma abs_perm d l : dwf d -> entries d ≡ₚ l -> abs d = list_to_map l.
Proof. intros D P. apply list_to_map_proper; [apply (dw_nodup _ D) | done]. Qed.

Lemma abs_None d key : key ∉ (entries d).*1 <-> abs d !! key = None.
Proof. unfold abs. apply not_elem_of_list_to_map. Qed.

Lemma abs_Some d key v rest : dwf d -> entries d ≡ₚ (key, v) :: rest ->
  abs d !! key = Some v /\ abs d = <[key := v]> (list_to_map rest) /\ (list_to_map rest : gmap K V) !! key = None.
Proof.
  intros D P. rewrite (abs_perm d _ D P). cbn. split; [apply lookup_insert_eq |]. split; [done |].
  apply not_elem_of_list_to_map. pose proof (dw_nodup _ D) as N. rewrite P in N. by apply NoDup_cons in N as [N _].
Qed.

Lemma keeps_abs d d' : dwf d -> keeps d d' -> abs d' = abs d.
Proof. intros D Kp. apply abs_perm; apply Kp. Qed.

Lemma dictFetchValue_spec d key :
  dwf d -> exists d', dictFetchValue hash d key = Ok (abs d !! key, d') /\ keeps d d'.
Proof.
  intros D. unfold dictFetchValue. destruct (dictFind_spec d key D) as (r & d1 & E & Kp & Hr). rewrite E, bind_Ok.
  exists d1. rewrite <- (keeps_abs _ _ D Kp). destruct r as [[t i p] |].
  - destruct Hr as [Hi F]. destruct (dictSetVal_spec d1 t _ p key junk (kp_wf _ _ Kp) F) as (_ & rest & v0 & _ & _ & P & _ & Eg).
    rewrite Z2Nat.id in Eg by lia. rewrite Eg. cbn. by destruct (abs_Some d1 key v0 rest (kp_wf _ _ Kp) P) as [-> _].
  - apply abs_None in Hr. by rewrite Hr.
Qed.

Lemma dictReplace_spec d key v :
  dwf d -> zlen (entries d) <= 536870912 -> exists r d', dictReplace hash junk can_resize d key v = Ok (r, d') /\
    dwf d' /\ abs d' = <[key := v]> (abs d) /\
    r = match abs d !! key with None => (1, None) | Some old => (0, Some old) end.
Proof.
  intros D Hn. unfold dictReplace. destruct (dictAdd_spec d key v D Hn) as (r & d1 & E & D1 & Hr). rewrite E, bind_Ok.
  destruct Hr as [(Hin & -> & P1) | (Hnin & -> & P1)].
  - cbn [DICT_ERR DICT_OK Z.eqb]. destruct (dictFind_spec d1 key D1) as (o & d2 & E2 & Kp & Ho). rewrite E2, bind_Ok.
    pose proof (kp_wf _ _ Kp) as D2. pose proof (kp_perm _ _ Kp) as P2.
    destruct o as [[t i p] |]; [| exfalso; apply Ho; by rewrite P2, P1].
    destruct Ho as [Hi F]. destruct (dictSetVal_spec d2 t _ p key v D2 F) as (d3 & rest & v0 & Es & D3 & P & P3 & Eg).
    rewrite Z2Nat.id in Eg, Es by lia. cbn [deref]. rewrite bind_Ok, Eg, bind_Ok, Es, bind_Ok.
    eexists _, d3. split; [done |]. split; [done |].
    assert (Ea : abs d = abs d2) by (apply abs_perm; [done | by rewrite P2, P1]).
    destruct (abs_Some d2 key v0 rest D2 P) as (Hv & Hd2 & Hrest).
    destruct (abs_Some d3 key v rest D3 P3) as (_ & Hd3 & _). rewrite Ea, Hv, Hd3, Hd2. split; [| done].
    by rewrite insert_insert_eq.
  - cbn [DICT_OK Z.eqb]. eexists _, d1. split; [done |]. split; [done |].
    pose proof Hnin as Hno. apply abs_None in Hno. rewrite Hno. split; [| done]. apply (abs_perm d1 _ D1 P1).
Qed.

Lemma dictResize_spec d :
  dwf d -> zlen (entries d) <= 536870912 -> exists r d', dictResize can_resize d = Ok (r, d') /\ keeps d d'.
Proof.
  intros D Hn. destruct (used_entries d D) as [Hu Hu0]. unfold dictResize, dictIsRehashing.
  destruct (negb can_resize); [exists DICT_ERR, d; split; [done | by apply keeps_refl] |]. cbn [orb].
  destruct (Z.eqb_spec (rehashidx d) (-1)) as [Hr | Hr]; cbn [negb];
    [| exists DICT_ERR, d; split; [done | by apply keeps_refl]].
  rewrite i32_small by lia. unfold DICT_HT_INITIAL_SIZE. set (mn := if _ <? _ then _ else _).
  assert (Hmn : used (ht0 d) <= mn <= 536870912) by (unfold mn; destruct (Z.ltb_spec (used (ht0 d)) 4); lia).
  rewrite u64_small by lia. destruct (dictExpand_spec d mn D Hr) as (d' & E & Kp & _); [lia |]. by exists DICT_OK, d'.
Qed.

Lemma dictRehash_keeps d n : dwf d -> exists r d', dictRehash hash d n = Ok (r, d') /\ keeps d d'.
Proof.
  intros D. unfold dictRehash, dictIsRehashing. destruct (Z.eqb_spec (rehashidx d) (-1)) as [Hr | Hr]; cbn [negb].
  - exists 0, d. split; [done | by apply keeps_refl].
  - destruct (rehash_turns_spec n d D Hr) as (r & d' & E & Kp & _). by exists r, d'.
Qed.

(** ** Histories of operations *)

Inductive dict_op :=
  | DAdd (k : K) (v : V)
  | DReplace (k : K) (v : V)
  | DFetch (k : K)
  | DDelete (k : K)
  | DResize
  | DRehash (n : nat).

(** What a caller sees: a code, or a value found or freed. *)
Inductive dict_res := RCode (z : Z) (freed : option V) | RVal (v : option V) | RNone.

Definition dict_exec (d : dict K V) (o : dict_op) : outcome (dict_res * dict K V) :=
  match o with
  | DAdd k v => '(r, d) ← dictAdd hash junk can_resize d k v; mret (RCode r None, d)
  | DReplace k v => '(r, f, d) ← dictReplace hash junk can_resize d k v; mret (RCode r f, d)
  | DFetch k => '(v, d) ← dictFetchValue hash d k; mret (RVal v, d)
  | DDelete k => '(r, e, d) ← dictDelete hash d k; mret (RCode r (snd <$> e), d)
  | DResize => '(_, d) ← dictResize can_resize d; mret (RNone, d)
  | DRehash n => '(_, d) ← dictRehash hash d n; mret (RNone, d)
  end.

Fixpoint dict_run (ops : list dict_op) (d : dict K V) : outcome (list dict_res * dict K V) :=
  match ops with
  | [] => mret ([], d)
  | o :: ops => '(r, d) ← dict_exec d o; '(rs, d) ← dict_run ops d; mret (r :: rs, d)
  end.

(** The same operations on a finite map. *)
Definition map_exec (m : gmap K V) (o : dict_op) : dict_res * gmap K V :=
  match o with
  | DAdd k v => match m !! k with Some _ => (RCode 1 None, m) | None => (RCode 0 None, <[k := v]> m) end
  | DReplace k v =>
    (match m !! k with Some old => RCode 0 (Some old) | None => RCode 1 None end, <[k := v]> m)
  | DFetch k => (RVal (m !! k), m)
  | DDelete k => match m !! k with Some v => (RCode 0 (Some v), delete k m) | None => (RCode 1 None, m) end
  | DResize | DRehash _ => (RNone, m)
  end.

Fixpoint map_run (ops : list dict_op) (m : gmap K V) : list dict_res * gmap K V :=
  match ops with
  | [] => ([], m)
  | o :: ops => let '(r, m) := map_exec m o in let '(rs, m) := map_run ops m in (r :: rs, m)
  end.

Lemma dict_exec_spec d o :
  dwf d -> zlen (entries d) <= 536870912 ->
  exists d', dict_exec d o = Ok ((map_exec (abs d) o).1, d') /\ dwf d' /\ abs d' = (map_exec (abs d) o).2 /\
    zlen (entries d') <= zlen (entries d) + 1.
Proof.
  intros D Hn.
  assert (Hkeep : forall d', keeps d d' -> dwf d' /\ abs d' = abs d /\ zlen (entries d') <= zlen (entries d) + 1).
  { intros d' Kp. split; [apply Kp |]. split; [by apply keeps_abs |]. unfold zlen. rewrite (kp_perm _ _ Kp). lia. }
  assert (Hlen : forall d' m, dwf d' -> abs d' = m -> zlen (entries d') = Z.of_nat (base.size m)).
  { intros d' m D' <-. unfold zlen, abs. by rewrite map_size_list_to_map by apply (dw_nodup _ D'). }
  pose proof (Hlen d _ D eq_refl) as Hd. destruct o as [k v | k v | k | k | | n]; cbn [dict_exec map_exec].
  - destruct (dictAdd_spec d k v D Hn) as (r & d' & E & D' & Hr). rewrite E. exists d'.
    destruct Hr as [(Hin & -> & P) | (Hnin & -> & P)].
    + destruct (abs d !! k) eqn:Ea; [| by apply abs_None in Ea]. split; [done |]. split; [done |].
      split; [by apply abs_perm | unfold zlen; rewrite P; lia].
    + rewrite (proj1 (abs_None d k) Hnin). split; [done |]. split; [done |].
      split; [by apply (abs_perm d' _ D' P) | unfold zlen; rewrite P; cbn; lia].
  - destruct (dictReplace_spec d k v D Hn) as ([r f] & d' & E & D' & Ea & Er). rewrite E. exists d'.
    split; [by destruct (abs d !! k); injection Er as -> -> |]. split; [done |]. split; [done |].
    rewrite (Hlen d' _ D' Ea), Hd. destruct (abs d !! k) eqn:Ek.
    + rewrite map_size_insert_Some by done. lia.
    + rewrite map_size_insert_None by done. lia.
  - destruct (dictFetchValue_spec d k D) as (d' & E & Kp). rewrite E. exists d'. split; [done | by apply Hkeep].
  - destruct (dictDelete_spec d k D) as (r & f & d' & E & D' & Hr). rewrite E. exists d'.
    destruct Hr as [(Hnin & -> & -> & P) | (v & -> & -> & P)].
    + rewrite (proj1 (abs_None d k) Hnin). split; [done |]. split; [done |].
      split; [by apply abs_perm | unfold zlen; rewrite P; lia].
    + destruct (abs_Some d k v _ D P) as (Hv & Hd' & Hk). rewrite Hv. split; [done |]. split; [done |].
      split; [| unfold zlen; rewrite P; cbn; lia]. cbn [snd]. rewrite Hd'. change (list_to_map (entries d')) with (abs d').
      rewrite delete_insert_id; [done | exact Hk].
  - destruct (dictResize_spec d D Hn) as (r & d' & E & Kp). rewrite E. exists d'. split; [done | by apply Hkeep].
  - destruct (dictRehash_keeps d n D) as (r & d' & E & Kp). rewrite E. exists d'. split; [done | by apply Hkeep].
Qed.

Lemma dictCreate_wf : dwf dictCreate /\ abs dictCreate = ∅.
Proof.
  split; [| done]. split; [apply reset_wf | apply reset_wf | constructor | done | done].
Qed.

Lemma dict_run_spec ops : forall d,
  dwf d -> zlen (entries d) + zlen ops <= 536870912 ->
  exists d', dict_run ops d = Ok ((map_run ops (abs d)).1, d') /\ dwf d' /\ abs d' = (map_run ops (abs d)).2.
Proof.
  induction ops as [| o ops IH]; intros d D Hn; cbn [dict_run map_run]; [by exists d |].
  rewrite zlen_cons in Hn. pose proof (zlen_nonneg ops).
  destruct (dict_exec_spec d o D) as (d1 & E & D1 & Ea & Hl); [lia |]. rewrite E, bind_Ok.
  destruct (IH d1 D1) as (d2 & E2 & D2 & Ea2); [lia |]. rewrite E2, bind_Ok. exists d2.
  rewrite Ea in E2, Ea2 |- *. destruct (map_exec (abs d) o) as [r m] eqn:Em. cbn [fst snd] in *.
  destruct (map_run ops m) as [rs m']. done.
Qed.

(** C9: a dictionary is a finite map.  Whatever the hash function and the
    resize switch, any sequence of fewer than 2^29 adds, replaces, look-ups,
    deletions, resizes and rehashing steps on a new dictionary succeeds without
    touching memory outside its tables and gives the results of the same
    sequence on a finite map, in the middle of a rehash as well as outside;
    [dictSize] is the number of its keys. *)
Theorem dict_refines_map ops :
  zlen ops <= 536870912 -> exists d', dict_run ops dictCreate = Ok ((map_run ops ∅).1, d') /\
    abs d' = (map_run ops ∅).2 /\ dictSize d' = Z.of_nat (base.size (map_run ops ∅).2).
Proof.
  intros Hn. destruct dictCreate_wf as [D Ea].
  destruct (dict_run_spec ops dictCreate D) as (d' & E & D' & Ea'); [exact Hn |]. rewrite Ea in E, Ea'.
  exists d'. split; [done |]. split; [done |]. rewrite <- Ea'. unfold abs.
  rewrite map_size_list_to_map by apply (dw_nodup _ D'). unfold dictSize.
  rewrite (hw_used _ (dw_0 _ D')), (hw_used _ (dw_1 _ D')). unfold entries, zlen. rewrite length_app. lia.
Qed.

(** Incremental rehashing ends.  On a well-formed dictionary [dictRehash]
    keeps the map it stands for, reports 0 exactly when no rehashing is left,
    and does so within one turn more than the old table has entries. *)
Theorem dictRehash_completes d n :
  dwf d -> used (ht0 d) < Z.of_nat n ->
  exists d', dictRehash hash d n = Ok (0, d') /\ rehashidx d' = -1 /\ dwf d' /\ abs d' = abs d /\
    ht1 d' = _dictReset.
Proof.
  intros D Hn. unfold dictRehash, dictIsRehashing. destruct (Z.eqb_spec (rehashidx d) (-1)) as [Hr | Hr]; cbn [negb].
  - exists d. split; [done |]. split; [done |]. split; [done |]. split; [done | by apply D].
  - destruct (rehash_turns_spec n d D Hr) as (r & d' & E & Kp & _ & Hiff & Hdone). rewrite (Hdone Hn) in *.
    exists d'. split; [done |]. assert (Hi : rehashidx d' = -1) by (by apply Hiff). split; [done |].
    split; [apply Kp |]. split; [by apply keeps_abs | apply (kp_wf _ _ Kp), Hi].
Qed.
End tables.

Definition demo_ops : list (@dict_op Z Z) :=
  [DAdd 1 10; DAdd 5 50; DAdd 9 90; DAdd 2 20; DAdd 13 130; DFetch 9; DAdd 5 51; DReplace 5 52; DDelete 1; DFetch 1; DFetch 5].

Lemma dict_refines_map_witness :
  zlen demo_ops = 11 /\ exists d', dict_run u32 0 true demo_ops dictCreate =
    Ok ([RCode 0 None; RCode 0 None; RCode 0 None; RCode 0 None; RCode 0 None; RVal (Some 90); RCode 1 None;
         RCode 0 (Some 50); RCode 0 (Some 10); RVal None; RVal (Some 52)], d') /\ dictSize d' = 4.
Proof.
  split; [reflexivity |].
  destruct (dict_refines_map u32 0 true demo_ops) as (d' & E & _ & Es); [vm_compute; congruence |].
  exists d'. split; [exact E | exact Es].
Defined.

Lemma dictRehash_completes_witness :
  exists d d', dict_run u32 0 true (take 5 demo_ops) dictCreate = Ok (replicate 5 (RCode 0 None), d) /\
    rehashidx d = 0 /\ dictRehash u32 d 6 = Ok (0, d') /\ rehashidx d' = -1.
Proof.
  destruct (dict_run u32 0 true (take 5 demo_ops) dictCreate) as [[rs d] | f] eqn:E; [| by vm_compute in E].
  assert (Eu : rs = replicate 5 (RCode 0 None) /\ used (ht0 d) = 4 /\ rehashidx d = 0) by (vm_compute in E; injection E as <- <-; done).
  destruct (dict_run_spec u32 0 true (take 5 demo_ops) dictCreate) as (d0 & E0 & D0 & _);
    [apply dictCreate_wf | vm_compute; congruence |].
  rewrite E in E0. injection E0 as _ <-. destruct Eu as (-> & Eu & Er0).
  destruct (dictRehash_completes u32 d 6 D0) as (d' & E' & Er & _); [lia |].
  exists d, d'. split; [reflexivity |]. split; [exact Er0 |]. split; [exact E' | exact Er].
Defined.
