(* ===== verification/DictIter.v ===== *)
(** * dict.c: iterators

    [dictNext] walks the buckets of both tables, holding the entry it has
    returned and the one after it.  A safe iterator keeps the rehashing steps of
    the other operations from moving entries; an unsafe one notes a fingerprint
    of the dictionary and [dictReleaseIterator] asserts that it has not changed.
    An entry is known by its key, which a dictionary holds once.  The numbers
    that the fingerprint takes from the addresses of the two tables are an
    argument.  Arithmetic on [long long] wraps, as gcc compiles it; C leaves the
    overflow of [dictFingerprint] undefined. *)
From S2P Require Import Prelude Dict.

(** ** Fingerprints *)

(** One turn of the loop: Thomas Wang's hash of the sum, with the arithmetic
    shift of a signed number. *)
Definition wang (hash n : Z) : Z :=
  let hash := i64 (hash + n) in
  let hash := i64 (- hash - 1 + i64 (Z.shiftl hash 21)) in
  let hash := Z.lxor hash (Z.shiftr hash 24) in
  let hash := i64 (i64 (hash + i64 (Z.shiftl hash 3)) + i64 (Z.shiftl hash 8)) in
  let hash := Z.lxor hash (Z.shiftr hash 14) in
  let hash := i64 (i64 (hash + i64 (Z.shiftl hash 2)) + i64 (Z.shiftl hash 4)) in
  let hash := Z.lxor hash (Z.shiftr hash 28) in
  i64 (hash + i64 (Z.shiftl hash 31)).

Section DictIter.
  Context {K V : Type} `{EqDecision K}.
  Variables (hash : K -> Z) (junk : V) (can_resize : bool).
  Implicit Types d : dict K V.

(** [p]: the addresses of the tables. *)
Definition dictFingerprint (p : Z * Z) d : Z :=
  foldl wang 0 [i64 p.1; i64 (size (ht0 d)); i64 (used (ht0 d)); i64 p.2; i64 (size (ht1 d)); i64 (used (ht1 d))].

(** ** Iterators *)

(** [entry] and [nextEntry] are the keys of the entries they point to. *)
Record dictIterator := Iter {
  it_table : bool;
  it_index : Z;
  it_safe : bool;
  it_entry : option K;
  it_next : option K;
  it_fingerprint : Z;
}.

Definition dictGetIterator : dictIterator := Iter false (-1) false None None 0.

Definition dictGetSafeIterator : dictIterator :=
  let i := dictGetIterator in
  Iter (it_table i) (it_index i) true (it_entry i) (it_next i) (it_fingerprint i).

Definition set_iterators d (n : Z) : dict K V := Dict (ht0 d) (ht1 d) (rehashidx d) n.

(** The iterator has not been used. *)
Definition unused (i : dictIterator) : bool := (it_index i =? -1) && negb (it_table i).

(** What the first call of [dictNext] does. *)
Definition first_use (p : Z * Z) d (i : dictIterator) : dict K V * dictIterator :=
  if negb (unused i) then (d, i)
  else if it_safe i then (set_iterators d (iterators d + 1), i)
  else (d, Iter (it_table i) (it_index i) false (it_entry i) (it_next i) (dictFingerprint p d)).

(** The chain from the entry with a key on; no such entry: it has been freed. *)
Fixpoint chain_in (key : K) (tbl : list (list (K * V))) : option (list (K * V)) :=
  match tbl with
  | [] => None
  | he :: tbl => match find_pos key he with Some p => Some (drop p he) | None => chain_in key tbl end
  end.

Definition entry_chain d (key : K) : outcome (list (K * V)) :=
  match chain_in key (table (ht0 d) ++ table (ht1 d)) with
  | Some he => Ok he
  | None => Fault UseAfterFree
  end.

(** The caller gets the entry; the iterator holds it and the next one. *)
Definition at_chain d (i : dictIterator) (he : list (K * V)) : option (K * V) * dict K V * dictIterator :=
  (head he, d, Iter (it_table i) (it_index i) (it_safe i) (fst <$> head he) (fst <$> head (tail he)) (it_fingerprint i)).

(** [dictNext]; [fuel] bounds the buckets it may skip.  [(signed) ht->size] is an [int]. *)
Fixpoint dictNext (fuel : nat) (p : Z * Z) d (i : dictIterator) : outcome (option (K * V) * dict K V * dictIterator) :=
  match fuel with
  | O => Fault OutOfFuel
  | S fuel =>
    match it_entry i with
    | None =>
      let '(d, i) := first_use p d i in
      let index := it_index i + 1 in
      let over := index >=? i32 (size (ht d (it_table i))) in
      let moved t index := Iter t index (it_safe i) None (it_next i) (it_fingerprint i) in
      if over && negb (dictIsRehashing d && negb (it_table i)) then
        mret (None, d, moved (it_table i) index)
      else
        let i := if over then moved true 0 else moved (it_table i) index in
        he ← aget (table (ht d (it_table i))) (it_index i);
        match he with
        | [] => dictNext fuel p d i
        | _ => mret (at_chain d i he)
        end
    | Some _ =>
      match it_next i with
      | None => dictNext fuel p d (Iter (it_table i) (it_index i) (it_safe i) None None (it_fingerprint i))
      | Some key => he ← entry_chain d key; mret (at_chain d i he)
      end
    end
  end.

Definition dictReleaseIterator (p : Z * Z) d (i : dictIterator) : outcome (dict K V) :=
  if unused i then mret d
  else if it_safe i then mret (set_iterators d (iterators d - 1))
  else _ ← c_assert (it_fingerprint i =? dictFingerprint p d); mret d.

(** ** A loop over the entries

    [while ((de = dictNext(iter)) != NULL) { ... }] and the release of the
    iterator.  A script gives, turn by turn, what the body of the loop does with
    the dictionary, and the addresses of the tables afterwards. *)
Inductive iter_op :=
  | IThis
  | IOp (o : @dict_op K V).

Definition op_of (key : K) (o : iter_op) : dict_op :=
  match o with IThis => DDelete key | IOp o => o end.

Definition script : Type := list (list iter_op * (Z * Z)).

Definition body (key : K) (ops : list iter_op) d : outcome (dict K V) :=
  '(_, d) ← dict_run hash junk can_resize (op_of key <$> ops) d; mret d.

(** Fuel that lets [dictNext] skip every bucket. *)
Definition next_fuel d : nat := S (S (Z.to_nat (dictSlots d))).

Definition run_turn (key : K) (p : Z * Z) (s : script) d : outcome ((Z * Z) * script * dict K V) :=
  match s with
  | [] => mret (p, [], d)
  | (ops, p) :: s => d ← body key ops d; mret (p, s, d)
  end.

Fixpoint walk (fuel : nat) (p : Z * Z) (s : script) d (i : dictIterator) : outcome (list (K * V) * (Z * Z) * dict K V * dictIterator) :=
  match fuel with
  | O => Fault OutOfFuel
  | S fuel =>
    '(e, d, i) ← dictNext (next_fuel d) p d i;
    match e with
    | None => mret ([], p, d, i)
    | Some e =>
      '(p, s, d) ← run_turn e.1 p s d;
      '(l, p, d, i) ← walk fuel p s d i;
      mret (e :: l, p, d, i)
    end
  end.

Definition iterate (fuel : nat) (i : dictIterator) (p : Z * Z) (s : script) d : outcome (list (K * V) * dict K V) :=
  '(l, p, d, i) ← walk fuel p s d i;
  d ← dictReleaseIterator p d i;
  mret (l, d).
End DictIter.
Arguments dictIterator : clear implicits.
Arguments script : clear implicits.

(** ** The keys of the buckets *)

Section buckets.
  Context {K V : Type} `{Countable K}.
  Variables (hash : K -> Z) (junk : V) (can_resize : bool).
  Implicit Types d : dict K V.
  Implicit Types h : dictht K V.

Definition kt h : list (list K) := (fun he : list (K * V) => he.*1) <$> table h.

Lemma concat_kt h : concat (kt h) = (ents h).*1.
Proof.
  unfold kt, ents. induction (table h) as [| b t IH]; [done |]. cbn [fmap list_fmap concat]. by rewrite fmap_app, <- IH.
Qed.

Lemma keys_kt d : (entries d).*1 = concat (kt (ht0 d)) ++ concat (kt (ht1 d)).
Proof. unfold entries. by rewrite fmap_app, !concat_kt. Qed.

Lemma kt_lookup h i b : kt h !! i = Some b -> exists he, table h !! i = Some he /\ b = he.*1.
Proof. unfold kt. rewrite list_lookup_fmap. intros (he & E & ->)%fmap_Some. by exists he. Qed.

Lemma lookup_kt h i he : table h !! i = Some he -> kt h !! i = Some he.*1.
Proof. unfold kt. rewrite list_lookup_fmap. by intros ->. Qed.

Lemma kt_insert h i he sz m u : kt (Ht (<[i := he]> (table h)) sz m u) = <[i := he.*1]> (kt h).
Proof. unfold kt. cbn [table]. by rewrite list_fmap_insert. Qed.

(** The keys an iterator still has to show after bucket [j] of table [t]. *)
Definition later d (t : bool) (j : nat) : list K :=
  concat (drop (S j) (kt (ht d t))) ++ (if t then [] else concat (kt (ht1 d))).

(** The iterator holds an entry of bucket [j] of table [t]; [rest]: the keys after it. *)
Record at_entry d (i : dictIterator K) (t : bool) (j : nat) (rest : list K) : Prop := {
  ae_table : it_table i = t;
  ae_index : it_index i = Z.of_nat j;
  ae_entry : it_entry i <> None;
  ae_next : it_next i = head rest;
  ae_bucket : exists pre, kt (ht d t) !! j = Some (pre ++ rest);
  ae_busy : t = true -> rehashidx d <> -1;
}.

Definition pos d i (F : list K) : Prop :=
  exists t j rest, at_entry d i t j rest /\ F = rest ++ later d t j.

Lemma kt_ht d t j b : dwf hash d -> kt (ht d t) !! j = Some b -> b ++ later d t j ⊆+ (entries d).*1.
Proof.
  intros D E. rewrite keys_kt. unfold later. destruct t; cbn [ht] in *.
  - rewrite <- (take_drop_middle _ _ _ E) at 2. rewrite concat_app. cbn [concat].
    rewrite !app_nil_r. by do 2 apply submseteq_inserts_l.
  - rewrite <- (take_drop_middle _ _ _ E) at 2. rewrite concat_app. cbn [concat]. rewrite <- !app_assoc.
    by apply submseteq_inserts_l.
Qed.

Lemma nodup_sub {A} (l k : list A) : NoDup k -> l ⊆+ k -> NoDup l.
Proof.
  intros N (l' & P)%submseteq_Permutation. rewrite P in N. by apply NoDup_app in N as [? _].
Qed.

Lemma pos_nodup d i F : dwf hash d -> pos d i F -> NoDup F.
Proof.
  intros D (t & j & rest & A & ->). destruct (ae_bucket _ _ _ _ _ A) as [pre E].
  eapply nodup_sub; [apply (dw_nodup _ _ D) |]. etrans; [| by eapply kt_ht].
  rewrite <- app_assoc. by apply submseteq_inserts_l.
Qed.

(** ** One call of [dictNext] *)

Definition next_result (r : outcome (option (K * V) * dict K V * dictIterator K)) d (safe : bool) (fp : Z) (F : list K) : Prop :=
  exists e i, r = Ok (e, d, i) /\ unused i = false /\ it_safe i = safe /\ it_fingerprint i = fp /\
    match F with
    | [] => e = None
    | k :: F => exists v, e = Some (k, v) /\ (k, v) ∈ entries d /\ pos d i F
    end.

Lemma find_pos_at (key : K) (he : list (K * V)) q v : NoDup he.*1 -> he !! q = Some (key, v) -> find_pos key he = Some q.
Proof.
  revert q. induction he as [| [k w] he IH]; intros q N E; [done |]. cbn [find_pos].
  apply NoDup_cons in N as [Nk N]. destruct q as [| q].
  - injection E as -> ->. by destruct (decide (key = key)).
  - cbn in E. destruct (decide (key = k)) as [-> |].
    + destruct Nk. apply list_elem_of_fmap. exists (k, v). split; [done | by eapply list_elem_of_lookup_2].
    + by rewrite (IH q N E).
Qed.

Lemma chain_in_at (key : K) (v : V) q b j (tbl : list (list (K * V))) :
  NoDup (concat tbl).*1 -> tbl !! j = Some b -> b !! q = Some (key, v) -> chain_in key tbl = Some (drop q b).
Proof.
  revert j. induction tbl as [| he tbl IH]; intros j N Ej Eq; [done |]. cbn [chain_in].
  cbn [concat] in N. rewrite fmap_app in N. apply NoDup_app in N as (N1 & N2 & N3). destruct j as [| j].
  - injection Ej as ->. by rewrite (find_pos_at key b q v N1 Eq).
  - cbn in Ej. destruct (find_pos key he) as [q' |] eqn:Ef; [| by eapply IH].
    exfalso. destruct (find_pos_Some _ _ _ Ef) as [w Ew].
    apply (N2 key); apply list_elem_of_fmap; [exists (key, w) | exists (key, v)]; split; try done; [by eapply list_elem_of_lookup_2 |].
    destruct (concat_split _ _ _ Ej) as (rest & -> & _). apply elem_of_app. left. by eapply list_elem_of_lookup_2.
Qed.

(** The iterator moves to an entry. *)
Lemma at_chain_spec d i t j q b e he :
  dwf hash d -> it_table i = t -> it_index i = Z.of_nat j -> (t = true -> rehashidx d <> -1) ->
  table (ht d t) !! j = Some b -> drop q b = e :: he ->
  next_result (Ok (at_chain d i (e :: he))) d (it_safe i) (it_fingerprint i) (e.1 :: he.*1 ++ later d t j).
Proof.
  intros D Et Ej Hb Eb Eq. destruct e as [k v]. eexists _, _. split; [reflexivity |].
  split; [unfold unused; cbn [it_index it_table]; rewrite Ej; by replace (Z.of_nat j =? -1) with false by lia |].
  split; [done |]. split; [done |]. exists v. split; [done |]. split.
  - assert (Hin : (k, v) ∈ b) by (rewrite <- (take_drop q b), Eq; apply elem_of_app; right; by left).
    assert (Hh : (k, v) ∈ ents (ht d t)).
    { unfold ents. destruct (concat_split _ _ _ Eb) as (rest & -> & _). apply elem_of_app. by left. }
    unfold entries. apply elem_of_app. destruct t; auto.
  - exists t, j, he.*1. split; [| done]. split; cbn [it_table it_index it_entry it_next]; [done | done | done | by destruct he | | done].
    exists (take (S q) b).*1. rewrite <- fmap_app. replace he with (drop (S q) b); [by rewrite take_drop, (lookup_kt _ _ _ Eb) |].
    change (S q) with (1 + q)%nat. rewrite Nat.add_comm, <- drop_drop, Eq. done.
Qed.

Lemma first_use_same p d i : unused i = false -> first_use p d i = (d, i).
Proof. unfold first_use. by intros ->. Qed.

Lemma first_use_keeps p d i :
  let '(d', i') := first_use p d i in
  it_table i' = it_table i /\ it_index i' = it_index i /\ it_entry i' = it_entry i /\
  ht0 d' = ht0 d /\ ht1 d' = ht1 d /\ rehashidx d' = rehashidx d /\ it_safe i' = it_safe i.
Proof.
  unfold first_use. destruct (negb (unused i)); [done |]. by destruct (it_safe i) eqn:E.
Qed.

Lemma first_use_wf p d i : dwf hash d -> dwf hash (first_use p d i).1.
Proof.
  intros []. unfold first_use. destruct (negb (unused i)); [done |]. by destruct (it_safe i).
Qed.

Lemma size_i32 h : htwf hash h -> i32 (size h) = Z.of_nat (length (table h)).
Proof.
  intros W. pose proof (htwf_max _ _ W). rewrite i32_small by lia. symmetry. apply (hw_len _ _ W).
Qed.

Lemma ht_wf d t : dwf hash d -> htwf hash (ht d t).
Proof. intros D. destruct t; apply D. Qed.

(** From bucket [j] of table [t] on. *)
Definition from d (t : bool) (j : nat) : list K :=
  concat (drop j (kt (ht d t))) ++ (if t then [] else concat (kt (ht1 d))).

Lemma from_bucket d t j he : table (ht d t) !! j = Some he -> from d t j = he.*1 ++ later d t j.
Proof.
  intros E. unfold from, later. apply lookup_kt in E. rewrite (drop_S _ _ _ E). cbn [concat]. by rewrite app_assoc.
Qed.

Lemma from_end d t j : (length (table (ht d t)) <= j)%nat -> from d t j = if t then [] else from d true 0.
Proof.
  intros Hj. unfold from. rewrite drop_ge; [| unfold kt; rewrite length_fmap; exact Hj]. destruct t; cbn [ht].
  - done.
  - by rewrite drop_0, app_nil_r.
Qed.

(** The buckets from there on. *)
Definition buckets_left d (t : bool) (j : nat) : nat :=
  (length (drop j (table (ht d t))) + (if t then 0 else length (table (ht1 d))))%nat.

Lemma scan_spec fuel : forall p d i j,
  dwf hash d -> it_entry i = None -> it_index i = Z.of_nat j - 1 -> (it_table i = true -> rehashidx d <> -1) ->
  (buckets_left d (it_table i) j < fuel)%nat ->
  let '(d0, i0) := first_use p d i in
  next_result (dictNext fuel p d i) d0 (it_safe i0) (it_fingerprint i0) (from d (it_table i) j).
Proof.
  induction fuel as [| fuel IH]; intros p d i j D En Ej Hb Hf; [lia |].
  cbn [dictNext]. rewrite En. pose proof (first_use_keeps p d i) as Hk. pose proof (first_use_wf p d i D) as D0.
  destruct (first_use p d i) as [d0 i0]. destruct Hk as (Et & Ei & En0 & H0 & H1 & Hr & _). cbn [fst] in D0.
  assert (Hht : forall t, ht d0 t = ht d t) by (by intros []; cbn).
  rewrite Et, Ei, Ej, Hht. replace (Z.of_nat j - 1 + 1) with (Z.of_nat j) by lia.
  assert (Hread : forall t n i1, it_table i1 = t -> it_index i1 = Z.of_nat n -> it_entry i1 = None ->
    it_safe i1 = it_safe i0 -> it_fingerprint i1 = it_fingerprint i0 -> (t = true -> rehashidx d <> -1) ->
    (n < length (table (ht d t)))%nat -> (buckets_left d t n < S fuel)%nat ->
    next_result (he ← aget (table (ht d0 (it_table i1))) (it_index i1);
      match he with [] => dictNext fuel p d0 i1 | _ => mret (at_chain d0 i1 he) end)
      d0 (it_safe i0) (it_fingerprint i0) (from d t n)).
  { intros t n i1 Et1 En1 Ee1 Es1 Ef1 Hb1 Hn Hf1. rewrite Et1, En1, Hht.
    destruct (lookup_lt_is_Some_2 _ _ Hn) as [he Eh]. rewrite (aget_Ok _ _ he) by (rewrite ?Nat2Z.id; first [lia | done]).
    rewrite bind_Ok, (from_bucket _ _ _ _ Eh). destruct he as [| e he].
    - specialize (IH p d0 i1 (S n) D0 Ee1 ltac:(lia)). rewrite first_use_same in IH by (unfold unused; by replace (it_index i1 =? -1) with false by lia).
      rewrite Es1, Ef1, Et1 in IH. change ([].*1 ++ later d t n) with (from d t (S n)).
      replace (from d t (S n)) with (from d0 t (S n)) by (unfold from; by rewrite Hht, H1).
      apply IH; [by rewrite Hr |]. unfold buckets_left in *. rewrite Hht, H1. rewrite (drop_S _ _ _ Eh) in Hf1. cbn [length] in Hf1. lia.
    - rewrite <- Es1, <- Ef1. replace (later d t n) with (later d0 t n) by (unfold later; by rewrite Hht, H1).
      apply (at_chain_spec d0 i1 t n 0 (e :: he) e he); [done | done | done | by rewrite Hr | by rewrite Hht | done]. }
  rewrite size_i32 by (by apply ht_wf). destruct (Z.geb_spec (Z.of_nat j) (Z.of_nat (length (table (ht d (it_table i)))))) as [Ho | Ho].
  - cbn [andb]. rewrite (from_end d _ j) by lia. unfold dictIsRehashing. rewrite Hr.
    destruct (it_table i) eqn:Eti; cbn [negb andb].
    + rewrite andb_false_r. cbn [negb]. eexists None, _. split; [reflexivity |]. split; [| done].
      unfold unused. cbn [it_index it_table]. apply andb_false_r.
    + destruct (Z.eqb_spec (rehashidx d) (-1)) as [Eid | Eid]; cbn [negb andb].
      * eexists None, _. split; [reflexivity |]. unfold unused. cbn [it_index it_table it_safe it_fingerprint].
        replace (Z.of_nat j =? -1) with false by lia. do 3 (split; [done |]). unfold from. rewrite drop_0.
        cbn [ht]. by rewrite (dw_idle _ _ D Eid).
      * apply (Hread true 0%nat); try done.
        -- destruct (dw_busy _ _ D Eid) as (_ & _ & Hs1 & _). pose proof (hw_len _ _ (dw_1 _ _ D)). unfold zlen in *. cbn [ht]. lia.
        -- unfold buckets_left in *. cbn [ht] in *. rewrite drop_0. lia.
  - cbn [andb]. apply (Hread (it_table i) j); try done. lia.
Qed.

Lemma pos_next p d i F :
  dwf hash d -> pos d i F ->
  next_result (dictNext (next_fuel d) p d i) d (it_safe i) (it_fingerprint i) F.
Proof.
  intros D (t & j & rest & A & ->). destruct (ae_bucket _ _ _ _ _ A) as [pre Eb].
  unfold next_fuel. cbn [dictNext]. pose proof (ae_next _ _ _ _ _ A) as Enx. pose proof (ae_entry _ _ _ _ _ A) as Hen.
  destruct (it_entry i) as [cur |]; [| done]. rewrite Enx. destruct rest as [| k rest]; cbn [head].
  - set (i1 := Iter _ _ _ _ _ _).
    assert (Hi1 : it_index i1 = Z.of_nat (S j) - 1) by (cbn [i1 it_index]; rewrite (ae_index _ _ _ _ _ A); lia).
    pose proof (scan_spec (S (Z.to_nat (dictSlots d))) p d i1 (S j) D eq_refl Hi1) as Hs.
    rewrite first_use_same in Hs by (unfold unused; by replace (it_index i1 =? -1) with false by lia).
    cbn [i1 it_table it_safe it_fingerprint] in Hs. rewrite (ae_table _ _ _ _ _ A) in Hs.
    apply Hs; [by apply (ae_busy _ _ _ _ _ A) |]. unfold buckets_left, dictSlots. rewrite length_drop.
    pose proof (hw_len _ _ (dw_0 _ _ D)). pose proof (hw_len _ _ (dw_1 _ _ D)). unfold zlen in *. destruct t; cbn [ht]; lia.
  - destruct (kt_lookup _ _ _ Eb) as (b & Etb & Eb').
    assert (Hq : exists v, b !! length pre = Some (k, v)).
    { assert (Ek : b.*1 !! length pre = Some k) by (rewrite <- Eb'; by apply list_lookup_middle).
      rewrite list_lookup_fmap in Ek. apply fmap_Some in Ek as ([k' v] & E & ->). by exists v. }
    destruct Hq as [v Ev]. unfold entry_chain.
    assert (Hc : chain_in k (table (ht0 d) ++ table (ht1 d)) = Some (drop (length pre) b)).
    { destruct t; cbn [ht] in Etb.
      - apply (chain_in_at k v _ b (length (table (ht0 d)) + j)); [rewrite concat_app; apply (dw_nodup _ _ D) | | done].
        rewrite lookup_app_r by lia. by replace (length (table (ht0 d)) + j - length (table (ht0 d)))%nat with j by lia.
      - apply (chain_in_at k v _ b j); [rewrite concat_app; apply (dw_nodup _ _ D) | | done]. by apply lookup_app_l_Some. }
    rewrite Hc, bind_Ok, (drop_S _ _ _ Ev).
    assert (Er : rest = (drop (S (length pre)) b).*1).
    { rewrite fmap_drop, <- Eb'. rewrite drop_app_ge by lia. by replace (S (length pre) - length pre)%nat with 1%nat by lia. }
    rewrite Er. apply (at_chain_spec d i t j (length pre) b (k, v)); [done | apply A | apply A | apply A | done | by rewrite (drop_S _ _ _ Ev)].
Qed.

(** The first call. *)
Lemma fresh_next p d i d0 i0 :
  dwf hash d -> it_entry i = None -> it_index i = -1 -> it_table i = false -> first_use p d i = (d0, i0) ->
  next_result (dictNext (next_fuel d) p d i) d0 (it_safe i0) (it_fingerprint i0) (entries d).*1.
Proof.
  intros D E1 E2 E3 Eu. pose proof (scan_spec (next_fuel d) p d i 0 D E1 E2) as Hn. rewrite Eu, E3 in Hn.
  rewrite keys_kt. unfold from in Hn. rewrite drop_0 in Hn. apply Hn; [done |].
  unfold buckets_left, next_fuel, dictSlots. rewrite length_drop. cbn [ht].
  pose proof (hw_len _ _ (dw_0 _ _ D)). pose proof (hw_len _ _ (dw_1 _ _ D)). unfold zlen in *. lia.
Qed.

(** ** What the other operations do while a safe iterator is in use *)

(** The keys stay where they are; a new, empty second table may have come. *)
Record same_keys d d' : Prop := {
  sk_0 : kt (ht0 d') = kt (ht0 d);
  sk_1 : kt (ht1 d') = kt (ht1 d) \/ (kt (ht1 d) = [] /\ concat (kt (ht1 d')) = []);
  sk_busy : rehashidx d <> -1 -> rehashidx d' <> -1;
  sk_iters : iterators d' = iterators d;
}.

Lemma same_keys_refl d : same_keys d d.
Proof. split; [done | by left | done | done]. Qed.

Lemma same_keys_trans d1 d2 d3 : same_keys d1 d2 -> same_keys d2 d3 -> same_keys d1 d3.
Proof.
  intros [A1 B1 C1 D1] [A2 B2 C2 D2]. split; [congruence | | auto | congruence].
  destruct B1 as [B1 | [B1 B1']], B2 as [B2 | [B2 B2']]; [left; congruence | right | right | right]; split; congruence.
Qed.

(** One bucket has other keys. *)
Record changed d (t : bool) (i : nat) (b : list K) d' : Prop := {
  ch_0 : kt (ht d' t) = <[i := b]> (kt (ht d t));
  ch_1 : kt (ht d' (negb t)) = kt (ht d (negb t));
  ch_busy : rehashidx d' = rehashidx d;
  ch_iters : iterators d' = iterators d;
}.

Definition added (k : K) d d' : Prop :=
  exists d1 t i b, same_keys d d1 /\ kt (ht d1 t) !! i = Some b /\ changed d1 t i (k :: b) d'.

Definition removed (k : K) d d' : Prop :=
  exists t i b q, kt (ht d t) !! i = Some b /\ b !! q = Some k /\ changed d t i (delete q b) d'.

Lemma step_paused d : iterators d <> 0 -> rehash_step_if hash d = Ok d.
Proof.
  intros Hi. unfold rehash_step_if, _dictRehashStep. destruct (dictIsRehashing d); [| done].
  by destruct (Z.eqb_spec (iterators d) 0).
Qed.

Lemma has_table d : dwf hash d -> 0 < size (ht0 d) -> table (ht0 d) <> [].
Proof.
  intros D Hs E. pose proof (hw_len _ _ (dw_0 _ _ D)) as El. rewrite E in El. change (0 = size (ht0 d)) in El. lia.
Qed.

Lemma expand_keys d sz r d' :
  dwf hash d -> table (ht0 d) <> [] -> dictExpand d sz = Ok (r, d') -> same_keys d d'.
Proof.
  intros D Ht. unfold dictExpand, dictIsRehashing. intros (n & _ & E)%bind_Ok_inv.
  destruct (Z.eqb_spec (rehashidx d) (-1)) as [Er |]; cbn [negb orb] in E; [| injection E as <- <-; apply same_keys_refl].
  destruct (used (ht0 d) >? sz); [injection E as <- <-; apply same_keys_refl |].
  destruct (table (ht0 d)) as [| b tbl]; [done |]. injection E as <- <-. split; cbn [ht0 ht1 rehashidx iterators]; [done | | done | done].
  right. rewrite (dw_idle _ _ D Er). split; [done |]. unfold kt. cbn [table]. rewrite fmap_replicate.
  apply concat_nil_Forall, Forall_replicate. done.
Qed.

Lemma expandIfNeeded_keys d r d' :
  dwf hash d -> 0 < size (ht0 d) -> _dictExpandIfNeeded can_resize d = Ok (r, d') -> same_keys d d'.
Proof.
  intros D Hs. pose proof (has_table d D Hs) as Ht.
  unfold _dictExpandIfNeeded. destruct (dictIsRehashing d); [intros [= <- <-]; apply same_keys_refl |].
  destruct (_ =? 0); [by apply expand_keys |]. destruct (_ && _); [by apply expand_keys |].
  intros [= <- <-]. apply same_keys_refl.
Qed.

Lemma keyIndex_keys d key i d' :
  dwf hash d -> 0 < size (ht0 d) -> _dictKeyIndex hash can_resize d key = Ok (i, d') -> same_keys d d'.
Proof.
  intros D Hs. unfold _dictKeyIndex. intros ([r d1] & E1 & E)%bind_Ok_inv.
  apply expandIfNeeded_keys in E1; [| done | done]. destruct (r =? DICT_ERR); [by injection E as <- <- |].
  apply bind_Ok_inv in E as ([idx q] & _ & E). destruct q; [by injection E as <- <- |].
  destruct (negb _); [by injection E as <- <- |]. apply bind_Ok_inv in E as ([idx' q] & _ & E).
  destruct q; by injection E as <- <-.
Qed.

Lemma set_val_keys d e v d' : dictSetVal d e v = Ok d' ->
  (forall t, kt (ht d' t) = kt (ht d t)) /\ rehashidx d' = rehashidx d /\ iterators d' = iterators d.
Proof.
  unfold dictSetVal. intros (he & Eg & E)%bind_Ok_inv. apply bind_Ok_inv in E as ([k w] & Ed & E).
  apply bind_Ok_inv in E as (tbl & Es & [= <-]). apply aget_Ok_inv in Eg as (Hi & Eg).
  destruct (he !! e_pos e) as [kw |] eqn:Eh; [| done]. injection Ed as ->.
  rewrite aset_Ok in Es by done. injection Es as <-.
  assert (Ek : forall sz m u, kt (Ht (<[Z.to_nat (e_idx e) := <[e_pos e := (k, v)]> he]> (table (ht d (e_table e)))) sz m u) = kt (ht d (e_table e))).
  { intros. rewrite kt_insert, list_fmap_insert. cbn [fst].
    rewrite (list_insert_id he.*1) by (by rewrite list_lookup_fmap, Eh). apply list_insert_id. by apply lookup_kt. }
  split; [| by destruct (e_table e)]. intros t. destruct (e_table e), t; cbn [set_ht ht ht0 ht1]; try done; apply Ek.
Qed.

Lemma add_keys d k v r d' :
  dwf hash d -> 0 < size (ht0 d) -> iterators d <> 0 -> dictAdd hash junk can_resize d k v = Ok (r, d') ->
  same_keys d d' \/ added k d d'.
Proof.
  intros D Hs Hi. unfold dictAdd, dictAddRaw. rewrite (step_paused d Hi), bind_Ok.
  intros ([e d2] & E & E2)%bind_Ok_inv. apply bind_Ok_inv in E as ([i d1] & E1 & E).
  apply keyIndex_keys in E1; [| done | done]. destruct (i =? -1); [injection E as <- <-; injection E2 as <- <-; by left |].
  apply bind_Ok_inv in E as (h & Ec & [= <- <-]). apply bind_Ok_inv in E2 as (d3 & Ev & [= <- <-]).
  apply set_val_keys in Ev as (Hk & Hr & Hit). right. set (t := dictIsRehashing d1) in *.
  unfold ht_cons in Ec. apply bind_Ok_inv in Ec as (he & Eg & Ec). apply bind_Ok_inv in Ec as (tbl & Es & [= <-]).
  apply aget_Ok_inv in Eg as (Hi0 & Eg). rewrite aset_Ok in Es by done.
  injection Es as <-. exists d1, t, (Z.to_nat i), he.*1. split; [done |]. split; [by apply lookup_kt |].
  set (h := Ht _ _ _ _) in *. destruct (ht_set d1 t h) as [Ht1 Ht2].
  split; [by rewrite Hk, Ht1; unfold h; rewrite kt_insert | by rewrite Hk, Ht2 | rewrite Hr; by destruct t | rewrite Hit; by destruct t].
Qed.

Lemma find_same d key e d' : iterators d <> 0 -> dictFind hash d key = Ok (e, d') -> d' = d.
Proof.
  intros Hi. unfold dictFind. destruct (_ =? 0); [by intros [= _ <-] |]. rewrite (step_paused d Hi), bind_Ok.
  intros ([i q] & _ & E)%bind_Ok_inv. destruct q; [by injection E |]. destruct (negb _); [by injection E |].
  apply bind_Ok_inv in E as ([i' q'] & _ & E). by injection E.
Qed.

Lemma fetch_same d key v d' : iterators d <> 0 -> dictFetchValue hash d key = Ok (v, d') -> d' = d.
Proof.
  intros Hi. unfold dictFetchValue. intros ([e d1] & E1%find_same & E)%bind_Ok_inv; [| done].
  destruct e; [apply bind_Ok_inv in E as (w & _ & E) |]; by injection E as _ <-.
Qed.

Lemma added_same k d d1 d2 : added k d d1 -> (forall t, kt (ht d2 t) = kt (ht d1 t)) -> rehashidx d2 = rehashidx d1 ->
  iterators d2 = iterators d1 -> added k d d2.
Proof.
  intros (d0 & t & i & b & S & E & []) Hk Hr Hi. exists d0, t, i, b. split; [done |]. split; [done |].
  split; [by rewrite Hk | by rewrite Hk | congruence | congruence].
Qed.

Lemma added_iters k d d' : added k d d' -> iterators d' = iterators d.
Proof. intros (d1 & t & i & b & S & _ & C). by rewrite (ch_iters _ _ _ _ _ C), (sk_iters _ _ S). Qed.

Lemma replace_keys d k v r d' :
  dwf hash d -> 0 < size (ht0 d) -> iterators d <> 0 -> dictReplace hash junk can_resize d k v = Ok (r, d') ->
  same_keys d d' \/ added k d d'.
Proof.
  intros D Hs Hi. unfold dictReplace. intros ([r1 d1] & E1 & E)%bind_Ok_inv.
  apply add_keys in E1; [| done | done | done]. destruct (r1 =? DICT_OK); [by injection E as _ <- |].
  assert (Hi1 : iterators d1 = iterators d) by (destruct E1 as [S | A]; [apply S | by eapply added_iters]).
  apply bind_Ok_inv in E as ([e d2] & Ef%find_same & E); [| by rewrite Hi1]. subst d2.
  apply bind_Ok_inv in E as (e' & _ & E). apply bind_Ok_inv in E as (old & _ & E).
  apply bind_Ok_inv in E as (d3 & Ev & [= _ <-]). apply set_val_keys in Ev as (Hk & Hr & Hit).
  destruct E1 as [S | A]; [left; eapply same_keys_trans; [exact S |] | right; by eapply added_same].
  split; [apply (Hk false) | left; apply (Hk true) | by rewrite Hr | done].
Qed.

Lemma unlink_keys d t idx q e h : ht_unlink (ht d t) idx q = Ok (e, h) -> removed e.1 d (set_ht d t h).
Proof.
  unfold ht_unlink. intros (he & Eg & E)%bind_Ok_inv. apply bind_Ok_inv in E as (e' & Ed & E).
  apply bind_Ok_inv in E as (tbl & Es & [= <- <-]). apply aget_Ok_inv in Eg as (Hi & Eg). rewrite aset_Ok in Es by done.
  injection Es as <-. destruct (he !! q) as [e0 |] eqn:Eq; [| done]. injection Ed as ->.
  exists t, (Z.to_nat idx), he.*1, q. split; [by apply lookup_kt |]. split; [by rewrite list_lookup_fmap, Eq |].
  set (h := Ht _ _ _ _). destruct (ht_set d t h) as [Ht1 Ht2].
  split; [rewrite Ht1; unfold h; by rewrite kt_insert, list_fmap_delete | by rewrite Ht2 | by destruct t | by destruct t].
Qed.

Lemma found_key (h : dictht K V) key idx q e h' :
  ht_search hash h key = Ok (idx, Some q) -> ht_unlink h idx q = Ok (e, h') -> e.1 = key.
Proof.
  unfold ht_search, ht_unlink. intros (he & Eg & [= <- Ef])%bind_Ok_inv. rewrite Eg, bind_Ok.
  destruct (find_pos_Some _ _ _ Ef) as [v Ev]. rewrite Ev. cbn [deref]. rewrite bind_Ok.
  intros (tbl & _ & [= <- _])%bind_Ok_inv. done.
Qed.

Lemma delete_keys d k r d' :
  iterators d <> 0 -> dictDelete hash d k = Ok (r, d') -> same_keys d d' \/ removed k d d'.
Proof.
  intros Hi. unfold dictDelete, dictGenericDelete. destruct (_ =? 0); [intros [= _ <-]; left; apply same_keys_refl |].
  rewrite (step_paused d Hi), bind_Ok. intros ([idx q] & E0 & E)%bind_Ok_inv. destruct q as [q |].
  - apply bind_Ok_inv in E as ([e h] & Eu & [= _ <-]). right. rewrite <- (found_key _ _ _ _ _ _ E0 Eu). by eapply (unlink_keys d false).
  - destruct (negb _); [injection E as _ <-; left; apply same_keys_refl |].
    apply bind_Ok_inv in E as ([idx' q] & E1 & E). destruct q as [q |]; [| injection E as _ <-; left; apply same_keys_refl].
    apply bind_Ok_inv in E as ([e h] & Eu & [= _ <-]). right. rewrite <- (found_key _ _ _ _ _ _ E1 Eu). by eapply (unlink_keys d true).
Qed.

(** What the operations of a loop body do with the keys; an explicit
    [dictRehash] does not look at [iterators] and is not among them. *)
Lemma exec_keys d o r d' :
  dwf hash d -> 0 < size (ht0 d) -> iterators d <> 0 -> dict_exec hash junk can_resize d o = Ok (r, d') ->
  match o with
  | DAdd k _ | DReplace k _ => same_keys d d' \/ added k d d'
  | DDelete k => same_keys d d' \/ removed k d d'
  | DFetch _ | DResize => same_keys d d'
  | DRehash _ => True
  end.
Proof.
  intros D Hs Hi. destruct o as [k v | k v | k | k | | n]; cbn [dict_exec]; [| | | | | done].
  - intros ([r1 d1] & E & [= _ <-])%bind_Ok_inv. by eapply add_keys.
  - intros ([[r1 f] d1] & E & [= _ <-])%bind_Ok_inv. by eapply replace_keys.
  - intros ([v d1] & E & [= _ <-])%bind_Ok_inv. apply fetch_same in E as ->; [apply same_keys_refl | done].
  - intros ([[r1 e] d1] & E & [= _ <-])%bind_Ok_inv. by eapply delete_keys.
  - intros ([r1 d1] & E & [= _ <-])%bind_Ok_inv. unfold dictResize in E.
    destruct (_ || _); [injection E as _ <-; apply same_keys_refl |]. apply expand_keys in E; [done | done | by apply has_table].
Qed.

(** ** An iterator across the operations *)

Lemma same_at d i t j rest d' : dwf hash d -> at_entry d i t j rest -> same_keys d d' ->
  at_entry d' i t j rest /\ later d' t j = later d t j.
Proof.
  intros D [Et Ei En Ex [pre Eb] Hb] [S0 S1 Sb _].
  assert (Ht : kt (ht d' t) = kt (ht d t)).
  { destruct t; cbn [ht] in *; [| done]. destruct S1 as [S1 | [S1 _]]; [done | by rewrite S1 in Eb]. }
  split; [split; [done | done | done | done | exists pre; by rewrite Ht | auto] |].
  unfold later. rewrite Ht. destruct t; [done |]. by destruct S1 as [-> | [-> ->]].
Qed.

Lemma concat_insert_split {A} (l : list (list A)) j i b b' : l !! i = Some b ->
  concat (drop j (<[i := b']> l)) = concat (drop j l) /\ (i < j)%nat \/
  exists R, concat (drop j l) ≡ₚ b ++ R /\ concat (drop j (<[i := b']> l)) ≡ₚ b' ++ R /\ (j <= i)%nat.
Proof.
  intros E. destruct (decide (i < j)%nat) as [Hlt | Hge]; [left; by rewrite drop_insert_lt | right].
  rewrite drop_insert_ge by lia. destruct (concat_split (drop j l) (i - j) b) as (R & E1 & E2).
  - rewrite lookup_drop. by replace (j + (i - j))%nat with i by lia.
  - exists R. split; [done |]. split; [apply E2 | lia].
Qed.

(** One bucket has changed: the keys to come lose its old keys and get its new
    ones, if it is to come. *)
Lemma later_changed d t0 i0 b0 b d' t j :
  kt (ht d t0) !! i0 = Some b0 -> changed d t0 i0 b d' ->
  later d' t j = later d t j \/ exists R, later d t j ≡ₚ b0 ++ R /\ later d' t j ≡ₚ b ++ R.
Proof.
  intros E [C0 C1 _ _]. unfold later. destruct t0, t; cbn [ht negb] in *.
  - rewrite C0, !app_nil_r. destruct (concat_insert_split _ (S j) i0 b0 b E) as [[-> _] | (R & P1 & P2 & _)]; [by left | right; by exists R].
  - rewrite C0, C1. destruct (concat_split _ _ _ E) as (R & P1 & P2). right. exists (concat (drop (S j) (kt (ht0 d))) ++ R).
    rewrite P1, (P2 b). split; apply Permutation_app_swap_app.
  - rewrite C1. by left.
  - rewrite C0, C1. destruct (concat_insert_split _ (S j) i0 b0 b E) as [[-> _] | (R & P1 & P2 & _)]; [by left | right].
    exists (R ++ concat (kt (ht1 d))). by rewrite P1, P2, <- !app_assoc.
Qed.

Lemma changed_at d i t j rest t0 i0 b0 b d' :
  at_entry d i t j rest -> kt (ht d t0) !! i0 = Some b0 -> changed d t0 i0 b d' ->
  (forall pre, b0 = pre ++ rest -> exists pre', b = pre' ++ rest) -> at_entry d' i t j rest.
Proof.
  intros [Et Ei En Ex [pre Eb] Hb] E [C0 C1 Cr _] Hs. split; try done; [| by rewrite Cr].
  destruct (decide (t0 = t)) as [-> | Hne].
  - rewrite C0. destruct (decide (i0 = j)) as [-> | Hj].
    + rewrite Eb in E. injection E as <-. destruct (Hs pre eq_refl) as [pre' ->]. exists pre'.
      apply list_lookup_insert_eq. by apply lookup_lt_Some in Eb.
    + exists pre. by rewrite list_lookup_insert_ne.
  - exists pre. replace t with (negb t0) in * by (by destruct t0, t). by rewrite C1.
Qed.

Lemma added_at k d i t j rest d' : dwf hash d -> at_entry d i t j rest -> added k d d' ->
  at_entry d' i t j rest /\ (later d' t j = later d t j \/ later d' t j ≡ₚ k :: later d t j).
Proof.
  intros D A (d1 & t0 & i0 & b & S & E & C). destruct (same_at _ _ _ _ _ _ D A S) as [A1 L1]. rewrite <- L1. split.
  - eapply changed_at; [done | done | done |]. intros pre ->. by exists (k :: pre).
  - destruct (later_changed _ _ _ _ _ _ t j E C) as [-> | (R & P1 & P2)]; [by left | right]. by rewrite P1, P2.
Qed.

Lemma removed_at k d i t j rest d' : at_entry d i t j rest -> k ∉ rest -> removed k d d' ->
  at_entry d' i t j rest /\ (later d' t j = later d t j \/ later d t j ≡ₚ k :: later d' t j).
Proof.
  intros A Hk (t0 & i0 & b & q & E & Eq & C). split.
  - eapply changed_at; [done | done | done |]. intros pre ->. apply lookup_app_Some in Eq as [Eq | [_ Eq]].
    + exists (delete q pre). rewrite !delete_take_drop. apply lookup_lt_Some in Eq.
      rewrite take_app_le, drop_app_le by lia. by rewrite app_assoc.
    + destruct Hk. by eapply list_elem_of_lookup_2.
  - destruct (later_changed _ _ _ _ _ _ t j E C) as [-> | (R & P1 & P2)]; [by left | right].
    rewrite P1, P2. by rewrite (delete_Permutation b q k Eq) at 1.
Qed.

Lemma same_perm d d' : same_keys d d' -> (entries d').*1 = (entries d).*1.
Proof. intros [S0 S1 _ _]. rewrite !keys_kt, S0. by destruct S1 as [-> | [-> ->]]. Qed.

Lemma added_new k d d' : dwf hash d' -> added k d d' -> k ∉ (entries d).*1.
Proof.
  intros D' (d1 & t & i & b & S & E & [C0 C1 _ _]). rewrite <- (same_perm _ _ S).
  pose proof (dw_nodup _ _ D') as N. rewrite keys_kt in N |- *. destruct (concat_split _ _ _ E) as (R & P1 & P2).
  assert (P : concat (kt (ht0 d')) ++ concat (kt (ht1 d')) ≡ₚ k :: concat (kt (ht0 d1)) ++ concat (kt (ht1 d1))).
  { destruct t; cbn [ht negb] in *; rewrite C0, C1, P1, (P2 (k :: b)); cbn [app]; [by rewrite <- Permutation_middle | done]. }
  rewrite P in N. by apply NoDup_cons in N as [? _].
Qed.

(** ** The body of a loop *)

Definition iter_ok (o : @iter_op K V) : bool :=
  match o with IOp (DDelete _) | IOp (DRehash _) => false | _ => true end.
Definition is_add (o : @iter_op K V) : bool :=
  match o with IOp (DAdd _ _) | IOp (DReplace _ _) => true | _ => false end.
Definition is_this (o : @iter_op K V) : bool := match o with IThis => true | _ => false end.

(** How the keys to come may differ after some operations: [k0], the key of the
    entry in hand, can only be lost; others can only be gained. *)
Record drift (k0 : K) (adds dels : bool) d (L : list K) d' (L' : list K) (n : nat) : Prop := {
  df_len : (length L' <= length L + n)%nat;
  df_keep : forall k, k ∈ L -> k = k0 \/ k ∈ L';
  df_exact : adds = false -> k0 ∉ L -> L' ≡ₚ L;
  df_new : dels = false -> forall k, k ∈ L' -> k ∈ L \/ k ∉ (entries d).*1;
  df_keys : dels = false -> (entries d).*1 ⊆ (entries d').*1;
}.

Lemma keys_abs d k : k ∈ (entries d).*1 <-> is_Some (abs d !! k).
Proof.
  pose proof (abs_None d k) as Hn. destruct (abs d !! k) eqn:E.
  - split; [by eexists |]. intros _. destruct (decide (k ∈ (entries d).*1)) as [| Hk]; [done |]. by apply Hn in Hk.
  - split; [| by intros [? [=]]]. intros Hin. by apply Hn in Hin.
Qed.

Lemma at_size d i t j rest : dwf hash d -> at_entry d i t j rest -> 0 < size (ht0 d).
Proof.
  intros D [_ _ _ _ [pre E] Hb]. destruct t; [apply (dw_busy _ _ D (Hb eq_refl)) |].
  destruct (kt_lookup _ _ _ E) as (he & El & _). apply lookup_lt_Some in El.
  rewrite <- (hw_len _ _ (dw_0 _ _ D)). unfold zlen. cbn [ht] in El. lia.
Qed.

Lemma drift_same k0 a b d L d' n : (b = false -> (entries d).*1 ⊆ (entries d').*1) -> drift k0 a b d L d' L n.
Proof. intros Hk. split; [lia | auto | done | auto | done]. Qed.

Lemma abs_sub d d' : (forall k, is_Some (abs d !! k) -> is_Some (abs d' !! k)) -> (entries d).*1 ⊆ (entries d').*1.
Proof. intros Hs k. rewrite !keys_abs. apply Hs. Qed.

(** An operation that is not a deletion loses no key. *)
Lemma exec_sub (m : gmap K V) o k : (forall k, o <> DDelete k) -> is_Some (m !! k) -> is_Some ((map_exec m o).2 !! k).
Proof.
  intros Ho Hk. destruct o as [k1 v | k1 v | k1 | k1 | | n]; cbn [map_exec snd]; try done.
  - destruct (m !! k1) eqn:E; [done |]. cbn. by rewrite lookup_insert_is_Some'; right.
  - rewrite lookup_insert_is_Some'. by right.
  - by destruct (Ho k1).
Qed.

Lemma op_drift k0 d i t j rest o :
  dwf hash d -> iterators d <> 0 -> zlen (entries d) <= 536870912 ->
  at_entry d i t j rest -> k0 ∉ rest -> iter_ok o = true ->
  exists r d', dict_exec hash junk can_resize d (op_of k0 o) = Ok (r, d') /\ dwf hash d' /\
    iterators d' = iterators d /\ at_entry d' i t j rest /\
    abs d' = (map_exec (abs d) (op_of k0 o)).2 /\ zlen (entries d') <= zlen (entries d) + 1 /\
    drift k0 (is_add o) (is_this o) d (later d t j) d' (later d' t j) 1.
Proof.
  intros D Hi Hn A Hk Ho. destruct (dict_exec_spec hash junk can_resize d (op_of k0 o) D Hn) as (d' & E & D' & Ea & Hl).
  pose proof (exec_keys d _ _ d' D (at_size _ _ _ _ _ D A) Hi E) as Hx. eexists _, d'. split; [exact E |]. split; [done |].
  assert (Hsub : is_this o = false -> (entries d).*1 ⊆ (entries d').*1).
  { intros Ht. apply abs_sub. intros k Hk'. rewrite Ea. apply exec_sub; [| done]. intros k1. destruct o as [| []]; done. }
  assert (Hsame : same_keys d d' -> iterators d' = iterators d /\ at_entry d' i t j rest /\
    drift k0 (is_add o) (is_this o) d (later d t j) d' (later d' t j) 1).
  { intros S. destruct (same_at _ _ _ _ _ _ D A S) as [A' ->]. split; [apply S |]. split; [done | by apply drift_same]. }
  assert (Hadd : forall k, is_add o = true -> added k d d' -> iterators d' = iterators d /\ at_entry d' i t j rest /\
    drift k0 (is_add o) (is_this o) d (later d t j) d' (later d' t j) 1).
  { intros k Hao S. destruct (added_at _ _ _ _ _ _ _ D A S) as [A' L]. split; [by eapply added_iters |]. split; [done |].
    destruct L as [-> | L]; [by apply drift_same |]. pose proof (added_new k d d' D' S) as Hnew. split; [| | | | done].
    - rewrite L. cbn. lia.
    - intros k' Hk'. right. rewrite L. by right.
    - by rewrite Hao.
    - intros _ k'. rewrite L, elem_of_cons. intros [-> |]; auto. }
  assert (Hdel : o = IThis -> removed k0 d d' -> iterators d' = iterators d /\ at_entry d' i t j rest /\
    drift k0 (is_add o) (is_this o) d (later d t j) d' (later d' t j) 1).
  { intros -> S. destruct (removed_at _ _ _ _ _ _ _ A Hk S) as [A' L]. split; [by destruct S as (? & ? & ? & ? & _ & _ & []) |].
    split; [done |]. destruct L as [-> | L]; [by apply drift_same |]. split; [| | | done | done].
    - rewrite L. cbn. lia.
    - intros k'. rewrite L, elem_of_cons. intros [-> |]; auto.
    - intros _ Hnot. destruct Hnot. rewrite L. by left. }
  assert (Hall : iterators d' = iterators d /\ at_entry d' i t j rest /\
    drift k0 (is_add o) (is_this o) d (later d t j) d' (later d' t j) 1).
  { destruct o as [| []]; cbn [op_of] in Hx; try done; try (by apply Hsame); destruct Hx as [Hx | Hx]; eauto. }
  destruct Hall as (H1 & H2 & H3). done.
Qed.

Lemma drift_trans k0 a1 b1 a2 b2 d L d1 L1 d2 L2 n1 n2 :
  drift k0 a1 b1 d L d1 L1 n1 -> drift k0 a2 b2 d1 L1 d2 L2 n2 ->
  drift k0 (a1 || a2) (b1 || b2) d L d2 L2 (n1 + n2).
Proof.
  intros [A1 B1 C1 E1 F1] [A2 B2 C2 E2 F2]. split.
  - lia.
  - intros k [-> | Hk]%B1; auto.
  - intros [Ha1 Ha2]%orb_false_iff Hk. pose proof (C1 Ha1 Hk) as P. rewrite C2; [done | done | by rewrite P].
  - intros [Hb1 Hb2]%orb_false_iff k [Hk | Hk]%(E2 Hb2); [by apply E1 | right]. intros Hin. by apply Hk, F1.
  - intros [Hb1 Hb2]%orb_false_iff. etrans; [by apply F1 | by apply F2].
Qed.

Lemma body_drift k0 i t j rest ops : forall d,
  dwf hash d -> iterators d <> 0 \/ ops = [] -> zlen (entries d) + zlen ops <= 536870912 ->
  at_entry d i t j rest -> k0 ∉ rest -> forallb iter_ok ops = true ->
  exists d', body hash junk can_resize k0 ops d = Ok d' /\ dwf hash d' /\
    iterators d' = iterators d /\ at_entry d' i t j rest /\
    abs d' = (map_run (op_of k0 <$> ops) (abs d)).2 /\ zlen (entries d') <= zlen (entries d) + zlen ops /\
    drift k0 (existsb is_add ops) (existsb is_this ops) d (later d t j) d' (later d' t j) (length ops) /\ (ops = [] -> d' = d).
Proof.
  induction ops as [| o ops IH]; intros d D Hi Hn A Hk Ho.
  - exists d. split; [done |]. split; [done |]. split; [done |]. split; [done |]. split; [done |].
    split; [change (zlen []) with 0; lia |]. split; [by apply drift_same | done].
  - destruct Hi as [Hi |]; [| done]. rewrite zlen_cons in *. pose proof (zlen_nonneg ops).
    cbn [forallb] in Ho. apply andb_true_iff in Ho as [Ho Hos].
    destruct (op_drift k0 d i t j rest o) as (r & d1 & E1 & D1 & I1 & A1 & Ea1 & Hl1 & Dr1); [done | done | lia | done | done | done |].
    destruct (IH d1) as (d2 & E2 & D2 & I2 & A2 & Ea2 & Hl2 & Dr2 & _); [done | left; congruence | lia | done | done | done |].
    exists d2. split.
    { unfold body in *. rewrite fmap_cons. cbn [dict_run]. rewrite E1, bind_Ok.
      apply bind_Ok_inv in E2 as ([rs d2'] & E2 & [= ->]). by rewrite E2. }
    split; [done |]. split; [congruence |]. split; [done |]. split; [| split; [lia | split; [| done]]].
    + rewrite Ea2, Ea1, fmap_cons. cbn [map_run]. destruct (map_exec (abs d) (op_of k0 o)) as [r1 m1]. cbn [snd].
      by destruct (map_run (op_of k0 <$> ops) m1).
    + by apply (drift_trans k0 _ _ _ _ _ _ d1 (later d1 t j) _ _ 1).
Qed.

(** ** Whole loops *)

Definition turn (s : script K V) : list (@iter_op K V) := match s with [] => [] | (ops, _) :: _ => ops end.

Fixpoint all_ops (s : script K V) : list (@iter_op K V) :=
  match s with [] => [] | (ops, _) :: s => ops ++ all_ops s end.

(** What a loop should see and do, on the map: an entry that is returned is in
    the map at that moment, with the value it has then. *)
Fixpoint follows (l : list (K * V)) (s : script K V) (m m' : gmap K V) : Prop :=
  match l with
  | [] => m' = m
  | (k, v) :: l => m !! k = Some v /\ follows l (tail s) (map_run (op_of k <$> turn s) m).2 m'
  end.

(** What holds after the loop, from a point where the keys [F] are to come. *)
Record walked (F : list K) d (s : script K V) (l : list (K * V)) d' : Prop := {
  wk_wf : dwf hash d';
  wk_iters : iterators d' = iterators d;
  wk_follows : follows l s (abs d) (abs d');
  wk_all : F ⊆ l.*1;
  wk_exact : existsb is_add (all_ops s) = false -> l.*1 ≡ₚ F;
  wk_once : existsb is_this (all_ops s) = false -> NoDup l.*1 /\ forall k, k ∈ l.*1 -> k ∈ F \/ k ∉ (entries d).*1;
}.

Lemma turn_all s : exists rest, all_ops s = turn s ++ rest /\ all_ops (tail s) = rest.
Proof. destruct s as [| [ops q] s]; [by exists [] | by exists (all_ops s)]. Qed.

(** One turn, then the rest of the loop. *)
Lemma walked_cons k v rest L d s l d' d2 L2 os n :
  dwf hash d -> (k, v) ∈ entries d -> k ∉ rest ++ L -> all_ops s = turn s ++ os -> all_ops (tail s) = os ->
  drift k (existsb is_add (turn s)) (existsb is_this (turn s)) d L d2 L2 n -> iterators d2 = iterators d ->
  abs d2 = (map_run (op_of k <$> turn s) (abs d)).2 ->
  walked (rest ++ L2) d2 (tail s) l d' -> walked (k :: rest ++ L) d s ((k, v) :: l) d'.
Proof.
  intros D Hin Hk Eo Et [_ Keep Exact New Keys] Ei Ea [Wwf Wit Wf Wall Wex Wonce].
  rewrite elem_of_app in Hk. rewrite Et in Wex, Wonce. split; [done | congruence | | | |].
  - cbn [follows]. rewrite <- Ea. split; [| done]. unfold abs. apply elem_of_list_to_map; [apply (dw_nodup _ _ D) | done].
  - intros k' [-> | Hk']%elem_of_cons; [by left | right]. apply Wall. apply elem_of_app in Hk' as [Hr | Hl'].
    + apply elem_of_app. by left.
    + destruct (Keep _ Hl') as [-> | ?]; [by destruct Hk; right | apply elem_of_app; by right].
  - rewrite Eo, existsb_app. intros [Ha Ha']%orb_false_iff. cbn. f_equiv. rewrite Wex by done. f_equiv. apply Exact; [done |].
    intros ?. apply Hk. by right.
  - rewrite Eo, existsb_app. intros [Hb Hb']%orb_false_iff. destruct (Wonce Hb') as [Nl Hl].
    assert (Hkd : k ∈ (entries d).*1) by (apply list_elem_of_fmap; by exists (k, v)). cbn. split.
    + apply NoDup_cons. split; [| done]. intros [Hr | Hr]%Hl.
      * apply elem_of_app in Hr as [Hr | Hr]; [apply Hk; by left |].
        destruct (New Hb _ Hr) as [? | Hnot]; [apply Hk; by right | done].
      * by apply Hr, Keys.
    + intros k' [-> | [Hr | Hr]%Hl]%elem_of_cons; [left; by left | | right; intros ?; by apply Hr, Keys].
      apply elem_of_app in Hr as [Hr | Hr]; [left; right; apply elem_of_app; by left |].
      destruct (New Hb _ Hr) as [? | ?]; [left; right; apply elem_of_app; by right | by right].
Qed.

Lemma follow_walk fuel : forall p s d1 d i F safe fp,
  next_result (dictNext (next_fuel d1) p d1 i) d safe fp F -> dwf hash d -> NoDup F ->
  iterators d <> 0 \/ s = [] -> forallb iter_ok (all_ops s) = true ->
  zlen (entries d) + zlen (all_ops s) <= 536870912 -> (length F + length (all_ops s) < fuel)%nat ->
  exists l p' d' i', walk hash junk can_resize fuel p s d1 i = Ok (l, p', d', i') /\ walked F d s l d' /\
    unused i' = false /\ it_safe i' = safe /\ it_fingerprint i' = fp /\ (s = [] -> p' = p /\ d' = d).
Proof.
  induction fuel as [| fuel IH]; intros p s d1 d i F safe fp Hnext D N Hi Ho Hn Hf; [lia |].
  destruct Hnext as (e & i1 & E & Hu & Hsafe & Hfp & HF). cbn [walk]. rewrite E, bind_Ok. destruct F as [| k F].
  - subst e. exists [], p, d, i1. split; [done |]. split; [| done]. split; try done. intros _. split; [constructor | by intros k ?%not_elem_of_nil].
  - destruct HF as (v & -> & Hin & (t & j & rest & A & ->)). cbn [fst].
    destruct (turn_all s) as (os & Eo & Et). rewrite Eo in *. rewrite forallb_app in Ho. apply andb_true_iff in Ho as [Ho1 Ho2].
    rewrite zlen_app in Hn. rewrite length_app in Hf. pose proof (zlen_nonneg os). apply NoDup_cons in N as [Nk N].
    destruct (body_drift k i1 t j rest (turn s) d) as (d2 & Eb & D2 & I2 & A2 & Ea & Hl & Dr & Hnil);
      [done | by destruct Hi as [| ->]; [left | right] | lia | done | by intros ?; apply Nk, elem_of_app; left | done |].
    assert (Es : exists p2, run_turn hash junk can_resize k p s d = Ok (p2, tail s, d2) /\ (s = [] -> p2 = p /\ d2 = d)).
    { unfold run_turn. destruct s as [| [ops q] s]; cbn [turn tail] in *; [exists p; by rewrite Hnil | exists q; by rewrite Eb]. }
    destruct Es as (p2 & -> & Hs2). rewrite bind_Ok.
    assert (P2 : pos d2 i1 (rest ++ later d2 t j)) by (by exists t, j, rest).
    destruct (IH p2 (tail s) d2 d2 i1 (rest ++ later d2 t j) safe fp) as (l & p' & d' & i' & Ew & W & Hu' & Hs' & Hf' & Hnil').
    { rewrite <- Hsafe, <- Hfp. by apply pos_next. }
    { done. }
    { by eapply pos_nodup. }
    { destruct Hi as [Hi | ->]; [left; congruence | by right]. }
    { by rewrite Et. }
    { rewrite Et. lia. }
    { rewrite Et. pose proof (df_len _ _ _ _ _ _ _ _ Dr). cbn [length] in Hf. rewrite length_app in *. lia. }
    rewrite Ew. exists ((k, v) :: l), p', d', i'. split; [done |]. split; [| split; [done |]; split; [done |]; split; [done |]].
    2: { intros ->. destruct (Hs2 eq_refl) as [-> ->]. by apply Hnil'. }
    by eapply walked_cons.
Qed.

Lemma follows_nil l : forall m m', follows l [] m m' -> m' = m /\ forall k v, (k, v) ∈ l -> m !! k = Some v.
Proof.
  induction l as [| [k v] l IH]; intros m m'; cbn [follows].
  - intros ->. split; [done |]. by intros k v ?%not_elem_of_nil.
  - intros [Hk [E Hl]%IH]. split; [done |]. intros k' v' [[= -> ->] | Hin]%elem_of_cons; [done | by apply Hl].
Qed.

(** C31: a safe iterator.  A loop over any well-formed dictionary, in the middle
    of a rehash or not, whose body may delete the entry in hand and add, replace,
    look up and resize at will, ends without touching freed memory.  Every entry
    it returns is in the dictionary at that moment, with the value it has then;
    every key that was there when the loop began is returned; without additions
    each is returned exactly once and nothing else, and without deletions none is
    returned twice.  The operations of the body act as on a finite map and the
    count of running iterators is what it was. *)
Theorem safe_iteration p s d :
  dwf hash d -> 0 <= iterators d -> forallb iter_ok (all_ops s) = true ->
  zlen (entries d) + zlen (all_ops s) <= 536870912 ->
  exists l d', iterate hash junk can_resize (S (length (entries d) + length (all_ops s))) dictGetSafeIterator p s d = Ok (l, d') /\
    dwf hash d' /\ iterators d' = iterators d /\ follows l s (abs d) (abs d') /\
    (forall k, is_Some (abs d !! k) -> k ∈ l.*1) /\
    (existsb is_add (all_ops s) = false -> l.*1 ≡ₚ (entries d).*1) /\
    (existsb is_this (all_ops s) = false -> NoDup l.*1).
Proof.
  intros D Hi Ho Hn. pose proof (fresh_next p d dictGetSafeIterator _ _ D eq_refl eq_refl eq_refl eq_refl) as Hnext.
  set (d0 := set_iterators d (iterators d + 1)) in *. assert (D0 : dwf hash d0) by (by destruct D).
  destruct (follow_walk (S (length (entries d) + length (all_ops s))) p s d d0 dictGetSafeIterator _ true _ Hnext D0)
    as (l & p' & d' & i' & Ew & [W1 W2 W3 W4 W5 W6] & Hu & Hs & _ & _);
    [apply (dw_nodup _ _ D) | left; cbn; lia | done | done | rewrite length_fmap; lia |].
  exists l, (set_iterators d' (iterators d' - 1)). split.
  { unfold iterate. rewrite Ew, bind_Ok. unfold dictReleaseIterator. by rewrite Hu, Hs. }
  split; [by destruct W1 |]. split; [cbn; rewrite W2; cbn; lia |]. split; [exact W3 |].
  split; [intros k Hk%keys_abs; by apply W4 |]. split; [exact W5 | intros Ht; by apply W6].
Qed.

Lemma release_kept p d i : unused i = false -> it_safe i = false -> it_fingerprint i = dictFingerprint p d ->
  dictReleaseIterator p d i = Ok d.
Proof. intros Hu Hs Hf. unfold dictReleaseIterator. by rewrite Hu, Hs, Hf, Z.eqb_refl. Qed.

Lemma fresh_unsafe p d fp : dwf hash d -> dictFingerprint p d = fp ->
  next_result (dictNext (next_fuel d) p d dictGetIterator) d false fp (entries d).*1.
Proof.
  intros D Ef. apply (fresh_next p d dictGetIterator d (Iter false (-1) false None None fp)); try done.
  unfold first_use. by rewrite Ef.
Qed.

(** An iterator that is not safe: a loop that only calls [dictNext] returns every
    entry exactly once, and the fingerprint is found unchanged at its end. *)
Theorem unsafe_iteration p d :
  dwf hash d -> zlen (entries d) <= 536870912 ->
  exists l, iterate hash junk can_resize (S (length (entries d))) dictGetIterator p [] d = Ok (l, d) /\ l ≡ₚ entries d.
Proof.
  intros D Hn. pose proof (fresh_unsafe p d _ D eq_refl) as Hnext.
  destruct (follow_walk (S (length (entries d))) p [] d d dictGetIterator _ false _ Hnext D (dw_nodup _ _ D))
    as (l & p' & d' & i' & Ew & W & Hu & Hs & Hf & Hnil);
    [by right | done | clear Hnext; change (zlen (all_ops [])) with 0; lia | clear Hnext; rewrite length_fmap; cbn; lia |].
  destruct (Hnil eq_refl) as [-> ->]. exists l. split.
  { unfold iterate. rewrite Ew, bind_Ok, release_kept by done. done. }
  pose proof (wk_exact _ _ _ _ _ W eq_refl) as P. destruct (follows_nil _ _ _ (wk_follows _ _ _ _ _ W)) as [_ Hl].
  assert (Nl : NoDup l) by (apply (NoDup_fmap_1 fst); rewrite P; apply (dw_nodup _ _ D)).
  apply submseteq_length_Permutation; [| by apply Permutation_length in P; rewrite !length_fmap in P; rewrite P].
  apply NoDup_submseteq; [done |]. intros [k v] Hin%Hl. by apply elem_of_list_to_map_2 in Hin.
Qed.
End buckets.

(** ** Examples *)

(** Five keys of which one has gone to the second table. *)
Definition part_moved : dict Z Z :=
  match dict_run u32 0 true [DAdd 1 10; DAdd 5 50; DAdd 9 90; DAdd 2 20; DAdd 6 60] dictCreate with
  | Ok (_, d) => d
  | Fault _ => dictCreate
  end.

Lemma part_moved_wf : dwf u32 part_moved.
Proof.
  unfold part_moved.
  destruct (dict_run_spec u32 0 true [DAdd 1 10; DAdd 5 50; DAdd 9 90; DAdd 2 20; DAdd 6 60] dictCreate) as (d & -> & Dd & _);
    [apply dictCreate_wf | vm_compute; congruence | exact Dd].
Qed.

Definition busy_body : script Z Z :=
  [([IThis], (64, 128)); ([IOp (DAdd 7 70); IOp (DAdd 24 240); IOp (DReplace 6 61)], (64, 128)); ([IThis], (64, 128))].

Lemma safe_iteration_witness :
  rehashidx part_moved = 0 /\ exists d', iterate u32 0 true 11 dictGetSafeIterator (64, 128) busy_body part_moved =
    Ok ([(9, 90); (5, 50); (1, 10); (2, 20); (24, 240); (6, 61); (7, 70)], d') /\
    abs d' !! 9 = None /\ abs d' !! 1 = None /\ abs d' !! 6 = Some 61 /\ abs d' !! 24 = Some 240.
Proof.
  split; [reflexivity |].
  destruct (safe_iteration u32 0 true (64, 128) busy_body part_moved part_moved_wf) as (l & d' & E & _ & _ & Hf & _);
    [vm_compute; congruence | reflexivity | vm_compute; congruence |].
  exists d'. assert (El : l = [(9, 90); (5, 50); (1, 10); (2, 20); (24, 240); (6, 61); (7, 70)])
    by (vm_compute in E; injection E as <- _; reflexivity).
  subst l. split; [exact E |]. clear E. destruct Hf as (_ & _ & _ & _ & _ & _ & _ & Ea). rewrite Ea. clear Ea. split_and!; vm_compute; reflexivity.
Defined.

(** What is outside the contract shows.  A [dictRehash] of the caller does not
    look at [iterators] and makes a safe iterator return keys twice; deleting the
    entry after the one in hand leaves the iterator a freed one; a look-up, which
    takes a rehashing step, trips the assertion of an iterator that is not safe. *)
Theorem iteration_misused :
  (exists l d', iterate u32 0 true 20 dictGetSafeIterator (64, 128) [([], (64, 128)); ([IOp (DRehash 2)], (64, 128))] part_moved = Ok (l, d') /\
    ~ NoDup l.*1) /\
  iterate u32 0 true 20 dictGetSafeIterator (64, 128) [([IOp (DDelete 5)], (64, 128))] part_moved = Fault UseAfterFree /\
  iterate u32 0 true 20 dictGetIterator (64, 128) [([IOp (DFetch 1)], (64, 128))] part_moved = Fault AssertFailed.
Proof.
  split; [| split; vm_compute; reflexivity]. eexists _, _. split; [vm_compute; reflexivity |].
  intros N. apply (bool_decide_pack _) in N. vm_compute in N. done.
Qed.

(** [(signed) ht->size] is an [int]: over a table of 2^31 slots an iterator returns
    nothing. *)
Theorem dictNext_huge {K V} `{EqDecision K} (d : dict K V) p fuel :
  rehashidx d = -1 -> size (ht0 d) = 2147483648 ->
  exists i, dictNext (S fuel) p d dictGetSafeIterator = Ok (None, set_iterators d (iterators d + 1), i).
Proof.
  intros Hr Hs. eexists. cbn [dictNext].
  replace (first_use p d dictGetSafeIterator) with (set_iterators d (iterators d + 1), @dictGetSafeIterator K) by reflexivity.
  change (size (ht _ _)) with (size (ht0 d)). rewrite Hs. unfold dictIsRehashing.
  change (rehashidx (set_iterators _ _)) with (rehashidx d). rewrite Hr. reflexivity.
Qed.
