(* ===== verification/DictScan.v ===== *)
(** * dict.c: scanning a dictionary while it changes

    [dictScan] of [Dict] takes a cursor that counts the buckets with the order of
    its bits reversed.  Here: what the reversal of a 64-bit word does, which part
    of the hashes one call covers, and what a whole scan shows although the
    dictionary grows, shrinks and is rehashed between the calls. *)
From S2P Require Import Prelude Bits Dict.

(** ** Bits *)

Lemma bits_below x n : 0 <= n -> 0 <= x -> (forall i, n <= i -> Z.testbit x i = false) -> x < 2 ^ n.
Proof.
  intros Hn Hx Hb. assert (E : x = x mod 2 ^ n); [| rewrite E; apply Z.mod_pos_bound; lia].
  apply Z.bits_inj'. intros i Hi. destruct (Z.lt_ge_cases i n).
  - by rewrite Z.mod_pow2_bits_low.
  - rewrite Hb by done. by rewrite Z.mod_pow2_bits_high.
Qed.

Lemma below_bits x n i : 0 <= n -> 0 <= x < 2 ^ n -> n <= i -> Z.testbit x i = false.
Proof. intros Hn Hx Hi. rewrite <- (Z.mod_small x (2 ^ n)) by done. by apply Z.mod_pow2_bits_high. Qed.

Lemma not64_bit x i : 0 <= x < 2 ^ 64 -> 0 <= i < 64 -> Z.testbit (not64 x) i = negb (Z.testbit x i).
Proof.
  intros Hx Hi. unfold not64. change 18446744073709551615 with (Z.ones 64).
  rewrite Z.sub_nocarry_ldiff.
  - rewrite Z.ldiff_spec, Z.ones_spec_low by lia. done.
  - rewrite Z.ldiff_ones_r by lia. rewrite Z.shiftr_div_pow2, Z.div_small by lia. done.
Qed.

Lemma not64_range x : 0 <= x < 2 ^ 64 -> 0 <= not64 x < 2 ^ 64.
Proof. unfold not64. lia. Qed.

Lemma rev_step_bit s v m i :
  0 <= v < 2 ^ 64 -> 0 <= m < 2 ^ 64 -> 0 <= s -> 0 <= i < 64 ->
  let m' := (rev_step s (v, m)).2 in
  Z.testbit (rev_step s (v, m)).1 i = if Z.testbit m' i then Z.testbit v (i + s) else Z.testbit v (i - s).
Proof.
  intros Hv Hm Hs Hi m'. unfold rev_step in *. cbn [fst snd] in *. fold m'.
  assert (Hm' : 0 <= m' < 2 ^ 64).
  { unfold m'. assert (Hu : 0 <= u64 (Z.shiftl m s) < 2 ^ 64) by apply u64_range. split.
    - apply Z.lxor_nonneg. lia.
    - apply bits_below; [lia | apply Z.lxor_nonneg; lia |]. intros j Hj.
      by rewrite Z.lxor_spec, !(below_bits _ 64) by lia. }
  rewrite Z.lor_spec, !Z.land_spec, Z.shiftr_spec by lia.
  change (18446744073709551615 - m') with (not64 m'). rewrite not64_bit by lia.
  unfold u64. change 18446744073709551616 with (2 ^ 64). rewrite Z.mod_pow2_bits_low by lia.
  destruct (Z.testbit m' i); cbn [negb]; rewrite ?andb_true_r, ?andb_false_r, ?orb_false_r, ?orb_false_l; [done |].
  destruct (Z.lt_ge_cases i s); [| by rewrite Z.shiftl_spec by lia].
  rewrite Z.shiftl_spec_low by lia. by rewrite Z.testbit_neg_r by lia.
Qed.

Lemma rev_step_range s v m :
  0 <= v < 2 ^ 64 -> 0 <= m < 2 ^ 64 -> 0 <= s ->
  0 <= (rev_step s (v, m)).1 < 2 ^ 64 /\ 0 <= (rev_step s (v, m)).2 < 2 ^ 64.
Proof.
  intros Hv Hm Hs. unfold rev_step. cbn [fst snd]. set (m' := Z.lxor m _).
  assert (Hu : forall x, 0 <= u64 x < 2 ^ 64) by apply u64_range.
  assert (Hm' : 0 <= m' < 2 ^ 64).
  { unfold m'. specialize (Hu (Z.shiftl m s)). split.
    - apply Z.lxor_nonneg. lia.
    - apply bits_below; [lia | apply Z.lxor_nonneg; lia |]. intros j Hj.
      by rewrite Z.lxor_spec, !(below_bits _ 64) by lia. }
  split; [| done]. change (18446744073709551615 - m') with (not64 m'). pose proof (not64_range m' Hm').
  split; [apply Z.lor_nonneg; split; apply Z.land_nonneg; lia |]. apply bits_below; [lia | |].
  - apply Z.lor_nonneg; split; apply Z.land_nonneg; lia.
  - intros j Hj. rewrite Z.lor_spec, !Z.land_spec. rewrite (below_bits m' 64), (below_bits (not64 m') 64) by lia.
    by rewrite !andb_false_r.
Qed.


(** The bit a halving step of width [s] takes to bit [i]. *)
Definition partner (s i : Z) : Z := if Z.testbit i (Z.log2 s) then i - s else i + s.

Definition below64 : list Z := Z.of_nat <$> seq 0 64.

Lemma all_below64 (P : Z -> bool) i : forallb P below64 = true -> 0 <= i < 64 -> P i = true.
Proof.
  intros Hf Hi. rewrite forallb_forall in Hf. apply Hf, list_elem_of_In, list_elem_of_fmap.
  exists (Z.to_nat i). split; [lia |]. apply elem_of_seq. lia.
Qed.

(** A step with mask [m'], whose bit [i] is that of [i] at the halved width. *)
Definition halving (s m m' : Z) : bool :=
  (m' =? (rev_step s (0, m)).2) && (0 <=? s) && (0 <=? m) && (m <? 2 ^ 64) &&
  forallb (fun i => Bool.eqb (Z.testbit m' i) (negb (Z.testbit i (Z.log2 s))) && (0 <=? partner s i) && (partner s i <? 64)) below64.

Lemma halving_bit s v m m' i : halving s m m' = true -> 0 <= v < 2 ^ 64 -> 0 <= i < 64 ->
  Z.testbit (rev_step s (v, m)).1 i = Z.testbit v (partner s i) /\ 0 <= (rev_step s (v, m)).1 < 2 ^ 64 /\ 0 <= partner s i < 64.
Proof.
  unfold halving. rewrite !andb_true_iff. intros ((((Em & Hs) & Hm0) & Hm1) & Hf) Hv Hi.
  pose proof (all_below64 _ i Hf Hi) as Hb. cbn beta in Hb. rewrite !andb_true_iff in Hb. destruct Hb as ((Hb & H0) & H1).
  split; [| split; [apply rev_step_range; lia | lia]].
  rewrite rev_step_bit by lia. change ((rev_step s (v, m)).2) with ((rev_step s (0, m)).2).
  apply Z.eqb_eq in Em. rewrite <- Em. apply Bool.eqb_prop in Hb. rewrite Hb. unfold partner.
  by destruct (Z.testbit i (Z.log2 s)).
Qed.

Lemma rev_spec v : 0 <= v < 2 ^ 64 ->
  0 <= rev v < 2 ^ 64 /\ forall i, 0 <= i < 64 -> Z.testbit (rev v) i = Z.testbit v (63 - i).
Proof.
  intros Hv.
  change (rev v) with
    (rev_step 1 ((rev_step 2 ((rev_step 4 ((rev_step 8 ((rev_step 16 ((rev_step 32 (v, 18446744073709551615)).1,
      4294967295)).1, 281470681808895)).1, 71777214294589695)).1, 1085102592571150095)).1, 3689348814741910323)).1.
  assert (Hs : forall s m m' w, halving s m m' = true -> 0 <= w < 2 ^ 64 ->
    0 <= (rev_step s (w, m)).1 < 2 ^ 64 /\
    forall i, 0 <= i < 64 -> Z.testbit (rev_step s (w, m)).1 i = Z.testbit w (partner s i) /\ 0 <= partner s i < 64).
  { intros s m m' w Hh Hw. split; [apply (halving_bit s w m m' 0 Hh Hw); lia |].
    intros i Hi. destruct (halving_bit s w m m' i Hh Hw Hi) as (E & _ & R). exact (conj E R). }
  destruct (Hs 32 18446744073709551615 4294967295 v ltac:(by vm_compute) Hv) as [R1 B1].
  destruct (Hs 16 4294967295 281470681808895 _ ltac:(by vm_compute) R1) as [R2 B2].
  destruct (Hs 8 281470681808895 71777214294589695 _ ltac:(by vm_compute) R2) as [R3 B3].
  destruct (Hs 4 71777214294589695 1085102592571150095 _ ltac:(by vm_compute) R3) as [R4 B4].
  destruct (Hs 2 1085102592571150095 3689348814741910323 _ ltac:(by vm_compute) R4) as [R5 B5].
  destruct (Hs 1 3689348814741910323 6148914691236517205 _ ltac:(by vm_compute) R5) as [R6 B6].
  split; [exact R6 |]. intros i Hi.
  destruct (B6 i Hi) as [-> H6]. destruct (B5 _ H6) as [-> H5]. destruct (B4 _ H5) as [-> H4].
  destruct (B3 _ H4) as [-> H3]. destruct (B2 _ H3) as [-> H2]. destruct (B1 _ H2) as [-> H1].
  f_equal. apply Z.eqb_eq.
  apply (all_below64 (fun i => partner 32 (partner 16 (partner 8 (partner 4 (partner 2 (partner 1 i))))) =? 63 - i));
    [by vm_compute | exact Hi].
Qed.

Lemma rev_rev v : 0 <= v < 2 ^ 64 -> rev (rev v) = v.
Proof.
  intros Hv. destruct (rev_spec v Hv) as [R B]. destruct (rev_spec _ R) as [R' B'].
  apply Z.bits_inj'. intros i Hi. destruct (Z.lt_ge_cases i 64).
  - rewrite B', B by lia. f_equal. lia.
  - by rewrite !(below_bits _ 64) by lia.
Qed.

(** ** Masks of low bits *)

Lemma lor_low a n c : 0 <= n -> 0 <= c < 2 ^ n -> Z.lor (a * 2 ^ n) c = a * 2 ^ n + c.
Proof.
  intros Hn Hc. rewrite <- Z.lxor_lor, <- Z.add_nocarry_lxor; [done | |];
    rewrite <- Z.shiftl_mul_pow2 by done; apply Z.bits_inj'; intros i Hi;
    rewrite Z.land_spec, Z.bits_0; (destruct (Z.lt_ge_cases i n);
      [by rewrite Z.shiftl_spec_low by done | by rewrite (below_bits c n), andb_false_r by lia]).
Qed.

Lemma lor_ones a n : 0 <= n -> Z.lor a (Z.ones n) = (a / 2 ^ n) * 2 ^ n + (2 ^ n - 1).
Proof.
  intros Hn. rewrite <- lor_low by lia. apply Z.bits_inj'. intros i Hi. rewrite !Z.lor_spec.
  replace (2 ^ n - 1) with (Z.ones n) by (rewrite Z.ones_equiv; lia).
  rewrite <- Z.shiftl_mul_pow2, <- Z.shiftr_div_pow2 by done. destruct (Z.lt_ge_cases i n).
  - by rewrite Z.ones_spec_low, !orb_true_r by lia.
  - rewrite Z.ones_spec_high, !orb_false_r, Z.shiftl_spec, Z.shiftr_spec by lia. f_equal. lia.
Qed.

Lemma land_not64 x n : 0 <= x < 2 ^ 64 -> 0 <= n <= 64 -> Z.land x (not64 (Z.ones n)) = (x / 2 ^ n) * 2 ^ n.
Proof.
  intros Hx Hn. rewrite <- Z.shiftl_mul_pow2, <- Z.shiftr_div_pow2 by lia.
  assert (Ho : 0 <= Z.ones n < 2 ^ 64).
  { rewrite Z.ones_equiv. pose proof (Z.pow_le_mono_r 2 n 64). lia. }
  apply Z.bits_inj'. intros i Hi. rewrite Z.land_spec. destruct (Z.lt_ge_cases i n).
  - rewrite not64_bit, Z.ones_spec_low, andb_false_r by lia. by rewrite Z.shiftl_spec_low by lia.
  - rewrite Z.shiftl_spec, Z.shiftr_spec by lia. replace (i - n + n) with i by lia. destruct (Z.lt_ge_cases i 64).
    + by rewrite not64_bit, Z.ones_spec_high, andb_true_r by lia.
    + by rewrite (below_bits x 64) by lia.
Qed.

Lemma ones_pow k : 2 ^ k - 1 = Z.ones k.
Proof. rewrite Z.ones_equiv. lia. Qed.

(** ** The reversed cursor *)

Lemma u64_below h : 0 <= u64 h < 2 ^ 64.
Proof. change (2 ^ 64) with 18446744073709551616. apply u64_range. Qed.

Definition next_cursor (v k : Z) : Z := rev (u64 (rev (Z.lor v (not64 (2 ^ k - 1))) + 1)).

Lemma next_cursor_def v k : rev (u64 (rev (Z.lor v (not64 (2 ^ k - 1))) + 1)) = next_cursor v k.
Proof. unfold next_cursor. reflexivity. Qed.

(** Where a hash lies in the order of the scan. *)
Definition pos (h : Z) : Z := rev (u64 h).

Lemma rev_fill v k : 0 <= v < 2 ^ 64 -> 0 <= k <= 64 ->
  rev (Z.lor v (not64 (2 ^ k - 1))) = (rev v / 2 ^ (64 - k)) * 2 ^ (64 - k) + (2 ^ (64 - k) - 1).
Proof.
  intros Hv Hk. rewrite <- lor_ones, ones_pow by lia. destruct (rev_spec v Hv) as [R B].
  assert (Ho : 0 <= Z.ones k < 2 ^ 64).
  { rewrite Z.ones_equiv. pose proof (Z.pow_le_mono_r 2 k 64). lia. }
  pose proof (not64_range _ Ho) as Hn.
  assert (Hl : 0 <= Z.lor v (not64 (Z.ones k)) < 2 ^ 64).
  { split; [apply Z.lor_nonneg; lia |]. apply bits_below; [lia | apply Z.lor_nonneg; lia |].
    intros i Hi. by rewrite Z.lor_spec, !(below_bits _ 64) by lia. }
  destruct (rev_spec _ Hl) as [R' B']. apply Z.bits_inj'. intros i Hi. rewrite Z.lor_spec.
  destruct (Z.lt_ge_cases i 64).
  - rewrite B', Z.lor_spec, B, not64_bit by lia. f_equal. destruct (Z.lt_ge_cases i (64 - k)).
    + by rewrite (Z.ones_spec_low (64 - k)), Z.ones_spec_high by lia.
    + by rewrite (Z.ones_spec_high (64 - k)), Z.ones_spec_low by lia.
  - rewrite (Z.ones_spec_high (64 - k)) by lia. by rewrite !(below_bits _ 64) by lia.
Qed.

Lemma next_cursor_spec v k : 0 <= v < 2 ^ 64 -> 0 <= k <= 64 ->
  let q := rev v / 2 ^ (64 - k) in
  (next_cursor v k = 0 /\ q + 1 = 2 ^ k) \/
  (next_cursor v k <> 0 /\ 0 <= next_cursor v k < 2 ^ k /\ rev (next_cursor v k) = (q + 1) * 2 ^ (64 - k)).
Proof.
  intros Hv Hk q. destruct (rev_spec v Hv) as [R _].
  assert (E64 : 2 ^ 64 = 2 ^ k * 2 ^ (64 - k)) by (rewrite <- Z.pow_add_r by lia; f_equal; lia).
  pose proof (Z.div_mod (rev v) (2 ^ (64 - k)) ltac:(lia)). pose proof (Z.mod_pos_bound (rev v) (2 ^ (64 - k)) ltac:(lia)).
  assert (Hq : 0 <= q < 2 ^ k) by (unfold q; nia).
  unfold next_cursor. rewrite rev_fill by done. fold q.
  replace (q * 2 ^ (64 - k) + (2 ^ (64 - k) - 1) + 1) with ((q + 1) * 2 ^ (64 - k)) by lia.
  destruct (Z.eq_dec (q + 1) (2 ^ k)) as [E | E].
  - left. split; [| done]. rewrite E, <- E64. by vm_compute.
  - right. assert (Hx : 0 < (q + 1) * 2 ^ (64 - k) < 2 ^ 64) by nia.
    rewrite u64_small by lia. set (x := (q + 1) * 2 ^ (64 - k)) in *.
    destruct (rev_spec x ltac:(lia)) as [Rx Bx]. rewrite rev_rev by lia.
    split; [| split; [| done]].
    + intros E0. apply (f_equal rev) in E0. rewrite rev_rev in E0 by lia. change (rev 0) with 0 in E0. lia.
    + split; [lia |]. apply bits_below; [lia | lia |]. intros i Hi. destruct (Z.lt_ge_cases i 64).
      * rewrite Bx by lia. unfold x. rewrite <- Z.shiftl_mul_pow2 by lia. apply Z.shiftl_spec_low. lia.
      * apply (below_bits _ 64); lia.
Qed.

Lemma pos_range h : 0 <= pos h < 2 ^ 64.
Proof. apply rev_spec, u64_below. Qed.

Lemma pos_bit h i : 0 <= i < 64 -> Z.testbit (pos h) i = Z.testbit h (63 - i).
Proof.
  intros Hi. destruct (rev_spec (u64 h) (u64_below h)) as [_ B]. etransitivity; [exact (B i Hi) |].
  unfold u64. change 18446744073709551616 with (2 ^ 64). by rewrite Z.mod_pow2_bits_low by lia.
Qed.

(** Hashes in the same interval of the order have the same low bits. *)
Lemma same_slot h v k : 0 <= v < 2 ^ 64 -> 0 <= k <= 64 -> pos h / 2 ^ (64 - k) = rev v / 2 ^ (64 - k) ->
  Z.land h (2 ^ k - 1) = Z.land v (2 ^ k - 1).
Proof.
  intros Hv Hk E. destruct (rev_spec v Hv) as [_ B].
  rewrite !ones_pow. apply Z.bits_inj'. intros j Hj. rewrite !Z.land_spec. destruct (Z.lt_ge_cases j k).
  - rewrite Z.ones_spec_low, !andb_true_r by lia.
    replace j with (63 - (63 - j)) by lia. rewrite <- pos_bit, <- B by lia.
    replace (63 - j) with ((63 - j - (64 - k)) + (64 - k)) by lia.
    rewrite <- !Z.shiftr_spec, !Z.shiftr_div_pow2 by lia. by rewrite E.
  - by rewrite Z.ones_spec_high, !andb_false_r by lia.
Qed.

(** ** The loop over the larger table *)

Lemma land_window a c k0 k1 : 0 <= a -> 0 <= k0 <= k1 -> 0 <= c < 2 ^ k0 ->
  Z.land (a * 2 ^ k0 + c) (Z.lxor (2 ^ k0 - 1) (2 ^ k1 - 1)) = (a mod 2 ^ (k1 - k0)) * 2 ^ k0.
Proof.
  intros Ha Hk Hc. rewrite <- lor_low by lia. rewrite !ones_pow, <- Z.land_ones, <- !Z.shiftl_mul_pow2 by lia.
  apply Z.bits_inj'. intros i Hi. rewrite Z.land_spec, Z.lor_spec, Z.lxor_spec.
  destruct (Z.lt_ge_cases i k0).
  - by rewrite !Z.ones_spec_low, andb_false_r, Z.shiftl_spec_low by lia.
  - rewrite !Z.shiftl_spec, (below_bits c k0), orb_false_r, Z.ones_spec_high, xorb_false_l, Z.land_spec by lia.
    f_equal. destruct (Z.lt_ge_cases i k1); [by rewrite !Z.ones_spec_low by lia | by rewrite !Z.ones_spec_high by lia].
Qed.

Lemma larger_step w c k0 : 0 <= w -> 0 <= k0 <= 64 -> 0 <= c < 2 ^ k0 -> (w + 1) * 2 ^ k0 < 2 ^ 64 ->
  let v := w * 2 ^ k0 + c in
  Z.lor (Z.land (u64 (Z.lor v (2 ^ k0 - 1) + 1)) (not64 (2 ^ k0 - 1))) (Z.land v (2 ^ k0 - 1)) = (w + 1) * 2 ^ k0 + c.
Proof.
  intros Hw Hk Hc Hlt v. rewrite !ones_pow, lor_ones by lia.
  assert (Ev : v / 2 ^ k0 = w) by (unfold v; rewrite Z.div_add_l, Z.div_small by lia; lia).
  rewrite Ev. replace (w * 2 ^ k0 + (2 ^ k0 - 1) + 1) with ((w + 1) * 2 ^ k0) by lia.
  rewrite u64_small by lia. rewrite land_not64, Z.div_mul by lia. rewrite Z.land_ones by lia.
  assert (Em : v mod 2 ^ k0 = c).
  { unfold v. rewrite Z.add_comm, Z.mod_add by lia. apply Z.mod_small. lia. }
  rewrite Em. apply lor_low; lia.
Qed.

#[local] Opaque rev next_cursor.

Section scan.
  Context {K V : Type} `{Countable K}.
  Variable hash : K -> Z.
  Implicit Types h : dictht K V.
  Implicit Types d : dict K V.

(** The size of the smaller table, by which a call of [dictScan] advances. *)
Definition low_size d : Z :=
  if dictIsRehashing d then Z.min (size (ht0 d)) (size (ht1 d)) else size (ht0 d).

Lemma in_ents h i b e : table h !! i = Some b -> e ∈ b -> e ∈ ents h.
Proof.
  intros E He. unfold ents. apply list_elem_of_In, in_concat. exists b.
  split; apply list_elem_of_In; [by eapply list_elem_of_lookup_2 | done].
Qed.

Lemma scan_larger_spec h k0 k1 c n : forall fuel w,
  zlen (table h) = 2 ^ k1 -> 0 <= k0 <= k1 -> k1 <= 32 -> 0 <= c < 2 ^ k0 -> 0 <= w ->
  w + Z.of_nat (S n) = 2 ^ (k1 - k0) -> (S n <= fuel)%nat ->
  exists es, scan_larger fuel h (2 ^ k0 - 1) (2 ^ k1 - 1) (w * 2 ^ k0 + c) = Ok (es, 2 ^ k1 + c) /\
    (forall e, e ∈ es -> e ∈ ents h) /\
    forall u b e, w <= u < 2 ^ (k1 - k0) -> table h !! Z.to_nat (u * 2 ^ k0 + c) = Some b -> e ∈ b -> e ∈ es.
Proof.
  induction n as [| n IH]; intros [| fuel] w Hl Hk Hk1 Hc Hw Hn Hf; try lia; cbn [scan_larger];
    assert (E1 : 2 ^ k1 = 2 ^ (k1 - k0) * 2 ^ k0) by (rewrite <- Z.pow_add_r by lia; f_equal; lia);
    assert (H32 : 2 ^ k1 <= 2 ^ 32) by (apply Z.pow_le_mono_r; lia);
    assert (Hw1 : (w + 1) * 2 ^ k0 <= 2 ^ k1) by (rewrite E1; apply Z.mul_le_mono_nonneg_r; lia);
    pose proof (Z.mul_nonneg_nonneg w (2 ^ k0) Hw ltac:(lia)) as Hw0;
    assert (Hb : 0 <= w * 2 ^ k0 + c < 2 ^ k1) by lia.
  - rewrite (ones_pow k1), Z.land_ones, <- (ones_pow k1) by lia. rewrite (Z.mod_small (w * 2 ^ k0 + c)) by lia.
    destruct (aget_is_Ok (table h) (w * 2 ^ k0 + c)) as (b & Eb & Ea); [lia |]. rewrite Ea, bind_Ok.
    rewrite larger_step, land_window by lia. replace (w + 1) with (2 ^ (k1 - k0)) by lia.
    rewrite Z.mod_same by lia. cbn [Z.mul Z.eqb]. exists b. split; [do 3 f_equal; lia |]. split.
    + intros e He. by eapply in_ents.
    + intros u b' e Hu Eb' He. assert (u = w) as -> by lia. rewrite Eb in Eb'. by injection Eb' as <-.
  - rewrite (ones_pow k1), Z.land_ones, <- (ones_pow k1) by lia. rewrite (Z.mod_small (w * 2 ^ k0 + c)) by lia.
    destruct (aget_is_Ok (table h) (w * 2 ^ k0 + c)) as (b & Eb & Ea); [lia |]. rewrite Ea, bind_Ok.
    rewrite larger_step, land_window by lia. rewrite (Z.mod_small (w + 1)) by lia.
    destruct (Z.eqb_spec ((w + 1) * 2 ^ k0) 0) as [E0 | _]; [nia |].
    destruct (IH fuel (w + 1)) as (es & E & Hin & Hout); [done .. | lia | lia | lia |]. rewrite E, bind_Ok.
    exists (b ++ es). split; [done |]. split.
    + intros e [He | He]%elem_of_app; [by eapply in_ents | by apply Hin].
    + intros u b' e Hu Eb' He. apply elem_of_app. destruct (Z.eq_dec u w) as [-> | Hne].
      * rewrite Eb in Eb'. injection Eb' as <-. by left.
      * right. eapply (Hout u); [lia | done | done].
Qed.

(** The bucket of an entry, by the bits of the cursor. *)
Lemma bucket_of h k n key x : htwf hash h -> size h = 2 ^ k -> sizemask h = 2 ^ k - 1 -> 0 <= k ->
  (key, x) ∈ ents h -> Z.land (hash key) (2 ^ k - 1) = n -> exists b, table h !! Z.to_nat n = Some b /\ (key, x) ∈ b.
Proof.
  intros W Hs Hm Hk Hin Hn. destruct (ents_lookup h key x Hin) as (i & b & Ei & Hb).
  pose proof (hw_slot _ _ W i b key x Ei Hb) as E. rewrite Hm, Hn in E. exists b. split; [| done]. by rewrite E, Nat2Z.id.
Qed.

Lemma low_pow d : dwf hash d -> dictSize d <> 0 -> exists k, 2 <= k <= 30 /\ low_size d = 2 ^ k.
Proof.
  intros D Hn. unfold low_size, dictIsRehashing, dictSize in *.
  assert (Hp : forall h, htwf hash h -> size h <> 0 -> exists k, 2 <= k <= 30 /\ size h = 2 ^ k).
  { intros h W Hs. destruct (hw_size _ _ W) as [-> | (k & Hk & E & _)]; [done | by exists k]. }
  destruct (Z.eqb_spec (rehashidx d) (-1)) as [E | E]; cbn [negb].
  - rewrite (dw_idle _ _ D E) in Hn. cbn [used] in Hn. apply Hp; [apply D |]. intros E0.
    destruct (hw_size _ _ (dw_0 _ _ D)) as [Er | (k & Hk & Es & _)]; [| lia]. rewrite Er in Hn. by cbn in Hn.
  - destruct (dw_busy _ _ D E) as (_ & H0 & H1 & _). destruct (Z.min_spec (size (ht0 d)) (size (ht1 d))) as [[_ ->] | [_ ->]];
      apply Hp; [apply D | lia | apply D | lia].
Qed.
(** Everything of one table that the cursor points at. *)
Definition emits d (v k : Z) (es : list (K * V)) : Prop :=
  (forall e, e ∈ es -> e ∈ entries d) /\
  forall key x, (key, x) ∈ entries d -> Z.land (hash key) (2 ^ k - 1) = Z.land v (2 ^ k - 1) -> (key, x) ∈ es.

Lemma table_pow h : htwf hash h -> 0 < size h ->
  exists k, 2 <= k <= 30 /\ size h = 2 ^ k /\ sizemask h = 2 ^ k - 1 /\ zlen (table h) = 2 ^ k.
Proof.
  intros W Hs. destruct (hw_size _ _ W) as [-> | (k & Hk & E & Em)]; [done |].
  exists k. rewrite Em, (hw_len _ _ W), E. auto.
Qed.

(** A call that is not made during a rehash, on the table [h]. *)
Lemma scan_one h k v : htwf hash h -> sizemask h = 2 ^ k - 1 -> zlen (table h) = 2 ^ k -> 0 <= k ->
  exists b, aget (table h) (Z.land v (sizemask h)) = Ok b /\ (forall e, e ∈ b -> e ∈ ents h) /\
    forall key x, (key, x) ∈ ents h -> Z.land (hash key) (2 ^ k - 1) = Z.land v (2 ^ k - 1) -> (key, x) ∈ b.
Proof.
  intros W Hm Hl Hk. rewrite Hm.
  assert (Hr : 0 <= Z.land v (2 ^ k - 1) < 2 ^ k).
  { rewrite ones_pow, Z.land_ones by lia. apply Z.mod_pos_bound. lia. }
  destruct (aget_is_Ok (table h) (Z.land v (2 ^ k - 1))) as (b & Eb & Ea); [lia |].
  exists b. split; [done |]. split; [intros e He; by eapply in_ents |]. intros key x Hin E.
  destruct (bucket_of h k _ key x W ltac:(by rewrite <- Hl, (hw_len _ _ W)) Hm Hk Hin E) as (b' & Eb' & Hb').
  rewrite Eb in Eb'. by injection Eb' as <-.
Qed.

(** The two tables of a rehash, the smaller one first. *)
Lemma scan_two h0 h1 k0 k1 v fuel :
  htwf hash h0 -> htwf hash h1 -> size h0 = 2 ^ k0 -> size h1 = 2 ^ k1 -> 2 <= k0 <= k1 -> k1 <= 30 ->
  0 <= v < 2 ^ k0 -> size h1 <= Z.of_nat fuel ->
  exists b es, aget (table h0) (Z.land v (sizemask h0)) = Ok b /\
    scan_larger fuel h1 (sizemask h0) (sizemask h1) v = Ok (es, 2 ^ k1 + v) /\
    (forall e, e ∈ b ++ es -> e ∈ ents h0 \/ e ∈ ents h1) /\
    forall key x, (key, x) ∈ ents h0 \/ (key, x) ∈ ents h1 -> Z.land (hash key) (2 ^ k0 - 1) = Z.land v (2 ^ k0 - 1) -> (key, x) ∈ b ++ es.
Proof.
  intros W0 W1 S0 S1 Hk Hk1 Hv Hf.
  destruct (table_pow h0 W0 ltac:(lia)) as (k0' & Hk0' & S0' & M0 & L0).
  destruct (table_pow h1 W1 ltac:(lia)) as (k1' & Hk1' & S1' & M1 & L1).
  assert (k0' = k0) as -> by (apply (Z.pow_inj_r 2); lia). assert (k1' = k1) as -> by (apply (Z.pow_inj_r 2); lia).
  destruct (scan_one h0 k0 v W0 M0 L0 ltac:(lia)) as (b & Ea & Hb & Hall).
  set (P := 2 ^ (k1 - k0)). assert (HP : 1 <= P) by (unfold P; pose proof (Z.pow_pos_nonneg 2 (k1 - k0)); lia).
  assert (HP1 : P <= 2 ^ k1) by (unfold P; apply Z.pow_le_mono_r; lia).
  destruct (scan_larger_spec h1 k0 k1 v (Z.to_nat (P - 1)) fuel 0) as (es & E & Hes & Hin);
    [done | lia | lia | lia | lia | fold P; lia | lia |].
  cbn [Z.mul Z.add] in E. exists b, es. rewrite M0, M1 in *. split; [done |]. split; [done |]. split.
  - intros e [He | He]%elem_of_app; [left | right]; auto.
  - intros key x [He | He] Eh; apply elem_of_app; [left; by apply Hall | right].
    destruct (bucket_of h1 k1 _ key x W1 S1 M1 ltac:(lia) He eq_refl) as (b1 & Eb1 & Hb1).
    set (n := Z.land (hash key) (2 ^ k1 - 1)) in *.
    assert (Hn : 0 <= n < 2 ^ k1) by (unfold n; rewrite ones_pow, Z.land_ones by lia; apply Z.mod_pos_bound; lia).
    assert (En : n mod 2 ^ k0 = v).
    { rewrite !ones_pow, !Z.land_ones, (Z.mod_small v) in Eh by lia. rewrite <- Eh. unfold n.
      rewrite ones_pow, Z.land_ones by lia. rewrite Z.mod_mod_divide; [done |].
      exists P. unfold P. rewrite <- Z.pow_add_r by lia. f_equal. lia. }
    pose proof (Z.div_mod n (2 ^ k0) ltac:(lia)) as Dm. rewrite En in Dm.
    apply (Hin (n / 2 ^ k0) b1); [| | done].
    + split; [apply Z.div_pos; lia |]. apply Z.div_lt_upper_bound; [lia |]. unfold P. rewrite <- Z.pow_add_r by lia.
      replace (k0 + (k1 - k0)) with k1 by lia. lia.
    + replace (n / 2 ^ k0 * 2 ^ k0 + v) with n by lia. done.
Qed.

(** The cursor that is left only depends on the low bits. *)
Lemma fill_low v w k : 0 <= k -> v mod 2 ^ k = w mod 2 ^ k -> 0 <= v < 2 ^ 64 -> 0 <= w < 2 ^ 64 -> k <= 64 ->
  Z.lor v (not64 (2 ^ k - 1)) = Z.lor w (not64 (2 ^ k - 1)).
Proof.
  intros Hk E Hv Hw Hk64. rewrite ones_pow. apply Z.bits_inj'. intros i Hi. rewrite !Z.lor_spec.
  assert (Ho : 0 <= Z.ones k < 2 ^ 64).
  { rewrite Z.ones_equiv. pose proof (Z.pow_le_mono_r 2 k 64). lia. }
  pose proof (not64_range _ Ho).
  destruct (Z.lt_ge_cases i 64); [| by rewrite !(below_bits _ 64) by lia].
  rewrite not64_bit by lia. destruct (Z.lt_ge_cases i k).
  - rewrite <- (Z.mod_pow2_bits_low v k), <- (Z.mod_pow2_bits_low w k) by lia. by rewrite E.
  - by rewrite Z.ones_spec_high, !orb_true_r by lia.
Qed.

Lemma scan_rehash h0 h1 k k1 v fuel :
  htwf hash h0 -> htwf hash h1 -> size h0 = 2 ^ k -> size h1 = 2 ^ k1 ->
  2 <= k <= k1 -> k1 <= 30 -> 0 <= v < 2 ^ k -> size h1 <= Z.of_nat fuel ->
  exists es, (de ← aget (table h0) (Z.land v (sizemask h0));
              '(es, v) ← scan_larger fuel h1 (sizemask h0) (sizemask h1) v;
              mret (de ++ es, rev (u64 (rev (Z.lor v (not64 (sizemask h0))) + 1)))) = Ok (es, next_cursor v k) /\
    (forall e, e ∈ es -> e ∈ ents h0 \/ e ∈ ents h1) /\
    forall key x, (key, x) ∈ ents h0 \/ (key, x) ∈ ents h1 -> Z.land (hash key) (2 ^ k - 1) = Z.land v (2 ^ k - 1) -> (key, x) ∈ es.
Proof.
  intros W0 W1 S0 S1 Hk Hk1 Hv Hf.
  destruct (scan_two h0 h1 k k1 v fuel W0 W1 S0 S1 Hk Hk1 Hv Hf) as (b & es & Ea & Es & Hin & Hall).
  destruct (table_pow h0 W0 ltac:(lia)) as (k' & Hk' & S' & M & _).
  assert (k' = k) as -> by (apply (Z.pow_inj_r 2); lia).
  assert (0 < 2 ^ k1 <= 2 ^ 31) by (split; [lia | apply Z.pow_le_mono_r; lia]).
  assert (2 ^ k <= 2 ^ 31) by (apply Z.pow_le_mono_r; lia).
  exists (b ++ es). rewrite Ea, bind_Ok, Es, bind_Ok. split; [| done]. rewrite M.
  rewrite (fill_low (2 ^ k1 + v) v k); [by rewrite next_cursor_def | lia | | lia | lia | lia].
  replace k1 with ((k1 - k) + k) by lia. by rewrite Z.pow_add_r, Z.add_comm, Z.mod_add by lia.
Qed.

Lemma dictScan_spec d v fuel : dwf hash d -> dictSize d <> 0 -> 0 <= v < 2 ^ 64 ->
  (dictIsRehashing d = true -> v < low_size d) -> size (ht0 d) + size (ht1 d) <= Z.of_nat fuel ->
  exists k es, 2 <= k <= 30 /\ low_size d = 2 ^ k /\ dictScan fuel d v = Ok (es, next_cursor v k) /\ emits d v k es.
Proof.
  intros D Hn Hv Hc Hf. destruct (low_pow d D Hn) as (k & Hk & El). exists k.
  unfold dictScan. destruct (Z.eqb_spec (dictSize d) 0); [done |].
  unfold low_size, dictIsRehashing, emits, entries in *. destruct (Z.eqb_spec (rehashidx d) (-1)) as [E | E]; cbn [negb andb] in *.
  - pose proof (dw_0 _ _ D) as W. destruct (table_pow (ht0 d) W ltac:(lia)) as (k' & Hk' & S' & M & L).
    assert (k' = k) as -> by (apply (Z.pow_inj_r 2); lia).
    destruct (scan_one (ht0 d) k v W M L ltac:(lia)) as (b & Ea & Hb & Hall). rewrite Ea, bind_Ok.
    cbn [mret outcome_ret]. rewrite bind_Ok. exists b. rewrite app_nil_r. rewrite M.
    rewrite (dw_idle _ _ D E). change (ents _dictReset) with (@nil (K * V)). rewrite app_nil_r.
    rewrite next_cursor_def. split; [done |]. split; [done |]. split; [reflexivity |]. split; [exact Hb | exact Hall].
  - destruct (dw_busy _ _ D E) as (_ & H0 & H1 & _). specialize (Hc eq_refl).
    destruct (table_pow (ht0 d) (dw_0 _ _ D) H0) as (k0 & Hk0 & S0 & M0 & _).
    destruct (table_pow (ht1 d) (dw_1 _ _ D) H1) as (k1 & Hk1 & S1 & M1 & _).
    assert (Hle : forall a b, 2 ^ a <= 2 ^ b -> 0 <= b -> a <= b) by (intros a b Hp Hb; apply (Z.pow_le_mono_r_iff 2) in Hp; lia).
    rewrite Z.gtb_ltb. destruct (Z.ltb_spec (size (ht1 d)) (size (ht0 d))) as [Hlt | Hge].
    + assert (k1 = k) as -> by (apply (Z.pow_inj_r 2); lia).
      destruct (scan_rehash (ht1 d) (ht0 d) k k0 v fuel) as (es & E1 & Hin & Hall);
        [apply D | apply D | done | done | split; [lia | apply Hle; lia] | lia | lia | lia |].
      exists es. split; [done |]. split; [done |]. split; [exact E1 |]. split.
      * intros e He. apply elem_of_app. destruct (Hin e He); auto.
      * intros key x He. apply Hall. apply elem_of_app in He. destruct He; auto.
    + assert (k0 = k) as -> by (apply (Z.pow_inj_r 2); lia).
      destruct (scan_rehash (ht0 d) (ht1 d) k k1 v fuel) as (es & E1 & Hin & Hall);
        [apply D | apply D | done | done | split; [lia | apply Hle; lia] | lia | lia | lia |].
      exists es. split; [done |]. split; [done |]. split; [exact E1 |]. split.
      * intros e He. apply elem_of_app. destruct (Hin e He); auto.
      * intros key x He. apply Hall. apply elem_of_app in He. destruct He; auto.
Qed.

(** ** A whole scan

    The cursor a call returns is passed to the next one; between two calls the
    dictionary may be changed by anything. *)
Fixpoint scans (fuel : nat) (ds : list (dict K V)) (v : Z) : outcome (list (list (K * V)) * Z) :=
  match ds with
  | [] => mret ([], v)
  | d :: ds =>
    '(es, v) ← dictScan fuel d v;
    if v =? 0 then mret ([es], 0)
    else '(ess, v) ← scans fuel ds v; mret (es :: ess, v)
  end.

(** No call is made during a rehash that has begun to a table smaller than the
    one the call before it advanced by. *)
Fixpoint steady (low : Z) (ds : list (dict K V)) : Prop :=
  match ds with
  | [] => True
  | d :: ds => (dictIsRehashing d = true -> low <= low_size d) /\ steady (low_size d) ds
  end.

Lemma present_size d key : dwf hash d -> is_Some (abs d !! key) -> dictSize d <> 0.
Proof.
  intros D [x Hx] E. assert (Hn : entries d = []).
  { unfold dictSize in E. rewrite (hw_used _ _ (dw_0 _ _ D)), (hw_used _ _ (dw_1 _ _ D)) in E.
    unfold entries. pose proof (zlen_nonneg (ents (ht0 d))). pose proof (zlen_nonneg (ents (ht1 d))).
    assert (Hz : forall l : list (K * V), zlen l = 0 -> l = []).
    { intros [| e l] El; [done |]. rewrite zlen_cons in El. pose proof (zlen_nonneg l). lia. }
    by rewrite (Hz (ents (ht0 d))), (Hz (ents (ht1 d))) by lia. }
  unfold abs in Hx. by rewrite Hn in Hx.
Qed.

Lemma present_entry d key : is_Some (abs d !! key) -> exists x, (key, x) ∈ entries d.
Proof.
  intros Hs. destruct (decide (key ∈ (entries d).*1)) as [Hin | Hin].
  - apply list_elem_of_fmap in Hin as ([k x] & -> & Hin). by exists x.
  - apply abs_None in Hin. rewrite Hin in Hs. by destruct Hs.
Qed.

Lemma scans_from fuel key n ds : forall low v j,
  Forall (fun d => dwf hash d /\ is_Some (abs d !! key) /\ size (ht0 d) + size (ht1 d) <= Z.of_nat fuel /\ low_size d <= 2 ^ n) ds ->
  steady low ds -> (v = 0 \/ v < low) -> 0 <= v < 2 ^ 64 -> 0 <= n <= 64 -> rev v = j * 2 ^ (64 - n) -> ds <> [] \/ v <> 0 ->
  exists ess v', scans fuel ds v = Ok (ess, v') /\
    (2 ^ n - j <= zlen ds -> v' = 0) /\
    (v' = 0 -> rev v <= pos (hash key) -> key ∈ (concat ess).*1) /\
    Forall2 (fun es d => forall e, e ∈ es -> e ∈ entries d) ess (take (length ess) ds).
Proof.
  induction ds as [| d ds IH]; intros low v j Hd Hs Hlow Hv Hn Ej Hne.
  - destruct Hne as [| Hne]; [done |]. exists [], v. split; [reflexivity |]. split; [| split; [done | constructor]].
    intros Hz. change (zlen (@nil (dict K V))) with 0 in Hz. exfalso. destruct (rev_spec v Hv) as [R _].
    assert (E64 : 2 ^ 64 = 2 ^ n * 2 ^ (64 - n)) by (rewrite <- Z.pow_add_r by lia; f_equal; lia).
    assert (2 ^ n * 2 ^ (64 - n) <= j * 2 ^ (64 - n)) by (apply Z.mul_le_mono_nonneg_r; lia). lia.
  - apply Forall_cons in Hd as ((D & Hin & Hf & Hmax) & Hd). destruct Hs as [Hst Hs].
    assert (Hsz := present_size d key D Hin). destruct (low_pow d D Hsz) as (k & Hk & El).
    destruct (dictScan_spec d v fuel D Hsz Hv) as (k' & es & Hk' & El' & E & Hem & Hall); [| done |].
    { intros Hr. specialize (Hst Hr). destruct Hlow as [-> |]; [| lia]. rewrite El. lia. }
    assert (k' = k) as -> by (apply (Z.pow_inj_r 2); lia). clear Hk' El'.
    destruct (present_entry d key Hin) as [x Hx]. pose proof (pos_range (hash key)) as Rp.
    assert (E64 : 2 ^ 64 = 2 ^ k * 2 ^ (64 - k)) by (rewrite <- Z.pow_add_r by lia; f_equal; lia).
    set (q := rev v / 2 ^ (64 - k)) in *. set (p := pos (hash key)) in *.
    assert (Hhere : rev v <= p -> p < (q + 1) * 2 ^ (64 - k) -> key ∈ es.*1).
    { intros H1 H2. apply list_elem_of_fmap. exists (key, x). split; [done |]. apply Hall; [done |].
      apply same_slot; [done | lia |]. fold p q. symmetry. unfold q.
      assert (rev v / 2 ^ (64 - k) <= p / 2 ^ (64 - k)) by (apply Z.div_le_mono; lia).
      assert (p / 2 ^ (64 - k) < q + 1) by (apply Z.div_lt_upper_bound; lia). unfold q in *. lia. }
    cbn [scans]. rewrite E, bind_Ok.
    destruct (next_cursor_spec v k Hv ltac:(lia)) as [(E0 & Eq) | (Hn0 & Hr & Er)]; fold q in Eq || fold q in Er.
    + rewrite E0. cbn [Z.eqb]. exists [es], 0. split; [reflexivity |]. split; [done |]. split.
      * intros _ Hp. cbn [concat]. rewrite app_nil_r. apply Hhere; [done |]. rewrite Eq, <- E64. lia.
      * cbn [length take]. constructor; [done | constructor].
    + destruct (Z.eqb_spec (next_cursor v k) 0) as [| _]; [done |].
      assert (Hkn : k <= n) by (apply (Z.pow_le_mono_r_iff 2); lia).
      assert (Ejn : rev (next_cursor v k) = ((q + 1) * 2 ^ (n - k)) * 2 ^ (64 - n)).
      { rewrite Er, <- Z.mul_assoc, <- Z.pow_add_r by lia. do 2 f_equal. lia. }
      assert (Hjq : j + 1 <= (q + 1) * 2 ^ (n - k)).
      { pose proof (Z.div_mod (rev v) (2 ^ (64 - k)) ltac:(lia)) as Dm. fold q in Dm.
        pose proof (Z.mod_pos_bound (rev v) (2 ^ (64 - k)) ltac:(lia)).
        assert (Hlt : j * 2 ^ (64 - n) < ((q + 1) * 2 ^ (n - k)) * 2 ^ (64 - n)) by (rewrite <- Ejn, Er, <- Ej; lia).
        apply Z.mul_lt_mono_pos_r in Hlt; lia. }
      assert (2 ^ k <= 2 ^ 31) by (apply Z.pow_le_mono_r; lia).
      destruct (IH (low_size d) (next_cursor v k) ((q + 1) * 2 ^ (n - k))) as (ess & v' & E' & Hz & Hc & Hsub);
        [done | done | right; lia | lia | done | exact Ejn | by right |].
      exists (es :: ess), v'. rewrite E', bind_Ok. split; [reflexivity |]. split; [| split].
      * intros Hl. apply Hz. rewrite zlen_cons in Hl. lia.
      * intros Hv' Hp. cbn [concat]. rewrite fmap_app. apply elem_of_app.
        destruct (Z.lt_ge_cases p ((q + 1) * 2 ^ (64 - k))); [left; auto | right].
        apply Hc; [done |]. rewrite Er. done.
      * cbn [length take]. by constructor.
Qed.

(** C30: [dictScan] of a dictionary that no call finds being rehashed to a table
    smaller than the last call's (which loses keys: [dictScan_shrinking_misses]).
    Started at 0 and called again with the cursor of the call before, with anything
    else done to the dictionary in between - additions, removals, growing, a
    rehash to a larger table: each call only shows entries the dictionary has;
    after at most as many calls as the largest table has buckets the cursor is 0
    again; and when it is, every key that was there at each of the calls has been
    shown. *)
Theorem dictScan_complete fuel n key ds :
  ds <> [] -> 0 <= n <= 31 ->
  Forall (fun d => dwf hash d /\ is_Some (abs d !! key) /\ size (ht0 d) + size (ht1 d) <= Z.of_nat fuel /\ low_size d <= 2 ^ n) ds ->
  steady 0 ds ->
  exists ess v, scans fuel ds 0 = Ok (ess, v) /\
    (2 ^ n <= zlen ds -> v = 0) /\
    (v = 0 -> key ∈ (concat ess).*1) /\
    Forall2 (fun es d => forall e, e ∈ es -> e ∈ entries d) ess (take (length ess) ds).
Proof.
  intros Hne Hn Hd Hs.
  destruct (scans_from fuel key n ds 0 0 0 Hd Hs) as (ess & v & E & Hz & Hc & Hf); [by left | lia | lia | by vm_compute | by left |].
  exists ess, v. split; [done |]. split; [intros Hl; apply Hz; lia |]. split; [| done].
  intros Ev. apply Hc; [done |]. pose proof (pos_range (hash key)). change (rev 0) with 0. lia.
Qed.
End scan.

(** ** Runs *)

(** The dictionary after some operations. *)
Definition snapshot (ops : list (@dict_op Z Z)) : dict Z Z :=
  match dict_run u32 0 true ops dictCreate with Ok (_, d) => d | Fault _ => dictCreate end.

Lemma snapshot_wf ops : zlen ops <= 536870912 ->
  dwf u32 (snapshot ops) /\ abs (snapshot ops) = (map_run ops ∅).2.
Proof.
  intros Hn. destruct (dictCreate_wf (K := Z) (V := Z) u32) as [D Ea].
  destruct (dict_run_spec u32 0 true ops dictCreate D) as (d & E & D' & Ea'); [exact Hn |].
  unfold snapshot. rewrite E, Ea', Ea. done.
Qed.

Lemma snapshot_has ops key x : zlen ops <= 536870912 -> (map_run ops (∅ : gmap Z Z)).2 !! key = Some x ->
  dwf u32 (snapshot ops) /\ abs (snapshot ops) !! key = Some x.
Proof. intros Hn E. destruct (snapshot_wf ops Hn) as [D Ea]. by rewrite Ea. Qed.

Lemma snapshot_ready ops key x n : zlen ops <= 536870912 -> (map_run ops (∅ : gmap Z Z)).2 !! key = Some x ->
  size (ht0 (snapshot ops)) + size (ht1 (snapshot ops)) <= Z.of_nat 100 -> low_size (snapshot ops) <= 2 ^ n ->
  dwf u32 (snapshot ops) /\ is_Some (abs (snapshot ops) !! key) /\
    size (ht0 (snapshot ops)) + size (ht1 (snapshot ops)) <= Z.of_nat 100 /\ low_size (snapshot ops) <= 2 ^ n.
Proof. intros Hn E Hs Hl. destruct (snapshot_has ops key x Hn E) as [D ->]. auto. Qed.

Definition adds (ks : list Z) : list (@dict_op Z Z) := (fun k => DAdd k k) <$> ks.

(** A table of four buckets grows to eight during the scan, and the rehash is
    still going on at the last call. *)
Definition growing : list (dict Z Z) :=
  let four := adds [4; 1; 2; 3] in
  [snapshot four; snapshot (four ++ adds [5]); snapshot (four ++ adds [5; 13]);
   snapshot (four ++ adds [5; 13; 21; 29] ++ [DDelete 13])].

(** Nine keys in sixteen buckets; after the first call all but two are deleted and
    the table is made smaller. *)
Definition shrinking : list (dict Z Z) :=
  let nine := adds [0; 1; 2; 3; 4; 5; 6; 7] ++ [DRehash 20] ++ adds [8] ++ [DRehash 20] in
  let two := nine ++ [DDelete 1; DDelete 2; DDelete 3; DDelete 5; DDelete 6; DDelete 7; DDelete 8; DResize] in
  [snapshot nine; snapshot two; snapshot two; snapshot two; snapshot two].

Lemma dictScan_complete_witness :
  exists ess, scans 100 growing 0 = Ok (ess, 0) /\ 4 ∈ (concat ess).*1 /\ dictIsRehashing <$> growing = [false; true; true; true].
Proof.
  destruct (dictScan_complete u32 100 2 4 growing) as (ess & v & E & Hz & Hc & _).
  - discriminate.
  - lia.
  - do 4 (apply Forall_cons; split; [apply (snapshot_ready _ 4 4 2); by vm_compute |]). constructor.
  - by vm_compute.
  - assert (v = 0) as -> by (apply Hz; by vm_compute).
    exists ess. split; [exact E |]. split; [by apply Hc | by vm_compute].
Defined.

(** The condition is needed.  A scan that meets a table of sixteen buckets
    and then a rehash to four ends without having shown a key that was there all
    the time: the loop over the larger table starts at the cursor, whose high
    bits stand for buckets that come later in the order but not in the loop. *)
Theorem dictScan_shrinking_misses :
  Forall (fun d => dwf u32 d /\ abs d !! 4 = Some 4) shrinking /\
  low_size <$> shrinking = [16; 4; 4; 4; 4] /\
  exists ess, scans 100 shrinking 0 = Ok (ess, 0) /\ 4 ∉ (concat ess).*1.
Proof.
  split; [| split; [by vm_compute |]].
  - do 5 (apply Forall_cons; split; [apply (snapshot_has _ 4 4); by vm_compute |]). constructor.
  - eexists. split; [by vm_compute |]. apply (bool_decide_unpack _). by vm_compute.
Qed.
