(* ===== verification/AdList.v ===== *)
(** * adlist.c: doubly linked lists with iterators

    Nodes and lists live on a heap of two maps; a node is known by its address,
    freeing one takes it out of the map.  The methods of a list are functions on
    values: [dup] may fail, [match] compares, and the values given to [free] are
    logged.  [zmalloc] does not return when it fails. *)
From S2P Require Import Prelude.

Definition AL_START_HEAD : Z := 0.
Definition AL_START_TAIL : Z := 1.

Section AdList.
  Context {V : Type} `{EqDecision V}.

Record listNode := Node { prev : option nat; next : option nat; value : V }.

Record dlist := List {
  head : option nat;
  tail : option nat;
  dup : option (V -> option V);
  free : bool;
  match_ : option (V -> V -> bool);
  len : Z;
}.

Record listIter := Iter { it_next : option nat; direction : Z }.

Record heap := Heap {
  nodes : gmap nat listNode;
  lists : gmap nat dlist;
  freed : list V;
}.

(** ** Memory *)

Definition node (a : nat) : ST heap listNode := fun h =>
  match nodes h !! a with Some n => Ok (n, h) | None => Fault UseAfterFree end.
Definition put_node (a : nat) (n : listNode) : ST heap unit := fun h =>
  Ok (tt, Heap (<[a := n]> (nodes h)) (lists h) (freed h)).
Definition new_node (n : listNode) : ST heap nat := fun h =>
  let a := fresh (dom (nodes h)) in Ok (a, Heap (<[a := n]> (nodes h)) (lists h) (freed h)).
Definition free_node (a : nat) : ST heap unit := fun h =>
  match nodes h !! a with Some _ => Ok (tt, Heap (delete a (nodes h)) (lists h) (freed h)) | None => Fault UseAfterFree end.
Definition load_list (l : nat) : ST heap dlist := fun h =>
  match lists h !! l with Some L => Ok (L, h) | None => Fault UseAfterFree end.
Definition put_list (l : nat) (L : dlist) : ST heap unit := fun h =>
  Ok (tt, Heap (nodes h) (<[l := L]> (lists h)) (freed h)).
Definition free_list (l : nat) : ST heap unit := fun h =>
  match lists h !! l with Some _ => Ok (tt, Heap (nodes h) (delete l (lists h)) (freed h)) | None => Fault UseAfterFree end.
Definition call_free (L : dlist) (v : V) : ST heap unit := fun h =>
  Ok (tt, if free L then Heap (nodes h) (lists h) (freed h ++ [v]) else h).

(** [p->next = n] and [p->prev = n]. *)
Definition set_next (p : option nat) (n : option nat) : ST heap unit :=
  a ← st_lift (deref p); x ← node a; put_node a (Node (prev x) n (value x)).
Definition set_prev (p : option nat) (n : option nat) : ST heap unit :=
  a ← st_lift (deref p); x ← node a; put_node a (Node n (next x) (value x)).

(** The same where the code tests [p] first. *)
Definition if_next (p n : option nat) : ST heap unit := match p with Some _ => set_next p n | None => mret tt end.
Definition if_prev (p n : option nat) : ST heap unit := match p with Some _ => set_prev p n | None => mret tt end.

Definition set_ends (L : dlist) (h t : option nat) : dlist := List h t (dup L) (free L) (match_ L) (len L).
Definition set_len (L : dlist) (n : Z) : dlist := List (head L) (tail L) (dup L) (free L) (match_ L) n.

(** ** Operations *)

Definition listCreate : ST heap nat := fun h =>
  let l := fresh (dom (lists h)) in
  Ok (l, Heap (nodes h) (<[l := List None None None false None 0]> (lists h)) (freed h)).

(** The loop of [listRelease]: [n] nodes from [current] on. *)
Fixpoint release_nodes (n : nat) (L : dlist) (current : option nat) : ST heap unit :=
  match n with
  | O => mret tt
  | S n =>
    a ← st_lift (deref current);
    x ← node a;
    _ ← call_free L (value x);
    _ ← free_node a;
    release_nodes n L (next x)
  end.

Definition listRelease (l : nat) : ST heap unit :=
  L ← load_list l;
  _ ← release_nodes (Z.to_nat (len L)) L (head L);
  free_list l.

Definition listAddNodeHead (l : nat) (v : V) : ST heap unit :=
  L ← load_list l;
  if len L =? 0 then
    a ← new_node (Node None None v);
    put_list l (set_len (set_ends L (Some a) (Some a)) (u64 (len L + 1)))
  else
    a ← new_node (Node None (head L) v);
    _ ← set_prev (head L) (Some a);
    put_list l (set_len (set_ends L (Some a) (tail L)) (u64 (len L + 1))).

Definition listAddNodeTail (l : nat) (v : V) : ST heap unit :=
  L ← load_list l;
  if len L =? 0 then
    a ← new_node (Node None None v);
    put_list l (set_len (set_ends L (Some a) (Some a)) (u64 (len L + 1)))
  else
    a ← new_node (Node (tail L) None v);
    _ ← set_next (tail L) (Some a);
    put_list l (set_len (set_ends L (head L) (Some a)) (u64 (len L + 1))).

Definition listInsertNode (l old_node : nat) (v : V) (after : bool) : ST heap unit :=
  L ← load_list l;
  old ← node old_node;
  let p := if after then Some old_node else prev old in
  let n := if after then next old else Some old_node in
  a ← new_node (Node p n v);
  let h := if negb after && bool_decide (head L = Some old_node) then Some a else head L in
  let t := if after && bool_decide (tail L = Some old_node) then Some a else tail L in
  _ ← if_next p (Some a);
  _ ← if_prev n (Some a);
  put_list l (set_len (set_ends L h t) (u64 (len L + 1))).

Definition listDelNode (l a : nat) : ST heap unit :=
  L ← load_list l;
  x ← node a;
  _ ← if_next (prev x) (next x);
  let h := match prev x with Some _ => head L | None => next x end in
  _ ← if_prev (next x) (prev x);
  let t := match next x with Some _ => tail L | None => prev x end in
  _ ← call_free L (value x);
  _ ← free_node a;
  put_list l (set_len (set_ends L h t) (u64 (len L - 1))).

Definition listGetIterator (l : nat) (dir : Z) : ST heap listIter :=
  L ← load_list l; mret (Iter (if dir =? AL_START_HEAD then head L else tail L) dir).
Definition listRewind (l : nat) : ST heap listIter := L ← load_list l; mret (Iter (head L) AL_START_HEAD).
Definition listRewindTail (l : nat) : ST heap listIter := L ← load_list l; mret (Iter (tail L) AL_START_TAIL).

Definition listNext (it : listIter) : ST heap (option nat * listIter) :=
  match it_next it with
  | None => mret (None, it)
  | Some a =>
    x ← node a;
    mret (Some a, Iter (if direction it =? AL_START_HEAD then next x else prev x) (direction it))
  end.

(** The loop of [listDup]: [None] if the copy of a value failed. *)
Fixpoint dup_loop (fuel : nat) (copy : nat) (d : option (V -> option V)) (it : listIter) : ST heap bool :=
  match fuel with
  | O => st_fault OutOfFuel
  | S fuel =>
    r ← listNext it;
    match r.1 with
    | None => mret true
    | Some a =>
      x ← node a;
      match (match d with Some f => f (value x) | None => Some (value x) end) with
      | None => _ ← listRelease copy; mret false
      | Some v => _ ← listAddNodeTail copy v; dup_loop fuel copy d r.2
      end
    end
  end.

Definition listDup (fuel : nat) (orig : nat) : ST heap (option nat) :=
  copy ← listCreate;
  O ← load_list orig;
  _ ← put_list copy (List None None (dup O) (free O) (match_ O) 0);
  it ← listGetIterator orig AL_START_HEAD;
  ok ← dup_loop fuel copy (dup O) it;
  mret (if (ok : bool) then Some copy else None).

Fixpoint search_loop (fuel : nat) (m : option (V -> V -> bool)) (key : V) (it : listIter) : ST heap (option nat) :=
  match fuel with
  | O => st_fault OutOfFuel
  | S fuel =>
    r ← listNext it;
    match r.1 with
    | None => mret None
    | Some a =>
      x ← node a;
      if (match m with Some f => f (value x) key | None => bool_decide (key = value x) end) then mret (Some a)
      else search_loop fuel m key r.2
    end
  end.

Definition listSearchKey (fuel : nat) (l : nat) (key : V) : ST heap (option nat) :=
  it ← listGetIterator l AL_START_HEAD;
  L ← load_list l;
  search_loop fuel (match_ L) key it.

(** [while (index-- && n) n = n->next], and the same with [prev]. *)
Fixpoint walk (forward : bool) (index : nat) (n : option nat) : ST heap (option nat) :=
  match index, n with
  | S index, Some a => x ← node a; walk forward index (if forward then next x else prev x)
  | _, _ => mret n
  end.

Definition listIndex (l : nat) (index : Z) : ST heap (option nat) :=
  L ← load_list l;
  if index <? 0 then walk false (Z.to_nat (i64 (i64 (- index) - 1))) (tail L)
  else walk true (Z.to_nat index) (head L).

Definition listRotate (l : nat) : ST heap unit :=
  L ← load_list l;
  if len L <=? 1 then mret tt
  else
    t ← st_lift (deref (tail L));
    x ← node t;
    _ ← set_next (prev x) None;
    _ ← set_prev (head L) (Some t);
    y ← node t;
    _ ← put_node t (Node None (head L) (value y));
    put_list l (set_ends L (Some t) (prev x)).
End AdList.
Arguments listNode : clear implicits.
Arguments dlist : clear implicits.
Arguments heap : clear implicits.

(** ** Representation *)

Section rep.
  Context {V : Type} `{EqDecision V}.
  Implicit Types (m : gmap nat (listNode V)) (vs : list (nat * V)) (p n : option nat) (h : heap V).

(** The first and the last address of a chain, or what comes instead. *)
Definition first vs n : option nat := match vs with [] => n | (a, _) :: _ => Some a end.
Fixpoint final p vs : option nat := match vs with [] => p | (a, _) :: vs => final (Some a) vs end.

(** The nodes of [vs], linked both ways, between [p] and [n]. *)
Fixpoint chain m p vs n : Prop :=
  match vs with
  | [] => True
  | (a, v) :: vs => m !! a = Some (Node p (first vs n) v) /\ chain m (Some a) vs n
  end.

(** The list at [l] has the nodes and values [vs]. *)
Record rep h (l : nat) vs : Prop := {
  r_nodup : NoDup vs.*1;
  r_chain : chain (nodes h) None vs None;
  r_list : exists L, lists h !! l = Some L /\ head L = first vs None /\ tail L = final None vs /\ len L = zlen vs;
}.

Lemma first_app vs1 vs2 n : first (vs1 ++ vs2) n = first vs1 (first vs2 n).
Proof. by destruct vs1 as [| [a v] vs1]. Qed.

Lemma final_app vs1 : forall vs2 p, final p (vs1 ++ vs2) = final (final p vs1) vs2.
Proof. induction vs1 as [| [a v] vs1 IH]; intros vs2 p; [done |]. apply IH. Qed.

Lemma final_snoc p vs a v : final p (vs ++ [(a, v)]) = Some a.
Proof. by rewrite final_app. Qed.

Lemma final_None vs : final None vs = None -> vs = [].
Proof. destruct vs as [| [a v] vs _] using rev_ind; [done |]. by rewrite final_snoc. Qed.

Lemma chain_app m vs1 : forall vs2 p n, chain m p (vs1 ++ vs2) n <-> chain m p vs1 (first vs2 n) /\ chain m (final p vs1) vs2 n.
Proof.
  induction vs1 as [| [a v] vs1 IH]; intros vs2 p n; cbn; [tauto |].
  rewrite IH, first_app. tauto.
Qed.

Lemma chain_frame m m' vs : forall p n, chain m p vs n -> (forall a, a ∈ vs.*1 -> m' !! a = m !! a) -> chain m' p vs n.
Proof.
  induction vs as [| [a v] vs IH]; intros p n Hc Hm; cbn in *; [done |].
  split; [rewrite Hm by left; apply Hc |]. apply IH; [apply Hc |]. intros b Hb. apply Hm. by right.
Qed.

Lemma chain_dom m vs : forall p n, chain m p vs n -> forall a, a ∈ vs.*1 -> a ∈ dom m.
Proof.
  induction vs as [| [b v] vs IH]; intros p n Hc a Ha; cbn in *; [by apply not_elem_of_nil in Ha |].
  apply elem_of_cons in Ha as [-> | Ha]; [apply elem_of_dom; eexists; apply Hc | eapply IH; [apply Hc | done]].
Qed.

Lemma chain_node m vs1 a v vs2 p n : chain m p (vs1 ++ (a, v) :: vs2) n ->
  m !! a = Some (Node (final p vs1) (first vs2 n) v).
Proof. rewrite chain_app. cbn. tauto. Qed.

Lemma node_Ok h a x : nodes h !! a = Some x -> node a h = Ok (x, h).
Proof. unfold node. by intros ->. Qed.

Lemma set_next_Ok h a x n : nodes h !! a = Some x ->
  set_next (Some a) n h = Ok (tt, Heap (<[a := Node (prev x) n (value x)]> (nodes h)) (lists h) (freed h)).
Proof. intros E. unfold set_next, mbind, st_bind. cbn. by rewrite (node_Ok _ _ _ E). Qed.

Lemma set_prev_Ok h a x p : nodes h !! a = Some x ->
  set_prev (Some a) p h = Ok (tt, Heap (<[a := Node p (next x) (value x)]> (nodes h)) (lists h) (freed h)).
Proof. intros E. unfold set_prev, mbind, st_bind. cbn. by rewrite (node_Ok _ _ _ E). Qed.

(** What writing the link that leaves a chain does: at its end and at its start. *)
Lemma link_next h vs n n' : chain (nodes h) None vs n -> NoDup vs.*1 -> exists m',
  if_next (final None vs) n' h = Ok (tt, Heap m' (lists h) (freed h)) /\
  chain m' None vs n' /\ (forall b, b ∉ vs.*1 -> m' !! b = nodes h !! b).
Proof.
  destruct vs as [| [a v] vs _] using rev_ind; intros Hc Hn.
  - exists (nodes h). cbn. by destruct h.
  - rewrite final_snoc. pose proof (chain_node _ _ _ _ _ _ _ Hc) as Ha. cbn in Ha.
    exists (<[a := Node (final None vs) n' v]> (nodes h)). split; [| split].
    + unfold if_next. by rewrite (set_next_Ok _ _ _ _ Ha).
    + rewrite fmap_app, NoDup_app in Hn. destruct Hn as (_ & Hd & _). rewrite chain_app in Hc |- *. split; [| cbn].
      * eapply chain_frame; [apply Hc |]. intros b Hb. rewrite lookup_insert_ne; [done |]. intros ->.
        apply (Hd b Hb). by left.
      * by rewrite lookup_insert_eq.
    + intros b Hb. rewrite lookup_insert_ne; [done |]. intros ->. apply Hb. rewrite fmap_app. apply elem_of_app. right. by left.
Qed.

Lemma link_prev h vs p p' : chain (nodes h) p vs None -> NoDup vs.*1 -> exists m',
  if_prev (first vs None) p' h = Ok (tt, Heap m' (lists h) (freed h)) /\
  chain m' p' vs None /\ (forall b, b ∉ vs.*1 -> m' !! b = nodes h !! b).
Proof.
  destruct vs as [| [a v] vs]; intros Hc Hn; [exists (nodes h); cbn; by destruct h |].
  cbn in Hc. destruct Hc as [Ha Hc]. exists (<[a := Node p' (first vs None) v]> (nodes h)). apply NoDup_cons in Hn as [Hna Hn].
  split; [| split].
  - cbn [first if_prev]. by rewrite (set_prev_Ok _ _ _ _ Ha).
  - cbn. rewrite lookup_insert_eq. split; [done |]. eapply chain_frame; [apply Hc |]. intros b Hb.
    rewrite lookup_insert_ne; [done |]. by intros ->.
  - intros b Hb. rewrite lookup_insert_ne; [done |]. intros ->. apply Hb. by left.
Qed.

(** A node put between two chains. *)
Lemma splice h vs1 vs2 v : chain (nodes h) None (vs1 ++ vs2) None -> NoDup (vs1 ++ vs2).*1 ->
  let a := fresh (dom (nodes h)) in
  let m0 := <[a := Node (final None vs1) (first vs2 None) v]> (nodes h) in exists m1 m',
  if_next (final None vs1) (Some a) (Heap m0 (lists h) (freed h)) =
    Ok (tt, Heap m1 (lists h) (freed h)) /\
  if_prev (first vs2 None) (Some a) (Heap m1 (lists h) (freed h)) =
    Ok (tt, Heap m' (lists h) (freed h)) /\
  (a ∉ (vs1 ++ vs2).*1) /\ chain m' None (vs1 ++ (a, v) :: vs2) None /\
  (forall b, b ∉ (vs1 ++ (a, v) :: vs2).*1 -> m' !! b = nodes h !! b).
Proof.
  intros Hc Hn a m0. assert (Ha : a ∉ (vs1 ++ vs2).*1).
  { intros Hin. apply (chain_dom _ _ _ _ Hc) in Hin. by apply is_fresh in Hin. }
  rewrite chain_app in Hc. destruct Hc as [Hc1 Hc2]. rewrite fmap_app in Hn, Ha. rewrite not_elem_of_app in Ha.
  apply NoDup_app in Hn as (Hn1 & Hd & Hn2). destruct Ha as [Ha1 Ha2].
  assert (Hm0 : forall vs, a ∉ vs.*1 -> forall b, b ∈ vs.*1 -> m0 !! b = nodes h !! b).
  { intros vs Hvs b Hb. unfold m0. rewrite lookup_insert_ne; [done |]. by intros ->. }
  destruct (link_next (Heap m0 (lists h) (freed h)) vs1 (first vs2 None) (Some a)) as (m1 & E1 & C1 & F1);
    [eapply chain_frame; [apply Hc1 | by apply Hm0] | done |].
  destruct (link_prev (Heap m1 (lists h) (freed h)) vs2 (final None vs1) (Some a)) as (m2 & E2 & C2 & F2).
  { eapply chain_frame; [apply Hc2 |]. intros b Hb. cbn. rewrite F1 by (intros Hb1; by apply (Hd b)). by apply (Hm0 vs2). }
  { done. }
  exists m1, m2. split; [exact E1 |]. split; [exact E2 |]. split; [by rewrite fmap_app, not_elem_of_app |]. split.
  - rewrite chain_app. split.
    + eapply chain_frame; [apply C1 |]. intros b Hb. cbn in F2. apply F2. by apply Hd.
    + cbn. split; [| done]. cbn in F2, F1. rewrite F2, F1 by done. unfold m0. by rewrite lookup_insert_eq.
  - intros b Hb. rewrite fmap_app in Hb. cbn in Hb. rewrite not_elem_of_app, not_elem_of_cons in Hb. destruct Hb as (H1 & H2 & H3).
    cbn in F1, F2. rewrite F2, F1 by done. unfold m0. by rewrite lookup_insert_ne.
Qed.

(** ** What an operation on the list at [l] does to the heap *)
Definition methods (L : dlist V) := (dup L, free L, match_ L).

Record moves h (l : nat) vs h' vs' (fs : list V) : Prop := {
  mv_rep : rep h' l vs';
  mv_lists : forall l', l' <> l -> lists h' !! l' = lists h !! l';
  mv_nodes : forall b, b ∉ vs.*1 -> b ∉ vs'.*1 -> nodes h' !! b = nodes h !! b;
  mv_new : forall b, b ∈ vs'.*1 -> b ∈ vs.*1 \/ b ∉ dom (nodes h);
  mv_gone : forall b, b ∈ vs.*1 -> b ∉ vs'.*1 -> nodes h' !! b = None;
  mv_freed : freed h' = freed h ++ fs;
  mv_methods : forall L, lists h !! l = Some L -> exists L', lists h' !! l = Some L' /\ methods L' = methods L;
}.

(** Another list is left as it was. *)
Lemma moves_other h l vs h' vs' fs l2 vs2 : moves h l vs h' vs' fs -> l2 <> l -> rep h l2 vs2 ->
  (forall b, b ∈ vs2.*1 -> b ∉ vs.*1) -> rep h' l2 vs2.
Proof.
  intros M Hl R Hd. split; [apply R | | rewrite (mv_lists _ _ _ _ _ _ M) by done; apply R].
  eapply chain_frame; [apply R |]. intros b Hb. apply (mv_nodes _ _ _ _ _ _ M); [by apply Hd |].
  intros Hb'. destruct (mv_new _ _ _ _ _ _ M b Hb') as [Hv | Hv]; [by apply (Hd b) |].
  apply Hv. eapply chain_dom; [apply R | done].
Qed.

Lemma moves_disjoint h l vs h' vs' fs l2 vs2 : moves h l vs h' vs' fs -> rep h l2 vs2 ->
  (forall b, b ∈ vs2.*1 -> b ∉ vs.*1) -> forall b, b ∈ vs2.*1 -> b ∉ vs'.*1.
Proof.
  intros M R Hd b Hb Hb'. destruct (mv_new _ _ _ _ _ _ M b Hb') as [Hv | Hv]; [by apply (Hd b) |].
  apply Hv. eapply chain_dom; [apply R | done].
Qed.

Lemma moves_refl h l vs : rep h l vs -> moves h l vs h vs [].
Proof. intros R. split; [done | done | done | auto | done | by rewrite app_nil_r | eauto]. Qed.

Lemma moves_trans h l vs h1 vs1 f1 h2 vs2 f2 :
  moves h l vs h1 vs1 f1 -> moves h1 l vs1 h2 vs2 f2 -> moves h l vs h2 vs2 (f1 ++ f2).
Proof.
  intros M1 M2. assert (Hnew : forall b, b ∈ vs2.*1 -> b ∈ vs.*1 \/ b ∉ dom (nodes h)).
  { intros b Hb. destruct (mv_new _ _ _ _ _ _ M2 b Hb) as [Hb1 | Hb1]; [by apply (mv_new _ _ _ _ _ _ M1) |].
    destruct (decide (b ∈ vs.*1)) as [Hv | Hv]; [by left | right]. intros Hdom. apply Hb1.
    destruct (decide (b ∈ vs1.*1)) as [Hv1 | Hv1]; [eapply chain_dom; [apply (mv_rep _ _ _ _ _ _ M1) | done] |].
    apply elem_of_dom. rewrite (mv_nodes _ _ _ _ _ _ M1) by done. by apply elem_of_dom. }
  split; [apply M2 | | | done | | |].
  - intros l' Hl. by rewrite (mv_lists _ _ _ _ _ _ M2), (mv_lists _ _ _ _ _ _ M1).
  - intros b H1 H2. destruct (decide (b ∈ vs1.*1)) as [Hv1 | Hv1].
    + rewrite (mv_gone _ _ _ _ _ _ M2) by done. destruct (mv_new _ _ _ _ _ _ M1 b Hv1) as [| Hd]; [done |].
      by apply not_elem_of_dom in Hd.
    + by rewrite (mv_nodes _ _ _ _ _ _ M2), (mv_nodes _ _ _ _ _ _ M1).
  - intros b H1 H2. destruct (decide (b ∈ vs1.*1)) as [Hv1 | Hv1]; [by apply (mv_gone _ _ _ _ _ _ M2) |].
    rewrite (mv_nodes _ _ _ _ _ _ M2) by done. by apply (mv_gone _ _ _ _ _ _ M1).
  - by rewrite (mv_freed _ _ _ _ _ _ M2), (mv_freed _ _ _ _ _ _ M1), app_assoc.
  - intros L EL. destruct (mv_methods _ _ _ _ _ _ M1 L EL) as (L1 & E1 & <-). by apply (mv_methods _ _ _ _ _ _ M2).
Qed.

Lemma fresh_node h : fresh (dom (nodes h)) ∉ dom (nodes h).
Proof. apply is_fresh. Qed.

(** The list with a new node, once its links and the list are written. *)
Lemma inserted h l L vs1 vs2 a v m' hd tl :
  rep h l (vs1 ++ vs2) -> lists h !! l = Some L -> zlen (vs1 ++ vs2) + 1 < 2 ^ 64 ->
  a ∉ dom (nodes h) -> a ∉ (vs1 ++ vs2).*1 -> chain m' None (vs1 ++ (a, v) :: vs2) None ->
  (forall b, b ∉ (vs1 ++ (a, v) :: vs2).*1 -> m' !! b = nodes h !! b) ->
  hd = first (vs1 ++ (a, v) :: vs2) None -> tl = final None (vs1 ++ (a, v) :: vs2) ->
  moves h l (vs1 ++ vs2) (Heap m' (<[l := set_len (set_ends L hd tl) (u64 (len L + 1))]> (lists h)) (freed h))
    (vs1 ++ (a, v) :: vs2) [].
Proof.
  intros R EL Hn Hdom Ha Hc Hf -> ->. assert (P : (vs1 ++ (a, v) :: vs2).*1 ≡ₚ a :: (vs1 ++ vs2).*1).
  { rewrite !fmap_app. cbn. by rewrite Permutation_middle. }
  split; cbn [lists nodes freed].
  - split; [rewrite P; apply NoDup_cons; split; [done | apply R] | done |].
    eexists. cbn [lists]. rewrite lookup_insert_eq. split; [done |]. split; [done |]. split; [done |]. cbn [len set_len].
    destruct (r_list _ _ _ R) as (L0 & EL0 & _ & _ & El). rewrite EL in EL0. injection EL0 as <-.
    rewrite El. rewrite !zlen_app, zlen_cons in *. rewrite u64_small; [lia |].
    pose proof (zlen_nonneg vs1). pose proof (zlen_nonneg vs2). lia.
  - intros l' Hl. by rewrite lookup_insert_ne.
  - intros b _ Hb. by apply Hf.
  - intros b. rewrite P. intros [-> | Hb]%elem_of_cons; [by right | by left].
  - intros b Hb Hb'. destruct Hb'. rewrite P. by right.
  - by rewrite app_nil_r.
  - intros L0 E0. rewrite EL in E0. injection E0 as <-. eexists. by rewrite lookup_insert_eq.
Qed.

Lemma load_list_Ok h l L : lists h !! l = Some L -> load_list l h = Ok (L, h).
Proof. unfold load_list. by intros ->. Qed.

Lemma zlen_zero {A} (l : list A) : zlen l = 0 -> l = [].
Proof. destruct l as [| x l]; [done |]. rewrite zlen_cons. pose proof (zlen_nonneg l). lia. Qed.

Lemma addHead_spec h l vs v : rep h l vs -> zlen vs + 1 < 2 ^ 64 ->
  exists a h', listAddNodeHead l v h = Ok (tt, h') /\ (a ∉ vs.*1) /\ moves h l vs h' ((a, v) :: vs) [].
Proof.
  intros R Hn. destruct (r_list _ _ _ R) as (L & EL & Eh & Et & El). set (a := fresh (dom (nodes h))).
  destruct (splice h [] vs v) as (m1 & m2 & E1 & E2 & Ha & Hc & Hf); [apply R | apply R |].
  fold a in E1, E2, Ha, Hc, Hf. cbn [final if_next] in E1. injection E1 as <-. cbn [app final] in *.
  exists a. unfold listAddNodeHead. rewrite (st_bind_Ok _ _ _ _ _ (load_list_Ok _ _ _ EL)).
  destruct (Z.eqb_spec (len L) 0) as [E0 | E0].
  - assert (vs = []) as -> by (apply zlen_zero; lia). cbn [first if_prev] in E2. injection E2 as <-.
    eexists. split; [reflexivity |]. split; [done |]. by apply (inserted h l L [] [] a v _ (Some a) (Some a) R EL Hn (fresh_node h)).
  - destruct vs as [| [b w] vs]; [done |]. cbn [first if_prev] in E2. rewrite Eh. cbn [first].
    eexists. split; [| split; [done |]].
    + unfold new_node, mbind, st_bind in E2 |- *. fold a. rewrite E2. reflexivity.
    + apply (inserted h l L [] ((b, w) :: vs) a v m2 (Some a) (tail L) R EL Hn (fresh_node h)); [done | done | done | done |]. by rewrite Et.
Qed.

Lemma addTail_spec h l vs v : rep h l vs -> zlen vs + 1 < 2 ^ 64 ->
  exists a h', listAddNodeTail l v h = Ok (tt, h') /\ (a ∉ vs.*1) /\ moves h l vs h' (vs ++ [(a, v)]) [].
Proof.
  intros R Hn. destruct (r_list _ _ _ R) as (L & EL & Eh & Et & El). set (a := fresh (dom (nodes h))).
  destruct (splice h vs [] v) as (m1 & m2 & E1 & E2 & Ha & Hc & Hf); [rewrite app_nil_r; apply R | rewrite app_nil_r; apply R |].
  fold a in E1, E2, Ha, Hc, Hf. cbn [first if_prev] in E2. injection E2 as <-. rewrite app_nil_r in Ha.
  assert (R' := R). rewrite <- (app_nil_r vs) in R', Hn.
  assert (M := fun hd tl => inserted h l L vs [] a v m1 hd tl R' EL Hn (fresh_node h)). rewrite !app_nil_r in M.
  exists a. unfold listAddNodeTail. rewrite (st_bind_Ok _ _ _ _ _ (load_list_Ok _ _ _ EL)).
  destruct (Z.eqb_spec (len L) 0) as [E0 | E0].
  - assert (vs = []) as -> by (apply zlen_zero; lia). cbn [final if_next first] in E1. injection E1 as <-.
    eexists. split; [reflexivity |]. split; [done |]. by apply (M (Some a) (Some a)).
  - destruct vs as [| [b w] vs _] using rev_ind; [done |]. rewrite final_snoc in E1, Et. cbn [first if_next] in E1. rewrite Et.
    eexists. split; [| split; [done |]].
    + unfold new_node, mbind, st_bind in E1 |- *. fold a. rewrite E1. reflexivity.
    + apply (M (head L) (Some a)); [done | done | done | | by rewrite final_snoc]. rewrite Eh. by destruct vs as [| [c x] vs].
Qed.

Lemma split_nodup vs1 (o : nat) (w : V) vs2 : NoDup (vs1 ++ (o, w) :: vs2).*1 ->
  (o ∉ vs1.*1) /\ (o ∉ vs2.*1) /\ NoDup (vs1 ++ vs2).*1.
Proof.
  rewrite !fmap_app. cbn. intros Hn. rewrite <- Permutation_middle in Hn. apply NoDup_cons in Hn as [Ho Hn].
  rewrite not_elem_of_app in Ho. tauto.
Qed.

Lemma insert_after_spec h l vs1 o w vs2 v : rep h l (vs1 ++ (o, w) :: vs2) -> zlen (vs1 ++ (o, w) :: vs2) + 1 < 2 ^ 64 ->
  exists a h', listInsertNode l o v true h = Ok (tt, h') /\ (a ∉ (vs1 ++ (o, w) :: vs2).*1) /\
    moves h l (vs1 ++ (o, w) :: vs2) h' (vs1 ++ (o, w) :: (a, v) :: vs2) [].
Proof.
  intros R Hn. destruct (r_list _ _ _ R) as (L & EL & Eh & Et & El). set (a := fresh (dom (nodes h))).
  pose proof (chain_node _ _ _ _ _ _ _ (r_chain _ _ _ R)) as Eo.
  destruct (split_nodup _ _ _ _ (r_nodup _ _ _ R)) as (Ho1 & Ho2 & _).
  rewrite (cons_middle (o, w)), app_assoc in R, Hn, Eh, Et |- *.
  destruct (splice h (vs1 ++ [(o, w)]) vs2 v) as (m1 & m2 & E1 & E2 & Ha & Hc & Hf); [apply R | apply R |].
  fold a in E1, E2, Ha, Hc, Hf. rewrite final_snoc in E1.
  exists a.
  replace (vs1 ++ (o, w) :: (a, v) :: vs2) with ((vs1 ++ [(o, w)]) ++ (a, v) :: vs2) by (by rewrite <- app_assoc).
  eexists. split; [| split; [exact Ha |]].
  - unfold listInsertNode. rewrite (st_bind_Ok _ _ _ _ _ (load_list_Ok _ _ _ EL)), (st_bind_Ok _ _ _ _ _ (node_Ok _ _ _ Eo)).
    cbn [next prev andb negb]. unfold new_node, mbind, st_bind. fold a. rewrite E1, E2. reflexivity.
  - apply (inserted h l L (vs1 ++ [(o, w)]) vs2 a v m2 _ _ R EL Hn (fresh_node h)); [done | done | done | |].
    + rewrite Eh, !first_app. by destruct vs1.
    + rewrite Et, !final_app. cbn. destruct vs2 as [| [c x] vs2 _] using rev_ind; cbn.
      * by rewrite bool_decide_true.
      * rewrite !final_app. cbn. rewrite bool_decide_false; [done |]. intros [= ->]. apply Ho2. rewrite fmap_app.
        apply elem_of_app. right. by left.
Qed.

Lemma insert_before_spec h l vs1 o w vs2 v : rep h l (vs1 ++ (o, w) :: vs2) -> zlen (vs1 ++ (o, w) :: vs2) + 1 < 2 ^ 64 ->
  exists a h', listInsertNode l o v false h = Ok (tt, h') /\ (a ∉ (vs1 ++ (o, w) :: vs2).*1) /\
    moves h l (vs1 ++ (o, w) :: vs2) h' (vs1 ++ (a, v) :: (o, w) :: vs2) [].
Proof.
  intros R Hn. destruct (r_list _ _ _ R) as (L & EL & Eh & Et & El). set (a := fresh (dom (nodes h))).
  pose proof (chain_node _ _ _ _ _ _ _ (r_chain _ _ _ R)) as Eo.
  destruct (split_nodup _ _ _ _ (r_nodup _ _ _ R)) as (Ho1 & Ho2 & _).
  destruct (splice h vs1 ((o, w) :: vs2) v) as (m1 & m2 & E1 & E2 & Ha & Hc & Hf); [apply R | apply R |].
  fold a in E1, E2, Ha, Hc, Hf. cbn [first] in E1, E2.
  exists a. eexists. split; [| split; [exact Ha |]].
  - unfold listInsertNode. rewrite (st_bind_Ok _ _ _ _ _ (load_list_Ok _ _ _ EL)), (st_bind_Ok _ _ _ _ _ (node_Ok _ _ _ Eo)).
    cbn [next prev andb negb]. unfold new_node, mbind, st_bind. fold a. rewrite E1, E2. reflexivity.
  - apply (inserted h l L vs1 ((o, w) :: vs2) a v m2 _ _ R EL Hn (fresh_node h)); [done | done | done | |].
    + rewrite Eh, !first_app. destruct vs1 as [| [c x] vs1]; cbn.
      * by rewrite bool_decide_true.
      * rewrite bool_decide_false; [done |]. intros [= ->]. apply Ho1. by left.
    + by rewrite Et, !final_app.
Qed.

(** A node taken out. *)
Lemma delNode_spec h l vs1 a v vs2 L : rep h l (vs1 ++ (a, v) :: vs2) -> lists h !! l = Some L -> zlen (vs1 ++ (a, v) :: vs2) < 2 ^ 64 ->
  exists h', listDelNode l a h = Ok (tt, h') /\
    moves h l (vs1 ++ (a, v) :: vs2) h' (vs1 ++ vs2) (if free L then [v] else []).
Proof.
  intros R EL Hn. destruct (r_list _ _ _ R) as (L0 & EL0 & Eh & Et & El). rewrite EL in EL0. injection EL0 as <-.
  pose proof (r_chain _ _ _ R) as Hc. pose proof (chain_node _ _ _ _ _ _ _ Hc) as Ea.
  destruct (split_nodup _ _ _ _ (r_nodup _ _ _ R)) as (Ha1 & Ha2 & Hnd). pose proof Hnd as Hnd'.
  rewrite fmap_app in Hnd'. apply NoDup_app in Hnd' as (N1 & Hd & N2).
  rewrite chain_app in Hc. destruct Hc as (C1 & _ & C2).
  destruct (link_next h vs1 (Some a) (first vs2 None) C1 N1) as (m1 & E1 & C1' & F1).
  destruct (link_prev (Heap m1 (lists h) (freed h)) vs2 (Some a) (final None vs1)) as (m2 & E2 & C2' & F2);
    [eapply chain_frame; [apply C2 |]; intros b Hb; apply F1; intros Hb1; by apply (Hd b) | done |].
  cbn [nodes lists freed] in *.
  assert (Ea2 : m2 !! a = Some (Node (final None vs1) (first vs2 None) v)) by (by rewrite F2, F1).
  set (fs := if free L then [v] else []).
  assert (Efree : call_free L v (Heap m2 (lists h) (freed h)) = Ok (tt, Heap m2 (lists h) (freed h ++ fs))).
  { unfold call_free, fs. cbn. destruct (free L); [done | by rewrite app_nil_r]. }
  eexists. split.
  - unfold listDelNode. rewrite (st_bind_Ok _ _ _ _ _ (load_list_Ok _ _ _ EL)), (st_bind_Ok _ _ _ _ _ (node_Ok _ _ _ Ea)).
    cbn [next prev value]. rewrite (st_bind_Ok _ _ _ _ _ E1), (st_bind_Ok _ _ _ _ _ E2), (st_bind_Ok _ _ _ _ _ Efree).
    unfold free_node, put_list, mbind, st_bind. cbn [nodes lists freed]. rewrite Ea2. reflexivity.
  - split; cbn [nodes lists freed].
    + split; [done | cbn; rewrite chain_app; split | cbn [lists]].
      * eapply chain_frame; [exact C1' |]. intros b Hb. rewrite lookup_delete_ne by (intros ->; done). apply F2. by apply Hd.
      * eapply chain_frame; [exact C2' |]. intros b Hb. by rewrite lookup_delete_ne by (intros ->; done).
      * eexists. rewrite lookup_insert_eq. split; [done |]. cbn [head tail len set_len set_ends].
        rewrite Eh, Et, El. split; [| split].
        -- destruct vs1 as [| [c x] vs1 _] using rev_ind; [done |]. rewrite final_snoc, !first_app. by destruct vs1.
        -- rewrite !final_app. cbn. by destruct vs2 as [| [c x] vs2].
        -- rewrite !zlen_app, zlen_cons in *. pose proof (zlen_nonneg vs1). pose proof (zlen_nonneg vs2). rewrite u64_small; lia.
    + intros l' Hl. by rewrite lookup_insert_ne.
    + intros b Hb _. rewrite fmap_app in Hb. cbn in Hb. rewrite not_elem_of_app, not_elem_of_cons in Hb. destruct Hb as (B1 & B2 & B3).
      rewrite lookup_delete_ne by done. by rewrite F2, F1.
    + intros b. rewrite !fmap_app. cbn. rewrite !elem_of_app, elem_of_cons. tauto.
    + intros b. rewrite !fmap_app. cbn. rewrite !elem_of_app, elem_of_cons. intros Hb Hb'.
      assert (b = a) as -> by tauto. apply lookup_delete_eq.
    + done.
    + intros L0 E0. rewrite EL in E0. injection E0 as <-. eexists. by rewrite lookup_insert_eq.
Qed.

Lemma rotate_spec h l vs t : rep h l (vs ++ [t]) -> exists h', listRotate l h = Ok (tt, h') /\ moves h l (vs ++ [t]) h' (t :: vs) [].
Proof.
  intros R. destruct (r_list _ _ _ R) as (L & EL & Eh & Et & El). destruct t as [a v].
  unfold listRotate. rewrite (st_bind_Ok _ _ _ _ _ (load_list_Ok _ _ _ EL)). rewrite El, zlen_app.
  change (zlen [(a, v)]) with 1. destruct vs as [| [b w] vs].
  { exists h. split; [done | by apply moves_refl]. }
  set (xs := (b, w) :: vs) in *. assert (Hx : 0 < zlen xs) by (unfold xs; rewrite zlen_cons; pose proof (zlen_nonneg vs); lia).
  destruct (Z.leb_spec (zlen xs + 1) 1); [lia |].
  pose proof (r_chain _ _ _ R) as Hc. pose proof (chain_node _ _ _ _ _ _ _ Hc) as Ea. cbn [first] in Ea.
  destruct (split_nodup _ _ _ _ (r_nodup _ _ _ R)) as (Ha1 & _ & Hnd). rewrite app_nil_r in Hnd.
  rewrite chain_app in Hc. destruct Hc as (C1 & _).
  rewrite Et, final_snoc. cbn [deref st_lift]. rewrite (st_bind_Ok (st_lift (Ok a)) _ h a h eq_refl).
  rewrite (st_bind_Ok _ _ _ _ _ (node_Ok _ _ _ Ea)). cbn [prev].
  destruct (link_next h xs _ None C1 Hnd) as (m1 & E1 & C1' & F1).
  assert (Hne : exists c, final None xs = Some c).
  { destruct (final None xs) eqn:E; [by eexists |]. by apply final_None in E. }
  destruct Hne as [c Hc2]. rewrite Hc2 in *. cbn [if_next] in E1. rewrite (st_bind_Ok _ _ _ _ _ E1).
  destruct (link_prev (Heap m1 (lists h) (freed h)) xs None (Some a) C1' Hnd) as (m2 & E2 & C2' & F2).
  rewrite Eh, first_app. unfold xs at 1. cbn [first] in *. unfold xs in E2 at 1. cbn [if_prev first] in E2.
  rewrite (st_bind_Ok _ _ _ _ _ E2). cbn [nodes lists freed] in *.
  assert (Ea2 : m2 !! a = Some (Node (Some c) None v)) by (by rewrite F2, F1).
  rewrite (st_bind_Ok _ _ _ _ _ (node_Ok (Heap m2 (lists h) (freed h)) a _ Ea2)).
  eexists. split; [reflexivity |]. split; cbn [nodes lists freed value].
  - split; cbn [nodes lists].
    + cbn. apply NoDup_cons. split; [done | exact Hnd].
    + cbn [chain]. rewrite lookup_insert_eq. split; [done |]. eapply chain_frame; [exact C2' |].
      intros d Hd. rewrite lookup_insert_ne; [done |]. by intros ->.
    + eexists. rewrite lookup_insert_eq. split; [done |]. cbn [head tail len set_ends first final]. split; [done |].
      split; [exact (eq_sym Hc2) |]. rewrite El, zlen_app, (zlen_cons (a, v) xs). change (zlen [(a, v)]) with 1. lia.
  - intros l' Hl. by rewrite lookup_insert_ne.
  - intros d Hd _. rewrite fmap_app in Hd. cbn in Hd. rewrite not_elem_of_cons, not_elem_of_app, not_elem_of_cons in Hd.
    rewrite lookup_insert_ne by (intros ->; tauto). rewrite F2, F1; [done | |]; unfold xs; cbn; rewrite not_elem_of_cons; tauto.
  - intros d. cbn [app]. rewrite !fmap_app, elem_of_app. cbn. rewrite !elem_of_cons. tauto.
  - intros d Hd Hd'. destruct Hd'. revert Hd. rewrite fmap_app, elem_of_app. cbn. rewrite !elem_of_cons, elem_of_nil. tauto.
  - by rewrite app_nil_r.
  - intros L0 E0. rewrite EL in E0. injection E0 as <-. eexists. by rewrite lookup_insert_eq.
Qed.

(** ** Histories *)

Inductive list_op := OHead (v : V) | OTail (v : V) | OInsert (old : nat) (v : V) (after : bool) | ODel (a : nat) | ORotate.

Definition list_exec (l : nat) (o : list_op) : ST (heap V) unit :=
  match o with
  | OHead v => listAddNodeHead l v
  | OTail v => listAddNodeTail l v
  | OInsert old v after => listInsertNode l old v after
  | ODel a => listDelNode l a
  | ORotate => listRotate l
  end.

(** The same on sequences; a new node has an address of its own, and the values
    of deleted ones are given to [free] if there is one. *)
Inductive seq_step (fr : bool) : list (nat * V) -> list_op -> list (nat * V) -> list V -> Prop :=
  | step_head vs a v : a ∉ vs.*1 -> seq_step fr vs (OHead v) ((a, v) :: vs) []
  | step_tail vs a v : a ∉ vs.*1 -> seq_step fr vs (OTail v) (vs ++ [(a, v)]) []
  | step_after vs1 o w vs2 a v : a ∉ (vs1 ++ (o, w) :: vs2).*1 ->
      seq_step fr (vs1 ++ (o, w) :: vs2) (OInsert o v true) (vs1 ++ (o, w) :: (a, v) :: vs2) []
  | step_before vs1 o w vs2 a v : a ∉ (vs1 ++ (o, w) :: vs2).*1 ->
      seq_step fr (vs1 ++ (o, w) :: vs2) (OInsert o v false) (vs1 ++ (a, v) :: (o, w) :: vs2) []
  | step_del vs1 a v vs2 : seq_step fr (vs1 ++ (a, v) :: vs2) (ODel a) (vs1 ++ vs2) (if fr then [v] else [])
  | step_rotate vs t : seq_step fr (vs ++ [t]) ORotate (t :: vs) []
  | step_rotate_nil : seq_step fr [] ORotate [] [].

(** The node an operation is given is one of the list. *)
Definition op_ok vs (o : list_op) : Prop :=
  match o with OInsert a _ _ | ODel a => a ∈ vs.*1 | _ => True end.

Lemma in_split_addr (a : nat) vs : a ∈ vs.*1 -> exists vs1 v vs2, vs = vs1 ++ (a, v) :: vs2.
Proof.
  intros ([b v] & -> & Hin)%list_elem_of_fmap. apply list_elem_of_split in Hin as (vs1 & vs2 & ->). by exists vs1, v, vs2.
Qed.

Lemma list_exec_spec h l vs L o : rep h l vs -> lists h !! l = Some L -> op_ok vs o -> zlen vs + 1 < 2 ^ 64 ->
  exists h' vs' fs, list_exec l o h = Ok (tt, h') /\ seq_step (free L) vs o vs' fs /\ moves h l vs h' vs' fs.
Proof.
  intros R EL Ho Hn. destruct o as [v | v | old v [|] | a |]; cbn [list_exec op_ok] in *.
  - destruct (addHead_spec h l vs v R Hn) as (a & h' & E & Ha & M). exists h', ((a, v) :: vs), []. split; [done |]. by split; [constructor |].
  - destruct (addTail_spec h l vs v R Hn) as (a & h' & E & Ha & M). exists h', (vs ++ [(a, v)]), []. split; [done |]. by split; [constructor |].
  - destruct (in_split_addr old vs Ho) as (vs1 & w & vs2 & ->).
    destruct (insert_after_spec h l vs1 old w vs2 v R Hn) as (a & h' & E & Ha & M). eexists h', _, []. split; [done |]. by split; [constructor |].
  - destruct (in_split_addr old vs Ho) as (vs1 & w & vs2 & ->).
    destruct (insert_before_spec h l vs1 old w vs2 v R Hn) as (a & h' & E & Ha & M). eexists h', _, []. split; [done |]. by split; [constructor |].
  - destruct (in_split_addr a vs Ho) as (vs1 & w & vs2 & ->).
    destruct (delNode_spec h l vs1 a w vs2 L R EL) as (h' & E & M); [lia |]. eexists h', _, _. split; [done |]. by split; [constructor |].
  - destruct vs as [| t vs _] using rev_ind.
    + exists h, [], []. split; [| split; [constructor | by apply moves_refl]].
      destruct (r_list _ _ _ R) as (L0 & EL0 & _ & _ & El). unfold listRotate.
      rewrite (st_bind_Ok _ _ _ _ _ (load_list_Ok _ _ _ EL0)), El. done.
    + destruct (rotate_spec h l vs t R) as (h' & E & M). eexists h', _, []. split; [done |]. by split; [constructor |].
Qed.

(** ** Iteration *)

(** A loop over the list that deletes the nodes [del] chooses. *)
Fixpoint sweep (fuel : nat) (del : V -> bool) (l : nat) (it : listIter) : ST (heap V) (list V) :=
  match fuel with
  | O => st_fault OutOfFuel
  | S fuel =>
    r ← listNext it;
    match r.1 with
    | None => mret []
    | Some a =>
      x ← node a;
      _ ← (if del (value x) then listDelNode l a else mret tt);
      rest ← sweep fuel del l r.2;
      mret (value x :: rest)
    end
  end.

Definition kept (del : V -> bool) vs : list (nat * V) := base.filter (fun e => del e.2 = false) vs.
Definition dropped (del : V -> bool) (ws : list V) : list V := base.filter (fun v => del v = true) ws.

Lemma listNext_Ok h a x d : nodes h !! a = Some x ->
  listNext (Iter (Some a) d) h = Ok ((Some a, Iter (if d =? AL_START_HEAD then next x else prev x) d), h).
Proof. intros E. unfold listNext. cbn. by rewrite (st_bind_Ok _ _ _ _ _ (node_Ok _ _ _ E)). Qed.

Lemma sweep_forward del l fuel : forall todo seen h L, rep h l (seen ++ todo) -> lists h !! l = Some L ->
  (length todo < fuel)%nat -> zlen (seen ++ todo) < 2 ^ 64 ->
  exists h', sweep fuel del l (Iter (first todo None) AL_START_HEAD) h = Ok (todo.*2, h') /\
    moves h l (seen ++ todo) h' (seen ++ kept del todo) (if free L then dropped del todo.*2 else []).
Proof.
  induction fuel as [| fuel IH]; intros [| [a v] todo] seen h L R EL Hf Hn; cbn [length] in *; try lia; cbn [sweep].
  - exists h. split; [done |]. rewrite app_nil_r in R |- *. destruct (free L); cbn; rewrite app_nil_r; by apply moves_refl.
  - pose proof (chain_node _ _ _ _ _ _ _ (r_chain _ _ _ R)) as Ea.
    cbn [first]. rewrite (st_bind_Ok _ _ _ _ _ (listNext_Ok h a _ _ Ea)). cbn [fst snd Z.eqb AL_START_HEAD next].
    rewrite (st_bind_Ok _ _ _ _ _ (node_Ok _ _ _ Ea)). cbn [value fmap list_fmap snd].
    unfold kept, dropped. rewrite !filter_cons. cbn [snd]. destruct (del v) eqn:Ed.
    + destruct (delNode_spec h l seen a v todo L R EL Hn) as (h1 & E1 & M1). rewrite (st_bind_Ok _ _ _ _ _ E1).
      destruct (mv_methods _ _ _ _ _ _ M1 L EL) as (L1 & EL1 & Em).
      destruct (IH todo seen h1 L1 (mv_rep _ _ _ _ _ _ M1) EL1) as (h2 & E2 & M2); [lia | rewrite zlen_app, ?zlen_cons in *; lia |].
      exists h2. rewrite (st_bind_Ok _ _ _ _ _ E2). split; [done |]. injection Em as _ Ef _. rewrite Ef in M2.
      pose proof (moves_trans _ _ _ _ _ _ _ _ _ M1 M2) as M. by destruct (free L).
    + rewrite (st_bind_Ok _ _ _ _ _ (eq_refl : (mret tt : ST (heap V) unit) h = Ok (tt, h))).
      replace (seen ++ (a, v) :: todo) with ((seen ++ [(a, v)]) ++ todo) in R, Hn |- * by (by rewrite <- app_assoc).
      destruct (IH todo (seen ++ [(a, v)]) h L R EL) as (h2 & E2 & M2); [lia | done |].
      exists h2. rewrite (st_bind_Ok _ _ _ _ _ E2). split; [done |]. rewrite decide_True, decide_False by done.
      rewrite <- (app_assoc seen [(a, v)] (kept del todo)) in M2. exact M2.
Qed.

Lemma kept_app del vs1 vs2 : kept del (vs1 ++ vs2) = kept del vs1 ++ kept del vs2.
Proof. apply filter_app. Qed.

Lemma sweep_backward del l fuel d : d <> AL_START_HEAD -> forall todo seen h L, rep h l (todo ++ seen) -> lists h !! l = Some L ->
  (length todo < fuel)%nat -> zlen (todo ++ seen) < 2 ^ 64 ->
  exists h', sweep fuel del l (Iter (final None todo) d) h = Ok (reverse todo.*2, h') /\
    moves h l (todo ++ seen) h' (kept del todo ++ seen) (if free L then dropped del (reverse todo.*2) else []).
Proof.
  intros Hd. induction fuel as [| fuel IH]; intros todo seen h L R EL Hf Hn; [lia |].
  destruct todo as [| [a v] todo _] using rev_ind; cbn [sweep].
  - exists h. split; [done |]. cbn. destruct (free L); by apply moves_refl.
  - rewrite <- app_assoc in R, Hn |- *. cbn [app] in *. rewrite length_app in Hf. cbn [length] in Hf.
    pose proof (chain_node _ _ _ _ _ _ _ (r_chain _ _ _ R)) as Ea.
    rewrite final_snoc. rewrite (st_bind_Ok _ _ _ _ _ (listNext_Ok h a _ _ Ea)). cbn [fst snd prev].
    destruct (Z.eqb_spec d AL_START_HEAD) as [| _]; [done |].
    rewrite (st_bind_Ok _ _ _ _ _ (node_Ok _ _ _ Ea)). cbn [value].
    rewrite fmap_app, reverse_app, kept_app. cbn [fmap list_fmap snd app]. change (reverse [v]) with [v]. cbn [app].
    unfold dropped. rewrite filter_cons. unfold kept at 2. rewrite filter_cons. cbn [snd]. destruct (del v) eqn:Ed.
    + destruct (delNode_spec h l todo a v seen L R EL Hn) as (h1 & E1 & M1). rewrite (st_bind_Ok _ _ _ _ _ E1).
      destruct (mv_methods _ _ _ _ _ _ M1 L EL) as (L1 & EL1 & Em).
      destruct (IH todo seen h1 L1 (mv_rep _ _ _ _ _ _ M1) EL1) as (h2 & E2 & M2); [lia | rewrite zlen_app, ?zlen_cons in *; lia |].
      exists h2. rewrite (st_bind_Ok _ _ _ _ _ E2). split; [done |]. injection Em as _ Ef _. rewrite Ef in M2.
      pose proof (moves_trans _ _ _ _ _ _ _ _ _ M1 M2) as M. cbn. rewrite app_nil_r. by destruct (free L).
    + rewrite (st_bind_Ok _ _ _ _ _ (eq_refl : (mret tt : ST (heap V) unit) h = Ok (tt, h))).
      destruct (IH todo ((a, v) :: seen) h L R EL) as (h2 & E2 & M2); [lia | done |].
      exists h2. rewrite (st_bind_Ok _ _ _ _ _ E2). split; [done |]. rewrite decide_True, decide_False by done.
      rewrite <- app_assoc. exact M2.
Qed.

(** ** Look-ups and the end of a list *)

Lemma walk_forward k : forall vs h p, chain (nodes h) p vs None -> walk true k (first vs None) h = Ok (fst <$> vs !! k, h).
Proof.
  induction k as [| k IH]; intros [| [a v] vs] h p Hc; [done .. |]. cbn in Hc. destruct Hc as [Ha Hc].
  cbn [walk first]. rewrite (st_bind_Ok _ _ _ _ _ (node_Ok _ _ _ Ha)). cbn [next lookup list_lookup]. by eapply IH.
Qed.

Lemma walk_backward k : forall vs h n, chain (nodes h) None vs n -> walk false k (final None vs) h = Ok (fst <$> reverse vs !! k, h).
Proof.
  induction k as [| k IH]; intros vs h n Hc; (destruct vs as [| [a v] vs _] using rev_ind; [done |]);
    rewrite final_snoc, reverse_app; change (reverse [(a, v)]) with [(a, v)]; [done |].
  rewrite chain_app in Hc. destruct Hc as [Hc [Ha _]]. cbn [walk].
  rewrite (st_bind_Ok _ _ _ _ _ (node_Ok _ _ _ Ha)). cbn [prev app lookup list_lookup]. by eapply IH.
Qed.

Lemma listIndex_spec h l vs i : rep h l vs -> - 2 ^ 63 < i < 2 ^ 63 -> listIndex l i h =
  Ok (fst <$> (if i <? 0 then reverse vs !! Z.to_nat (- i - 1) else vs !! Z.to_nat i), h).
Proof.
  intros R Hi. destruct (r_list _ _ _ R) as (L & EL & Eh & Et & El). unfold listIndex.
  rewrite (st_bind_Ok _ _ _ _ _ (load_list_Ok _ _ _ EL)), Eh, Et. destruct (Z.ltb_spec i 0).
  - assert (E : forall x, - 2 ^ 63 <= x < 2 ^ 63 -> i64 x = x) by (intros x Hx; unfold i64; rewrite Z.mod_small; lia).
    rewrite !E by (rewrite ?E; lia). by eapply walk_backward, R.
  - by eapply walk_forward, R.
Qed.

(** What the list compares with: its own method, or the values. *)
Definition matches (L : dlist V) (key v : V) : bool :=
  match match_ L with Some f => f v key | None => bool_decide (key = v) end.

Lemma search_spec L key : forall vs fuel h p, chain (nodes h) p vs None -> (length vs < fuel)%nat ->
  search_loop fuel (match_ L) key (Iter (first vs None) AL_START_HEAD) h =
    Ok ((fun r => r.2.1) <$> list_find (fun e => matches L key e.2) vs, h).
Proof.
  intros vs. induction vs as [| [a v] vs IH]; intros [| fuel] h p Hc Hf; cbn [length] in Hf; try lia; cbn [search_loop]; [done |].
  cbn in Hc. destruct Hc as [Ha Hc]. cbn [first]. rewrite (st_bind_Ok _ _ _ _ _ (listNext_Ok h a _ _ Ha)). cbn [fst snd Z.eqb AL_START_HEAD next].
  rewrite (st_bind_Ok _ _ _ _ _ (node_Ok _ _ _ Ha)). cbn [value list_find snd]. unfold matches at 1.
  change (match match_ L with Some f => f v key | None => bool_decide (key = v) end) with (matches L key v).
  destruct (matches L key v) eqn:Em.
  - rewrite decide_True by done. done.
  - rewrite decide_False by (by intros []). rewrite (IH fuel h _ Hc) by lia. by destruct (list_find _ vs).
Qed.

Lemma release_nodes_spec L vs : forall h p, chain (nodes h) p vs None -> NoDup vs.*1 ->
  exists h', release_nodes (length vs) L (first vs None) h = Ok (tt, h') /\ lists h' = lists h /\
    freed h' = freed h ++ (if free L then vs.*2 else []) /\
    (forall b, b ∉ vs.*1 -> nodes h' !! b = nodes h !! b) /\ (forall b, b ∈ vs.*1 -> nodes h' !! b = None).
Proof.
  induction vs as [| [a v] vs IH]; intros h p Hc Hn.
  - exists h. split; [done |]. split; [done |]. split; [by destruct (free L); rewrite app_nil_r |]. split; [done |].
    by intros b ?%not_elem_of_nil.
  - cbn in Hc. destruct Hc as [Ha Hc]. apply NoDup_cons in Hn as [Hna Hn]. cbn [length release_nodes first deref].
    rewrite (st_bind_Ok (st_lift (Ok a)) _ h a h eq_refl), (st_bind_Ok _ _ _ _ _ (node_Ok _ _ _ Ha)). cbn [value next].
    set (h1 := Heap (delete a (nodes h)) (lists h) (freed h ++ (if free L then [v] else []))).
    assert (E : (call_free L v ≫= fun _ => free_node a) h = Ok (tt, h1)).
    { unfold mbind, st_bind, call_free, free_node, h1. destruct (free L); cbn; rewrite Ha; [done |]. by rewrite app_nil_r. }
    destruct (IH h1 (Some a)) as (h2 & E2 & El & Ef & Hk & Hg); [| done |].
    { eapply chain_frame; [exact Hc |]. intros b Hb. cbn. rewrite lookup_delete_ne; [done |]. by intros ->. }
    exists h2. split; [| split; [done |]].
    + unfold mbind, st_bind in E |- *. destruct (call_free L v h) as [[u h0] |]; [| done]. rewrite E. exact E2.
    + split; [| split].
      * rewrite Ef. cbn. rewrite <- app_assoc. by destruct (free L).
      * intros b Hb. cbn in Hb. apply not_elem_of_cons in Hb as [Hb1 Hb2]. rewrite Hk by done. cbn. by rewrite lookup_delete_ne.
      * intros b Hb. cbn in Hb. destruct (decide (b ∈ vs.*1)) as [Hin | Hin]; [by apply Hg |].
        apply elem_of_cons in Hb as [-> |]; [| done]. rewrite Hk by done. cbn. by rewrite lookup_delete_eq.
Qed.

Lemma release_spec h l vs L : rep h l vs -> lists h !! l = Some L ->
  exists h', listRelease l h = Ok (tt, h') /\ lists h' = delete l (lists h) /\
    freed h' = freed h ++ (if free L then vs.*2 else []) /\
    (forall b, b ∉ vs.*1 -> nodes h' !! b = nodes h !! b) /\ (forall b, b ∈ vs.*1 -> nodes h' !! b = None).
Proof.
  intros R EL. destruct (r_list _ _ _ R) as (L0 & EL0 & Eh & _ & El). rewrite EL in EL0. injection EL0 as <-.
  unfold listRelease. rewrite (st_bind_Ok _ _ _ _ _ (load_list_Ok _ _ _ EL)), Eh, El. unfold zlen. rewrite Nat2Z.id.
  destruct (release_nodes_spec L vs h None) as (h1 & E1 & Els & Ef & Hk & Hg); [apply R | apply R |].
  rewrite (st_bind_Ok _ _ _ _ _ E1). unfold free_list. rewrite Els, EL. eexists. split; [done |]. by split.
Qed.

(** ** Many lists on one heap *)

Record heap_ok h (M : gmap nat (list (nat * V))) : Prop := {
  ho_dom : dom (lists h) = dom M;
  ho_rep : forall l vs, M !! l = Some vs -> rep h l vs;
  ho_disjoint : forall l1 l2 vs1 vs2 a, M !! l1 = Some vs1 -> M !! l2 = Some vs2 -> a ∈ vs1.*1 -> a ∈ vs2.*1 -> l1 = l2;
  ho_owned : forall a, a ∈ dom (nodes h) -> exists l vs, M !! l = Some vs /\ a ∈ vs.*1;
}.

Lemma rep_frame h h' l vs : rep h l vs -> (forall a, a ∈ vs.*1 -> nodes h' !! a = nodes h !! a) ->
  lists h' !! l = lists h !! l -> rep h' l vs.
Proof.
  intros R Hn Hl. split; [apply R | | rewrite Hl; apply R]. eapply chain_frame; [apply R | done].
Qed.

Lemma moves_ok h M l vs h' vs' fs : heap_ok h M -> M !! l = Some vs -> moves h l vs h' vs' fs -> heap_ok h' (<[l := vs']> M).
Proof.
  intros O E Mv. assert (Hother : forall l2 vs2, M !! l2 = Some vs2 -> l2 <> l -> forall b, b ∈ vs2.*1 -> b ∉ vs'.*1).
  { intros l2 vs2 E2 Hne. eapply moves_disjoint; [exact Mv | by apply (ho_rep _ _ O) |].
    intros b Hb Hb'. apply Hne. by apply (ho_disjoint _ _ O l2 l vs2 vs b). }
  split.
  - rewrite dom_insert_L, <- (ho_dom _ _ O). apply set_eq. intros l'. rewrite elem_of_union, elem_of_singleton, !elem_of_dom.
    destruct (decide (l' = l)) as [-> | Hl]; [| rewrite (mv_lists _ _ _ _ _ _ Mv) by done; tauto].
    split; [by left |]. intros _. destruct (r_list _ _ _ (mv_rep _ _ _ _ _ _ Mv)) as (L & -> & _). by eexists.
  - intros l2 vs2. destruct (decide (l2 = l)) as [-> | Hne].
    + rewrite lookup_insert_eq. intros [= <-]. apply Mv.
    + rewrite lookup_insert_ne by done. intros E2. eapply moves_other; [exact Mv | done | by apply (ho_rep _ _ O) |].
      intros b Hb Hb'. apply Hne. by apply (ho_disjoint _ _ O l2 l vs2 vs b).
  - intros l1 l2 vs1 vs2 a. rewrite !lookup_insert. destruct (decide (l = l1)) as [<- | H1], (decide (l = l2)) as [<- | H2].
    + done.
    + intros [= <-] E2 Ha1 Ha2. by destruct (Hother l2 vs2 E2 (not_eq_sym H2) a).
    + intros E1 [= <-] Ha1 Ha2. by destruct (Hother l1 vs1 E1 (not_eq_sym H1) a).
    + apply (ho_disjoint _ _ O).
  - intros a Ha. destruct (decide (a ∈ vs'.*1)) as [Hv | Hv]; [exists l, vs'; by rewrite lookup_insert_eq |].
    destruct (decide (a ∈ vs.*1)) as [Hv0 | Hv0].
    { apply elem_of_dom in Ha. rewrite (mv_gone _ _ _ _ _ _ Mv a Hv0 Hv) in Ha. by destruct Ha. }
    apply elem_of_dom in Ha. rewrite (mv_nodes _ _ _ _ _ _ Mv a Hv0 Hv) in Ha. apply elem_of_dom in Ha.
    destruct (ho_owned _ _ O a Ha) as (l2 & vs2 & E2 & Hin). exists l2, vs2. split; [| done].
    rewrite lookup_insert_ne; [done |]. intros <-. rewrite E in E2. by injection E2 as <-.
Qed.

Lemma create_ok h M : heap_ok h M -> exists l h', listCreate h = Ok (l, h') /\ M !! l = None /\ heap_ok h' (<[l := []]> M) /\
  freed h' = freed h /\ lists h' !! l = Some (List None None None false None 0).
Proof.
  intros O. set (l := fresh (dom (lists h))). assert (Hl : l ∉ dom (lists h)) by apply is_fresh.
  exists l. eexists. split; [reflexivity |]. rewrite (ho_dom _ _ O) in Hl. apply not_elem_of_dom in Hl. split; [done |].
  split; [| cbn; by rewrite lookup_insert_eq]. split; cbn [lists nodes].
  - fold l. rewrite !dom_insert_L. by rewrite <- (ho_dom _ _ O).
  - intros l2 vs2. rewrite lookup_insert. destruct (decide (l = l2)) as [<- | Hne].
    + intros [= <-]. split; [constructor | done |]. cbn. eexists. by rewrite lookup_insert_eq.
    + intros E2. eapply rep_frame; [by apply (ho_rep _ _ O) | done |]. cbn. by rewrite lookup_insert_ne.
  - intros l1 l2 vs1 vs2 a. rewrite !lookup_insert. destruct (decide (l = l1)) as [<- | H1], (decide (l = l2)) as [<- | H2]; [done | | |].
    + by intros [= <-] _ ?%not_elem_of_nil.
    + by intros _ [= <-] _ ?%not_elem_of_nil.
    + apply (ho_disjoint _ _ O).
  - intros a Ha. destruct (ho_owned _ _ O a Ha) as (l2 & vs2 & E2 & Hin). exists l2, vs2. split; [| done].
    rewrite lookup_insert_ne; [done |]. intros <-. by rewrite E2 in Hl.
Qed.

Lemma release_ok h M l vs L : heap_ok h M -> M !! l = Some vs -> lists h !! l = Some L ->
  exists h', listRelease l h = Ok (tt, h') /\ heap_ok h' (delete l M) /\ freed h' = freed h ++ (if free L then vs.*2 else []).
Proof.
  intros O E EL. destruct (release_spec h l vs L (ho_rep _ _ O _ _ E) EL) as (h' & Er & Els & Ef & Hk & Hg).
  exists h'. split; [done |]. split; [| done]. split.
  - by rewrite Els, !dom_delete_L, (ho_dom _ _ O).
  - intros l2 vs2. rewrite lookup_delete. case_decide as Hne; [done |]. intros E2.
    eapply rep_frame; [by apply (ho_rep _ _ O) | | rewrite Els; by rewrite lookup_delete_ne].
    intros a Ha. apply Hk. intros Ha'. apply Hne. by apply (ho_disjoint _ _ O l l2 vs vs2 a).
  - intros l1 l2 vs1 vs2 a. rewrite !lookup_delete. do 2 case_decide; try done. apply (ho_disjoint _ _ O).
  - intros a Ha. apply elem_of_dom in Ha. destruct (decide (a ∈ vs.*1)) as [Hv | Hv]; [rewrite Hg in Ha by done; by destruct Ha |].
    rewrite Hk in Ha by done. apply elem_of_dom in Ha. destruct (ho_owned _ _ O a Ha) as (l2 & vs2 & E2 & Hin).
    exists l2, vs2. split; [| done]. rewrite lookup_delete_ne; [done |]. intros <-. rewrite E in E2. by injection E2 as <-.
Qed.

(** The methods of a list may be set at any time. *)
Lemma set_methods_ok h M l L L' : heap_ok h M -> lists h !! l = Some L ->
  head L' = head L -> tail L' = tail L -> len L' = len L -> heap_ok (Heap (nodes h) (<[l := L']> (lists h)) (freed h)) M.
Proof.
  intros O EL Eh Et El. split; [| | apply O | apply O].
  - cbn [lists]. rewrite dom_insert_lookup_L by (by eexists). apply O.
  - intros l2 vs2 E2. pose proof (ho_rep _ _ O _ _ E2) as R. destruct (decide (l2 = l)) as [-> | Hne].
    + split; [apply R | apply R |]. destruct (r_list _ _ _ R) as (L0 & EL0 & H1 & H2 & H3). rewrite EL in EL0. injection EL0 as <-.
      exists L'. cbn [lists]. rewrite lookup_insert_eq, Eh, Et, El. done.
    + eapply rep_frame; [done | done |]. cbn [lists]. by rewrite lookup_insert_ne.
Qed.

Inductive heap_op :=
  | HCreate
  | HRelease (l : nat)
  | HOp (l : nat) (o : list_op)
  | HIndex (l : nat) (i : Z)
  | HSearch (l : nat) (key : V).

(** The result is an address, of a list or a node. *)
Definition heap_exec (fuel : nat) (o : heap_op) : ST (heap V) (option nat) :=
  match o with
  | HCreate => l ← listCreate; mret (Some l)
  | HRelease l => _ ← listRelease l; mret None
  | HOp l o => _ ← list_exec l o; mret None
  | HIndex l i => listIndex l i
  | HSearch l key => listSearchKey fuel l key
  end.

(** The same on a map from lists to their sequences; [ls] are the lists with their
    methods, and the last argument is what is given to [free]. *)
Inductive map_step (ls : gmap nat (dlist V)) (M : gmap nat (list (nat * V))) : heap_op -> gmap nat (list (nat * V)) -> option nat -> list V -> Prop :=
  | ms_create l : M !! l = None -> map_step ls M HCreate (<[l := []]> M) (Some l) []
  | ms_release l vs L : M !! l = Some vs -> ls !! l = Some L ->
      map_step ls M (HRelease l) (delete l M) None (if free L then vs.*2 else [])
  | ms_op l vs L o vs' fs : M !! l = Some vs -> ls !! l = Some L -> seq_step (free L) vs o vs' fs ->
      map_step ls M (HOp l o) (<[l := vs']> M) None fs
  | ms_index l vs i : M !! l = Some vs ->
      map_step ls M (HIndex l i) M (fst <$> (if i <? 0 then reverse vs !! Z.to_nat (- i - 1) else vs !! Z.to_nat i)) []
  | ms_search l vs L key : M !! l = Some vs -> ls !! l = Some L ->
      map_step ls M (HSearch l key) M ((fun r => r.2.1) <$> list_find (fun e => matches L key e.2) vs) [].

Definition heap_op_ok (fuel : nat) (M : gmap nat (list (nat * V))) (o : heap_op) : Prop :=
  match o with
  | HCreate => True
  | HRelease l => is_Some (M !! l)
  | HOp l o => exists vs, M !! l = Some vs /\ op_ok vs o /\ zlen vs + 1 < 2 ^ 64
  | HIndex l i => is_Some (M !! l) /\ - 2 ^ 63 < i < 2 ^ 63
  | HSearch l _ => exists vs, M !! l = Some vs /\ (length vs < fuel)%nat
  end.

Lemma ok_list h M l vs : heap_ok h M -> M !! l = Some vs -> exists L, lists h !! l = Some L.
Proof. intros O E. destruct (r_list _ _ _ (ho_rep _ _ O _ _ E)) as (L & EL & _). by exists L. Qed.

(** C32: doubly linked lists are sequences.  On a heap that holds some lists and
    nothing else, each operation - making and releasing a list, adding at either
    end, inserting before or after a node, deleting a node, rotating, finding by
    index or by key - runs without touching freed or foreign memory, does to its
    list what its name says, leaves the other lists alone and the heap again
    holding the lists and nothing else, so no node is leaked; a released or
    deleted value goes to the [free] method exactly once. *)
Theorem adlist_refines fuel h M o : heap_ok h M -> heap_op_ok fuel M o ->
  exists r h' M' fs, heap_exec fuel o h = Ok (r, h') /\ map_step (lists h) M o M' r fs /\ heap_ok h' M' /\ freed h' = freed h ++ fs.
Proof.
  intros O Ho. destruct o as [| l | l o | l i | l key]; cbn [heap_exec heap_op_ok] in *.
  - destruct (create_ok h M O) as (l & h' & E & Hl & O' & Ef & _). exists (Some l), h', (<[l := []]> M), [].
    rewrite (st_bind_Ok _ _ _ _ _ E). split; [done |]. split; [by constructor |]. split; [done | by rewrite app_nil_r].
  - destruct Ho as [vs E]. destruct (ok_list h M l vs O E) as (L & EL). destruct (release_ok h M l vs L O E EL) as (h' & Er & O' & Ef).
    eexists None, h', _, _. rewrite (st_bind_Ok _ _ _ _ _ Er). split; [done |]. split; [by econstructor |]. by split.
  - destruct Ho as (vs & E & Ho & Hn). destruct (ok_list h M l vs O E) as (L & EL).
    destruct (list_exec_spec h l vs L o (ho_rep _ _ O _ _ E) EL Ho Hn) as (h' & vs' & fs & Ex & S & Mv).
    exists None, h', (<[l := vs']> M), fs. rewrite (st_bind_Ok _ _ _ _ _ Ex). split; [done |]. split; [by econstructor |].
    split; [by eapply moves_ok | apply Mv].
  - destruct Ho as [[vs E] Hi]. eexists _, h, M, []. rewrite (listIndex_spec h l vs i (ho_rep _ _ O _ _ E) Hi).
    split; [done |]. split; [by constructor |]. split; [done | by rewrite app_nil_r].
  - destruct Ho as (vs & E & Hf). destruct (r_list _ _ _ (ho_rep _ _ O _ _ E)) as (L & EL & Eh & _).
    eexists _, h, M, []. unfold listSearchKey, listGetIterator.
    assert (Ei : (L ← load_list l; mret (Iter (if AL_START_HEAD =? AL_START_HEAD then head L else tail L) AL_START_HEAD)) h =
      Ok (Iter (first vs None) AL_START_HEAD, h)) by (rewrite (st_bind_Ok _ _ _ _ _ (load_list_Ok _ _ _ EL)), Eh; done).
    rewrite (st_bind_Ok _ _ _ _ _ Ei), (st_bind_Ok _ _ _ _ _ (load_list_Ok _ _ _ EL)).
    rewrite (search_spec L key vs fuel h None (r_chain _ _ _ (ho_rep _ _ O _ _ E)) Hf).
    split; [done |]. split; [by econstructor |]. split; [done | by rewrite app_nil_r].
Qed.

Lemma getIterator_Ok h l vs L d : rep h l vs -> lists h !! l = Some L ->
  listGetIterator l d h = Ok (Iter (if d =? AL_START_HEAD then first vs None else final None vs) d, h).
Proof.
  intros R EL. destruct (r_list _ _ _ R) as (L0 & EL0 & Eh & Et & _). rewrite EL in EL0. injection EL0 as <-.
  unfold listGetIterator. by rewrite (st_bind_Ok _ _ _ _ _ (load_list_Ok _ _ _ EL)), Eh, Et.
Qed.

(** Deleting the node an iterator has just returned is safe.  A loop from
    either end that deletes the nodes it likes sees every value once, in order, and
    leaves the others in their order, with nothing leaked and [free] called for the
    deleted ones. *)
Theorem adlist_sweep fuel del h M l vs L d : heap_ok h M -> M !! l = Some vs -> lists h !! l = Some L ->
  (length vs < fuel)%nat -> zlen vs < 2 ^ 64 ->
  let seen := if d =? AL_START_HEAD then vs.*2 else reverse vs.*2 in
  exists h', (it ← listGetIterator l d; sweep fuel del l it) h = Ok (seen, h') /\
    heap_ok h' (<[l := kept del vs]> M) /\ freed h' = freed h ++ (if free L then dropped del seen else []).
Proof.
  intros O E EL Hf Hn seen. pose proof (ho_rep _ _ O _ _ E) as R.
  rewrite (st_bind_Ok _ _ _ _ _ (getIterator_Ok h l vs L d R EL)). unfold seen.
  destruct (Z.eqb_spec d AL_START_HEAD) as [-> | Hd].
  - destruct (sweep_forward del l fuel vs [] h L R EL Hf Hn) as (h' & Es & Mv). exists h'.
    split; [done |]. split; [by eapply moves_ok | apply Mv].
  - assert (R' := R). rewrite <- (app_nil_r vs) in R', Hn.
    destruct (sweep_backward del l fuel d Hd vs [] h L R' EL Hf Hn) as (h' & Es & Mv). rewrite !app_nil_r in Mv. exists h'.
    split; [done |]. split; [by eapply moves_ok | apply Mv].
Qed.

(** ** Copies *)

Definition copy_value (d : option (V -> option V)) (v : V) : option V := match d with Some f => f v | None => Some v end.

(** The copies up to the first that fails, and whether none does. *)
Fixpoint dups (d : option (V -> option V)) (vs : list V) : list V * bool :=
  match vs with
  | [] => ([], true)
  | v :: vs => match copy_value d v with Some w => (w :: (dups d vs).1, (dups d vs).2) | None => ([], false) end
  end.

Lemma dup_loop_spec d fuel orig copy : orig <> copy -> forall todo seen h M cs C, heap_ok h M ->
  M !! orig = Some (seen ++ todo) -> M !! copy = Some cs -> lists h !! copy = Some C ->
  (length todo < fuel)%nat -> zlen cs + zlen todo < 2 ^ 64 ->
  exists h', dup_loop fuel copy d (Iter (first todo None) AL_START_HEAD) h = Ok ((dups d todo.*2).2, h') /\
    if (dups d todo.*2).2
    then (exists cs', heap_ok h' (<[copy := cs']> M) /\ cs'.*2 = cs.*2 ++ (dups d todo.*2).1) /\ freed h' = freed h /\
         exists C', lists h' !! copy = Some C' /\ methods C' = methods C
    else heap_ok h' (delete copy M) /\ freed h' = freed h ++ (if free C then cs.*2 ++ (dups d todo.*2).1 else []).
Proof.
  intros Hne. induction fuel as [| fuel IH]; intros [| [a v] todo] seen h M cs C O Eo Ec EC Hf Hn; cbn [length] in Hf; try lia; cbn [dup_loop].
  - exists h. split; [done |]. cbn. split; [| split; [done | by exists C]]. exists cs. rewrite insert_id by done. by rewrite app_nil_r.
  - pose proof (ho_rep _ _ O _ _ Eo) as R. pose proof (chain_node _ _ _ _ _ _ _ (r_chain _ _ _ R)) as Ea.
    cbn [first]. rewrite (st_bind_Ok _ _ _ _ _ (listNext_Ok h a _ _ Ea)). cbn [fst snd Z.eqb AL_START_HEAD next].
    rewrite (st_bind_Ok _ _ _ _ _ (node_Ok _ _ _ Ea)). cbn [value fmap list_fmap snd dups].
    change (match d with Some f => f v | None => Some v end) with (copy_value d v). rewrite zlen_cons in Hn. pose proof (zlen_nonneg todo).
    destruct (copy_value d v) as [w |] eqn:Ed; cbn [fst snd].
    + destruct (addTail_spec h copy cs w (ho_rep _ _ O _ _ Ec)) as (b & h1 & E1 & Hb & Mv); [lia |].
      rewrite (st_bind_Ok _ _ _ _ _ E1). destruct (mv_methods _ _ _ _ _ _ Mv C EC) as (C1 & EC1 & Em).
      pose proof (moves_ok _ _ _ _ _ _ _ O Ec Mv) as O1.
      destruct (IH todo (seen ++ [(a, v)]) h1 (<[copy := cs ++ [(b, w)]]> M) (cs ++ [(b, w)]) C1 O1) as (h2 & E2 & Hres).
      { rewrite lookup_insert_ne by done. by rewrite <- app_assoc. } { by rewrite lookup_insert_eq. } { done. } { lia. }
      { rewrite zlen_app. change (zlen [(b, w)]) with 1. lia. }
      exists h2. split; [done |]. rewrite fmap_app in Hres. cbn [fmap list_fmap snd] in Hres. injection Em as Ed1 Ef1 Em1.
      rewrite (mv_freed _ _ _ _ _ _ Mv), app_nil_r in Hres. destruct (dups d todo.*2) as [ws [|]]; cbn [fst snd] in *.
      * destruct Hres as ((cs' & O2 & Ecs) & Ef & C' & EC' & Em'). split; [| split; [done |]].
        -- exists cs'. rewrite insert_insert_eq in O2. split; [done |]. by rewrite Ecs, <- app_assoc.
        -- exists C'. split; [done |]. rewrite Em'. unfold methods. congruence.
      * destruct Hres as (O2 & Ef). rewrite delete_insert_eq in O2. split; [done |]. rewrite Ef, Ef1, <- app_assoc. done.
    + destruct (release_ok h M copy cs C O Ec EC) as (h1 & E1 & O1 & Ef). exists h1.
      rewrite (st_bind_Ok _ _ _ _ _ E1). split; [done |]. split; [done |]. by rewrite app_nil_r.
Qed.

(** [listDup].  The copy is a list of its own with copies of the values in their
    order and the methods of the original, which is left as it was; if a value
    cannot be copied there is no new list, the copies made so far were given to
    [free], and no node is leaked. *)
Theorem listDup_copies fuel h M l vs L : heap_ok h M -> M !! l = Some vs -> lists h !! l = Some L ->
  (length vs < fuel)%nat -> zlen vs < 2 ^ 64 ->
  let r := dups (dup L) vs.*2 in
  exists h', if r.2
    then exists c cs, listDup fuel l h = Ok (Some c, h') /\ M !! c = None /\ heap_ok h' (<[c := cs]> M) /\ cs.*2 = r.1 /\ freed h' = freed h /\
         exists C, lists h' !! c = Some C /\ methods C = methods L
    else listDup fuel l h = Ok (None, h') /\ heap_ok h' M /\ freed h' = freed h ++ (if free L then r.1 else []).
Proof.
  intros O E EL Hf Hn r. destruct (create_ok h M O) as (c & h1 & E1 & Hc & O1 & Ef & EC). assert (Hlc : l <> c) by (intros ->; by rewrite E in Hc).
  assert (EL1 : lists h1 !! l = Some L).
  { unfold listCreate in E1. injection E1 as <- <-. cbn. by rewrite lookup_insert_ne. }
  set (h2 := Heap (nodes h1) (<[c := List None None (dup L) (free L) (match_ L) 0]> (lists h1)) (freed h1)).
  assert (O2 : heap_ok h2 (<[c := []]> M)) by (by eapply set_methods_ok).
  assert (EL2 : lists h2 !! l = Some L) by (cbn; by rewrite lookup_insert_ne).
  assert (E2 : (<[c := []]> M) !! l = Some vs) by (by rewrite lookup_insert_ne).
  destruct (dup_loop_spec (dup L) fuel l c Hlc vs [] h2 (<[c := []]> M) [] (List None None (dup L) (free L) (match_ L) 0))
    as (h' & El & Hres); [done | done | by rewrite lookup_insert_eq | cbn; by rewrite lookup_insert_eq | done | change (zlen []) with 0; lia |].
  exists h'. assert (Ed : listDup fuel l h = (ok ← dup_loop fuel c (dup L) (Iter (first vs None) AL_START_HEAD); mret (if (ok : bool) then Some c else None)) h2).
  { unfold listDup. rewrite (st_bind_Ok _ _ _ _ _ E1), (st_bind_Ok _ _ _ _ _ (load_list_Ok _ _ _ EL1)).
    rewrite (st_bind_Ok (put_list c (List None None (dup L) (free L) (match_ L) 0)) _ h1 tt h2 eq_refl).
    by rewrite (st_bind_Ok _ _ _ _ _ (getIterator_Ok h2 l vs L AL_START_HEAD (ho_rep _ _ O2 _ _ E2) EL2)). }
  rewrite Ed, (st_bind_Ok _ _ _ _ _ El). fold r in Hres |- *. destruct r as [ws [|]]; cbn [fst snd] in *.
  - destruct Hres as ((cs & O' & Ecs) & Ef' & C & EC' & Em). rewrite insert_insert_eq in O'. exists c, cs.
    split; [done |]. split; [done |]. split; [done |]. split; [done |]. split; [by rewrite Ef' |]. exists C. split; [done |]. by rewrite Em.
  - destruct Hres as (O' & Ef'). rewrite delete_insert_eq, delete_id in O' by done. split; [done |]. split; [done |].
    rewrite Ef'. cbn [freed h2]. by rewrite Ef.
Qed.
End rep.

(** A heap with one list of two nodes, which has a [free] method. *)
Definition demo_list : dlist Z := List (Some 0%nat) (Some 1%nat) None true None 2.
Definition demo_heap : heap Z :=
  Heap {[0%nat := Node None (Some 1%nat) 10; 1%nat := Node (Some 0%nat) None 20]} {[0%nat := demo_list]} [].
Definition demo_seqs : gmap nat (list (nat * Z)) := {[0%nat := [(0%nat, 10); (1%nat, 20)]]}.

Lemma demo_heap_ok : heap_ok demo_heap demo_seqs.
Proof.
  unfold demo_seqs. split.
  - by vm_compute.
  - intros l vs [<- <-]%lookup_singleton_Some. split; [| by cbn | by exists demo_list].
    apply (bool_decide_unpack _). by vm_compute.
  - intros l1 l2 vs1 vs2 a [<- _]%lookup_singleton_Some [<- _]%lookup_singleton_Some. done.
  - intros a Ha. exists 0%nat, [(0%nat, 10); (1%nat, 20)]. split; [done |]. cbn in Ha |- *.
    rewrite dom_insert, dom_singleton in Ha. apply elem_of_union in Ha as [->%elem_of_singleton | ->%elem_of_singleton]; [left | right; left].
Qed.

Lemma adlist_refines_witness : exists h' M', heap_exec 5 (HOp 0%nat (ODel 0%nat)) demo_heap = Ok (None, h') /\
  heap_ok h' M' /\ freed h' = [10].
Proof.
  destruct (adlist_refines 5 demo_heap demo_seqs (HOp 0%nat (ODel 0%nat)) demo_heap_ok) as (r & h' & M' & fs & E & _ & O & Ef).
  - exists [(0%nat, 10); (1%nat, 20)]. split; [done |]. split; [by left | by vm_compute].
  - vm_compute in E. injection E as <- <-. eexists _, M'. split; [reflexivity |]. split; [exact O | reflexivity].
Defined.

Lemma adlist_sweep_witness : exists h', (it ← listGetIterator 0%nat AL_START_TAIL; sweep 3 (fun v => v <? 15) 0%nat it) demo_heap = Ok ([20; 10], h') /\
  heap_ok h' {[0%nat := [(1%nat, 20)]]} /\ freed h' = [10].
Proof.
  destruct (adlist_sweep 3 (fun v => v <? 15) demo_heap demo_seqs 0 [(0%nat, 10); (1%nat, 20)] demo_list AL_START_TAIL demo_heap_ok)
    as (h' & E & O & Ef); [reflexivity | reflexivity | cbn; lia | by vm_compute |].
  exists h'. split; [exact E |]. split; [exact O | exact Ef].
Defined.

Lemma listDup_copies_witness : exists h' c cs, listDup 3 0%nat demo_heap = Ok (Some c, h') /\ cs.*2 = [10; 20] /\
  heap_ok h' (<[c := cs]> demo_seqs).
Proof.
  destruct (listDup_copies 3 demo_heap demo_seqs 0 [(0%nat, 10); (1%nat, 20)] demo_list demo_heap_ok)
    as (h' & c & cs & E & _ & O & Ec & _); [reflexivity | reflexivity | cbn; lia | by vm_compute |].
  exists h', c, cs. split; [exact E |]. split; [exact Ec | exact O].
Defined.
