(* ===== verification/Timer.v ===== *)
(** * timer.c: timers on their own event loop

    Requests cross to the timer thread through the event queue of
    [EventMsgQueue]; here a request is what [emCallback] gets.  The thread keeps
    its timers as time events of an event loop and a dictionary from serial
    numbers to time events.  Whether a context is alive to be sent to, and
    whether the event queue accepts a request, are arguments. *)
From S2P Require Import Prelude Ae AeEpoll Dict.

Section Timer.
  Context {K : Type} `{AeApi K}.
  Variable alive : Z -> bool.

Record timerEvent := TimerEvent {
  ev_sn : Z;
  ev_to : Z;
  ev_value : Z;
  ev_time : Z;
  ev_noMore : Z;
  ev_type : Z;
}.

(** [timeProc] is the only time proc, [eventFinalizerProc] the only finalizer. *)
Record timer := Timer {
  base : aeEventLoop unit timerEvent K;
  timerDict : dict Z Z;
  tsn : Z;
  requests : list timerEvent;
  responses : list (Z * Z);
}.

Definition set_base (t : timer) v := Timer v (timerDict t) (tsn t) (requests t) (responses t).

(** The descriptor of the message queue, which the event loop watches as well,
    plays no part in the timers. *)
Definition timerInit (now : Z) (k : K) : timer := Timer (aeCreateEventLoop 32 now k) dictCreate 0 [] [].

(** The send of a response: the session it returns is an [int]. *)
Definition respond (to session : Z) (t : timer) : Z * timer :=
  if alive to then (i32 session, Timer (base t) (timerDict t) (tsn t) (requests t) (responses t ++ [(to, session)]))
  else (-1, t).

Definition timerNewSn (t : timer) : Z * timer :=
  let sn := tsn t +u 1 in
  (Z.land sn 0x7fffffff, Timer (base t) (timerDict t) sn (requests t) (responses t)).

Definition post (accepts : bool) (e : timerEvent) (t : timer) : Z * timer :=
  if accepts then (0, Timer (base t) (timerDict t) (tsn t) (requests t ++ [e]) (responses t)) else (-1, t).

Definition timerCancel (accepts : bool) (sn : Z) (t : timer) : timer :=
  (post accepts (TimerEvent 0 0 sn 0 0 1) t).2.

Definition timerTimeout (accepts : bool) (to time session noMore : Z) (t : timer) : Z * timer :=
  if time =? 0 then
    let r := respond to session t in
    if r.1 <? 0 then (-1, r.2) else (0, r.2)
  else
    let '(sn, t) := timerNewSn t in
    let r := post accepts (TimerEvent sn to session time noMore 0) t in
    if r.1 <? 0 then (-1, r.2) else (sn, r.2).

Definition timerStop (accepts : bool) (t : timer) : timer :=
  (post accepts (TimerEvent 0 0 0 0 0 2) t).2.

Definition timeProc (te : aeTimeEvent unit timerEvent) (t : timer) : outcome (Z * timer) :=
  event ← deref (te_data te);
  let r := respond (ev_to event) (ev_value event) t in
  if r.1 <? 0 then mret (AE_NOMORE, r.2)
  else if ev_noMore event =? 0 then mret (AE_NOMORE, r.2)
  else mret (ev_time event, r.2).

Definition eventFinalizerProc (p : unit) (d : option timerEvent) (t : timer) : outcome timer := mret t.

(** [_dictHashFunction] *)
Definition timer_hash (sn : Z) : Z := sn.

(** [now] is the reading of the clock; a fresh dictionary entry holds [junk]. *)
Definition emCallback (junk : Z) (now : Z * Z) (event : timerEvent) (t : timer) : outcome timer :=
  if ev_type event =? 0 then
    let '(id, el) := aeCreateTimeEvent (base t) now (ev_time event) tt (Some event) (Some tt) in
    '(_, d) ← dictAdd timer_hash junk true (timerDict t) (ev_sn event) id;
    mret (Timer el d (tsn t) (requests t) (responses t))
  else if ev_type event =? 1 then
    '(value, d) ← dictFetchValue timer_hash (timerDict t) (ev_value event);
    let el := match value with
              | Some id => (aeDeleteTimeEvent (base t) id).2
              | None => base t
              end in
    mret (Timer el d (tsn t) (requests t) (responses t))
  else mret (set_base t (aeStop (base t))).

(** A pass of the loop over its timers. *)
Definition serve (fuel : nat) (clock : nat -> Z * Z) (now : Z) (t : timer) : outcome (Z * nat * timer) :=
  processTimeEvents base (fun el t => set_base t el) timeProc eventFinalizerProc clock fuel 0 now t.

(** ** Timers that are set *)

(** What the timer thread relies on: its dictionary is well formed and its time
    events have different identifiers, all of them used. *)
Record timer_ok (t : timer) : Prop := {
  to_dict : dwf timer_hash (timerDict t);
  to_ids : NoDup (te_id <$> timeEvents (base t));
  to_used : Forall (fun te => te_id te < timeEventNextId (base t)) (timeEvents (base t));
}.

Definition event_at (t : timer) (now : Z * Z) (e : timerEvent) : aeTimeEvent unit timerEvent :=
  let w := aeAddMillisecondsToNow now (ev_time e) in
  TimeEvent (timeEventNextId (base t)) w.1 w.2 tt (Some tt) (Some e).

Lemma timer_set junk now e t :
  timer_ok t -> ev_type e = 0 -> zlen (entries (timerDict t)) <= 536870912 ->
  exists t', emCallback junk now e t = Ok t' /\ timer_ok t' /\
    timeEvents (base t') = event_at t now e :: timeEvents (base t) /\
    lastTime (base t') = lastTime (base t) /\
    timeEventNextId (base t') = timeEventNextId (base t) + 1 /\ responses t' = responses t /\
    abs (timerDict t') = match abs (timerDict t) !! ev_sn e with
                         | Some _ => abs (timerDict t)
                         | None => <[ev_sn e := timeEventNextId (base t)]> (abs (timerDict t))
                         end.
Proof.
  intros [D N U] Et Hn. unfold emCallback. rewrite Et. cbn [Z.eqb aeCreateTimeEvent].
  destruct (dictAdd_spec timer_hash junk true (timerDict t) (ev_sn e) (timeEventNextId (base t)) D Hn)
    as (r & d & E & D' & Hr).
  rewrite E, bind_Ok. eexists. split; [reflexivity |].
  assert (Ha : abs d = match abs (timerDict t) !! ev_sn e with
                       | Some _ => abs (timerDict t)
                       | None => <[ev_sn e := timeEventNextId (base t)]> (abs (timerDict t))
                       end).
  { destruct Hr as [(Hin & _ & P) | (Hnin & _ & P)].
    - destruct (abs (timerDict t) !! ev_sn e) eqn:Ea; [by apply (abs_perm timer_hash) | by apply abs_None in Ea].
    - rewrite (proj1 (abs_None _ _) Hnin). apply (abs_perm timer_hash d _ D' P). }
  split; [| done]. split; [exact D' | |]; cbn.
  - apply NoDup_cons. split; [| exact N]. intros (te & Ete & Hin)%list_elem_of_fmap.
    rewrite Forall_forall in U. specialize (U te Hin). lia.
  - constructor; [cbn; lia |]. eapply Forall_impl; [exact U |]. cbn. lia.
Qed.

Lemma remove_head {P D} (te : aeTimeEvent P D) l : remove_time (te_id te) (te :: l) = Some (te, l).
Proof. cbn. by rewrite Z.eqb_refl. Qed.

(** A list of timers none of which is due is passed over. *)
Lemma time_loop_idle clock maxId l : forall fuel n m t,
  (length l < fuel)%nat -> (forall i, Forall (fun te => due (clock i) te = false) l) ->
  exists n', time_loop base (fun el t => set_base t el) timeProc eventFinalizerProc clock fuel n maxId l m t = Ok (m, n', t).
Proof.
  induction l as [| te l IH]; intros fuel n m t Hf Hd; (destruct fuel as [| fuel]; [cbn in Hf; lia |]); cbn [time_loop].
  - by exists n.
  - assert (Hl : forall i, Forall (fun te => due (clock i) te = false) l)
      by (intros i; specialize (Hd i); by apply Forall_cons in Hd as [_ Hd]).
    cbn in Hf. destruct (te_id te >? maxId); [apply IH; [lia | done] |].
    pose proof (Hd n) as Hn. apply Forall_cons in Hn as [Hn _]. rewrite Hn. apply IH; [lia | done].
Qed.

Lemma set_when_head {P D} (te : aeTimeEvent P D) l w :
  set_when (te_id te) w (te :: l) = Some (TimeEvent (te_id te) w.1 w.2 (Ae.timeProc te) (finalizerProc te) (te_data te) :: l).
Proof. cbn. by rewrite Z.eqb_refl. Qed.

Lemma timeProc_spec te e t :
  te_data te = Some e ->
  exists t', timeProc te t =
      Ok (if alive (ev_to e) && (0 <=? i32 (ev_value e)) && negb (ev_noMore e =? 0) then ev_time e else AE_NOMORE, t') /\
    base t' = base t /\ timerDict t' = timerDict t /\
    responses t' = responses t ++ (if alive (ev_to e) then [(ev_to e, ev_value e)] else []).
Proof.
  intros E. unfold timeProc. rewrite E. cbn [deref]. rewrite bind_Ok. unfold respond.
  destruct (alive (ev_to e)); cbn [fst snd andb]; [| exists t; rewrite app_nil_r; done].
  eexists. split; [| split; [| split]].
  - destruct (Z.leb_spec 0 (i32 (ev_value e))), (Z.ltb_spec (i32 (ev_value e)) 0); try lia; cbn [andb].
    + by destruct (ev_noMore e =? 0).
    + done.
  - done.
  - done.
  - done.
Qed.

(** The event at the head is due: it is served, and the others are passed over. *)
Lemma serve_head fuel n now' maxId te e l m t :
  timeEvents (base t) = te :: l -> te_data te = Some e -> te_id te <= maxId -> due now' te = true ->
  0 < ev_time e -> norm now' -> Forall (fun te => due now' te = false) l -> (length l + 2 < fuel)%nat ->
  let again := alive (ev_to e) && (0 <=? i32 (ev_value e)) && negb (ev_noMore e =? 0) in
  let w := aeAddMillisecondsToNow now' (ev_time e) in
  exists n' t', time_loop base (fun el t => set_base t el) timeProc eventFinalizerProc (fun _ => now')
      fuel n maxId (te :: l) m t = Ok (m + 1, n', t') /\
    responses t' = responses t ++ (if alive (ev_to e) then [(ev_to e, ev_value e)] else []) /\
    timeEvents (base t') =
      if again then TimeEvent (te_id te) w.1 w.2 (Ae.timeProc te) (finalizerProc te) (te_data te) :: l else l.
Proof.
  intros Hl Hd Hid Hdue Ht Nn Hidle Hf again w. destruct fuel as [| fuel]; [lia |]. cbn [time_loop].
  replace (te_id te >? maxId) with false by lia. rewrite Hdue.
  destruct (timeProc_spec te e t Hd) as (t1 & E1 & B1 & _ & R1). rewrite E1, bind_Ok. cbn [fst snd].
  fold again. destruct again eqn:Ea.
  - destruct (Z.eqb_spec (ev_time e) AE_NOMORE) as [Ex | _]; [unfold AE_NOMORE in Ex; lia |]. cbn [negb].
    rewrite B1, Hl, set_when_head. fold w. cbn [base set_base set_times timeEvents].
    set (te' := TimeEvent _ _ _ _ _ _).
    assert (Hd' : due now' te' = false).
    { destruct (add_ms_later now' (ev_time e) Nn Ht) as [N' E']. fold w in N', E'.
      rewrite due_spec; [| done | by destruct w]. unfold when_of, te'. cbn [when_sec when_ms].
      rewrite <- surjective_pairing, E'. lia. }
    destruct (time_loop_idle (fun _ => now') maxId (te' :: l) fuel (n + 2) (m + 1)
      (set_base t1 (set_times (base t) (timeEventNextId (base t)) (lastTime (base t)) (te' :: l)))) as (n' & E').
    { cbn. lia. }
    { intros _. by constructor. }
    exists n'. eexists. split; [exact E' |]. split; [exact R1 | done].
  - rewrite Z.eqb_refl. cbn [negb].
    assert (Ed : exists t2, delete_time base (fun el t => set_base t el) eventFinalizerProc (te_id te) t1 = Ok t2 /\
      timeEvents (base t2) = l /\ responses t2 = responses t1).
    { unfold delete_time, aeDeleteTimeEvent. rewrite B1, Hl, remove_head.
      destruct (finalizerProc te); (eexists; split; [reflexivity | done]). }
    destruct Ed as (t2 & Ed & El & Er). rewrite Ed, bind_Ok, El.
    destruct (time_loop_idle (fun _ => now') maxId l fuel (n + 1) (m + 1) t2) as (n' & E'); [lia | done |].
    exists n', t2. split; [exact E' |]. split; [by rewrite Er | exact El].
Qed.

(** C21: a timer is set by its request and fires when its time has come: a pass
    of the loop before that does nothing; the first pass after it sends the
    response with the caller's session (if the caller is still there), and takes
    the timer out of the loop, or sets it again for the same delay from now when
    it repeats.  A session of 2^31 or more counts as a failed send, so such a
    timer does not repeat.  (Other timers are not due in the passes.) *)
Theorem timer_fires junk now now' sec e t :
  timer_ok t -> ev_type e = 0 -> 0 < ev_time e -> zlen (entries (timerDict t)) <= 536870912 ->
  norm now -> norm now' -> lastTime (base t) <= sec ->
  Forall (fun te => due now' te = false) (timeEvents (base t)) ->
  exists t1, emCallback junk now e t = Ok t1 /\ exists fuel n t2,
    if ms_of now' <? ms_of now + ev_time e then
      serve fuel (fun _ => now') sec t1 = Ok (0, n, t2) /\ responses t2 = responses t /\
      timeEvents (base t2) = timeEvents (base t1)
    else
      serve fuel (fun _ => now') sec t1 = Ok (1, n, t2) /\
      responses t2 = responses t ++ (if alive (ev_to e) then [(ev_to e, ev_value e)] else []) /\
      timeEvents (base t2) =
        if alive (ev_to e) && (0 <=? i32 (ev_value e)) && negb (ev_noMore e =? 0)
        then event_at t now' e :: timeEvents (base t) else timeEvents (base t).
Proof.
  intros T Et Hp Hn Nn Nn' Hs Hidle.
  destruct (timer_set junk now e t T Et Hn) as (t1 & E1 & T1 & El & Elast & Enx & Er & _).
  exists t1. split; [exact E1 |]. exists (length (timeEvents (base t)) + 3)%nat.
  set (te := event_at t now e) in *.
  assert (Hdue : due now' te = negb (ms_of now' <? ms_of now + ev_time e)).
  { destruct (add_ms_later now (ev_time e) Nn Hp) as [Nw Ew].
    rewrite due_spec; [| done | by destruct (aeAddMillisecondsToNow now (ev_time e)) eqn:Ea; unfold te, event_at; rewrite Ea; rewrite <- Ea in *].
    unfold when_of, te, event_at. cbn [when_sec when_ms]. rewrite <- surjective_pairing, Ew. lia. }
  unfold serve, processTimeEvents. rewrite Elast, El. replace (sec <? lastTime (base t)) with false by lia.
  set (t1' := set_base t1 _). assert (El' : timeEvents (base t1') = te :: timeEvents (base t)) by done.
  destruct (Z.ltb_spec (ms_of now') (ms_of now + ev_time e)) as [Hlt | Hge]; cbn [negb] in Hdue.
  - destruct (time_loop_idle (fun _ => now') (timeEventNextId (base t1) - 1) (te :: timeEvents (base t))
      (length (timeEvents (base t)) + 3) 0 0 t1') as (n & E); [cbn; lia | intros _; by constructor |].
    exists n, t1'. split; [exact E |]. split; [exact Er | done].
  - destruct (serve_head (length (timeEvents (base t)) + 3) 0 now' (timeEventNextId (base t1) - 1) te e
      (timeEvents (base t)) 0 t1') as (n & t2 & E & R & Ev); try done; [rewrite Enx; cbn; lia | lia |].
    exists n, t2. split; [exact E |]. split; [rewrite R; cbn; by rewrite Er |]. exact Ev.
Qed.

Lemma remove_time_filter {P D} id (l : list (aeTimeEvent P D)) :
  NoDup (te_id <$> l) -> match remove_time id l with
  | Some (_, l') => l' = filter (fun te => te_id te <> id) l
  | None => l = filter (fun te => te_id te <> id) l
  end.
Proof.
  induction l as [| te l IH]; intros N; [done |]. apply NoDup_cons in N as [Hin N]. cbn [remove_time].
  destruct (Z.eqb_spec (te_id te) id) as [E | E].
  - rewrite filter_cons_False by auto. specialize (IH N).
    assert (Hall : Forall (fun te => te_id te <> id) l).
    { apply Forall_forall. intros x Hx Ex. apply Hin. rewrite E, <- Ex. apply list_elem_of_fmap. by exists x. }
    clear -Hall. induction Hall as [| x l Hx _ IH]; [done |]. rewrite filter_cons_True by done. by f_equal.
  - rewrite filter_cons_True by done. specialize (IH N). destruct (remove_time id l) as [[x l'] |]; by f_equal.
Qed.

(** A cancel request removes the time event its serial number was set with. *)
Lemma timer_cancel junk now sn t : timer_ok t ->
  exists t', emCallback junk now (TimerEvent 0 0 sn 0 0 1) t = Ok t' /\
     timer_ok t' /\ responses t' = responses t /\ abs (timerDict t') = abs (timerDict t) /\
     timeEvents (base t') = match abs (timerDict t) !! sn with
                            | Some id => filter (fun te => te_id te <> id) (timeEvents (base t))
                            | None => timeEvents (base t)
                            end.
Proof.
  clear alive. intros [D N U]. unfold emCallback. cbn [ev_type ev_value Z.eqb Pos.eqb].
  destruct (dictFetchValue_spec timer_hash junk (timerDict t) sn D) as (d & E & Kp). rewrite E, bind_Ok.
  eexists. split; [reflexivity |].
  assert (Hev : timeEvents (base (Timer (match abs (timerDict t) !! sn with
      Some id => (aeDeleteTimeEvent (base t) id).2 | None => base t end) d (tsn t) (requests t) (responses t))) =
    match abs (timerDict t) !! sn with
    | Some id => filter (fun te => te_id te <> id) (timeEvents (base t))
    | None => timeEvents (base t)
    end).
  { cbn [base]. destruct (abs (timerDict t) !! sn) as [id |]; [| done]. unfold aeDeleteTimeEvent.
    pose proof (remove_time_filter id _ N) as Hr. by destruct (remove_time id (timeEvents (base t))) as [[x l'] |]. }
  split; [| split; [done | split; [by apply (keeps_abs timer_hash) | exact Hev]]].
  split; [apply Kp | |]; rewrite Hev.
  - destruct (abs (timerDict t) !! sn) as [id |]; [| done]. eapply sublist_NoDup; [exact N |].
    apply fmap_sublist, sublist_filter.
  - assert (Enx : timeEventNextId (base (Timer (match abs (timerDict t) !! sn with
      Some id => (aeDeleteTimeEvent (base t) id).2 | None => base t end) d (tsn t) (requests t) (responses t))) =
      timeEventNextId (base t)).
    { cbn [base]. destruct (abs (timerDict t) !! sn) as [id |]; [| done]. unfold aeDeleteTimeEvent.
      by destruct (remove_time id (timeEvents (base t))) as [[x l'] |]. }
    rewrite Enx. destruct (abs (timerDict t) !! sn) as [id |]; [| done].
    apply Forall_forall. intros x [_ Hx]%list_elem_of_filter. rewrite Forall_forall in U. by apply U.
Qed.

(** Removing the event a request has just added leaves the ones before it. *)
Lemma event_at_removed t now e : timer_ok t ->
  filter (fun te => te_id te <> timeEventNextId (base t)) (event_at t now e :: timeEvents (base t)) = timeEvents (base t).
Proof.
  clear alive. intros T. rewrite filter_cons_False by (cbn; tauto). pose proof (to_used _ T) as U. clear -U.
  induction (timeEvents (base t)) as [| x l IH]; [done |]. apply Forall_cons in U as [Hx U].
  rewrite filter_cons_True by (cbn; lia). f_equal. by apply IH.
Qed.

(** Cancelling.  A cancel request removes the time event its serial number
    was set with and no other, or nothing if that timer is gone or was never
    set; setting a timer under a serial number not in use and cancelling it
    leaves the timers that were there. *)
Theorem timer_cancel_exact junk now now' sn e t :
  timer_ok t -> zlen (entries (timerDict t)) <= 536870912 -> ev_type e = 0 ->
  (exists t', emCallback junk now (TimerEvent 0 0 sn 0 0 1) t = Ok t' /\ timer_ok t' /\
     responses t' = responses t /\ abs (timerDict t') = abs (timerDict t) /\
     timeEvents (base t') = match abs (timerDict t) !! sn with
                            | Some id => filter (fun te => te_id te <> id) (timeEvents (base t))
                            | None => timeEvents (base t)
                            end) /\
  (abs (timerDict t) !! ev_sn e = None -> exists t1 t2, emCallback junk now e t = Ok t1 /\
     emCallback junk now' (TimerEvent 0 0 (ev_sn e) 0 0 1) t1 = Ok t2 /\
     timeEvents (base t2) = timeEvents (base t) /\ responses t2 = responses t).
Proof.
  clear alive. intros T Hn Et. split; [by apply timer_cancel |]. intros Hfree.
  destruct (timer_set junk now e t T Et Hn) as (t1 & E1 & T1 & El & _ & Enx & Er & Ea).
  destruct (timer_cancel junk now' (ev_sn e) t1 T1) as (t2 & E2 & _ & R2 & _ & V2). exists t1, t2.
  split; [done |]. split; [done |]. split; [| by rewrite R2]. rewrite V2, Ea, Hfree, lookup_insert_eq, El.
  by apply event_at_removed.
Qed.

(** A repeating timer with a negative delay (other than -1) never lets the
    pass over the timers end: set in the past each time, it is due again at
    once, and the loop restarts from the head of the list, for every clock that
    does not go back. *)
Theorem timer_negative_period_loops junk now sec e t clock :
  timer_ok t -> ev_type e = 0 -> ev_time e < -1 -> ev_noMore e <> 0 -> alive (ev_to e) = true ->
  0 <= i32 (ev_value e) -> zlen (entries (timerDict t)) <= 536870912 -> norm now -> (forall i, norm (clock i)) ->
  (forall i, ms_of now <= ms_of (clock i)) -> (forall i j, (i <= j)%nat -> ms_of (clock i) <= ms_of (clock j)) ->
  lastTime (base t) <= sec ->
  exists t1, emCallback junk now e t = Ok t1 /\ forall fuel, serve fuel clock sec t1 = Fault OutOfFuel.
Proof.
  intros T Et Ht Hm Ha Hv Hn Nn Nc Hc0 Hc Hs.
  destruct (timer_set junk now e t T Et Hn) as (t1 & E1 & T1 & El & Elast & Enx & _).
  exists t1. split; [exact E1 |].
  assert (Hdue : forall t0 t1, norm t0 -> norm t1 -> ms_of t0 <= ms_of t1 -> forall id p f d,
    due t1 (TimeEvent id (aeAddMillisecondsToNow t0 (ev_time e)).1 (aeAddMillisecondsToNow t0 (ev_time e)).2 p f d
      : aeTimeEvent unit timerEvent) = true).
  { intros [s0 m0] [s1 m1] N0 N1 Hle id p f d. unfold norm, ms_of, due, aeAddMillisecondsToNow in *. cbn [fst snd] in *.
    assert (Hq : Z.quot (ev_time e) 1000 <= 0 /\ Z.rem (ev_time e) 1000 <= 0).
    { pose proof (Z.quot_opp_l (- ev_time e) 1000 ltac:(lia)) as Q1. pose proof (Z.rem_opp_l (- ev_time e) 1000 ltac:(lia)) as R1.
      rewrite Z.opp_involutive in Q1, R1. pose proof (Z.quot_pos (- ev_time e) 1000). pose proof (Z.rem_bound_pos (- ev_time e) 1000). lia. }
    replace (m0 + Z.rem (ev_time e) 1000 >=? 1000) with false by lia. cbn [fst snd when_sec when_ms].
    destruct (Z.eqb_spec s1 (s0 + Z.quot (ev_time e) 1000)); lia. }
  assert (Hloop : forall fuel (n : nat) id s m p f l tt0 maxId k, id <= maxId ->
    timeEvents (base tt0) = TimeEvent id s m p f (Some e) :: l ->
    (forall i, due (clock (n + i)%nat) (TimeEvent id s m p f (Some e) : aeTimeEvent unit timerEvent) = true) ->
    time_loop base (fun el t => set_base t el) timeProc eventFinalizerProc clock fuel n maxId
      (TimeEvent id s m p f (Some e) :: l) k tt0 = Fault OutOfFuel).
  { induction fuel as [| fuel IH]; intros n id s m p f l tt0 maxId k Hid Hl Hd; [done |]. cbn [time_loop te_id].
    replace (id >? maxId) with false by lia. specialize (Hd 0%nat) as Hd0. rewrite Nat.add_0_r in Hd0. rewrite Hd0.
    set (te := TimeEvent id s m p f (Some e)) in *.
    destruct (timeProc_spec te e tt0 eq_refl) as (t2 & E2 & B2 & _). rewrite E2, bind_Ok. cbn [fst snd].
    rewrite Ha. replace (0 <=? i32 (ev_value e)) with true by lia. destruct (Z.eqb_spec (ev_noMore e) 0); [done |].
    cbn [andb negb]. destruct (Z.eqb_spec (ev_time e) AE_NOMORE) as [Ex | _]; [unfold AE_NOMORE in Ex; lia |]. cbn [negb].
    rewrite B2, Hl. change id with (te_id te) at 1. rewrite set_when_head.
    cbn [base set_base set_times timeEvents]. apply IH; [done | done |]. intros i. apply Hdue; [done | done |]. apply Hc. lia. }
  intros fuel. unfold serve, processTimeEvents. rewrite Elast, El. replace (sec <? lastTime (base t)) with false by lia.
  unfold event_at. apply Hloop; [lia | done |]. intros i. apply Hdue; [done | done |]. apply Hc0.
Qed.
End Timer.
Arguments timer : clear implicits.

(** A timer thread that has just started. *)
Definition timer0 : timer (gmap Z Z) := timerInit 10 ∅.

Lemma timer0_ok : timer_ok timer0.
Proof. split; [apply dictCreate_wf | constructor | constructor]. Qed.

Lemma timer_fires_witness :
  exists t1, emCallback 0 (10, 700) (TimerEvent 1 4 77 500 1 0) timer0 = Ok t1 /\ exists fuel n t2,
    serve (fun _ => true) fuel (fun _ => (11, 300)) 11 t1 = Ok (1, n, t2) /\ responses t2 = [(4, 77)] /\
    timeEvents (base t2) = [event_at timer0 (11, 300) (TimerEvent 1 4 77 500 1 0)].
Proof.
  destruct (timer_fires (fun _ => true) 0 (10, 700) (11, 300) 11 (TimerEvent 1 4 77 500 1 0) timer0)
    as (t1 & E1 & fuel & n & t2 & H2);
    [exact timer0_ok | reflexivity | reflexivity | vm_compute; congruence | split; vm_compute; congruence
    | split; vm_compute; congruence | vm_compute; congruence | constructor |].
  exists t1. split; [exact E1 |]. exists fuel, n, t2. exact H2.
Defined.

Lemma timer_cancel_exact_witness :
  exists t1 t2, emCallback 0 (10, 700) (TimerEvent 1 4 77 500 1 0) timer0 = Ok t1 /\
    emCallback 0 (10, 800) (TimerEvent 0 0 1 0 0 1) t1 = Ok t2 /\
    timeEvents (base t2) = [] /\ responses t2 = [].
Proof.
  destruct (timer_cancel_exact 0 (10, 700) (10, 800) 1 (TimerEvent 1 4 77 500 1 0) timer0) as [_ Hc];
    [exact timer0_ok | vm_compute; congruence | reflexivity |].
  exact (Hc eq_refl).
Defined.

Lemma timer_negative_period_loops_witness :
  exists t1, emCallback 0 (10, 700) (TimerEvent 1 4 77 (-2) 1 0) timer0 = Ok t1 /\
    forall fuel, serve (fun _ => true) fuel (fun i => (10 + Z.of_nat i, 700)) 11 t1 = Fault OutOfFuel.
Proof.
  apply (timer_negative_period_loops (fun _ => true) 0 (10, 700) 11 (TimerEvent 1 4 77 (-2) 1 0) timer0
    (fun i => (10 + Z.of_nat i, 700)));
    [exact timer0_ok | reflexivity | reflexivity | discriminate | reflexivity | vm_compute; congruence
    | vm_compute; congruence | split; vm_compute; congruence | intros i; split; vm_compute; congruence | | | vm_compute; congruence].
  - intros i. unfold ms_of. cbn [fst snd]. lia.
  - intros i j Hij. unfold ms_of. cbn [fst snd]. lia.
Defined.
