(* ===== verification/NameMgr.v ===== *)
(** * name_mgr.c: contexts by name

    A dictionary from names to identifiers beside the table of contexts.  The
    lock makes each look-up and change of the dictionary one step; keys and names
    are byte strings. *)
From S2P Require Import Prelude CString Fifo LockFree Define Context WorkerPool Dict.

Section NameMgr.
  Context {Q : Type} `{FifoLaws Q message}.

(** [struct name2id] *)
Record name2id := Name2id { n_name : list Z; n_id : Z }.

(** What a fresh dictionary entry holds before its value is set. *)
Definition junk : name2id := Name2id [] 0.

(** [dict_hash_function_seed] is 5381 and never set. *)
Definition _dictHashFunction (key : list Z) : Z := dictGenHashFunction 5381 key.
Definition _dictKeyCompare (key1 key2 : list Z) : bool := bool_decide (key1 = key2).

(** [struct nameMgr] and the contexts. *)
Record names := Names {
  nameDict : dict (list Z) name2id;
  ctxs : sys Q;
}.

Definition on_ctxs {A} (m : ST (sys Q) A) : ST names A := fun s =>
  r ← m (ctxs s); Ok (r.1, Names (nameDict s) r.2).

Definition on_dict {A} (m : dict (list Z) name2id -> outcome (A * dict (list Z) name2id)) : ST names A := fun s =>
  r ← m (nameDict s); Ok (r.1, Names r.2 (ctxs s)).

Definition nameMgrInit (s : sys Q) : names := Names dictCreate s.

Definition nameMgrRegist (name : list Z) (id : Z) : ST names Z :=
  ctx ← on_ctxs (ctxMgrGetContext (u32 id));
  match ctx with
  | None => mret (-2)
  | Some ctx =>
    let v := Name2id name id in
    c ← on_ctxs (load ctx);
    _ ← on_ctxs (store ctx (set_c_name c (snprintf 32 name)));
    r ← on_dict (fun d => dictAdd _dictHashFunction junk true d (n_name v) v);
    _ ← on_ctxs (ctxMgrReleaseContext ctx);
    mret (if r =? DICT_OK then 0 else -1)
  end.

Definition nameMgrGetId (name : list Z) : ST names Z :=
  o ← on_dict (fun d => dictFetchValue _dictHashFunction d name);
  mret (match o with Some v => n_id v | None => 0 end).

Definition nameMgrUnRegist (name : list Z) : ST names Z :=
  id ← nameMgrGetId name;
  if id <=? 0 then mret (-1)
  else
    ret ← on_dict (fun d => '(r, _, d) ← dictDelete _dictHashFunction d name; mret (r, d));
    _ ← (if ret =? 0 then
           ctx ← on_ctxs (ctxMgrGetContext (u32 id));
           match ctx with
           | Some ctx =>
             c ← on_ctxs (load ctx);
             on_ctxs (store ctx (set_c_name c (snprintf 32 (str "c_" ++ print_d (i32 (c_id c))))))
           | None => mret tt
           end
         else mret tt);
    mret ret.

(** The entries freed. *)
Definition nameMgrUninit (s : names) : list (list Z * name2id) := dictRelease (nameDict s).
End NameMgr.
Arguments names : clear implicits.

(** ** The registry as a finite map *)

Inductive name_op :=
  | Regist (name : list Z) (id : Z)
  | UnRegist (name : list Z)
  | GetId (name : list Z).

Section spec.
  Context {Q : Type} `{FifoLaws Q message}.
  Implicit Types (s : names Q) (h : gmap nat (context Q)) (m : gmap (list Z) Z).

Definition name_exec (o : name_op) : ST (names Q) Z :=
  match o with
  | Regist name id => nameMgrRegist name id
  | UnRegist name => nameMgrUnRegist name
  | GetId name => nameMgrGetId name
  end.

Fixpoint name_run (ops : list name_op) : ST (names Q) (list Z) :=
  match ops with
  | [] => mret []
  | o :: ops => r ← name_exec o; rs ← name_run ops; mret (r :: rs)
  end.

(** The context in the slot of an identifier. *)
Definition slot (t : sys Q) (id : Z) : option nat :=
  mjoin (contexts t !! Z.to_nat (u32 id mod setsize t)).

Definition rename (name : list Z) (c : context Q) : context Q := set_c_name c (snprintf 32 name).

(** A context that lost its name: it is called after its identifier again, and
    one reference to it was taken and is never given back. *)
Definition unnamed (c : context Q) : context Q :=
  rename (str "c_" ++ print_d (i32 (c_id c))) (set_c_ref c (c_ref c + 1)).

(** What an operation promises: the result, the map and the contexts. *)
Definition name_spec (sl : Z -> option nat) (o : name_op) m h : Z * gmap (list Z) Z * gmap nat (context Q) :=
  match o with
  | Regist name id =>
    match sl id with
    | None => (-2, m, h)
    | Some a =>
      match m !! name with
      | Some _ => (-1, m, alter (rename name) a h)
      | None => (0, <[name := id]> m, alter (rename name) a h)
      end
    end
  | GetId name => (default 0 (m !! name), m, h)
  | UnRegist name =>
    match m !! name with
    | None => (-1, m, h)
    | Some id =>
      if id <=? 0 then (-1, m, h)
      else (0, delete name m, match sl id with Some a => alter unnamed a h | None => h end)
    end
  end.

Fixpoint name_spec_run (sl : Z -> option nat) (ops : list name_op) m h
    : list Z * gmap (list Z) Z * gmap nat (context Q) :=
  match ops with
  | [] => ([], m, h)
  | o :: ops =>
    let r := name_spec sl o m h in
    let rs := name_spec_run sl ops r.1.2 r.2 in
    (r.1.1 :: rs.1.1, rs.1.2, rs.2)
  end.

(** The map a registry stands for. *)
Definition ids s : gmap (list Z) Z := n_id <$> abs (nameDict s).

(** [n] more operations can be run: neither the dictionary nor a reference
    count is near its bound. *)
Record names_ok (n : Z) s : Prop := {
  no_dict : dwf _dictHashFunction (nameDict s);
  no_room : zlen (entries (nameDict s)) + n <= 536870912;
  no_tbl : tbl_ok (ctxs s);
  no_refs : forall a c, heap (ctxs s) !! a = Some c -> 1 <= c_ref c /\ c_ref c + n < 4294967295;
}.

Lemma slot_aget (t : sys Q) id : tbl_ok t -> aget (contexts t) (u32 id mod setsize t) = Ok (slot t id).
Proof.
  intros T. pose proof (tk_size _ T). pose proof (Z.mod_pos_bound (u32 id) (setsize t) ltac:(lia)) as Hr.
  destruct (aget_is_Ok (contexts t) (u32 id mod setsize t)) as (o & Eo & Eg); [by rewrite (tk_len _ T) |].
  rewrite Eg. unfold slot. by rewrite Eo.
Qed.

Lemma slot_heap (t : sys Q) id a : tbl_ok t -> slot t id = Some a -> exists c, heap t !! a = Some c.
Proof.
  intros T E. unfold slot in E. destruct (contexts t !! _) as [o |] eqn:Eo; [| done]. cbn in E. subst o.
  destruct (tk_slots _ T _ _ Eo) as (c & Ec & _). by exists c.
Qed.

(** The table does not depend on names and counts. *)
Lemma tbl_ok_alter (t : sys Q) f a : tbl_ok t -> (forall c, c_id (f c) = c_id c) -> tbl_ok (with_heap t (alter f a (heap t))).
Proof.
  intros T Hf. split; [apply T | apply T | apply T |]. intros i b E. cbn in E |- *.
  destruct (tk_slots _ T i b E) as (c & Ec & Hc). destruct (decide (b = a)) as [-> | Hne].
  - exists (f c). rewrite lookup_alter_eq, Ec. cbn. by rewrite Hf.
  - exists c. by rewrite lookup_alter_ne by done.
Qed.

Lemma insert_alter h a c c' f : h !! a = Some c -> c' = f c -> <[a := c']> h = alter f a h.
Proof.
  intros E ->. apply map_eq. intros i. destruct (decide (i = a)) as [-> | Hne].
  - by rewrite lookup_insert_eq, lookup_alter_eq, E.
  - by rewrite lookup_insert_ne, lookup_alter_ne by done.
Qed.

Lemma on_ctxs_Ok {A} (m : ST (sys Q) A) s r t : m (ctxs s) = Ok (r, t) -> on_ctxs m s = Ok (r, Names (nameDict s) t).
Proof. intros E. unfold on_ctxs. by rewrite E. Qed.

Lemma get_Ok (t : sys Q) id a c : tbl_ok t -> slot t id = Some a -> heap t !! a = Some c -> 0 <= c_ref c < 4294967295 ->
  ctxMgrGetContext (u32 id) t = Ok (Some a, with_heap t (<[a := set_c_ref c (c_ref c + 1)]> (heap t))).
Proof.
  intros T Es Ec Hr. rewrite (ctxMgrGetContext_Ok t (u32 id) a c).
  - by rewrite u32_small by lia.
  - by rewrite slot_aget, Es.
  - done.
Qed.

Lemma store_Ok (t : sys Q) a c : store a c t = Ok (tt, with_heap t (<[a := c]> (heap t))).
Proof. done. Qed.

Lemma on_dict_Ok {A} (f : dict (list Z) name2id -> outcome (A * dict (list Z) name2id)) s r d :
  f (nameDict s) = Ok (r, d) -> on_dict f s = Ok (r, Names d (ctxs s)).
Proof. intros E. unfold on_dict. by rewrite E. Qed.

Lemma ids_lookup s name : ids s !! name = n_id <$> (abs (nameDict s) !! name).
Proof. apply lookup_fmap. Qed.

Lemma getId_spec n s name : names_ok n s ->
  exists s', nameMgrGetId name s = Ok (default 0 (ids s !! name), s') /\ names_ok n s' /\ ids s' = ids s /\ ctxs s' = ctxs s.
Proof.
  intros W. destruct (dictFetchValue_spec _dictHashFunction junk (nameDict s) name (no_dict _ _ W)) as (d & E & Kp).
  exists (Names d (ctxs s)). unfold nameMgrGetId. rewrite (st_bind_Ok _ _ _ _ _ (on_dict_Ok _ _ _ _ E)).
  rewrite ids_lookup. split; [by destruct (abs (nameDict s) !! name) |]. split.
  - split; [apply Kp | | apply W | apply W]. pose proof (no_room _ _ W). unfold zlen in *. cbn [nameDict]. by rewrite (kp_perm _ _ _ Kp).
  - split; [| done]. unfold ids. cbn [nameDict]. by rewrite (keeps_abs _ _ _ (no_dict _ _ W) Kp).
Qed.

Lemma names_eta s : Names (nameDict s) (ctxs s) = s.
Proof. by destruct s. Qed.

Lemma names_ok_less n s : names_ok (n + 1) s -> names_ok n s.
Proof.
  intros [W1 W2 W3 W4]. split; [done | lia | done |]. intros b c E. specialize (W4 b c E). lia.
Qed.

Lemma regist_spec n s name id : names_ok (n + 1) s -> 0 <= n ->
  exists r s', nameMgrRegist name id s = Ok (r, s') /\ names_ok n s' /\
    name_spec (slot (ctxs s)) (Regist name id) (ids s) (heap (ctxs s)) = (r, ids s', heap (ctxs s')) /\
    slot (ctxs s') = slot (ctxs s).
Proof.
  intros W Hn. pose proof (no_tbl _ _ W) as T. unfold nameMgrRegist. cbn [name_spec].
  destruct (slot (ctxs s) id) as [a |] eqn:Es.
  2:{ rewrite (st_bind_Ok _ _ _ _ _ (on_ctxs_Ok _ _ _ _ (ctxMgrGetContext_None (ctxs s) (u32 id) ltac:(by rewrite slot_aget, Es)))).
      eexists _, _. split; [reflexivity |]. rewrite names_eta. split; [by apply names_ok_less | done]. }
  destruct (slot_heap _ _ _ T Es) as [c Ec]. pose proof (no_refs _ _ W a c Ec) as Hr.
  rewrite (st_bind_Ok _ _ _ _ _ (on_ctxs_Ok _ _ _ _ (get_Ok _ _ _ _ T Es Ec ltac:(lia)))).
  set (c1 := set_c_ref c (c_ref c + 1)). set (t1 := with_heap _ _).
  assert (E1 : heap t1 !! a = Some c1) by apply lookup_insert_eq.
  rewrite (st_bind_Ok _ _ _ _ _ (on_ctxs_Ok _ (Names (nameDict s) t1) _ _ (load_Ok _ _ _ E1))).
  set (c2 := set_c_name c1 (snprintf 32 name)).
  rewrite (st_bind_Ok _ _ _ _ _ (on_ctxs_Ok _ (Names (nameDict s) t1) _ _ (store_Ok t1 a c2))).
  destruct (dictAdd_spec _dictHashFunction junk true (nameDict s) name (Name2id name id) (no_dict _ _ W)) as (r & d & Ed & D & Hd).
  { pose proof (no_room _ _ W). lia. }
  rewrite (st_bind_Ok _ _ _ _ _ (on_dict_Ok _ (Names (nameDict s) _) _ _ Ed)). cbn [ctxs].
  set (t2 := with_heap t1 _). assert (E2 : heap t2 !! a = Some c2) by apply lookup_insert_eq.
  rewrite (st_bind_Ok _ _ _ _ _ (on_ctxs_Ok _ (Names d t2) _ _
    (ctxMgrReleaseContext_Ok a t2 c2 E2 ltac:(unfold c2, c1; cbn; lia)))). cbn [nameDict].
  set (t3 := with_heap t2 _).
  assert (Et : t3 = with_heap (ctxs s) (alter (rename name) a (heap (ctxs s)))).
  { unfold t3, t2, t1, with_heap. cbn. f_equal. rewrite !insert_insert_eq. apply (insert_alter _ _ c); [done |].
    unfold c2, c1, rename. destruct c; cbn. by rewrite Z.add_simpl_r. }
  eexists _, _. split; [reflexivity |]. rewrite Et.
  assert (T3 := tbl_ok_alter (ctxs s) (rename name) a T (fun _ => eq_refl)).
  assert (Hrefs : forall b cb, alter (rename name) a (heap (ctxs s)) !! b = Some cb -> 1 <= c_ref cb /\ c_ref cb + n < 4294967295).
  { intros b cb E. apply lookup_alter_Some in E as [(-> & c0 & E0 & ->) | [_ E0]]; pose proof (no_refs _ _ W _ _ E0); cbn; lia. }
  split; [| split; [| done]].
  - split; [done | | done | exact Hrefs]. pose proof (no_room _ _ W). unfold zlen in *. cbn [nameDict].
    destruct Hd as [(_ & _ & ->) | (_ & _ & ->)]; cbn [length]; lia.
  - cbn [ctxs]. rewrite ids_lookup. destruct Hd as [(Hin & -> & P) | (Hnin & -> & P)].
    + destruct (abs (nameDict s) !! name) eqn:Ea; [| by apply abs_None in Ea]. cbn. f_equal. f_equal. unfold ids. cbn.
      f_equal. symmetry. by apply (abs_perm _dictHashFunction).
    + rewrite (proj1 (abs_None _ _) Hnin). cbn. f_equal. f_equal. unfold ids. cbn [nameDict].
      rewrite (abs_perm _dictHashFunction d _ D P). cbn. by rewrite fmap_insert.
Qed.

(** What happens to the context of a name that is removed. *)
Lemma unname_spec n s id : names_ok (n + 1) s -> 0 <= n ->
  exists s', (ctx ← on_ctxs (ctxMgrGetContext (u32 id));
     match ctx with
     | Some ctx =>
       c ← on_ctxs (load ctx);
       on_ctxs (store ctx (set_c_name c (snprintf 32 (str "c_" ++ print_d (i32 (c_id c))))))
     | None => mret tt
     end) s = Ok (tt, s') /\ names_ok n s' /\ nameDict s' = nameDict s /\ slot (ctxs s') = slot (ctxs s) /\
    heap (ctxs s') = match slot (ctxs s) id with Some a => alter unnamed a (heap (ctxs s)) | None => heap (ctxs s) end.
Proof.
  intros W Hn. pose proof (no_tbl _ _ W) as T. destruct (slot (ctxs s) id) as [a |] eqn:Es.
  2:{ rewrite (st_bind_Ok _ _ _ _ _ (on_ctxs_Ok _ _ _ _ (ctxMgrGetContext_None (ctxs s) (u32 id) ltac:(by rewrite slot_aget, Es)))).
      rewrite names_eta. exists s. split; [done |]. split; [by apply names_ok_less | done]. }
  destruct (slot_heap _ _ _ T Es) as [c Ec]. pose proof (no_refs _ _ W a c Ec) as Hr.
  rewrite (st_bind_Ok _ _ _ _ _ (on_ctxs_Ok _ _ _ _ (get_Ok _ _ _ _ T Es Ec ltac:(lia)))).
  set (c1 := set_c_ref c (c_ref c + 1)). set (t1 := with_heap _ _).
  assert (E1 : heap t1 !! a = Some c1) by apply lookup_insert_eq.
  rewrite (st_bind_Ok _ _ _ _ _ (on_ctxs_Ok _ (Names (nameDict s) t1) _ _ (load_Ok _ _ _ E1))).
  rewrite (on_ctxs_Ok _ (Names (nameDict s) t1) _ _ (store_Ok t1 a _)).
  eexists. split; [reflexivity |].
  assert (Eh : heap (with_heap t1 (<[a := set_c_name c1 (snprintf 32 (str "c_" ++ print_d (i32 (c_id c1))))]> (heap t1))) =
    alter unnamed a (heap (ctxs s))).
  { unfold t1. cbn. rewrite insert_insert_eq. by apply (insert_alter _ _ c). }
  split; [| done]. split; [apply W | pose proof (no_room _ _ W); cbn; lia | |].
  - replace (ctxs _) with (with_heap (ctxs s) (alter unnamed a (heap (ctxs s)))); [by apply tbl_ok_alter |].
    unfold with_heap. cbn. f_equal. symmetry. exact Eh.
  - cbn [ctxs]. rewrite Eh. intros b cb E.
    apply lookup_alter_Some in E as [(-> & c0 & E0 & ->) | [_ E0]]; pose proof (no_refs _ _ W _ _ E0); cbn; lia.
Qed.

Lemma unregist_spec n s name : names_ok (n + 1) s -> 0 <= n ->
  exists r s', nameMgrUnRegist name s = Ok (r, s') /\ names_ok n s' /\
    name_spec (slot (ctxs s)) (UnRegist name) (ids s) (heap (ctxs s)) = (r, ids s', heap (ctxs s')) /\
    slot (ctxs s') = slot (ctxs s).
Proof.
  intros W Hn. unfold nameMgrUnRegist. cbn [name_spec].
  destruct (getId_spec _ _ name W) as (s1 & E1 & W1 & I1 & C1). rewrite (st_bind_Ok _ _ _ _ _ E1), <- I1, <- C1.
  assert (Hno : exists r s', (mret (-1) : ST (names Q) Z) s1 = Ok (r, s') /\ names_ok n s' /\
    (-1, ids s1, heap (ctxs s1)) = (r, ids s', heap (ctxs s')) /\ slot (ctxs s') = slot (ctxs s1)).
  { exists (-1), s1. split; [done |]. split; [by apply names_ok_less | done]. }
  destruct (ids s1 !! name) as [i |] eqn:Eid; [| exact Hno]. change (default 0 (Some i)) with i.
  destruct (i <=? 0); [exact Hno |].
  destruct (dictDelete_spec _dictHashFunction (nameDict s1) name (no_dict _ _ W1)) as (r & f & d & Ed & D & Hd).
  rewrite ids_lookup in Eid. destruct (abs (nameDict s1) !! name) as [v0 |] eqn:Ea; [| done]. cbn in Eid.
  destruct Hd as [(Hnin & _) | (v & -> & -> & P)]; [apply abs_None in Hnin; congruence |].

  rewrite (st_bind_Ok _ _ _ DICT_OK (Names d (ctxs s1))) by (apply on_dict_Ok; by rewrite Ed). cbn [Z.eqb DICT_OK].
  assert (W2 : names_ok (n + 1) (Names d (ctxs s1))).
  { split; [done | | apply W1 | apply W1]. pose proof (no_room _ _ W1). unfold zlen in *. cbn [nameDict]. rewrite P in H1. cbn in H1. lia. }
  destruct (unname_spec n (Names d (ctxs s1)) i W2 Hn) as (s2 & E2 & W3 & D2 & S2 & H2).
  rewrite (st_bind_Ok _ _ _ _ _ E2). exists 0, s2. split; [done |]. split; [done |]. split; [| done].
  rewrite H2. cbn [ctxs]. f_equal. f_equal. unfold ids. rewrite D2. cbn [nameDict].
  destruct (abs_Some _dictHashFunction _ _ _ _ (no_dict _ _ W1) P) as (_ & -> & Hr). unfold abs.
  by rewrite fmap_insert, delete_insert_id by (by rewrite lookup_fmap, Hr).
Qed.

Lemma name_exec_spec n s o : names_ok (n + 1) s -> 0 <= n ->
  exists r s', name_exec o s = Ok (r, s') /\ names_ok n s' /\
    name_spec (slot (ctxs s)) o (ids s) (heap (ctxs s)) = (r, ids s', heap (ctxs s')) /\ slot (ctxs s') = slot (ctxs s).
Proof.
  intros W Hn. destruct o as [name id | name | name]; [by apply regist_spec | by apply unregist_spec |].
  destruct (getId_spec _ _ name W) as (s1 & E1 & W1 & I1 & C1). exists (default 0 (ids s !! name)), s1.
  split; [done |]. split; [by apply names_ok_less |]. by rewrite I1, C1.
Qed.

(** C25: the registry refines a finite map from names to identifiers, over any
    sequence of registrations, removals and look-ups.  A name is given to one
    identifier until it is removed; a second registration is refused with -1 and
    one for an identifier without a context with -2.  The map [name_spec] also
    says what happens to the contexts: a registration names the context, even
    when it is refused because the name is taken, and a removal gives it its
    default name back and keeps, for ever, the reference it took to do so. *)
Theorem names_refine_map ops s :
  names_ok (zlen ops) s ->
  exists rs s', name_run ops s = Ok (rs, s') /\ names_ok 0 s' /\
    name_spec_run (slot (ctxs s)) ops (ids s) (heap (ctxs s)) = (rs, ids s', heap (ctxs s')).
Proof.
  revert s. induction ops as [| o ops IH]; intros s W; [by exists [], s |]. cbn [name_run name_spec_run].
  rewrite zlen_cons, Z.add_comm in W.
  destruct (name_exec_spec _ s o W (zlen_nonneg _)) as (r & s1 & E1 & W1 & S1 & L1). rewrite (st_bind_Ok _ _ _ _ _ E1), S1.
  cbn [fst snd]. destruct (IH s1 W1) as (rs & s2 & E2 & W2 & S2). rewrite L1 in S2.
  rewrite (st_bind_Ok _ _ _ _ _ E2), S2. by exists (r :: rs), s2.
Qed.
End spec.

Definition demo_names : names (lfq message) := nameMgrInit full_table.
Definition demo_ops : list name_op :=
  [Regist (str "db") 1; GetId (str "db"); Regist (str "db") 1; UnRegist (str "db"); GetId (str "db"); UnRegist (str "db")].

Lemma names_refine_map_witness :
  exists rs s', name_run demo_ops demo_names = Ok (rs, s') /\ rs = [0; 1; -1; 0; 0; -1] /\
    c_ref <$> heap (ctxs s') !! 0%nat = Some 2 /\
    name_spec_run (slot full_table) demo_ops ∅ (heap full_table) = (rs, ids s', heap (ctxs s')).
Proof.
  destruct (names_refine_map demo_ops demo_names) as (rs & s' & E & _ & S).
  - split; [apply dictCreate_wf | by vm_compute | exact full_table_ok |].
    intros a c E. cbn in E. apply lookup_insert_Some in E as [[<- <-] | [_ E]]; [by vm_compute |].
    apply lookup_singleton_Some in E as [<- <-]. by vm_compute.
  - exists rs, s'. split; [exact E |].
    change (name_spec_run (slot full_table) demo_ops ∅ (heap full_table) = (rs, ids s', heap (ctxs s'))) in S.
    assert (Er : (name_spec_run (slot full_table) demo_ops ∅ (heap full_table)).1.1 = [0; 1; -1; 0; 0; -1]) by by vm_compute.
    assert (Eh : c_ref <$> (name_spec_run (slot full_table) demo_ops ∅ (heap full_table)).2 !! 0%nat = Some 2) by by vm_compute.
    rewrite S in Er, Eh. split; [exact Er |]. split; [exact Eh | exact S].
Defined.
