(* ===== verification/Seri.v ===== *)
(** * lua-seri.c: Lua values as bytes

    The writer fills a chain of 128-byte blocks, [_seri] copies the chain into
    one block of memory, the reader takes values from it.  A Lua value is a tree
    ([lval]); a double is its 64-bit pattern.  [enc] is the format, a function
    to byte lists; the writer refines it and the reader inverts it. *)
From S2P Require Import Prelude Buffer.

(** ** Errors: [luaL_error] leaves the function; a fault is undefined. *)
Inductive lres (A : Type) := LOk (a : A) | LErr | LFault (f : fault).
Arguments LOk {A} a.
Arguments LErr {A}.
Arguments LFault {A} f.

#[export] Instance lres_ret : MRet lres := fun A a => LOk a.
#[export] Instance lres_bind : MBind lres := fun A B k m =>
  match m with LOk a => k a | LErr => LErr | LFault f => LFault f end.

Definition lift {A} (m : outcome A) : lres A := match m with Ok a => LOk a | Fault f => LFault f end.

Lemma lbind_LOk {A B} (a : A) (k : A -> lres B) : (LOk a ≫= k) = k a.
Proof. reflexivity. Qed.

Definition TYPE_NIL : Z := 0.
Definition TYPE_BOOLEAN : Z := 1.
Definition TYPE_NUMBER : Z := 2.
Definition TYPE_USERDATA : Z := 3.
Definition TYPE_SHORT_STRING : Z := 4.
Definition TYPE_LONG_STRING : Z := 5.
Definition TYPE_TABLE : Z := 6.
Definition MAX_COOKIE : Z := 32.
Definition BLOCK_SIZE : Z := 128.
Definition MAX_DEPTH : Z := 32.

(** [COMBINE_TYPE], stored in one byte. *)
Definition COMBINE_TYPE (t v : Z) : Z := u8 (Z.lor t (Z.shiftl v 3)).

(** ** Doubles *)

Definition dbl_sign (b : Z) : bool := Z.testbit b 63.
Definition dbl_exp (b : Z) : Z := Z.land (Z.shiftr b 52) 2047.
Definition dbl_man (b : Z) : Z := b mod 2 ^ 52.

(** Truncation towards zero of a finite double. *)
Definition dbl_trunc (b : Z) : Z :=
  if dbl_exp b <? 1023 then 0
  else
    let a := Z.shiftl (2 ^ 52 + dbl_man b) (dbl_exp b - 1075) in
    if dbl_sign b then - a else a.

Definition dbl_integral (b : Z) : bool :=
  if dbl_exp b =? 0 then dbl_man b =? 0
  else if dbl_exp b <? 1023 then false
  else (1075 <=? dbl_exp b) || ((2 ^ 52 + dbl_man b) mod 2 ^ (1075 - dbl_exp b) =? 0).

Definition dbl_nan (b : Z) : bool := (dbl_exp b =? 2047) && negb (dbl_man b =? 0).

(** [(lua_Number)x == n] for [x = (int32_t)lua_tointeger(n)]. *)
Definition is_int32 (b : Z) : option Z :=
  if dbl_integral b && (-2147483648 <=? dbl_trunc b) && (dbl_trunc b <? 2147483648)
  then Some (dbl_trunc b) else None.

(** [(double)x] *)
Definition of_int32 (x : Z) : Z :=
  if x =? 0 then 0
  else
    let k := Z.log2 (Z.abs x) in
    (if x <? 0 then 2 ^ 63 else 0) + (1023 + k) * 2 ^ 52 + (Z.abs x * 2 ^ (52 - k) - 2 ^ 52).

(** ** Values

    [arr] is what [lua_rawgeti] gives for 1 to [lua_rawlen], [pairs] what
    [lua_next] enumerates; [LOther] is any value of another type. *)
Unset Elimination Schemes.
Inductive lval :=
  | LNil
  | LBool (b : bool)
  | LNum (bits : Z)
  | LUser (p : Z)
  | LStr (s : list Z)
  | LTable (arr : list lval) (pairs : list (lval * lval))
  | LOther.
Set Elimination Schemes.

(** ** The block chain *)

Section writer.
  Variable undef : Z.

Record write_block := WB {
  chain : list (list Z);
  current : nat;
  wb_len : Z;
  wb_ptr : Z;
}.

Definition blk_alloc : list Z := replicate 128 undef.

(** [b->current = b->current->next = blk_alloc(); b->ptr = 0;] *)
Definition next_block (b : write_block) : write_block :=
  WB (take (S (current b)) (chain b) ++ [blk_alloc]) (S (current b)) (wb_len b) 0.

Definition put_bytes (b : write_block) (buf : list Z) : outcome write_block :=
  blk ← deref (chain b !! current b);
  blk ← acopy_in blk (wb_ptr b) buf;
  mret (WB (<[current b := blk]> (chain b)) (current b) (wb_len b + zlen buf) (wb_ptr b + zlen buf)).

(** [wb_push] from its start, or from [_again]. *)
Fixpoint push_again (fuel : nat) (again : bool) (b : write_block) (buf : list Z) : outcome write_block :=
  match fuel with
  | O => Fault OutOfFuel
  | S fuel =>
    let b := if again || (wb_ptr b =? BLOCK_SIZE) then next_block b else b in
    if wb_ptr b <=? BLOCK_SIZE - zlen buf then put_bytes b buf
    else
      let copy := Z.to_nat (BLOCK_SIZE - wb_ptr b) in
      b ← put_bytes b (take copy buf);
      push_again fuel true b (drop copy buf)
  end.

Definition wb_push (b : write_block) (buf : list Z) : outcome write_block :=
  push_again (S (length buf)) false b buf.

(** [wb_init(wb, NULL)], as [_luaseri_pack] calls it. *)
Definition wb_init : outcome write_block := wb_push (WB [blk_alloc] 0 0 0) (le_split 4 0).

Definition wb_close (b : write_block) : outcome (list (list Z)) :=
  b ← wb_push (WB (chain b) 0 (wb_len b) 0) (le_split 4 (wb_len b));
  mret (chain b).

Definition wb_nil (b : write_block) : outcome write_block := wb_push b [TYPE_NIL].

Definition wb_boolean (b : write_block) (v : bool) : outcome write_block :=
  wb_push b [COMBINE_TYPE TYPE_BOOLEAN (if v then 1 else 0)].

Definition wb_integer (b : write_block) (v ty : Z) : outcome write_block :=
  if v =? 0 then wb_push b [COMBINE_TYPE ty 0]
  else if v <? 0 then b ← wb_push b [COMBINE_TYPE ty 4]; wb_push b (le_split 4 (u32 v))
  else if v <? 0x100 then b ← wb_push b [COMBINE_TYPE ty 1]; wb_push b [u8 v]
  else if v <? 0x10000 then b ← wb_push b [COMBINE_TYPE ty 2]; wb_push b (le_split 2 (u16 v))
  else b ← wb_push b [COMBINE_TYPE ty 4]; wb_push b (le_split 4 (u32 v)).

Definition wb_number (b : write_block) (v : Z) : outcome write_block :=
  b ← wb_push b [COMBINE_TYPE TYPE_NUMBER 8]; wb_push b (le_split 8 v).

Definition wb_pointer (b : write_block) (v : Z) : outcome write_block :=
  b ← wb_push b [TYPE_USERDATA]; wb_push b (le_split 8 v).

(** [len] is the [int] the caller makes of the length; only [len] bytes of
    [str] are written. *)
Definition wb_string (b : write_block) (str : list Z) : outcome write_block :=
  let len := i32 (zlen str) in
  let str := take (Z.to_nat len) str in
  if len <? MAX_COOKIE then
    b ← wb_push b [COMBINE_TYPE TYPE_SHORT_STRING len];
    if len >? 0 then wb_push b str else mret b
  else
    b ← (if len <? 0x10000 then
           b ← wb_push b [COMBINE_TYPE TYPE_LONG_STRING 2]; wb_push b (le_split 2 (u16 len))
         else b ← wb_push b [COMBINE_TYPE TYPE_LONG_STRING 4]; wb_push b (le_split 4 (u32 len)));
    wb_push b str.

(** The keys the array part has written already. *)
Definition in_array (array_size : Z) (k : lval) : bool :=
  match k with
  | LNum bits => match is_int32 bits with Some x => (0 <? x) && (x <=? array_size) | None => false end
  | _ => false
  end.

(** [_pack_one], with [wb_table], [wb_table_array] and [wb_table_hash]. *)
Fixpoint _pack_one (v : lval) (depth : Z) (b : write_block) : lres write_block :=
  if depth >? MAX_DEPTH then LErr
  else
    match v with
    | LNil => lift (wb_nil b)
    | LNum n => match is_int32 n with Some x => lift (wb_integer b x TYPE_NUMBER) | None => lift (wb_number b n) end
    | LBool v => lift (wb_boolean b v)
    | LStr s => lift (wb_string b s)
    | LUser p => lift (wb_pointer b p)
    | LOther => LErr
    | LTable arr pairs =>
      let array_size := i32 (zlen arr) in
      b ← (if array_size >=? MAX_COOKIE - 1 then
             b ← lift (wb_push b [COMBINE_TYPE TYPE_TABLE (MAX_COOKIE - 1)]);
             lift (wb_integer b array_size TYPE_NUMBER)
           else lift (wb_push b [COMBINE_TYPE TYPE_TABLE array_size]));
      b ← (fix pack_array (l : list lval) (i : Z) (b : write_block) : lres write_block :=
             match l with
             | [] => mret b
             | v :: l =>
               if i <=? array_size then b ← _pack_one v (depth + 1) b; pack_array l (i + 1) b
               else mret b
             end) arr 1 b;
      b ← (fix pack_hash (l : list (lval * lval)) (b : write_block) : lres write_block :=
             match l with
             | [] => mret b
             | (k, v) :: l =>
               if in_array array_size k then pack_hash l b
               else
                 b ← _pack_one k (depth + 1) b;
                 b ← _pack_one v (depth + 1) b;
                 pack_hash l b
             end) pairs b;
      lift (wb_nil b)
    end.

Fixpoint _pack_from (vs : list lval) (b : write_block) : lres write_block :=
  match vs with
  | [] => mret b
  | v :: vs => b ← _pack_one v 0 b; _pack_from vs b
  end.

(** The copy loop of [_seri] after the first block; [len] is unsigned. *)
Fixpoint seri_rest (blocks : list (list Z)) (len : Z) : outcome (list Z) :=
  if len >? 0 then
    match blocks with
    | [] => Fault NullDeref
    | b :: blocks =>
      if len >=? BLOCK_SIZE then rest ← seri_rest blocks (len - BLOCK_SIZE); mret (b ++ rest)
      else acopy_out b 0 len
    end
  else mret [].

Definition _seri (blocks : list (list Z)) : outcome (list Z) :=
  match blocks with
  | [] => Fault NullDeref
  | b :: blocks =>
    hd ← acopy_out b 0 4;
    let len := le_combine hd -u 4 in
    if len <? BLOCK_SIZE - 4 then acopy_out b 4 len
    else
      first ← acopy_out b 4 (BLOCK_SIZE - 4);
      rest ← seri_rest blocks (len -u (BLOCK_SIZE - 4));
      mret (first ++ rest)
  end.

Definition _luaseri_pack (vs : list lval) : lres (list Z) :=
  b ← lift wb_init;
  b ← _pack_from vs b;
  blocks ← lift (wb_close b);
  lift (_seri blocks).
End writer.

(** ** The reader *)

(** [rb_read] on one buffer: the bytes and what is left.  A negative size is a
    negative array length in every caller. *)
Definition rb_read (rb : list Z) (sz : Z) : lres (option (list Z * list Z)) :=
  if sz <? 0 then LFault OutOfBounds
  else if zlen rb <? sz then mret None
  else mret (Some (take (Z.to_nat sz) rb, drop (Z.to_nat sz) rb)).

(** [if (p == NULL) _invalid_stream(L, rb);] *)
Definition must_read (rb : list Z) (sz : Z) : lres (list Z * list Z) :=
  r ← rb_read rb sz; match r with Some x => mret x | None => LErr end.

Definition _get_integer (rb : list Z) (cookie : Z) : lres (Z * list Z) :=
  if cookie =? 0 then mret (0, rb)
  else if cookie =? 1 then '(bs, rb) ← must_read rb 1; mret (le_combine bs, rb)
  else if cookie =? 2 then '(bs, rb) ← must_read rb 2; mret (le_combine bs, rb)
  else if cookie =? 4 then '(bs, rb) ← must_read rb 4; mret (i32 (le_combine bs), rb)
  else LErr.

Definition _get_number (rb : list Z) (cookie : Z) : lres (Z * list Z) :=
  if cookie =? 8 then '(bs, rb) ← must_read rb 8; mret (le_combine bs, rb)
  else '(n, rb) ← _get_integer rb cookie; mret (of_int32 n, rb).

Definition _get_pointer (rb : list Z) : lres (Z * list Z) :=
  '(bs, rb) ← must_read rb 8; mret (le_combine bs, rb).

Definition _get_buffer (rb : list Z) (len : Z) : lres (lval * list Z) :=
  '(bs, rb) ← must_read rb len; mret (LStr bs, rb).

(** [(int)] of a double: undefined in C when no [int] is the truncation. *)
Definition dbl_to_int (b : Z) : lres Z :=
  if (-2147483648 <=? dbl_trunc b) && (dbl_trunc b <? 2147483648) then LOk (dbl_trunc b) else LFault OutOfBounds.

(** The number of array elements a table starts with. *)
Definition table_size (rb : list Z) (array_size : Z) : lres (Z * list Z) :=
  if array_size =? MAX_COOKIE - 1 then
    '(t, rb) ← must_read rb 1;
    let t := le_combine t in
    if negb (Z.land t 7 =? TYPE_NUMBER) then LErr
    else '(n, rb) ← _get_number rb (Z.shiftr t 3); n ← dbl_to_int n; mret (n, rb)
  else mret (array_size, rb).

(** The value kinds that are not tables. *)
Definition push_scalar (rb : list Z) (ty cookie : Z) : lres (lval * list Z) :=
  if ty =? TYPE_NIL then mret (LNil, rb)
  else if ty =? TYPE_BOOLEAN then mret (LBool (negb (cookie =? 0)), rb)
  else if ty =? TYPE_NUMBER then '(n, rb) ← _get_number rb cookie; mret (LNum n, rb)
  else if ty =? TYPE_USERDATA then '(p, rb) ← _get_pointer rb; mret (LUser p, rb)
  else if ty =? TYPE_SHORT_STRING then _get_buffer rb cookie
  else if ty =? TYPE_LONG_STRING then
    if cookie =? 2 then '(len, rb) ← must_read rb 2; _get_buffer rb (le_combine len)
    else if negb (cookie =? 4) then LErr
    else '(len, rb) ← must_read rb 4; _get_buffer rb (i32 (le_combine len))
  else LErr.

(** [lua_rawset] refuses a key that is not a number. *)
Definition bad_key (k : lval) : bool := match k with LNum b => dbl_nan b | _ => false end.

(** [_unpack_one] with [_push_value] and [_unpack_table], and its two loops. *)
Fixpoint _unpack_one (fuel : nat) (rb : list Z) : lres (lval * list Z) :=
  match fuel with
  | O => LFault OutOfFuel
  | S fuel =>
    '(t, rb) ← must_read rb 1;
    let t := le_combine t in
    if Z.land t 7 =? TYPE_TABLE then
      '(n, rb) ← table_size rb (Z.shiftr t 3);
      '(arr, rb) ← unpack_array fuel n rb;
      '(pairs, rb) ← unpack_pairs fuel rb;
      mret (LTable arr pairs, rb)
    else push_scalar rb (Z.land t 7) (Z.shiftr t 3)
  end
with unpack_array (fuel : nat) (n : Z) (rb : list Z) : lres (list lval * list Z) :=
  match fuel with
  | O => LFault OutOfFuel
  | S fuel =>
    if n <=? 0 then mret ([], rb)
    else
      '(v, rb) ← _unpack_one fuel rb;
      '(vs, rb) ← unpack_array fuel (n - 1) rb;
      mret (v :: vs, rb)
  end
with unpack_pairs (fuel : nat) (rb : list Z) : lres (list (lval * lval) * list Z) :=
  match fuel with
  | O => LFault OutOfFuel
  | S fuel =>
    '(k, rb) ← _unpack_one fuel rb;
    match k with
    | LNil => mret ([], rb)
    | _ =>
      '(v, rb) ← _unpack_one fuel rb;
      if bad_key k then LErr
      else '(kvs, rb) ← unpack_pairs fuel rb; mret ((k, v) :: kvs, rb)
    end
  end.

(** The loop of [_luaseri_unpack]. *)
Fixpoint unpack_all (fuel : nat) (rb : list Z) : lres (list lval) :=
  match fuel with
  | O => LFault OutOfFuel
  | S fuel =>
    match rb with
    | [] => mret []
    | _ => '(v, rb) ← _unpack_one fuel rb; vs ← unpack_all fuel rb; mret (v :: vs)
    end
  end.

(** Enough fuel for a stream of any contents. *)
Definition seri_fuel (rb : list Z) : nat := 2 * length rb + 2.

Definition _luaseri_unpack (buffer : list Z) : lres (list lval) := unpack_all (seri_fuel buffer) buffer.

(** ** Doubles and 32-bit integers *)

Lemma of_int32_fields x :
  -2147483648 <= x < 2147483648 -> x <> 0 ->
  let k := Z.log2 (Z.abs x) in
  0 <= k <= 31 /\ 2 ^ k <= Z.abs x < 2 ^ (k + 1) /\
  dbl_exp (of_int32 x) = 1023 + k /\ dbl_man (of_int32 x) = Z.abs x * 2 ^ (52 - k) - 2 ^ 52 /\
  dbl_sign (of_int32 x) = (x <? 0).
Proof.
  intros Hx Hne k. assert (Hk : 2 ^ k <= Z.abs x < 2 ^ (k + 1)) by (apply Z.log2_spec; lia).
  assert (Hk31 : 0 <= k <= 31).
  { split; [apply Z.log2_nonneg |]. destruct (Z.le_gt_cases k 31); [done |].
    assert (2 ^ 32 <= 2 ^ k) by (apply Z.pow_le_mono_r; lia). lia. }
  set (m := Z.abs x * 2 ^ (52 - k) - 2 ^ 52).
  assert (Hm : 0 <= m < 2 ^ 52).
  { assert (E52 : 2 ^ 52 = 2 ^ k * 2 ^ (52 - k)) by (rewrite <- Z.pow_add_r by lia; f_equal; lia).
    assert (E53 : 2 ^ 53 = 2 ^ (k + 1) * 2 ^ (52 - k)) by (rewrite <- Z.pow_add_r by lia; f_equal; lia).
    assert (0 < 2 ^ (52 - k)) by (apply Z.pow_pos_nonneg; lia). unfold m. change (2 ^ 53) with (2 ^ 52 + 2 ^ 52) in E53. nia. }
  set (sg := if x <? 0 then 1 else 0). assert (Hsg : 0 <= sg <= 1) by (unfold sg; destruct (x <? 0); lia).
  assert (E : of_int32 x = (sg * 2 ^ 11 + (1023 + k)) * 2 ^ 52 + m).
  { unfold of_int32. destruct (Z.eqb_spec x 0) as [| _]; [done |]. fold k. fold m. unfold sg. destruct (x <? 0); lia. }
  assert (Ed : of_int32 x / 2 ^ 52 = sg * 2 ^ 11 + (1023 + k)) by (rewrite E; symmetry; apply (Z.div_unique_pos _ _ _ m); lia).
  assert (Em : of_int32 x mod 2 ^ 52 = m) by (rewrite E; symmetry; apply (Z.mod_unique_pos _ _ (sg * 2 ^ 11 + (1023 + k))); lia).
  split; [done |]. split; [done |]. split; [| split; [exact Em |]].
  - unfold dbl_exp. rewrite Z.shiftr_div_pow2, Ed by lia. change 2047 with (Z.ones 11). rewrite Z.land_ones by lia.
    symmetry. apply (Z.mod_unique_pos _ _ sg); lia.
  - unfold dbl_sign. rewrite Z.testbit_odd, Z.shiftr_div_pow2 by lia. change (2 ^ 63) with (2 ^ 52 * 2 ^ 11).
    rewrite <- Z.div_div, Ed by lia. replace ((sg * 2 ^ 11 + (1023 + k)) / 2 ^ 11) with sg
      by (apply (Z.div_unique_pos _ _ _ (1023 + k)); lia). unfold sg. by destruct (x <? 0).
Qed.

Lemma is_int32_of_int32 x : -2147483648 <= x < 2147483648 -> is_int32 (of_int32 x) = Some x.
Proof.
  intros Hx. destruct (Z.eq_dec x 0) as [-> | Hne]; [done |].
  destruct (of_int32_fields x Hx Hne) as (Hk & Hb & Ee & Em & Es). set (k := Z.log2 (Z.abs x)) in *.
  assert (Et : dbl_trunc (of_int32 x) = x).
  { unfold dbl_trunc. rewrite Ee, Em, Es. destruct (Z.ltb_spec (1023 + k) 1023); [lia |].
    replace (2 ^ 52 + (Z.abs x * 2 ^ (52 - k) - 2 ^ 52)) with (Z.abs x * 2 ^ (52 - k)) by lia.
    replace (1023 + k - 1075) with (- (52 - k)) by lia. rewrite Z.shiftl_opp_r, Z.shiftr_div_pow2, Z.div_mul by lia.
    destruct (Z.ltb_spec x 0); lia. }
  assert (Ei : dbl_integral (of_int32 x) = true).
  { unfold dbl_integral. rewrite Ee, Em. destruct (Z.eqb_spec (1023 + k) 0); [lia |].
    destruct (Z.ltb_spec (1023 + k) 1023); [lia |].
    replace (2 ^ 52 + (Z.abs x * 2 ^ (52 - k) - 2 ^ 52)) with (Z.abs x * 2 ^ (52 - k)) by lia.
    replace (1075 - (1023 + k)) with (52 - k) by lia. rewrite Z.mod_mul by lia. by rewrite orb_true_r. }
  unfold is_int32. rewrite Ei, Et. destruct (Z.leb_spec (-2147483648) x), (Z.ltb_spec x 2147483648); try lia. done.
Qed.

Lemma is_int32_range b x : is_int32 b = Some x -> -2147483648 <= x < 2147483648.
Proof.
  unfold is_int32. destruct (dbl_integral b); [| done]. cbn [andb].
  destruct (Z.leb_spec (-2147483648) (dbl_trunc b)), (Z.ltb_spec (dbl_trunc b) 2147483648); try done. intros [= <-]. lia.
Qed.

Lemma of_int32_not_nan x : -2147483648 <= x < 2147483648 -> dbl_nan (of_int32 x) = false.
Proof.
  intros Hx. destruct (Z.eq_dec x 0) as [-> | Hne]; [done |].
  destruct (of_int32_fields x Hx Hne) as (Hk & _ & Ee & _). unfold dbl_nan. rewrite Ee.
  destruct (Z.eqb_spec (1023 + Z.log2 (Z.abs x)) 2047); [lia | done].
Qed.

(** ** The block chain is a byte list *)

Section blocks.
  Variable undef : Z.

(** [bytes] have been written. *)
Inductive holds (bytes : list Z) : write_block -> Prop :=
  | Holds init cur ptr :
    Forall (fun b => zlen b = BLOCK_SIZE) init -> zlen cur = BLOCK_SIZE -> 0 <= ptr <= BLOCK_SIZE ->
    bytes = concat init ++ take (Z.to_nat ptr) cur ->
    holds bytes (WB (init ++ [cur]) (length init) (zlen bytes) ptr).

Lemma lookup_last {A} (l : list A) x : (l ++ [x]) !! length l = Some x.
Proof. by rewrite lookup_app_r, Nat.sub_diag by done. Qed.

Lemma insert_last {A} (l : list A) x y : <[length l := y]> (l ++ [x]) = l ++ [y].
Proof. by rewrite insert_app_r_alt, Nat.sub_diag by done. Qed.

Lemma put_bytes_spec bytes b buf :
  holds bytes b -> wb_ptr b + zlen buf <= BLOCK_SIZE ->
  exists b', put_bytes b buf = Ok b' /\ holds (bytes ++ buf) b' /\ wb_ptr b' = wb_ptr b + zlen buf.
Proof.
  intros [init cur ptr Hi Hc Hp E] Hfit. cbn [wb_ptr] in Hfit. unfold put_bytes. cbn [chain current wb_ptr wb_len].
  rewrite lookup_last. cbn [deref]. rewrite bind_Ok.
  pose proof (zlen_nonneg buf) as Hb.
  assert (Ecur : cur = take (Z.to_nat ptr) cur ++ take (Z.to_nat (zlen buf)) (drop (Z.to_nat ptr) cur) ++
    drop (Z.to_nat (zlen buf)) (drop (Z.to_nat ptr) cur)) by (by rewrite !take_drop).
  set (l1 := take (Z.to_nat ptr) cur) in *. set (l2 := take (Z.to_nat (zlen buf)) (drop (Z.to_nat ptr) cur)) in *.
  set (l3 := drop (Z.to_nat (zlen buf)) (drop (Z.to_nat ptr) cur)) in *.
  assert (L1 : zlen l1 = ptr) by (apply zlen_take; lia).
  assert (L2 : zlen l2 = zlen buf) by (apply zlen_take; rewrite zlen_drop; lia).
  assert (Ea : acopy_in cur ptr buf = Ok (l1 ++ buf ++ l3)).
  { pose proof (acopy_in_app l1 l2 l3 buf) as Ea. rewrite <- Ecur, L1 in Ea. by apply Ea. }
  rewrite Ea, bind_Ok, insert_last.
  eexists. split; [reflexivity |]. split; [| done]. rewrite <- zlen_app.
  apply (Holds (bytes ++ buf) init (l1 ++ buf ++ l3) (ptr + zlen buf)).
  - done.
  - rewrite <- Hc, Ecur, !zlen_app. lia.
  - unfold BLOCK_SIZE in *. lia.
  - rewrite E, (app_assoc l1). rewrite take_app_le, take_ge.
    + by rewrite <- !app_assoc.
    + rewrite length_app. unfold zlen in *. lia.
    + rewrite length_app. unfold zlen in *. lia.
Qed.

Lemma next_block_spec bytes b :
  holds bytes b -> wb_ptr b = BLOCK_SIZE -> holds bytes (next_block undef b) /\ wb_ptr (next_block undef b) = 0.
Proof.
  intros [init cur ptr Hi Hc Hp E] Ep. cbn [wb_ptr] in Ep. split; [| done]. unfold next_block. cbn [chain current wb_len].
  rewrite (take_ge (init ++ [cur])) by (rewrite length_app; cbn; lia).
  replace (S (length init)) with (length (init ++ [cur])) by (rewrite length_app; cbn; lia).
  apply (Holds bytes (init ++ [cur]) (blk_alloc undef) 0).
  - apply Forall_app. split; [done |]. by constructor.
  - done.
  - unfold BLOCK_SIZE. lia.
  - rewrite E, concat_app. cbn. rewrite !app_nil_r, take_ge; [done |]. unfold zlen, BLOCK_SIZE in *. lia.
Qed.

Lemma push_again_spec fuel : forall again bytes b buf,
  (length buf < fuel)%nat -> holds bytes b -> (again = true -> wb_ptr b = BLOCK_SIZE) ->
  exists b', push_again undef fuel again b buf = Ok b' /\ holds (bytes ++ buf) b'.
Proof.
  induction fuel as [| fuel IH]; intros again bytes b buf Hf Hb Ha; [lia |]. cbn [push_again].
  set (b1 := if again || (wb_ptr b =? BLOCK_SIZE) then next_block undef b else b).
  assert (H1 : holds bytes b1 /\ 0 <= wb_ptr b1 < BLOCK_SIZE).
  { unfold b1. destruct again; cbn [orb].
    - destruct (next_block_spec bytes b Hb (Ha eq_refl)) as [Hn ->]. split; [done | unfold BLOCK_SIZE; lia].
    - destruct (Z.eqb_spec (wb_ptr b) BLOCK_SIZE) as [E | E].
      + destruct (next_block_spec bytes b Hb E) as [Hn ->]. split; [done | unfold BLOCK_SIZE; lia].
      + split; [done |]. destruct Hb as [init cur ptr Hi Hc Hp Ebs]. cbn [wb_ptr] in *. lia. }
  clearbody b1. destruct H1 as [H1 Hp1].
  destruct (Z.leb_spec (wb_ptr b1) (BLOCK_SIZE - zlen buf)) as [Hfit | Hfit].
  - destruct (put_bytes_spec bytes b1 buf H1 ltac:(lia)) as (b' & E & Hb' & _). by exists b'.
  - set (n := Z.to_nat (BLOCK_SIZE - wb_ptr b1)).
    assert (Ln : zlen (take n buf) = BLOCK_SIZE - wb_ptr b1) by (apply zlen_take; lia).
    destruct (put_bytes_spec bytes b1 (take n buf) H1 ltac:(lia)) as (b2 & E & Hb2 & Ep). rewrite E, bind_Ok.
    destruct (IH true (bytes ++ take n buf) b2 (drop n buf)) as (b' & E' & Hb'); [| done | lia |].
    + rewrite length_drop. unfold zlen in Hfit. lia.
    + exists b'. split; [done |]. by rewrite <- app_assoc, take_drop in Hb'.
Qed.

Lemma wb_push_spec bytes b buf :
  holds bytes b -> exists b', wb_push undef b buf = Ok b' /\ holds (bytes ++ buf) b'.
Proof. intros Hb. apply push_again_spec; [lia | done | done]. Qed.

Lemma wb_init_spec : exists b, wb_init undef = Ok b /\ holds [0; 0; 0; 0] b.
Proof.
  apply (wb_push_spec [] (WB [blk_alloc undef] 0 0 0) [0; 0; 0; 0]).
  apply (Holds [] [] (blk_alloc undef) 0); [constructor | done | unfold BLOCK_SIZE; lia | done].
Qed.

Lemma seri_rest_spec blocks : forall len,
  Forall (fun b => zlen b = BLOCK_SIZE) blocks -> len <= zlen (concat blocks) ->
  seri_rest blocks len = Ok (take (Z.to_nat len) (concat blocks)).
Proof.
  induction blocks as [| b blocks IH]; intros len Hb Hl; cbn [seri_rest concat] in *.
  - change (zlen []) with 0 in Hl. replace (len >? 0) with false by lia. by rewrite take_nil.
  - apply Forall_cons in Hb as [Eb Hb]. rewrite zlen_app, Eb in Hl.
    destruct (Z.gtb_spec len 0) as [Hpos | Hz]; [| by replace (Z.to_nat len) with 0%nat by lia].
    destruct (Z.geb_spec len BLOCK_SIZE) as [Hge | Hlt].
    + rewrite IH by (done || lia). cbn. f_equal. rewrite take_app_ge by (unfold zlen in Eb; lia).
      do 2 f_equal. unfold zlen, BLOCK_SIZE in *. lia.
    + pose proof (acopy_out_app [] (take (Z.to_nat len) b) (drop (Z.to_nat len) b)) as E. cbn [app] in E.
      change (zlen []) with 0 in E. rewrite take_drop, zlen_take in E by lia. rewrite E. f_equal.
      rewrite take_app_le; [done |]. unfold zlen, BLOCK_SIZE in *. lia.
Qed.

(** The length goes over the first four bytes. *)
Lemma push_head b0 rest len hd :
  zlen b0 = BLOCK_SIZE -> zlen hd = 4 ->
  wb_push undef (WB (b0 :: rest) 0 len 0) hd = Ok (WB ((hd ++ drop 4 b0) :: rest) 0 (len + 4) 4).
Proof.
  intros L0 Lh. unfold wb_push. cbn [push_again wb_ptr orb]. change (0 =? BLOCK_SIZE) with false. cbn iota.
  rewrite Lh. change (0 <=? BLOCK_SIZE - 4) with true. cbn iota. unfold put_bytes. cbn [chain current wb_ptr wb_len].
  change ((b0 :: rest) !! 0%nat) with (Some b0). cbn [deref]. rewrite bind_Ok.
  assert (T4 : zlen (take 4 b0) = zlen hd) by (rewrite Lh; apply (zlen_take b0 4); rewrite L0; unfold BLOCK_SIZE; lia).
  pose proof (acopy_in_app [] (take 4 b0) (drop 4 b0) hd) as Ea. cbn [app] in Ea. rewrite take_drop in Ea.
  change (zlen []) with 0 in Ea. rewrite Ea by done. by rewrite bind_Ok, Lh.
Qed.

Lemma seri_spec hd tl rest bytes :
  zlen hd = 4 -> le_combine hd = 4 + zlen bytes -> zlen bytes < 2147483644 -> zlen tl = 124 ->
  Forall (fun b => zlen b = BLOCK_SIZE) rest -> bytes = take (Z.to_nat (zlen bytes)) (tl ++ concat rest) ->
  _seri ((hd ++ tl) :: rest) = Ok bytes.
Proof.
  intros Lh Ecomb Hmax Ld Lr Ebytes. unfold _seri. pose proof (zlen_nonneg bytes).
  pose proof (acopy_out_app [] hd tl) as Eo. cbn [app] in Eo. change (zlen []) with 0 in Eo. rewrite Lh in Eo.
  rewrite Eo, bind_Ok, Ecomb, u32_small by lia. replace (4 + zlen bytes - 4) with (zlen bytes) by lia.
  assert (Eout : forall n, 0 <= n <= 124 -> acopy_out (hd ++ tl) 4 n = Ok (take (Z.to_nat n) tl)).
  { intros n Hn. pose proof (acopy_out_app hd (take (Z.to_nat n) tl) (drop (Z.to_nat n) tl)) as En.
    by rewrite take_drop, Lh, zlen_take in En by lia. }
  change (BLOCK_SIZE - 4) with 124. destruct (Z.ltb_spec (zlen bytes) 124) as [Hlt | Hge].
  - rewrite Eout by lia. f_equal. rewrite Ebytes at 2. rewrite take_app_le; [done |]. unfold zlen in *. lia.
  - rewrite Eout, bind_Ok, u32_small by lia. rewrite take_ge by (unfold zlen in Ld; lia).
    assert (Hle : zlen bytes - 124 <= zlen (concat rest)).
    { assert (zlen bytes <= zlen (tl ++ concat rest)); [| rewrite zlen_app in *; lia].
      rewrite Ebytes at 1. unfold zlen. rewrite length_take. lia. }
    rewrite seri_rest_spec by done. cbn. f_equal. rewrite Ebytes at 2. rewrite take_app_ge by (unfold zlen in *; lia).
    do 2 f_equal. unfold zlen in *. lia.
Qed.

(** A chain in memory is full blocks, the first of which exists. *)
Lemma holds_blocks all b :
  holds all b -> exists b0 rest, chain b = b0 :: rest /\ wb_len b = zlen all /\ zlen b0 = BLOCK_SIZE /\
    Forall (fun b => zlen b = BLOCK_SIZE) rest /\ take (Z.to_nat (zlen all)) (b0 ++ concat rest) = all.
Proof.
  intros [init cur ptr Hi Hc Hp E]. cbn [chain wb_len].
  assert (Eflat : take (Z.to_nat (zlen all)) (concat (init ++ [cur])) = all).
  { rewrite concat_app. cbn [concat]. rewrite app_nil_r, <- (take_drop (Z.to_nat ptr) cur) at 1.
    rewrite app_assoc, <- E. unfold zlen. rewrite Nat2Z.id. apply take_app_length. }
  destruct init as [| b0 init].
  - exists cur, []. split; [done |]. split; [done |]. split; [done |]. split; [done | exact Eflat].
  - apply Forall_cons in Hi as [H0 Hi]. exists b0, (init ++ [cur]). split; [done |]. split; [done |]. split; [done |].
    split; [| exact Eflat]. apply Forall_app. split; [done | by constructor].
Qed.

(** Closing and copying give back what was written after the header. *)
Lemma close_seri bytes b :
  holds ([0; 0; 0; 0] ++ bytes) b -> zlen bytes < 2147483644 ->
  exists blocks, wb_close undef b = Ok blocks /\ _seri blocks = Ok bytes.
Proof.
  intros Hb Hmax. destruct (holds_blocks _ _ Hb) as (b0 & rest & Es & El & L0 & Lr & Eflat).
  set (all := [0; 0; 0; 0] ++ bytes) in *. pose proof (zlen_nonneg bytes).
  assert (Hl : zlen all = 4 + zlen bytes) by (unfold all; rewrite zlen_app; done).
  assert (Lh : zlen (le_split 4 (zlen all)) = 4) by (unfold zlen at 1; by rewrite le_split_length).
  unfold wb_close. rewrite Es, El, (push_head _ _ _ _ L0 Lh), bind_Ok. cbn [chain].
  eexists. split; [reflexivity |]. apply seri_spec; [done | | done | | done |].
  - rewrite <- Hl. apply le_combine_split. change (256 ^ Z.of_nat 4) with 4294967296. lia.
  - change 4%nat with (Z.to_nat 4). rewrite zlen_drop; rewrite L0; unfold BLOCK_SIZE; lia.
  - change bytes with (drop 4 all) at 1. rewrite <- Eflat, Hl, skipn_firstn_comm.
    replace (Z.to_nat (4 + zlen bytes) - 4)%nat with (Z.to_nat (zlen bytes)) by lia.
    f_equal. rewrite drop_app_le; [done |]. unfold zlen, BLOCK_SIZE in L0. lia.
Qed.
End blocks.

(** ** The format *)

Definition enc_integer (v ty : Z) : list Z :=
  if v =? 0 then [COMBINE_TYPE ty 0]
  else if v <? 0 then COMBINE_TYPE ty 4 :: le_split 4 (u32 v)
  else if v <? 0x100 then [COMBINE_TYPE ty 1; u8 v]
  else if v <? 0x10000 then COMBINE_TYPE ty 2 :: le_split 2 (u16 v)
  else COMBINE_TYPE ty 4 :: le_split 4 (u32 v).

Definition enc_number (n : Z) : list Z :=
  match is_int32 n with
  | Some x => enc_integer x TYPE_NUMBER
  | None => COMBINE_TYPE TYPE_NUMBER 8 :: le_split 8 n
  end.

Definition enc_string (s : list Z) : list Z :=
  if zlen s <? MAX_COOKIE then COMBINE_TYPE TYPE_SHORT_STRING (zlen s) :: s
  else if zlen s <? 0x10000 then COMBINE_TYPE TYPE_LONG_STRING 2 :: le_split 2 (zlen s) ++ s
  else COMBINE_TYPE TYPE_LONG_STRING 4 :: le_split 4 (zlen s) ++ s.

Definition enc_size (n : Z) : list Z :=
  if n >=? MAX_COOKIE - 1 then COMBINE_TYPE TYPE_TABLE (MAX_COOKIE - 1) :: enc_integer n TYPE_NUMBER
  else [COMBINE_TYPE TYPE_TABLE n].

(** The pairs the hash part writes. *)
Definition outside (n : Z) (kv : lval * lval) : bool := negb (in_array n kv.1).

Fixpoint enc (v : lval) : list Z :=
  match v with
  | LNil => [TYPE_NIL]
  | LBool b => [COMBINE_TYPE TYPE_BOOLEAN (if b then 1 else 0)]
  | LNum n => enc_number n
  | LUser p => TYPE_USERDATA :: le_split 8 p
  | LStr s => enc_string s
  | LTable arr pairs =>
    enc_size (zlen arr) ++ (arr ≫= enc) ++
      (pairs ≫= fun kv => if outside (zlen arr) kv then enc kv.1 ++ enc kv.2 else []) ++ [TYPE_NIL]
  | LOther => []
  end.

(** What the reader gives back: numbers equal to a 32-bit integer in their
    standard form, tables without the pairs the array part has. *)
Definition canon_num (b : Z) : Z := match is_int32 b with Some x => of_int32 x | None => b end.

Fixpoint canon (v : lval) : lval :=
  match v with
  | LNum b => LNum (canon_num b)
  | LTable arr pairs =>
    LTable (canon <$> arr)
      (pairs ≫= fun kv => if outside (zlen arr) kv then [(canon kv.1, canon kv.2)] else [])
  | v => v
  end.

(** Values that can be written at a depth: nothing of another type, no key nil
    or not-a-number, sizes and nesting within the format. *)
Fixpoint packable (depth : Z) (v : lval) : Prop :=
  depth <= MAX_DEPTH /\
  match v with
  | LNil | LBool _ => True
  | LNum n => 0 <= n < 18446744073709551616
  | LUser p => 0 <= p < 18446744073709551616
  | LStr s => zlen s < 2147483648
  | LTable arr pairs =>
    zlen arr < 2147483648 /\ (forall x, x ∈ packable (depth + 1) <$> arr -> x) /\
    (forall x, x ∈ (fun kv => kv.1 <> LNil /\ bad_key kv.1 = false /\ packable (depth + 1) kv.1 /\ packable (depth + 1) kv.2)
       <$> pairs -> x)
  | LOther => False
  end.

(** Induction through the lists of a table. *)
Section lval_ind.
  Variable P : lval -> Prop.
  Hypothesis (Hnil : P LNil) (Hbool : forall b, P (LBool b)) (Hnum : forall n, P (LNum n))
    (Huser : forall p, P (LUser p)) (Hstr : forall s, P (LStr s))
    (Htable : forall arr pairs, Forall P arr -> Forall (fun kv => P kv.1 /\ P kv.2) pairs -> P (LTable arr pairs))
    (Hother : P LOther).

Fixpoint lval_ind (v : lval) : P v :=
  match v with
  | LNil => Hnil
  | LBool b => Hbool b
  | LNum n => Hnum n
  | LUser p => Huser p
  | LStr s => Hstr s
  | LTable arr pairs =>
    Htable arr pairs
      ((fix go (l : list lval) : Forall P l :=
          match l with [] => Forall_nil_2 P | v :: l => Forall_cons_2 P v l (lval_ind v) (go l) end) arr)
      ((fix go (l : list (lval * lval)) : Forall (fun kv => P kv.1 /\ P kv.2) l :=
          match l with
          | [] => Forall_nil_2 _
          | kv :: l => Forall_cons_2 _ kv l (conj (lval_ind kv.1) (lval_ind kv.2)) (go l)
          end) pairs)
  | LOther => Hother
  end.
End lval_ind.

(** ** The writer refines the format *)

Section pack.
  Variable undef : Z.

(** [m] writes [buf]. *)
Definition writes (m : write_block -> outcome write_block) (buf : list Z) : Prop :=
  forall bytes b, holds bytes b -> exists b', m b = Ok b' /\ holds (bytes ++ buf) b'.

Lemma writes_push buf : writes (fun b => wb_push undef b buf) buf.
Proof. intros bytes b Hb. by apply wb_push_spec. Qed.

Lemma writes_bind m1 m2 buf1 buf2 :
  writes m1 buf1 -> writes m2 buf2 -> writes (fun b => b ← m1 b; m2 b) (buf1 ++ buf2).
Proof.
  intros W1 W2 bytes b Hb. destruct (W1 _ _ Hb) as (b1 & E1 & H1). destruct (W2 _ _ H1) as (b2 & E2 & H2).
  exists b2. rewrite E1. split; [exact E2 |]. by rewrite app_assoc.
Qed.

Lemma writes_integer v ty : writes (fun b => wb_integer undef b v ty) (enc_integer v ty).
Proof.
  unfold wb_integer, enc_integer. destruct (v =? 0); [apply writes_push |].
  destruct (v <? 0); [apply (writes_bind _ _ [_]); apply writes_push |].
  destruct (v <? 0x100); [apply (writes_bind _ _ [_]); apply writes_push |].
  destruct (v <? 0x10000); apply (writes_bind _ _ [_]); apply writes_push.
Qed.

Lemma writes_string s : zlen s < 2147483648 -> writes (fun b => wb_string undef b s) (enc_string s).
Proof.
  intros Hs. pose proof (zlen_nonneg s). unfold wb_string, enc_string. rewrite i32_small by lia.
  rewrite (take_ge s) by (unfold zlen; lia).
  destruct (Z.ltb_spec (zlen s) MAX_COOKIE).
  - apply (writes_bind _ _ [_]); [apply writes_push |]. destruct (Z.gtb_spec (zlen s) 0) as [| Hz]; [apply writes_push |].
    assert (s = []) as -> by (destruct s; [done | rewrite zlen_cons in Hz; pose proof (zlen_nonneg s); lia]).
    intros bytes b Hb. exists b. by rewrite app_nil_r.
  - destruct (Z.ltb_spec (zlen s) 0x10000).
    + change (COMBINE_TYPE TYPE_LONG_STRING 2 :: le_split 2 (zlen s) ++ s)
        with ((COMBINE_TYPE TYPE_LONG_STRING 2 :: le_split 2 (zlen s)) ++ s).
      replace (u16 (zlen s)) with (zlen s) by (unfold u16; rewrite Z.mod_small; lia).
      apply writes_bind; [apply (writes_bind _ _ [_]); apply writes_push | apply writes_push].
    + change (COMBINE_TYPE TYPE_LONG_STRING 4 :: le_split 4 (zlen s) ++ s)
        with ((COMBINE_TYPE TYPE_LONG_STRING 4 :: le_split 4 (zlen s)) ++ s).
      rewrite u32_small by lia.
      apply writes_bind; [apply (writes_bind _ _ [_]); apply writes_push | apply writes_push].
Qed.

(** The same for computations that may raise an error: the chain holds [bytes]. *)
Definition wrote (r : lres write_block) (bytes : list Z) : Prop := exists b', r = LOk b' /\ holds bytes b'.

Lemma wrote_lift m buf bytes b : writes m buf -> holds bytes b -> wrote (lift (m b)) (bytes ++ buf).
Proof. intros W Hb. destruct (W _ _ Hb) as (b' & E & Hb'). exists b'. by rewrite E. Qed.

Lemma wrote_bind r k bytes1 bytes2 :
  wrote r bytes1 -> (forall b, holds bytes1 b -> wrote (k b) bytes2) -> wrote (r ≫= k) bytes2.
Proof. intros (b1 & -> & H1) Hk. by apply Hk. Qed.

Lemma wrote_ret bytes b : holds bytes b -> wrote (mret b) bytes.
Proof. intros Hb. by exists b. Qed.

Lemma wrote_size n bytes b : holds bytes b ->
  wrote (if n >=? MAX_COOKIE - 1 then
             b ← lift (wb_push undef b [COMBINE_TYPE TYPE_TABLE (MAX_COOKIE - 1)]);
             lift (wb_integer undef b n TYPE_NUMBER)
           else lift (wb_push undef b [COMBINE_TYPE TYPE_TABLE n])) (bytes ++ enc_size n).
Proof.
  intros Hb. unfold enc_size. destruct (n >=? MAX_COOKIE - 1);
    [| by apply (wrote_lift (fun b => wb_push undef b _)), Hb; apply writes_push].
  eapply wrote_bind; [apply (wrote_lift (fun b => wb_push undef b _)), Hb; apply writes_push |].
  intros b1 H1. change (COMBINE_TYPE TYPE_TABLE (MAX_COOKIE - 1) :: enc_integer n TYPE_NUMBER) with
    ([COMBINE_TYPE TYPE_TABLE (MAX_COOKIE - 1)] ++ enc_integer n TYPE_NUMBER). rewrite app_assoc.
  apply (wrote_lift (fun b => wb_integer undef b _ _)), H1. apply writes_integer.
Qed.

(** An error where errors are expected, or a write. *)
Definition tried (err : bool) (r : lres write_block) (bytes : list Z) : Prop := (err = true /\ r = LErr) \/ wrote r bytes.

Lemma tried_bind err r (k : write_block -> lres write_block) bytes1 bytes2 :
  tried err r bytes1 -> (forall b, holds bytes1 b -> tried err (k b) bytes2) -> tried err (r ≫= k) bytes2.
Proof. intros [[He ->] | (b & -> & Hb)] Hk; [by left | by apply Hk]. Qed.

Lemma tried_wrote err r bytes : wrote r bytes -> tried err r bytes.
Proof. by right. Qed.

(** The two loops of a table. *)
Lemma pack_array_tried err depth arr :
  Forall (fun v => forall bytes b, holds bytes b -> tried err (_pack_one undef v depth b) (bytes ++ enc v)) arr ->
  forall n i bytes b, holds bytes b -> i + zlen arr = n + 1 ->
  tried err ((fix pack_array (l : list lval) (i : Z) (b : write_block) : lres write_block :=
             match l with
             | [] => mret b
             | v :: l =>
               if i <=? n then b ← _pack_one undef v depth b; pack_array l (i + 1) b
               else mret b
             end) arr i b) (bytes ++ (arr ≫= enc)).
Proof.
  induction 1 as [| x l Hx _ IH]; intros n i bytes b Hb Hi; [rewrite app_nil_r; by apply tried_wrote, wrote_ret |].
  rewrite zlen_cons in Hi. pose proof (zlen_nonneg l). destruct (Z.leb_spec i n); [| lia].
  eapply tried_bind; [by apply Hx |]. intros b1 H1. cbn [mbind list_bind]. rewrite app_assoc. apply IH; [done | lia].
Qed.

Lemma pack_hash_tried err depth n pairs :
  Forall (fun kv => (forall bytes b, holds bytes b -> tried err (_pack_one undef kv.1 depth b) (bytes ++ enc kv.1)) /\
    (forall bytes b, holds bytes b -> tried err (_pack_one undef kv.2 depth b) (bytes ++ enc kv.2))) pairs ->
  forall bytes b, holds bytes b ->
  tried err ((fix pack_hash (l : list (lval * lval)) (b : write_block) : lres write_block :=
             match l with
             | [] => mret b
             | (k, v) :: l =>
               if in_array n k then pack_hash l b
               else
                 b ← _pack_one undef k depth b;
                 b ← _pack_one undef v depth b;
                 pack_hash l b
             end) pairs b)
    (bytes ++ (pairs ≫= fun kv => if outside n kv then enc kv.1 ++ enc kv.2 else [])).
Proof.
  induction 1 as [| [k v] l [Hk Hv] _ IH]; intros bytes b Hb; [rewrite app_nil_r; by apply tried_wrote, wrote_ret |].
  cbn [mbind list_bind fst snd] in *. unfold outside at 1. cbn [fst]. destruct (in_array n k); cbn [negb app]; [by apply IH |].
  eapply tried_bind; [by apply Hk |]. intros b1 H1. eapply tried_bind; [by apply Hv |]. intros b2 H2.
  rewrite <- app_assoc, !app_assoc. by apply IH.
Qed.

(** Values whose strings and arrays have a length that is an [int]. *)
Fixpoint sized (v : lval) : Prop :=
  match v with
  | LStr s => zlen s < 2147483648
  | LTable arr pairs =>
    zlen arr < 2147483648 /\ (forall x, x ∈ sized <$> arr -> x) /\
    (forall x, x ∈ (fun kv => sized kv.1 /\ sized kv.2) <$> pairs -> x)
  | _ => True
  end.

Lemma sized_table arr pairs : sized (LTable arr pairs) ->
  zlen arr < 2147483648 /\ Forall sized arr /\ Forall (fun kv => sized kv.1 /\ sized kv.2) pairs.
Proof.
  intros (Hn & Ha & Hp). split; [done |]. split; apply Forall_forall; intros x Hx; [apply Ha | apply Hp];
    apply list_elem_of_fmap; by exists x.
Qed.

Lemma packable_table_inv depth arr pairs : packable depth (LTable arr pairs) ->
  Forall (packable (depth + 1)) arr /\ Forall (fun kv => packable (depth + 1) kv.1 /\ packable (depth + 1) kv.2) pairs.
Proof.
  intros [_ (_ & Ha & Hp)]. split; apply Forall_forall; intros x Hx; [apply Ha; apply list_elem_of_fmap; by exists x |].
  assert (Hw : x.1 <> LNil /\ bad_key x.1 = false /\ packable (depth + 1) x.1 /\ packable (depth + 1) x.2)
    by (apply Hp; apply list_elem_of_fmap; by exists x). tauto.
Qed.

Lemma packable_sized v : forall depth, packable depth v -> sized v.
Proof.
  induction v as [| x | n | p | s | arr pairs IHa IHp |] using lval_ind; intros depth Hv; try done; [apply Hv |].
  destruct (packable_table_inv _ _ _ Hv) as [Ha Hp]. split; [exact (proj1 (proj2 Hv)) |]. rewrite Forall_forall in IHa. rewrite Forall_forall in IHp.
  rewrite Forall_forall in Ha. rewrite Forall_forall in Hp. split.
  - intros x (v & -> & Hx)%list_elem_of_fmap. by eapply IHa, Ha.
  - intros x (kv & -> & Hx)%list_elem_of_fmap. destruct (IHp kv Hx) as [I1 I2], (Hp kv Hx) as [P1 P2]. split; [by eapply I1 | by eapply I2].
Qed.

Lemma pack_one_tried err v : forall depth bytes b,
  sized v -> (err = false -> packable depth v) -> holds bytes b -> tried err (_pack_one undef v depth b) (bytes ++ enc v).
Proof.
  induction v as [| x | n | p | s | arr pairs IHa IHp |] using lval_ind; intros depth bytes b Hs Hk Hb; cbn [_pack_one enc];
    (destruct (Z.gtb_spec depth MAX_DEPTH) as [Hd | Hd];
      [left; split; [| done]; destruct err; [done | destruct (Hk eq_refl) as [? _]; lia] |]).
  1-5: apply tried_wrote.
  - apply (wrote_lift (fun b => wb_push undef b _)), Hb. apply writes_push.
  - apply (wrote_lift (fun b => wb_push undef b _)), Hb. apply writes_push.
  - unfold enc_number. destruct (is_int32 n).
    + apply (wrote_lift (fun b => wb_integer undef b _ _)), Hb. apply writes_integer.
    + apply (wrote_lift (fun b => wb_number undef b _)), Hb. apply (writes_bind _ _ [_]); apply writes_push.
  - apply (wrote_lift (fun b => wb_pointer undef b _)), Hb. apply (writes_bind _ _ [_]); apply writes_push.
  - apply (wrote_lift (fun b => wb_string undef b _)), Hb. by apply writes_string.
  - destruct (sized_table _ _ Hs) as (Hn & Ha & Hp). rewrite i32_small by (pose proof (zlen_nonneg arr); lia).
    eapply tried_bind; [by apply tried_wrote, wrote_size |]. intros b1 H1. rewrite app_assoc.
    assert (Hpk : err = false -> Forall (packable (depth + 1)) arr /\
      Forall (fun kv => packable (depth + 1) kv.1 /\ packable (depth + 1) kv.2) pairs) by (intros He; by apply packable_table_inv, Hk).
    rewrite Forall_forall in IHa. rewrite Forall_forall in Ha. rewrite Forall_forall in IHp. rewrite Forall_forall in Hp.
    eapply tried_bind; [apply pack_array_tried; [| exact H1 | lia] |].
    { apply Forall_forall. intros x Hx bs b0 Hb0. apply IHa; [done | by apply Ha | | done].
      intros He. destruct (Hpk He) as [Ja _]. rewrite Forall_forall in Ja. by apply Ja. }
    intros b2 H2. rewrite app_assoc. eapply tried_bind; [apply pack_hash_tried; [| exact H2] |].
    { apply Forall_forall. intros kv Hkv. destruct (IHp kv Hkv) as [Ik Iv], (Hp kv Hkv) as [S1 S2].
      split; intros bs b0 Hb0; [apply Ik | apply Iv]; try done;
        intros He; destruct (Hpk He) as [_ Jp]; rewrite Forall_forall in Jp; by apply (Jp kv). }
    intros b3 H3. rewrite app_assoc. apply tried_wrote, (wrote_lift (fun b => wb_push undef b _)), H3. apply writes_push.
  - left. split; [| done]. destruct err; [done |]. by destruct (Hk eq_refl) as [_ []].
Qed.

Lemma pack_from_tried err vs : Forall (fun v => sized v /\ (err = false -> packable 0 v)) vs -> forall bytes b,
  holds bytes b -> tried err (_pack_from undef vs b) (bytes ++ (vs ≫= enc)).
Proof.
  induction 1 as [| v vs [Hs Hv] _ IH]; intros bytes b Hb; cbn [_pack_from]; [rewrite app_nil_r; by apply tried_wrote, wrote_ret |].
  eapply tried_bind; [by apply pack_one_tried |]. intros b1 H1. cbn [mbind list_bind]. rewrite app_assoc. by apply IH.
Qed.

Lemma luaseri_pack_tried err vs :
  Forall (fun v => sized v /\ (err = false -> packable 0 v)) vs -> zlen (vs ≫= enc) < 2147483644 ->
  (err = true /\ _luaseri_pack undef vs = LErr) \/ _luaseri_pack undef vs = LOk (vs ≫= enc).
Proof.
  intros Hv Hl. unfold _luaseri_pack. destruct (wb_init_spec undef) as (b0 & E0 & H0). rewrite E0. cbn [lift]. rewrite lbind_LOk.
  destruct (pack_from_tried err vs Hv _ _ H0) as [[He E1] | (b1 & E1 & H1)]; rewrite E1; [by left | right]. rewrite lbind_LOk.
  destruct (close_seri undef _ _ H1 Hl) as (blocks & E2 & E3). rewrite E2. cbn [lift]. by rewrite lbind_LOk, E3.
Qed.

Lemma luaseri_pack_spec vs :
  Forall (packable 0) vs -> zlen (vs ≫= enc) < 2147483644 -> _luaseri_pack undef vs = LOk (vs ≫= enc).
Proof.
  intros Hv Hl. destruct (luaseri_pack_tried false vs) as [[? _] | E]; [| done | done | done].
  eapply Forall_impl; [exact Hv |]. intros v Hp. split; [by eapply packable_sized | done].
Qed.
End pack.

(** ** The reader inverts the format *)

Lemma combine_spec ty v :
  0 <= ty < 8 -> 0 <= v < 32 -> Z.land (COMBINE_TYPE ty v) 7 = ty /\ Z.shiftr (COMBINE_TYPE ty v) 3 = v.
Proof.
  intros Ht Hv.
  assert (Hall : forallb (fun t => forallb (fun v =>
    (Z.land (COMBINE_TYPE (Z.of_nat t) (Z.of_nat v)) 7 =? Z.of_nat t) &&
    (Z.shiftr (COMBINE_TYPE (Z.of_nat t) (Z.of_nat v)) 3 =? Z.of_nat v)) (seq 0 32)) (seq 0 8) = true) by (by vm_compute).
  rewrite forallb_forall in Hall. specialize (Hall (Z.to_nat ty)). rewrite forallb_forall in Hall.
  assert (Hin : List.In (Z.to_nat ty) (seq 0 8)) by (apply in_seq; lia).
  specialize (Hall Hin (Z.to_nat v)). rewrite !Z2Nat.id in Hall by lia.
  assert (Hin' : List.In (Z.to_nat v) (seq 0 32)) by (apply in_seq; lia). specialize (Hall Hin'). lia.
Qed.

Lemma must_read_app bs rest n : zlen bs = n -> must_read (bs ++ rest) n = LOk (bs, rest).
Proof.
  intros <-. unfold must_read, rb_read. pose proof (zlen_nonneg bs). pose proof (zlen_nonneg rest).
  replace (zlen bs <? 0) with false by lia. rewrite zlen_app. replace (zlen bs + zlen rest <? zlen bs) with false by lia.
  rewrite !lbind_LOk. unfold zlen. by rewrite Nat2Z.id, take_app_length, drop_app_length.
Qed.

Lemma must_read_one t rest : must_read (t :: rest) 1 = LOk ([t], rest).
Proof. by apply (must_read_app [t]). Qed.

Lemma le_combine_one t : le_combine [t] = t.
Proof. cbn. lia. Qed.

Lemma le_read n z x rest : z = Z.of_nat n -> 0 <= x < 256 ^ z ->
  must_read (le_split n x ++ rest) z = LOk (le_split n x, rest) /\ le_combine (le_split n x) = x.
Proof.
  intros -> Hx. split; [apply must_read_app; unfold zlen; by rewrite le_split_length | by apply le_combine_split].
Qed.

Lemma read_integer x ty rest :
  -2147483648 <= x < 2147483648 -> exists c tl, enc_integer x ty = COMBINE_TYPE ty c :: tl /\
    0 <= c < 8 /\ _get_integer (tl ++ rest) c = LOk (x, rest).
Proof.
  intros Hx. unfold enc_integer. destruct (Z.eqb_spec x 0) as [-> | Hne]; [by exists 0, [] |].
  assert (Hint : forall c, c = 4 -> _get_integer (le_split 4 (u32 x) ++ rest) c = LOk (x, rest)).
  { intros c ->. pose proof (u32_range x) as Hu.
    destruct (le_read 4 4 (u32 x) rest eq_refl) as [E1 E2]; [change (256 ^ 4) with 4294967296; lia |].
    unfold _get_integer. cbn [Z.eqb Pos.eqb]. rewrite E1, lbind_LOk, E2.
    do 2 f_equal. unfold i32, u32. rewrite Z.add_mod_idemp_l by lia. fold (i32 x). apply i32_small. lia. }
  destruct (Z.ltb_spec x 0); [exists 4; eexists; split; [reflexivity | split; [lia | by apply Hint]] |].
  destruct (Z.ltb_spec x 0x100).
  { exists 1, [u8 x]. split; [done |]. split; [lia |]. unfold _get_integer. cbn [Z.eqb Pos.eqb app].
    rewrite must_read_one, lbind_LOk, le_combine_one. unfold u8. by rewrite Z.mod_small by lia. }
  destruct (Z.ltb_spec x 0x10000); [| exists 4; eexists; split; [reflexivity | split; [lia | by apply Hint]]].
  exists 2. eexists. split; [reflexivity |]. split; [lia |]. unfold _get_integer. cbn [Z.eqb Pos.eqb].
  assert (Eu : u16 x = x) by (unfold u16; by rewrite Z.mod_small by lia). rewrite Eu.
  destruct (le_read 2 2 x rest eq_refl) as [E1 E2]; [change (256 ^ 2) with 65536; lia |].
  by rewrite E1, lbind_LOk, E2.
Qed.

Lemma read_number n rest :
  0 <= n < 18446744073709551616 -> exists c tl, enc_number n = COMBINE_TYPE TYPE_NUMBER c :: tl /\
    0 <= c < 32 /\ _get_number (tl ++ rest) c = LOk (canon_num n, rest).
Proof.
  intros Hn. unfold enc_number, canon_num. destruct (is_int32 n) as [x |] eqn:Ei.
  - destruct (read_integer x TYPE_NUMBER rest (is_int32_range _ _ Ei)) as (c & tl & E & Hc & Eg).
    exists c, tl. split; [done |]. split; [lia |]. unfold _get_number.
    destruct (Z.eqb_spec c 8) as [-> | _]; [lia |]. by rewrite Eg.
  - exists 8. eexists. split; [reflexivity |]. split; [lia |]. unfold _get_number. cbn [Z.eqb Pos.eqb].
    destruct (le_read 8 8 n rest eq_refl) as [E1 E2]; [change (256 ^ 8) with 18446744073709551616; lia |].
    by rewrite E1, lbind_LOk, E2.
Qed.

Lemma read_string s rest :
  zlen s < 2147483648 -> exists t tl, enc_string s = t :: tl /\ Z.land t 7 <> TYPE_TABLE /\
    push_scalar (tl ++ rest) (Z.land t 7) (Z.shiftr t 3) = LOk (LStr s, rest).
Proof.
  intros Hs. pose proof (zlen_nonneg s). unfold enc_string.
  assert (Hbuf : _get_buffer (s ++ rest) (zlen s) = LOk (LStr s, rest)).
  { unfold _get_buffer. by rewrite must_read_app. }
  destruct (Z.ltb_spec (zlen s) MAX_COOKIE) as [Hc | Hc]; unfold MAX_COOKIE in Hc.
  - destruct (combine_spec TYPE_SHORT_STRING (zlen s)) as [E1 E2]; [unfold TYPE_SHORT_STRING; lia | lia |].
    eexists _, _. split; [reflexivity |]. rewrite E1, E2. split; [done |]. exact Hbuf.
  - destruct (Z.ltb_spec (zlen s) 0x10000).
    + destruct (combine_spec TYPE_LONG_STRING 2) as [E1 E2]; [unfold TYPE_LONG_STRING; lia | lia |].
      eexists _, _. split; [reflexivity |]. rewrite E1, E2. split; [done |].
      destruct (le_read 2 2 (zlen s) (s ++ rest) eq_refl) as [R1 R2]; [change (256 ^ 2) with 65536; lia |].
      unfold push_scalar. cbn [TYPE_LONG_STRING TYPE_NIL TYPE_BOOLEAN TYPE_NUMBER TYPE_USERDATA TYPE_SHORT_STRING Z.eqb Pos.eqb].
      rewrite <- app_assoc. by rewrite R1, lbind_LOk, R2.
    + destruct (combine_spec TYPE_LONG_STRING 4) as [E1 E2]; [unfold TYPE_LONG_STRING; lia | lia |].
      eexists _, _. split; [reflexivity |]. rewrite E1, E2. split; [done |].
      destruct (le_read 4 4 (zlen s) (s ++ rest) eq_refl) as [R1 R2]; [change (256 ^ 4) with 4294967296; lia |].
      unfold push_scalar. cbn [TYPE_LONG_STRING TYPE_NIL TYPE_BOOLEAN TYPE_NUMBER TYPE_USERDATA TYPE_SHORT_STRING Z.eqb Pos.eqb negb].
      rewrite <- app_assoc. rewrite R1, lbind_LOk, R2, i32_small by lia. exact Hbuf.
Qed.

Lemma read_size n rest :
  0 <= n < 2147483648 -> exists t tl, enc_size n = t :: tl /\ Z.land t 7 = TYPE_TABLE /\
    table_size (tl ++ rest) (Z.shiftr t 3) = LOk (n, rest).
Proof.
  intros Hn. unfold enc_size. destruct (Z.geb_spec n (MAX_COOKIE - 1)) as [Hge | Hlt]; unfold MAX_COOKIE in *.
  - destruct (combine_spec TYPE_TABLE (32 - 1)) as [E1 E2]; [unfold TYPE_TABLE; lia | lia |].
    destruct (read_integer n TYPE_NUMBER rest) as (c & tl & E & Hc & Eg); [lia |]. rewrite E.
    eexists _, _. split; [reflexivity |]. rewrite E1, E2. split; [done |]. unfold table_size.
    change (32 - 1 =? MAX_COOKIE - 1) with true. cbn iota. cbn [app]. rewrite must_read_one, lbind_LOk, le_combine_one.
    destruct (combine_spec TYPE_NUMBER c) as [F1 F2]; [unfold TYPE_NUMBER; lia | lia |]. rewrite F1, F2. rewrite Z.eqb_refl. cbn [negb].
    unfold _get_number. destruct (Z.eqb_spec c 8); [lia |]. rewrite Eg, !lbind_LOk.
    pose proof (is_int32_of_int32 n ltac:(lia)) as Ei. unfold is_int32 in Ei.
    unfold dbl_to_int. destruct (dbl_integral _), (_ <=? _), (_ <? _); try done. by injection Ei as ->.
  - destruct (combine_spec TYPE_TABLE n) as [E1 E2]; [unfold TYPE_TABLE; lia | lia |].
    eexists _, _. split; [reflexivity |]. rewrite E1, E2. split; [done |]. unfold table_size, MAX_COOKIE.
    by destruct (Z.eqb_spec n (32 - 1)); [lia |].
Qed.

(** A first byte and the rest for every value. *)
Lemma read_scalar v depth rest :
  packable depth v -> match v with LTable _ _ => True | _ => exists t tl, enc v = t :: tl /\
    Z.land t 7 <> TYPE_TABLE /\ push_scalar (tl ++ rest) (Z.land t 7) (Z.shiftr t 3) = LOk (canon v, rest) end.
Proof.
  destruct v as [| b | n | p | s | arr pairs |]; intros [_ Hv]; [| | | | | done | done].
  - by exists TYPE_NIL, [].
  - exists (COMBINE_TYPE TYPE_BOOLEAN (if b then 1 else 0)), []. split; [done |]. by destruct b.
  - destruct (read_number n rest Hv) as (c & tl & E & Hc & Eg). cbn [enc canon]. rewrite E.
    destruct (combine_spec TYPE_NUMBER c) as [F1 F2]; [unfold TYPE_NUMBER; lia | lia |].
    exists (COMBINE_TYPE TYPE_NUMBER c), tl. rewrite F1, F2. split; [done |]. split; [done |].
    unfold push_scalar. cbn [TYPE_NIL TYPE_BOOLEAN TYPE_NUMBER Z.eqb Pos.eqb]. by rewrite Eg.
  - exists TYPE_USERDATA, (le_split 8 p). split; [done |]. split; [done |].
    destruct (le_read 8 8 p rest eq_refl) as [E1 E2]; [change (256 ^ 8) with 18446744073709551616; lia |].
    change (push_scalar (le_split 8 p ++ rest) 3 0 = LOk (LUser p, rest)). unfold push_scalar, _get_pointer.
    cbn [TYPE_NIL TYPE_BOOLEAN TYPE_NUMBER TYPE_USERDATA Z.eqb Pos.eqb]. by rewrite E1, !lbind_LOk, E2.
  - by apply read_string.
Qed.

Lemma enc_cons v depth : packable depth v -> exists t tl, enc v = t :: tl.
Proof.
  intros Hv. pose proof (read_scalar v depth [] Hv) as Hs. destruct v; try (destruct Hs as (t & tl & E & _); by exists t, tl).
  destruct Hv as [_ (Hn & _)]. destruct (read_size (zlen arr) []) as (t & tl & E & _); [pose proof (zlen_nonneg arr); lia |].
  cbn [enc]. rewrite E. by eexists _, _.
Qed.

(** Reading [enc v] needs two units of fuel per byte. *)
Definition reads (v : lval) : Prop := forall fuel rest, (2 * length (enc v) < fuel)%nat ->
  _unpack_one fuel (enc v ++ rest) = LOk (canon v, rest).

Lemma read_array arr : Forall (fun v => reads v /\ (0 < length (enc v))%nat) arr -> forall fuel rest,
  (2 * length (arr ≫= enc) + 1 < fuel)%nat ->
  unpack_array fuel (zlen arr) ((arr ≫= enc) ++ rest) = LOk (canon <$> arr, rest).
Proof.
  induction 1 as [| v l [Hv Hl] _ IH]; intros fuel rest Hf; (destruct fuel as [| fuel]; [lia |]); cbn [unpack_array]; [done |].
  cbn [mbind list_bind] in *. rewrite length_app in Hf. rewrite zlen_cons. pose proof (zlen_nonneg l).
  destruct (Z.leb_spec (1 + zlen l) 0); [lia |]. rewrite <- app_assoc.
  rewrite Hv, lbind_LOk by lia. replace (1 + zlen l - 1) with (zlen l) by lia. by rewrite IH, lbind_LOk by lia.
Qed.

Lemma canon_not_nil v : v <> LNil -> canon v <> LNil.
Proof. by destruct v. Qed.

Lemma canon_key v : bad_key v = false -> bad_key (canon v) = false.
Proof.
  destruct v as [| | n | | | |]; try done. cbn [canon bad_key]. unfold canon_num.
  destruct (is_int32 n) eqn:E; [| done]. intros _. by apply of_int32_not_nan, (is_int32_range n).
Qed.

Lemma read_pairs n pairs : Forall (fun kv => (reads kv.1 /\ (0 < length (enc kv.1))%nat) /\ reads kv.2 /\
    kv.1 <> LNil /\ bad_key kv.1 = false) pairs -> forall fuel rest,
  let bytes := pairs ≫= fun kv => if outside n kv then enc kv.1 ++ enc kv.2 else [] in
  (2 * length bytes + 3 < fuel)%nat ->
  unpack_pairs fuel (bytes ++ TYPE_NIL :: rest) =
    LOk (pairs ≫= fun kv => if outside n kv then [(canon kv.1, canon kv.2)] else [], rest).
Proof.
  induction 1 as [| [k v] l Hkv _ IH]; intros fuel rest bytes Hf.
  - destruct fuel as [| [| fuel]]; [cbn in Hf; lia | cbn in Hf; lia |].
    unfold bytes. cbn [mbind list_bind app unpack_pairs]. cbn [_unpack_one]. by rewrite must_read_one.
  - destruct Hkv as ([Hk Hl] & Hv & Hnil & Hbad). unfold bytes in *. cbn [mbind list_bind fst snd] in *.
    destruct (outside n (k, v)) eqn:Eo; [| by apply IH].
    destruct fuel as [| fuel]; [lia |]. cbn [unpack_pairs]. rewrite !length_app in Hf. rewrite <- !app_assoc.
    rewrite Hk, lbind_LOk by lia. pose proof (canon_not_nil k Hnil) as Hc. apply canon_key in Hbad.
    destruct (canon k); try done; rewrite Hv, lbind_LOk, Hbad, IH by lia; done.
Qed.

Lemma unpack_one_reads v : forall depth, packable depth v -> reads v.
Proof.
  induction v as [| x | n | p | s | arr pairs IHa IHp |] using lval_ind; intros depth Hv fuel rest Hf.
  6: {
    destruct Hv as [Hd (Hn & Ha & Hp)]. cbn [enc canon] in *.
    destruct (read_size (zlen arr) ((arr ≫= enc) ++ (pairs ≫= fun kv => if outside (zlen arr) kv then enc kv.1 ++ enc kv.2 else []) ++ TYPE_NIL :: rest))
      as (t & tl & E & Et & Es); [pose proof (zlen_nonneg arr); lia |].
    rewrite E in Hf |- *. rewrite !length_app in Hf. cbn [length app] in Hf.
    destruct fuel as [| fuel]; [lia |]. cbn [_unpack_one app]. rewrite must_read_one, lbind_LOk, le_combine_one, Et. cbn [TYPE_TABLE Z.eqb Pos.eqb].
    rewrite <- !app_assoc. cbn [app]. rewrite Es, lbind_LOk.
    rewrite read_array, lbind_LOk; [rewrite read_pairs, lbind_LOk; [done | | lia] | | lia].
    - apply Forall_forall. intros kv Hkv. rewrite Forall_forall in IHp. destruct (IHp kv Hkv) as [Ik Iv].
      assert (Hw : kv.1 <> LNil /\ bad_key kv.1 = false /\ packable (depth + 1) kv.1 /\ packable (depth + 1) kv.2).
      { apply Hp. apply list_elem_of_fmap. by exists kv. }
      destruct Hw as (H1 & H2 & H3 & H4). destruct (enc_cons _ _ H3) as (t1 & tl1 & E1).
      split; [split; [by eapply Ik | rewrite E1; cbn; lia] |]. split; [by eapply Iv | done].
    - apply Forall_forall. intros x Hx. rewrite Forall_forall in IHa.
      assert (Hw : packable (depth + 1) x) by (apply Ha, list_elem_of_fmap; by exists x).
      destruct (enc_cons _ _ Hw) as (t1 & tl1 & E1). split; [by eapply IHa | rewrite E1; cbn; lia]. }
  all: pose proof (read_scalar _ depth rest Hv) as Hs; try (by destruct Hv).
  all: cbn beta iota in Hs; destruct Hs as (t & tl & E & Et & Es); rewrite E in Hf |- *;
    (destruct fuel as [| fuel]; [lia |]); cbn [_unpack_one app]; rewrite must_read_one, lbind_LOk, le_combine_one;
    destruct (Z.eqb_spec (Z.land t 7) TYPE_TABLE); [done | exact Es].
Qed.

Lemma unpack_all_spec vs : Forall (packable 0) vs -> forall fuel,
  (2 * length (vs ≫= enc) + 1 < fuel)%nat -> unpack_all fuel (vs ≫= enc) = LOk (canon <$> vs).
Proof.
  induction 1 as [| v vs Hv _ IH]; intros fuel Hf; (destruct fuel as [| fuel]; [lia |]); cbn [unpack_all]; [done |].
  cbn [mbind list_bind] in *. rewrite length_app in Hf. destruct (enc_cons v 0 Hv) as (t & tl & E).
  assert (Hl : (0 < length (enc v))%nat) by (rewrite E; cbn; lia).
  destruct (enc v ++ (vs ≫= enc)) as [| t0 l0] eqn:El; [by rewrite E in El |]. rewrite <- El.
  rewrite (unpack_one_reads v 0 Hv), lbind_LOk by lia. by rewrite IH, lbind_LOk by lia.
Qed.

(** ** The reader on any bytes *)

Definition is_byte (b : Z) : Prop := 0 <= b < 256.

(** The items whose reading C leaves undefined: a long string whose four bytes of
    length are negative as an [int] (the size of an array on the stack), and a
    table whose number of elements is a double that no [int] is the truncation of. *)
Definition undefined_item (rb : list Z) : bool :=
  match rb with
  | [] => false
  | t :: rb =>
    if Z.land t 7 =? TYPE_LONG_STRING then
      (Z.shiftr t 3 =? 4) && (4 <=? zlen rb) && (i32 (le_combine (take 4 rb)) <? 0)
    else if Z.land t 7 =? TYPE_TABLE then
      (Z.shiftr t 3 =? MAX_COOKIE - 1) &&
      match rb with
      | [] => false
      | t :: rb => (Z.land t 7 =? TYPE_NUMBER) && (Z.shiftr t 3 =? 8) && (8 <=? zlen rb) &&
          (let n := dbl_trunc (le_combine (take 8 rb)) in (n <? -2147483648) || (2147483648 <=? n))
      end
    else false
  end.

(** ** The reader on any bytes *)

Section any_bytes.
  Variables (whole : list Z) (Hbytes : Forall is_byte whole).

(** What is left of the stream, at most [n] bytes; the outcome of a read. *)
Definition left_of (n : nat) (rb : list Z) : Prop := rb `suffix_of` whole /\ (length rb <= n)%nat.

Definition undefined_at (f : fault) : Prop :=
  f = OutOfBounds /\ exists rest, rest `suffix_of` whole /\ undefined_item rest = true.

Definition safe {A} (n : nat) (r : lres (A * list Z)) : Prop :=
  match r with LOk (_, rb) => left_of n rb | LErr => True | LFault f => undefined_at f end.

Lemma safe_bind {A B} n n' (m : lres (A * list Z)) (k : A * list Z -> lres (B * list Z)) :
  safe n m -> (forall a rb, left_of n rb -> safe n' (k (a, rb))) -> safe n' (m ≫= k).
Proof. destruct m as [[a rb] | | f]; cbn; auto. Qed.

Lemma safe_map {A B} n (m : lres (A * list Z)) (g : A -> B) : safe n m -> safe n ('(a, rb) ← m; mret (g a, rb)).
Proof. intros Hm. eapply safe_bind; [exact Hm |]. by intros a rb Hl. Qed.

Lemma left_of_byte n t rb : left_of n (t :: rb) -> is_byte t.
Proof.
  intros [[pre ->] _]. clear -Hbytes. apply Forall_app in Hbytes as [_ Hb]. by apply Forall_cons in Hb as [Ht _].
Qed.

Lemma left_of_tail n m t rb : left_of m (t :: rb) -> (length rb <= n)%nat -> left_of n rb.
Proof. intros [Hs _] Hn. split; [| done]. etrans; [| exact Hs]. by apply suffix_cons_r. Qed.

Lemma left_of_weaken n m rb : left_of m rb -> (m <= n)%nat -> left_of n rb.
Proof. intros [Hs Hm] Hn. split; [done | lia]. Qed.

Lemma must_read_cases rb n : 0 <= n ->
  must_read rb n = if zlen rb <? n then LErr else LOk (take (Z.to_nat n) rb, drop (Z.to_nat n) rb).
Proof.
  intros Hn. unfold must_read, rb_read. destruct (Z.ltb_spec n 0); [lia |]. by destruct (zlen rb <? n).
Qed.

Lemma left_of_drop n k rb : left_of n rb -> left_of n (drop k rb).
Proof. intros [Hs Hn]. split; [etrans; [apply suffix_drop | exact Hs] | rewrite length_drop; lia]. Qed.

Lemma must_read_safe rb n k : left_of k rb -> 0 <= n -> safe k (must_read rb n).
Proof. intros Hk Hn. rewrite must_read_cases by done. destruct (_ <? n); [done |]. by apply left_of_drop. Qed.

Lemma get_integer_safe rb c k : left_of k rb -> safe k (_get_integer rb c).
Proof.
  intros Hk. unfold _get_integer. repeat case_match; try done; apply safe_map, must_read_safe; (done || lia).
Qed.

Lemma get_number_safe rb c k : left_of k rb -> safe k (_get_number rb c).
Proof.
  intros Hk. unfold _get_number. destruct (c =? 8); apply safe_map; [by apply must_read_safe | by apply get_integer_safe].
Qed.

Lemma get_buffer_safe rb n k : left_of k rb -> 0 <= n -> safe k (_get_buffer rb n).
Proof. intros Hk Hn. by apply safe_map, must_read_safe. Qed.

Lemma le_combine_nonneg n m rb : left_of m rb -> 0 <= le_combine (take n rb).
Proof.
  intros [[pre ->] _]. clear m. apply Forall_app in Hbytes as [_ Hb]. apply (Forall_take _ n) in Hb.
  induction Hb as [| b l [H0 _] _ IH]; cbn [le_combine]; lia.
Qed.

(** A number of elements read in fewer than eight bytes is an [int]. *)
Lemma get_integer_int rb c n rb' : left_of (length rb) rb -> _get_integer rb c = LOk (n, rb') -> -2147483648 <= n < 2147483648.
Proof.
  intros Hl. unfold _get_integer. destruct (c =? 0); [intros [= <- <-]; lia |].
  assert (Hle : forall k b, b <= 65536 -> (forall l, Forall is_byte l -> (length l <= k)%nat -> le_combine l < b) ->
    ('(bs, rb0) ← must_read rb (Z.of_nat k); mret (le_combine bs, rb0)) = LOk (n, rb') -> -2147483648 <= n < 2147483648).
  { intros k b Hb Hlt. rewrite must_read_cases by lia. destruct (_ <? _); [done |]. rewrite lbind_LOk. intros [= <- <-].
    pose proof (le_combine_nonneg (Z.to_nat (Z.of_nat k)) _ rb Hl).
    assert (le_combine (take (Z.to_nat (Z.of_nat k)) rb) < b); [| lia]. apply Hlt.
    - destruct Hl as [[pre E] _]. clear -E Hbytes. subst whole. apply Forall_app in Hbytes as [_ Hb]. by apply Forall_take.
    - rewrite length_take. lia. }
  destruct (c =? 1).
  { apply (Hle 1%nat 256); [lia |]. intros [| a [|]] Hf Hn; cbn in Hn |- *; try lia. apply Forall_cons in Hf as [[? ?] _]. lia. }
  destruct (c =? 2).
  { apply (Hle 2%nat 65536); [lia |]. intros [| a [| a' [|]]] Hf Hn; cbn in Hn |- *; try lia;
      repeat match goal with H : Forall _ (_ :: _) |- _ => apply Forall_cons in H as [[? ?] ?] end; lia. }
  destruct (c =? 4); [| done]. rewrite must_read_cases by lia. destruct (_ <? _); [done |]. rewrite lbind_LOk.
  intros [= <- <-]. apply i32_range.
Qed.

Lemma table_size_safe t rb m k : left_of m (t :: rb) -> left_of k rb -> Z.land t 7 = TYPE_TABLE ->
  safe k (table_size rb (Z.shiftr t 3)).
Proof.
  intros Hw Hk Ht. unfold table_size. destruct (Z.eqb_spec (Z.shiftr t 3) (MAX_COOKIE - 1)) as [E |]; [| done].
  destruct rb as [| t2 rb2]; [done |]. rewrite must_read_one, lbind_LOk, le_combine_one.
  destruct (Z.eqb_spec (Z.land t2 7) TYPE_NUMBER) as [Et2 |]; [| done]. cbn [negb].
  assert (Hk2 : left_of k rb2) by (apply (left_of_tail _ k t2); [done | destruct Hk; cbn in *; lia]).
  unfold _get_number. destruct (Z.eqb_spec (Z.shiftr t2 3) 8) as [E8 | _].
  - rewrite must_read_cases by lia. destruct (Z.ltb_spec (zlen rb2) 8) as [| Hlen]; [done |]. rewrite !lbind_LOk. unfold dbl_to_int.
    destruct (_ && _) eqn:Er; rewrite ?lbind_LOk; [by apply left_of_drop |].
    split; [done |]. exists (t :: t2 :: rb2). split; [apply Hw |]. unfold undefined_item. rewrite Ht, E, Et2, E8.
    change (Z.to_nat 8) with 8%nat in Er. cbv zeta. cbn [Z.eqb Pos.eqb andb TYPE_TABLE TYPE_LONG_STRING TYPE_NUMBER MAX_COOKIE Z.sub Z.opp Z.add Z.pos_sub Pos.pred_double].
    replace (8 <=? zlen rb2) with true by lia. cbn [andb]. lia.
  - pose proof (get_integer_safe rb2 (Z.shiftr t2 3) k Hk2) as Hg.
    destruct (_get_integer rb2 (Z.shiftr t2 3)) as [[n rb3] | | f] eqn:Eg; cbn in Hg; [| done | done].
    apply get_integer_int in Eg; [| by split; [apply Hk2 |]]. rewrite !lbind_LOk. unfold dbl_to_int.
    pose proof (is_int32_of_int32 n Eg) as Ei. unfold is_int32 in Ei.
    destruct (dbl_integral (of_int32 n)); cbn [andb] in Ei; [| discriminate Ei].
    destruct (andb _ _); [| discriminate Ei]. rewrite lbind_LOk. exact Hg.
Qed.

Lemma push_scalar_safe t rb m k : left_of m (t :: rb) -> left_of k rb ->
  safe k (push_scalar rb (Z.land t 7) (Z.shiftr t 3)).
Proof.
  intros Hw Hk. pose proof (left_of_byte _ _ _ Hw) as [Ht _]. assert (Hc : 0 <= Z.shiftr t 3) by (by apply Z.shiftr_nonneg).
  unfold push_scalar, _get_pointer.
  destruct (_ =? TYPE_NIL); [done |]. destruct (_ =? TYPE_BOOLEAN); [done |].
  destruct (_ =? TYPE_NUMBER); [by apply safe_map, get_number_safe |].
  destruct (_ =? TYPE_USERDATA); [apply safe_map, safe_map; by apply must_read_safe |].
  destruct (_ =? TYPE_SHORT_STRING); [by apply get_buffer_safe |].
  destruct (Z.eqb_spec (Z.land t 7) TYPE_LONG_STRING) as [El |]; [| done].
  destruct (Z.shiftr t 3 =? 2).
  { rewrite must_read_cases by lia. destruct (_ <? 2); [done |]. rewrite lbind_LOk.
    apply get_buffer_safe; [by apply left_of_drop | by eapply le_combine_nonneg]. }
  destruct (Z.eqb_spec (Z.shiftr t 3) 4) as [E4 |]; [| done]. cbn [negb].
  rewrite must_read_cases by lia. destruct (Z.ltb_spec (zlen rb) 4) as [| Hl]; [done |]. rewrite lbind_LOk.
  destruct (Z.ltb_spec (i32 (le_combine (take 4 rb))) 0) as [Hneg | Hpos].
  - unfold _get_buffer, must_read, rb_read. change (Z.to_nat 4) with 4%nat.
    destruct (Z.ltb_spec (i32 (le_combine (take 4 rb))) 0); [| lia]. split; [done |]. exists (t :: rb). split; [apply Hw |].
    unfold undefined_item. rewrite El, E4. cbn [Z.eqb Pos.eqb andb TYPE_LONG_STRING].
    replace (4 <=? zlen rb) with true by lia. by apply Z.ltb_lt.
  - apply get_buffer_safe; [by apply left_of_drop | done].
Qed.

Lemma unpack_safe fuel :
  (forall rb k, left_of (S k) rb -> (2 * k + 2 < fuel)%nat -> safe k (_unpack_one fuel rb)) /\
  (forall n rb k, left_of k rb -> (2 * k + 1 < fuel)%nat -> safe k (unpack_array fuel n rb)) /\
  (forall rb k, left_of k rb -> (2 * k + 1 < fuel)%nat -> safe k (unpack_pairs fuel rb)).
Proof.
  induction fuel as [| fuel (IH1 & IHa & IHp)]; [split; [| split]; intros; lia |]. split; [| split].
  - intros rb k Hk Hf. cbn [_unpack_one]. destruct rb as [| t rb]; [done |]. rewrite must_read_one, lbind_LOk, le_combine_one.
    assert (Hk1 : left_of k rb) by (apply (left_of_tail _ (S k) t); [done | destruct Hk; cbn in *; lia]).
    destruct (Z.eqb_spec (Z.land t 7) TYPE_TABLE) as [Et |]; [| by eapply push_scalar_safe].
    eapply safe_bind; [by eapply table_size_safe |]. intros n rb2 H2. cbn beta iota.
    eapply safe_bind; [apply IHa; [exact H2 | lia] |]. intros arr rb3 H3. cbn beta iota.
    apply safe_map. apply IHp; [exact H3 | lia].
  - intros n rb k Hk Hf. cbn [unpack_array]. destruct (n <=? 0); [done |].
    destruct rb as [| t rb]; [by destruct fuel as [| fuel]; [lia |] |].
    destruct k as [| k]; [destruct Hk; cbn in *; lia |]. eapply (safe_bind k); [apply IH1; [done | lia] |]. intros v rb1 H1. cbn beta iota.
    eapply (safe_bind k); [apply IHa; [exact H1 | lia] |]. intros vs rb2 H2. by eapply left_of_weaken; [exact H2 | lia].
  - intros rb k Hk Hf. cbn [unpack_pairs].
    destruct rb as [| t rb]; [by destruct fuel as [| fuel]; [lia |] |].
    destruct k as [| k]; [destruct Hk; cbn in *; lia |]. eapply (safe_bind k); [apply IH1; [done | lia] |]. intros v rb1 H1. cbn beta iota.
    assert (Hrest : safe (S k) ('(v0, rb) ← _unpack_one fuel rb1;
      if bad_key v then LErr else '(kvs, rb) ← unpack_pairs fuel rb; mret ((v, v0) :: kvs, rb))).
    { eapply (safe_bind k); [apply IH1; [by eapply left_of_weaken; [exact H1 | lia] | lia] |]. intros v1 rb2 H2. cbn beta iota.
      destruct (bad_key v); [done |].
      eapply (safe_bind k); [apply IHp; [exact H2 | lia] |]. intros kvs rb3 H3. by eapply left_of_weaken; [exact H3 | lia]. }
    destruct v; [by eapply left_of_weaken; [exact H1 | lia] | exact Hrest..].
Qed.

Lemma unpack_all_safe fuel : forall rb, rb `suffix_of` whole -> (2 * length rb + 1 < fuel)%nat ->
  match unpack_all fuel rb with LFault f => undefined_at f | _ => True end.
Proof.
  induction fuel as [| fuel IH]; intros rb Hw Hf; [lia |]. cbn [unpack_all]. destruct rb as [| t rb]; [done |].
  cbn [length] in Hf. pose proof (proj1 (unpack_safe fuel) (t :: rb) (length rb) ltac:(by split) ltac:(lia)) as Hs.
  destruct (_unpack_one fuel (t :: rb)) as [[v rb1] | | f]; [| done | exact Hs]. cbn in Hs. rewrite lbind_LOk.
  destruct Hs as [Hs1 Hl]. specialize (IH rb1 Hs1 ltac:(lia)). by destruct (unpack_all fuel rb1).
Qed.
End any_bytes.

(** An undefined item at the head of the stream is met. *)
Lemma undefined_item_faults rb : undefined_item rb = true -> _luaseri_unpack rb = LFault OutOfBounds.
Proof.
  destruct rb as [| t rb]; [done |]. unfold _luaseri_unpack, seri_fuel. set (fuel := (2 * length (t :: rb) + 2)%nat).
  assert (Hf : (fuel = S (S (2 * length rb + 2)))%nat) by (unfold fuel; cbn; lia). rewrite Hf. cbn [unpack_all _unpack_one].
  rewrite must_read_one, lbind_LOk, le_combine_one. unfold undefined_item.
  destruct (Z.eqb_spec (Z.land t 7) TYPE_LONG_STRING) as [-> | _].
  - intros [[E4%Z.eqb_eq El%Z.leb_le]%andb_true_iff En]%andb_true_iff. cbn [Z.eqb TYPE_LONG_STRING TYPE_TABLE Pos.eqb].
    unfold push_scalar. rewrite E4. cbn [Z.eqb TYPE_LONG_STRING TYPE_NIL TYPE_BOOLEAN TYPE_NUMBER TYPE_USERDATA TYPE_SHORT_STRING Pos.eqb negb].
    rewrite must_read_cases by lia. destruct (Z.ltb_spec (zlen rb) 4); [lia |]. rewrite lbind_LOk.
    unfold _get_buffer, must_read, rb_read. change (Z.to_nat 4) with 4%nat. by rewrite En.
  - destruct (Z.land t 7 =? TYPE_TABLE); [| done]. intros [E Hrb]%andb_true_iff. unfold table_size. rewrite E.
    destruct rb as [| t2 rb2]; [done |]. rewrite must_read_one, lbind_LOk, le_combine_one.
    apply andb_true_iff in Hrb as [[[E2 E8]%andb_true_iff El%Z.leb_le]%andb_true_iff En]. rewrite E2. cbn [negb].
    unfold _get_number. rewrite E8, must_read_cases by lia. destruct (Z.ltb_spec (zlen rb2) 8); [lia |]. rewrite !lbind_LOk.
    unfold dbl_to_int. change (Z.to_nat 8) with 8%nat. cbv zeta in En. by replace (_ && _) with false by lia.
Qed.

(** ** The reader makes plain values *)

Fixpoint plain (v : lval) : bool :=
  match v with
  | LOther => false
  | LTable arr pairs => forallb plain arr && forallb (fun kv => plain kv.1 && plain kv.2) pairs
  | _ => true
  end.

Lemma lbind_inv {A B} (m : lres A) (k : A -> lres B) b : (m ≫= k) = LOk b -> exists a, m = LOk a /\ k a = LOk b.
Proof. destruct m as [a | | f]; [by exists a | done | done]. Qed.

Ltac lbind_inv E := let a := fresh "x" in let E1 := fresh "E" in
  apply lbind_inv in E as (a & E1 & E); cbn beta iota in E; repeat match type of E with context [let '(_, _) := ?p in _] => destruct p end.

Lemma push_scalar_plain rb ty c v rb' : push_scalar rb ty c = LOk (v, rb') -> plain v = true.
Proof.
  unfold push_scalar, _get_buffer. intros E. repeat case_match; repeat lbind_inv E; (discriminate E || by injection E as <- _).
Qed.

Lemma unpack_plain fuel :
  (forall rb v rb', _unpack_one fuel rb = LOk (v, rb') -> plain v = true) /\
  (forall n rb vs rb', unpack_array fuel n rb = LOk (vs, rb') -> forallb plain vs = true) /\
  (forall rb kvs rb', unpack_pairs fuel rb = LOk (kvs, rb') -> forallb (fun kv => plain kv.1 && plain kv.2) kvs = true).
Proof.
  induction fuel as [| fuel (IH1 & IHa & IHp)]; [done |]. split; [| split].
  - intros rb v rb' E. cbn [_unpack_one] in E. lbind_inv E. destruct (_ =? TYPE_TABLE); [| by eapply push_scalar_plain].
    lbind_inv E. lbind_inv E. lbind_inv E. injection E as <- _. cbn [plain].
    apply andb_true_iff. split; [by eapply IHa | by eapply IHp].
  - intros n rb vs rb' E. cbn [unpack_array] in E. destruct (n <=? 0); [by injection E as <- _ |].
    lbind_inv E. lbind_inv E. injection E as <- _. cbn [forallb]. apply andb_true_iff. split; [by eapply IH1 | by eapply IHa].
  - intros rb kvs rb' E. cbn [unpack_pairs] in E. lbind_inv E.
    assert (Hk : plain l = true) by (by eapply IH1).
    assert (Hrest : ('(v, rb) ← _unpack_one fuel l0; if bad_key l then LErr else '(kvs, rb) ← unpack_pairs fuel rb; mret ((l, v) :: kvs, rb)) = LOk (kvs, rb') ->
      forallb (fun kv => plain kv.1 && plain kv.2) kvs = true).
    { clear E. intros E. lbind_inv E. destruct (bad_key l); [done |]. lbind_inv E. injection E as <- _. cbn [forallb fst snd].
      rewrite Hk. cbn [andb]. apply andb_true_iff. split; [by eapply IH1 | by eapply IHp]. }
    destruct l; [by injection E as <- _ | by apply Hrest..].
Qed.

Lemma luaseri_unpack_plain bytes vs : _luaseri_unpack bytes = LOk vs -> forallb plain vs = true.
Proof.
  unfold _luaseri_unpack. generalize (seri_fuel bytes). intros fuel. revert bytes vs.
  induction fuel as [| fuel IH]; intros rb vs E; [done |]. cbn [unpack_all] in E. destruct rb as [| t rb]; [by injection E as <- |].
  lbind_inv E. lbind_inv E. injection E as <-. cbn [forallb]. apply andb_true_iff.
  split; [by eapply (proj1 (unpack_plain fuel)) | by eapply IH].
Qed.

(** The outcome of unpacking any bytes. *)
Lemma luaseri_unpack_safe bytes f : Forall is_byte bytes -> _luaseri_unpack bytes = LFault f ->
  f = OutOfBounds /\ exists pre rest, bytes = pre ++ rest /\ undefined_item rest = true.
Proof.
  intros Hb E. pose proof (unpack_all_safe bytes Hb (seri_fuel bytes) bytes ltac:(done) ltac:(unfold seri_fuel; lia)) as Hs.
  unfold _luaseri_unpack in E. rewrite E in Hs. destruct Hs as (-> & rest & [pre ->] & Hr). split; [done |]. by exists pre, rest.
Qed.

(** ** Properties *)

(** C13: packing and unpacking.  Values nested at most 32 deep, with strings and
    tables the format's sizes can describe, are written into the block chain,
    copied into one block and read back: the same values, with numbers equal to
    a 32-bit integer in their standard form (the same number), and tables with
    their array part and the other pairs in the order they were enumerated. *)
Theorem seri_roundtrip undef vs :
  Forall (packable 0) vs -> zlen (vs ≫= enc) < 2147483644 ->
  exists bytes, _luaseri_pack undef vs = LOk bytes /\ _luaseri_unpack bytes = LOk (canon <$> vs) /\
    forall b, is_int32 (canon_num b) = is_int32 b.
Proof.
  intros Hv Hl. exists (vs ≫= enc). split; [by apply luaseri_pack_spec |]. split.
  - apply unpack_all_spec; [done |]. unfold seri_fuel. lia.
  - intros b. unfold canon_num. destruct (is_int32 b) as [x |] eqn:E; [| done].
    by apply is_int32_of_int32, (is_int32_range b).
Qed.

(** One, minus five, 1.5, a long string, a nested table. *)
Definition demo_values : list lval :=
  [LNil; LBool true; LNum 4607182418800017408; LNum 13840687554816376832; LNum 4609434218613702656; LStr [104; 105];
   LStr (replicate 300 7); LUser 4096;
   LTable [LNum 4607182418800017408; LTable [] []]
     [(LNum 4607182418800017408, LNil); (LStr [1], LBool false); (LNum 4609434218613702656, LTable (replicate 40 LNil) [])]].

Lemma packable_table depth arr pairs :
  depth <= MAX_DEPTH -> zlen arr < 2147483648 -> Forall (packable (depth + 1)) arr ->
  Forall (fun kv => kv.1 <> LNil /\ bad_key kv.1 = false /\ packable (depth + 1) kv.1 /\ packable (depth + 1) kv.2) pairs ->
  packable depth (LTable arr pairs).
Proof.
  intros Hd Hn Ha Hp. split; [done |]. split; [done |]. rewrite Forall_forall in Ha. rewrite Forall_forall in Hp. split.
  - intros x (v & -> & Hv)%list_elem_of_fmap. by apply Ha.
  - intros x (kv & -> & Hkv)%list_elem_of_fmap. by apply Hp.
Qed.

Lemma demo_packable : Forall (packable 0) demo_values.
Proof.
  repeat first
    [ apply Forall_nil_2 | apply Forall_replicate | apply Forall_cons_2 | apply packable_table; [vm_compute; congruence | reflexivity | |]
    | split; [discriminate |] | split; [reflexivity |]
    | split; [vm_compute; congruence | vm_compute; intuition congruence]
    | match goal with |- _ /\ packable _ _ => split end ].
  all: first [exact I | reflexivity | vm_compute; reflexivity].
Qed.

Lemma seri_roundtrip_witness :
  exists bytes, _luaseri_pack 99 demo_values = LOk bytes /\ _luaseri_unpack bytes = LOk (canon <$> demo_values).
Proof.
  destruct (seri_roundtrip 99 demo_values demo_packable) as (bytes & E1 & E2 & _); [vm_compute; reflexivity |].
  exists bytes. split; [exact E1 | exact E2].
Defined.


