(* ===== verification/SeriChain.v ===== *)
(** * lua-seri.c: the chain of blocks as an input

    Beside the one buffer of [Seri], rb_read takes its bytes from a chain of blocks,
    which it frees as it goes, and wb_init continues a chain that was closed.
    [chain_read_flat]: reading a chain is reading the buffer it stands for. *)
From S2P Require Import Prelude Buffer Seri.

(** [struct read_block] on a chain: the current block and those behind it, what is
    left, the place in the current block, and the number of blocks freed. *)
Record read_block := RB {
  rb_blocks : list (list Z);
  rb_len : Z;
  rb_ptr : Z;
  rb_freed : nat;
}.

(** The copy into the caller's buffer, from the block behind the current one. *)
Fixpoint copy_blocks (blocks : list (list Z)) (sz len : Z) (freed : nat) : outcome (list Z * read_block) :=
  match blocks with
  | [] => Fault NullDeref
  | _ :: rest =>
    match rest with
    | [] => Fault NullDeref
    | b :: _ =>
      if sz <? BLOCK_SIZE then bs ← acopy_out b 0 sz; mret (bs, RB rest (len - sz) sz (S freed))
      else
        bs ← acopy_out b 0 BLOCK_SIZE;
        r ← copy_blocks rest (sz - BLOCK_SIZE) (len - BLOCK_SIZE) (S freed);
        mret (bs ++ r.1, r.2)
    end
  end.

(** A block that has been read is freed when more is read. *)
Definition settle (rb : read_block) : outcome read_block :=
  if rb_ptr rb =? BLOCK_SIZE then
    match rb_blocks rb with
    | [] => Fault NullDeref
    | _ :: next => mret (RB next (rb_len rb) 0 (S (rb_freed rb)))
    end
  else mret rb.

Definition rb_read (rb : read_block) (sz : Z) : outcome (option (list Z) * read_block) :=
  if rb_len rb <? sz then mret (None, rb)
  else
    rb ← settle rb;
    b ← deref (head (rb_blocks rb));
    let copy := BLOCK_SIZE - rb_ptr rb in
    if sz <=? copy then
      ret ← acopy_out b (rb_ptr rb) sz;
      mret (Some ret, RB (rb_blocks rb) (rb_len rb - sz) (rb_ptr rb + sz) (rb_freed rb))
    else
      bs ← acopy_out b (rb_ptr rb) copy;
      r ← copy_blocks (rb_blocks rb) (sz - copy) (rb_len rb - copy) (rb_freed rb);
      mret (Some (bs ++ r.1), r.2).

Definition rb_close (rb : read_block) : read_block := RB [] 0 0 (rb_freed rb + length (rb_blocks rb)).

(** The number of blocks that are freed. *)
Definition wb_free (wb : write_block) : nat * write_block := (length (chain wb), WB [] 0 0 0).

(** [wb_init(wb, b)] for a chain [b]. *)
Definition wb_reopen (blocks : list (list Z)) : outcome write_block :=
  b ← deref (head blocks);
  hd ← acopy_out b 0 4;
  let sz := i32 (le_combine hd) in
  mret (WB blocks (pred (length blocks)) sz (sz - BLOCK_SIZE * Z.of_nat (pred (length blocks)))).

(** ** Reading *)

(** [bytes] are left in the chain, and there is a byte behind them. *)
Record stands_for (bytes : list Z) (rb : read_block) : Prop := {
  sf_blocks : Forall (fun b => zlen b = BLOCK_SIZE) (rb_blocks rb);
  sf_len : rb_len rb = zlen bytes;
  sf_ptr : 0 <= rb_ptr rb <= BLOCK_SIZE;
  sf_bytes : exists tail, drop (Z.to_nat (rb_ptr rb)) (concat (rb_blocks rb)) = bytes ++ tail /\ tail <> [];
}.

(** The common prefix of two splittings of the same bytes. *)
Lemma app_split_le {A} (l1 l2 m1 m2 : list A) : l1 ++ l2 = m1 ++ m2 -> (length l1 <= length m1)%nat ->
  exists k, m1 = l1 ++ k /\ l2 = k ++ m2.
Proof.
  intros E Hl. exists (drop (length l1) m1). apply (f_equal (take (length l1))) in E as Et.
  rewrite take_app_length, take_app_le in Et by done. split; [by rewrite Et at 1; rewrite take_drop |].
  apply (f_equal (drop (length l1))) in E. by rewrite drop_app_length, drop_app_le in E.
Qed.

Lemma copy_blocks_next b0 b blocks sz len freed :
  copy_blocks (b0 :: b :: blocks) sz len freed =
    if sz <? BLOCK_SIZE then bs ← acopy_out b 0 sz; mret (bs, RB (b :: blocks) (len - sz) sz (S freed))
    else
      bs ← acopy_out b 0 BLOCK_SIZE;
      r ← copy_blocks (b :: blocks) (sz - BLOCK_SIZE) (len - BLOCK_SIZE) (S freed);
      mret (bs ++ r.1, r.2).
Proof. reflexivity. Qed.

Lemma copy_blocks_spec b0 blocks bytes more sz freed :
  Forall (fun b => zlen b = BLOCK_SIZE) blocks -> zlen bytes = sz ->
  (exists tail, concat blocks = bytes ++ more ++ tail /\ tail <> []) ->
  exists rb, copy_blocks (b0 :: blocks) sz (sz + zlen more) freed = Ok (bytes, rb) /\ stands_for more rb /\
    (rb_freed rb + length (rb_blocks rb) = freed + S (length blocks))%nat.
Proof.
  revert b0 bytes sz freed. induction blocks as [| b blocks IH]; intros b0 bytes sz freed F Hsz (tail & E & Ht).
  { cbn in E. symmetry in E. apply app_nil in E as [_ E]. by apply app_nil in E as [_ ->]. }
  apply Forall_cons in F as [Hb F]. pose proof (zlen_nonneg bytes). rewrite copy_blocks_next.
  cbn [concat] in E. destruct (Z.ltb_spec sz BLOCK_SIZE) as [Hlt | Hge].
  - assert (Eb : take (Z.to_nat sz) b = bytes).
    { apply (f_equal (take (Z.to_nat sz))) in E. subst sz. unfold zlen in *.
      rewrite Nat2Z.id, take_app_length, take_app_le in E by lia. by rewrite Nat2Z.id. }
    rewrite acopy_out_Ok, bind_Ok by (unfold BLOCK_SIZE in *; lia). change (drop (Z.to_nat 0) b) with b. rewrite Eb.
    eexists. split; [reflexivity |]. split; [| cbn; lia]. split; cbn [rb_blocks rb_len rb_ptr].
    + by constructor.
    + lia.
    + lia.
    + exists tail. split; [| done]. subst sz. unfold zlen. rewrite Nat2Z.id. cbn [concat]. by rewrite E, drop_app_length.
  - destruct (app_split_le _ _ _ _ E) as (bytes' & -> & E'); [unfold zlen, BLOCK_SIZE in *; lia |]. rewrite zlen_app in Hsz.
    rewrite acopy_out_Ok, bind_Ok by (unfold BLOCK_SIZE in *; lia). change (drop (Z.to_nat 0) b) with b.
    rewrite take_ge by (unfold zlen, BLOCK_SIZE in *; lia).
    destruct (IH b bytes' (sz - BLOCK_SIZE) (S freed) F ltac:(lia) ltac:(by exists tail)) as (rb & Er & Sf & Hn).
    replace (sz + zlen more - BLOCK_SIZE) with (sz - BLOCK_SIZE + zlen more) by lia.
    rewrite Er, bind_Ok. exists rb. split; [done |]. split; [done |]. cbn [length]. lia.
Qed.

Lemma settle_spec bytes rb tail :
  Forall (fun b => zlen b = BLOCK_SIZE) (rb_blocks rb) -> 0 <= rb_ptr rb <= BLOCK_SIZE ->
  drop (Z.to_nat (rb_ptr rb)) (concat (rb_blocks rb)) = bytes ++ tail -> tail <> [] ->
  exists b next ptr n, settle rb = Ok (RB (b :: next) (rb_len rb) ptr n) /\ 0 <= ptr < BLOCK_SIZE /\ zlen b = BLOCK_SIZE /\
    Forall (fun b => zlen b = BLOCK_SIZE) next /\ drop (Z.to_nat ptr) b ++ concat next = bytes ++ tail /\
    (n + S (length next) = rb_freed rb + length (rb_blocks rb))%nat.
Proof.
  intros F Hp E Ht. assert (Hne : bytes ++ tail <> []) by by intros [_ ?]%app_nil.
  unfold settle. destruct rb as [blocks len ptr n]; cbn [rb_blocks rb_len rb_ptr rb_freed] in *.
  destruct blocks as [| b next]; [cbn in E; rewrite drop_nil in E; by rewrite <- E in Hne |].
  apply Forall_cons in F as [Hb F]. cbn [concat] in E. destruct (Z.eqb_spec ptr BLOCK_SIZE) as [-> | Hne1].
  - rewrite drop_app_length' in E by (unfold zlen in Hb; lia).
    destruct next as [| b1 next]; [cbn in E; by rewrite <- E in Hne |]. apply Forall_cons in F as [Hb1 F].
    exists b1, next, 0, (S n). split; [done |]. split; [unfold BLOCK_SIZE; lia |]. split; [done |]. split; [done |].
    split; [exact E |]. cbn. lia.
  - exists b, next, ptr, n. split; [done |]. split; [lia |]. split; [done |]. split; [done |]. split; [| cbn; lia].
    rewrite drop_app_le in E by (unfold zlen, BLOCK_SIZE in *; lia). exact E.
Qed.

(** A chain reads like the buffer it stands for, and no block is freed twice. *)
Theorem chain_read_flat bytes rb sz : stands_for bytes rb -> 0 <= sz ->
  match Seri.rb_read bytes sz with
  | LOk None => rb_read rb sz = Ok (None, rb)
  | LOk (Some (got, rest)) => exists rb', rb_read rb sz = Ok (Some got, rb') /\ stands_for rest rb' /\
      (rb_freed rb' + length (rb_blocks rb') = rb_freed rb + length (rb_blocks rb))%nat
  | _ => False
  end.
Proof.
  intros [F El Hp (tail & E & Ht)] Hsz. unfold Seri.rb_read, rb_read. destruct (Z.ltb_spec sz 0); [lia |].
  rewrite El. destruct (Z.ltb_spec (zlen bytes) sz) as [| Hle]; [done |]. cbn [mret lres_ret].
  set (got := take (Z.to_nat sz) bytes). set (rest := drop (Z.to_nat sz) bytes).
  assert (Hg : zlen got = sz) by (apply zlen_take; lia).
  assert (Hr : zlen bytes = sz + zlen rest) by (unfold rest; rewrite zlen_drop by lia; lia).
  assert (Eb : bytes = got ++ rest) by (unfold got, rest; by rewrite take_drop).
  rewrite Eb, <- app_assoc in E.
  destruct (settle_spec got rb (rest ++ tail) F Hp E ltac:(by intros [_ ?]%app_nil))
    as (b & next & ptr & n & -> & Hptr & Hb & Fn & En & Hn). rewrite bind_Ok.
  cbn [rb_blocks rb_len rb_ptr rb_freed head deref]. rewrite bind_Ok. cbv zeta.
  assert (Hd : zlen (drop (Z.to_nat ptr) b) = BLOCK_SIZE - ptr) by (rewrite zlen_drop; lia).
  destruct (Z.leb_spec sz (BLOCK_SIZE - ptr)) as [Hfit | Hlong].
  - rewrite acopy_out_Ok, bind_Ok by lia.
    symmetry in En. destruct (app_split_le _ _ _ _ En) as (k & Ek & El'); [unfold zlen in *; lia |].
    rewrite Ek, take_app_length' by (unfold zlen in Hg; lia).
    eexists. split; [reflexivity |]. split; [| cbn; lia]. split; cbn [rb_blocks rb_len rb_ptr]; [by constructor | lia | lia |].
    exists tail. split; [| done]. cbn [concat]. rewrite drop_app_le by (unfold zlen, BLOCK_SIZE in *; lia).
    replace (Z.to_nat (ptr + sz)) with (Z.to_nat ptr + Z.to_nat sz)%nat by lia.
    rewrite <- drop_drop, Ek, drop_app_length' by (unfold zlen in Hg; lia). done.
  - rewrite acopy_out_Ok, bind_Ok by lia. rewrite take_ge by (unfold zlen in *; lia).
    destruct (app_split_le _ _ _ _ En) as (got' & Eg & En'); [unfold zlen in *; lia |].
    assert (Hg' : zlen got' = sz - (BLOCK_SIZE - ptr)) by (rewrite <- Hg, Eg, zlen_app; lia).
    destruct (copy_blocks_spec b next got' rest _ n Fn Hg' ltac:(by exists tail)) as (rb' & Er & Sf & Hf).
    replace (rb_len rb - (BLOCK_SIZE - ptr)) with (sz - (BLOCK_SIZE - ptr) + zlen rest) by lia.
    rewrite Er, bind_Ok. exists rb'. rewrite Eg. split; [done |]. split; [done |]. lia.
Qed.

Lemma rb_close_frees rb : rb_freed (rb_close rb) = (rb_freed rb + length (rb_blocks rb))%nat /\ rb_blocks (rb_close rb) = [].
Proof. done. Qed.

(** A read that ends with the last block, having begun in an earlier one, goes on to
    the next, which there is not. *)
Lemma read_past_the_chain b1 b2 : zlen b1 = BLOCK_SIZE -> zlen b2 = BLOCK_SIZE ->
  rb_read (RB [b1; b2] 129 127 0) 129 = Fault NullDeref.
Proof.
  intros H1 H2. unfold rb_read. change (settle _) with (Ok (RB [b1; b2] 129 127 0)). rewrite bind_Ok.
  cbn [rb_len rb_ptr rb_blocks rb_freed head deref]. change (129 <? 129) with false. cbv iota. rewrite bind_Ok. cbv zeta.
  change (129 <=? BLOCK_SIZE - 127) with false. cbv iota. rewrite acopy_out_Ok, bind_Ok by (unfold BLOCK_SIZE in *; lia).
  rewrite copy_blocks_next. change (129 - (BLOCK_SIZE - 127) <? BLOCK_SIZE) with false. cbv iota.
  by rewrite acopy_out_Ok, bind_Ok by (unfold BLOCK_SIZE in *; lia).
Qed.

(** ** Continuing a chain *)

(** Writing to a chain that was closed goes on where it ended; the four bytes in
    front are the length it was closed with. *)
Lemma wb_reopen_spec undef bytes b blocks :
  holds ([0; 0; 0; 0] ++ bytes) b -> zlen bytes < 2147483644 -> wb_close undef b = Ok blocks ->
  exists b', wb_reopen blocks = Ok b' /\ holds (le_split 4 (4 + zlen bytes) ++ bytes) b'.
Proof.
  intros Hb Hmax Hclose. pose proof (zlen_nonneg bytes). set (hd := le_split 4 (4 + zlen bytes)).
  assert (Lh : zlen hd = 4) by (unfold zlen, hd; by rewrite le_split_length).
  assert (Hd : i32 (le_combine hd) = 4 + zlen bytes).
  { unfold hd. rewrite le_combine_split by (change (256 ^ Z.of_nat 4) with 4294967296; lia). apply i32_small. lia. }
  assert (La : zlen ([0; 0; 0; 0] ++ bytes) = 4 + zlen bytes) by by rewrite zlen_app.
  inversion Hb as [init cur ptr Hi Hc Hp E Eb]. rewrite La in Eb. subst b. unfold wb_close in Hclose. cbn [chain wb_len] in Hclose.
  fold hd in Hclose. clearbody hd.
  assert (Hopen : forall b0 rest, zlen b0 = BLOCK_SIZE -> init ++ [cur] = b0 :: rest ->
    blocks = (hd ++ drop 4 b0) :: rest /\ wb_reopen blocks =
      Ok (WB blocks (length init) (4 + zlen bytes) (4 + zlen bytes - BLOCK_SIZE * Z.of_nat (length init)))).
  { intros b0 rest H0 Es. rewrite Es, (push_head _ _ _ _ _ H0 Lh), bind_Ok in Hclose. cbn [chain] in Hclose.
    injection Hclose as <-. split; [done |]. unfold wb_reopen. cbn [head deref]. rewrite bind_Ok.
    pose proof (acopy_out_app [] hd (drop 4 b0)) as Eo. cbn [app] in Eo. rewrite Lh in Eo. change (zlen []) with 0 in Eo.
    rewrite Eo, bind_Ok, Hd. assert (El : length init = length rest).
    { apply (f_equal length) in Es. rewrite length_app in Es. cbn in Es. lia. }
    cbn [length pred]. by rewrite El. }
  assert (Lz : zlen (concat init) = BLOCK_SIZE * Z.of_nat (length init)).
  { clear - Hi. induction Hi as [| x l Hx _ IH]; [done |]. cbn [concat length]. rewrite zlen_app, Hx, IH. lia. }
  assert (Lp : 4 + zlen bytes = zlen (concat init) + ptr) by (rewrite <- La, E, zlen_app, zlen_take; lia).
  assert (Hn : zlen (hd ++ bytes) = 4 + zlen bytes) by (rewrite zlen_app; lia).
  assert (Eb : bytes = drop 4 (concat init ++ take (Z.to_nat ptr) cur)) by by rewrite <- E.
  assert (L4 : forall b0, zlen b0 = BLOCK_SIZE -> zlen (hd ++ drop 4 b0) = BLOCK_SIZE).
  { intros b0 H0. rewrite zlen_app. unfold zlen, BLOCK_SIZE in *. rewrite length_drop. lia. }
  clear E Hclose Hb. destruct init as [| b0 init].
  - destruct (Hopen cur [] Hc eq_refl) as [-> ->]. eexists. split; [reflexivity |]. cbn [length] in *. rewrite <- Hn.
    replace (zlen (hd ++ bytes) - BLOCK_SIZE * Z.of_nat 0) with ptr by lia.
    apply (Holds _ [] (hd ++ drop 4 cur) ptr); [constructor | by apply L4 | done |]. cbn [concat app] in Eb |- *.
    change (zlen (concat [])) with 0 in Lp. rewrite take_app_ge by (unfold zlen in *; lia). f_equal.
    rewrite Eb, skipn_firstn_comm. f_equal. unfold zlen in *. lia.
  - apply Forall_cons in Hi as [H0 Hi]. destruct (Hopen b0 (init ++ [cur]) H0 eq_refl) as [-> ->].
    eexists. split; [reflexivity |]. rewrite <- Hn.
    replace (zlen (hd ++ bytes) - BLOCK_SIZE * Z.of_nat (length (b0 :: init))) with ptr by (rewrite Hn, Lp, Lz; lia).
    apply (Holds _ ((hd ++ drop 4 b0) :: init) cur ptr); [| done | done |].
    + apply Forall_cons. split; [by apply L4 | done].
    + rewrite Eb. cbn [concat]. rewrite <- !app_assoc, drop_app_le by (unfold zlen, BLOCK_SIZE in *; lia). done.
Qed.
