(* ===== verification/Cmd.v ===== *)
(** * z.c: the commands of actors

    An actor asks the server for something with the name of a command and a text
    of parameters, and gets a text back or [NULL].  The commands work on the
    contexts ([WorkerPool]) and on the timers ([Timer]). *)
From S2P Require Import Prelude CString Ae AeEpoll Dict Timer Fifo LockFree Define Context WorkerPool.

Section Cmd.
  Context {Q G K : Type} `{FifoLaws Q message} `{FifoLaws G nat} `{AeApi K}.

(** The server, as far as commands use it; [em_accepts]: whether the event queue of the timer thread has room. *)
Record server := Server {
  s_pool : pool Q G;
  s_timer : timer K;
  em_accepts : bool;
}.

Definition on_pool {A} (m : ST (pool Q G) A) : ST server A := fun s =>
  r ← m (s_pool s); Ok (r.1, Server r.2 (s_timer s) (em_accepts s)).
Definition on_sys {A} (m : ST (sys Q) A) : ST server A := on_pool (on_base m).

  (** What [moduleQuery] and [moduleInstanceCreate] answer for a name; the [Init] of
      a module, run on a context with the parameters; the queue
      [messageQueueCreate] makes; the environment. *)
  Variables (module_ok inst_ok : list Z -> bool) (module_init : list Z -> nat -> option (list Z) -> ST server Z)
    (new_queue : Q) (envGet : list Z -> list Z -> list Z).

Definition zSend (ctx : option nat) (from to session type : Z) (dat : option (list Z)) (sz : Z) : ST server Z :=
  on_pool (workerPoolSend ctx (u32 from) (u32 to) session type dat sz 0).

Definition zSendx (ctx : option nat) (from to session type : Z) (dat : option (list Z)) (sz ud : Z) : ST server Z :=
  on_pool (workerPoolSend ctx from to session type dat sz ud).

(** The identifiers a message can be sent to. *)
Definition reachable (p : pool Q G) (to : Z) : bool :=
  negb (u32 to =? 0) && match aget (contexts (base p)) (u32 to mod setsize (base p)) with Ok (Some _) => true | _ => false end.

(** The responses [Timer] sent since there were [n] of them. *)
Fixpoint forward (rs : list (Z * Z)) : ST server unit :=
  match rs with
  | [] => mret tt
  | (to, sess) :: rs => _ ← zSend None 0 to sess MSG_TYPE_RESPONSE None 0; forward rs
  end.

Definition on_timer {A} (m : bool -> (Z -> bool) -> timer K -> A * timer K) : ST server A :=
  s ← st_get;
  let r := m (em_accepts s) (reachable (s_pool s)) (s_timer s) in
  _ ← st_modify (fun s => Server (s_pool s) r.2 (em_accepts s));
  _ ← forward (drop (length (responses (s_timer s))) (responses r.2));
  mret r.1.

(** ** The commands *)

Definition blanks : list Z := [32; 9; 13; 10].

Definition put_result (ctx : nat) (text : list Z) : ST server (option (list Z)) :=
  c ← on_sys (load ctx);
  _ ← on_sys (store ctx (set_c_result c (snprintf 32 text)));
  mret (Some (snprintf 32 text)).

Definition zLauchCmd (ctx : nat) (cmd param : list Z) : ST server (option (list Z)) :=
  let '(md, args) := strsep (Some param) blanks in
  let '(args, _) := strsep args [13; 10] in
  md ← st_lift (deref md);
  inst ← ctxMgrCreateContext (@on_sys) (module_ok md) (inst_ok md) new_queue (fun inst => module_init md inst args);
  match inst with
  | None => mret None
  | Some inst => c ← on_sys (load inst); put_result ctx (print_d (i32 (c_id c)))
  end.

Definition zGetEnvCmd (ctx : nat) (cmd param : list Z) : ST server (option (list Z)) :=
  mret (Some (envGet param [])).

Definition zTimeoutCmd (ctx : nat) (cmd param : list Z) : ST server (option (list Z)) :=
  let '(time, timeStr) := strtol param in
  let '(noMore, _) := strtol timeStr in
  session ← on_sys (contextNewsession ctx);
  c ← on_sys (load ctx);
  sn ← on_timer (fun accepts alive =>
         timerTimeout alive accepts (i32 (c_id c)) (i32 time) session (i32 noMore));
  put_result ctx (print_d (i32 session) ++ [32] ++ print_d sn).

Definition zTimerCancel (ctx : nat) (cmd param : list Z) : ST server (option (list Z)) :=
  let '(id, _) := strtol param in
  _ ← on_timer (fun accepts _ t => (tt, timerCancel accepts (u32 id) t));
  mret None.

Definition zExitCmd (ctx : nat) (cmd param : list Z) : ST server (option (list Z)) :=
  let '(to, _) := strtol param in
  _ ← on_pool (workerPoolSend (Some ctx) 0 (u32 (i32 to)) 0 MSG_TYPE_EXIT_CONTEXT None 0 0);
  mret None.

(** The condition tests [ctx], which is never [NULL], and not [toctx]. *)
Definition zQueueLenCmd (ctx : nat) (cmd param : list Z) : ST server (option (list Z)) :=
  let '(to, _) := strtol param in
  toctx ← on_sys (ctxMgrGetContext (u32 (i32 to)));
  toctx ← st_lift (deref toctx);
  c ← on_sys (load toctx);
  _ ← put_result toctx (print_d (i32 (zlen (q_elems (c_queue c)))));
  _ ← on_sys (ctxMgrReleaseContext toctx);
  c ← on_sys (load toctx);
  mret (Some (c_result c)).

Definition cmdFunc : list (list Z * (nat -> list Z -> list Z -> ST server (option (list Z)))) :=
  [(str "LAUNCH", zLauchCmd); (str "GETENV", zGetEnvCmd); (str "TIMEOUT", zTimeoutCmd);
   (str "TIMECANCEL", zTimerCancel); (str "EXIT", zExitCmd); (str "QLEN", zQueueLenCmd)].

Fixpoint dispatch (methods : list (list Z * (nat -> list Z -> list Z -> ST server (option (list Z)))))
    (ctx : nat) (cmd param : list Z) : ST server (option (list Z)) :=
  match methods with
  | [] => mret None
  | (name, func) :: methods =>
    if decide (cmd = name) then func ctx cmd param else dispatch methods ctx cmd param
  end.

Definition zCommand (ctx : nat) (cmd param : list Z) : ST server (option (list Z)) :=
  dispatch cmdFunc ctx cmd param.

Definition zSetCallback (ctx : nat) (cb : bool) : ST server unit := on_sys (contextSetCallback ctx cb).
End Cmd.
Arguments server : clear implicits.

(** ** What the commands do *)

Section commands.
  Context {Q G K : Type} `{FifoLaws Q message} `{FifoLaws G nat} `{AeApi K}.
  Variables (module_ok inst_ok : list Z -> bool)
    (module_init : list Z -> nat -> option (list Z) -> ST (server Q G K) Z)
    (new_queue : Q) (envGet : list Z -> list Z -> list Z).
  Implicit Types s : server Q G K.
  Abbreviation zCommand := (zCommand module_ok inst_ok module_init new_queue envGet).

Definition sys_of s : sys Q := base (s_pool s).
Definition with_sys s (b : sys Q) : server Q G K := Server (with_base (s_pool s) b) (s_timer s) (em_accepts s).

Lemma on_sys_Ok {A} (m : ST (sys Q) A) s r b : m (sys_of s) = Ok (r, b) -> on_sys m s = Ok (r, with_sys s b).
Proof. intros E. unfold on_sys, on_pool. by rewrite (on_base_Ok _ _ _ _ E). Qed.

Lemma on_sys_load a s c : heap (sys_of s) !! a = Some c -> on_sys (load a) s = Ok (c, s).
Proof. intros E. rewrite (on_sys_Ok _ _ _ _ (load_Ok _ _ _ E)). by destruct s as [[b g r] t e]. Qed.

Lemma put_result_Ok ctx text s c : heap (sys_of s) !! ctx = Some c -> zlen text < 32 ->
  put_result ctx text s =
    Ok (Some text, with_sys s (with_heap (sys_of s) (<[ctx := set_c_result c text]> (heap (sys_of s))))).
Proof.
  intros E Hl. unfold put_result. rewrite (st_bind_Ok _ _ _ _ _ (on_sys_load _ _ _ E)), snprintf_fits by done.
  by rewrite (st_bind_Ok _ _ _ _ _ (on_sys_Ok (store ctx (set_c_result c text)) s tt _ eq_refl)).
Qed.

Lemma print_short n : -2147483648 <= n < 2147483648 -> zlen (print_d n) <= 11.
Proof. intros Hn. pose proof (print_d_length n Hn). unfold zlen. lia. Qed.

Lemma blank_space sp : Forall (fun c => c ∈ blanks) sp -> Forall (fun c => isspace c = true) sp.
Proof.
  intros HF. eapply Forall_impl; [exact HF |]. intros c Hc. unfold blanks in Hc.
  repeat (apply elem_of_cons in Hc as [-> | Hc]; [done |]). by apply not_elem_of_nil in Hc.
Qed.

Lemma blank_not_digit sp rest : sp <> [] -> Forall (fun c => c ∈ blanks) sp ->
  match sp ++ rest with [] => True | c :: _ => isdigit c = false end.
Proof.
  intros Hn HF. destruct sp as [| c sp]; [done |]. apply Forall_cons in HF as [Hc _]. unfold blanks in Hc.
  cbn [app]. repeat (apply elem_of_cons in Hc as [-> | Hc]; [done |]). by apply not_elem_of_nil in Hc.
Qed.

Lemma read_int n rest : -2147483648 <= n < 2147483648 ->
  match rest with [] => True | c :: _ => isdigit c = false end -> strtol (print_d n ++ rest) = (n, rest).
Proof. intros Hn Hr. apply (strtol_print_d [] n rest); [lia | constructor | done]. Qed.

(** The number is read back from what a command printed. *)
Lemma read_back n : -2147483648 <= n < 2147483648 -> strtol (print_d n) = (n, []).
Proof. intros Hn. pose proof (read_int n [] Hn I) as E. by rewrite app_nil_r in E. Qed.

Lemma on_timer_silent {A} (m : bool -> (Z -> bool) -> timer K -> A * timer K) s :
  responses (m (em_accepts s) (reachable (s_pool s)) (s_timer s)).2 = responses (s_timer s) ->
  let r := m (em_accepts s) (reachable (s_pool s)) (s_timer s) in
  on_timer m s = Ok (r.1, Server (s_pool s) r.2 (em_accepts s)).
Proof.
  intros E r. unfold on_timer. erewrite st_bind_Ok by reflexivity. fold r in E |- *.
  erewrite st_bind_Ok by reflexivity. by rewrite E, drop_all.
Qed.

(** The timer [TIMEOUT] sets. *)
Definition timer_of (t : timer K) (e : timerEvent) : timer K :=
  Timer (Timer.base t) (timerDict t) (tsn t +u 1) (requests t ++ [e]) (responses t).

Lemma newSn_range (t : timer K) : 0 <= (timerNewSn t).1 < 2147483648.
Proof. unfold timerNewSn. cbn [fst]. rewrite (Z.land_ones _ 31 ltac:(lia)). apply Z.mod_pos_bound. lia. Qed.

(** [TIMEOUT] after its session is taken: what the timer answers is printed. *)
Definition renewed s ctx (c : context Q) : server Q G K :=
  with_sys s (with_heap (sys_of s) (<[ctx := set_c_sessionid c (c_sessionid c + 1)]> (heap (sys_of s)))).

Definition set_timer (c : context Q) (time noMore : Z) : ST (server Q G K) Z :=
  on_timer (fun accepts alive => timerTimeout alive accepts (i32 (c_id c)) time (c_sessionid c) noMore).

Lemma zTimeoutCmd_timer ctx c cmd param time rest noMore rest' s :
  heap (sys_of s) !! ctx = Some c -> 0 < c_sessionid c < 2147483648 ->
  strtol param = (time, rest) -> strtol rest = (noMore, rest') ->
  zTimeoutCmd ctx cmd param s = (sn ← set_timer c (i32 time) (i32 noMore);
    put_result ctx (print_d (c_sessionid c) ++ [32] ++ print_d sn)) (renewed s ctx c).
Proof.
  intros Ec Hs E1 E2. unfold zTimeoutCmd. rewrite E1, E2.
  rewrite (st_bind_Ok _ _ _ _ _ (on_sys_Ok _ _ _ _ (contextNewsession_counts ctx (sys_of s) c Ec ltac:(lia)))).
  fold (renewed s ctx c).
  assert (Ec0 : heap (sys_of (renewed s ctx c)) !! ctx = Some (set_c_sessionid c (c_sessionid c + 1))) by apply lookup_insert_eq.
  rewrite (st_bind_Ok _ _ _ _ _ (on_sys_load ctx _ _ Ec0)), i32_small by lia. reflexivity.
Qed.

Lemma zTimeoutCmd_answers ctx c cmd param time rest noMore rest' s sn s1 c1 :
  heap (sys_of s) !! ctx = Some c -> 0 < c_sessionid c < 2147483648 ->
  strtol param = (time, rest) -> strtol rest = (noMore, rest') ->
  set_timer c (i32 time) (i32 noMore) (renewed s ctx c) = Ok (sn, s1) ->
  heap (sys_of s1) !! ctx = Some c1 -> -2147483648 <= sn < 2147483648 ->
  let text := print_d (c_sessionid c) ++ [32] ++ print_d sn in
  zTimeoutCmd ctx cmd param s =
    Ok (Some text, with_sys s1 (with_heap (sys_of s1) (<[ctx := set_c_result c1 text]> (heap (sys_of s1))))).
Proof.
  intros Ec Hs E1 E2 Eo Ec1 Hsn text. rewrite (zTimeoutCmd_timer _ _ _ _ _ _ _ _ _ Ec Hs E1 E2).
  rewrite (st_bind_Ok _ _ _ _ _ Eo). fold text.
  pose proof (print_short (c_sessionid c) ltac:(lia)). pose proof (print_short sn Hsn).
  apply put_result_Ok; [done |]. unfold text. rewrite !zlen_app. change (zlen [32]) with 1. lia.
Qed.

(** A timer that is set: the request is posted if the queue has room. *)
Lemma set_timer_posts c time noMore s : time <> 0 ->
  let sn := (timerNewSn (s_timer s)).1 in
  let e := TimerEvent sn (i32 (c_id c)) (c_sessionid c) time noMore 0 in
  let posted := if em_accepts s then [e] else [] in
  set_timer c time noMore s = Ok (if em_accepts s then sn else -1,
    Server (s_pool s) (Timer (Timer.base (s_timer s)) (timerDict (s_timer s)) (tsn (s_timer s) +u 1)
      (requests (s_timer s) ++ posted) (responses (s_timer s))) (em_accepts s)).
Proof.
  intros Ht sn e posted. unfold set_timer. pose proof (newSn_range (s_timer s)) as Hsn. fold sn in Hsn.
  assert (E : timerTimeout (reachable (s_pool s)) (em_accepts s) (i32 (c_id c)) time (c_sessionid c) noMore (s_timer s) =
    (if em_accepts s then sn else -1, Timer (Timer.base (s_timer s)) (timerDict (s_timer s)) (tsn (s_timer s) +u 1)
      (requests (s_timer s) ++ posted) (responses (s_timer s)))).
  { unfold timerTimeout, post, posted. destruct (Z.eqb_spec time 0); [done |]. cbn [timerNewSn fst snd].
    destruct (em_accepts s); cbn [fst snd Z.ltb Z.compare]; [done |]. by rewrite app_nil_r. }
  rewrite on_timer_silent by (by rewrite E). by rewrite E.
Qed.

(** A delay of zero: the response is sent at once. *)
Lemma set_timer_now a c noMore s c0 ok q : tbl_ok (sys_of s) -> registered (sys_of s) (c_id c) a ->
  0 < c_id c < 2147483648 -> 0 < c_sessionid c < 2147483648 ->
  heap (sys_of s) !! a = Some c0 -> 1 <= c_ref c0 < 4294967295 -> c_inGlobal c0 = 0 \/ c_inGlobal c0 = 1 ->
  q_wf (gqueue (s_pool s)) -> q_wf (c_queue c0) ->
  let m := Message 0 (c_sessionid c) MSG_TYPE_RESPONSE 0 0 None in
  q_push m (c_queue c0) = Ok (ok, q) ->
  if (ok : bool) then exists s1, set_timer c 0 noMore s = Ok (0, s1) /\ delivered (s_pool s) (s_pool s1) a c0 m /\
    requests (s_timer s1) = requests (s_timer s) /\ responses (s_timer s1) = responses (s_timer s) ++ [(c_id c, c_sessionid c)]
  else set_timer c 0 noMore s = Fault AssertFailed.
Proof.
  intros T [Hslot _] Hid Hs Ec Hr Hi Wg Wq m Ep. unfold set_timer, on_timer. rewrite i32_small by lia.
  pose proof (tk_size _ T) as Hsz. pose proof (Z.mod_pos_bound (c_id c) (setsize (sys_of s)) Hsz) as Hm.
  assert (Ea : aget (contexts (sys_of s)) (c_id c mod setsize (sys_of s)) = Ok (Some a)).
  { destruct (aget_is_Ok (contexts (sys_of s)) (c_id c mod setsize (sys_of s))) as (o & Eo & Eg); [by rewrite (tk_len _ T) |].
    rewrite Eg. rewrite Hslot in Eo. by injection Eo as <-. }
  erewrite st_bind_Ok by reflexivity. set (r := timerTimeout _ _ _ _ _ _ _).
  assert (Er : r = (0, Timer (Timer.base (s_timer s)) (timerDict (s_timer s)) (tsn (s_timer s)) (requests (s_timer s))
    (responses (s_timer s) ++ [(c_id c, c_sessionid c)]))).
  { unfold r, timerTimeout, respond, reachable. cbn [Z.eqb]. change (base (s_pool s)) with (sys_of s).
    rewrite u32_small, Ea by lia. destruct (Z.eqb_spec (c_id c) 0); [lia |]. cbn [negb andb fst snd].
    rewrite i32_small by lia. destruct (Z.ltb_spec (c_sessionid c) 0); [lia | done]. }
  rewrite Er. erewrite st_bind_Ok by reflexivity. cbn [snd fst responses].
  replace (drop _ _) with [(c_id c, c_sessionid c)] by by rewrite drop_app_length.
  destruct ok.
  2: { cbn [forward]. unfold zSend, on_pool, mbind, st_bind. cbn [s_pool s_timer em_accepts]. change (u32 0) with 0.
    rewrite (u32_small (c_id c)) by lia. by rewrite (workerPoolSend_refused (s_pool s) None None 0 (c_id c) (c_sessionid c)
      MSG_TYPE_RESPONSE None 0 0 a c0 q I (fun _ => eq_refl) ltac:(lia) Ea Ec Ep). }
  destruct (workerPoolSend_accepted (s_pool s) None None 0 (c_id c) (c_sessionid c) MSG_TYPE_RESPONSE None 0 0 a c0 q
    I (fun _ => eq_refl) Wg ltac:(lia) Ea Ec Hr Hi Wq Ep) as (p' & E & D).
  exists (Server p' (Timer (Timer.base (s_timer s)) (timerDict (s_timer s)) (tsn (s_timer s)) (requests (s_timer s))
    (responses (s_timer s) ++ [(c_id c, c_sessionid c)])) (em_accepts s)).
  split; [| split; [exact D | done]]. cbn [forward]. unfold zSend, on_pool, mbind, st_bind. cbn [s_pool s_timer em_accepts].
  change (u32 0) with 0. rewrite (u32_small (c_id c)) by lia. rewrite E. reflexivity.
Qed.

Lemma zTimerCancel_Ok ctx cmd param sn rest s :
  em_accepts s = true -> strtol param = (sn, rest) ->
  zTimerCancel ctx cmd param s = Ok (None, Server (s_pool s)
    (Timer (Timer.base (s_timer s)) (timerDict (s_timer s)) (tsn (s_timer s))
      (requests (s_timer s) ++ [TimerEvent 0 0 (u32 sn) 0 0 1]) (responses (s_timer s))) true).
Proof.
  intros Ha E. unfold zTimerCancel. rewrite E. erewrite st_bind_Ok; [done |].
  rewrite on_timer_silent; unfold timerCancel, post; by rewrite Ha.
Qed.

(** C34: setting a timer by command, and cancelling it.  [TIMEOUT] with a delay
    other than 0 and a repeat flag, in decimal, by an actor: if the queue to the timer
    thread has room, one request is posted, with a new session of the actor and the
    next serial number, and the answer names both; [TIMECANCEL] with that serial
    number posts a cancel request; and when the timer thread handles the two, the
    first adds exactly this timer to its event loop, under a fresh identifier, and
    the second, at whatever later state, takes exactly that time event out (so
    right after the first it leaves the timers that were there before), sending
    nothing.  Without room nothing is posted, and the answer has -1 for the serial
    number.  With a delay of 0 nothing is posted either: the response is already in
    the actor's own queue when the command returns, or the process ends at the
    assertion if that queue is full. *)
Theorem timeout_then_cancel ctx c sp time sp' noMore rest s :
  heap (sys_of s) !! ctx = Some c -> 0 < c_sessionid c < 2147483648 ->
  -2147483648 <= time < 2147483648 -> -2147483648 <= noMore < 2147483648 ->
  Forall (.∈ blanks) sp -> Forall (.∈ blanks) sp' -> sp' <> [] ->
  match rest with [] => True | x :: _ => isdigit x = false end ->
  let session := c_sessionid c in
  let sn := (timerNewSn (s_timer s)).1 in
  let set := TimerEvent sn (i32 (c_id c)) session time noMore 0 in
  let cancel := TimerEvent 0 0 sn 0 0 1 in
  let answer n := print_d session ++ [32] ++ print_d n in
  let asked := zCommand ctx (str "TIMEOUT") (sp ++ print_d time ++ sp' ++ print_d noMore ++ rest) s in
  (time <> 0 -> em_accepts s = true -> exists s1 s2,
    asked = Ok (Some (answer sn), s1) /\ strtol (answer sn) = (session, [32] ++ print_d sn) /\
    requests (s_timer s1) = requests (s_timer s) ++ [set] /\
    zCommand ctx (str "TIMECANCEL") ([32] ++ print_d sn) s1 = Ok (None, s2) /\
    requests (s_timer s2) = requests (s_timer s1) ++ [cancel] /\
    forall junk now (t : timer K), timer_ok t -> abs (timerDict t) !! sn = None ->
      zlen (entries (timerDict t)) <= 536870912 ->
      let id := timeEventNextId (Timer.base t) in
      exists t1, emCallback junk now set t = Ok t1 /\ timer_ok t1 /\ abs (timerDict t1) !! sn = Some id /\
        timeEvents (Timer.base t1) = event_at t now set :: timeEvents (Timer.base t) /\ responses t1 = responses t /\
        forall now' t', timer_ok t' -> abs (timerDict t') !! sn = Some id ->
          exists t2, emCallback junk now' cancel t' = Ok t2 /\ responses t2 = responses t' /\
            timeEvents (Timer.base t2) = filter (fun te => te_id te <> id) (timeEvents (Timer.base t')) /\
            (t' = t1 -> timeEvents (Timer.base t2) = timeEvents (Timer.base t))) /\
  (time <> 0 -> em_accepts s = false -> exists s1, asked = Ok (Some (answer (-1)), s1) /\
    requests (s_timer s1) = requests (s_timer s)) /\
  (time = 0 -> tbl_ok (sys_of s) -> registered (sys_of s) (c_id c) ctx -> 0 < c_id c < 2147483648 ->
    1 <= c_ref c < 4294967295 -> c_inGlobal c = 0 \/ c_inGlobal c = 1 ->
    q_wf (gqueue (s_pool s)) -> q_wf (c_queue c) ->
    forall ok q, q_push (Message 0 session MSG_TYPE_RESPONSE 0 0 None) (c_queue c) = Ok (ok, q) ->
    if negb ok then asked = Fault AssertFailed
    else exists s1 c1, asked = Ok (Some (answer 0), s1) /\ requests (s_timer s1) = requests (s_timer s) /\
      heap (sys_of s1) !! ctx = Some c1 /\ c_inGlobal c1 = 1 /\
      q_elems (c_queue c1) = q_elems (c_queue c) ++ [Message 0 session MSG_TYPE_RESPONSE 0 0 None]).
Proof.
  intros Ec Hs Htr Hm Hsp Hsp' Hne Hrest session sn set cancel answer asked. pose proof (newSn_range (s_timer s)) as Hsn. fold sn in Hsn.
  assert (E1 : strtol (sp ++ print_d time ++ sp' ++ print_d noMore ++ rest) = (time, sp' ++ print_d noMore ++ rest)).
  { apply strtol_print_d; [lia | by apply blank_space | by apply blank_not_digit]. }
  assert (E2 : strtol (sp' ++ print_d noMore ++ rest) = (noMore, rest))
    by (apply strtol_print_d; [lia | by apply blank_space | done]).
  assert (E3 : strtol ([32] ++ print_d sn) = (sn, [])).
  { pose proof (strtol_print_d [32] sn [] ltac:(lia) ltac:(by constructor) I) as E. by rewrite app_nil_r in E. }
  assert (Ec0 : heap (sys_of (renewed s ctx c)) !! ctx = Some (set_c_sessionid c (c_sessionid c + 1))) by apply lookup_insert_eq.
  assert (A : forall n s1 c1, set_timer c time noMore (renewed s ctx c) = Ok (n, s1) -> heap (sys_of s1) !! ctx = Some c1 ->
    -2147483648 <= n < 2147483648 ->
    asked = Ok (Some (answer n), with_sys s1 (with_heap (sys_of s1) (<[ctx := set_c_result c1 (answer n)]> (heap (sys_of s1)))))).
  { intros n s1 c1 Eo Ec1 Hn. rewrite <- (i32_small time), <- (i32_small noMore) in Eo by lia.
    exact (zTimeoutCmd_answers ctx c (str "TIMEOUT") _ _ _ _ _ s n s1 c1 Ec Hs E1 E2 Eo Ec1 Hn). }
  split; [| split].
  - intros Ht Ha. pose proof (set_timer_posts c time noMore (renewed s ctx c) Ht) as Eo.
    cbn [em_accepts s_timer renewed with_sys] in Eo. rewrite Ha in Eo. fold sn session set in Eo.
    eexists _, _. split; [exact (A _ _ _ Eo Ec0 ltac:(lia)) |]. split; [apply read_int; [unfold session; lia | done] |].
    split; [done |]. split; [exact (zTimerCancel_Ok ctx (str "TIMECANCEL") _ sn [] (Server _ _ true) eq_refl E3) |].
    split; [cbn [s_timer requests with_sys]; by rewrite (u32_small sn) by lia |]. intros junk now t T Hfree Hn id.
    destruct (timer_set junk now set t T eq_refl Hn) as (t1 & F1 & T1 & El & _ & _ & Er & Ea).
    exists t1. split; [done |]. split; [done |]. split; [rewrite Ea; cbn [ev_sn set]; by rewrite Hfree, lookup_insert_eq |].
    split; [done |]. split; [done |]. intros now' t' T' Ed.
    destruct (timer_cancel junk now' sn t' T') as (t2 & F2 & _ & R2 & _ & V2). exists t2. rewrite Ed in V2.
    split; [done |]. split; [done |]. split; [done |]. intros ->. rewrite V2, El. by apply event_at_removed.
  - intros Ht Ha. pose proof (set_timer_posts c time noMore (renewed s ctx c) Ht) as Eo.
    cbn [em_accepts s_timer renewed with_sys] in Eo. rewrite Ha in Eo.
    eexists. split; [exact (A _ _ _ Eo Ec0 ltac:(lia)) |]. cbn. by rewrite app_nil_r.
  - intros -> T Hreg Hid Hr Hi Wg Wq ok q Ep. set (c0 := set_c_sessionid c (c_sessionid c + 1)) in *.
    destruct (tbl_ok_store (sys_of s) ctx c c0 T Ec eq_refl) as [T0 Hreg0].
    pose proof (set_timer_now ctx c noMore (renewed s ctx c) c0 ok q T0 (proj2 (Hreg0 _ _) Hreg) Hid Hs Ec0 Hr Hi Wg Wq Ep) as Hn.
    destruct ok; cbn [negb].
    2: { unfold asked. etrans; [exact (zTimeoutCmd_timer ctx c (str "TIMEOUT") _ _ _ _ _ s Ec Hs E1 E2) |].
      rewrite !i32_small by lia. by rewrite (st_bind_Fault _ _ _ _ Hn). }
    destruct Hn as (s1 & Eo & [(c1 & Ec1 & _ & Hg & El & _) _ _ _ _ _] & Rq & _).
    eexists _, _. split; [exact (A _ _ _ Eo Ec1 ltac:(lia)) |]. split; [exact Rq |].
    split; [apply lookup_insert_eq |]. split; [exact Hg | exact El].
Qed.

(** ** Launching and stopping actors *)

(** The contexts are in order: the table agrees with the heap, the next address
    is unused, identifiers are not used up. *)
Record sys_ok (b : sys Q) : Prop := {
  so_tbl : tbl_ok b;
  so_next : heap b !! next b = None;
  so_alloc : 0 <= allocId b /\ (allocId b = 0 -> contextNum b = 0);
  so_room : allocId b + 2 * setsize b < 2147483647;
}.

Definition new_context (id : Z) : context Q := Ctx id (str "c_" ++ print_d id) 1 1 false new_queue 0 [].

Lemma default_name id : -2147483648 <= id < 2147483648 -> snprintf 32 (str "c_" ++ print_d id) = str "c_" ++ print_d id.
Proof. intros Hid. apply snprintf_fits. rewrite zlen_app. pose proof (print_short id Hid). change (zlen (str "c_")) with 2. lia. Qed.

(** A launch up to the module's [Init]: the new context has an identifier no
    other has and is found under it; the others are found as before. *)
Definition launched (b : sys Q) (id : Z) (b' : sys Q) : Prop :=
  1 <= id < 2147483647 /\ tbl_ok b' /\ registered b' id (next b) /\
  heap b' = <[next b := new_context id]> (heap b) /\
  (forall id' a, registered b id' a -> registered b' id' a /\ id' <> id).

Lemma ctxMgrCreateContext_runs (init : nat -> ST (server Q G K) Z) s : sys_ok (sys_of s) ->
  exists id b, launched (sys_of s) id b /\
    ctxMgrCreateContext (@on_sys Q G K) true true new_queue init s =
      (r ← init (next (sys_of s));
       if negb (r =? 0) then _ ← on_sys (ctxMgrRemoveContext id); mret None
       else mret (Some (next (sys_of s)))) (with_sys s b).
Proof.
  set (b := sys_of s). intros [T Hn [Ha1 Ha2] Hr]. fold b in T, Hn, Ha1, Ha2, Hr. unfold ctxMgrCreateContext. set (a := next b) in *.
  set (b1 := Sys (<[a := Ctx 0 [] 1 1 false new_queue 0 []]> (heap b)) (S a) (allocId b) (contextNum b) (contexts b) (setsize b)).
  assert (E1 : contextCreate true true new_queue (sys_of s) = Ok (Some a, b1)) by done.
  rewrite (st_bind_Ok _ _ _ _ _ (on_sys_Ok _ _ _ _ E1)).
  destruct (tbl_ok_new b a (Ctx 0 [] 1 1 false new_queue 0 []) (S a) T Hn) as (T1 & Hab & Hold). fold b1 in T1, Hab, Hold.
  destruct (ctxMgrAddContext_adds b1 a (Ctx 0 [] 1 1 false new_queue 0 []) T1 (lookup_insert_eq _ _ _) Hab Ha1 Ha2 Hr)
    as (id & b2 & E2 & Hid & A & Hh).
  rewrite (st_bind_Ok _ _ _ _ _ (on_sys_Ok _ (with_sys s b1) _ _ E2)). destruct (Z.ltb_spec id 0); [lia |].
  assert (Ec : heap b2 !! a = Some (set_c_id (Ctx 0 [] 1 1 false new_queue 0 []) id)) by (rewrite Hh; apply lookup_insert_eq).
  rewrite (st_bind_Ok _ _ _ _ _ (on_sys_Ok _ (with_sys (with_sys s b1) b2) _ _ (load_Ok _ _ _ Ec))), default_name by lia.
  rewrite (st_bind_Ok _ _ _ _ _ (on_sys_Ok (store a (new_context id)) (with_sys (with_sys s b1) b2) tt _ eq_refl)).
  destruct (tbl_ok_store b2 a _ (new_context id) (ad_ok _ _ _ _ A) Ec eq_refl) as [T3 Hreg].
  eexists id, _. split; [| reflexivity]. split; [done |]. split; [exact T3 |].
  split; [apply Hreg, A |]. split; [cbn; rewrite Hh; cbn; by rewrite !insert_insert_eq |].
  intros id' x Hx. split; [by apply Hreg, (ad_old _ _ _ _ A), Hold |]. intros ->. by apply (ad_fresh _ _ _ _ A x), Hold.
Qed.

(** The parameters of LAUNCH, and what it does: the context, its module's
    [Init], and the answer or the removal. *)
Lemma zLauchCmd_runs md sep args cmd ctx s :
  sys_ok (sys_of s) -> module_ok md = true -> inst_ok md = true ->
  Forall (fun x => one_of blanks x = false) md -> sep ∈ blanks -> Forall (fun x => one_of [13; 10] x = false) args ->
  let inst := next (sys_of s) in
  exists id b, launched (sys_of s) id b /\
    zLauchCmd module_ok inst_ok module_init new_queue ctx cmd (md ++ sep :: args) s =
      (r ← module_init md inst (Some args);
       if negb (r =? 0) then _ ← on_sys (ctxMgrRemoveContext id); mret None
       else c ← on_sys (load inst); put_result ctx (print_d (i32 (c_id c)))) (with_sys s b).
Proof.
  intros W Hm Hi Hmd Hsep Hargs inst. unfold zLauchCmd.
  assert (E1 : strsep (Some (md ++ sep :: args)) blanks = (Some md, Some args)).
  { unfold strsep. rewrite break_app by done. cbn [break].
    replace (one_of blanks sep) with true; [by rewrite app_nil_r |].
    unfold blanks in Hsep. repeat (apply elem_of_cons in Hsep as [-> | Hsep]; [done |]). by apply not_elem_of_nil in Hsep. }
  assert (E2 : strsep (Some args) [13; 10] = (Some args, None)) by (unfold strsep; by rewrite break_end).
  rewrite E1, E2. erewrite st_bind_Ok by reflexivity. rewrite Hm, Hi.
  destruct (ctxMgrCreateContext_runs (fun inst => module_init md inst (Some args)) s W) as (id & b & L & E).
  exists id, b. split; [done |]. unfold mbind at 1, st_bind at 1. rewrite E. fold inst.
  unfold mbind, st_bind. destruct (module_init md inst (Some args) (with_sys s b)) as [[r s1] |]; [| done].
  destruct (negb (r =? 0)); [| done]. by destruct (on_sys (ctxMgrRemoveContext id) s1) as [[? ?] |].
Qed.

(** EXIT with an identifier in decimal. *)
Lemma zExitCmd_sends ctx id s : 1 <= id < 2147483647 ->
  zCommand ctx (str "EXIT") (print_d id) s =
    (_ ← on_pool (workerPoolSend (Some ctx) 0 id 0 MSG_TYPE_EXIT_CONTEXT None 0 0); mret None) s.
Proof.
  intros Hid. change (zExitCmd ctx (str "EXIT") (print_d id) s =
    (_ ← on_pool (workerPoolSend (Some ctx) 0 id 0 MSG_TYPE_EXIT_CONTEXT None 0 0); mret None) s).
  unfold zExitCmd. by rewrite read_back, i32_small, u32_small by lia.
Qed.

(** The length of a queue.  [QLEN] answers with the number of messages in
    the queue of the actor named, if the identifier's slot holds one; for any
    other identifier it dereferences [NULL], the test being on the wrong
    variable. *)
Theorem queue_length_command ctx n rest param s :
  tbl_ok (sys_of s) -> strtol param = (n, rest) ->
  match aget (contexts (sys_of s)) (u32 (i32 n) mod setsize (sys_of s)) with
  | Ok (Some a) => forall c, heap (sys_of s) !! a = Some c -> 1 <= c_ref c < 4294967295 ->
      zlen (q_elems (c_queue c)) < 2147483648 ->
      exists s', zCommand ctx (str "QLEN") param s = Ok (Some (print_d (zlen (q_elems (c_queue c)))), s') /\
        (exists c', heap (sys_of s') !! a = Some c' /\ c_ref c' = c_ref c /\ c_queue c' = c_queue c) /\
        forall b, b <> a -> heap (sys_of s') !! b = heap (sys_of s) !! b
  | _ => zCommand ctx (str "QLEN") param s = Fault NullDeref
  end.
Proof.
  intros T En. pose proof (tk_size _ T). pose proof (Z.mod_pos_bound (u32 (i32 n)) (setsize (sys_of s)) ltac:(lia)) as Hr.
  destruct (aget_is_Ok (contexts (sys_of s)) (u32 (i32 n) mod setsize (sys_of s))) as (o & _ & Eg); [by rewrite (tk_len _ T) |].
  rewrite Eg. change (zCommand ctx (str "QLEN") param s) with (zQueueLenCmd ctx (str "QLEN") param s). unfold zQueueLenCmd. rewrite En.
  destruct o as [a |].
  2:{ by rewrite (st_bind_Ok _ _ _ _ _ (on_sys_Ok _ _ _ _ (ctxMgrGetContext_None (sys_of s) _ Eg))). }
  intros c Ec Hc Hl. pose proof (zlen_nonneg (q_elems (c_queue c))).
  assert (Hlen : zlen (print_d (zlen (q_elems (c_queue c)))) <= 11) by (apply print_short; lia).
  rewrite (st_bind_Ok _ _ _ _ _ (on_sys_Ok _ _ _ _ (ctxMgrGetContext_Ok (sys_of s) _ a c Eg Ec))).
  erewrite st_bind_Ok by reflexivity. rewrite u32_small by lia. set (c1 := set_c_ref c (c_ref c + 1)). set (s1 := with_sys s _).
  assert (E1 : heap (sys_of s1) !! a = Some c1) by apply lookup_insert_eq.
  rewrite (st_bind_Ok _ _ _ _ _ (on_sys_load _ _ _ E1)). cbn [c_queue c1 set_c_ref]. rewrite i32_small by lia.
  set (text := print_d _). fold text in Hlen.
  rewrite (st_bind_Ok _ _ _ _ _ (put_result_Ok a text s1 c1 E1 ltac:(lia))). set (s2 := with_sys s1 _).
  assert (E2 : heap (sys_of s2) !! a = Some (set_c_result c1 text)) by apply lookup_insert_eq.
  rewrite (st_bind_Ok _ _ _ _ _ (on_sys_Ok _ _ _ _ (ctxMgrReleaseContext_Ok a (sys_of s2) _ E2 ltac:(unfold c1; cbn; lia)))). set (s3 := with_sys s2 _).
  assert (E3 : heap (sys_of s3) !! a = Some (set_c_ref (set_c_result c1 text) (c_ref c + 1 - 1))) by apply lookup_insert_eq.
  rewrite (st_bind_Ok _ _ _ _ _ (on_sys_load _ _ _ E3)). exists s3. split; [done |]. split.
  - eexists. split; [exact E3 |]. cbn. split; [lia | done].
  - intros b Hne. cbn. by rewrite !lookup_insert_ne.
Qed.
End commands.

(** ** A server with one actor *)

Definition demo_server : server (lfq message) (lfq nat) (gmap Z Z) :=
  Server (Pool full_table (lfCreate 0%nat 4) true) timer0 true.

Definition demo_command := zCommand (Q := lfq message) (G := lfq nat) (K := gmap Z Z) (fun m => bool_decide (m = str "zlua")) (fun _ => true) (fun _ _ _ => mret 0)
  (MessageQueue.messageQueueCreate 4) (fun _ d => d).

Lemma demo_sys_ok : sys_ok (sys_of demo_server).
Proof. split; [exact full_table_ok | reflexivity | by vm_compute | reflexivity]. Qed.

Lemma timeout_then_cancel_witness :
  exists s1 s2, demo_command 0 (str "TIMEOUT") (str "250 -1") demo_server = Ok (Some (str "1 1"), s1) /\
    demo_command 0 (str "TIMECANCEL") (str " 1") s1 = Ok (None, s2) /\
    requests (s_timer s2) = [TimerEvent 1 1 1 250 (-1) 0; TimerEvent 0 0 1 0 0 1] /\
    exists t1 t2, emCallback 0 (10, 700) (TimerEvent 1 1 1 250 (-1) 0) timer0 = Ok t1 /\
      length (timeEvents (Timer.base t1)) = 1%nat /\
      emCallback 0 (10, 800) (TimerEvent 0 0 1 0 0 1) t1 = Ok t2 /\ timeEvents (Timer.base t2) = [].
Proof.
  destruct (timeout_then_cancel (fun m => bool_decide (m = str "zlua")) (fun _ => true) (fun _ _ _ => mret 0)
    (MessageQueue.messageQueueCreate 4) (fun _ d => d) 0 ctx0 [] 250 [32] (-1) [] demo_server)
    as [Hset _];
    [reflexivity | by vm_compute | by vm_compute | by vm_compute | constructor
    | constructor; [by left | constructor] | discriminate | exact I |].
  destruct (Hset ltac:(discriminate) eq_refl) as (s1 & s2 & E1 & _ & R1 & E2 & R2 & Hrun).
  exists s1, s2. split; [exact E1 |]. split; [exact E2 |]. split; [rewrite R2, R1; reflexivity |].
  destruct (Hrun 0 (10, 700) timer0 timer0_ok ltac:(by vm_compute) ltac:(by vm_compute))
    as (t1 & F1 & T1 & D1 & V1 & _ & Hc).
  destruct (Hc (10, 800) t1 T1 D1) as (t2 & F2 & _ & _ & V2).
  exists t1, t2. split; [exact F1 |]. split; [by rewrite V1 |]. split; [exact F2 | exact (V2 eq_refl)].
Defined.

Lemma queue_length_command_witness :
  exists s', demo_command 0 (str "QLEN") (str "1") demo_server = Ok (Some (str "0"), s') /\
    exists c', heap (sys_of s') !! 0%nat = Some c' /\ c_ref c' = 1.
Proof.
  pose proof (queue_length_command (fun m => bool_decide (m = str "zlua")) (fun _ => true) (fun _ _ _ => mret 0)
    (MessageQueue.messageQueueCreate 4) (fun _ d => d) 0 1 [] (str "1") demo_server full_table_ok eq_refl ctx0 eq_refl
    ltac:(by vm_compute) ltac:(by vm_compute)) as (s' & E & (c' & Ec & Er & _) & _).
  exists s'. split; [exact E |]. exists c'. split; [exact Ec | exact Er].
Defined.
