(* ===== verification/LuaApi.v ===== *)
(** * lua-z.c: what Lua code can ask of the server

    The functions of the table [z] that actors written in Lua call: each checks
    its arguments and forwards to the packing functions ([Seri], [LuaNet]), the
    worker pool, the sockets or the names.  A Lua value is an [lval], in which a
    number that is an integer is one, and any other number the bits of a double. *)
From S2P Require Import Prelude CString Buffer Seri LuaNet Dict Timer Ae AeEpoll Socket NetProps Tcp Fifo LockFree Define Context WorkerPool NameMgr Cmd.

(** [struct socketMessage] *)
Record socketMessage := SocketMessage {
  sm_sz : Z;
  sm_data : option (list Z);
  sm_ud : Z;
  sm_id : Z;
  sm_type : Z;
}.

(** What a light userdata points at. *)
Inductive ptr := PNull | PBytes (bs : list Z) | PSock (m : socketMessage).

(** A table is what [lua_rawgeti] gives for 1 to its length, and what [lua_next]
    enumerates, as in [Seri]. *)
#[warnings="-register-all"]
Inductive lval :=
  | LNone
  | LNil
  | LBoolean (b : bool)
  | LNumber (n : Z)
  | LDouble (bits : Z)
  | LString (s : list Z)
  | LLight (p : ptr)
  | LTable (l : list lval) (pairs : list (lval * lval))
  | LFunction.

(** A call returns values, or raises an error and does not return. *)
Inductive lres := LRet (vs : list lval) | LError.

Section LuaApi.
  Context {Q G K N : Type} `{FifoLaws Q message} `{FifoLaws G nat} `{AeApi K} `{AeApi N}.
  (** Lua's conversions of strings and doubles to integers and of numbers to
      strings; the bytes of a [socketMessage] in memory; the address of what a
      pointer points at, and what is at an address; what [zmalloc] leaves in a
      block. *)
  Variables (str2int : list Z -> option Z) (dbl2int : Z -> Z) (int2str dbl2str : Z -> list Z)
    (raw : socketMessage -> list Z) (address : ptr -> Z) (at_address : Z -> ptr) (undef : Z).
  Variables (module_ok inst_ok : list Z -> bool)
    (module_init : list Z -> nat -> option (list Z) -> ST (server Q G K) Z)
    (new_queue : Q) (envGet : list Z -> list Z -> list Z).

(** The server: contexts and timers, names, sockets, the requests posted to the
    event loop and whether its queue has room. *)
Record api := Api {
  a_server : server Q G K;
  a_names : dict (list Z) name2id;
  a_net : net N;
  a_posted : list tcpRequest;
  a_room : bool;
}.

Definition on_server {A} (m : ST (server Q G K) A) : ST api A := fun s =>
  r ← m (a_server s); Ok (r.1, Api r.2 (a_names s) (a_net s) (a_posted s) (a_room s)).

(** The names and the contexts are parts of the state of [NameMgr]. *)
Definition on_names {A} (m : ST (names Q) A) : ST api A := fun s =>
  let sv := a_server s in
  r ← m (Names (a_names s) (base (s_pool sv)));
  Ok (r.1, Api (Server (with_base (s_pool sv) (ctxs r.2)) (s_timer sv) (em_accepts sv)) (nameDict r.2)
             (a_net s) (a_posted s) (a_room s)).

Definition on_tcp (m : bool -> ST (net N) (Z * option tcpRequest)) : ST api Z := fun s =>
  r ← m (a_room s) (a_net s);
  Ok (r.1.1, Api (a_server s) (a_names s) r.2 (a_posted s ++ match r.1.2 with Some q => [q] | None => [] end) (a_room s)).

Definition self_id (ctx : nat) : ST api Z := c ← on_server (on_sys (load ctx)); mret (c_id c).

(** ** Arguments *)

Definition arg (args : list lval) (i : nat) : lval := default LNone (args !! pred i).

Definition lua_tointegerx (v : lval) : option Z :=
  match v with LNumber n => Some n | LDouble b => Some (dbl2int b) | LString s => str2int s | _ => None end.

(** A string ends at its first zero where it is used as one of C. *)
Definition cut (s : list Z) : list Z := (break (Z.eqb 0) s).1.

Definition lua_tostring (v : lval) : option (list Z) :=
  match v with LString s => Some s | LNumber n => Some (int2str n) | LDouble b => Some (dbl2str b) | _ => None end.

Definition pointee (p : ptr) : option (list Z) :=
  match p with PNull => None | PBytes bs => Some bs | PSock m => Some (raw m) end.

Definition lua_touserdata (v : lval) : ptr := match v with LLight p => p | _ => PNull end.

(** The bits of the double an integer is. *)
Definition number_bits (n : Z) : Z :=
  if n =? 0 then 0
  else
    let k := Z.log2 (Z.abs n) in
    (if n <? 0 then 2 ^ 63 else 0) + (1023 + k) * 2 ^ 52 + (Z.shiftl (Z.abs n) (52 - k) - 2 ^ 52).

Definition number_of (b : Z) : lval :=
  let n := dbl_trunc b in
  if (dbl_exp b <? 2047) && dbl_integral b && (number_bits n =? b) then LNumber n else LDouble b.

(** A value as the packing functions see it, and back. *)
Fixpoint to_seri (v : lval) : Seri.lval :=
  match v with
  | LNone | LNil => Seri.LNil
  | LBoolean b => Seri.LBool b
  | LNumber n => Seri.LNum (number_bits n)
  | LDouble b => Seri.LNum b
  | LString s => Seri.LStr s
  | LLight p => Seri.LUser (address p)
  | LTable l pairs => Seri.LTable (to_seri <$> l) ((fun kv => (to_seri kv.1, to_seri kv.2)) <$> pairs)
  | LFunction => Seri.LOther
  end.

Fixpoint of_seri (v : Seri.lval) : lval :=
  match v with
  | Seri.LNil => LNil
  | Seri.LBool b => LBoolean b
  | Seri.LNum b => number_of b
  | Seri.LStr s => LString s
  | Seri.LUser a => LLight (at_address a)
  | Seri.LTable l pairs => LTable (of_seri <$> l) ((fun kv => (of_seri kv.1, of_seri kv.2)) <$> pairs)
  | Seri.LOther => LFunction
  end.

(** [(int)luaL_checknumber(L, i)]: undefined if no [int] is the truncation. *)
Definition to_int (n : Z) (k : Z -> ST api lres) : ST api lres :=
  if (-2147483648 <=? n) && (n <? 2147483648) then k n else st_fault OutOfBounds.

Definition lua_tonumberx (v : lval) : option Z :=
  match v with LDouble b => Some (dbl_trunc b) | _ => lua_tointegerx v end.

(** The rest of a function if an argument check succeeds. *)
Definition check {A} (o : option A) (k : A -> ST api lres) : ST api lres :=
  match o with Some a => k a | None => mret LError end.

(** ** Messages *)

(** The target of a message: a number, or a name that is looked up. *)
Definition target (v : lval) (k : Z -> ST api lres) : ST api lres :=
  match v with
  | LNumber n => k (i32 n)
  | LDouble b => k (i32 (dbl2int b))
  | LString name => id ← on_names (nameMgrGetId (cut name)); k id
  | _ => mret LError
  end.

(** The data of a message, copied from a string or taken as it is. *)
Definition payload (nil_ok : bool) (v sz : lval) (k : option (list Z) -> Z -> ST api lres) : ST api lres :=
  match v with
  | LString tmp => k (Some (tmp ++ [undef])) (zlen tmp)
  | LLight p => check (lua_tointegerx sz) (fun n => k (pointee p) (u64 n))
  | LNil => if nil_ok then k None 0 else mret LError
  | _ => mret LError
  end.

Definition _send (ctx : nat) (args : list lval) : ST api lres :=
  target (arg args 1) (fun to =>
  check (lua_tointegerx (arg args 3)) (fun type =>
  let type := i32 type in
  let go type session :=
    payload true (arg args 4) (arg args 5) (fun data sz =>
    session ← on_server (zSend (Some ctx) 0 to (u32 session) (u32 type) data sz);
    mret (if session <? 0 then LRet [] else LRet [LNumber session])) in
  match arg args 2 with
  | LNil => go (Z.lor type MSG_TYPE_NEWSESSION) 0
  | v => check (lua_tointegerx v) (fun session => go type (i32 session))
  end)).

Definition _redirect (ctx : nat) (args : list lval) : ST api lres :=
  target (arg args 1) (fun from =>
  target (arg args 2) (fun to =>
  check (lua_tointegerx (arg args 3)) (fun session =>
  check (lua_tointegerx (arg args 4)) (fun type =>
  payload false (arg args 5) (arg args 6) (fun data sz =>
  _ ← on_server (zSend (Some ctx) from to (u32 session) (u32 type) data sz);
  mret (LRet [])))))).

(** ** Commands and callbacks *)

Definition commands : list (list Z) :=
  [str "LAUNCH"; str "GETENV"; str "TIMEOUT"; str "TIMECANCEL"; str "EXIT"; str "QLEN"].

(** Without a second argument the commands get [NULL], which each of them reads. *)
Definition _command (ctx : nat) (args : list lval) : ST api lres :=
  check (lua_tostring (arg args 1)) (fun cmd =>
  let cmd := cut cmd in
  let answer r := mret (match r with Some t => LRet [LString t] | None => LRet [] end) in
  if Nat.eqb (length args) 2 then
    check (lua_tostring (arg args 2)) (fun parm =>
    r ← on_server (zCommand module_ok inst_ok module_init new_queue envGet ctx cmd (cut parm)); answer r)
  else if decide (cmd ∈ commands) then st_fault NullDeref else mret (LRet [])).

Definition _callback (ctx : nat) (args : list lval) : ST api lres :=
  match arg args 1 with
  | LFunction => _ ← on_server (zSetCallback ctx true); mret (LRet [])
  | _ => mret LError
  end.

(** The arguments of the Lua function that a message is handed to. *)
Definition _cb (msg : message) : list lval :=
  let proto_type := Z.land (type msg) 0x0000FFFF in
  let common := [LNumber proto_type; LNumber (from msg); LNumber (session msg);
    LLight (match data msg with Some bs => PBytes bs | None => PNull end); LNumber (sz msg)] in
  if proto_type =? MSG_TYPE_PROTO_SOCKET then
    common ++ [LNumber (Z.land (Z.shiftr (type msg) 16) 0xFFFF); LNumber (ud msg)]
  else common.

(** ** Packing *)

Definition luaseri_pack (ctx : nat) (args : list lval) : ST api lres :=
  match _luaseri_pack undef (to_seri <$> args) with
  | LOk bs => mret (LRet [LLight (PBytes bs); LNumber (i32 (zlen bs))])
  | LErr => mret LError
  | LFault f => st_fault f
  end.

(** A negative length reads nothing, one beyond the block is out of bounds. *)
Definition luaseri_unpack (ctx : nat) (args : list lval) : ST api lres :=
  match arg args 1 with
  | LNone | LNil => mret (LRet [])
  | v =>
    check (lua_tointegerx (arg args 2)) (fun len =>
    let len := i32 len in
    if len =? 0 then mret (LRet [])
    else
      match pointee (lua_touserdata v) with
      | None => mret LError
      | Some buffer =>
        if len <? 0 then mret (LRet [])
        else
          bytes ← st_lift (acopy_out buffer 0 len);
          match _luaseri_unpack bytes with
          | LOk vs => mret (LRet (of_seri <$> vs))
          | LErr => mret LError
          | LFault f => st_fault f
          end
      end)
  end.

(** The length is a [size_t]. *)
Definition netpack (ctx : nat) (args : list lval) : ST api lres :=
  check (lua_tointegerx (arg args 1)) (fun seq =>
  check (lua_tostring (arg args 2)) (fun name =>
  check (lua_tonumberx (arg args 4)) (fun bufferLen =>
  buffer ← st_lift (if bufferLen =? 0 then mret []
    else b ← deref (pointee (lua_touserdata (arg args 3))); acopy_out b 0 bufferLen);
  '(body, len) ← st_lift (_netpack undef (i32 seq) name buffer);
  mret (LRet [LLight (PBytes body); LNumber len])))).

Definition netunpack (ctx : nat) (args : list lval) : ST api lres :=
  check (lua_tonumberx (arg args 2)) (fun len =>
  to_int len (fun len =>
  buffer ← st_lift (deref (pointee (lua_touserdata (arg args 1))));
  r ← st_lift (_netunpack buffer len);
  mret (LRet (match r with
    | None => [LBoolean true; LString (str "body len error")]
    | Some (seq, name, (off, n)) =>
      [LBoolean true; LNumber seq; LString name; LLight (PBytes (drop (Z.to_nat off) buffer)); LNumber n]
    end)))).

(** ** Texts and socket messages *)

Definition _textpack (ctx : nat) (args : list lval) : ST api lres :=
  check (lua_tostring (arg args 1)) (fun s => mret (LRet [LLight (PBytes (s ++ [undef])); LNumber (zlen s)])).

(** The block that is freed is the second argument's. *)
Definition _textunpack (ctx : nat) (args : list lval) : ST api lres := mret (LRet []).

Definition _sockettostring (ctx : nat) (args : list lval) : ST api lres :=
  match arg args 1 with
  | LNone | LNil => mret (LRet [])
  | v =>
    match pointee (lua_touserdata v) with
    | None => mret LError
    | Some buf =>
      check (lua_tointegerx (arg args 2)) (fun sz =>
      s ← st_lift (acopy_out buf 0 (u64 (i32 sz))); mret (LRet [LString s]))
    end
  end.

Definition _socketunpack (ctx : nat) (args : list lval) : ST api lres :=
  match arg args 1 with
  | LNone | LNil => mret (LRet [])
  | v =>
    match lua_touserdata v with
    | PNull => mret LError
    | PBytes _ => st_fault OutOfBounds
    | PSock m =>
      mret (LRet ([LNumber (sm_ud m); LNumber (sm_type m); LNumber (sm_id m)] ++
        match sm_data m with Some bs => [LLight (PBytes bs); LNumber (sm_sz m)] | None => [] end))
    end
  end.

(** ** Sockets *)

Definition open_args (args : list lval) (k : Z -> list Z -> Z -> ST api lres) : ST api lres :=
  check (lua_tointegerx (arg args 1)) (fun protoType =>
  check (lua_tostring (arg args 2)) (fun addr =>
  check (lua_tointegerx (arg args 3)) (fun port =>
  k (i32 protoType) (cut addr) (i32 port)))).

Definition _socketlisten (ctx : nat) (args : list lval) : ST api lres :=
  open_args args (fun protoType addr port =>
  me ← self_id ctx;
  ret ← on_tcp (fun room => tcpSocketListen room me protoType addr port); mret (LRet [LNumber ret])).

Definition _socketconnect (ctx : nat) (args : list lval) : ST api lres :=
  open_args args (fun protoType addr port =>
  me ← self_id ctx;
  ret ← on_tcp (fun room => tcpSocketConnect room me protoType addr port); mret (LRet [LNumber ret])).

Definition _socketasyncconnect (ctx : nat) (args : list lval) : ST api lres :=
  open_args args (fun protoType addr port =>
  me ← self_id ctx;
  ret ← on_tcp (fun room => tcpSocketAsyncConnect room me protoType addr port); mret (LRet [LNumber ret])).

Definition _socketstart (ctx : nat) (args : list lval) : ST api lres :=
  check (lua_tointegerx (arg args 1)) (fun id =>
  me ← self_id ctx;
  ret ← on_tcp (fun room => tcpSocketStart room me (i32 id)); mret (LRet [LNumber ret])).

(** An element of the table that is no number counts as 0. *)
Definition _socketSend (ctx : nat) (args : list lval) : ST api lres :=
  let go ids :=
    if zlen ids >? 500 then mret LError
    else if zlen ids =? 0 then st_fault OutOfBounds
    else
      payload false (arg args 2) (arg args 3) (fun data sz =>
      me ← self_id ctx;
      ret ← on_tcp (fun room => tcpSocketSend room me ids data sz);
      mret (LRet [LNumber (u32 ret)])) in
  match arg args 1 with
  | LNumber n => go [i32 n]
  | LDouble b => go [i32 (dbl2int b)]
  | LTable l _ => go ((fun v => i32 (default 0 (lua_tointegerx v))) <$> l)
  | _ => mret LError
  end.

Definition _closeSocket (ctx : nat) (args : list lval) : ST api lres :=
  check (lua_tointegerx (arg args 1)) (fun id =>
  me ← self_id ctx;
  ret ← on_tcp (fun room => tcpSocketClose room me (i32 id)); mret (LRet [LNumber ret])).

(** ** Names *)

(** [NULL] as a name is read once it comes to hashing it. *)
Definition null_get : ST api Z :=
  s ← st_get; if Dict.size (ht0 (a_names s)) =? 0 then mret 0 else st_fault NullDeref.

Definition _regist (ctx : nat) (args : list lval) : ST api lres :=
  me ← self_id ctx;
  let go id :=
    ret ← (match lua_tostring (arg args 1) with
           | Some name => on_names (nameMgrRegist (cut name) id)
           | None =>
             o ← on_names (on_ctxs (ctxMgrGetContext (u32 id)));
             match o with None => mret (-2) | Some _ => st_fault NullDeref end
           end);
    mret (LRet [LNumber ret]) in
  match arg args 2 with
  | LNumber n => go (i32 n)
  | LDouble b => go (i32 (dbl2int b))
  | LNil => go (i32 me)
  | _ => mret LError
  end.

Definition _unregist (ctx : nat) (args : list lval) : ST api lres :=
  ret ← (match lua_tostring (arg args 1) with
         | Some name => on_names (nameMgrUnRegist (cut name))
         | None => _ ← null_get; mret (-1)
         end);
  mret (LRet [LNumber ret]).

Definition _name2id (ctx : nat) (args : list lval) : ST api lres :=
  ret ← (match lua_tostring (arg args 1) with
         | Some name => on_names (nameMgrGetId (cut name))
         | None => null_get
         end);
  mret (if ret >? 0 then LRet [LNumber ret] else LRet []).

Definition _self (ctx : nat) (args : list lval) : ST api lres := me ← self_id ctx; mret (LRet [LNumber me]).

(** The table of functions that is registered. *)
Definition lib : list (list Z * (nat -> list lval -> ST api lres)) :=
  [(str "pack", luaseri_pack); (str "unpack", luaseri_unpack);
   (str "net_pack", netpack); (str "net_unpack", netunpack);
   (str "text_pack", _textpack); (str "text_unpack", _textunpack);
   (str "socket_listen", _socketlisten); (str "socket_connect", _socketconnect);
   (str "socket_asyncconnect", _socketasyncconnect); (str "socket_start", _socketstart);
   (str "socket_send", _socketSend); (str "socket_close", _closeSocket);
   (str "socket_unpack", _socketunpack); (str "socket_tostring", _sockettostring);
   (str "command", _command); (str "callback", _callback); (str "redirect", _redirect); (str "send", _send);
   (str "regist", _regist); (str "unregist", _unregist); (str "name2id", _name2id); (str "self", _self)].

(** [luaopen_z_c]: the registry's "zlua" is a [struct zlua] with the actor's
    context, or nothing; [main] is whether the calling thread is the one the
    interpreter was created with.  The functions get the context as upvalue;
    [None] is the error raised for the script. *)
Definition luaopen_z_c {F} (zlua : option (option nat)) (main : bool) (lib : list (list Z * (nat -> F))) : outcome (option (list (list Z * F))) :=
  match zlua with
  | Some (Some ctx) => _ ← c_assert main; mret (Some ((fun e => (e.1, e.2 ctx)) <$> lib))
  | _ => mret None
  end.

(** ** service_zlua.c: an actor that runs Lua *)

(** The first callback of the actor; [init_ok] is whether the script loads and
    runs. *)
Definition _launch (init_ok : bool) (ctx : nat) (msg : message) : ST (server Q G K) unit :=
  _ ← st_assert ((session msg =? 0) && (Z.land (type msg) 0x0000FFFF =? 0));
  _ ← zSetCallback ctx false;
  if init_ok then mret tt
  else
    c ← on_sys (load ctx);
    _ ← zCommand module_ok inst_ok module_init new_queue envGet ctx (str "EXIT") (snprintf 32 (print_d (i32 (c_id c))));
    mret tt.

Definition zluaInit (ctx : nat) (args : option (list Z)) : ST (server Q G K) Z :=
  args ← st_lift (deref args);
  _ ← zSetCallback ctx true;
  c ← on_sys (load ctx);
  _ ← zSend (Some ctx) 0 (i32 (c_id c)) 0 0 (Some (args ++ [undef])) (zlen args);
  mret 0.

(** ** Types *)

Inductive shape := TBoolean | TNumber | TString | TLight.

Definition has_shape (v : lval) (t : shape) : Prop :=
  match v, t with
  | LBoolean _, TBoolean | LNumber _, TNumber | LDouble _, TNumber | LString _, TString | LLight _, TLight => True
  | _, _ => False
  end.

(** What a function may return: one of some lists of shapes, or any values that
    can be unpacked. *)
Inductive result := Alts (alts : list (list shape)) | Unpacked.

Fixpoint serial (v : lval) : bool :=
  match v with
  | LNone | LFunction => false
  | LTable l pairs => forallb serial l && forallb (fun kv => serial kv.1 && serial kv.2) pairs
  | _ => true
  end.

Definition returns (r : result) (vs : list lval) : Prop :=
  match r with
  | Alts alts => exists ts, ts ∈ alts /\ Forall2 has_shape vs ts
  | Unpacked => forallb serial vs = true
  end.

Definition signatures : list (list Z * result) :=
  [(str "pack", Alts [[TLight; TNumber]]); (str "unpack", Unpacked);
   (str "net_pack", Alts [[TLight; TNumber]]);
   (str "net_unpack", Alts [[TBoolean; TString]; [TBoolean; TNumber; TString; TLight; TNumber]]);
   (str "text_pack", Alts [[TLight; TNumber]]); (str "text_unpack", Alts [[]]);
   (str "socket_listen", Alts [[TNumber]]); (str "socket_connect", Alts [[TNumber]]);
   (str "socket_asyncconnect", Alts [[TNumber]]); (str "socket_start", Alts [[TNumber]]);
   (str "socket_send", Alts [[TNumber]]); (str "socket_close", Alts [[TNumber]]);
   (str "socket_unpack", Alts [[]; [TNumber; TNumber; TNumber]; [TNumber; TNumber; TNumber; TLight; TNumber]]);
   (str "socket_tostring", Alts [[]; [TString]]);
   (str "command", Alts [[]; [TString]]); (str "callback", Alts [[]]); (str "redirect", Alts [[]]);
   (str "send", Alts [[]; [TNumber]]);
   (str "regist", Alts [[TNumber]]); (str "unregist", Alts [[TNumber]]); (str "name2id", Alts [[]; [TNumber]]);
   (str "self", Alts [[TNumber]])].

(** Two states with the same contexts, queues, timers and sockets. *)
Definition same_server (s s' : api) : Prop :=
  a_server s' = a_server s /\ a_net s' = a_net s /\ a_posted s' = a_posted s /\ a_room s' = a_room s.

(** The names and contexts of the server. *)
Definition registry (s : api) : names Q := Names (a_names s) (base (s_pool (a_server s))).

(** A server in order, with the caller's context: what its parts' theorems ask for. *)
Record api_ok (ctx : nat) (s : api) : Prop := {
  ao_names : names_ok 1 (registry s);
  ao_queue : q_wf (gqueue (s_pool (a_server s)));
  ao_ctx : exists cx, heap (ctxs (registry s)) !! ctx = Some cx;
  ao_ctxs : forall a c, heap (ctxs (registry s)) !! a = Some c -> 0 < c_sessionid c < 4294967295 /\
    (c_inGlobal c = 0 \/ c_inGlobal c = 1) /\ q_wf (c_queue c);
  ao_net : table_ok (a_net s);
  ao_ids : 0 <= Socket.allocId (a_net s) /\ Socket.allocId (a_net s) + Socket.setsize (a_net s) < 2147483648;
}.

(** ** The calls that fault

    The arguments that make a function touch memory it has no right to. *)
Inductive misuse : list Z -> list lval -> fault -> Prop :=
  | mu_pack args f : ~ (Forall sized (to_seri <$> args) /\ zlen ((to_seri <$> args) ≫= enc) < 2147483644) ->
    misuse (str "pack") args f
  | mu_unpack args buf n : pointee (lua_touserdata (arg args 1)) = Some buf -> lua_tointegerx (arg args 2) = Some n ->
    zlen buf < i32 n \/ (exists pre rest, take (Z.to_nat (i32 n)) buf = pre ++ rest /\ undefined_item rest = true) ->
    misuse (str "unpack") args OutOfBounds
  | mu_net_pack args name n f : lua_tostring (arg args 2) = Some name -> lua_tonumberx (arg args 4) = Some n ->
    ~ (0 <= n <= zlen (default [] (pointee (lua_touserdata (arg args 3)))) /\ zlen name + 8 + n + 4 < 2147483648) ->
    misuse (str "net_pack") args f
  | mu_net_unpack args n f : lua_tonumberx (arg args 2) = Some n ->
    ~ (-2147483648 <= n < 2147483648 /\ exists buf, pointee (lua_touserdata (arg args 1)) = Some buf /\ 8 <= zlen buf /\
        let nameLen := i32 (le_combine (take 4 (drop 4 buf))) in 0 <= nameLen < 2147483647 /\ 8 + nameLen <= zlen buf) ->
    misuse (str "net_unpack") args f
  | mu_socket_send args pairs : arg args 1 = LTable [] pairs -> misuse (str "socket_send") args OutOfBounds
  | mu_socket_unpack args bs : lua_touserdata (arg args 1) = PBytes bs -> misuse (str "socket_unpack") args OutOfBounds
  | mu_socket_tostring args buf n : pointee (lua_touserdata (arg args 1)) = Some buf -> lua_tointegerx (arg args 2) = Some n ->
    ~ (0 <= i32 n <= zlen buf) -> misuse (str "socket_tostring") args OutOfBounds
  | mu_command args cmd : lua_tostring (arg args 1) = Some cmd -> cut cmd ∈ commands -> length args <> 2%nat ->
    misuse (str "command") args NullDeref
  | mu_no_name name args : name ∈ [str "regist"; str "unregist"; str "name2id"] -> lua_tostring (arg args 1) = None ->
    misuse name args NullDeref.

(** The server states in which a function ends the process at an assertion: the
    queue of an actor is full, or there is no socket left or no room for the
    request to the event loop. *)
Inductive overloaded : list Z -> api -> Prop :=
  | ov_queue name s a c m q : name ∈ [str "send"; str "redirect"; str "command"] -> heap (ctxs (registry s)) !! a = Some c ->
    q_push m (c_queue c) = Ok (false, q) -> overloaded name s
  | ov_sockets name s : name ∈ [str "socket_listen"; str "socket_connect"; str "socket_asyncconnect"] ->
    Forall (fun k => s_type k <> kSocketNoneType) (sockets (a_net s)) -> overloaded name s
  | ov_request name s :
    name ∈ [str "socket_listen"; str "socket_connect"; str "socket_asyncconnect"; str "socket_start"; str "socket_close"] ->
    a_room s = false -> overloaded name s.

(** Why a command with its parameters may fault, when no queue is full: [QLEN] of an
    identifier whose slot of the table is empty, or a fault in launching a module,
    whose Init is not known. *)
Definition command_fault (ctx : nat) (cmd parm : list Z) (s : server Q G K) (f : fault) : Prop :=
  cmd = str "QLEN" /\ f = NullDeref /\ slot (sys_of s) (i32 (strtol parm).1) = None \/
  cmd = str "LAUNCH" /\ zLauchCmd module_ok inst_ok module_init new_queue ctx cmd parm s = Fault f.

(** Why a call may fault. *)
Definition excused (ctx : nat) (name : list Z) (args : list lval) (s : api) (f : fault) : Prop :=
  misuse name args f \/ (f = AssertFailed /\ overloaded name s) \/
  (name = str "command" /\ exists cmd parm, lua_tostring (arg args 1) = Some cmd /\
     lua_tostring (arg args 2) = Some parm /\ command_fault ctx (cut cmd) (cut parm) (a_server s) f).

(** *** Functions that keep to their signature

    [m], run by [ctx] in a server in order that is as [s0] but for the dictionary
    of names, returns what [r] allows, or raises an error with the server as it
    was, or faults for a reason [exc] gives. *)
Section typed.
  Variables (ctx : nat) (s0 : api) (r : result) (exc : fault -> Prop).

Definition typed (m : ST api lres) : Prop :=
  forall s, same_server s0 s -> api_ok ctx s ->
    match m s with
    | Ok (LRet vs, _) => returns r vs
    | Ok (LError, s') => same_server s0 s'
    | Fault f => exc f
    end.

(** An operation of the server is called. *)
Definition calls {A} (m : ST api A) : Prop :=
  forall s, same_server s0 s -> api_ok ctx s -> match m s with Fault f => exc f | Ok _ => True end.

Lemma typed_ret vs : returns r vs -> typed (mret (LRet vs)).
Proof. intros R s _ _. exact R. Qed.

Lemma typed_error : typed (mret LError).
Proof. intros s Hs _. exact Hs. Qed.

Lemma typed_fault f : exc f -> typed (st_fault f).
Proof. intros Hf s _ _. exact Hf. Qed.

Lemma typed_check {A} (o : option A) k : (forall a, o = Some a -> typed (k a)) -> typed (check o k).
Proof. intros Hk. destruct o as [a |]; [by apply Hk | apply typed_error]. Qed.

Lemma typed_call {A} (m : ST api A) (k : A -> ST api lres) :
  calls m -> (forall a, exists vs, k a = mret (LRet vs) /\ returns r vs) -> typed (m ≫= k).
Proof.
  intros Hm Hg s Hs W. specialize (Hm s Hs W). unfold mbind, st_bind. destruct (m s) as [[a s'] | f]; [| exact Hm].
  destruct (Hg a) as (vs & -> & R). exact R.
Qed.

(** A step that neither changes the server nor faults. *)
Lemma typed_read {A} (m : ST api A) (P : A -> Prop) k :
  (forall s, api_ok ctx s -> exists a s', m s = Ok (a, s') /\ P a /\ same_server s s' /\ api_ok ctx s') ->
  (forall a, P a -> typed (k a)) -> typed (m ≫= k).
Proof.
  intros Hm Hk s (E1 & E2 & E3 & E4) W. destruct (Hm s W) as (a & s' & E & Pa & (F1 & F2 & F3 & F4) & W').
  rewrite (st_bind_Ok _ _ _ _ _ E). apply Hk; [done | | done]. unfold same_server. by repeat split; congruence.
Qed.

Lemma typed_lift {A} (m : outcome A) k :
  (forall a, m = Ok a -> typed (k a)) -> (forall f, m = Fault f -> exc f) -> typed (st_lift m ≫= k).
Proof.
  intros Hk Hf s Hs W. unfold mbind, st_bind, st_lift. destruct m as [a | f]; [by apply Hk | by apply Hf].
Qed.

Lemma typed_payload b v sz k : (forall d n, typed (k d n)) -> typed (payload b v sz k).
Proof.
  intros Hk. unfold payload. destruct v; try apply typed_error; [destruct b; [apply Hk | apply typed_error] | apply Hk |].
  apply typed_check. intros n _. apply Hk.
Qed.

Lemma typed_open_args args k : (forall a b c, typed (k a b c)) -> typed (open_args args k).
Proof. intros Hk. unfold open_args. do 3 (apply typed_check; intros ? _). apply Hk. Qed.

Lemma on_names_Ok {A} (m : ST (names Q) A) s x n' : m (registry s) = Ok (x, n') -> ctxs n' = ctxs (registry s) ->
  on_names m s = Ok (x, Api (a_server s) (nameDict n') (a_net s) (a_posted s) (a_room s)).
Proof.
  intros E Ec. unfold on_names. fold (registry s). rewrite E. unfold outcome_bind, mbind. cbn. rewrite Ec.
  by destruct s as [[[b g rn] t e] nm nt po ro].
Qed.

(** A look-up touches the dictionary only. *)
Lemma getId_reads name s : api_ok ctx s ->
  exists id s', on_names (nameMgrGetId name) s = Ok (id, s') /\ True /\ same_server s s' /\ api_ok ctx s'.
Proof.
  intros [W1 W2 W3 W4 W5 W6]. destruct (getId_spec 1 (registry s) name W1) as (n' & E & W' & _ & C').
  eexists _, _. split; [exact (on_names_Ok _ _ _ _ E C') |]. split; [done |]. split; [done |].
  assert (Er : registry (Api (a_server s) (nameDict n') (a_net s) (a_posted s) (a_room s)) = n').
  { unfold registry. cbn. rewrite <- (names_eta n'). by rewrite C'. }
  split; rewrite ?Er, ?C'; done.
Qed.

Lemma typed_target v k : (forall id, typed (k id)) -> typed (target v k).
Proof.
  intros Hk. unfold target. destruct v; try apply typed_error; try apply Hk.
  apply (typed_read _ (fun _ => True)); [apply getId_reads | intros id _; apply Hk].
Qed.

Lemma self_id_Ok s cx : heap (ctxs (registry s)) !! ctx = Some cx -> self_id ctx s = Ok (c_id cx, s).
Proof.
  intros E. unfold self_id, on_server, on_sys, on_pool, on_base, mbind, st_bind. cbn in E.
  rewrite (load_Ok _ _ _ E). by destruct s as [[[b g rn] t e] nm nt po ro].
Qed.

Lemma typed_self k : (forall me, typed (k me)) -> typed (me ← self_id ctx; k me).
Proof.
  intros Hk. apply (typed_read _ (fun _ => True)); [| intros a _; apply Hk]. intros s W. destruct (ao_ctx _ _ W) as [cx Ex].
  exists (c_id cx), s. by split; [apply self_id_Ok |].
Qed.
End typed.

Lemma returns_none alts : [] ∈ alts -> returns (Alts alts) [].
Proof. intros Hin. exists []. split; [done | constructor]. Qed.

Lemma returns_one alts t v : [t] ∈ alts -> has_shape v t -> returns (Alts alts) [v].
Proof. intros Hin Hv. exists [t]. split; [done | by repeat constructor]. Qed.

(** *** The operations that are called *)

Section calls.
  Variables (ctx : nat) (s0 : api) (exc : fault -> Prop).

(** A server in which a message can be sent. *)
Definition sendable (s : server Q G K) : Prop :=
  tbl_ok (sys_of s) /\ q_wf (gqueue (s_pool s)) /\
  forall a c, heap (sys_of s) !! a = Some c -> 1 <= c_ref c < 4294967295 /\ (c_inGlobal c = 0 \/ c_inGlobal c = 1) /\ q_wf (c_queue c).

Definition queue_full (s : server Q G K) : Prop :=
  exists a c m q, heap (sys_of s) !! a = Some c /\ q_push m (c_queue c) = Ok (false, q).

(** It keeps the contexts, and faults only if the queue of one is full. *)
Definition sends {A} (m : ST (server Q G K) A) (s : server Q G K) : Prop :=
  match m s with
  | Ok (_, s') => forall a, is_Some (heap (sys_of s) !! a) -> is_Some (heap (sys_of s') !! a)
  | Fault f => f = AssertFailed /\ queue_full s
  end.

Lemma zSend_sends octx sender from to se ty d n (s : server Q G K) : sendable s -> sends_as (s_pool s) octx sender ->
  (octx = None -> Z.land ty MSG_TYPE_NEWSESSION = 0) -> sends (zSend octx from to se ty d n) s.
Proof.
  intros (T & Wg & Hc) Hs Hty. unfold sends, zSend, on_pool. pose proof (slot_aget (sys_of s) to T) as Ea.
  destruct (slot _ to) as [a |] eqn:Es.
  2:{ destruct (workerPoolSend_nobody (s_pool s) octx sender (u32 from) (u32 to) se ty d n 0 Hs (or_intror Ea))
        as (p' & -> & Eb & _). unfold sys_of. cbn. by rewrite Eb. }
  destruct (Z.eq_dec (u32 to) 0) as [E0 | Hto].
  { destruct (workerPoolSend_nobody (s_pool s) octx sender (u32 from) (u32 to) se ty d n 0 Hs (or_introl E0))
      as (p' & -> & Eb & _). unfold sys_of. cbn. by rewrite Eb. }
  destruct (slot_heap _ _ _ T Es) as [c Ec]. destruct (Hc a c Ec) as (Hr & Hi & Wq).
  destruct (q_push_spec (c_queue c) (Message (send_from sender (u32 from)) (send_sess sender se ty) ty 0 n d) Wq) as (ok & q & Eq & _).
  destruct ok.
  - destruct (workerPoolSend_accepted (s_pool s) octx sender (u32 from) (u32 to) se ty d n 0 a c q
      Hs Hty Wg Hto Ea Ec Hr Hi Wq Eq) as (p' & -> & D). cbn.
    intros b [cb Eb]. destruct (decide (b = a)) as [-> | Hne]; [destruct (de_ctx _ _ _ _ _ D) as (c' & E' & _); by exists c' |].
    destruct (de_others _ _ _ _ _ D b cb Hne Eb) as (cb' & E' & _). by exists cb'.
  - rewrite (workerPoolSend_refused (s_pool s) octx sender (u32 from) (u32 to) se ty d n 0 a c q Hs Hty Hto Ea Ec Eq). cbn.
    split; [done |]. exists a, c. by eexists _, q.
Qed.

Lemma put_result_any a text (s : server Q G K) c : heap (sys_of s) !! a = Some c ->
  put_result a text s = Ok (Some (snprintf 32 text),
    with_sys s (with_heap (sys_of s) (<[a := set_c_result c (snprintf 32 text)]> (heap (sys_of s))))).
Proof.
  intros E. unfold put_result. rewrite (st_bind_Ok _ _ _ _ _ (on_sys_load _ _ _ E)).
  by rewrite (st_bind_Ok _ _ _ _ _ (on_sys_Ok (store a (set_c_result c (snprintf 32 text))) s tt _ eq_refl)).
Qed.

(** [set_timer] sends at most one message: the response to a delay of 0. *)
Lemma set_timer_sends c time noMore (s : server Q G K) : sendable s -> sends (set_timer c time noMore) s.
Proof.
  intros W. destruct (Z.eq_dec time 0) as [-> | Hz].
  2: { unfold sends. rewrite (set_timer_posts c time noMore s Hz). intros a Ha. exact Ha. }
  unfold sends, set_timer, on_timer. erewrite st_bind_Ok by reflexivity. cbn [timerTimeout Z.eqb]. unfold timerTimeout, respond.
  change (0 =? 0) with true. cbv iota. destruct (reachable (s_pool s) (i32 (c_id c))) eqn:Hr; cbn [fst snd].
  2: { erewrite st_bind_Ok by reflexivity. change (-1 <? 0) with true. cbn [fst snd]. rewrite drop_all. intros a Ha. exact Ha. }
  erewrite st_bind_Ok by reflexivity. set (s1 := Server _ _ _).
  assert (Hgo : sends (zSend None 0 (i32 (c_id c)) (c_sessionid c) MSG_TYPE_RESPONSE None 0) s1)
    by (apply (zSend_sends None None); [exact W | done | done]).
  unfold sends in Hgo.
  match goal with |- context [forward (drop ?n ?l)] => replace (drop n l) with [(i32 (c_id c), c_sessionid c)]
    by (symmetry; destruct (i32 (c_sessionid c) <? 0); apply drop_app_length) end.
  cbn [forward]. unfold mbind, st_bind.
  destruct (zSend _ _ _ _ _ _ _ s1) as [[x s2] | f]; [| exact Hgo]. exact Hgo.
Qed.

Lemma zQueueLenCmd_runs cmd parm (s : server Q G K) : sendable s ->
  match zQueueLenCmd ctx cmd parm s with
  | Ok _ => True
  | Fault f => f = NullDeref /\ slot (sys_of s) (i32 (strtol parm).1) = None
  end.
Proof.
  intros (T & _ & Hc). unfold zQueueLenCmd. destruct (strtol parm) as [n rest]. cbn [fst].
  pose proof (slot_aget (sys_of s) (i32 n) T) as Ea. destruct (slot _ (i32 n)) as [a |] eqn:Es.
  2: { by rewrite (st_bind_Ok _ _ _ _ _ (on_sys_Ok _ _ _ _ (ctxMgrGetContext_None (sys_of s) _ Ea))). }
  destruct (slot_heap _ _ _ T Es) as [c Ec]. destruct (Hc a c Ec) as (Hr & _).
  rewrite (st_bind_Ok _ _ _ _ _ (on_sys_Ok _ _ _ _ (ctxMgrGetContext_Ok (sys_of s) _ a c Ea Ec))).
  erewrite st_bind_Ok by reflexivity. rewrite u32_small by lia. set (c1 := set_c_ref c (c_ref c + 1)). set (s1 := with_sys s _).
  assert (E1 : heap (sys_of s1) !! a = Some c1) by apply lookup_insert_eq.
  rewrite (st_bind_Ok _ _ _ _ _ (on_sys_load _ _ _ E1)). set (text := print_d _).
  rewrite (st_bind_Ok _ _ _ _ _ (put_result_any a text s1 c1 E1)). set (s2 := with_sys s1 _).
  assert (E2 : heap (sys_of s2) !! a = Some (set_c_result c1 (snprintf 32 text))) by apply lookup_insert_eq.
  rewrite (st_bind_Ok _ _ _ _ _ (on_sys_Ok _ _ _ _ (ctxMgrReleaseContext_Ok a (sys_of s2) _ E2 ltac:(unfold c1; cbn; lia)))). set (s3 := with_sys s2 _).
  assert (E3 : heap (sys_of s3) !! a = Some (set_c_ref (set_c_result c1 (snprintf 32 text)) (c_ref c + 1 - 1))) by apply lookup_insert_eq.
  by rewrite (st_bind_Ok _ _ _ _ _ (on_sys_load _ _ _ E3)).
Qed.

Lemma zTimeoutCmd_runs cmd parm (s : server Q G K) c : sendable s -> heap (sys_of s) !! ctx = Some c -> 0 < c_sessionid c < 4294967295 ->
  match zTimeoutCmd ctx cmd parm s with Ok _ => True | Fault f => f = AssertFailed /\ queue_full s end.
Proof.
  intros (T & Wg & Hc) Ec Hs. unfold zTimeoutCmd. destruct (strtol parm) as [time rest], (strtol rest) as [noMore rest'].
  rewrite (st_bind_Ok _ _ _ _ _ (on_sys_Ok _ _ _ _ (contextNewsession_counts ctx (sys_of s) c Ec ltac:(lia)))).
  fold (renewed s ctx c). set (c0 := set_c_sessionid c (c_sessionid c + 1)). set (s1 := renewed s ctx c).
  assert (Ec0 : heap (sys_of s1) !! ctx = Some c0) by apply lookup_insert_eq.
  rewrite (st_bind_Ok _ _ _ _ _ (on_sys_load ctx _ _ Ec0)). change (i32 (c_id c0)) with (i32 (c_id c)).
  fold (set_timer (Q := Q) (G := G) (K := K) c (i32 time) (i32 noMore)).
  assert (Hback : forall a c', heap (sys_of s1) !! a = Some c' -> exists c2, heap (sys_of s) !! a = Some c2 /\
    c_ref c' = c_ref c2 /\ c_inGlobal c' = c_inGlobal c2 /\ c_queue c' = c_queue c2).
  { intros a c' E. change (heap (sys_of s1)) with (<[ctx := c0]> (heap (sys_of s))) in E.
    apply lookup_insert_Some in E as [(<- & <-) | (_ & E)]; [by exists c | by exists c']. }
  assert (W1 : sendable s1).
  { split; [by apply (tbl_ok_store (sys_of s) ctx c c0) |]. split; [exact Wg |]. intros a c' E.
    destruct (Hback a c' E) as (c2 & E2 & -> & -> & ->). by apply (Hc a). }
  pose proof (set_timer_sends c (i32 time) (i32 noMore) s1 W1) as Hp. unfold sends in Hp. unfold mbind at 1, st_bind at 1.
  destruct (set_timer _ _ _ s1) as [[sn s2] | f].
  - destruct (Hp ctx (mk_is_Some _ _ Ec0)) as [c2 E2]. by rewrite (put_result_any _ _ _ _ E2).
  - destruct Hp as (-> & a & c' & m & q & E & Eq). split; [done |].
    destruct (Hback a c' E) as (c2 & E2 & _ & _ & Ex). exists a, c2, m, q. by rewrite <- Ex.
Qed.

Lemma zCommand_runs cmd parm (s : server Q G K) c : sendable s -> heap (sys_of s) !! ctx = Some c -> 0 < c_sessionid c < 4294967295 ->
  match zCommand module_ok inst_ok module_init new_queue envGet ctx cmd parm s with
  | Ok _ => True
  | Fault f => f = AssertFailed /\ queue_full s \/ command_fault ctx cmd parm s f
  end.
Proof.
  intros W Ec Hs. unfold zCommand, cmdFunc, dispatch.
  destruct (decide (cmd = str "LAUNCH")) as [-> |].
  { destruct (zLauchCmd _ _ _ _ _ _ _ _) as [[] | f] eqn:E; [done |]. right. right. done. }
  destruct (decide (cmd = str "GETENV")) as [-> |]; [done |].
  destruct (decide (cmd = str "TIMEOUT")) as [-> |].
  { pose proof (zTimeoutCmd_runs (str "TIMEOUT") parm s c W Ec Hs) as Hr. destruct (zTimeoutCmd _ _ _ _) as [[] | f]; [done |]. by left. }
  destruct (decide (cmd = str "TIMECANCEL")) as [-> |].
  { unfold zTimerCancel. destruct (strtol parm) as [id rest].
    erewrite st_bind_Ok; [done |]. apply (on_timer_silent (fun accepts _ t => (tt, timerCancel accepts (u32 id) t))).
    unfold timerCancel, post. by destruct (em_accepts s). }
  destruct (decide (cmd = str "EXIT")) as [-> |].
  { unfold zExitCmd. destruct (strtol parm) as [to rest]. unfold mbind, st_bind.
    pose proof (zSend_sends (Some ctx) (Some c) 0 (i32 to) 0 MSG_TYPE_EXIT_CONTEXT None 0 s W (conj Ec Hs) ltac:(done)) as Hp.
    unfold sends, zSend in Hp. change (u32 0) with 0 in Hp.
    destruct (on_pool _ s) as [[x s'] | f]; [done |]. by left. }
  destruct (decide (cmd = str "QLEN")) as [-> |]; [| done].
  pose proof (zQueueLenCmd_runs (str "QLEN") parm s W) as Hr. destruct (zQueueLenCmd _ _ _ _) as [[] | f]; [done |].
  destruct Hr as [-> Hn]. right. by left.
Qed.

Lemma api_sendable s : api_ok ctx s -> sendable (a_server s).
Proof.
  intros W. split; [exact (no_tbl _ _ (ao_names _ _ W)) |]. split; [exact (ao_queue _ _ W) |]. intros a c Ec.
  destruct (ao_ctxs _ _ W a c Ec) as (_ & Hi & Wq). pose proof (no_refs _ _ (ao_names _ _ W) a c Ec). split; [lia | done].
Qed.

Lemma calls_zSend from to se ty d n :
  (queue_full (a_server s0) -> exc AssertFailed) -> calls ctx s0 exc (on_server (zSend (Some ctx) from to se ty d n)).
Proof.
  intros Hx s (E1 & _) W. destruct (ao_ctx _ _ W) as [cx Ex].
  pose proof (zSend_sends (Some ctx) (Some cx) from to se ty d n (a_server s) (api_sendable s W)
    (conj Ex (proj1 (ao_ctxs _ _ W ctx cx Ex))) ltac:(done)) as Hp. unfold sends in Hp. unfold on_server.
  destruct (zSend _ _ _ _ _ _ _ _) as [[] | f]; [done |]. destruct Hp as [-> Hq]. apply Hx. by rewrite <- E1.
Qed.

Lemma calls_names {A} (m : ST (names Q) A) : (forall n, names_ok 1 n -> exists x n', m n = Ok (x, n')) -> calls ctx s0 exc (on_names m).
Proof.
  intros Hm s _ W. destruct (Hm _ (ao_names _ _ W)) as (x & n' & E). unfold on_names. fold (registry s). by rewrite E.
Qed.

(** A request that is posted, or refused. *)
Lemma post_Ok room id q (n : net N) : table_ok n ->
  match tcpPostRequest room id q n with Ok _ => True | Fault f => f = AssertFailed /\ room = false end.
Proof.
  intros T. unfold tcpPostRequest. destruct room; [done |]. cbn [negb].
  destruct (Z.ltb_spec id 0) as [Hid | Hid].
  - rewrite (st_bind_Ok _ _ _ (-1) n); [done |]. unfold tcpRecoverId. by destruct (Z.ltb_spec id 0); [| lia].
  - destruct (slot_exists id n T) as [k E]. unfold mbind, st_bind. rewrite (tcpRecoverId_Ok id n k T Hid E). by destruct (bool_decide _).
Qed.

Lemma calls_post id q : (a_room s0 = false -> exc AssertFailed) -> calls ctx s0 exc (on_tcp (fun room => tcpPostRequest room id q)).
Proof.
  intros Hx s (_ & _ & _ & E4) W. unfold on_tcp. pose proof (post_Ok (a_room s) id q (a_net s) (ao_net _ _ W)) as Hp.
  destruct (tcpPostRequest _ _ _ _) as [[] | f]; [done |]. destruct Hp as [-> Hr]. cbn. apply Hx. by rewrite <- E4.
Qed.

Lemma calls_send_post q : calls ctx s0 exc (on_tcp (fun room => tcpPostRequest room (-1) q)).
Proof. intros s _ W. unfold on_tcp, tcpPostRequest. by destruct (a_room s). Qed.

Lemma calls_open q : (a_room s0 = false -> exc AssertFailed) ->
  (Forall (fun k => s_type k <> kSocketNoneType) (sockets (a_net s0)) -> exc AssertFailed) ->
  calls ctx s0 exc (on_tcp (fun room => id ← tcpGetReserveId; tcpPostRequest room id (q id))).
Proof.
  intros Hr Hf s (_ & E2 & _ & E4) W. pose proof (ao_net _ _ W) as T. unfold on_tcp.
  destruct (tcpGetReserveId_spec (a_net s) T (proj1 (ao_ids _ _ W)) (proj2 (ao_ids _ _ W))) as [(id & k & _ & Ek & _ & E) | [E Hall]].
  - rewrite (st_bind_Ok _ _ _ _ _ E). set (n' := with_sockets _ _).
    assert (T' : table_ok n') by (destruct T as [T1 T2 T3]; split; cbn; [done | done | by rewrite zlen_insert]).
    pose proof (post_Ok (a_room s) id (q id) n' T') as Hp. destruct (tcpPostRequest _ _ _ _) as [[] | f]; [done |].
    destruct Hp as [-> Hroom]. cbn. apply Hr. by rewrite <- E4.
  - rewrite (st_bind_Fault _ _ _ _ E). cbn. apply Hf. by rewrite <- E2.
Qed.

Lemma calls_zCommand cmd parm :
  (queue_full (a_server s0) -> exc AssertFailed) ->
  (forall f, command_fault ctx cmd parm (a_server s0) f -> exc f) ->
  calls ctx s0 exc (on_server (zCommand module_ok inst_ok module_init new_queue envGet ctx cmd parm)).
Proof.
  intros Hq Hx s (E1 & _) W. destruct (ao_ctx _ _ W) as [cx Ex]. unfold on_server. rewrite <- E1 in Hq, Hx.
  pose proof (zCommand_runs cmd parm (a_server s) cx (api_sendable s W) Ex (proj1 (ao_ctxs _ _ W ctx cx Ex))) as Hr.
  destruct (zCommand _ _ _ _ _ _ _ _ _) as [[] | f]; [done |]. destruct Hr as [[-> Hf] | Hf]; [by apply Hq | by apply Hx].
Qed.

Lemma calls_zSetCallback cb : calls ctx s0 exc (on_server (zSetCallback ctx cb)).
Proof.
  intros s _ W. destruct (ao_ctx _ _ W) as [cx Ex]. unfold on_server, zSetCallback.
  assert (E : contextSetCallback ctx cb (sys_of (a_server s)) = Ok (tt, with_heap (sys_of (a_server s)) (<[ctx := set_c_cb cx cb]> (heap (sys_of (a_server s))))))
    by (unfold contextSetCallback; by rewrite (st_bind_Ok _ _ _ _ _ (load_Ok _ _ _ Ex))).
  by rewrite (on_sys_Ok _ _ _ _ E).
Qed.

(** [NULL] as a name. *)
Lemma calls_null_regist id : exc NullDeref ->
  calls ctx s0 exc (o ← on_names (on_ctxs (ctxMgrGetContext (u32 id)));
                    match o with None => mret (-2) | Some _ => st_fault NullDeref end).
Proof.
  intros Hx s _ W. pose proof (no_tbl _ _ (ao_names _ _ W)) as T. unfold mbind, st_bind, on_names. fold (registry s).
  pose proof (slot_aget (ctxs (registry s)) id T) as Ea.
  destruct (slot (ctxs (registry s)) id) as [a |] eqn:Es.
  - destruct (slot_heap _ _ _ T Es) as [c Ec]. pose proof (no_refs _ _ (ao_names _ _ W) a c Ec).
    by rewrite (on_ctxs_Ok _ _ _ _ (get_Ok _ _ _ _ T Es Ec ltac:(lia))).
  - by rewrite (on_ctxs_Ok _ _ _ _ (ctxMgrGetContext_None _ _ Ea)).
Qed.

Lemma calls_null_get : exc NullDeref -> calls ctx s0 exc null_get.
Proof. intros Hx s _ _. unfold null_get. erewrite st_bind_Ok by reflexivity. by destruct (_ =? 0). Qed.

Lemma calls_bind_ret {A B} (m : ST api A) (b : B) : calls ctx s0 exc m -> calls ctx s0 exc (_ ← m; mret b).
Proof. intros Hm s Hs W. specialize (Hm s Hs W). unfold mbind, st_bind. by destruct (m s) as [[] |]. Qed.
End calls.

(** *** The functions of the table *)

Section functions.
  Variables (ctx : nat) (s0 : api) (args : list lval).
  Hypothesis Hargs : Forall (fun v => forall bs, pointee (lua_touserdata v) = Some bs -> Forall is_byte bs) args.
  Abbreviation ok name r f := (typed ctx s0 r (excused ctx name args s0) (f ctx args)).

(** Shapes of literal results. *)
Ltac shape := first
  [ eexists; split; [left | solve [repeat constructor]]
  | eexists; split; [right; left | solve [repeat constructor]]
  | eexists; split; [right; right; left | solve [repeat constructor]] ].
Ltac answers := intros; try case_match; eexists; (split; [reflexivity | shape]).

Lemma misused name f : misuse name args f -> excused ctx name args s0 f.
Proof. by left. Qed.

Lemma full_queue name : name ∈ [str "send"; str "redirect"; str "command"] -> queue_full (a_server s0) ->
  excused ctx name args s0 AssertFailed.
Proof. intros Hn (a & c & m & q & Ec & Eq). right. left. split; [done |]. by eapply ov_queue. Qed.

Lemma no_socket name : name ∈ [str "socket_listen"; str "socket_connect"; str "socket_asyncconnect"] ->
  Forall (fun k => s_type k <> kSocketNoneType) (sockets (a_net s0)) -> excused ctx name args s0 AssertFailed.
Proof. intros Hn Hall. right. left. split; [done |]. by apply ov_sockets. Qed.

Lemma no_room name :
  name ∈ [str "socket_listen"; str "socket_connect"; str "socket_asyncconnect"; str "socket_start"; str "socket_close"] ->
  a_room s0 = false -> excused ctx name args s0 AssertFailed.
Proof. intros Hn Hr. right. left. split; [done |]. by apply ov_request. Qed.

Lemma arg_bytes i bs : pointee (lua_touserdata (arg args i)) = Some bs -> Forall is_byte bs.
Proof.
  unfold arg. destruct (args !! pred i) as [v |] eqn:E; cbn [default]; [| done]. intros Hb.
  rewrite Forall_forall in Hargs. by apply (Hargs v); [eapply list_elem_of_lookup_2 |].
Qed.

Lemma pack_typed : ok (str "pack") (Alts [[TLight; TNumber]]) luaseri_pack.
Proof.
  unfold luaseri_pack. destruct (_luaseri_pack undef (to_seri <$> args)) as [bs | | f] eqn:E.
  - apply typed_ret. shape.
  - apply typed_error.
  - apply typed_fault, misused, mu_pack. intros [Hs Hl].
    destruct (luaseri_pack_tried undef true (to_seri <$> args)) as [[_ E'] | E']; [| done | congruence | congruence].
    eapply Forall_impl; [exact Hs | done].
Qed.

Lemma of_seri_serial v : plain v = true -> serial (of_seri v) = true.
Proof.
  induction v as [| b | n | p | s | arr pairs IHa IHp |] using Seri.lval_ind; try done.
  - intros _. cbn [of_seri]. unfold number_of. by destruct (_ && _).
  - intros [Ha Hp]%andb_true_iff. cbn [of_seri serial]. apply andb_true_iff. split.
    + clear IHp Hp. induction IHa as [| v l Hv _ IH]; [done |]. apply andb_true_iff in Ha as [H1' Ha]. cbn. by rewrite Hv, IH.
    + clear IHa Ha. induction IHp as [| v l [Hk Hv] _ IH]; [done |]. apply andb_true_iff in Hp as [[H1' H2']%andb_true_iff Hp]. cbn.
      by rewrite Hk, Hv, IH.
Qed.

Lemma unpack_typed : ok (str "unpack") Unpacked luaseri_unpack.
Proof.
  unfold luaseri_unpack.
  assert (Hgo : typed ctx s0 Unpacked (excused ctx (str "unpack") args s0)
    (check (lua_tointegerx (arg args 2)) (fun len =>
      let len := i32 len in
      if len =? 0 then mret (LRet [])
      else
        match pointee (lua_touserdata (arg args 1)) with
        | None => mret LError
        | Some buffer =>
          if len <? 0 then mret (LRet [])
          else
            bytes ← st_lift (acopy_out buffer 0 len);
            match _luaseri_unpack bytes with
            | LOk vs => mret (LRet (of_seri <$> vs))
            | LErr => mret LError
            | LFault f => st_fault f
            end
        end))).
  { apply typed_check. intros n En. cbv zeta. destruct (i32 n =? 0); [by apply typed_ret |].
    destruct (pointee _) as [buf |] eqn:Eb; [| apply typed_error]. destruct (Z.ltb_spec (i32 n) 0); [by apply typed_ret |].
    apply typed_lift.
    2:{ intros f Hf. pose proof (acopy_out_fault_inv _ _ _ _ Hf) as ->. apply misused. apply (mu_unpack _ buf n); [done | done |]. left.
        destruct (Z.le_gt_cases (i32 n) (zlen buf)) as [Hle |]; [| lia]. rewrite acopy_out_Ok in Hf by lia. done. }
    intros bytes Hc. assert (bytes = take (Z.to_nat (i32 n)) buf) as ->.
    { unfold acopy_out in Hc. destruct (_ && _); [| done]. by injection Hc as <-. }
    destruct (_luaseri_unpack _) as [vs | | f] eqn:Eu; [| apply typed_error |].
    - apply typed_ret. apply luaseri_unpack_plain in Eu. clear -Eu. cbn [returns].
      induction vs as [| v vs IH]; [done |]. cbn in Eu |- *. apply andb_true_iff in Eu as [Hv Eu]. by rewrite of_seri_serial, IH.
    - destruct (luaseri_unpack_safe _ f (Forall_take _ _ _ (arg_bytes _ _ Eb)) Eu) as (-> & Hu).
      apply typed_fault, misused. apply (mu_unpack _ buf n); [done | done | by right]. }
  destruct (arg args 1); first [exact Hgo | by apply typed_ret].
Qed.

Lemma net_pack_typed : ok (str "net_pack") (Alts [[TLight; TNumber]]) netpack.
Proof.
  unfold netpack. apply typed_check. intros seq _. apply typed_check. intros name Hn. apply typed_check. intros n En.
  set (src := pointee (lua_touserdata (arg args 3))).
  assert (Hmis : forall f, ~ (0 <= n <= zlen (default [] src) /\ zlen name + 8 + n + 4 < 2147483648) ->
    excused ctx (str "net_pack") args s0 f) by (intros f Hx; apply misused; by apply (mu_net_pack _ name n)).
  assert (Hcopy : forall o, (if n =? 0 then mret [] else b ← deref src; acopy_out b 0 n) = o ->
    match o with
    | Ok buf => zlen buf = n
    | Fault f => ~ (0 <= n <= zlen (default [] src))
    end).
  { intros o <-. destruct (Z.eqb_spec n 0) as [-> | Hne]; [done |]. destruct src as [b |]; cbn [deref]; [| cbn; change (zlen []) with 0; lia].
    rewrite bind_Ok. change (default [] (Some b)) with b. unfold acopy_out.
    destruct (Z.leb_spec 0 0), (Z.leb_spec 0 n), (Z.leb_spec (0 + n) (zlen b)); try lia; cbn [andb]; try lia.
    change (Z.to_nat 0) with 0%nat. rewrite drop_0. apply zlen_take. lia. }
  apply typed_lift; [| intros f Ef; apply Hcopy in Ef; apply Hmis; tauto].
  intros buf Ebuf. apply Hcopy in Ebuf. apply typed_lift.
  - intros [body len] _. apply typed_ret. shape.
  - intros f Ef. apply Hmis. intros [Hr Hl]. subst n. by rewrite netpack_block in Ef by lia.
Qed.

Lemma net_unpack_typed :
  ok (str "net_unpack") (Alts [[TBoolean; TString]; [TBoolean; TNumber; TString; TLight; TNumber]]) netunpack.
Proof.
  unfold netunpack. apply typed_check. intros n En. unfold to_int.
  destruct (Z.leb_spec (-2147483648) n), (Z.ltb_spec n 2147483648); cbn [andb];
    try (apply typed_fault, misused, (mu_net_unpack _ n); [done | lia]).
  apply typed_lift.
  2:{ intros f Ef. apply misused, (mu_net_unpack _ n); [done |]. intros (_ & buf & Eb & _). by rewrite Eb in Ef. }
  intros buf Eb. assert (Hb : pointee (lua_touserdata (arg args 1)) = Some buf) by (destruct (pointee _); [by injection Eb as -> | done]).
  apply typed_lift.
  - intros [[[seq name] [off k]] |] _; apply typed_ret; shape.
  - intros f Ef. apply misused, (mu_net_unpack _ n); [done |]. intros (_ & buf' & Eb' & H8 & Hn & Hl).
    rewrite Hb in Eb'. injection Eb' as <-. destruct (netunpack_Ok buf n H8 Hn Hl) as [x Ex]. congruence.
Qed.
(** A fault of the listed misuses. *)
Ltac mu c := apply misused; by eapply c.

Lemma open_typed (mk : Z -> Z -> list Z -> Z -> Z -> tcpRequest) name :
  name ∈ [str "socket_listen"; str "socket_connect"; str "socket_asyncconnect"] ->
  typed ctx s0 (Alts [[TNumber]]) (excused ctx name args s0)
    (open_args args (fun protoType addr port =>
      me ← self_id ctx;
      ret ← on_tcp (fun room => id ← tcpGetReserveId; tcpPostRequest room id (mk me protoType addr port id));
      mret (LRet [LNumber ret]))).
Proof.
  intros Hn. apply typed_open_args. intros a b c. apply typed_self. intros me. apply typed_call; [| answers].
  apply calls_open; [apply no_room; set_solver | by apply no_socket].
Qed.

Lemma post_typed name (mk : Z -> Z -> tcpRequest) : name ∈ [str "socket_start"; str "socket_close"] ->
  typed ctx s0 (Alts [[TNumber]]) (excused ctx name args s0)
    (check (lua_tointegerx (arg args 1)) (fun id =>
      me ← self_id ctx;
      ret ← on_tcp (fun room => tcpPostRequest room (i32 id) (mk me (i32 id))); mret (LRet [LNumber ret]))).
Proof.
  intros Hn. apply typed_check. intros id _. apply typed_self. intros me. apply typed_call; [| answers].
  apply calls_post, no_room. set_solver.
Qed.

Lemma socketSend_typed : ok (str "socket_send") (Alts [[TNumber]]) _socketSend.
Proof.
  unfold _socketSend.
  assert (Hgo : forall ids, (zlen ids = 0 -> exists pairs, arg args 1 = LTable [] pairs) ->
    typed ctx s0 (Alts [[TNumber]]) (excused ctx (str "socket_send") args s0) (if zlen ids >? 500 then mret LError
    else if zlen ids =? 0 then st_fault OutOfBounds
    else payload false (arg args 2) (arg args 3) (fun data sz =>
      me ← self_id ctx; ret ← on_tcp (fun room => tcpSocketSend room me ids data sz); mret (LRet [LNumber (u32 ret)])))).
  { intros ids Hz. destruct (_ >? _); [apply typed_error |]. destruct (Z.eqb_spec (zlen ids) 0) as [E |].
    - destruct (Hz E) as [pairs Ep]. apply typed_fault. mu mu_socket_send.
    - apply typed_payload. intros d n'. apply typed_self. intros me. apply typed_call; [apply calls_send_post | answers]. }
  destruct (arg args 1) as [| | | | | | | l pairs |] eqn:Ea; try apply typed_error; apply Hgo; try done.
  intros Hz. exists pairs. f_equal. unfold zlen in Hz. rewrite length_fmap in Hz. by destruct l.
Qed.

Lemma socketunpack_typed :
  ok (str "socket_unpack") (Alts [[]; [TNumber; TNumber; TNumber]; [TNumber; TNumber; TNumber; TLight; TNumber]]) _socketunpack.
Proof.
  unfold _socketunpack. destruct (arg args 1) as [| | | | | | p | |] eqn:Ea; try (apply typed_error || (apply typed_ret; shape)).
  cbn [lua_touserdata]. destruct p as [| bs | m]; [apply typed_error | apply typed_fault | apply typed_ret].
  - apply misused, (mu_socket_unpack _ bs). by rewrite Ea.
  - destruct (sm_data m); shape.
Qed.

Lemma sockettostring_typed : ok (str "socket_tostring") (Alts [[]; [TString]]) _sockettostring.
Proof.
  unfold _sockettostring.
  assert (Hgo : typed ctx s0 (Alts [[]; [TString]]) (excused ctx (str "socket_tostring") args s0)
    (match pointee (lua_touserdata (arg args 1)) with
    | None => mret LError
    | Some buf => check (lua_tointegerx (arg args 2)) (fun sz => s ← st_lift (acopy_out buf 0 (u64 (i32 sz))); mret (LRet [LString s]))
    end)).
  { destruct (pointee _) as [buf |] eqn:Eb; [| apply typed_error]. apply typed_check. intros n En. apply typed_lift.
    - intros bs _. apply typed_ret. shape.
    - intros f Ef. pose proof (acopy_out_fault_inv _ _ _ _ Ef) as ->. apply misused, (mu_socket_tostring _ buf n); [done | done |].
      intros Hn. pose proof (i32_range n). rewrite u64_small in Ef by lia. by rewrite acopy_out_Ok in Ef by lia. }
  destruct (arg args 1); first [exact Hgo | apply typed_ret; shape].
Qed.

Lemma command_typed : ok (str "command") (Alts [[]; [TString]]) _command.
Proof.
  unfold _command. apply typed_check. intros cmd Ec. destruct (Nat.eqb_spec (length args) 2) as [_ | Hl].
  - apply typed_check. intros parm Ep. apply typed_call; [| answers].
    apply calls_zCommand; [apply full_queue; set_solver |]. intros f Ef. right. right. split; [done |]. by exists cmd, parm.
  - case_decide; [apply typed_fault; mu mu_command | apply typed_ret; shape].
Qed.

Lemma callback_typed : ok (str "callback") (Alts [[]]) _callback.
Proof.
  unfold _callback. destruct (arg args 1); try apply typed_error.
  apply typed_call; [apply calls_zSetCallback | answers].
Qed.

Lemma send_typed : ok (str "send") (Alts [[]; [TNumber]]) _send.
Proof.
  unfold _send. apply typed_target. intros to. apply typed_check. intros ty _.
  assert (Hgo : forall ty session, typed ctx s0 (Alts [[]; [TNumber]]) (excused ctx (str "send") args s0)
    (payload true (arg args 4) (arg args 5) (fun data sz =>
    session ← on_server (zSend (Some ctx) 0 to (u32 session) (u32 ty) data sz);
    mret (if session <? 0 then LRet [] else LRet [LNumber session])))).
  { intros ty' session. apply typed_payload. intros d n'. apply typed_call; [| answers].
    apply calls_zSend, full_queue. set_solver. }
  destruct (arg args 2); first [apply Hgo | apply typed_check; intros n' _; apply Hgo].
Qed.

Lemma redirect_typed : ok (str "redirect") (Alts [[]]) _redirect.
Proof.
  unfold _redirect. apply typed_target. intros fr. apply typed_target. intros to. do 2 (apply typed_check; intros ? _).
  apply typed_payload. intros d n'. apply typed_call; [| answers].
  apply calls_zSend, full_queue. set_solver.
Qed.

Lemma regist_typed : ok (str "regist") (Alts [[TNumber]]) _regist.
Proof.
  unfold _regist. apply typed_self. intros me.
  assert (Hgo : forall id, typed ctx s0 (Alts [[TNumber]]) (excused ctx (str "regist") args s0)
    (ret ← (match lua_tostring (arg args 1) with
           | Some name => on_names (nameMgrRegist (cut name) id)
           | None =>
             o ← on_names (on_ctxs (ctxMgrGetContext (u32 id)));
             match o with None => mret (-2) | Some _ => st_fault NullDeref end
           end);
    mret (LRet [LNumber ret]))).
  { intros id. apply typed_call; [| answers]. destruct (lua_tostring (arg args 1)) as [name |] eqn:En.
    - apply calls_names. intros n' W. destruct (regist_spec 0 n' (cut name) id W ltac:(lia)) as (x & s' & E & _). by exists x, s'.
    - apply calls_null_regist, misused, mu_no_name; [set_solver | done]. }
  destruct (arg args 2); first [apply Hgo | apply typed_error].
Qed.

Lemma unregist_typed : ok (str "unregist") (Alts [[TNumber]]) _unregist.
Proof.
  unfold _unregist. apply typed_call; [| answers]. destruct (lua_tostring (arg args 1)) as [name |] eqn:En.
  - apply calls_names. intros n' W. destruct (unregist_spec 0 n' (cut name) W ltac:(lia)) as (x & s' & E & _). by exists x, s'.
  - apply calls_bind_ret, calls_null_get, misused, mu_no_name; [set_solver | done].
Qed.

Lemma name2id_typed : ok (str "name2id") (Alts [[]; [TNumber]]) _name2id.
Proof.
  unfold _name2id. apply typed_call; [| answers]. destruct (lua_tostring (arg args 1)) as [name |] eqn:En.
  - apply calls_names. intros n' W. destruct (getId_spec 1 n' (cut name) W) as (s' & E & _). by eexists _, s'.
  - apply calls_null_get, misused, mu_no_name; [set_solver | done].
Qed.

Lemma text_pack_typed : ok (str "text_pack") (Alts [[TLight; TNumber]]) _textpack.
Proof. unfold _textpack. apply typed_check. intros s _. apply typed_ret. shape. Qed.

Lemma text_unpack_typed : ok (str "text_unpack") (Alts [[]]) _textunpack.
Proof. apply typed_ret. shape. Qed.

Lemma self_typed : ok (str "self") (Alts [[TNumber]]) _self.
Proof. unfold _self. apply typed_self. intros me. apply typed_ret. shape. Qed.

Lemma lib_typed i name f r : lib !! i = Some (name, f) -> signatures !! i = Some (name, r) -> ok name r f.
Proof.
  intros Ef Es. repeat (destruct i as [| i]; [injection Ef as <- <-; injection Es as <- | try discriminate]).
  - exact pack_typed.
  - exact unpack_typed.
  - exact net_pack_typed.
  - exact net_unpack_typed.
  - exact text_pack_typed.
  - exact text_unpack_typed.
  - apply (open_typed (fun me protoType addr port id => Request me [id] (kTcpSocketListen (addr32 addr) port protoType SOMAXCONN))). set_solver.
  - apply (open_typed (fun me protoType addr port id => Request me [id] (kTcpSocketConnect (addr32 addr) port protoType))). set_solver.
  - apply (open_typed (fun me protoType addr port id => Request me [id] (kTcpSocketAsyncConnect (addr32 addr) port protoType))). set_solver.
  - apply (post_typed _ (fun me id => Request me [id] kTcpSocketStart)). set_solver.
  - exact socketSend_typed.
  - apply (post_typed _ (fun me id => Request me [id] kTcpSocketClose)). set_solver.
  - exact socketunpack_typed.
  - exact sockettostring_typed.
  - exact command_typed.
  - exact callback_typed.
  - exact redirect_typed.
  - exact send_typed.
  - exact regist_typed.
  - exact unregist_typed.
  - exact name2id_typed.
  - exact self_typed.
Qed.
End functions.


(** ** Sending by name *)

Lemma newsession_bit ty : negb (Z.land (u32 (Z.lor ty MSG_TYPE_NEWSESSION)) MSG_TYPE_NEWSESSION =? 0) = true.
Proof.
  unfold u32. change 4294967296 with (2 ^ 32). rewrite <- Z.land_ones, <- Z.land_assoc by lia.
  change (Z.land (Z.ones 32) MSG_TYPE_NEWSESSION) with MSG_TYPE_NEWSESSION.
  rewrite Z.land_lor_distr_l, Z.land_diag. apply negb_true_iff, Z.eqb_neq. intros E. apply Z.lor_eq_0_iff in E as [_ E]. done.
Qed.

(** C27: a message by name, from Lua to the queue of the target.  If the name is
    registered, [send(name, nil, type, text)] looks it up, puts one message last
    into the queue of the context with that identifier, from the caller, with a
    new session of the caller and the bytes of the text, schedules the target,
    and returns the session; the names stay as they are. *)
Theorem send_by_name ctx cx name ty text s to a c q :
  names_ok 1 (registry s) -> q_wf (gqueue (s_pool (a_server s))) ->
  ids (registry s) !! cut name = Some to -> 0 < to < 2147483648 ->
  heap (ctxs (registry s)) !! ctx = Some cx -> 0 < c_sessionid cx < 2147483648 ->
  slot (ctxs (registry s)) to = Some a -> heap (ctxs (registry s)) !! a = Some c ->
  c_inGlobal c = 0 \/ c_inGlobal c = 1 ->
  let m := Message (c_id cx) (c_sessionid cx) (u32 (Z.lor (i32 ty) MSG_TYPE_NEWSESSION)) 0 (zlen text) (Some (text ++ [undef])) in
  q_wf (c_queue c) -> q_push m (c_queue c) = Ok (true, q) ->
  exists s', _send ctx [LString name; LNil; LNumber ty; LString text] s = Ok (LRet [LNumber (c_sessionid cx)], s') /\
    delivered (s_pool (a_server s)) (s_pool (a_server s')) a c m /\ ids (registry s') = ids (registry s) /\
    a_net s' = a_net s /\ a_posted s' = a_posted s /\ s_timer (a_server s') = s_timer (a_server s).
Proof.
  intros W Wq En Hto Ex Hse Es Ec Hi m Wc Ep. pose proof (no_tbl _ _ W) as T. pose proof (no_refs _ _ W _ _ Ec) as Hr.
  destruct (getId_spec 1 (registry s) (cut name) W) as (n' & E1 & W1 & I1 & C1). rewrite En in E1. cbn [default] in E1.
  change (_send ctx [LString name; LNil; LNumber ty; LString text] s) with
    ((i ← on_names (nameMgrGetId (cut name));
      session ← on_server (zSend (Some ctx) 0 i (u32 0) (u32 (Z.lor (i32 ty) MSG_TYPE_NEWSESSION)) (Some (text ++ [undef])) (zlen text));
      mret (if session <? 0 then LRet [] else LRet [LNumber session])) s).
  rewrite (st_bind_Ok _ _ _ _ _ (on_names_Ok _ _ _ _ E1 C1)). set (s1 := Api _ _ _ _ _).
  assert (Hs : heap (base (s_pool (a_server s))) !! ctx = Some cx /\ 0 < c_sessionid cx < 4294967295) by (split; [exact Ex | lia]).
  destruct (workerPoolSend_accepted (s_pool (a_server s)) (Some ctx) (Some cx) (u32 0) (u32 to) (u32 0)
    (u32 (Z.lor (i32 ty) MSG_TYPE_NEWSESSION)) (Some (text ++ [undef])) (zlen text) 0 a c q Hs ltac:(done) Wq) as (p' & E2 & D);
    rewrite ?(u32_small to) in * by lia; [lia | | done | lia | done | done | |].
  - pose proof (slot_aget (ctxs (registry s)) to T) as Ea. rewrite (u32_small to), Es in Ea by lia. exact Ea.
  - unfold send_from, send_sess. rewrite newsession_bit. exact Ep.
  - unfold send_from, send_sess in E2, D. rewrite newsession_bit in E2, D. cbn [Z.eqb u32] in E2, D.
    assert (E3 : on_server (zSend (Some ctx) 0 to (u32 0) (u32 (Z.lor (i32 ty) MSG_TYPE_NEWSESSION)) (Some (text ++ [undef])) (zlen text)) s1 =
      Ok (c_sessionid cx, Api (Server p' (s_timer (a_server s)) (em_accepts (a_server s))) (nameDict n') (a_net s) (a_posted s) (a_room s))).
    { unfold on_server, zSend, on_pool. cbn [a_server s1]. rewrite (u32_small to) by lia. rewrite E2. cbn. by rewrite i32_small by lia. }
    rewrite (st_bind_Ok _ _ _ _ _ E3). destruct (Z.ltb_spec (c_sessionid cx) 0); [lia |].
    eexists. split; [reflexivity |]. split; [exact D |]. split; [| done]. rewrite <- I1. done.
Qed.
(** ** Launching an actor that runs Lua *)

Lemma zluaInit_Ok a args c q ok g (s : server Q G K) :
  heap (sys_of s) !! a = Some c -> 1 <= c_id c < 2147483647 -> 0 < c_sessionid c < 4294967295 ->
  aget (contexts (sys_of s)) (c_id c mod setsize (sys_of s)) = Ok (Some a) -> c_inGlobal c = 0 ->
  q_push (Message (c_id c) 0 0 0 (zlen args) (Some (args ++ [undef]))) (c_queue c) = Ok (true, q) ->
  q_push a (gqueue (s_pool s)) = Ok (ok, g) ->
  zluaInit a (Some args) s = Ok (0, Server
    (Pool (with_heap (sys_of s) (<[a := set_c_inGlobal (set_c_queue (set_c_ref (set_c_cb c true) (c_ref c +u 1)) q) 1]> (heap (sys_of s))))
      g (running (s_pool s))) (s_timer s) (em_accepts s)).
Proof.
  intros Ec Hid Hs Ea Hi Eq Eg. unfold zluaInit. erewrite st_bind_Ok by reflexivity.
  assert (E1 : zSetCallback a true s = Ok (tt, with_sys s (with_heap (sys_of s) (<[a := set_c_cb c true]> (heap (sys_of s)))))).
  { unfold zSetCallback. apply on_sys_Ok. unfold contextSetCallback. by rewrite (st_bind_Ok _ _ _ _ _ (load_Ok _ _ _ Ec)). }
  rewrite (st_bind_Ok _ _ _ _ _ E1). set (s1 := with_sys s _). set (c1 := set_c_cb c true) in *.
  assert (Ec1 : heap (sys_of s1) !! a = Some c1) by apply lookup_insert_eq.
  rewrite (st_bind_Ok _ _ _ _ _ (on_sys_load a s1 c1 Ec1)). cbn [c_id c1 set_c_cb]. rewrite i32_small by lia.
  pose proof (workerPoolSend_schedules (s_pool s1) (Some a) (Some c1) 0 (c_id c) 0 0 (Some (args ++ [undef])) (zlen args) 0 a c1 q ok g
    (conj Ec1 Hs) eq_refl ltac:(lia) Ea Ec1 Hi Eq Eg) as E2.
  unfold zSend, on_pool. unfold mbind, st_bind. change (u32 0) with 0. rewrite (u32_small (c_id c)) by lia.
  cbn beta. rewrite E2. cbn. unfold with_heap. cbn. by rewrite insert_insert_eq.
Qed.

(** C35: starting and stopping actors by command.  [LAUNCH zlua <script and
    arguments>] by a registered actor makes a new context with an identifier no
    other has, finds the others as before, runs [zluaInit] on it, and answers with
    the identifier in decimal.  When it returns the new actor has its callback set
    and is scheduled, and its queue holds one message, from itself, with the rest of
    the parameters as its data: the first dispatch hands that to the callback.
    [EXIT] with the answer, at any later time, sends the exit message to exactly
    that identifier. *)
Theorem launch_then_exit ctx i sep args (s : server Q G K) :
  (forall a parm, module_init (str "zlua") a parm = zluaInit a parm) ->
  module_ok (str "zlua") = true -> inst_ok (str "zlua") = true ->
  sys_ok (sys_of s) -> registered (sys_of s) i ctx -> sep ∈ blanks -> Forall (fun x => one_of [13; 10] x = false) args ->
  q_wf (gqueue (s_pool s)) -> q_wf new_queue -> q_elems new_queue = [] ->
  let start id := Message id 0 0 0 (zlen args) (Some (args ++ [undef])) in
  (forall id, exists q, q_push (start id) new_queue = Ok (true, q)) ->
  let run := zCommand module_ok inst_ok module_init new_queue envGet ctx in
  let a := next (sys_of s) in
  exists id s1 c,
    run (str "LAUNCH") (str "zlua" ++ sep :: args) s = Ok (Some (print_d id), s1) /\
    1 <= id < 2147483647 /\ tbl_ok (sys_of s1) /\ registered (sys_of s1) id a /\
    (forall id' b, registered (sys_of s) id' b -> registered (sys_of s1) id' b /\ id' <> id) /\
    heap (sys_of s1) !! a = Some c /\ c_cb c = true /\ c_inGlobal c = 1 /\ c_ref c = 2 /\ c_name c = str "c_" ++ print_d id /\
    q_elems (c_queue c) = [start id] /\
    (exists ok, q_push a (gqueue (s_pool s)) = Ok (ok, gqueue (s_pool s1))) /\
    (exists b, contextDispatchMessage a (sys_of s1) = Ok ((0, Some (start id)), b)) /\
    forall s2, run (str "EXIT") (print_d id) s2 =
      (_ ← on_pool (workerPoolSend (Some ctx) 0 id 0 MSG_TYPE_EXIT_CONTEXT None 0 0); mret None) s2.
Proof.
  intros Hinit Hm Hk W Hctx Hsep Hargs Wg Wn En start Hroom run a.
  destruct (zLauchCmd_runs module_ok inst_ok module_init new_queue (str "zlua") sep args (str "LAUNCH") ctx s W Hm Hk
    ltac:(by repeat constructor) Hsep Hargs) as (id & b & (Hid & Tb & Rb & Hb & Ro) & E). fold a in Rb, Hb, E.
  destruct (Hroom id) as [q Eq]. destruct (q_push_spec new_queue (start id) Wn) as (ok0 & q0 & Eq0 & Wq & El).
  rewrite Eq in Eq0. injection Eq0 as <- <-. rewrite En in El.
  destruct (q_push_spec (gqueue (s_pool s)) a Wg) as (ok & g & Eg & _).
  assert (Ea : heap b !! a = Some (new_context new_queue id)) by (rewrite Hb; apply lookup_insert_eq).
  assert (Eslot : aget (contexts b) (id mod setsize b) = Ok (Some a)).
  { destruct Rb as [Hs _]. pose proof (tk_size _ Tb). pose proof (Z.mod_pos_bound id (setsize b) ltac:(lia)).
    destruct (aget_is_Ok (contexts b) (id mod setsize b)) as (o & Eo & ->); [by rewrite (tk_len _ Tb) |]. congruence. }
  pose proof (zluaInit_Ok a args (new_context new_queue id) q ok g (with_sys s b) Ea ltac:(cbn; lia) ltac:(cbn; lia) Eslot eq_refl Eq Eg) as Ei.
  set (c := set_c_inGlobal _ _) in Ei. set (s0 := Server _ _ _) in Ei. rewrite Hinit in E. rewrite (st_bind_Ok _ _ _ _ _ Ei) in E. cbn [Z.eqb negb] in E.
  assert (Ea0 : heap (sys_of s0) !! a = Some c) by apply lookup_insert_eq.
  rewrite (st_bind_Ok _ _ _ _ _ (on_sys_load a s0 c Ea0)) in E. cbn [c_id c set_c_inGlobal set_c_queue set_c_ref set_c_cb new_context] in E.
  rewrite i32_small in E by lia.
  destruct (tbl_ok_store b a _ c Tb Ea eq_refl) as [T1 R1]. change (with_heap b (<[a:=c]> (heap b))) with (sys_of s0) in T1, R1.
  destruct (Ro _ _ Hctx) as [Hctxb _]. apply R1 in Hctxb as [Hslot (cx & Ex & Hx)].
  assert (Hne : ctx <> a).
  { intros ->. destruct Hctx as [_ (c0 & Ec0 & _)]. pose proof (so_next _ W) as Hn. unfold a in Ec0. congruence. }
  rewrite (put_result_Ok ctx (print_d id) s0 cx Ex) in E by (pose proof (print_short id ltac:(lia)); lia).
  destruct (tbl_ok_store (sys_of s0) ctx cx (set_c_result cx (print_d id)) T1 Ex eq_refl) as [T2 R2].
  assert (Ea2 : <[ctx := set_c_result cx (print_d id)]> (heap (sys_of s0)) !! a = Some c) by by rewrite lookup_insert_ne.
  eexists id, _, c. split; [exact E |]. split; [done |]. split; [exact T2 |]. split; [by apply R2, R1 |].
  split; [intros id' b' Hr; destruct (Ro _ _ Hr); by split; [apply R2, R1 |] |]. split; [exact Ea2 |].
  do 4 (split; [done |]). split; [exact El |]. split; [by exists ok |]. split.
  - set (b2 := sys_of _). destruct (contextDispatchMessage_Ok a b2 c (start id) [] Ea2 Wq El eq_refl ltac:(done)) as (q' & Ed & _). by eexists.
  - intros s2. by apply zExitCmd_sends.
Qed.
End LuaApi.
Arguments api : clear implicits.

(** ** A server with one named actor *)

Definition demo_api (d : dict (list Z) name2id) : api (lfq message) (lfq nat) (gmap Z Z) (gmap Z Z) :=
  Api demo_server d (tcpInit 4 (aeCreateEventLoop 32 0 ∅)) [] true.

(** Lua without conversions between strings and numbers; one module, zlua. *)
Definition demo_init (md : list Z) (inst : nat) (parm : option (list Z)) : ST (server (lfq message) (lfq nat) (gmap Z Z)) Z :=
  if decide (md = str "zlua") then zluaInit 170 inst parm else mret 1.

Definition demo_modules (md : list Z) : bool := bool_decide (md = str "zlua").

Definition demo_lib :=
  lib (Q := lfq message) (G := lfq nat) (K := gmap Z Z) (N := gmap Z Z) (fun _ => None) dbl_trunc print_d (fun _ => []) (fun _ => [])
    (fun _ => 0) (fun _ => PNull) 170 demo_modules (fun _ => true) demo_init (MessageQueue.messageQueueCreate 4) (fun _ d => d).

Lemma demo_api_ok : api_ok 0 (demo_api dictCreate).
Proof.
  assert (Hh : forall a c, heap full_table !! a = Some c -> c_ref c = 1 /\ c_sessionid c = 1 /\ c_inGlobal c = 0 /\ c_queue c = MessageQueue.messageQueueCreate 4).
  { intros a c E. cbn in E. apply lookup_insert_Some in E as [[_ <-] | [_ E]]; [done |]. by apply lookup_singleton_Some in E as [_ <-]. }
  split.
  - split; [apply dictCreate_wf | by vm_compute | exact full_table_ok |]. intros a c E. destruct (Hh a c E) as (-> & _). lia.
  - apply (lfCreate_wf 0%nat 4). lia.
  - by exists ctx0.
  - intros a c E. destruct (Hh a c E) as (_ & -> & -> & ->). split; [lia |]. split; [by left |]. apply (lfCreate_wf MessageQueue.zero_message 4). lia.
  - split; [by exists 2 | by vm_compute | by vm_compute].
  - by vm_compute.
Qed.


Lemma launch_then_exit_witness :
  exists id s1 c, zCommand demo_modules (fun _ => true) demo_init (MessageQueue.messageQueueCreate 4) (fun _ d => d) 0%nat
      (str "LAUNCH") (str "zlua main.lua debug") demo_server = Ok (Some (print_d id), s1) /\
    registered (sys_of s1) id 2 /\ registered (sys_of s1) 1 0 /\ heap (sys_of s1) !! 2%nat = Some c /\ c_cb c = true /\
    q_elems (c_queue c) = [Message id 0 0 0 14 (Some (str "main.lua debug" ++ [170]))].
Proof.
  destruct (launch_then_exit 170 demo_modules (fun _ => true) demo_init (MessageQueue.messageQueueCreate 4) (fun _ d => d)
    0 1 32 (str "main.lua debug") demo_server)
    as (id & s1 & c & E & _ & _ & R & Ro & Ea & Hcb & _ & _ & _ & El & _);
    [reflexivity | reflexivity | reflexivity | exact demo_sys_ok | split; [reflexivity |]; by exists ctx0 | by left
    | by repeat constructor | apply (lfCreate_wf 0%nat 4); lia | apply (lfCreate_wf MessageQueue.zero_message 4); lia | reflexivity
    | intros id; eexists; reflexivity |].
  exists id, s1, c. split; [exact E |]. split; [exact R |].
  split; [exact (proj1 (Ro 1 0%nat (conj eq_refl (ex_intro _ ctx0 (conj eq_refl eq_refl))))) |].
  split; [exact Ea |]. split; [exact Hcb | exact El].
Defined.

Lemma send_by_name_witness :
  exists d s', abs d !! str "db" = Some (Name2id (str "db") 1) /\
    _send (fun _ => None) dbl_trunc (fun _ => []) 170 0 [LString (str "db"); LNil; LNumber 2; LString (str "ping")] (demo_api d) =
      Ok (LRet [LNumber 1], s') /\
    delivered (s_pool demo_server) (s_pool (a_server s')) 0 ctx0 (Message 1 1 0x80002 0 4 (Some (str "ping" ++ [170]))).
Proof.
  destruct (dictCreate_wf (V := name2id) _dictHashFunction) as [D0 A0].
  destruct (dictAdd_spec _dictHashFunction junk true dictCreate (str "db") (Name2id (str "db") 1) D0 ltac:(by vm_compute))
    as (r & d & _ & D & Hd).
  destruct Hd as [(Hin & _) | (_ & _ & P)]; [by apply not_elem_of_nil in Hin |].
  destruct (abs_Some _dictHashFunction d _ _ _ D P) as (Ea & _).
  assert (Wq : q_wf (c_queue ctx0)) by (apply (lfCreate_wf MessageQueue.zero_message 4); lia).
  destruct (q_push_spec (c_queue ctx0) (Message 1 1 0x80002 0 4 (Some (str "ping" ++ [170]))) Wq)
    as (ok & q & Eq & _).
  assert (ok = true) as -> by (assert (Eo : (r ← q_push (Message 1 1 0x80002 0 4 (Some (str "ping" ++ [170]))) (c_queue ctx0); Ok r.1) = Ok true) by reflexivity;
    rewrite Eq in Eo; by injection Eo).
  exists d. destruct (send_by_name (K := gmap Z Z) (N := gmap Z Z) (fun _ => None) dbl_trunc (fun _ => []) 170 0 ctx0 (str "db") 2 (str "ping") (demo_api d) 1 0 ctx0 q)
    as (s' & E & Dl & _).
  - split; [exact D | | exact full_table_ok |].
    + cbn [registry nameDict a_names demo_api]. unfold zlen. rewrite P. by vm_compute.
    + intros a c Ec. cbn in Ec. apply lookup_insert_Some in Ec as [[<- <-] | [_ Ec]]; [by vm_compute |].
      apply lookup_singleton_Some in Ec as [<- <-]. by vm_compute.
  - apply (lfCreate_wf 0%nat 4). lia.
  - unfold ids. rewrite lookup_fmap. cbn [registry nameDict a_names demo_api]. change (cut (str "db")) with (str "db"). by rewrite Ea.
  - by vm_compute.
  - reflexivity.
  - by vm_compute.
  - reflexivity.
  - reflexivity.
  - by left.
  - exact Wq.
  - exact Eq.
  - exists s'. split; [exact Ea |]. split; [exact E | exact Dl].
Defined.
