(* ===== verification/Env.v ===== *)
(** * env.c: the settings

    The settings are the global variables of a Lua interpreter that has run a
    start-up script.  The interpreter is not part of the sources: [LuaState] is
    what env.c uses of it, [LuaStateLaws] what its manual says of that.  Each
    function holds the lock from its first access to its last and is one step. *)
From stdpp Require Import strings.
From S2P Require Import Prelude CString.

(** A global, as lua_isnil, lua_tostring and lua_type see it; a number with its
    text. *)
Inductive gval := GNil | GString (s : list Z) | GNumber (text : list Z) | GFunction | GOther.

#[export] Instance gval_eq_dec : EqDecision gval.
Proof. solve_decision. Defined.

Class LuaState (L : Type) := {
  newstate : L;                                  (* luaL_newstate, luaL_openlibs *)
  getglobal : list Z -> L -> gval;
  setstring : list Z -> list Z -> L -> L;        (* lua_pushstring, lua_setglobal *)
  loadfile : list Z -> L -> bool * L;            (* and lua_pcall: whether both are LUA_OK *)
  loadbuffer : list Z -> L -> bool * L;
  callglobal : list Z -> L -> bool * L;          (* lua_pcall *)
}.

Class LuaStateLaws (L : Type) `{LuaState L} := {
  get_set k v k' (l : L) : getglobal k' (setstring k v l) = if bool_decide (k' = k) then GString v else getglobal k' l;
}.

Section Env.
  Context {L : Type} `{LuaState L}.

(** The static pointer with the interpreter behind it. *)
Inductive env := Unset | Env (l : L) | Freed.

Definition lua : ST env L := fun e =>
  match e with Unset => Fault NullDeref | Env l => Ok (l, e) | Freed => Fault UseAfterFree end.

Definition set_lua (l : L) : ST env unit := fun _ => Ok (tt, Env l).

Definition free_lua : ST env unit := fun _ => Ok (tt, Freed).

(** The pointer lua_tostring returns: into a string the global holds, or into one
    that only the stack held, which has been popped. *)
Inductive cstr := Held (s : list Z) | Popped (s : list Z).

Definition tostring (v : gval) : option cstr :=
  match v with GString s => Some (Held s) | GNumber s => Some (Popped s) | _ => None end.

Definition chars (p : cstr) : list Z := match p with Held s | Popped s => s end.

(** The default is the caller's. *)
Definition envGet (key : list Z) (defaultValue : option (list Z)) : ST env (option cstr) :=
  l ← lua;
  let result := tostring (getglobal key l) in
  mret (match result with Some _ => result | None => Held <$> defaultValue end).

Definition envGetInt (key : list Z) (defaultValue : Z) : ST env Z :=
  value ← envGet key None;
  mret (match value with None => defaultValue | Some p => i32 (strtol (chars p)).1 end).

Definition envSet (key value : list Z) : ST env Z :=
  l ← lua;
  _ ← st_assert (bool_decide (getglobal key l = GNil));
  _ ← set_lua (setstring key value l);
  mret 0.

(** [report] prints the error and returns the status. *)
Definition dofile (name : list Z) : ST env bool :=
  l ← lua; let r := loadfile name l in _ ← set_lua r.2; mret r.1.
Definition dostring (s : list Z) : ST env bool :=
  l ← lua; let r := loadbuffer s l in _ ← set_lua r.2; mret r.1.

Definition Z_INITVERSION : list Z := str "Z_INIT_1_0".
Definition Z_INIT : list Z := str "Z_INIT".
Definition Z_DEFINE_ENV : list Z := str "@.env".

Definition handleInit (getenv : list Z -> option (list Z)) : ST env bool :=
  let init := match getenv Z_INITVERSION with None => getenv Z_INIT | some => some end in
  let init := default Z_DEFINE_ENV init in
  match init with
  | c :: file => if c =? 64 (* @ *) then dofile file else dostring init
  | [] => dostring init
  end.

(** The name of the file is not used. *)
Definition envInit (getenv : list Z -> option (list Z)) (envFileName : option (list Z)) : ST env Z :=
  _ ← set_lua newstate;
  ok ← handleInit getenv;
  mret (if ok : bool then 0 else -1).

(** The status of the global function uninit, if there is one. *)
Definition envUninit : ST env (option bool) :=
  l ← lua;
  let status := match getglobal (str "uninit") l with GFunction => Some (callglobal (str "uninit") l).1 | _ => None end in
  _ ← free_lua;
  mret status.
End Env.
Arguments env : clear implicits.

(** ** Theorems *)
Section theorems.
  Context {L : Type} `{LuaStateLaws L}.

(** The operations between the two ends of the process. *)
Inductive op := OGet (key : list Z) (default : option (list Z)) | OGetInt (key : list Z) (default : Z) | OSet (key value : list Z).

Definition run (o : op) : ST (env L) unit :=
  match o with
  | OGet k d => _ ← envGet k d; mret tt
  | OGetInt k d => _ ← envGetInt k d; mret tt
  | OSet k v => _ ← envSet k v; mret tt
  end.

Fixpoint runs (os : list op) : ST (env L) unit :=
  match os with
  | [] => mret tt
  | o :: os => _ ← run o; runs os
  end.

(** The globals after the operations that set them, the first for each being the
    only one: an assert ends the process at a second. *)
Fixpoint sets (os : list op) (g : list Z -> gval) : outcome (list Z -> gval) :=
  match os with
  | [] => mret g
  | OSet k v :: os =>
    if bool_decide (g k = GNil) then sets os (fun k' => if bool_decide (k' = k) then GString v else g k') else Fault AssertFailed
  | _ :: os => sets os g
  end.

Lemma lua_Env (l : L) : lua (Env l) = Ok (l, Env l).
Proof. done. Qed.

Lemma envGet_Env k d (l : L) : envGet k d (Env l) =
  Ok (match tostring (getglobal k l) with Some p => Some p | None => Held <$> d end, Env l).
Proof. unfold envGet. rewrite (st_bind_Ok _ _ _ _ _ (lua_Env l)). by destruct (tostring _). Qed.

Lemma envGetInt_Env k d (l : L) : envGetInt k d (Env l) =
  Ok (match tostring (getglobal k l) with Some p => i32 (strtol (chars p)).1 | None => d end, Env l).
Proof. unfold envGetInt. rewrite (st_bind_Ok _ _ _ _ _ (envGet_Env k None l)). by destruct (tostring _). Qed.

Lemma envSet_Env k v (l : L) : envSet k v (Env l) =
  if bool_decide (getglobal k l = GNil) then Ok (0, Env (setstring k v l)) else Fault AssertFailed.
Proof. unfold envSet. rewrite (st_bind_Ok _ _ _ _ _ (lua_Env l)). by case_bool_decide. Qed.

Lemma sets_ext os g g' : (forall k, g k = g' k) ->
  match sets os g, sets os g' with
  | Ok h, Ok h' => forall k, h k = h' k
  | Fault f, Fault f' => f = f'
  | _, _ => False
  end.
Proof.
  revert g g'. induction os as [| [k d | k d | k v] os IH]; intros g g' E; [done | by apply IH | by apply IH |].
  cbn. rewrite E. case_bool_decide; [| done]. apply IH. intros k'. by rewrite E.
Qed.

Lemma sets_keep os g g' k : sets os g = Ok g' -> g k <> GNil -> g' k = g k.
Proof.
  revert g. induction os as [| [k1 d | k1 d | k1 v] os IH]; intros g E Hk; cbn in E; [by injection E as <- | by apply IH | by apply IH |].
  case_bool_decide as Hn; [| done]. assert (k <> k1) by by intros ->.
  rewrite (IH _ E); rewrite bool_decide_eq_false_2 by done; done.
Qed.

Lemma runs_spec os (l : L) :
  match sets os (fun k => getglobal k l) with
  | Ok g => exists l', runs os (Env l) = Ok (tt, Env l') /\ forall k, getglobal k l' = g k
  | Fault _ => runs os (Env l) = Fault AssertFailed
  end.
Proof.
  revert l. induction os as [| o os IH]; intros l; [by exists l |]. cbn [runs].
  destruct o as [k d | k d | k v]; cbn [sets run].
  - unfold run. rewrite (st_bind_Ok _ _ _ tt (Env l)); [apply IH |]. by rewrite (st_bind_Ok _ _ _ _ _ (envGet_Env k d l)).
  - unfold run. rewrite (st_bind_Ok _ _ _ tt (Env l)); [apply IH |]. by rewrite (st_bind_Ok _ _ _ _ _ (envGetInt_Env k d l)).
  - pose proof (envSet_Env k v l) as E. case_bool_decide; cbn [run].
    + rewrite (st_bind_Ok _ _ _ tt (Env (setstring k v l))) by by rewrite (st_bind_Ok _ _ _ _ _ E).
      specialize (IH (setstring k v l)).
      pose proof (sets_ext os (fun k' => getglobal k' (setstring k v l)) (fun k' => if bool_decide (k' = k) then GString v else getglobal k' l)
        (fun k' => get_set k v k' l)) as Ex.
      destruct (sets os _) as [g1 | f1], (sets os _) as [g2 | f2]; try done.
      destruct IH as (l' & Er & Eg). exists l'. split; [done |]. intros k'. by rewrite Eg.
    + by rewrite (st_bind_Fault _ _ _ AssertFailed) by by rewrite (st_bind_Fault _ _ _ _ E).
Qed.

(** The -e option has no effect: without the variables the script is always .env. *)
Lemma envInit_default file (e : env L) :
  envInit (fun _ => None) file e =
    Ok (if (loadfile (str ".env") newstate).1 then 0 else -1, Env (loadfile (str ".env") newstate).2).
Proof.
  unfold envInit. rewrite (st_bind_Ok _ _ _ tt (Env newstate)) by done.
  rewrite (st_bind_Ok _ _ _ (loadfile (str ".env") newstate).1 (Env (loadfile (str ".env") newstate).2)); [done |].
  change (handleInit (fun _ => None)) with (dofile (str ".env")). unfold dofile.
  by rewrite (st_bind_Ok _ _ _ _ _ (lua_Env newstate)).
Qed.

(** The setting of a variable takes precedence over the file, and the one with the
    version over the other. *)
Lemma handleInit_version getenv s t : getenv Z_INITVERSION = Some (s :: t) -> s <> 64 ->
  handleInit getenv = dostring (s :: t).
Proof. intros E Hs. unfold handleInit. rewrite E. cbn. by destruct (Z.eqb_spec s 64). Qed.

(** C39: the settings are written once.  Any sequence of reads and writes does to
    the globals what a map does that refuses a second write: the process stops at
    the assert exactly there.  So what a read returned for a key that holds a
    string is what every later read returns, in the same memory, whatever was
    written in between; and a number that was written in decimal is read back. *)
Theorem settings_write_once os (l : L) :
  match sets os (fun k => getglobal k l) with
  | Fault _ => runs os (Env l) = Fault AssertFailed
  | Ok g => exists l', runs os (Env l) = Ok (tt, Env l') /\
      (forall k d, envGet k d (Env l') = Ok (match tostring (g k) with Some p => Some p | None => Held <$> d end, Env l')) /\
      (forall k d s, envGet k d (Env l) = Ok (Some (Held s), Env l) -> getglobal k l <> GNil ->
         envGet k d (Env l') = Ok (Some (Held s), Env l')) /\
      forall k d n, g k = GString (print_d n) -> -2147483648 <= n < 2147483648 -> envGetInt k d (Env l') = Ok (n, Env l')
  end.
Proof.
  pose proof (runs_spec os l) as R. destruct (sets os _) as [g | f] eqn:E; [| done].
  destruct R as (l' & Er & Eg). exists l'. split; [done |]. split; [intros k d; by rewrite envGet_Env, Eg |]. split.
  - intros k d s. rewrite !envGet_Env. intros [= Ed] Hn. rewrite Eg, (sets_keep _ _ _ k E Hn), Ed. done.
  - intros k d n Ek Hn. rewrite envGetInt_Env, Eg, Ek. cbn [tostring chars].
    pose proof (strtol_print_d [] n [] ltac:(lia) (Forall_nil_2 _) I) as Hs.
    cbn [app] in Hs. rewrite app_nil_r in Hs. rewrite Hs. cbn [fst]. by rewrite i32_small by lia.
Qed.
End theorems.

(** Globals as a map; the scripts set nothing. *)
#[export] Instance table_lua : LuaState (gmap (list Z) gval) := {
  newstate := ∅;
  getglobal k l := default GNil (l !! k);
  setstring k v l := <[k := GString v]> l;
  loadfile _ l := (true, l);
  loadbuffer _ l := (true, l);
  callglobal _ l := (true, l);
}.

#[export] Instance table_lua_laws : LuaStateLaws (gmap (list Z) gval).
Proof.
  split. intros k v k' l. cbn. case_bool_decide as E; [by rewrite E, lookup_insert_eq | by rewrite lookup_insert_ne].
Qed.

Lemma settings_write_once_witness :
  exists l', runs [OGet (str "z") None; OSet (str "thread_num") (print_d 8)] (Env {[str "z" := GString (str "v")]}) = Ok (tt, Env l') /\
    envGet (str "z") None (Env l') = Ok (Some (Held (str "v")), Env l') /\
    envGetInt (str "thread_num") 4 (Env l') = Ok (8, Env l').
Proof.
  destruct (settings_write_once [OGet (str "z") None; OSet (str "thread_num") (print_d 8)]
    ({[str "z" := GString (str "v")]} : gmap (list Z) gval)) as (l' & R & _ & K & N).
  exists l'. split; [exact R |]. split; [apply K | apply N]; by vm_compute.
Defined.
