(* ===== verification/ZMysql.v ===== *)
(** * lua-zmysql.c: connections to a database for Lua code

    A userdata holds the pointer to a connection of the MySQL client library, or
    NULL after it was closed.  The library is not part of the sources: [MySQL] is
    what the file calls of it and [MySQLLaws] what its manual says of these calls,
    with the set of connections that have been allocated and not freed, and the
    results a connection still has for its last statement. *)
From stdpp Require Import strings.
From S2P Require Import Prelude CString.

(** [fields[i].type], the types the file tells apart. *)
Inductive field_type :=
  | FIELD_TYPE_STRING | FIELD_TYPE_VAR_STRING | FIELD_TYPE_TINY_BLOB | FIELD_TYPE_MEDIUM_BLOB
  | FIELD_TYPE_LONG_BLOB | FIELD_TYPE_BLOB | FIELD_TYPE_FLOAT | FIELD_TYPE_DOUBLE | FIELD_TYPE_other (n : Z).

(** [MYSQL_RES]: the fields with their names, and the rows. *)
Record result := Result {
  r_fields : list (list Z * field_type);
  r_rows : list (list (option (list Z)));
}.

Class MySQL (D : Type) := {
  mysql_init : D -> option nat * D;
  mysql_options : nat -> D -> D;
  mysql_real_connect : nat -> list (list Z) -> Z -> D -> bool * D;
  mysql_close : nat -> D -> D;
  mysql_query : nat -> list Z -> D -> bool * D;        (* whether it returned 0 *)
  mysql_store_result : nat -> D -> option result;
  mysql_next_result : nat -> D -> bool * D;            (* whether it returned 0 *)
  mysql_error : nat -> D -> list Z;
  mysql_affected_rows : nat -> D -> Z;
  mysql_ping : nat -> D -> bool * D;                   (* whether it returned 0 *)
  mysql_escaped : nat -> list Z -> D -> list Z;        (* what mysql_real_escape_string writes before its zero *)
  conns : D -> gset nat;
  results : nat -> D -> list (option result);
}.

Class MySQLLaws (D : Type) `{MySQL D} := {
  init_conns d : match mysql_init d with
    | (Some c, d') => (c ∉ conns d) /\ conns d' = {[c]} ∪ conns d
    | (None, d') => conns d' = conns d
    end;
  options_conns c d : conns (mysql_options c d) = conns d;
  connect_conns c a f d : conns (mysql_real_connect c a f d).2 = conns d;
  close_conns c d : conns (mysql_close c d) = conns d ∖ {[c]};
  query_conns c q d : conns (mysql_query c q d).2 = conns d;
  ping_conns c d : conns (mysql_ping c d).2 = conns d;
  next_conns c d : conns (mysql_next_result c d).2 = conns d;
  store_result_spec c d : mysql_store_result c d = match results c d with r :: _ => r | [] => None end;
  next_result_spec c d : match results c d with
    | _ :: r :: rest => (mysql_next_result c d).1 = true /\ results c (mysql_next_result c d).2 = r :: rest
    | _ => (mysql_next_result c d).1 = false /\ results c (mysql_next_result c d).2 = []
    end;
  escaped_length c s d : zlen (mysql_escaped c s d) <= 2 * zlen s;
}.

(** What a cell of a row becomes; a number is whole or the one its text denotes. *)
Inductive cell := CInteger (n : Z) | CReal (text : list Z) | CText (s : list Z).

Definition row := gmap (list Z) cell.

(** A call returns values, or raises an error and does not return. *)
Inductive mval := MNil | MBoolean (b : bool) | MNumber (n : Z) | MString (s : list Z) | MRows (rows : list row) | MUserdata (u : nat).
Inductive mres := MRet (vs : list mval) | MError (text : list Z).

Definition MYSQL_OPT_RECONNECT : Z := 20.

Section ZMysql.
  Context {D : Type} `{MySQL D}.
  (** what the stack holds *)
  Variable undef : Z.

(** The library, and the userdata with the metatable of the module. *)
Record zmysql := ZMysqlState {
  client : D;
  users : list (option nat);
}.

Definition with_client (z : zmysql) d := ZMysqlState d (users z).

(** The library reads the connection [c]. *)
Definition use (c : nat) : ST zmysql unit := fun z =>
  if bool_decide (c ∈ conns (client z)) then Ok (tt, z) else Fault UseAfterFree.

Definition lib {A} (f : D -> A * D) : ST zmysql A := fun z => let r := f (client z) in Ok (r.1, with_client z r.2).
Definition call {A} (c : nat) (f : D -> A * D) : ST zmysql A := _ ← use c; lib f.

Definition ask {A} (c : nat) (f : D -> A) : ST zmysql A := call c (fun d => (f d, d)).

Definition close_conn (c : nat) : ST zmysql unit := call c (fun d => (tt, mysql_close c d)).

(** luaL_checkstring on the arguments host, dbname, user, passwd, which are passed on
    in another order. *)
Definition checkstrings (args : list (option (list Z))) : option (list (list Z)) :=
  match mjoin (args !! 0%nat), mjoin (args !! 1%nat), mjoin (args !! 2%nat), mjoin (args !! 3%nat) with
  | Some host, Some dbname, Some user, Some passwd => Some [host; user; passwd; dbname]
  | _, _, _, _ => None
  end.

(** The userdata gets its connection, and the metatable. *)
Definition new_user (conn : nat) : ST zmysql mres := fun z =>
  Ok (MRet [MUserdata (length (users z))], ZMysqlState (client z) (users z ++ [Some conn])).

Definition _connect (args : list (option (list Z))) : ST zmysql mres := fun z =>
  match mysql_init (client z) with
  | (None, d) => Ok (MError (str "zmysql mysql_init fail"), with_client z d)
  | (Some conn, d) =>
    ((match checkstrings args with
     | None => mret (MError (str "bad argument"))
     | Some args =>
       _ ← call conn (fun d => (tt, mysql_options conn d));
       ok ← call conn (mysql_real_connect conn args MYSQL_OPT_RECONNECT);
       if ok : bool then
         _ ← call conn (mysql_query conn (str "set names utf8"));
         new_user conn
       else
         _ ← close_conn conn;
         e ← ask conn (mysql_error conn);
         mret (MError e)
     end) : ST zmysql mres) (with_client z d)
  end.

(** luaL_checkudata on argument 1, and the connection behind it. *)
Definition checkudata (u : nat) (k : option nat -> ST zmysql mres) : ST zmysql mres := fun z =>
  match users z !! u with Some o => k o z | None => Ok (MError (str "bad argument"), z) end.

Definition connected (u : nat) (k : nat -> ST zmysql mres) : ST zmysql mres :=
  checkudata u (fun o => match o with Some conn => k conn | None => mret (MError (str "mysql disconnect")) end).

(** ** select *)

Definition atoi (s : list Z) : Z := i32 (strtol s).1.

Definition is_text (t : field_type) : bool :=
  match t with FIELD_TYPE_FLOAT | FIELD_TYPE_DOUBLE | FIELD_TYPE_other _ => false | _ => true end.

Definition push_cell (t : field_type) (v : option (list Z)) : option cell :=
  match v with
  | None => None
  | Some s =>
    Some (if is_text t then CText s
          else match t with FIELD_TYPE_FLOAT | FIELD_TYPE_DOUBLE => CReal s | _ => CInteger (atoi s) end)
  end.

(** The loop over the fields; setting nil removes the key. *)
Fixpoint read_row (fields : list (list Z * field_type)) (cells : list (option (list Z))) (t : row) : row :=
  match fields, cells with
  | (name, ty) :: fields, v :: cells =>
    read_row fields cells (match push_cell ty v with Some x => <[name := x]> t | None => delete name t end)
  | _, _ => t
  end.

Fixpoint select_loop (fuel : nat) (conn : nat) (r : option result) (acc : list row) : ST zmysql (list row) :=
  match fuel with
  | O => st_fault OutOfFuel
  | S fuel =>
    match r with
    | None => mret acc
    | Some r =>
      let acc := acc ++ ((fun cells => read_row (r_fields r) cells ∅) <$> r_rows r) in
      more ← call conn (mysql_next_result conn);
      if more : bool then r ← ask conn (mysql_store_result conn); select_loop fuel conn r acc
      else select_loop fuel conn None acc
    end
  end.

(** A turn of the loop uses up one of the results. *)
Definition _select (u : nat) (cmd : option (list Z)) : ST zmysql mres :=
  connected u (fun conn =>
  match cmd with
  | None => mret (MError (str "bad argument"))
  | Some cmd =>
    _ ← call conn (mysql_query conn cmd);
    r ← ask conn (mysql_store_result conn);
    match r with
    | None => e ← ask conn (mysql_error conn); mret (MError e)
    | Some _ =>
      n ← ask conn (fun d => length (results conn d));
      rows ← select_loop (S (S n)) conn r [];
      mret (MRet [MRows rows])
    end
  end).

(** ** The other methods *)

Definition _command (u : nat) (cmd : option (list Z)) : ST zmysql mres :=
  connected u (fun conn =>
  match cmd with
  | None => mret (MError (str "bad argument"))
  | Some cmd =>
    ok ← call conn (mysql_query conn cmd);
    if ok : bool then mret (MRet [MBoolean true])
    else e ← ask conn (mysql_error conn); mret (MRet [MBoolean false; MString e])
  end).

Definition _affected_rows (u : nat) : ST zmysql mres :=
  checkudata u (fun o =>
  match o with
  | None => st_fault NullDeref
  | Some conn => n ← ask conn (mysql_affected_rows conn); mret (MRet [MNumber n])
  end).

(** The second argument: a string, or a block with the length that the third
    gives.  For any other type the pointer is NULL and the length is not set. *)
Inductive etext := EString (s : list Z) | ELight (block : list Z) (n : option Z) | EOther.

(** The array of twice the length and the copy the library makes in it. *)
Definition escape (conn : nat) (s : list Z) : ST zmysql mres :=
  let strlen := zlen s in
  e ← ask conn (mysql_escaped conn s);
  buf ← st_lift (acopy_in (replicate (Z.to_nat (strlen * 2)) undef) 0 (e ++ [0]));
  out ← st_lift (acopy_out buf 0 (zlen e));
  mret (MRet [MString out]).

Definition _escape_string (u : nat) (t : etext) : ST zmysql mres :=
  connected u (fun conn =>
  match t with
  | EString [] => mret (MRet [MString []])
  | EString s => escape conn s
  | ELight block (Some n) => s ← st_lift (acopy_out block 0 n); escape conn s
  | ELight _ None => mret (MError (str "bad argument"))
  | EOther => st_fault NullDeref
  end).

(** Also the metamethod __gc. *)
Definition _close (u : nat) : ST zmysql mres :=
  checkudata u (fun o =>
  _ ← (match o with
       | Some conn => _ ← close_conn conn; st_modify (fun z => ZMysqlState (client z) (<[u := None]> (users z)))
       | None => mret tt
       end);
  mret (MRet [MBoolean true])).

Definition _ping (u : nat) : ST zmysql mres :=
  connected u (fun conn => ok ← call conn (mysql_ping conn); mret (MRet [MBoolean ok])).
End ZMysql.
Arguments zmysql : clear implicits.

(** ** Theorems *)
Section theorems.
  Context {D : Type} `{MySQLLaws D}.
  Variable undef : Z.
  Implicit Types (z : zmysql D) (c u : nat).

(** [m] leaves the connections as they are, and its faults are in [fs]. *)
Definition quiet {A} (fs : fault -> Prop) c (m : ST (zmysql D) A) : Prop := forall z, c ∈ conns (client z) ->
  match m z with
  | Ok (_, z') => conns (client z') = conns (client z) /\ users z' = users z
  | Fault f => fs f
  end.

Lemma keeps_ret {A} fs c (a : A) : quiet fs c (mret a).
Proof. by intros z Hz. Qed.

Lemma quiet_fault {A} (fs : fault -> Prop) c f : fs f -> quiet fs c (st_fault f : ST (zmysql D) A).
Proof. by intros Hf z Hz. Qed.

Lemma quiet_lift {A} (fs : fault -> Prop) c (m : outcome A) :
  match m with Fault f => fs f | Ok _ => True end -> quiet fs c (st_lift m).
Proof. intros Hf z Hz. unfold st_lift. by destruct m. Qed.

Lemma keeps_bind {A B} fs c (m : ST (zmysql D) A) (k : A -> ST (zmysql D) B) :
  quiet fs c m -> (forall a, quiet fs c (k a)) -> quiet fs c (x ← m; k x).
Proof.
  intros Hm Hk z Hz. specialize (Hm z Hz). destruct (m z) as [[a z1] | f] eqn:E; [| by rewrite (st_bind_Fault _ _ _ _ E)].
  rewrite (st_bind_Ok _ _ _ _ _ E). destruct Hm as [Hc Hu]. specialize (Hk a z1 ltac:(by rewrite Hc)).
  destruct (k a z1) as [[b z2] |]; [| done]. destruct Hk as [-> ->]. done.
Qed.

Lemma call_Ok {A} c (f : D -> A * D) z : c ∈ conns (client z) ->
  call c f z = Ok ((f (client z)).1, with_client z (f (client z)).2).
Proof.
  intros Hc. unfold call. rewrite (st_bind_Ok _ _ _ tt z); [done |]. unfold use. by rewrite bool_decide_eq_true_2.
Qed.

Lemma ask_Ok {A} c (f : D -> A) z : c ∈ conns (client z) -> ask c f z = Ok (f (client z), z).
Proof. intros Hc. unfold ask. rewrite call_Ok by done. by destruct z. Qed.

Lemma quiet_call {A} fs c (f : D -> A * D) : (forall d, conns (f d).2 = conns d) -> quiet fs c (call c f).
Proof. intros Hf z Hz. rewrite call_Ok by done. cbn. by rewrite Hf. Qed.

Lemma quiet_ask {A} fs c (f : D -> A) : quiet fs c (ask c f).
Proof. intros z Hz. by rewrite ask_Ok. Qed.

(** ** select returns the rows *)

Definition rows_of_result (r : result) : list row := (fun cells => read_row (r_fields r) cells ∅) <$> r_rows r.

(** Reading stops at the first statement that has no result. *)
Fixpoint rows_of (rs : list (option result)) : list row :=
  match rs with
  | Some r :: rs => rows_of_result r ++ rows_of rs
  | _ => []
  end.

Lemma select_loop_spec fuel c acc z :
  c ∈ conns (client z) -> (length (results c (client z)) < fuel)%nat ->
  exists z', select_loop fuel c (match results c (client z) with r :: _ => r | [] => None end) acc z =
      Ok (acc ++ rows_of (results c (client z)), z') /\ conns (client z') = conns (client z) /\ users z' = users z.
Proof.
  revert acc z. induction fuel as [| fuel IH]; intros acc z Hc Hf; [lia |].
  pose proof (next_result_spec c (client z)) as Hn. pose proof (next_conns c (client z)) as Hk.
  destruct (results c (client z)) as [| [r |] rs]; cbn [select_loop rows_of].
  - exists z. by rewrite app_nil_r.
  - rewrite (st_bind_Ok _ _ _ _ _ (call_Ok c (mysql_next_result c) z Hc)).
    set (z1 := with_client z (mysql_next_result c (client z)).2).
    assert (Hc1 : c ∈ conns (client z1)) by (cbn; by rewrite Hk).
    destruct rs as [| r2 rs]; destruct Hn as [-> Hr].
    + destruct fuel as [| fuel]; [cbn in Hf; lia |]. exists z1. cbn. by rewrite app_nil_r.
    + rewrite (st_bind_Ok _ _ _ _ _ (ask_Ok c (mysql_store_result c) z1 Hc1)), store_result_spec.
      specialize (IH (acc ++ rows_of_result r) z1 Hc1). cbn [client with_client z1] in IH |- *. rewrite Hr in IH |- *.
      destruct IH as (z' & E & Ek & Eu); [cbn in Hf |- *; lia |].
      exists z'. rewrite app_assoc. split; [exact E | by rewrite Ek].
  - exists z. by rewrite app_nil_r.
Qed.

Lemma _select_rows u c cmd z : users z !! u = Some (Some c) -> c ∈ conns (client z) ->
  exists z', _select u (Some cmd) z = Ok (match results c (mysql_query c cmd (client z)).2 with
      | Some r :: rs => MRet [MRows (rows_of (Some r :: rs))]
      | _ => MError (mysql_error c (mysql_query c cmd (client z)).2)
      end, z') /\ conns (client z') = conns (client z) /\ users z' = users z.
Proof.
  intros Eu Hc. unfold _select, connected, checkudata. rewrite Eu.
  rewrite (st_bind_Ok _ _ _ _ _ (call_Ok c (mysql_query c cmd) z Hc)).
  set (z1 := with_client z (mysql_query c cmd (client z)).2).
  assert (Hk : conns (client z1) = conns (client z)) by apply query_conns.
  assert (Hc1 : c ∈ conns (client z1)) by by rewrite Hk.
  rewrite (st_bind_Ok _ _ _ _ _ (ask_Ok c (mysql_store_result c) z1 Hc1)), store_result_spec.
  pose proof (select_loop_spec (S (S (length (results c (client z1))))) c [] z1 Hc1 ltac:(lia)) as (z' & E & Ek & Ez).
  change (client z1) with (mysql_query c cmd (client z)).2 in *.
  destruct (results c _) as [| [r |] rs] eqn:Er.
  - rewrite (st_bind_Ok _ _ _ _ _ (ask_Ok c (mysql_error c) z1 Hc1)). by exists z1.
  - rewrite (st_bind_Ok _ _ _ _ _ (ask_Ok c _ z1 Hc1)). change (client z1) with (mysql_query c cmd (client z)).2.
    rewrite Er. rewrite (st_bind_Ok _ _ _ _ _ E). exists z'. by rewrite Ek.
  - rewrite (st_bind_Ok _ _ _ _ _ (ask_Ok c (mysql_error c) z1 Hc1)). by exists z1.
Qed.

(** ** The life of the connections *)

Inductive zop :=
  | OConnect (args : list (option (list Z)))
  | OSelect u (cmd : option (list Z)) | OCommand u (cmd : option (list Z)) | OAffectedRows u
  | OEscape u (t : etext) | OClose u | OPing u.

Definition run (o : zop) : ST (zmysql D) mres :=
  match o with
  | OConnect args => _connect args
  | OSelect u cmd => _select u cmd
  | OCommand u cmd => _command u cmd
  | OAffectedRows u => _affected_rows u
  | OEscape u t => _escape_string undef u t
  | OClose u => _close u
  | OPing u => _ping u
  end.

Fixpoint runs (os : list zop) : ST (zmysql D) unit :=
  match os with
  | [] => mret tt
  | o :: os => _ ← run o; runs os
  end.

Definition held (z : zmysql D) : list nat := omap id (users z).

(** The connections of the library are those of the userdata, each in one, and the
    [lost] ones, which nothing refers to. *)
Record inv (lost : gset nat) z : Prop := {
  i_conns : conns (client z) = lost ∪ list_to_set (held z);
  i_nodup : NoDup (held z);
  i_lost : lost ## list_to_set (held z);
}.

Lemma held_lookup u c z : users z !! u = Some (Some c) -> c ∈ held z.
Proof. intros E. apply list_elem_of_omap. exists (Some c). split; [| done]. by eapply list_elem_of_lookup_2. Qed.

Lemma inv_conn lost u c z : inv lost z -> users z !! u = Some (Some c) -> c ∈ conns (client z).
Proof. intros [Ec _ _] E. rewrite Ec. apply elem_of_union_r, elem_of_list_to_set. by eapply held_lookup. Qed.

Lemma inv_same lost z z' : inv lost z -> conns (client z') = conns (client z) -> users z' = users z -> inv lost z'.
Proof. intros [Ec N Dj] E1 E2. split; unfold held in *; rewrite ?E1, E2; done. Qed.

(** Closing takes the connection out of its userdata and out of the library. *)
Lemma held_close (l : list (option nat)) u c : l !! u = Some (Some c) -> NoDup (omap id l) ->
  NoDup (omap id (<[u := None]> l)) /\ forall x, x ∈ omap id (<[u := None]> l) <-> (x ∈ omap id l) /\ x <> c.
Proof.
  revert u. induction l as [| o l IH]; intros u E N; [done |]. destruct u as [| u]; cbn in *.
  - injection E as ->. cbn in *. apply NoDup_cons in N as [Hc N]. split; [done |]. intros x.
    rewrite elem_of_cons. split; [intros Hx; split; [by right | by intros ->] | by intros [[-> | ?] ?]].
  - assert (Hc : c ∈ omap id l).
    { apply list_elem_of_omap. exists (Some c). split; [by eapply list_elem_of_lookup_2 | done]. }
    destruct o as [y |]; cbn in *; [| by apply IH].
    apply NoDup_cons in N as [Hy N]. destruct (IH u E N) as [N' Hx]. split.
    + apply NoDup_cons. split; [| done]. rewrite Hx. by intros [? _].
    + intros x. rewrite !elem_of_cons, Hx. split; [intros [-> | [? ?]] | intros [[-> | ?] ?]]; auto.
      split; [by left |]. by intros ->.
Qed.

Lemma _close_spec lost u z : inv lost z ->
  exists r z', _close u z = Ok (r, z') /\ inv lost z' /\
    users z' = match users z !! u with Some _ => <[u := None]> (users z) | None => users z end.
Proof.
  intros I. unfold _close, checkudata. destruct (users z !! u) as [[c |] |] eqn:Eu.
  - pose proof (inv_conn _ _ _ _ I Eu) as Hc. unfold close_conn.
    eexists _, (ZMysqlState (mysql_close c (client z)) (<[u := None]> (users z))).
    rewrite (st_bind_Ok _ _ _ tt (ZMysqlState (mysql_close c (client z)) (<[u := None]> (users z)))).
    2: { by rewrite (st_bind_Ok _ _ _ _ _ (call_Ok c _ z Hc)). }
    split; [reflexivity |]. split; [| done]. destruct I as [Ec N Dj]. unfold held in *.
    destruct (held_close (users z) u c Eu N) as [N' Hx]. split; cbn; [| done |].
    2: { intros x Hl Hh%elem_of_list_to_set. apply Hx in Hh as [Hh _]. by apply (Dj x Hl), elem_of_list_to_set. }
    rewrite close_conns, Ec. apply set_eq. intros x. rewrite elem_of_difference, !elem_of_union, !elem_of_list_to_set, Hx, elem_of_singleton.
    assert (c ∈ omap id (users z)) by by eapply (held_lookup u). split; [intuition |].
    intros [Hl | [? ?]]; [| by auto]. split; [by left |]. intros ->. by apply (Dj c Hl), elem_of_list_to_set.
  - eexists _, z. split; [reflexivity |]. split; [done |]. by rewrite list_insert_id.
  - by eexists _, z.
Qed.

(** The calls that are undefined behaviour: a refused connection, whose error is
    read after it has been freed; a question about a closed one; a text that does
    not fit, or is none. *)
Definition excuse (f : fault) (o : zop) z : Prop :=
  match o with
  | OConnect args => f = UseAfterFree /\ exists c d host, mysql_init (client z) = (Some c, d) /\
      checkstrings args = Some host /\ (mysql_real_connect c host MYSQL_OPT_RECONNECT (mysql_options c d)).1 = false
  | OAffectedRows u => f = NullDeref /\ users z !! u = Some None
  | OEscape u (EString s) => f = OutOfBounds /\ s <> [] /\
      exists c, users z !! u = Some (Some c) /\ zlen (mysql_escaped c s (client z)) = 2 * zlen s
  | OEscape u (ELight _ _) => f = OutOfBounds
  | OEscape u EOther => f = NullDeref
  | _ => False
  end.

(** A copy of [e] and a zero fits unless every byte was escaped. *)
Lemma escape_room c s d : let e := mysql_escaped c s d in
  match acopy_in (replicate (Z.to_nat (zlen s * 2)) undef) 0 (e ++ [0]) with
  | Ok buf => acopy_out buf 0 (zlen e) = Ok e /\ zlen e < 2 * zlen s
  | Fault f => f = OutOfBounds /\ zlen e = 2 * zlen s
  end.
Proof.
  cbv zeta. set (e := mysql_escaped c s d). pose proof (escaped_length c s d) as Hl. fold e in Hl.
  pose proof (zlen_nonneg s). pose proof (zlen_nonneg e).
  assert (E : zlen (e ++ [0]) = zlen e + 1) by by rewrite zlen_app.
  destruct (Z.eq_dec (zlen e) (2 * zlen s)) as [He | He].
  { rewrite acopy_in_fault; [done |]. rewrite zlen_replicate by lia. lia. }
  rewrite acopy_in_Ok by (rewrite ?zlen_replicate; lia). cbn [take app Z.to_nat].
  split; [| lia]. rewrite <- app_assoc. apply (acopy_out_app [] e).
Qed.

(** A method that leaves the connections as they are. *)
Lemma connected_inv lost u (k : nat -> ST (zmysql D) mres) (fs : fault -> Prop) z : inv lost z ->
  (forall c, users z !! u = Some (Some c) -> quiet fs c (k c)) ->
  match connected u k z with Ok (_, z') => inv lost z' | Fault f => fs f end.
Proof.
  intros I Hk. unfold connected, checkudata. destruct (users z !! u) as [[c |] |] eqn:Eu; [| done | done].
  specialize (Hk c eq_refl z (inv_conn _ _ _ _ I Eu)). destruct (k c z) as [[r z'] |]; [| done].
  destruct Hk as [E1 E2]. by eapply inv_same.
Qed.

Lemma run_connect_inv lost args z : inv lost z ->
  match _connect args z with
  | Ok (_, z') => inv lost z' \/ checkstrings args = None /\ exists c, (c ∉ lost) /\ inv ({[c]} ∪ lost) z'
  | Fault f => excuse f (OConnect args) z
  end.
Proof.
  intros I. pose proof (init_conns (client z)) as Hi. unfold _connect. cbn [excuse].
  destruct (mysql_init (client z)) as [[c |] d]; [| left; by apply (inv_same lost z)].
  destruct Hi as [Hc Ed]. destruct I as [Ec N Dj]. rewrite Ec in Hc, Ed.
  assert (Hl : (c ∉ lost) /\ (c ∉ held z)).
  { split; intros Hx; apply Hc, elem_of_union; [by left | right; by apply elem_of_list_to_set]. }
  destruct (checkstrings args) as [host |].
  2: { right. split; [done |]. exists c. split; [apply Hl |]. split; [| done |].
       - change (conns d = {[c]} ∪ lost ∪ list_to_set (held z)). by rewrite Ed, (assoc_L (∪)).
       - intros x [->%elem_of_singleton | Hx]%elem_of_union Hh; [by apply Hl, (elem_of_list_to_set (C := gset nat)) |].
         by apply (Dj x). }
  set (z0 := with_client z d). assert (K0 : c ∈ conns (client z0)) by (cbn; rewrite Ed; by apply elem_of_union_l, elem_of_singleton).
  rewrite (st_bind_Ok _ _ _ _ _ (call_Ok c (fun d => (tt, mysql_options c d)) z0 K0)). cbn [fst snd].
  set (z1 := with_client z0 _). assert (E1 : conns (client z1) = conns d) by apply options_conns.
  assert (K1 : c ∈ conns (client z1)) by by rewrite E1.
  rewrite (st_bind_Ok _ _ _ _ _ (call_Ok c (mysql_real_connect c host MYSQL_OPT_RECONNECT) z1 K1)).
  set (z2 := with_client z1 _). assert (E2 : conns (client z2) = conns d) by (rewrite <- E1; apply connect_conns).
  assert (K2 : c ∈ conns (client z2)) by by rewrite E2.
  change (client z1) with (mysql_options c d). destruct (mysql_real_connect _ _ _ _).1 eqn:Er.
  - rewrite (st_bind_Ok _ _ _ _ _ (call_Ok c (mysql_query c (str "set names utf8")) z2 K2)). unfold new_user. left.
    assert (Eh : omap id (users z ++ [Some c]) = held z ++ [c]) by (unfold held; by rewrite omap_app).
    split; unfold held at 1; cbn [users with_client]; change (users z2) with (users z); rewrite Eh.
    + transitivity (conns (client z2)); [apply query_conns |]. rewrite E2, Ed, list_to_set_app_L. cbn.
      apply set_eq. intros x. rewrite !elem_of_union, elem_of_empty. tauto.
    + apply NoDup_app. split; [done |]. split; [| by apply NoDup_singleton].
      intros x Hx ->%list_elem_of_singleton. by destruct Hl.
    + intros x Hx Hh%elem_of_list_to_set.
      apply elem_of_app in Hh as [Hh | ->%list_elem_of_singleton]; [| by destruct Hl]. by apply (Dj x Hx), elem_of_list_to_set.
  - unfold close_conn. rewrite (st_bind_Ok _ _ _ _ _ (call_Ok c (fun d => (tt, mysql_close c d)) z2 K2)).
    set (z3 := with_client z2 _). assert (K3 : c ∉ conns (client z3)).
    { cbn. rewrite close_conns. by intros [_ ?%not_elem_of_singleton]%elem_of_difference. }
    assert (Ea : ask c (mysql_error c) z3 = Fault UseAfterFree).
    { unfold ask, call. apply st_bind_Fault. unfold use. by rewrite bool_decide_eq_false_2. }
    rewrite (st_bind_Fault _ _ _ _ Ea). split; [done |]. by exists c, d, host.
Qed.

Ltac quiet :=
  repeat first
    [ apply keeps_ret
    | apply quiet_ask
    | apply quiet_call; intros ?; first [ apply query_conns | apply ping_conns ]
    | apply keeps_bind; [| intros ?]
    | match goal with |- quiet _ _ (if ?b then _ else _) => destruct b end ].

Lemma _escape_inv lost u t z : inv lost z ->
  match _escape_string undef u t z with Ok (_, z') => inv lost z' | Fault f => excuse f (OEscape u t) z end.
Proof.
  intros I. unfold _escape_string, connected, checkudata. destruct (users z !! u) as [[c |] |] eqn:Eu; [| done | done].
  pose proof (inv_conn _ _ _ _ I Eu) as Hc.
  assert (Hesc : forall s, match escape undef c s z with
    | Ok (_, z') => z' = z
    | Fault f => f = OutOfBounds /\ zlen (mysql_escaped c s (client z)) = 2 * zlen s
    end).
  { intros s. unfold escape. rewrite (st_bind_Ok _ _ _ _ _ (ask_Ok c (mysql_escaped c s) z Hc)).
    pose proof (escape_room c s (client z)) as Hr. cbv zeta in Hr. unfold st_lift at 1.
    destruct (acopy_in _ _ _) as [buf | f]; [| by rewrite (st_bind_Fault _ _ _ f) by done].
    rewrite (st_bind_Ok _ _ _ buf z) by done. unfold st_lift. destruct Hr as [-> _]. done. }
  destruct t as [s | block [n |] |]; [| | done | done].
  - destruct s as [| x s]; [done |]. specialize (Hesc (x :: s)). destruct (escape _ _ _ z) as [[r z'] | f]; [by subst z' |].
    destruct Hesc as [-> He]. split; [done |]. split; [done |]. by exists c.
  - unfold st_lift at 1. destruct (acopy_out block 0 n) as [s | f] eqn:Ec.
    + rewrite (st_bind_Ok _ _ _ s z) by done. specialize (Hesc s). destruct (escape _ _ _ z) as [[r z'] | f]; [by subst z' | by destruct Hesc].
    + rewrite (st_bind_Fault _ _ _ f) by done. by eapply acopy_out_fault_inv.
Qed.

Definition stranded (o : zop) : bool :=
  match o with OConnect args => match checkstrings args with None => true | Some _ => false end | _ => false end.

(** One call: only a connect without all of its arguments loses a connection. *)
Lemma run_inv o lost z : inv lost z ->
  match run o z with
  | Ok (_, z') => exists lost', inv lost' z' /\
      (lost' = lost \/ stranded o = true /\ exists c, (c ∉ lost) /\ lost' = {[c]} ∪ lost)
  | Fault f => excuse f o z
  end.
Proof.
  intros I. destruct o as [args | u cmd | u cmd | u | u t | u | u]; cbn [run stranded].
  - pose proof (run_connect_inv lost args z I) as Hr. destruct (_connect args z) as [[r z'] |]; [| done].
    destruct Hr as [I' | (E & c & Hc & I')]; [exists lost; by auto |]. exists ({[c]} ∪ lost). split; [done |].
    right. rewrite E. split; [done |]. by exists c.
  - assert (Hs : exists r z', _select u cmd z = Ok (r, z') /\ inv lost z').
    { destruct (users z !! u) as [[c |] |] eqn:Eu.
      - destruct cmd as [cmd |]; [| unfold _select, connected, checkudata; rewrite Eu; by eexists _, z].
        destruct (_select_rows u c cmd z Eu (inv_conn _ _ _ _ I Eu)) as (z' & -> & E1 & E2).
        eexists _, z'. split; [done | by eapply inv_same].
      - unfold _select, connected, checkudata. rewrite Eu. by eexists _, z.
      - unfold _select, connected, checkudata. rewrite Eu. by eexists _, z. }
    destruct Hs as (r & z' & -> & I'). exists lost. by auto.
  - pose proof (connected_inv lost u _ (fun _ => False) z I (fun c _ => ltac:(destruct cmd; quiet) :
      quiet (fun _ => False) c (match cmd with None => mret (MError (str "bad argument")) | Some cmd =>
        ok ← call c (mysql_query c cmd); if ok : bool then mret (MRet [MBoolean true])
        else e ← ask c (mysql_error c); mret (MRet [MBoolean false; MString e]) end))) as Hr.
    unfold _command. destruct (connected _ _ z) as [[r z'] |]; [| done]. exists lost. by auto.
  - unfold _affected_rows, checkudata. destruct (users z !! u) as [[c |] |] eqn:Eu.
    + rewrite (st_bind_Ok _ _ _ _ _ (ask_Ok c (mysql_affected_rows c) z (inv_conn _ _ _ _ I Eu))). exists lost. by auto.
    + done.
    + exists lost. by auto.
  - pose proof (_escape_inv lost u t z I) as Hr. destruct (_escape_string undef u t z) as [[r z'] |]; [| done]. exists lost. by auto.
  - destruct (_close_spec lost u z I) as (r & z' & -> & I' & _). exists lost. by auto.
  - pose proof (connected_inv lost u (fun c => ok ← call c (mysql_ping c); mret (MRet [MBoolean ok])) (fun _ => False) z I
      (fun c _ => ltac:(quiet))) as Hr.
    unfold _ping. destruct (connected _ _ z) as [[r z'] |]; [| done]. exists lost. by auto.
Qed.

Lemma runs_app os1 os2 z z1 : runs os1 z = Ok (tt, z1) -> runs (os1 ++ os2) z = runs os2 z1.
Proof.
  revert z. induction os1 as [| o os1 IH]; intros z; cbn; [by intros [= ->] |].
  destruct (run o z) as [[r z2] | f] eqn:E; [| by rewrite (st_bind_Fault _ _ _ _ E)].
  rewrite !(st_bind_Ok _ _ _ _ _ E). apply IH.
Qed.

Lemma close_all lost z n : inv lost z -> exists z', runs (OClose <$> seq 0 n) z = Ok (tt, z') /\ inv lost z' /\
  length (users z') = length (users z) /\ forall i c, (i < n)%nat -> users z' !! i <> Some (Some c).
Proof.
  intros I. induction n as [| n (z1 & R & I1 & L & F)]; [exists z; do 3 (split; [done |]); intros; lia |].
  rewrite seq_S, fmap_app, (runs_app _ _ _ _ R). cbn.
  destruct (_close_spec lost n z1 I1) as (r & z2 & E & I2 & U). rewrite (st_bind_Ok _ _ _ _ _ E).
  exists z2. split; [done |]. split; [done |]. rewrite U. destruct (users z1 !! n) eqn:En.
  - split; [by rewrite length_insert |]. intros i c Hi. destruct (decide (i = n)) as [-> | Hne].
    + rewrite list_lookup_insert_eq by by eapply lookup_lt_Some. done.
    + rewrite list_lookup_insert_ne by done. apply F. lia.
  - split; [done |]. intros i c Hi. destruct (decide (i = n)) as [-> | Hne]; [by rewrite En | apply F; lia].
Qed.

Lemma close_all_held lost z : inv lost z ->
  exists z', runs (OClose <$> seq 0 (length (users z))) z = Ok (tt, z') /\ conns (client z') = lost.
Proof.
  intros I. destruct (close_all lost z (length (users z)) I) as (z' & R & I' & L & F). exists z'. split; [done |].
  assert (Hh : held z' = []).
  { unfold held. destruct (omap id (users z')) as [| c l] eqn:E; [done |]. exfalso.
    assert (Hc : c ∈ omap id (users z')) by (rewrite E; by left). apply list_elem_of_omap in Hc as (o & Ho & Ec).
    cbn in Ec. subst o. apply list_elem_of_lookup in Ho as [i Hi]. apply (F i c); [| done].
    rewrite <- L. by eapply lookup_lt_Some. }
  rewrite (i_conns _ _ I'), Hh. cbn. by rewrite union_empty_r_L.
Qed.

(** C33: connections of Lua code to a database.  Whatever sequence of calls is made
    on them, a connection is freed once and is not used afterwards, the ones the
    library has are those the userdata hold and those of connects without all of
    their arguments, at most one for each, and when all userdata are collected only
    these are left.  The only calls that are undefined are those of [excuse]. *)
Theorem zmysql_lifetimes os lost z : inv lost z ->
  match runs os z with
  | Ok (_, z') => exists lost', inv lost' z' /\ (size lost' <= size lost + length (filter stranded os))%nat /\
      exists z'', runs (OClose <$> seq 0 (length (users z'))) z' = Ok (tt, z'') /\ conns (client z'') = lost'
  | Fault f => exists pre o post z1, os = pre ++ o :: post /\ runs pre z = Ok (tt, z1) /\ excuse f o z1
  end.
Proof.
  revert lost z. induction os as [| o os IH]; intros lost z I.
  { exists lost. split; [done |]. split; [lia | by apply close_all_held]. }
  cbn [runs]. pose proof (run_inv o lost z I) as Ho. destruct (run o z) as [[r z1] | f] eqn:E.
  2: { rewrite (st_bind_Fault _ _ _ _ E). by exists [], o, os, z. }
  rewrite (st_bind_Ok _ _ _ _ _ E). destruct Ho as (lost1 & I1 & Hl). specialize (IH lost1 z1 I1).
  destruct (runs os z1) as [[[] z'] | f].
  - destruct IH as (lost' & I' & Hs & Hc). exists lost'. split; [done |]. split; [| done].
    rewrite filter_cons. destruct Hl as [-> | (Eo & c & Hc1 & ->)].
    + case_decide; cbn; lia.
    + rewrite decide_True by by rewrite Eo. rewrite size_union, size_singleton in Hs; [cbn; lia |].
      intros x ->%elem_of_singleton. done.
  - destruct IH as (pre & o1 & post & z2 & -> & R & X). exists (o :: pre), o1, post, z2. split; [done |].
    split; [| done]. cbn [runs]. by rewrite (st_bind_Ok _ _ _ _ _ E).
Qed.
End theorems.

(** ** A library whose server knows one statement *)

Definition one_row : result :=
  Result [(str "id", FIELD_TYPE_other 3); (str "name", FIELD_TYPE_VAR_STRING)] [[Some (str "12"); Some (str "ann")]; [Some (str "13"); None]].

Record fake := Fake { f_next : nat; f_open : gset nat; f_results : gmap nat (list (option result)) }.

#[export] Instance fake_mysql : MySQL fake := {
  mysql_init d := if bool_decide (f_next d ∈ f_open d) then (None, d)
    else (Some (f_next d), Fake (S (f_next d)) ({[f_next d]} ∪ f_open d) (f_results d));
  mysql_options _ d := d;
  mysql_real_connect _ args _ d := (bool_decide (args !! 0%nat = Some (str "localhost")), d);
  mysql_close c d := Fake (f_next d) (f_open d ∖ {[c]}) (f_results d);
  mysql_query c q d := (true, Fake (f_next d) (f_open d)
    (<[c := if bool_decide (q = str "select") then [Some one_row; Some one_row] else []]> (f_results d)));
  mysql_store_result c d := match default [] (f_results d !! c) with r :: _ => r | [] => None end;
  mysql_next_result c d := match default [] (f_results d !! c) with
    | _ :: r :: rest => (true, Fake (f_next d) (f_open d) (<[c := r :: rest]> (f_results d)))
    | _ => (false, Fake (f_next d) (f_open d) (delete c (f_results d)))
    end;
  mysql_error _ _ := [];
  mysql_affected_rows _ _ := 0;
  mysql_ping _ d := (true, d);
  mysql_escaped _ s _ := concat ((fun x => if x =? 39 then [92; 39] else [x]) <$> s);
  conns := f_open;
  results c d := default [] (f_results d !! c);
}.

#[export] Instance fake_laws : MySQLLaws fake.
Proof.
  split; try done.
  - intros d. cbn. by case_bool_decide.
  - intros c d. cbn. by destruct (default [] _) as [| ? [| ? ?]].
  - intros c d. cbn. destruct (default [] (f_results d !! c)) as [| o [| r rest]] eqn:E; cbn;
      by rewrite ?lookup_delete_eq, ?lookup_insert_eq.
  - intros c s d. cbn. induction s as [| x s IH]; [done |]. cbn. rewrite zlen_app, zlen_cons.
    destruct (x =? 39); [change (zlen [92; 39]) with 2 | change (zlen [x]) with 1]; unfold list_fmap, fmap in *; lia.
Qed.

Definition fake0 : zmysql fake := ZMysqlState (Fake 0 ∅ ∅) [].
Definition login : list (option (list Z)) := [Some (str "localhost"); Some (str "game"); Some (str "z"); Some (str "z")].

(** Two connections, one closed twice; a connect without its last arguments. *)
Lemma zmysql_lifetimes_witness :
  inv ∅ fake0 /\ exists z lost,
    runs 0 [OConnect login; OConnect login; OSelect 0 (Some (str "select")); OEscape 0 (EString (str "it's")); OClose 0; OClose 0;
            OConnect [Some (str "localhost")]; OPing 1] fake0 = Ok (tt, z) /\
    inv lost z /\ (size lost <= 1)%nat.
Proof.
  assert (I : inv ∅ fake0) by (split; [done | constructor | done]).
  split; [exact I |].
  pose proof (zmysql_lifetimes 0 [OConnect login; OConnect login; OSelect 0 (Some (str "select")); OEscape 0 (EString (str "it's"));
    OClose 0; OClose 0; OConnect [Some (str "localhost")]; OPing 1] ∅ fake0 I) as T.
  destruct (runs 0 _ fake0) as [[[] z] | f] eqn:E; [| by vm_compute in E].
  destruct T as (lost & I' & Hs & _). rewrite size_empty in Hs. exists z, lost.
  match type of Hs with context [length ?l] => change (length l) with 1%nat in Hs end.
  split; [reflexivity |]. split; [exact I' | exact Hs].
Defined.
