(* ===== verification/Zlua.v ===== *)
(** * service_zlua.c: the interpreter of a Lua actor

    [_init] prepares the interpreter of an actor from the settings ([Env]) and runs
    the loader with the actor's arguments.  The interpreter is the Lua API: what is
    run is a parameter, its globals are those of [LuaState], and the stack is kept
    as far as the file relies on its height.  The callbacks around it are in
    [LuaApi]. *)
From S2P Require Import Prelude CString Env.

(** What the file leaves on the stack. *)
Inductive slot := Traceback | Loader (file : list Z) | Bytes (s : list Z) | Message.

Definition LUA_OK : Z := 0.

Section Zlua.
  (** the interpreter of the settings, and that of the actor *)
  Context {S L : Type} `{LuaState S} `{LuaState L}.
  (** luaL_loadfile: a status; a call of a loaded file with one string *)
  Variables (luaL_loadfile : list Z -> L -> Z) (call_file : list Z -> list Z -> L -> Z * L).
  (** lua_setglobal of a nil *)
  Variable setnil : list Z -> L -> L.

(** [struct zlua] with what it owns; [zl_ctx] is the context. *)
Record zlua := Zlua {
  zl_L : L;
  zl_stack : list slot;        (* the top is the last *)
  zl_gc : bool;                (* the collector runs *)
  zl_ctx : option nat;
}.

(** The settings and the actor. *)
Definition world : Type := env S * zlua.

Definition on_env {A} (m : ST (env S) A) : ST world A := fun w => r ← m w.1; Ok (r.1, (r.2, w.2)).
Definition modify (f : zlua -> zlua) : ST world unit := fun w => Ok (tt, (w.1, f w.2)).
Definition get : ST world zlua := fun w => Ok (w.2, w).

Definition push (x : slot) : ST world unit := modify (fun l => Zlua (zl_L l) (zl_stack l ++ [x]) (zl_gc l) (zl_ctx l)).
Definition settop (n : nat) : ST world unit := modify (fun l => Zlua (zl_L l) (take n (zl_stack l)) (zl_gc l) (zl_ctx l)).
Definition pop (n : nat) : ST world unit := l ← get; settop (length (zl_stack l) - n).
Definition set_L (v : L) : ST world unit := modify (fun l => Zlua v (zl_stack l) (zl_gc l) (zl_ctx l)).
Definition lua_gc (on : bool) : ST world unit := modify (fun l => Zlua (zl_L l) (zl_stack l) on (zl_ctx l)).

(** A setting becomes a global; a NULL is pushed as nil. *)
Definition export (key global : list Z) (defaultValue : option (list Z)) : ST world unit :=
  v ← on_env (envGet key defaultValue);
  l ← get;
  set_L (match v with Some p => setstring global (chars p) (zl_L l) | None => setnil global (zl_L l) end).

(** Prints by the kind of the error, and pops its message. *)
Definition zReportLuaCallError (err : Z) : ST world unit := if err =? LUA_OK then mret tt else pop 1.

Definition default_loader : list Z := str "./lualib/lualoader.lua".

(** The result is 0 or 1; the registry entry and the libraries are the API's. *)
Definition _init (ctx : nat) (data : list Z) : ST world Z :=
  _ ← modify (fun l => Zlua (zl_L l) (zl_stack l) (zl_gc l) (Some ctx));
  _ ← lua_gc false;
  _ ← export (str "lua_path") (str "LUA_PATH") (Some (str "./lualib/?.lua"));
  _ ← export (str "lua_cpath") (str "LUA_CPATH") (Some (str "./luaclib/?.so"));
  _ ← export (str "luaservice") (str "LUA_SERVICE") (Some (str "./service/?.lua"));
  _ ← export (str "preload") (str "LUA_PRELOAD") None;
  _ ← push Traceback;
  l ← get;
  _ ← st_assert (length (zl_stack l) =? 1)%nat;
  loader ← on_env (envGet (str "lualoader") (Some default_loader));
  loader ← st_lift (deref loader);
  l ← get;
  let r := luaL_loadfile (chars loader) (zl_L l) in
  if negb (r =? LUA_OK) then
    _ ← push Message;
    _ ← zReportLuaCallError r;
    mret 1
  else
    _ ← push (Loader (chars loader));
    _ ← push (Bytes data);
    let r := call_file (chars loader) data (zl_L l) in
    _ ← set_L r.2;
    _ ← pop 2;
    if negb (r.1 =? LUA_OK) then
      _ ← push Message;
      _ ← zReportLuaCallError r.1;
      mret 1
    else
      _ ← settop 0;
      _ ← lua_gc true;
      mret 0.

Definition zluaCreate (fresh : L) : zlua := Zlua fresh [] true None.
End Zlua.
Arguments zlua : clear implicits.

(** ** What the loader finds *)
Section theorems.
  Context {S L : Type} `{LuaState S} `{LuaStateLaws L}.
  Variables (luaL_loadfile : list Z -> L -> Z) (call_file : list Z -> list Z -> L -> Z * L) (setnil : list Z -> L -> L).
  (** lua_setglobal of a nil leaves the other globals as they are *)
  Hypothesis setnil_other : forall k k' l, k' <> k -> getglobal k' (setnil k l) = getglobal k' l.

Definition setting (s : S) (key : list Z) : option (list Z) := chars <$> tostring (getglobal key s).

Definition export_to (s : S) (key global : list Z) (d : option (list Z)) (l : L) : L :=
  match (match setting s key with Some v => Some v | None => d end) with
  | Some v => setstring global v l
  | None => setnil global l
  end.

(** The interpreter when the loader is started. *)
Definition prepared (s : S) (l : L) : L :=
  export_to s (str "preload") (str "LUA_PRELOAD") None
    (export_to s (str "luaservice") (str "LUA_SERVICE") (Some (str "./service/?.lua"))
      (export_to s (str "lua_cpath") (str "LUA_CPATH") (Some (str "./luaclib/?.so"))
        (export_to s (str "lua_path") (str "LUA_PATH") (Some (str "./lualib/?.lua")) l))).

Definition loader_file (s : S) : list Z := default default_loader (setting s (str "lualoader")).

Lemma on_env_get k d (s : S) (z : zlua L) :
  on_env (envGet k d) (Env s, z) = Ok (match tostring (getglobal k s) with Some p => Some p | None => Held <$> d end, (Env s, z)).
Proof. unfold on_env. cbn [fst]. by rewrite envGet_Env. Qed.

Lemma export_Ok k g d (s : S) (z : zlua L) :
  export setnil k g d (Env s, z) = Ok (tt, (Env s, Zlua (export_to s k g d (zl_L z)) (zl_stack z) (zl_gc z) (zl_ctx z))).
Proof.
  unfold export. rewrite (st_bind_Ok _ _ _ _ _ (on_env_get k d s z)). erewrite st_bind_Ok by reflexivity.
  unfold export_to, setting. by destruct (tostring (getglobal k s)), d.
Qed.

(** What [_init] does to a new interpreter: with status 0 it has run the loader, its
    stack is empty and the collector is on again; otherwise it returns 1 with the
    collector off. *)
Theorem _init_spec ctx data (s : S) (l : L) :
  let file := loader_file s in
  let w r (z : zlua L) := Ok (r, (Env s, z)) in
  _init luaL_loadfile call_file setnil ctx data (Env s, zluaCreate l) =
    (if negb (luaL_loadfile file (prepared s l) =? LUA_OK) then w 1 (Zlua (prepared s l) [Traceback] false (Some ctx))
     else
       let r := call_file file data (prepared s l) in
       if negb (r.1 =? LUA_OK) then w 1 (Zlua r.2 [Traceback] false (Some ctx)) else w 0 (Zlua r.2 [] true (Some ctx))).
Proof.
  cbv zeta. unfold _init, zluaCreate. erewrite st_bind_Ok by reflexivity. erewrite st_bind_Ok by reflexivity.
  cbn [fst snd zl_L zl_stack zl_gc zl_ctx]. do 4 (erewrite st_bind_Ok by apply export_Ok).
  cbn [fst snd zl_L zl_stack zl_gc zl_ctx]. fold (prepared s l). do 2 (erewrite st_bind_Ok by reflexivity).
  cbn [fst snd zl_L zl_stack zl_gc zl_ctx app length]. erewrite st_bind_Ok by reflexivity.
  erewrite st_bind_Ok by apply on_env_get.
  assert (El : exists p, match tostring (getglobal (str "lualoader") s) with Some p => Some p | None => Held <$> Some default_loader end =
    Some p /\ chars p = loader_file s).
  { unfold loader_file, setting. destruct (tostring _); eexists; done. }
  destruct El as (p & -> & Ep). rewrite <- Ep. erewrite st_bind_Ok by reflexivity. erewrite st_bind_Ok by reflexivity.
  cbn [fst snd zl_L]. unfold zReportLuaCallError. destruct (luaL_loadfile (chars p) (prepared s l) =? LUA_OK) eqn:E1; cbn [negb].
  2: { by rewrite ?E1. }
  do 2 (erewrite st_bind_Ok by reflexivity). erewrite st_bind_Ok by reflexivity.
  destruct ((call_file (chars p) data (prepared s l)).1 =? LUA_OK) eqn:E2; cbn [negb];
    erewrite st_bind_Ok by reflexivity; rewrite ?E2; reflexivity.
Qed.

Lemma export_to_other s k g d l g' : g' <> g -> getglobal g' (export_to s k g d l) = getglobal g' l.
Proof.
  intros Hne. unfold export_to. destruct (match setting s k with Some v => Some v | None => d end).
  - by rewrite get_set, bool_decide_eq_false_2.
  - by apply setnil_other.
Qed.

Lemma export_to_same s k g d l : getglobal g (export_to s k g (Some d) l) = GString (default d (setting s k)).
Proof. unfold export_to. destruct (setting s k); by rewrite get_set, bool_decide_eq_true_2. Qed.

(** The loader finds the three search paths, each from the settings or its default. *)
Theorem prepared_paths s l :
  getglobal (str "LUA_PATH") (prepared s l) = GString (default (str "./lualib/?.lua") (setting s (str "lua_path"))) /\
  getglobal (str "LUA_CPATH") (prepared s l) = GString (default (str "./luaclib/?.so") (setting s (str "lua_cpath"))) /\
  getglobal (str "LUA_SERVICE") (prepared s l) = GString (default (str "./service/?.lua") (setting s (str "luaservice"))).
Proof.
  unfold prepared. split; [| split].
  - rewrite !export_to_other by done. apply export_to_same.
  - rewrite !export_to_other by done. apply export_to_same.
  - rewrite !export_to_other by done. apply export_to_same.
Qed.
End theorems.

(** ** lua-z.c: the callback on the stack

    _callback keeps the function in the registry; _cb fetches it when the stack of
    the main thread is empty, and leaves it there. *)
Inductive cslot := CTraceback | CFunction (f : option nat).

Record callback_state := CallbackState {
  registry : option nat;
  cb_stack : list cslot;
}.

Definition _callback (f : nat) (s : callback_state) : callback_state := CallbackState (Some f) (cb_stack s).

(** The function that is called; lua_pcall takes it and its arguments off the stack,
    and the message of an error is popped by the report. *)
Definition _cb (s : callback_state) : outcome (option nat * callback_state) :=
  stack ← match cb_stack s with
          | [] => mret [CTraceback; CFunction (registry s)]
          | stack => _ ← c_assert (length stack =? 2)%nat; mret stack
          end;
  x ← deref (stack !! 1%nat);
  mret (match x with CFunction f => f | CTraceback => None end, CallbackState (registry s) stack).

(** What happens to an actor: it sets a callback, or is handed a message. *)
Inductive happening := SetCallback (f : nat) | GetMessage.

Fixpoint happen (hs : list happening) (s : callback_state) : outcome (list (option nat) * callback_state) :=
  match hs with
  | [] => mret ([], s)
  | SetCallback f :: hs => happen hs (_callback f s)
  | GetMessage :: hs => r ← _cb s; q ← happen hs r.2; mret (r.1 :: q.1, q.2)
  end.

(** The stack never has another height than the assertion allows; but the function
    that got the first message gets all later ones: setting another has no effect. *)
Theorem callback_fixed hs f :
  exists n s, happen (GetMessage :: hs) (CallbackState (Some f) []) = Ok (replicate (S n) (Some f), s).
Proof.
  assert (H : forall r, exists n s, happen hs (CallbackState r [CTraceback; CFunction (Some f)]) = Ok (replicate n (Some f), s)).
  { induction hs as [| [g |] hs IH]; intros r; [by exists 0%nat, (CallbackState r [CTraceback; CFunction (Some f)]) | apply IH |].
    destruct (IH r) as (n & s & E). exists (S n), s. cbn. unfold mbind, outcome_bind. cbn. by rewrite E. }
  destruct (H (Some f)) as (n & s & E). exists n, s. cbn. unfold mbind, outcome_bind. cbn. by rewrite E.
Qed.
