(* ===== verification/LuaDir.v ===== *)
(** * lua-dir.c: listing a directory from Lua

    An iterator is a closure over a userdata that holds a directory stream; the
    collector closes the stream.  The directory functions of the C library are an
    interface with the streams that are open and the entries each has left. *)
From stdpp Require Import gmap.
From S2P Require Import Prelude CString.

(** An entry: its name, and whether [d_type] is [DT_DIR]. *)
Definition dirent : Type := list Z * bool.

Class Dirs (D : Type) := {
  opendir : list Z -> D -> option nat * D;
  readdir : nat -> D -> option dirent * D;
  closedir : nat -> D -> D;
  streams : D -> gset nat;
  entries : nat -> D -> list dirent;
}.

Class DirsLaws (D : Type) `{Dirs D} := {
  opendir_spec p d : match opendir p d with
    | (Some c, d') => (c ∉ streams d) /\ streams d' = {[c]} ∪ streams d
    | (None, d') => streams d' = streams d
    end;
  readdir_streams c d : streams (readdir c d).2 = streams d;
  readdir_spec c d : match entries c d with
    | [] => (readdir c d).1 = None
    | e :: rest => (readdir c d).1 = Some e /\ entries c (readdir c d).2 = rest
    end;
  closedir_streams c d : streams (closedir c d) = streams d ∖ {[c]};
}.

Section LuaDir.
  Context {D : Type} `{Dirs D}.

(** The userdata: with a stream, with NULL, or collected. *)
Inductive dslot := Stream (c : nat) | NoStream | Collected.

Record dstate := DState {
  lib : D;
  slots : list dslot;
}.

(** A call on a stream that is open. *)
Definition on_stream {A} (c : nat) (f : D -> A * D) : ST dstate A := fun s =>
  if bool_decide (c ∈ streams (lib s)) then let r := f (lib s) in Ok (r.1, DState r.2 (slots s)) else Fault UseAfterFree.

Definition set_slot (u : nat) (x : dslot) : ST dstate unit := st_modify (fun s => DState (lib s) (<[u := x]> (slots s))).

(** The userdata has its metatable before the directory is opened; a failure raises
    an error, and the number is that of the userdata. *)
Definition l_dir (path : list Z) : ST dstate (option nat) := fun s =>
  let r := opendir path (lib s) in
  match r.1 with
  | None => Ok (None, DState r.2 (slots s ++ [NoStream]))
  | Some c => Ok (Some (length (slots s)), DState r.2 (slots s ++ [Stream c]))
  end.

(** One call of the iterator: a name with "dir" or "file", or nothing. *)
Definition dir_iter (u : nat) : ST dstate (list (list Z)) :=
  s ← st_get;
  match slots s !! u with
  | Some (Stream c) =>
    entry ← on_stream c (readdir c);
    mret (match entry with Some (name, dir) => [name; if dir : bool then str "dir" else str "file"] | None => [] end)
  | _ => st_fault NullDeref
  end.

(** The collector calls it once for each userdata. *)
Definition dir_gc (u : nat) : ST dstate unit :=
  s ← st_get;
  match slots s !! u with
  | Some (Stream c) => _ ← on_stream c (fun d => (tt, closedir c d)); set_slot u Collected
  | Some NoStream => set_slot u Collected
  | _ => mret tt
  end.

(** A for loop of Lua: the pairs until nothing is returned. *)
Fixpoint for_in (fuel : nat) (u : nat) : ST dstate (list (list (list Z))) :=
  match fuel with
  | O => st_fault OutOfFuel
  | S fuel =>
    r ← dir_iter u;
    match r with
    | [] => mret []
    | _ => rest ← for_in fuel u; mret (r :: rest)
    end
  end.
End LuaDir.
Arguments dstate : clear implicits.

(** ** Theorems *)
Section theorems.
  Context {D : Type} `{DirsLaws D}.
  Implicit Types s : dstate D.

(** Every stream of a userdata is open, and no other userdata has it. *)
Definition owns s : Prop := forall u c, slots s !! u = Some (Stream c) ->
  (c ∈ streams (lib s)) /\ forall u', slots s !! u' = Some (Stream c) -> u' = u.

Lemma on_stream_Ok {A} c (f : D -> A * D) s : c ∈ streams (lib s) ->
  on_stream c f s = Ok ((f (lib s)).1, DState (f (lib s)).2 (slots s)).
Proof. intros Hc. unfold on_stream. by rewrite bool_decide_eq_true_2. Qed.

Lemma l_dir_owns path s : owns s -> exists r s', l_dir path s = Ok (r, s') /\ owns s' /\
  match r with Some u => exists c, slots s' !! u = Some (Stream c) | None => streams (lib s') = streams (lib s) end.
Proof.
  intros Ho. unfold l_dir. pose proof (opendir_spec path (lib s)) as Hs.
  destruct (opendir path (lib s)) as [[c |] d]; cbn [fst snd]; eexists _, _; (split; [reflexivity |]).
  - destruct Hs as [Hn Es]. split; [| exists c; cbn [slots]; by rewrite lookup_app_r, Nat.sub_diag by done].
    assert (Hold : forall u, slots s !! u = Some (Stream c) -> False) by by intros u [Hu _]%Ho.
    intros u c1 Eu. cbn [lib slots] in *. rewrite Es. apply lookup_app_Some in Eu as [Eu | [Hl Eu]].
    + destruct (Ho u c1 Eu) as [Hu Hun]. split; [by apply elem_of_union_r |]. intros u' Eu'.
      apply lookup_app_Some in Eu' as [Eu' | [_ Eu']]; [by apply Hun |].
      apply list_lookup_singleton_Some in Eu' as [_ [= <-]]. by destruct (Hold u).
    + apply list_lookup_singleton_Some in Eu as [Hz [= <-]]. split; [by apply elem_of_union_l, elem_of_singleton |].
      intros u' Eu'. apply lookup_app_Some in Eu' as [Eu' | [Hl' Eu']]; [by destruct (Hold u') |].
      apply list_lookup_singleton_Some in Eu' as [Hz' _]. lia.
  - split; [| done]. intros u c Eu. cbn [lib slots] in *. rewrite Hs. apply lookup_app_Some in Eu as [Eu | [Hl Eu]].
    + destruct (Ho u c Eu) as [Hu Hun]. split; [done |]. intros u' Eu'.
      apply lookup_app_Some in Eu' as [Eu' | [_ Eu']]; [by apply Hun |]. by apply list_lookup_singleton_Some in Eu' as [_ ?].
    + by apply list_lookup_singleton_Some in Eu as [_ ?].
Qed.

Lemma dir_gc_owns u s : owns s -> exists s', dir_gc u s = Ok (tt, s') /\ owns s' /\
  streams (lib s') = match slots s !! u with Some (Stream c) => streams (lib s) ∖ {[c]} | _ => streams (lib s) end.
Proof.
  intros Ho. unfold dir_gc. erewrite st_bind_Ok by reflexivity. destruct (slots s !! u) as [[c | |] |] eqn:Eu.
  - destruct (Ho u c Eu) as [Hc Hun]. rewrite (st_bind_Ok _ _ _ _ _ (on_stream_Ok c _ s Hc)). eexists. split; [reflexivity |].
    cbn [lib slots fst snd]. split; [| apply closedir_streams]. intros v c1 Ev. cbn [lib slots] in *. rewrite closedir_streams.
    destruct (decide (v = u)) as [-> | Hne]; [by rewrite list_lookup_insert_eq in Ev by by eapply lookup_lt_Some |].
    rewrite list_lookup_insert_ne in Ev by done. destruct (Ho v c1 Ev) as [Hv Hvn]. split.
    + apply elem_of_difference. split; [done |]. intros ->%elem_of_singleton. apply Hne. by apply Hun.
    + intros u' Eu'. destruct (decide (u' = u)) as [-> | Hne']; [by rewrite list_lookup_insert_eq in Eu' by by eapply lookup_lt_Some |].
      rewrite list_lookup_insert_ne in Eu' by done. by apply Hvn.
  - eexists. split; [reflexivity |]. split; [| done]. intros v c1 Ev. cbn [lib slots] in *.
    destruct (decide (v = u)) as [-> | Hne]; [by rewrite list_lookup_insert_eq in Ev by by eapply lookup_lt_Some |].
    rewrite list_lookup_insert_ne in Ev by done. destruct (Ho v c1 Ev) as [Hv Hvn]. split; [done |]. intros u' Eu'.
    destruct (decide (u' = u)) as [-> | Hne']; [by rewrite list_lookup_insert_eq in Eu' by by eapply lookup_lt_Some |].
    rewrite list_lookup_insert_ne in Eu' by done. by apply Hvn.
  - by exists s.
  - by exists s.
Qed.

Definition shown (e : dirent) : list (list Z) := [e.1; if e.2 : bool then str "dir" else str "file"].

(** The loop over an iterator gives every entry that is left, in order, and ends. *)
Theorem for_in_lists u c s fuel : owns s -> slots s !! u = Some (Stream c) ->
  (length (entries c (lib s)) < fuel)%nat ->
  exists s', for_in fuel u s = Ok (shown <$> entries c (lib s), s') /\ slots s' = slots s /\ streams (lib s') = streams (lib s).
Proof.
  revert s. induction fuel as [| fuel IH]; intros s Ho Eu Hf; [lia |]. destruct (Ho u c Eu) as [Hc _].
  pose proof (readdir_spec c (lib s)) as Hr. pose proof (readdir_streams c (lib s)) as Hs. cbn [for_in].
  set (s1 := DState (readdir c (lib s)).2 (slots s)).
  assert (Ei : dir_iter u s = Ok (match (readdir c (lib s)).1 with Some e => shown e | None => [] end, s1)).
  { unfold dir_iter. erewrite st_bind_Ok by reflexivity. rewrite Eu, (st_bind_Ok _ _ _ _ _ (on_stream_Ok c (readdir c) s Hc)).
    by destruct (readdir c (lib s)).1 as [[name dir] |]. }
  rewrite (st_bind_Ok _ _ _ _ _ Ei). destruct (entries c (lib s)) as [| e rest] eqn:Ee.
  - rewrite Hr. by exists s1.
  - destruct Hr as [-> Hrest]. cbn [shown].
    destruct (IH s1) as (s' & E & Es & Ed).
    + intros v c1 Ev. cbn in Ev |- *. rewrite Hs. by apply Ho.
    + done.
    + cbn. rewrite Hrest. cbn in Hf. lia.
    + exists s'. rewrite (st_bind_Ok _ _ _ _ _ E). cbn [lib slots s1] in *. rewrite Hrest. split; [done |]. by rewrite Ed.
Qed.
End theorems.
