(* ===== verification/Lifecycle.v ===== *)
(** * main.c, eventloop.c, thread.c: the life of the parts and of the threads

    Every part of the server keeps its state behind a static pointer that an init
    function sets and an uninit function frees, without setting it back to NULL.
    A function is the list of what it does to these pointers and to the threads,
    in order; the parts themselves are the subject of the other files.  What the
    threads of the server and the signal handler do in the meantime is a step
    relation ([step]), whose steps are single accesses. *)
From stdpp Require Import functions.
From S2P Require Import Prelude.

Inductive part :=
  | PEnv | PLog | PGlobalQueue | PCtxMgr | PEventLoop | PTcp | PTimer | PModule | PWorkerPool | PNameMgr.

(** The threads; [TMain] is the one that runs [main]. *)
Inductive tid := TMain | TTimer | TWorker (i : nat) | TLoop | TLog.

#[export] Instance part_eq_dec : EqDecision part.
Proof. solve_decision. Defined.

#[export] Instance tid_eq_dec : EqDecision tid.
Proof. solve_decision. Defined.

(** The static pointer of a part. *)
Inductive life := Null | Live | Dangling.

(** [struct thread]: [Created] is [started = false]; [Ended] is a thread whose
    function has returned and that can be joined at once. *)
Inductive phase := Absent | Created | Running | Ended | Released.

#[export] Instance life_eq_dec : EqDecision life.
Proof. solve_decision. Defined.

#[export] Instance phase_eq_dec : EqDecision phase.
Proof. solve_decision. Defined.

Inductive instr :=
  | AssertNull (p : part) | AssertSet (p : part)
  | Alloc (p : part) | Use (p : part) | Free (p : part)
  | ThreadCreate (t : tid) | ThreadStart (t : tid) | ThreadJoin (t : tid) | ThreadRelease (t : tid)
  | Install | Uninstall
  (** the message, the flag or the token that makes a thread's function return *)
  | Post (t : tid).

(** ** The functions of the parts *)
Section code.
  (** the number of workers, and whether [z_log_state] is not 0 *)
  Variables (threadNum : nat) (logging : bool).

Definition workers (f : tid -> instr) : list instr := (fun i => f (TWorker i)) <$> seq 0 threadNum.

Definition envInit : list instr := [Alloc PEnv].
Definition envGet : list instr := [Use PEnv].
Definition envUninit : list instr := [Use PEnv; Free PEnv].

Definition logInit : list instr :=
  Alloc PLog :: envGet ++ [Use PLog] ++ if logging then [ThreadCreate TLog; Use PLog; ThreadStart TLog] else [].
Definition logExit : list instr := [Use PLog; Post TLog].
Definition logUninit : list instr :=
  Use PLog :: (if logging then [ThreadJoin TLog; ThreadRelease TLog] else []) ++ [Use PLog; Free PLog].

Definition globalqueueInit : list instr := [Alloc PGlobalQueue].
Definition globalqueueUninit : list instr := [Use PGlobalQueue; Free PGlobalQueue].

Definition ctxMgrInit : list instr := [AssertNull PCtxMgr; Alloc PCtxMgr].
Definition ctxMgrUninit : list instr := [AssertSet PCtxMgr; Use PCtxMgr; Free PCtxMgr].
(** Releasing a context calls into its module. *)
Definition ctxMgrStop : list instr := [Use PCtxMgr; Use PModule; Use PCtxMgr].

Definition eventloopInit : list instr := [Alloc PEventLoop; ThreadCreate TLoop; Use PEventLoop].
Definition eventloopUninit : list instr := [Use PEventLoop; ThreadRelease TLoop; Use PEventLoop; Free PEventLoop].
Definition eventloopStart : list instr := [Use PEventLoop; ThreadStart TLoop].
Definition eventloopJoin : list instr := [Use PEventLoop; ThreadJoin TLoop].
Definition eventloopBase : list instr := [Use PEventLoop].

(** [emCreate] and [socketInit] use the event loop, and so does [emRelease]. *)
Definition tcpInit : list instr := eventloopBase ++ [Alloc PTcp; Use PEventLoop; Use PTcp] ++ eventloopBase.
Definition tcpUninit : list instr := [Use PTcp; Use PEventLoop; Use PTcp; Free PTcp].
(** [emPush] pushes the request and then reads the size of the queue. *)
Definition tcpStop : list instr := [Use PTcp; Post TLoop; Use PTcp].

Definition timerInit : list instr := [AssertNull PTimer; Alloc PTimer; ThreadCreate TTimer; Use PTimer].
Definition timerUninit : list instr := [AssertSet PTimer; Use PTimer; ThreadRelease TTimer; Free PTimer].
Definition timerStart : list instr := [Use PTimer; ThreadStart TTimer].
Definition timerJoin : list instr := [Use PTimer; ThreadJoin TTimer].
Definition timerStop : list instr := [AssertSet PTimer; Use PTimer; Post TTimer; Use PTimer].

Definition moduleInit : list instr := [Alloc PModule].
Definition moduleUninit : list instr := [Use PModule; Free PModule].

(** The pool is built behind a local pointer first. *)
Definition workerPoolInit : list instr := workers ThreadCreate ++ [Alloc PWorkerPool].
Definition workerPoolUninit : list instr :=
  [AssertSet PWorkerPool; Use PWorkerPool] ++ workers ThreadRelease ++ [Use PWorkerPool; Free PWorkerPool].
Definition workerPoolStart : list instr := [AssertSet PWorkerPool; Use PWorkerPool] ++ workers ThreadStart.
Definition workerPoolJoin : list instr := [AssertSet PWorkerPool; Use PWorkerPool] ++ workers ThreadJoin.
Definition workerPoolStop : list instr := [Use PWorkerPool].

Definition nameMgrInit : list instr := [Alloc PNameMgr].
Definition nameMgrUninit : list instr := [Use PNameMgr; Free PNameMgr].

(** ** main.c *)

Definition unSetupSignalHandlers : list instr := [Uninstall].
Definition setupSignalHandlers : list instr := [Install].

(** The handler of SIGTERM and SIGINT. *)
Definition stop : list instr := unSetupSignalHandlers ++ timerStop ++ ctxMgrStop ++ workerPoolStop ++ tcpStop.

Definition init : list instr :=
  envGet ++ envGet ++ envGet ++ envGet ++ logInit ++ globalqueueInit ++ ctxMgrInit ++ eventloopInit ++ tcpInit ++
  timerInit ++ moduleInit ++ workerPoolInit ++ nameMgrInit.

(** The first context is created by a module, whose code can send, log, set timers,
    use sockets and register names. *)
Definition bootstrap : list instr :=
  [Use PModule; Use PCtxMgr; Use PEnv; Use PLog; Use PWorkerPool; Use PTimer; Use PTcp; Use PNameMgr].

Definition start : list instr :=
  timerStart ++ workerPoolStart ++ eventloopStart ++ setupSignalHandlers ++
  timerJoin ++ workerPoolJoin ++ eventloopJoin ++ logExit.

Definition uninit : list instr :=
  tcpUninit ++ eventloopUninit ++ globalqueueUninit ++ timerUninit ++ ctxMgrUninit ++ moduleUninit ++
  nameMgrUninit ++ workerPoolUninit ++ logUninit.

(** [main] from step 5 on. *)
Definition main : list instr := envInit ++ init ++ bootstrap ++ start ++ uninit ++ envUninit.
End code.

(** ** The process *)

Record sys := Sys {
  lives : part -> life;
  phases : tid -> phase;
  code : list instr;               (* what main still has to do *)
  handlers : tid -> list instr;    (* what the signal handlers running on a thread still have to do *)
  installed : bool;
  posted : tid -> bool;
}.

Definition set_lives (s : sys) v := Sys v (phases s) (code s) (handlers s) (installed s) (posted s).
Definition set_phases (s : sys) v := Sys (lives s) v (code s) (handlers s) (installed s) (posted s).
Definition set_code (s : sys) v := Sys (lives s) (phases s) v (handlers s) (installed s) (posted s).
Definition set_handlers (s : sys) v := Sys (lives s) (phases s) (code s) v (installed s) (posted s).
Definition set_installed (s : sys) v := Sys (lives s) (phases s) (code s) (handlers s) v (posted s).
Definition set_posted (s : sys) v := Sys (lives s) (phases s) (code s) (handlers s) (installed s) v.

Definition access (l : life) : outcome unit :=
  match l with Null => Fault NullDeref | Live => Ok tt | Dangling => Fault UseAfterFree end.

(** [ThreadJoin] is executed when the thread has ended. *)
Definition exec (i : instr) (s : sys) : outcome sys :=
  match i with
  | AssertNull p => _ ← c_assert (bool_decide (lives s p = Null)); mret s
  | AssertSet p => _ ← c_assert (negb (bool_decide (lives s p = Null))); mret s
  | Alloc p => mret (set_lives s (<[p := Live]> (lives s)))
  | Use p => _ ← access (lives s p); mret s
  | Free p => _ ← access (lives s p); mret (set_lives s (<[p := Dangling]> (lives s)))
  | ThreadCreate t => mret (set_phases s (<[t := Created]> (phases s)))
  | ThreadStart t =>
    match phases s t with
    | Created => mret (set_phases s (<[t := Running]> (phases s)))
    | Running | Ended => Fault AssertFailed
    | Absent => Fault NullDeref
    | Released => Fault UseAfterFree
    end
  | ThreadJoin t =>
    match phases s t with
    | Created => Fault AssertFailed
    | Running | Ended => mret s
    | Absent => Fault NullDeref
    | Released => Fault UseAfterFree
    end
  (** a running thread still reads its structure *)
  | ThreadRelease t =>
    match phases s t with
    | Created | Ended => mret (set_phases s (<[t := Released]> (phases s)))
    | Absent => Fault AssertFailed
    | Running | Released => Fault UseAfterFree
    end
  | Install => mret (set_installed s true)
  | Uninstall => mret (set_installed s false)
  | Post t => mret (set_posted s (<[t := true]> (posted s)))
  end.

(** The parts the functions of the threads use: a worker runs the code of the
    contexts; the timer thread and the event loop send messages. *)
Definition uses (t : tid) (p : part) : bool :=
  match t with
  | TMain => false
  | TWorker _ => true
  | TTimer => bool_decide (p = PTimer \/ p = PWorkerPool \/ p = PCtxMgr \/ p = PLog)
  | TLoop => bool_decide (p = PEventLoop \/ p = PTcp \/ p = PWorkerPool \/ p = PCtxMgr \/ p = PLog)
  | TLog => bool_decide (p = PLog)
  end.

(** When a thread's function may return: a worker's does when there are no contexts. *)
Definition may_end (s : sys) (t : tid) : bool :=
  match t with TMain => false | TWorker _ => true | _ => posted s t end.

Definition runs (s : sys) (t : tid) : bool :=
  match t with TMain => negb (bool_decide (code s = [])) | _ => bool_decide (phases s t = Running) end.

(** A thread whose handler has not returned does nothing else. *)
Definition idle (s : sys) (t : tid) : bool := bool_decide (handlers s t = []).

#[export] Instance instr_eq_dec : EqDecision instr.
Proof. solve_decision. Defined.

(** ** Steps

    [sig t] says that the system may run the handler on the thread [t]. *)
Inductive step (sig : tid -> bool) : sys -> outcome sys -> Prop :=
  | step_main s i rest :
    code s = i :: rest -> idle s TMain = true -> (forall t, i = ThreadJoin t -> phases s t <> Running) ->
    step sig s (exec i (set_code s rest))
  | step_thread s t p :
    t <> TMain -> runs s t = true -> idle s t = true -> uses t p = true -> step sig s (exec (Use p) s)
  | step_return s t :
    t <> TMain -> runs s t = true -> idle s t = true -> may_end s t = true ->
    step sig s (Ok (set_phases s (<[t := Ended]> (phases s))))
  | step_signal s t :
    installed s = true -> sig t = true -> runs s t = true ->
    step sig s (Ok (set_handlers s (<[t := stop ++ handlers s t]> (handlers s))))
  | step_handler s t i rest :
    runs s t = true -> handlers s t = i :: rest ->
    step sig s (exec i (set_handlers s (<[t := rest]> (handlers s)))).

Definition steps (sig : tid -> bool) : sys -> sys -> Prop := rtc (fun s s' => step sig s (Ok s')).

(** [execve] has just run. *)
Definition started (threadNum : nat) (logging : bool) : sys :=
  Sys (fun _ => Null) (fun _ => Absent) (main threadNum logging) (fun _ => []) false (fun _ => false).

(** Schedules, for concrete runs. *)
Inductive choice := CMain | CThread (t : tid) (p : part) | CReturn (t : tid) | CSignal (t : tid) | CHandler (t : tid).

Definition fire (sig : tid -> bool) (c : choice) (s : sys) : option (outcome sys) :=
  match c with
  | CMain =>
    match code s with
    | [] => None
    | i :: rest =>
      let blocked := match i with ThreadJoin t => bool_decide (phases s t = Running) | _ => false end in
      if idle s TMain && negb blocked then Some (exec i (set_code s rest)) else None
    end
  | CThread t p =>
    if negb (bool_decide (t = TMain)) && runs s t && idle s t && uses t p then Some (exec (Use p) s) else None
  | CReturn t =>
    if negb (bool_decide (t = TMain)) && runs s t && idle s t && may_end s t
    then Some (Ok (set_phases s (<[t := Ended]> (phases s)))) else None
  | CSignal t =>
    if installed s && sig t && runs s t then Some (Ok (set_handlers s (<[t := stop ++ handlers s t]> (handlers s)))) else None
  | CHandler t =>
    match handlers s t with
    | [] => None
    | i :: rest => if runs s t then Some (exec i (set_handlers s (<[t := rest]> (handlers s)))) else None
    end
  end.

Lemma fire_step sig c s o : fire sig c s = Some o -> step sig s o.
Proof.
  destruct c as [| t p | t | t | t]; simpl.
  - destruct (code s) as [| i rest] eqn:E; [done |]. destruct (idle s TMain) eqn:Ei; [| done].
    destruct (match i with ThreadJoin t => _ | _ => _ end) eqn:B; [done |]. intros [= <-]. apply step_main; [done | done |].
    intros t ->. by apply bool_decide_eq_false in B.
  - destruct (bool_decide_reflect (t = TMain)); [done |]. destruct (runs s t) eqn:?; [| done].
    destruct (idle s t) eqn:?; [| done]. destruct (uses t p) eqn:?; [| done]. intros [= <-]. by apply (step_thread sig s t p).
  - destruct (bool_decide_reflect (t = TMain)); [done |]. destruct (runs s t) eqn:?; [| done].
    destruct (idle s t) eqn:?; [| done]. destruct (may_end s t) eqn:?; [| done]. intros [= <-]. by apply step_return.
  - destruct (installed s) eqn:?; [| done]. destruct (sig t) eqn:?; [| done]. destruct (runs s t) eqn:?; [| done].
    intros [= <-]. by apply step_signal.
  - destruct (handlers s t) as [| i rest] eqn:?; [done |]. destruct (runs s t) eqn:?; [| done].
    intros [= <-]. by apply step_handler.
Qed.

(** Runs a schedule until it ends or something goes wrong; [None] when a choice is
    not enabled. *)
Fixpoint follow (sig : tid -> bool) (cs : list choice) (s : sys) : option (outcome sys) :=
  match cs with
  | [] => Some (Ok s)
  | c :: cs =>
    match fire sig c s with
    | Some (Ok s') => follow sig cs s'
    | r => r
    end
  end.

Lemma follow_fault sig cs s f :
  follow sig cs s = Some (Fault f) -> exists s', steps sig s s' /\ step sig s' (Fault f).
Proof.
  revert s. induction cs as [| c cs IH]; intros s; simpl; [done |].
  destruct (fire sig c s) as [[s1 | f1] |] eqn:E; [| | done].
  - intros (s' & R & F)%IH. exists s'. split; [| done]. eapply rtc_l; [| exact R]. by eapply fire_step.
  - intros [= ->]. exists s. split; [constructor |]. by eapply fire_step.
Qed.

Lemma follow_steps sig cs s s' : follow sig cs s = Some (Ok s') -> steps sig s s'.
Proof.
  revert s. induction cs as [| c cs IH]; intros s; simpl; [by intros [= ->]; constructor |].
  destruct (fire sig c s) as [[s1 | f1] |] eqn:E; [| done | done].
  intros R%IH. eapply rtc_l; [| exact R]. by eapply fire_step.
Qed.

(** ** Checking main against whatever the threads may do

    [static] is what main's own instructions say: a thread between its start and
    its join counts as running.  [Before], [On] and [Off] are the times before
    the handlers are installed, until the timer thread is joined, and after. *)
Inductive era := Before | On | Off.

#[export] Instance era_eq_dec : EqDecision era.
Proof. solve_decision. Defined.

Record static := Static {
  slives : part -> life;
  sphases : tid -> phase;
  sera : era;
  slog : bool;     (* the log thread has been told to end *)
}.

Definition stop_parts (p : part) : bool :=
  bool_decide (p = PTimer \/ p = PCtxMgr \/ p = PModule \/ p = PWorkerPool \/ p = PTcp).

Definition sexec (i : instr) (a : static) : static :=
  match i with
  | Alloc p => Static (<[p := Live]> (slives a)) (sphases a) (sera a) (slog a)
  | Free p => Static (<[p := Dangling]> (slives a)) (sphases a) (sera a) (slog a)
  | ThreadCreate t => Static (slives a) (<[t := Created]> (sphases a)) (sera a) (slog a)
  | ThreadStart t => Static (slives a) (<[t := Running]> (sphases a)) (sera a) (slog a)
  | ThreadJoin t =>
    Static (slives a) (<[t := Ended]> (sphases a)) (if bool_decide (t = TTimer) then Off else sera a) (slog a)
  | ThreadRelease t => Static (slives a) (<[t := Released]> (sphases a)) (sera a) (slog a)
  | Install => Static (slives a) (sphases a) On (slog a)
  | Post t => Static (slives a) (sphases a) (sera a) (slog a || bool_decide (t = TLog))
  | _ => a
  end.

(** What a thread other than main may use, in a handler too. *)
Definition may_use (sig : tid -> bool) (t : tid) (p : part) : bool := uses t p || (sig t && stop_parts p).

Definition pre (sig : tid -> bool) (i : instr) (a : static) : Prop :=
  match i with
  | AssertNull p => slives a p = Null
  | AssertSet p => slives a p <> Null
  | Alloc p => True
  | Use p => slives a p = Live
  | Free p => slives a p = Live /\ sera a <> On /\ forall t, sphases a t = Running -> may_use sig t p = false
  | ThreadCreate t => t <> TMain /\ sphases a t = Absent
  | ThreadStart t => sphases a t = Created /\ t <> TMain /\ (forall p, uses t p = true -> slives a p = Live)
  | ThreadJoin t => t <> TMain /\ sphases a t = Running /\ (t = TTimer -> sera a = On) /\ (t = TLog -> slog a = true) /\ (t = TLoop -> sera a = Off)
  | ThreadRelease t => t <> TMain /\ (sphases a t = Created \/ sphases a t = Ended)
  | Install => sera a = Before /\ sphases a TTimer = Running /\ forall p, stop_parts p = true -> slives a p = Live
  | Uninstall => False
  | Post t => t = TLog
  end.

(** At the end everything is released. *)
Definition finished (a : static) : Prop :=
  (forall p, slives a p = Dangling) /\
  forall t, t <> TMain -> sphases a t = Absent \/ sphases a t = Released.

Fixpoint check (sig : tid -> bool) (a : static) (c : list instr) : Prop :=
  match c with
  | [] => finished a
  | i :: c => pre sig i a /\ check sig (sexec i a) c
  end.

Definition static0 : static := Static (fun _ => Null) (fun _ => Absent) Before false.

(** What may be left of handlers on a thread: they use the parts they stop, and the
    signals are ignored before the timer thread is told to end, which is told
    before the event loop. *)
Fixpoint hand_ok (inst : bool) (c : list instr) : bool :=
  match c with
  | [] => true
  | Uninstall :: c => bool_decide (Post TTimer ∈ c) && hand_ok false c
  | Post TTimer :: c => negb inst && bool_decide (Post TLoop ∈ c) && hand_ok inst c
  | Post TLoop :: c => hand_ok inst c
  | Use p :: c | AssertSet p :: c => stop_parts p && hand_ok inst c
  | _ => false
  end.

Record inv (sig : tid -> bool) (a : static) (s : sys) : Prop := {
  i_lives p : lives s p = slives a p;
  i_phase t : t <> TMain -> match sphases a t with
    | Running => phases s t = Running \/ phases s t = Ended
    | ph => phases s t = ph
    end;
  i_use t p : sphases a t = Running -> uses t p = true -> slives a p = Live;
  i_era : sera a = On -> sphases a TTimer = Running /\ forall p, stop_parts p = true -> slives a p = Live;
  i_inst : installed s = true -> sera a = On;
  i_hand t : handlers s t <> [] -> sera a <> Before /\ (forall p, stop_parts p = true -> slives a p = Live) /\
    (t = TMain /\ sera a = On \/ t <> TMain /\ sphases a t = Running /\ sig t = true /\ phases s t = Running);
  i_ok t : hand_ok (installed s) (handlers s t) = true;
  i_posted : posted s TTimer = true -> installed s = false /\ sera a <> Before;
  i_ended : sphases a TTimer = Running -> phases s TTimer = Ended -> posted s TTimer = true;
  i_off : sera a = Off -> posted s TTimer = true;
  i_stopping : sera a = On -> installed s = false -> posted s TTimer = false ->
    exists t, Post TTimer ∈ handlers s t;
  i_loop : posted s TTimer = true -> posted s TLoop = true \/ exists t, Post TLoop ∈ handlers s t;
  i_log : slog a = true -> posted s TLog = true;
}.

Lemma later {A} (x : A) c1 c2 `{EqDecision A} :
  bool_decide (x ∈ c1) = true -> bool_decide (x ∈ c1 ++ c2) = true.
Proof. rewrite !bool_decide_eq_true, elem_of_app. by left. Qed.

Lemma hand_ok_app inst c1 c2 : hand_ok inst c1 = true -> hand_ok false c2 = true ->
  (inst = false \/ Uninstall ∈ c1) -> hand_ok inst (c1 ++ c2) = true.
Proof.
  revert inst. induction c1 as [| i c1 IH]; intros inst H1 H2 Hu; simpl.
  - destruct Hu as [-> | Hu]; [done | by apply elem_of_nil in Hu].
  - assert (Hu' : i <> Uninstall -> inst = false \/ Uninstall ∈ c1).
    { intros Hi. destruct Hu as [| [Hu | Hu]%elem_of_cons]; [by left | by destruct Hi | by right]. }
    destruct i as [| p | | p | | t | t | t | t | | | t]; try done; simpl in H1.
    + apply andb_prop in H1 as [-> H1]. by apply IH, Hu'.
    + apply andb_prop in H1 as [-> H1]. by apply IH, Hu'.
    + apply andb_prop in H1 as [Hl H1]. rewrite (later _ _ _ Hl). by apply IH; [| | left].
    + destruct t; try done; [| by apply IH, Hu'].
      apply andb_prop in H1 as [[-> Hl]%andb_prop H1]. rewrite (later _ _ _ Hl). by apply IH, Hu'.
Qed.

Lemma hand_ok_false inst c : hand_ok inst c = true -> hand_ok false c = true.
Proof.
  revert inst. induction c as [| i c IH]; intros inst H; [done |]. simpl in *.
  destruct i as [| p | | p | | t | t | t | t | | | t]; try done.
  - apply andb_prop in H as [-> H]. by eapply IH.
  - apply andb_prop in H as [-> H]. by eapply IH.
  - destruct t; try done; [apply andb_prop in H as [[_ ->]%andb_prop H]; by eapply IH | by eapply IH].
Qed.

(** Updating a function at one point. *)
Lemma insert_cases {A B} `{EqDecision A} (f : A -> B) a b x :
  (<[a := b]> f) x = if decide (a = x) then b else f x.
Proof. reflexivity. Qed.

Section preserved.
  Variable sig : tid -> bool.
  Variable a : static.
  Variable s : sys.
  Hypothesis I : inv sig a s.

Lemma inv_return t :
  t <> TMain -> runs s t = true -> idle s t = true -> may_end s t = true ->
  inv sig a (set_phases s (<[t := Ended]> (phases s))).
Proof.
  intros Ht Hr Hi Hm. apply bool_decide_eq_true in Hi.
  assert (Hp : phases s t = Running) by (destruct t; [done | by apply bool_decide_eq_true in Hr ..]).
  destruct I. split; cbn; try done.
  - intros t' Ht'. pose proof (i_phase0 t' Ht') as P. rewrite insert_cases. destruct (decide (t = t')) as [<- |]; [| done].
    destruct (sphases a t) eqn:E; try congruence. by right.
  - intros t' Hh. destruct (i_hand0 t' Hh) as (? & ? & D). split; [done |]. split; [done |].
    destruct D as [? | (? & ? & ? & ?)]; [by left | right]. split; [done |]. split; [done |]. split; [done |].
    rewrite insert_cases. by destruct (decide (t = t')) as [<- |].
  - intros E. rewrite insert_cases. destruct (decide (t = TTimer)) as [-> |]; [by intros _ | by apply i_ended0].
Qed.

Lemma inv_signal t :
  installed s = true -> sig t = true -> runs s t = true ->
  inv sig a (set_handlers s (<[t := stop ++ handlers s t]> (handlers s))).
Proof.
  intros Hin Hsig Hr. assert (On_ : sera a = On) by (by apply (i_inst _ _ _ I)).
  destruct (i_era _ _ _ I On_) as [HT Hparts].
  assert (Hup : forall t' i, i ∈ handlers s t' -> i ∈ (<[t := stop ++ handlers s t]> (handlers s)) t').
  { intros t' i Hi. rewrite insert_cases. destruct (decide (t = t')) as [<- |]; [| done]. apply elem_of_app. by right. }
  destruct I. split; cbn [set_handlers lives phases code handlers installed posted]; try done.
  - intros t'. rewrite insert_cases. destruct (decide (t = t')) as [<- |]; [| apply i_hand0]. intros _.
    split; [by rewrite On_ |]. split; [done |]. destruct (decide (t = TMain)) as [-> | Hne]; [by left | right].
    assert (Hp : phases s t = Running) by (destruct t; [done | by apply bool_decide_eq_true in Hr ..]).
    split; [done |]. split; [| done]. pose proof (i_phase0 t Hne) as P. destruct (sphases a t); congruence.
  - intros t'. rewrite insert_cases. destruct (decide (t = t')) as [<- |]; [| done].
    apply hand_ok_app; [by rewrite Hin | by eapply hand_ok_false | right; apply (bool_decide_unpack _); by vm_compute].
  - congruence.
  - intros Hp. destruct (i_loop0 Hp) as [? | (t' & Ht')]; [by left | right]. exists t'. by apply Hup.
Qed.

Lemma inv_handler t i rest :
  runs s t = true -> handlers s t = i :: rest ->
  exists s', exec i (set_handlers s (<[t := rest]> (handlers s))) = Ok s' /\ inv sig a s' /\ code s' = code s.
Proof.
  intros Hr E. pose proof (i_hand _ _ _ I t ltac:(by rewrite E)) as (Hera & Hparts & Hwho).
  pose proof (i_ok _ _ _ I t) as Hok. rewrite E in Hok.
  assert (Hsub : forall t' j, j ∈ (<[t := rest]> (handlers s)) t' -> j ∈ handlers s t').
  { intros t' j. rewrite insert_cases. destruct (decide (t = t')) as [<- |]; [| done]. rewrite E. by right. }
  assert (Hhand : forall t', (<[t := rest]> (handlers s)) t' <> [] -> handlers s t' <> []).
  { intros t'. rewrite insert_cases. destruct (decide (t = t')) as [<- |]; [by rewrite E | done]. }
  assert (Hkeep : forall t' j, j ∈ handlers s t' -> j <> i -> exists t'', j ∈ (<[t := rest]> (handlers s)) t'').
  { intros t' j Hj Hne. exists t'. rewrite insert_cases. destruct (decide (t = t')) as [<- |]; [| done].
    rewrite E in Hj. by apply elem_of_cons in Hj as [-> |]. }
  assert (Hoth : forall b, hand_ok b rest = true -> (b = installed s \/ b = false) ->
    forall t', hand_ok b ((<[t := rest]> (handlers s)) t') = true).
  { intros b Hb Hb' t'. rewrite insert_cases. destruct (decide (t = t')) as [<- |]; [done |].
    destruct Hb' as [-> | ->]; [apply (i_ok _ _ _ I) | by eapply hand_ok_false, (i_ok _ _ _ I)]. }
  assert (Hnop : hand_ok (installed s) rest = true -> (forall t', i <> Post t') -> i <> Uninstall ->
    inv sig a (set_handlers s (<[t := rest]> (handlers s)))).
  { intros Hok' Hnp Hnu. destruct I. split; cbn [set_handlers lives phases code handlers installed posted]; try done.
    - intros t' Ht'. by apply i_hand0, Hhand.
    - apply Hoth; auto.
    - intros H1 H2 H3. destruct (i_stopping0 H1 H2 H3) as (t' & Ht'). by eapply Hkeep.
    - intros Hp. destruct (i_loop0 Hp) as [? | (t' & Ht')]; [by left | right]. by eapply Hkeep. }
  destruct i as [| p | | p | | | | | | | | tt]; try done; simpl in Hok; cbn [exec].
  - apply andb_prop in Hok as [Hp Hok]. cbn [set_handlers lives]. rewrite (i_lives _ _ _ I), (Hparts p Hp).
    rewrite bool_decide_eq_false_2 by done. eexists. split; [reflexivity |]. split; [| done]. by apply Hnop.
  - apply andb_prop in Hok as [Hp Hok]. cbn [set_handlers lives]. rewrite (i_lives _ _ _ I), (Hparts p Hp).
    eexists. split; [reflexivity |]. split; [| done]. by apply Hnop.
  - eexists. split; [reflexivity |]. split; [| done].
    apply andb_prop in Hok as [Hl%bool_decide_eq_true Hok].
    destruct I. split; cbn [set_installed set_handlers lives phases code handlers installed posted]; try done.
    + intros t' Ht'. by apply i_hand0, Hhand.
    + apply Hoth; auto.
    + intros _ _ _. exists t. by rewrite insert_cases, decide_True.
    + intros Hp. destruct (i_loop0 Hp) as [? | (t' & Ht')]; [by left | right]. by eapply Hkeep.
  - destruct tt; try done; (eexists; split; [reflexivity | split; [| done]]).
    + apply andb_prop in Hok as [[Hin%negb_true_iff Hl%bool_decide_eq_true]%andb_prop Hok].
      destruct I. split; cbn [set_posted set_handlers lives phases code handlers installed posted]; try done.
      * intros t' Ht'. by apply i_hand0, Hhand.
      * apply Hoth; auto.
      * right. exists t. by rewrite insert_cases, decide_True.
    + destruct I. split; cbn [set_posted set_handlers lives phases code handlers installed posted]; try done.
      * intros t' Ht'. by apply i_hand0, Hhand.
      * apply Hoth; auto.
      * intros H1 H2 H3. destruct (i_stopping0 H1 H2 H3) as (t' & Ht'). by eapply Hkeep.
      * intros _. by left.
Qed.

(** The threads that are not touched keep their phase. *)
Lemma phase_insert t ph ph' :
  (forall t', t' <> TMain -> match sphases a t' with
    | Running => phases s t' = Running \/ phases s t' = Ended | q => phases s t' = q end) ->
  match ph with Running => ph' = Running \/ ph' = Ended | q => ph' = q end ->
  forall t', t' <> TMain -> match (<[t := ph]> (sphases a)) t' with
    | Running => (<[t := ph']> (phases s)) t' = Running \/ (<[t := ph']> (phases s)) t' = Ended
    | q => (<[t := ph']> (phases s)) t' = q end.
Proof. intros P Hph t' Ht'. rewrite !insert_cases. case_decide; [by destruct ph | by apply P]. Qed.

Lemma inv_code c : inv sig a (set_code s c).
Proof. by destruct I. Qed.
End preserved.

Section main_step.
  Variable sig : tid -> bool.
  Variable a : static.
  Variable s : sys.
  Hypothesis I : inv sig a s.
  Hypothesis quiet : handlers s TMain = [].

Definition main_ok (i : instr) : Prop :=
  exists s', exec i s = Ok s' /\ inv sig (sexec i a) s' /\ code s' = code s.

Lemma main_alloc p : main_ok (Alloc p).
Proof.
  eexists. split; [reflexivity |]. split; [| done].
  assert (L : forall q, slives a q = Live -> (<[p := Live]> (slives a)) q = Live)
    by (intros q; rewrite insert_cases; by case_decide).
  destruct I. split; cbn [sexec slives sphases sera slog set_lives lives phases code handlers installed posted]; try done.
  - intros q. rewrite !insert_cases. by case_decide.
  - intros t q Ht Hq. by eapply L, i_use0.
  - intros He. destruct (i_era0 He) as [? Hp]. split; [done |]. intros q Hq. by apply L, Hp.
  - intros t Ht. destruct (i_hand0 t Ht) as (? & Hp & ?). split; [done |]. split; [| done]. intros q Hq. by apply L, Hp.
Qed.

Lemma main_free p : pre sig (Free p) a -> main_ok (Free p).
Proof.
  intros (Hl & He & Hu). unfold main_ok. cbn [exec]. rewrite (i_lives _ _ _ I), Hl. eexists. split; [reflexivity |]. split; [| done].
  assert (L : forall q, q <> p -> slives a q = Live -> (<[p := Dangling]> (slives a)) q = Live)
    by (intros q Hq; rewrite insert_cases; by case_decide).
  destruct I. split; cbn [sexec slives sphases sera slog set_lives lives phases code handlers installed posted]; try done.
  - intros q. rewrite !insert_cases. by case_decide.
  - intros t q Ht Hq. apply L; [| by eapply i_use0]. intros ->. specialize (Hu t Ht). unfold may_use in Hu. by rewrite Hq in Hu.
  - intros t Ht. destruct (i_hand0 t Ht) as (? & Hp & D). split; [done |]. split; [| done].
    intros q Hq. apply L; [| by apply Hp]. intros ->. destruct D as [[_ ?] | (_ & Hr & Hs & _)]; [done |].
    specialize (Hu t Hr). unfold may_use in Hu. by rewrite Hs, Hq, orb_true_r in Hu.
Qed.

(** A thread changes its phase in main's view: it was not running before or it is
    not running after. *)
Lemma main_phase t ph :
  t <> TMain -> ph <> Running -> phases s t <> Running -> (sphases a t = Running -> t <> TTimer) ->
  inv sig (Static (slives a) (<[t := ph]> (sphases a)) (sera a) (slog a)) (set_phases s (<[t := ph]> (phases s))).
Proof.
  intros Ht Hph Hnr HT. destruct I.
  split; cbn [slives sphases sera slog set_phases lives phases code handlers installed posted]; try done.
  - apply phase_insert; [done |]. by destruct ph.
  - intros t' p. rewrite insert_cases. case_decide; [done | apply i_use0].
  - intros He. destruct (i_era0 He) as [Hr Hp]. split; [| done]. rewrite insert_cases.
    destruct (decide (t = TTimer)) as [-> |]; [by destruct HT | done].
  - intros t' Ht'. destruct (i_hand0 t' Ht') as (? & Hp & D). split; [done |]. split; [done |].
    destruct D as [| (? & ? & ? & ?)]; [by left | right]. rewrite !insert_cases.
    by destruct (decide (t = t')) as [<- |].
  - rewrite !insert_cases. case_decide as E; [done | apply i_ended0].
Qed.

Lemma main_create t : pre sig (ThreadCreate t) a -> main_ok (ThreadCreate t).
Proof.
  intros [Ht Ha]. eexists. split; [reflexivity |]. split; [| done]. apply main_phase; [done | done | |].
  - pose proof (i_phase _ _ _ I t Ht) as P. rewrite Ha in P. congruence.
  - congruence.
Qed.

Lemma main_release t : pre sig (ThreadRelease t) a -> main_ok (ThreadRelease t).
Proof.
  intros [Ht Ha]. pose proof (i_phase _ _ _ I t Ht) as P. unfold main_ok. cbn [exec].
  assert (Hs : phases s t = Created \/ phases s t = Ended) by (destruct Ha as [E | E]; rewrite E in P; auto).
  assert (Hi : inv sig (sexec (ThreadRelease t) a) (set_phases s (<[t := Released]> (phases s)))).
  { apply main_phase; [done | done | destruct Hs; congruence | destruct Ha; congruence]. }
  destruct Hs as [-> | ->]; by eexists.
Qed.

Lemma main_start t : pre sig (ThreadStart t) a -> main_ok (ThreadStart t).
Proof.
  intros (Hc & Ht & Hu). pose proof (i_phase _ _ _ I t Ht) as P. rewrite Hc in P. unfold main_ok. cbn [exec]. rewrite P.
  eexists. split; [reflexivity |]. split; [| done]. destruct I.
  split; cbn [sexec slives sphases sera slog set_phases lives phases code handlers installed posted]; try done.
  - apply phase_insert; [done | by left].
  - intros t' p. rewrite insert_cases. destruct (decide (t = t')) as [<- |]; [intros _; apply Hu | apply i_use0].
  - intros He. destruct (i_era0 He) as [Hr Hp]. split; [| done]. rewrite insert_cases. by case_decide.
  - intros t' Ht'. destruct (i_hand0 t' Ht') as (? & Hp & D). split; [done |]. split; [done |].
    destruct D as [| (? & ? & ? & ?)]; [by left | right]. rewrite !insert_cases. by case_decide.
  - rewrite !insert_cases. case_decide as E; [done | apply i_ended0].
Qed.

Lemma main_join t : phases s t <> Running -> pre sig (ThreadJoin t) a -> main_ok (ThreadJoin t).
Proof.
  intros Hnr (Ht & Hr & HT & Hlog & _). pose proof (i_phase _ _ _ I t Ht) as P. rewrite Hr in P.
  destruct P as [P | P]; [done |]. unfold main_ok. cbn [exec]. rewrite P. eexists. split; [reflexivity |]. split; [| done].
  destruct I. split; cbn [sexec slives sphases sera slog lives phases code handlers installed posted]; try done.
  - intros t' Ht'. rewrite insert_cases. destruct (decide (t = t')) as [<- |]; [done | by apply i_phase0].
  - intros t' p. rewrite insert_cases. case_decide; [done | apply i_use0].
  - case_bool_decide as E; [done |]. intros He. destruct (i_era0 He) as [? Hp]. split; [| done].
    by rewrite insert_cases, decide_False.
  - case_bool_decide as E; [| done]. subst t. intros Hin. by destruct (i_posted0 (i_ended0 Hr P)) as [? _]; congruence.
  - intros t' Ht'. destruct (i_hand0 t' Ht') as (? & Hp & D). split; [by case_bool_decide |]. split; [done |].
    destruct D as [[-> _] | (? & ? & ? & ?)]; [done | right]. rewrite insert_cases.
    by destruct (decide (t = t')) as [<- |]; [congruence |].
  - intros Hp. destruct (i_posted0 Hp). split; [done |]. by case_bool_decide.
  - rewrite insert_cases. case_decide; [done | apply i_ended0].
  - case_bool_decide as E; [| done]. subst t. intros _. by apply i_ended0.
  - case_bool_decide as E; [done |]. done.
Qed.

Lemma main_install : pre sig Install a -> main_ok Install.
Proof.
  intros (He & HT & Hp). eexists. split; [reflexivity |]. split; [| done].
  assert (Hh : forall t, handlers s t = []).
  { intros t. destruct (handlers s t) as [| j r] eqn:E; [done |].
    destruct (i_hand _ _ _ I t ltac:(by rewrite E)) as [? _]. congruence. }
  destruct I. split; cbn [sexec slives sphases sera slog set_installed lives phases code handlers installed posted]; try done.
  - intros t Ht. by rewrite Hh in Ht.
  - intros t. by rewrite Hh.
  - intros Hpo. destruct (i_posted0 Hpo). congruence.
Qed.

Lemma main_post t : pre sig (Post t) a -> main_ok (Post t).
Proof.
  cbn [pre]. intros ->. eexists. split; [reflexivity |]. split; [| done].
  destruct I. split; cbn [sexec slives sphases sera slog set_posted lives phases code handlers installed posted]; try done.
Qed.

Lemma main_exec i : (forall t, i = ThreadJoin t -> phases s t <> Running) -> pre sig i a -> main_ok i.
Proof.
  intros Hj Hp. destruct i as [p | p | p | p | p | t | t | t | t | | | t].
  - unfold main_ok. cbn [exec pre] in *. rewrite (i_lives _ _ _ I), Hp. by exists s.
  - unfold main_ok. cbn [exec pre] in *. rewrite (i_lives _ _ _ I), bool_decide_eq_false_2 by done. by exists s.
  - apply main_alloc.
  - unfold main_ok. cbn [exec pre] in *. rewrite (i_lives _ _ _ I), Hp. by exists s.
  - by apply main_free.
  - by apply main_create.
  - by apply main_start.
  - apply main_join; [by apply Hj | done].
  - by apply main_release.
  - by apply main_install.
  - done.
  - by apply main_post.
Qed.
End main_step.

(** ** main passes the check *)

Definition among (k n : nat) (t : tid) : bool :=
  match t with TWorker i => bool_decide (k <= i < k + n)%nat | _ => false end.

Lemma check_workers sig (f : tid -> instr) ph n k a rest :
  (forall i a, sexec (f (TWorker i)) a = Static (slives a) (<[TWorker i := ph]> (sphases a)) (sera a) (slog a)) ->
  (forall i a', (k <= i < k + n)%nat -> slives a' = slives a -> sphases a' (TWorker i) = sphases a (TWorker i) ->
    pre sig (f (TWorker i)) a') ->
  (forall ph', (forall t, ph' t = if among k n t then ph else sphases a t) ->
    check sig (Static (slives a) ph' (sera a) (slog a)) rest) ->
  check sig a (((fun i => f (TWorker i)) <$> seq k n) ++ rest).
Proof.
  intros Hf. revert k a. induction n as [| n IH]; intros k a Hp Hr; simpl.
  - destruct a as [l p e g]. apply Hr. intros t. destruct t; try done. cbn [among]. by rewrite bool_decide_eq_false_2 by lia.
  - split; [apply Hp; [lia | done | done] |]. rewrite Hf. apply IH; cbn [slives sphases sera slog].
    + intros i a' Hi Hl Hph. apply Hp; [lia | done |]. rewrite Hph, insert_cases, decide_False; [done | intros [= ->]; lia].
    + intros ph' Hph. apply Hr. intros t. rewrite Hph, insert_cases. destruct t as [| | i | |]; try done. cbn [among].
      destruct (decide (TWorker k = TWorker i)) as [[= ->] | Hne].
      * rewrite bool_decide_eq_false_2 by lia. by rewrite bool_decide_eq_true_2 by lia.
      * destruct (Nat.eq_dec k i) as [-> |]; [done |].
        by rewrite (bool_decide_ext (S k <= i < S k + n)%nat (k <= i < k + S n)%nat) by lia.
Qed.

Lemma not_among k n t : (forall i, t <> TWorker i) -> among k n t = false.
Proof. destruct t; try done. intros Hi. by destruct (Hi i). Qed.

Create HintDb lifecycle.
#[local] Hint Unfold main envInit envGet envUninit logInit logExit logUninit globalqueueInit globalqueueUninit ctxMgrInit
  ctxMgrUninit eventloopInit eventloopUninit eventloopStart eventloopJoin eventloopBase tcpInit tcpUninit timerInit
  timerUninit timerStart timerJoin moduleInit moduleUninit workerPoolInit workerPoolUninit workerPoolStart workerPoolJoin
  nameMgrInit nameMgrUninit setupSignalHandlers init bootstrap start uninit workers : lifecycle.

(** The phases that matter: of the three other threads and of the workers. *)
Record phases_are (n : nat) (p : tid -> phase) (timer loop log wk : phase) : Prop := {
  pa_main : p TMain = Absent;
  pa_timer : p TTimer = timer;
  pa_loop : p TLoop = loop;
  pa_log : p TLog = log;
  pa_worker i : (i < n)%nat -> p (TWorker i) = wk;
  pa_other i : ~ (i < n)%nat -> p (TWorker i) = Absent;
}.

Definition log_phase (logging : bool) : phase := if logging then Running else Absent.

(** A tactic for one instruction whose precondition is evident from the context. *)
Ltac evident :=
  cbn [pre slives sphases sera slog];
  first
    [ done
    | match goal with L : forall p, _ = Live |- _ => exact (L _) end
    | match goal with L : forall p, _ = Live |- _ <> Null =>
        let Hn := fresh in intros Hn; unfold insert, fn_insert in Hn; simpl in Hn; by rewrite L in Hn end
    | split; [done | by right]
    | repeat split; try done; by intros [] ? ].

Ltac chk := match goal with |- check _ _ (_ :: _) => split; [evident | cbn [sexec slives sphases sera slog]] end.

Lemma no_worker n p ti lo lg wk i : phases_are n p ti lo lg wk -> wk <> Running -> p (TWorker i) <> Running.
Proof.
  intros F Hw. destruct (decide (i < n)%nat) as [Hi | Hi];
    [by rewrite (pa_worker _ _ _ _ _ _ F i Hi) | by rewrite (pa_other _ _ _ _ _ _ F i Hi)].
Qed.

(** A part can be freed when no thread runs, or only the log thread, which uses the log
    alone and is not given signals. *)
Ltac free_now Hsig :=
  match goal with
  | W : forall i, _ (TWorker i) <> Running |- check _ _ (Free _ :: _) =>
    split; [| cbn [sexec slives sphases sera slog]];
    [cbn [pre slives sphases sera slog]; split; [evident | split; [done |]];
     let Hr := fresh "Hr" in let i := fresh "i" in
     intros [| | i | |] Hr; unfold insert, fn_insert in Hr; simpl in Hr;
     [congruence | congruence | by destruct (W i) | congruence | unfold may_use; rewrite Hsig; first [done | congruence]] |]
  end.

Lemma check_uninit sig n logging l p :
  sig TLog = false -> (forall p, l p = Live) -> phases_are n p Ended Ended (log_phase logging) Ended ->
  check sig (Static l p Off true) (uninit n logging ++ envUninit).
Proof.
  intros Hsig L F. autounfold with lifecycle. rewrite <- ?app_assoc. cbn [app].
  assert (W : forall i, p (TWorker i) <> Running) by (intros i; by apply (no_worker _ _ _ _ _ _ _ F)).
  pose proof F as [Fm Ft Fl Fg Fw Fo]. repeat (chk || free_now Hsig).
  apply (check_workers sig ThreadRelease Released); [done | |].
  { intros i a' Hi _ Hp. cbn [slives sphases sera slog pre] in *. rewrite Hp. split; [done |]. right. apply Fw. lia. }
  cbn [slives sphases sera slog]. intros p' H'.
  assert (W' : forall i, p' (TWorker i) <> Running).
  { intros i. rewrite H'. cbn [among]. case_bool_decide; [done | apply W]. }
  assert (Fm' : p' TMain = Absent) by (by rewrite H'). assert (Ft' : p' TTimer = Released) by (by rewrite H').
  assert (Fl' : p' TLoop = Released) by (by rewrite H'). assert (Fg' : p' TLog = log_phase logging) by (rewrite H'; exact Fg).
  assert (R' : forall i, p' (TWorker i) = Absent \/ p' (TWorker i) = Released).
  { intros i. rewrite H'. cbn [among]. case_bool_decide; [by right | left]. apply Fo. lia. }
  clear W F Fm Ft Fl Fg Fw Fo H'. destruct logging; cbn [app log_phase] in *; repeat (chk || free_now Hsig);
    (split; [by intros [] | intros [| | i | |] ?; cbn [sphases]; try (by left); try (by right); try done; apply R']).
Qed.

(** An operation on all workers changes their phase and nothing else. *)
Lemma phases_workers n p p' ti lo lg wk wk' :
  phases_are n p ti lo lg wk -> (forall t, p' t = if among 0 n t then wk' else p t) -> phases_are n p' ti lo lg wk'.
Proof.
  intros [Fm Ft Fl Fg Fw Fo] H. split; rewrite ?H; try done; intros i Hi; rewrite H; cbn [among].
  - by rewrite bool_decide_eq_true_2 by lia.
  - rewrite bool_decide_eq_false_2 by lia. by apply Fo.
Qed.

Lemma phases_set n p ti lo lg wk :
  phases_are n p ti lo lg wk ->
  (forall ph, phases_are n (<[TTimer := ph]> p) ph lo lg wk) /\ (forall ph, phases_are n (<[TLoop := ph]> p) ti ph lg wk) /\
  (forall ph, phases_are n (<[TLog := ph]> p) ti lo ph wk).
Proof. intros [Fm Ft Fl Fg Fw Fo]. split; [| split]; intros ph; split; try done. Qed.

Lemma check_start sig n logging l p :
  sig TLog = false -> (forall p, l p = Live) -> phases_are n p Created Created (log_phase logging) Created ->
  check sig (Static l p Before false) (start n ++ uninit n logging ++ envUninit).
Proof.
  intros Hsig L F.
  assert (Hu : forall p, phases_are n p Ended Ended (log_phase logging) Ended ->
    check sig (Static l p Off true) (uninit n logging ++ envUninit)) by (intros; by apply check_uninit).
  revert Hu. generalize (uninit n logging ++ envUninit). intros tail Hu.
  unfold start, timerStart, workerPoolStart, eventloopStart, setupSignalHandlers, timerJoin, workerPoolJoin, eventloopJoin, logExit, workers.
  rewrite <- ?app_assoc. cbn [app]. pose proof F as [Fm Ft Fl Fg Fw Fo]. repeat chk.
  apply (check_workers sig ThreadStart Running); [done | |]; cbn [slives sphases sera slog].
  { intros i a' Hi Hl Hp. cbn [pre]. rewrite Hp, Hl. split; [apply Fw; lia | done]. }
  apply (phases_set n p) in F as [F _]. intros p2 H2. apply (phases_workers _ _ _ _ _ _ _ Running (F Running)) in H2.
  clear Fm Ft Fl Fg Fw Fo F. pose proof H2 as [Fm Ft Fl Fg Fw Fo]. repeat chk.
  apply (check_workers sig ThreadJoin Ended); [done | |]; cbn [slives sphases sera slog].
  { intros i a' Hi Hl Hp. cbn [pre]. rewrite Hp. split; [done |]. split; [apply Fw; lia | done]. }
  apply phases_set in H2 as (_ & H2 & _). specialize (H2 Running). apply phases_set in H2 as (H2 & _). specialize (H2 Ended).
  intros p3 H3. apply (phases_workers _ _ _ _ _ _ _ Ended H2) in H3.
  clear Fm Ft Fl Fg Fw Fo H2. pose proof H3 as [Fm Ft Fl Fg Fw Fo]. repeat chk.
  apply Hu. by apply phases_set in H3 as (_ & H3 & _).
Qed.

Lemma check_main sig n logging : sig TLog = false -> check sig static0 (main n logging).
Proof.
  intros Hsig. unfold main. generalize (check_start sig n logging). intros Hs.
  unfold static0, init, bootstrap, workerPoolInit, logInit, envInit, envGet, globalqueueInit, ctxMgrInit, eventloopInit, tcpInit,
    eventloopBase, timerInit, moduleInit, nameMgrInit, workers.
  destruct logging; rewrite <- ?app_assoc; cbn [app]; repeat chk;
    (apply (check_workers sig ThreadCreate Created); [done | done |]; cbn [slives sphases sera slog]; intros p1 H1;
     repeat chk; apply Hs; [done | by intros [] |]).
  - apply (phases_workers n (<[TTimer := Created]> (<[TLoop := Created]> (<[TLog := Running]> (<[TLog := Created]> (fun _ => Absent)))))
      _ _ _ _ Absent); [by split | done].
  - apply (phases_workers n (<[TTimer := Created]> (<[TLoop := Created]> (fun _ => Absent))) _ _ _ _ Absent); [by split | done].
Qed.

(** ** Properties *)

Lemma inv_started sig n logging : inv sig static0 (started n logging).
Proof. by split. Qed.

Definition ok (sig : tid -> bool) (s : sys) : Prop := exists a, inv sig a s /\ check sig a (code s).

Lemma step_ok sig s o : ok sig s -> step sig s o -> exists s', o = Ok s' /\ ok sig s'.
Proof.
  intros (a & I & C) Hs. destruct Hs as [s i rest Ec Hi Hj | s t p Ht Hr Hi Hu | s t Ht Hr Hi Hm | s t Hin Hsig Hr | s t i rest Hr Eh].
  - rewrite Ec in C. destruct C as [P C]. apply bool_decide_eq_true in Hi.
    destruct (main_exec sig a (set_code s rest) (inv_code _ _ _ I rest) Hi i Hj P) as (s' & E & I' & Ec').
    exists s'. split; [done |]. exists (sexec i a). split; [done |]. by rewrite Ec'.
  - assert (Hl : lives s p = Live).
    { rewrite (i_lives _ _ _ I). apply (i_use _ _ _ I t); [| done].
      assert (Hp : phases s t = Running) by (destruct t; [done | by apply bool_decide_eq_true in Hr ..]).
      pose proof (i_phase _ _ _ I t Ht) as P. destruct (sphases a t); congruence. }
    cbn [exec]. rewrite Hl. exists s. split; [done |]. by exists a.
  - eexists. split; [reflexivity |]. exists a. split; [by apply inv_return | done].
  - eexists. split; [reflexivity |]. exists a. split; [by apply inv_signal | done].
  - destruct (inv_handler _ _ _ I t i rest Hr Eh) as (s' & E & I' & Ec). exists s'. split; [done |]. exists a.
    split; [done |]. by rewrite Ec.
Qed.

Lemma steps_ok sig s s' : ok sig s -> steps sig s s' -> ok sig s'.
Proof.
  intros H. induction 1 as [| x y z Hxy _ IH]; [done |]. apply IH.
  destruct (step_ok _ _ _ H Hxy) as (? & [= <-] & ?). done.
Qed.

(** A handler that has not returned can go on. *)
Lemma handler_steps sig a s t : inv sig a s -> code s <> [] -> handlers s t <> [] -> exists s', step sig s (Ok s').
Proof.
  intros I Hc Hh. destruct (i_hand _ _ _ I t Hh) as (_ & _ & D). destruct (handlers s t) as [| i rest] eqn:E; [done |].
  assert (Hr : runs s t = true).
  { destruct D as [[-> _] | (? & _ & _ & Hp)]; [by apply negb_true_iff, bool_decide_eq_false |].
    destruct t; [done | by apply bool_decide_eq_true ..]. }
  destruct (inv_handler _ _ _ I t i rest Hr E) as (s' & Es & _). exists s'. rewrite <- Es. by apply step_handler.
Qed.

(** A thread that main waits for can end, or something else can happen before. *)
Lemma waits sig a s t :
  inv sig a s -> code s <> [] -> sig TMain = true -> pre sig (ThreadJoin t) a -> phases s t = Running ->
  exists s', step sig s (Ok s').
Proof.
  intros I Hc Hsig (Ht & Hst & HT & HLog & HLoop) Hp.
  destruct (decide (handlers s t = [])) as [Hh | Hh]; [| by eapply handler_steps].
  assert (Hend : may_end s t = true -> exists s', step sig s (Ok s')).
  { intros Hm. eexists. apply (step_return sig s t); [done | | by apply bool_decide_eq_true | done].
    destruct t; [done | by apply bool_decide_eq_true ..]. }
  assert (Hpost : forall t' u, Post u ∈ handlers s t' -> exists s', step sig s (Ok s')).
  { intros t' u Hin. eapply handler_steps; [done | done |]. intros E. rewrite E in Hin. by apply elem_of_nil in Hin. }
  destruct t as [| | i | |]; [done | | by apply Hend | |].
  - destruct (posted s TTimer) eqn:Epo; [by apply Hend |]. destruct (installed s) eqn:Ein.
    + eexists. apply (step_signal sig s TMain); [done | done |]. by apply negb_true_iff, bool_decide_eq_false.
    + destruct (i_stopping _ _ _ I (HT eq_refl) Ein Epo) as (t' & Hin). by eapply Hpost.
  - destruct (i_loop _ _ _ I (i_off _ _ _ I (HLoop eq_refl))) as [Hl | (t' & Hin)]; [by apply Hend | by eapply Hpost].
  - apply Hend, (i_log _ _ _ I), HLog. done.
Qed.

Lemma progress sig s : ok sig s -> sig TMain = true -> code s <> [] -> exists s', step sig s (Ok s').
Proof.
  intros (a & I & C) Hsig Hc. destruct (decide (handlers s TMain = [])) as [Hh | Hh]; [| by eapply handler_steps].
  destruct (code s) as [| i rest] eqn:Ec; [done |]. destruct C as [P _].
  assert (Hd : (exists t, i = ThreadJoin t /\ phases s t = Running) \/ ~ exists t, i = ThreadJoin t /\ phases s t = Running).
  { destruct i as [| | | | | | | t | | | |]; try (right; by intros (? & ? & _)).
    destruct (decide (phases s t = Running)); [left; by exists t | right; by intros (? & [= <-] & ?)]. }
  destruct Hd as [(t & -> & Hp) | Hn].
  - eapply waits; [done | by rewrite Ec | done | done | done].
  - assert (Hj : forall t, i = ThreadJoin t -> phases s t <> Running) by (intros t -> Hp; apply Hn; by exists t).
    destruct (main_exec sig a (set_code s rest) (inv_code _ _ _ I rest) Hh i Hj P) as (s' & E & _).
    exists s'. rewrite <- E. apply step_main; [done | by apply bool_decide_eq_true | done].
Qed.

(** C17: nobody uses a part outside of its life.  With any number of workers, with and
    without a log file, and whatever thread but the log thread the system picks
    for the handler of each signal: no reachable step dereferences a pointer
    that is NULL or freed, fails an assertion, or releases a thread that runs;
    as long as main has not returned something can happen, so it does not wait for
    a thread that cannot end; and when it has returned every part has been freed
    and every thread joined and released. *)
Theorem main_lifetimes sig n logging s :
  sig TLog = false -> sig TMain = true -> steps sig (started n logging) s ->
  (forall o, step sig s o -> exists s', o = Ok s') /\
  (code s <> [] -> exists s', step sig s (Ok s')) /\
  (code s = [] -> (forall p, lives s p = Dangling) /\
    forall t, t <> TMain -> phases s t = Absent \/ phases s t = Released).
Proof.
  intros Hlog Hmain R.
  assert (K : ok sig s).
  { eapply steps_ok; [| exact R]. exists static0. split; [apply inv_started | by apply check_main]. }
  split; [| split].
  - intros o Hs. destruct (step_ok sig s o K Hs) as (s' & -> & _). by exists s'.
  - by apply progress.
  - intros Ec. destruct K as (a & I & C). rewrite Ec in C. destruct C as [Hl Hp]. split.
    + intros p. by rewrite (i_lives _ _ _ I).
    + intros t Ht. pose proof (i_phase _ _ _ I t Ht) as P. destruct (Hp t Ht) as [E | E]; rewrite E in P; auto.
Qed.

(** A run with two workers and a log file: main starts everything and waits, SIGTERM
    reaches it there, the handler runs, the threads end and main cleans up. *)
Definition whole_run : list choice :=
  replicate 48 CMain ++ [CThread (TWorker 0) PTcp; CSignal TMain] ++ replicate 12 (CHandler TMain) ++
  [CThread TTimer PTimer; CReturn TTimer; CReturn (TWorker 1); CReturn (TWorker 0); CReturn TLoop] ++
  replicate 38 CMain ++ [CThread TLog PLog; CReturn TLog] ++ replicate 6 CMain.

Definition not_log (t : tid) : bool := negb (bool_decide (t = TLog)).

Lemma main_lifetimes_witness :
  exists s, follow not_log whole_run (started 2 true) = Some (Ok s) /\ code s = [] /\
    (forall p, lives s p = Dangling) /\ phases s (TWorker 1) = Released.
Proof.
  destruct (follow not_log whole_run (started 2 true)) as [[s | f] |] eqn:E; [| vm_compute in E; discriminate ..].
  exists s. split; [reflexivity |].
  assert (Ec : code s = [] /\ phases s (TWorker 1) = Released).
  { vm_compute in E. injection E as <-. split; vm_compute; reflexivity. }
  destruct Ec as [Ec Ew]. split; [exact Ec |].
  destruct (main_lifetimes not_log 2 true s eq_refl eq_refl (follow_steps _ _ _ _ E)) as (_ & _ & F).
  split; [apply (F Ec) | exact Ew].
Defined.

(** The log thread is only joined at the very end.  If the system gives it the
    signal, everything its handler stops may have been freed by the time the
    handler, which has told all others to end, looks at the request queue again. *)
Lemma signal_on_log_thread :
  exists s, steps (fun _ => true) (started 2 true) s /\ step (fun _ => true) s (Fault UseAfterFree).
Proof.
  apply (follow_fault _ (replicate 48 CMain ++ [CSignal TLog] ++ replicate 11 (CHandler TLog) ++
    [CReturn TTimer; CReturn (TWorker 0); CReturn (TWorker 1); CReturn TLoop] ++ replicate 14 CMain ++ [CHandler TLog])).
  vm_compute. reflexivity.
Qed.
