(* ===== verification/Main.v ===== *)
(** * main.c, daemon.c: the command line, the pid file, becoming a daemon

    What happens before the parts of the server are started ([Lifecycle]): the
    options, the text the first context is launched with, the directory and the
    pid file.  getopt is the C library's: its results are an argument. *)
From S2P Require Import Prelude Bits CString.

(** ** [strncat] *)

(** The at most [n] bytes of the string at [src]. *)
Fixpoint string_upto (n : nat) (src : list Z) : outcome (list Z) :=
  match n with
  | O => mret []
  | S n =>
    match src with
    | [] => Fault OutOfBounds
    | c :: src => if c =? 0 then mret [] else s ← string_upto n src; mret (c :: s)
    end
  end.

Definition strncat (dest src : list Z) (n : Z) : outcome (list Z) :=
  s ← c_str dest;
  t ← string_upto (Z.to_nat n) src;
  acopy_in dest (zlen s) (t ++ [0]).

(** A C string in memory. *)
Definition cstring (s : list Z) : list Z := s ++ [0].
Definition lit (s : string) : list Z := cstring (str s).

(** ** daemon.c *)

(** The descriptors of the process with the files they refer to. *)
Record process := Process {
  files : gmap Z Z;
  root_dir : bool;       (* the working directory is the root *)
  leader : bool;         (* it leads a session of its own *)
}.

Definition dev_null : Z := 0.

(** What the system calls answer; [open_fd] is -1 or the descriptor. *)
Record answers := Answers {
  fork_ : Z;
  setsid_ : bool;
  chdir_ : bool;
  open_fd : Z;
  dup_ : Z -> bool;
  close_ : bool;
}.

(** The parent leaves; in the child, or when there is none, the result. *)
Inductive dresult := Parent | Returns (rc : Z) (p : process).

Definition dup2_all (a : answers) (fd : Z) (p : process) : bool * process :=
  foldl (fun (r : bool * process) n =>
    if r.1 then if dup_ a n then (true, Process (<[n := dev_null]> (files r.2)) (root_dir r.2) (leader r.2)) else (false, r.2)
    else r) (true, p) [0; 1; 2].

Definition daemonize (nochdir noclose : Z) (a : answers) (p : process) : dresult :=
  if fork_ a =? -1 then Returns (-1) p
  else if negb (fork_ a =? 0) then Parent
  else if negb (setsid_ a) then Returns (-1) p
  else
    let p := Process (files p) (root_dir p) true in
    if (nochdir =? 0) && negb (chdir_ a) then Returns (-1) p
    else
      let p := Process (files p) (root_dir p || (nochdir =? 0)) (leader p) in
      if (noclose =? 0) && negb (open_fd a =? -1) then
        let fd := open_fd a in
        let p := Process (<[fd := dev_null]> (files p)) (root_dir p) (leader p) in
        let r := dup2_all a fd p in
        if negb r.1 then Returns (-1) r.2
        else if fd >? 2 then
          if negb (close_ a) then Returns (-1) r.2
          else Returns 0 (Process (delete fd (files r.2)) (root_dir r.2) (leader r.2))
        else Returns 0 r.2
      else Returns 0 p.

(** ** main *)

Definition Z_PROGNAME : list Z := str "z".
Definition Z_PID_PATH : list Z := str "proc/".
Definition FILENAME_MAX : Z := 4096.

(** What the options set, or the exit status of the one that ends the process;
    [os] are the characters getopt returns, with [optarg]. *)
Record settings := Settings {
  do_daemonize : bool;
  programName : option (list Z);
  envFileName : option (list Z);
}.

Fixpoint options (os : list (Z * list Z)) (s : settings) : Z + settings :=
  match os with
  | [] => inr s
  | (o, optarg) :: os =>
    if o =? 118 (* v *) then inl 1
    else if o =? 104 (* h *) then inl 1
    else if o =? 100 (* d *) then options os (Settings true (programName s) (envFileName s))
    else if o =? 80 (* P *) then options os (Settings (do_daemonize s) (Some optarg) (envFileName s))
    else if o =? 101 (* e *) then options os (Settings (do_daemonize s) (programName s) (Some optarg))
    else inl 1
  end.

(** The loop over the rest of [argv]. *)
Fixpoint add_args (args : list (list Z)) (buf : list Z) (size : Z) : outcome (list Z * Z) :=
  match args with
  | [] => mret (buf, size)
  | arg :: args =>
    argvLen ← i32 <$> strlen (cstring arg);
    buf ← strncat buf (cstring arg) (u64 argvLen);
    buf ← strncat buf (lit " ") 1;
    add_args args buf (size + argvLen + 1)
  end.

(** [bootstrapName]: the arguments, each followed by a space, or "help ". *)
Definition bootstrapName (args : list (list Z)) : outcome (list Z) :=
  let buf := replicate 1024 0 in
  '(buf, size) ← ((if bool_decide (args = []) then
      buf ← strncat buf (lit "help") 4;
      buf ← strncat buf (lit " ") 1;
      mret (buf, 4 + 1)
    else add_args args buf 0) : outcome (list Z * Z));
  buf ← aset buf size 0;
  _ ← c_assert (size + 1 <? 1024);
  mret buf.

(** The name of the pid file, put together in the array as the stack left it. *)
Definition pidFile (junk program : list Z) : outcome (list Z) :=
  f ← strncat junk (cstring Z_PID_PATH) (zlen Z_PID_PATH);
  f ← strncat f (cstring program) (zlen program);
  f ← strncat f (lit ".pid") 4;
  c_str f.

(** The file that is written, if it can be opened, and whether the process goes on. *)
Definition savePid (junk : list Z) (program : option (list Z)) (fopen : list Z -> bool) : outcome (option (list Z) * bool) :=
  match program with
  | None => mret (None, true)
  | Some program =>
    f ← pidFile junk program;
    mret ((if fopen f then (Some f, true) else (None, false)) : option (list Z) * bool)
  end.

(** The file that is removed, if there is one of that name. *)
Definition removePidfile (junk : list Z) (program : option (list Z)) (unlink : list Z -> bool) : outcome (option (list Z)) :=
  match program with
  | None => mret None
  | Some program =>
    f ← pidFile junk program;
    mret ((if unlink f then Some f else None) : option (list Z))
  end.

(** [init]'s size of the event loop and of the table of sockets, from the [int]
    the configuration gives. *)
Definition fdSetSize (fd_size : Z) : Z := i32 (nextpow2 (u32 fd_size)).

(** [main] up to step 4: an exit status, or what the parts are started with. *)
Inductive setup :=
  | Exits (status : Z)
  | Starts (program boot : list Z) (env : option (list Z)) (pid : option (list Z)) (p : process).

(** [a] is what the system answers to [daemonize], [getcwd] whether there is a
    working directory. *)
Definition main_setup (os : list (Z * list Z)) (args : list (list Z)) (getcwd : bool) (a : answers) (junk : list Z)
    (fopen : list Z -> bool) (p : process) : outcome setup :=
  match options os (Settings false None None) with
  | inl status => mret (Exits status)
  | inr s =>
    boot ← bootstrapName args;
    if negb getcwd then mret (Exits (-1))
    else
      let program := default Z_PROGNAME (programName s) in
      if do_daemonize s then
        match daemonize 1 0 a p with
        | Parent => mret (Exits 0)
        | Returns rc p =>
          if rc =? -1 then mret (Exits (-1))
          else
            r ← savePid junk (Some program) fopen;
            mret (if r.2 : bool then Starts program boot (envFileName s) r.1 p else Exits 0)
        end
      else mret (Starts program boot (envFileName s) None p)
  end.

(** ** Theorems *)

Lemma nul_free_app s t : nul_free s -> nul_free t -> nul_free (s ++ t).
Proof. intros. by apply Forall_app. Qed.

Lemma string_upto_app t m n : nul_free t -> (length t <= n)%nat -> string_upto n (t ++ 0 :: m) = Ok t.
Proof.
  revert n. induction t as [| c t IH]; intros n Ht Hn; [by destruct n |].
  apply Forall_cons in Ht as [Hc Ht]. destruct n as [| n]; [cbn in Hn; lia |]. cbn.
  destruct (Z.eqb_spec c 0); [lia |]. by rewrite IH by (done || cbn in Hn; lia).
Qed.

(** [strncat] with a bound that does not cut: it needs room for the terminator. *)
Lemma strncat_spec s m t n : nul_free s -> nul_free t -> zlen t <= n ->
  strncat (s ++ 0 :: m) (cstring t) n =
    if zlen t <=? zlen m then Ok (s ++ t ++ 0 :: drop (length t) m) else Fault OutOfBounds.
Proof.
  intros Hs Ht Hn. unfold strncat, cstring.
  rewrite c_str_app, bind_Ok, string_upto_app, bind_Ok by (done || unfold zlen in Hn; lia).
  pose proof (zlen_nonneg s). destruct (Z.leb_spec (zlen t) (zlen m)) as [Hm | Hm].
  - replace (s ++ 0 :: m) with (s ++ (0 :: take (length t) m) ++ drop (length t) m)
      by (cbn; by rewrite take_drop).
    rewrite acopy_in_app, <- app_assoc; [done |].
    unfold zlen in *. rewrite length_app. cbn [length]. rewrite length_take. lia.
  - apply acopy_in_fault. rewrite !zlen_app, !zlen_cons. change (zlen (@nil Z)) with 0. lia.
Qed.

Lemma strlen_cstring s : nul_free s -> strlen (cstring s) = Ok (zlen s).
Proof. intros Hs. unfold strlen, cstring. by rewrite c_str_app. Qed.

(** An array that holds a text and then only zeros. *)
Definition padded (text : list Z) (k : nat) : list Z := text ++ replicate k 0.

Lemma strncat_padded s t k n : nul_free s -> nul_free t -> zlen t <= n -> (0 < k)%nat ->
  strncat (padded s k) (cstring t) n =
    if (length t <? k)%nat then Ok (padded (s ++ t) (k - length t)) else Fault OutOfBounds.
Proof.
  intros Hs Ht Hn Hk. unfold padded. destruct k as [| k]; [lia |]. cbn [replicate].
  rewrite strncat_spec by done. unfold zlen. rewrite length_replicate.
  destruct (Z.leb_spec (Z.of_nat (length t)) (Z.of_nat k)), (Nat.ltb_spec (length t) (S k)); try lia; [| done].
  rewrite drop_replicate, Nat.sub_succ_l by lia. by rewrite <- app_assoc.
Qed.

(** The text the arguments make. *)
Definition join (args : list (list Z)) : list Z := concat ((fun arg => arg ++ [32]) <$> args).

Definition plain (arg : list Z) : Prop := nul_free arg /\ zlen arg < 2147483648.

Lemma join_nul_free args : Forall plain args -> nul_free (join args).
Proof.
  induction 1 as [| arg args [Ha _] _ IH]; [constructor |]. cbn.
  apply nul_free_app; [apply nul_free_app; [done |] | exact IH]. by repeat constructor.
Qed.

Lemma add_args_spec args : Forall plain args -> forall text k, nul_free text -> (0 < k)%nat ->
  add_args args (padded text k) (zlen text) =
    if (length (join args) <? k)%nat
    then Ok (padded (text ++ join args) (k - length (join args)), zlen (text ++ join args))
    else Fault OutOfBounds.
Proof.
  induction 1 as [| arg args [Ha Hl] _ IH]; intros text k Ht Hk.
  { cbn. rewrite app_nil_r, Nat.sub_0_r. by destruct k; [lia |]. }
  change (join (arg :: args)) with ((arg ++ [32]) ++ join args).
  cbn [add_args]. pose proof (zlen_nonneg arg). rewrite strlen_cstring by done.
  cbn [fmap outcome_fmap mret outcome_ret]. rewrite bind_Ok, i32_small, u64_small by lia.
  rewrite !length_app. cbn [length].
  rewrite strncat_padded by (done || lia). destruct (Nat.ltb_spec (length arg) k) as [Hk1 | Hk1].
  2: { by destruct (Nat.ltb_spec (length arg + 1 + length (join args)) k); [lia |]. }
  assert (Hs : nul_free [32]) by by repeat constructor.
  rewrite bind_Ok. change (lit " ") with (cstring [32]).
  rewrite strncat_padded by (auto using nul_free_app || lia || done). cbn [length].
  destruct (Nat.ltb_spec 1 (k - length arg)) as [Hk2 | Hk2].
  2: { by destruct (Nat.ltb_spec (length arg + 1 + length (join args)) k); [lia |]. }
  rewrite bind_Ok. replace (zlen text + zlen arg + 1) with (zlen ((text ++ arg) ++ [32])) by (rewrite !zlen_app; change (zlen [32]) with 1; lia).
  rewrite IH by (auto using nul_free_app || lia).
  rewrite <- !app_assoc.
  destruct (Nat.ltb_spec (length (join args)) (k - length arg - 1)), (Nat.ltb_spec (length arg + 1 + length (join args)) k);
    try lia; [| done].
  by replace (k - length arg - 1 - length (join args))%nat with (k - (length arg + 1 + length (join args)))%nat by lia.
Qed.

(** The text of the first context: of the arguments, or "help ". *)
Definition boot_text (args : list (list Z)) : list Z :=
  if bool_decide (args = []) then str "help " else join args.

Lemma boot_text_nul_free args : Forall plain args -> nul_free (boot_text args).
Proof.
  intros Ha. unfold boot_text. case_bool_decide; [by apply str_nul_free | by apply join_nul_free].
Qed.

(** C18: the text the first context is launched with is the arguments of the
    command line, each followed by a space, or "help " when there are none, and
    then zeros to the end of an array of 1024 bytes.  The assert that is to guard
    the array stops the process for a text of exactly 1023 bytes; a longer one has
    been written past the array before the assert is reached. *)
Theorem bootstrapName_bounds args : Forall plain args ->
  let text := boot_text args in
  bootstrapName args =
    (if zlen text <? 1023 then Ok (text ++ replicate (1024 - length text) 0)
     else if zlen text =? 1023 then Fault AssertFailed else Fault OutOfBounds) /\
  forall buf, bootstrapName args = Ok buf -> zlen buf = 1024 /\ c_str buf = Ok text.
Proof.
  intros Ha text. assert (E : bootstrapName args =
    (if zlen text <? 1023 then Ok (text ++ replicate (1024 - length text) 0)
     else if zlen text =? 1023 then Fault AssertFailed else Fault OutOfBounds)).
  { unfold text, boot_text, bootstrapName. case_bool_decide as Hn; [by vm_compute |].
    change (replicate 1024 0) with (padded [] 1024). change 0 with (zlen (@nil Z)) at 1.
    rewrite add_args_spec; [cbn [app] | done | apply Forall_nil_2 | lia].
    destruct (Nat.ltb_spec (length (join args)) 1024) as [Hl | Hl].
    2: { unfold zlen. destruct (Z.ltb_spec (Z.of_nat (length (join args))) 1023); [lia |].
         by destruct (Z.eqb_spec (Z.of_nat (length (join args))) 1023); [lia |]. }
    rewrite bind_Ok. unfold padded. pose proof (zlen_nonneg (join args)).
    rewrite aset_Ok by (rewrite zlen_app; unfold zlen; rewrite length_replicate; lia).
    rewrite bind_Ok. unfold zlen at 1. rewrite Nat2Z.id, insert_app_r_alt by lia. rewrite Nat.sub_diag.
    replace (1024 - length (join args))%nat with (S (1023 - length (join args))) by lia. cbn [replicate].
    change (<[0%nat := 0]> (0 :: ?l)) with (0 :: l). unfold c_assert.
    destruct (Z.ltb_spec (zlen (join args) + 1) 1024), (Z.ltb_spec (zlen (join args)) 1023); try lia; [done |].
    by destruct (Z.eqb_spec (zlen (join args)) 1023); [| unfold zlen in *; lia]. }
  split; [done |]. intros buf. rewrite E.
  destruct (Z.ltb_spec (zlen text) 1023) as [Hl | _]; [| by destruct (_ =? _)]. intros [= <-]. split.
  { rewrite zlen_app. unfold zlen in *. rewrite length_replicate. lia. }
  replace (1024 - length text)%nat with (S (1023 - length text)) by (unfold zlen in Hl; lia). cbn [replicate].
  apply c_str_app. by apply boot_text_nul_free.
Qed.

Lemma bootstrapName_bounds_witness :
  Forall plain [str "game"; str "1"] /\
  exists buf, bootstrapName [str "game"; str "1"] = Ok buf /\ c_str buf = Ok (str "game 1 ").
Proof.
  assert (Ha : Forall plain [str "game"; str "1"]).
  { repeat constructor; vm_compute; done. }
  split; [done |]. destruct (bootstrapName_bounds _ Ha) as [E S].
  eexists. split; [exact E |]. by destruct (S _ E).
Defined.

(** The pid file has the name that is meant only when the array happens to start
    with a zero: what the stack holds comes first. *)
Lemma pidFile_junk s m program : nul_free s -> nul_free program ->
  zlen s + zlen program + 10 <= zlen (s ++ 0 :: m) ->
  pidFile (s ++ 0 :: m) program = Ok (s ++ Z_PID_PATH ++ program ++ str ".pid").
Proof.
  intros Hs Hp Hl. rewrite zlen_app, zlen_cons in Hl. pose proof (zlen_nonneg program).
  assert (H1 : nul_free Z_PID_PATH) by by apply str_nul_free.
  assert (H2 : nul_free (str ".pid")) by by apply str_nul_free.
  unfold pidFile. rewrite strncat_spec by done.
  change (zlen Z_PID_PATH) with 5. destruct (Z.leb_spec 5 (zlen m)); [| lia].
  rewrite bind_Ok, (app_assoc s). rewrite strncat_spec by (auto using nul_free_app || done).
  assert (E5 : zlen (drop (length Z_PID_PATH) m) = zlen m - 5) by exact (zlen_drop m 5 ltac:(lia)).
  rewrite E5. destruct (Z.leb_spec (zlen program) (zlen m - 5)); [| lia].
  rewrite bind_Ok, (app_assoc (s ++ Z_PID_PATH)). change (lit ".pid") with (cstring (str ".pid")).
  rewrite strncat_spec by (auto using nul_free_app || done).
  assert (E6 : zlen (drop (length program) (drop (length Z_PID_PATH) m)) = zlen m - 5 - zlen program).
  { unfold zlen in *. rewrite !length_drop. change (length Z_PID_PATH) with 5%nat. lia. }
  rewrite E6. change (zlen (str ".pid")) with 4. destruct (Z.leb_spec 4 (zlen m - 5 - zlen program)); [| lia].
  rewrite bind_Ok, (app_assoc _ (str ".pid")). rewrite c_str_app by auto using nul_free_app.
  by rewrite <- !app_assoc.
Qed.

(** An array without a zero is read past its end. *)
Lemma pidFile_fault junk program : Forall (fun c => c <> 0) junk -> pidFile junk program = Fault OutOfBounds.
Proof.
  intros Hj. unfold pidFile, strncat.
  assert (E : c_str junk = Fault OutOfBounds); [| by rewrite E].
  induction Hj as [| c junk Hc _ IH]; [done |]. cbn. destruct (Z.eqb_spec c 0); [done |]. by rewrite IH.
Qed.

(** The size of the event loop is the next power of two, or a number that is not
    positive. *)
Lemma fdSetSize_spec n : -2147483648 <= n < 2147483648 ->
  fdSetSize n = if n <=? 0 then (if n =? -2147483648 then -2147483648 else 0)
                else if n <=? 1073741824 then 2 ^ Z.log2_up n else -2147483648.
Proof.
  intros Hn. unfold fdSetSize. destruct (Z.leb_spec n 0) as [H0 | H0].
  - destruct (Z.eqb_spec n (-2147483648)) as [-> | Hm]; [by vm_compute |].
    destruct (Z.eq_dec n 0) as [-> | Hz]; [by vm_compute |].
    assert (u32 n = n + 4294967296) as -> by (unfold u32; rewrite <- (Z.mod_add n 1), Z.mod_small by lia; lia).
    rewrite nextpow2_overflow by lia. done.
  - rewrite u32_small by lia. destruct (nextpow2_spec n ltac:(lia)) as [E [B1 B2]]. rewrite E.
    destruct (Z.leb_spec n 1073741824) as [H1 | H1].
    + apply i32_small. assert (Hl : 2 ^ Z.log2_up n <= 2 ^ 30); [| lia].
      apply Z.pow_le_mono_r; [lia |]. change 30 with (Z.log2_up 1073741824). by apply Z.log2_up_le_mono.
    + assert (Hl : Z.log2_up n = 31); [| by rewrite Hl; vm_compute].
      apply Z.log2_up_unique; [lia |]. cbn. lia.
Qed.

(** A daemon leads a session; its standard streams are the null device, and its
    other descriptors are those it had. *)
Lemma daemonize_ok nochdir a p p' : files p !! open_fd a = None -> 0 <= open_fd a ->
  daemonize nochdir 0 a p = Returns 0 p' ->
  leader p' = true /\ root_dir p' = root_dir p || (nochdir =? 0) /\
  (forall n, 0 <= n <= 2 -> files p' !! n = Some dev_null) /\
  forall n, n < 0 \/ 2 < n -> files p' !! n = files p !! n.
Proof.
  intros Hf Ho. unfold daemonize. cbn [files root_dir leader].
  destruct (fork_ a =? -1); [done |]. destruct (fork_ a =? 0); [cbn [negb] | done].
  destruct (setsid_ a); [cbn [negb] | done].
  destruct ((nochdir =? 0) && negb (chdir_ a)); [done |].
  destruct (Z.eqb_spec (open_fd a) (-1)); [exfalso; lia |]. cbn [negb andb Z.eqb].
  unfold dup2_all. cbn [foldl fst snd]. destruct (dup_ a 0); [cbn [fst snd] | done].
  destruct (dup_ a 1); [cbn [fst snd] | done]. destruct (dup_ a 2); [cbn [fst snd negb] | done].
  destruct (Z.gtb_spec (open_fd a) 2); [destruct (close_ a); [cbn [negb] | done] |]; intros [= <-]; cbn [files root_dir leader];
    (do 2 (split; [done |])); split; intros i Hi.
  - rewrite lookup_delete_ne by lia. assert (i = 0 \/ i = 1 \/ i = 2) as [-> | [-> | ->]] by lia; by simplify_map_eq.
  - destruct (decide (i = open_fd a)) as [-> | Hne]; [by rewrite lookup_delete_eq, Hf |].
    by rewrite lookup_delete_ne, !lookup_insert_ne by lia.
  - assert (i = 0 \/ i = 1 \/ i = 2) as [-> | [-> | ->]] by lia; by simplify_map_eq.
  - by rewrite !lookup_insert_ne by lia.
Qed.
