(* ===== verification/Server.v ===== *)
(** * From the wire to the actor

    The parts of the path a byte takes, put together: the event-loop thread reads
    a socket ([Socket], socket.c), cuts the stream into messages ([Proto],
    proto.c), sends each to the actor the socket belongs to with zSendx (z.c,
    [WorkerPool]), and a worker hands the messages of the actor's queue to its
    callback ([Context], context.c). *)
From S2P Require Import Prelude Fifo LockFree Define Buffer Proto Ae AeEpoll Socket NetProps Context WorkerPool.

Section Server.
  Context {K Q G : Type} `{AeApi K} `{FifoLaws Q message} `{FifoLaws G nat}.
  Variables (undef : Z) (errtext : tcp_error -> list Z).

(** What the event-loop thread and the workers share. *)
Record node := Node {
  n_net : net K;
  n_pool : pool Q G;
}.

(** The call of zSendx in a callback of proto.c or socket.c. *)
Definition post (e : zsend) : ST (pool Q G) Z :=
  workerPoolSend None (zs_from e) (zs_to e) (zs_session e) (zs_type e) (zs_data e) (zs_sz e) (zs_ud e).

Fixpoint post_all (es : list zsend) : ST (pool Q G) unit :=
  match es with
  | [] => mret tt
  | e :: es => _ ← post e; post_all es
  end.

(** A handler of the event loop, with the messages it sends. *)
Definition handled {A} (m : ST (net K) A) : ST node A := fun nd =>
  r ← m (with_out (n_net nd) []);
  p ← post_all (out r.2) (n_pool nd);
  Ok (r.1, Node (with_out r.2 []) p.2).

(** Readiness of one socket, again and again. *)
Fixpoint serve (i : nat) (chunks : list (list Z)) : ST node unit :=
  match chunks with
  | [] => mret tt
  | c :: chunks => _ ← handled (onRead undef errtext i (ReadBytes c)); serve i chunks
  end.

(** The messages a worker hands to the callback of a context in [n] dispatches. *)
Fixpoint dispatches (n : nat) (a : nat) : ST (sys Q) (list message) :=
  match n with
  | O => mret []
  | S n =>
    r ← contextDispatchMessage a;
    ms ← dispatches n a;
    mret (match r.2 with Some m => m :: ms | None => ms end)
  end.

(** ** Sending a list *)

Definition message_of (e : zsend) : message :=
  Message (zs_from e) (zs_session e) (zs_type e) (zs_ud e) (zs_sz e) (zs_data e).

(** The queue after pushes that all are accepted. *)
Fixpoint push_all (ms : list message) (q : Q) : option Q :=
  match ms with
  | [] => Some q
  | m :: ms => match q_push m q with Ok (true, q') => push_all ms q' | _ => None end
  end.

Lemma push_all_app ms1 ms2 q :
  push_all (ms1 ++ ms2) q = match push_all ms1 q with Some q1 => push_all ms2 q1 | None => None end.
Proof. revert q. induction ms1 as [| m ms1 IH]; intros q; [done |]. cbn. by destruct (q_push m q) as [[[] q1] |]. Qed.

Lemma push_all_elems ms q q' : q_wf q -> push_all ms q = Some q' -> q_wf q' /\ q_elems q' = q_elems q ++ ms.
Proof.
  revert q. induction ms as [| m ms IH]; intros q W; cbn; [by intros [= <-]; rewrite app_nil_r |].
  destruct (q_push_spec q m W) as (ok & q1 & -> & W1 & E1). destruct ok; [| done]. intros E.
  destruct (IH _ W1 E) as [W' E']. split; [done |]. by rewrite E', E1, <- app_assoc.
Qed.

Definition nonempty {A} (l : list A) : bool := match l with [] => false | _ => true end.

(** [to] is the identifier of the context [c] at [a], whose count has room for the
    reference of the global queue. *)
Record addressed (p : pool Q G) (to : Z) (a : nat) (c : context Q) : Prop := {
  ad_to : to <> 0;
  ad_slot : aget (contexts (base p)) (to mod Context.setsize (base p)) = Ok (Some a);
  ad_heap : heap (base p) !! a = Some c;
  ad_ref : 1 <= c_ref c /\ c_ref c + (1 - c_inGlobal c) < 4294967295;
  ad_flag : c_inGlobal c = 0 \/ c_inGlobal c = 1;
  ad_queue : q_wf (c_queue c);
  ad_global : q_wf (gqueue p);
}.

(** The pool after messages were put in the queue [q] of [c]: the context is as it
    was otherwise, it was put in the global queue once if it was not there, and
    the other contexts are untouched. *)
Record filled (p p' : pool Q G) (to : Z) (a : nat) (c : context Q) (q : Q) (any : bool) : Prop := {
  fi_ctx : exists c', addressed p' to a c' /\ c_id c' = c_id c /\ c_cb c' = c_cb c /\ c_queue c' = q /\
    c_inGlobal c' = (if any then 1 else c_inGlobal c);
  fi_kept : any = false \/ c_inGlobal c = 1 -> gqueue p' = gqueue p;
  fi_enqueued : any = true -> c_inGlobal c = 0 -> exists ok, q_push a (gqueue p) = Ok (ok, gqueue p');
  fi_others : forall b cb, b <> a -> heap (base p) !! b = Some cb ->
    exists cb', heap (base p') !! b = Some cb' /\ same cb cb' /\ c_ref cb' = c_ref cb;
}.

Lemma filled_nil p to a c : addressed p to a c -> filled p p to a c (c_queue c) false.
Proof.
  intros A. split; [by exists c | done | done |]. intros b cb _ E. by exists cb.
Qed.

(** Some messages, then others. *)
Lemma filled_trans p p1 p2 to a c c1 q1 q2 any1 any2 :
  filled p p1 to a c q1 any1 -> addressed p1 to a c1 -> filled p1 p2 to a c1 q2 any2 ->
  filled p p2 to a c q2 (any1 || any2).
Proof.
  intros [(c1' & A1' & I1 & B1 & Q1 & F1) K1 E1 O1] A1 [(c2 & A2 & I2 & B2 & Q2 & F2) K2 E2 O2].
  assert (c1' = c1) as ->.
  { pose proof (ad_heap _ _ _ _ A1') as Ea. rewrite (ad_heap _ _ _ _ A1) in Ea. by injection Ea. }
  split.
  - exists c2. split; [done |]. split; [by rewrite I2 |]. split; [by rewrite B2 |]. split; [done |].
    rewrite F2, F1. by destruct any1, any2.
  - intros Hk. rewrite K2, K1; [done | ..]; destruct any1, any2, Hk as [? | Hk]; auto; rewrite ?F1; auto.
  - intros Ha Hi. destruct any1.
    + rewrite K2 by by right. by apply E1.
    + rewrite <- K1 by by left. apply E2; [done | by rewrite F1].
  - intros b cb Hb Eb. destruct (O1 b cb Hb Eb) as (cb1 & Eb1 & (? & ? & ?) & R1).
    destruct (O2 b cb1 Hb Eb1) as (cb2 & Eb2 & (? & ? & ?) & R2). exists cb2. split; [done |].
    unfold same. by repeat split; congruence.
Qed.

Definition to_actor (to : Z) (e : zsend) : Prop := zs_to e = to /\ Z.land (zs_type e) MSG_TYPE_NEWSESSION = 0.

Lemma post_spec e to a c p : to_actor to e -> addressed p to a c ->
  match q_push (message_of e) (c_queue c) with
  | Ok (true, q) => exists r p', post e p = Ok (r, p') /\ filled p p' to a c q true
  | _ => post e p = Fault AssertFailed
  end.
Proof.
  intros [<- Hty] [Hto Ea Ec [Hr1 Hr2] Hf Wq Wg].
  destruct (q_push_spec (c_queue c) (message_of e) Wq) as (ok & q & Ep & W' & El). rewrite Ep.
  assert (Em : Message (send_from (None : option (context Q)) (zs_from e)) (send_sess (None : option (context Q)) (zs_session e) (zs_type e)) (zs_type e) (zs_ud e) (zs_sz e)
    (zs_data e) = message_of e).
  { unfold message_of, send_from, send_sess. rewrite Hty. by destruct (zs_from e =? 0). }
  rewrite <- Em in Ep.
  destruct ok; [| exact (workerPoolSend_refused p None None _ _ _ _ _ _ _ a c q I (fun _ => Hty) Hto Ea Ec Ep)].
  destruct (workerPoolSend_accepted p None None _ _ _ _ _ _ _ a c q I (fun _ => Hty) Wg Hto Ea Ec ltac:(lia) Hf Wq Ep)
    as (p' & Es & [(c' & Ec' & Eid & Ef & _ & Er & Eq & Ecb) [Tc Ts] Wg' K1 K0 O]).
  rewrite Ep in Eq. injection Eq as Eq. eexists _, p'. split; [exact Es |]. split; [| | | exact O].
  - exists c'. split.
    { split; rewrite ?Tc, ?Ts, ?Ef, ?Er; try done; [| by right | by rewrite <- Eq].
      destruct Hf as [Hi | Hi]; rewrite Hi in Hr2 |- *; cbn; lia. }
    by repeat split.
  - intros [? | Hi]; [done | by apply K1].
  - intros _ Hi. destruct (K0 Hi) as (r & E & ->). unfold enqueue in E.
    destruct (q_push a (gqueue p)) as [[ok g] |]; [| done]. injection E as <-. by exists ok.
Qed.

Lemma post_all_spec es to a c p : Forall (to_actor to) es -> addressed p to a c ->
  match push_all (message_of <$> es) (c_queue c) with
  | Some q => exists p', post_all es p = Ok (tt, p') /\ filled p p' to a c q (nonempty es)
  | None => post_all es p = Fault AssertFailed
  end.
Proof.
  intros Hes. revert c p. induction Hes as [| e es He Hes IH]; intros c p A; cbn [fmap list_fmap push_all post_all].
  { exists p. split; [done | by apply filled_nil]. }
  pose proof (post_spec e to a c p He A) as Hp.
  destruct (q_push_spec (c_queue c) (message_of e) (ad_queue _ _ _ _ A)) as (ok & q & Ep & Wq & Eq).
  rewrite Ep in Hp |- *. destruct ok.
  2: { by rewrite (st_bind_Fault _ _ _ _ Hp). }
  destruct Hp as (r & p1 & E1 & F1). rewrite (st_bind_Ok _ _ _ _ _ E1).
  pose proof F1 as [(c1 & A1 & _ & _ & <- & _) _ _ _]. specialize (IH c1 p1 A1).
  destruct (push_all _ (c_queue c1)) as [q' |]; [| exact IH].
  destruct IH as (p' & E' & F'). exists p'. split; [done |]. exact (filled_trans _ _ _ _ _ _ _ _ _ _ _ F1 A1 F').
Qed.

(** ** Reading a stream *)

(** What the actor is sent for the bodies of the frames. *)
Definition data_message (s : socket) (body : list Z) : message :=
  Message 0 0 (sock_type MSG_TYPE_SOCK_DATA) (s_id s) (zlen body) (Some (body ++ [undef])).

Lemma data_messages_of s ms : message_of <$> data_messages undef s ms = data_message s <$> ms.
Proof. unfold data_messages. by rewrite <- list_fmap_compose. Qed.

Lemma data_messages_to s ms : Forall (to_actor (s_from s)) (data_messages undef s ms).
Proof. unfold data_messages. induction ms as [| m ms IH]; constructor; done. Qed.

Lemma handled_run {A} (m : ST (net K) A) nd r n1 :
  m (with_out (n_net nd) []) = Ok (r, n1) ->
  handled m nd = match post_all (out n1) (n_pool nd) with
                 | Ok p => Ok (r, Node (with_out n1 []) p.2)
                 | Fault f => Fault f
                 end.
Proof. intros E. unfold handled. rewrite E. done. Qed.

Lemma serve_spec i chunks (nd : node) s ms rest a c :
  reads (n_net nd) i s -> Forall (fun c => 0 < zlen c <= READ_BUFFER_INITIAL) chunks ->
  parse (unread (s_readBuffer s) ++ concat chunks) = (ms, false, rest) ->
  addressed (n_pool nd) (s_from s) a c ->
  match push_all (data_message s <$> ms) (c_queue c) with
  | Some q => exists rb nd', serve i chunks nd = Ok (tt, nd') /\
      sockets (n_net nd') !! i = Some (set_readBuffer s rb) /\ unread rb = rest /\
      filled (n_pool nd) (n_pool nd') (s_from s) a c q (nonempty ms)
  | None => serve i chunks nd = Fault AssertFailed
  end.
Proof.
  intros R Hc. revert nd s ms c R. induction Hc as [| x chunks Hx _ IH]; intros nd s ms c R Hparse A.
  { rewrite app_nil_r, (rd_rest _ _ _ R) in Hparse. injection Hparse as <- <-. cbn.
    exists (s_readBuffer s), nd. split; [done |]. split; [by rewrite (rd_sock _ _ _ R); destruct s |].
    split; [done | by apply filled_nil]. }
  cbn [concat serve] in *. rewrite app_assoc in Hparse.
  destruct (parse_split _ _ _ _ Hparse) as (ms1 & r1 & ms2 & E1 & E2 & ->).
  assert (R0 : reads (with_out (n_net nd) []) i s) by by destruct R.
  destruct (reads_step undef errtext i x _ s ms1 r1 R0 Hx E1) as (b & n1 & Eb & Eo1 & R1 & Rb).
  pose proof (post_all_spec (data_messages undef s ms1) (s_from s) a c (n_pool nd) (data_messages_to s ms1) A) as Hp.
  rewrite data_messages_of in Hp. rewrite fmap_app, push_all_app.
  pose proof (handled_run _ nd _ _ Eb) as Hh. rewrite Eo1 in Hh. cbn [out with_out app] in Hh.
  destruct (push_all (data_message s <$> ms1) (c_queue c)) as [q1 |].
  2: { rewrite Hp in Hh. by rewrite (st_bind_Fault _ _ _ _ Hh). }
  destruct Hp as (p1 & Ep & F1). rewrite Ep in Hh. cbn [snd] in Hh. rewrite (st_bind_Ok _ _ _ _ _ Hh).
  set (nd1 := Node (with_out n1 []) p1). set (s1 := set_readBuffer s (Some b)) in R1.
  assert (R1' : reads (n_net nd1) i s1) by by destruct R1.
  pose proof F1 as [(c1 & A1 & _ & _ & <- & _) _ _ _].
  specialize (IH nd1 s1 ms2 c1 R1'). rewrite <- Rb in E2. specialize (IH E2 A1).
  change (data_message s1 <$> ms2) with (data_message s <$> ms2) in IH.
  destruct (push_all _ (c_queue c1)) as [q |]; [| exact IH].
  destruct IH as (rb & nd' & Es & Esk & Eu & F'). exists rb, nd'. split; [done |]. split; [exact Esk |]. split; [done |].
  pose proof (filled_trans _ _ _ _ _ _ _ _ _ _ _ F1 A1 F') as F. by destruct ms1, ms2.
Qed.

(** ** Running the actor *)

Lemma dispatches_spec ms a (b : sys Q) c rest :
  heap b !! a = Some c -> q_wf (c_queue c) -> q_elems (c_queue c) = ms ++ rest -> c_cb c = true ->
  Forall (fun m => type m <> MSG_TYPE_EXIT_CONTEXT) ms ->
  exists b' c', dispatches (length ms) a b = Ok (ms, b') /\ heap b' !! a = Some c' /\ q_elems (c_queue c') = rest.
Proof.
  intros Ec W E Hcb Ht. revert b c Ec W E Hcb. induction Ht as [| m ms Hm _ IH]; intros b c Ec W E Hcb; [by exists b, c |].
  destruct (contextDispatchMessage_Ok a b c m (ms ++ rest) Ec W E Hcb Hm) as (q & Ed & Wq & Eq).
  cbn [length dispatches]. rewrite (st_bind_Ok _ _ _ _ _ Ed). set (b1 := with_heap _ _).
  destruct (IH b1 (set_c_queue c q)) as (b' & c' & Ed' & Ec' & Eq'); [apply lookup_insert_eq | done | done | done |].
  exists b', c'. by rewrite (st_bind_Ok _ _ _ _ _ Ed').
Qed.

Lemma stream_to_actor i chunks (nd : node) s bodies tail a c :
  sockets (n_net nd) !! i = Some s -> s_protoType s = HEAD_PROTO_TYPE -> s_readBuffer s = None ->
  addressed (n_pool nd) (s_from s) a c -> c_cb c = true -> q_elems (c_queue c) = [] ->
  Forall (fun c => 0 < zlen c <= READ_BUFFER_INITIAL) chunks ->
  Forall (fun b => zlen b <= kMaxMessageLen) bodies -> parse tail = ([], false, tail) ->
  concat chunks = concat (encode <$> bodies) ++ tail ->
  let ms := data_message s <$> bodies in
  match push_all ms (c_queue c) with
  | None => serve i chunks nd = Fault AssertFailed
  | Some _ => exists nd' b' rb, serve i chunks nd = Ok (tt, nd') /\
      dispatches (length ms) a (base (n_pool nd')) = Ok (ms, b') /\
      sockets (n_net nd') !! i = Some (set_readBuffer s rb) /\ unread rb = tail /\
      (bodies <> [] -> c_inGlobal c = 0 -> exists ok, q_push a (gqueue (n_pool nd)) = Ok (ok, gqueue (n_pool nd'))) /\
      forall x cx, x <> a -> heap (base (n_pool nd)) !! x = Some cx ->
        exists cx', heap (base (n_pool nd')) !! x = Some cx' /\ same cx cx' /\ c_ref cx' = c_ref cx
  end.
Proof.
  intros E Hp Hr A Hcb Hq Hc Hb Ht Hs ms.
  assert (R : reads (n_net nd) i s) by by split; rewrite ?Hr.
  pose proof (serve_spec i chunks nd s bodies tail a c R Hc) as Hserve. rewrite Hr in Hserve.
  cbn [unread from_option app] in Hserve. rewrite Hs in Hserve. specialize (Hserve (parse_frames _ _ Hb Ht) A).
  fold ms in Hserve. destruct (push_all ms (c_queue c)) as [q |] eqn:Epush; [| done].
  destruct Hserve as (rb & nd' & Es & Esk & Eu & [(c' & A' & _ & Ecb & Eq & _) _ Ee Eo]).
  destruct (push_all_elems _ _ _ (ad_queue _ _ _ _ A) Epush) as [Wq Eqs]. rewrite Hq in Eqs. cbn in Eqs.
  destruct (dispatches_spec ms a (base (n_pool nd')) c' []) as (b' & c2 & Ed & _).
  { apply A'. } { by rewrite Eq. } { by rewrite app_nil_r, Eq. } { by rewrite Ecb. }
  { unfold ms. clear. induction bodies as [| b bs IH]; constructor; done. }
  exists nd', b', rb. split; [done |]. split; [done |]. split; [done |]. split; [done |]. split; [| exact Eo].
  intros Hne Hi. apply Ee; [by destruct bodies | done].
Qed.

(** From the wire to the callback.  A connection with the length-prefixed
    protocol belongs to a running actor whose queue is empty; the peer's bytes are
    legal frames and the beginning of one, read in any pieces of 1 to 64 bytes.
    When the actor's queue takes that many messages, the event loop runs through,
    the actor is in the global queue once, no other actor is touched, and the
    worker that dispatches it hands exactly the bodies of the frames to its
    callback, in order and byte for byte, marked as data of this socket; what is
    left in the read buffer is the incomplete frame.  Otherwise the process stops
    at the assertion on a full queue. *)
Theorem stream_reaches_actor i chunks (nd : node) s bodies tail a c :
  sockets (n_net nd) !! i = Some s -> s_protoType s = HEAD_PROTO_TYPE -> s_readBuffer s = None ->
  addressed (n_pool nd) (s_from s) a c -> c_cb c = true -> q_elems (c_queue c) = [] ->
  Forall (fun c => 0 < zlen c <= READ_BUFFER_INITIAL) chunks ->
  Forall (fun b => zlen b <= kMaxMessageLen) bodies -> parse tail = ([], false, tail) ->
  concat chunks = concat (encode <$> bodies) ++ tail ->
  let ms := data_message s <$> bodies in
  match push_all ms (c_queue c) with
  | None => serve i chunks nd = Fault AssertFailed
  | Some _ => exists nd' b' rb, serve i chunks nd = Ok (tt, nd') /\
      dispatches (length ms) a (base (n_pool nd')) = Ok (ms, b') /\
      sockets (n_net nd') !! i = Some (set_readBuffer s rb) /\ unread rb = tail /\
      (bodies <> [] -> c_inGlobal c = 0 -> exists ok, q_push a (gqueue (n_pool nd)) = Ok (ok, gqueue (n_pool nd'))) /\
      forall x cx, x <> a -> heap (base (n_pool nd)) !! x = Some cx ->
        exists cx', heap (base (n_pool nd')) !! x = Some cx' /\ same cx cx' /\ c_ref cx' = c_ref cx
  end.
Proof. apply stream_to_actor. Qed.

(** From an actor to an actor of another server.  An actor's messages, each
    with the length in front, are written to a fresh connection, which accepts as
    much of them at a time as it likes; the peer has received any first part of
    what was handed to the kernel, in pieces of 1 to 64 bytes.  Then its actor's
    callback gets the bodies of the first so many messages, in order and byte for
    byte: nothing is lost, repeated or torn.  When all has been handed over and
    received it gets all of them. *)
Theorem actor_to_actor `{!AeApiLaws K} (n n' : net K) i s os (nd : node) j t bodies chunks a c :
  conn_ok n i s -> wire_of (s_fd s) (wire n) = [] -> unread (s_sendBuffer s) = [] ->
  Forall wop_ok os -> run_wops undef errtext i os n = Ok (tt, n') ->
  concat (wop_data <$> os) = concat (encode <$> bodies) -> Forall (fun b => zlen b <= kMaxMessageLen) bodies ->
  concat chunks `prefix_of` wire_of (s_fd s) (wire n') -> Forall (fun c => 0 < zlen c <= READ_BUFFER_INITIAL) chunks ->
  sockets (n_net nd) !! j = Some t -> s_protoType t = HEAD_PROTO_TYPE -> s_readBuffer t = None ->
  addressed (n_pool nd) (s_from t) a c -> c_cb c = true -> q_elems (c_queue c) = [] ->
  exists k, (k <= length bodies)%nat /\
    let ms := data_message t <$> take k bodies in
    match push_all ms (c_queue c) with
    | None => serve j chunks nd = Fault AssertFailed
    | Some _ => exists nd' b', serve j chunks nd = Ok (tt, nd') /\
        dispatches (length ms) a (base (n_pool nd')) = Ok (ms, b')
    end /\
    (forall s', sockets n' !! i = Some s' -> unread (s_sendBuffer s') = [] ->
       concat chunks = wire_of (s_fd s) (wire n') -> k = length bodies).
Proof.
  intros C Hw Hu Ho R Ed Hb Hp Hc Et Hpt Hrt A Hcb Hq.
  destruct (run_wops_conserves undef errtext i os n n' s C Ho R) as (s' & Es' & Ew). rewrite Hw, Hu, Ed in Ew. cbn [app] in Ew.
  destruct (parse_prefix bodies (concat chunks) Hb) as (k & tail & Hk & Ea & Htail & Hfull).
  { rewrite <- Ew. by apply prefix_app_r. }
  exists k. split; [done |]. cbv zeta. split.
  - pose proof (stream_to_actor j chunks nd t (take k bodies) tail a c Et Hpt Hrt A Hcb Hq Hc (Forall_take _ _ _ Hb) Htail Ea) as Hs.
    cbv zeta in Hs. destruct (push_all _ (c_queue c)); [| done].
    destruct Hs as (nd' & b' & rb & E1 & E2 & _). by exists nd', b'.
  - intros s'' Es Hu' Ec. rewrite Es' in Es. injection Es as <-. rewrite Hu', app_nil_r in Ew. rewrite Ew in Ec. by apply Hfull.
Qed.
End Server.

(** The actor 1 with a connection of its own, over epoll and the lock-free queues. *)
Definition wire_socket : socket := Socket 1 HEAD_PROTO_TYPE 1 5 kSocketType kSocketConnected None None.

Definition wire_node : node :=
  Node (Net 2 1 [wire_socket] (aeCreateEventLoop 16 0 (∅ : gmap Z Z)) [] [] []) (wpool demo).

Lemma stream_reaches_actor_witness :
  exists nd' b' rb, serve 0 (fun _ => []) 0 [[2; 0]; [0; 0; 65]; [66; 1; 0; 0; 0; 67; 9]] wire_node = Ok (tt, nd') /\
    dispatches 2 0 (base (n_pool nd')) =
      Ok ([Message 0 0 (sock_type MSG_TYPE_SOCK_DATA) 1 2 (Some [65; 66; 0]);
           Message 0 0 (sock_type MSG_TYPE_SOCK_DATA) 1 1 (Some [67; 0])], b') /\
    sockets (n_net nd') !! 0%nat = Some (set_readBuffer wire_socket rb) /\ unread rb = [9].
Proof.
  pose proof (stream_reaches_actor 0 (fun _ => []) 0 [[2; 0]; [0; 0; 65]; [66; 1; 0; 0; 0; 67; 9]] wire_node wire_socket
    [[65; 66]; [67]] [9] 0 demo_ctx) as H.
  destruct (lfCreate_wf MessageQueue.zero_message 4) as [W _]; [lia |].
  assert (A : addressed (n_pool wire_node) (s_from wire_socket) 0 demo_ctx).
  { split; try reflexivity; [done | by cbn | by left | exact W | apply demo_winit]. }
  specialize (H eq_refl eq_refl eq_refl A eq_refl eq_refl).
  assert (Hc : Forall (fun c => 0 < zlen c <= READ_BUFFER_INITIAL) [[2; 0]; [0; 0; 65]; [66; 1; 0; 0; 0; 67; 9]])
    by (repeat constructor; vm_compute; congruence).
  assert (Hb : Forall (fun b => zlen b <= kMaxMessageLen) [[65; 66]; [67]])
    by (do 2 (apply Forall_cons_2; [by vm_compute; congruence |]); apply Forall_nil_2).
  specialize (H Hc Hb eq_refl eq_refl).
  cbv zeta in H.
  assert (Ep : exists q, push_all (data_message 0 wire_socket <$> [[65; 66]; [67]]) (c_queue demo_ctx) = Some q)
    by (eexists; vm_compute; reflexivity).
  destruct Ep as [q Ep]. rewrite Ep in H.
  destruct H as (nd' & b' & rb & Es & Ed & Esk & Eu & _). exists nd', b', rb.
  split; [exact Es |]. split; [exact Ed |]. split; [exact Esk | exact Eu].
Defined.

(** Two messages: a write of three bytes, a second write, room for six more; the
    first seven bytes have arrived. *)
Definition wire_ops : list wop :=
  [OWrite (encode [65; 66]) (Wrote 3); OWrite (encode [67]) WriteAgain;
   OReady (fun k => match k with O => Sent 6 | _ => SendAgain end)].

Lemma actor_to_actor_witness :
  exists n' k nd' b', run_wops 0 (fun _ => []) 0 wire_ops one_socket = Ok (tt, n') /\
    wire_of 5 (wire n') = [2; 0; 0; 0; 65; 66; 1; 0; 0] /\
    serve 0 (fun _ => []) 0 [[2; 0; 0]; [0; 65; 66; 1]] wire_node = Ok (tt, nd') /\
    (k <= 2)%nat /\
    dispatches k 0 (base (n_pool nd')) = Ok (data_message 0 wire_socket <$> take k [[65; 66]; [67]], b').
Proof.
  destruct (lfCreate_wf MessageQueue.zero_message 4) as [W _]; [lia |].
  assert (A : addressed (n_pool wire_node) (s_from wire_socket) 0 demo_ctx).
  { split; try reflexivity; [done | by cbn | by left | exact W | apply demo_winit]. }
  assert (Hc : Forall (fun c => 0 < zlen c <= READ_BUFFER_INITIAL) [[2; 0; 0]; [0; 65; 66; 1]])
    by (repeat constructor; vm_compute; congruence).
  assert (Hb : Forall (fun b => zlen b <= kMaxMessageLen) [[65; 66]; [67]])
    by (do 2 (apply Forall_cons_2; [by vm_compute; congruence |]); apply Forall_nil_2).
  assert (Ho : Forall wop_ok wire_ops).
  { repeat constructor; try (vm_compute; congruence). by intros [| k]. }
  destruct (run_wops 0 (fun _ => []) 0 wire_ops one_socket) as [[[] n'] |] eqn:R; [| by vm_compute in R].
  assert (Ew : wire_of 5 (wire n') = [2; 0; 0; 0; 65; 66; 1; 0; 0]) by (vm_compute in R; by injection R as <-).
  assert (Hp : concat [[2; 0; 0]; [0; 65; 66; 1]] `prefix_of` wire_of 5 (wire n')).
  { rewrite Ew. by exists [0; 0]. }
  destruct (actor_to_actor 0 (fun _ => []) one_socket n' 0 socket1 wire_ops wire_node 0 wire_socket [[65; 66]; [67]]
    [[2; 0; 0]; [0; 65; 66; 1]] 0 demo_ctx one_socket_conn eq_refl eq_refl Ho R eq_refl Hb Hp Hc eq_refl eq_refl eq_refl A eq_refl eq_refl)
    as (k & Hk & Hd & _).
  assert (Ep : exists q, push_all (data_message 0 wire_socket <$> take k [[65; 66]; [67]]) (c_queue demo_ctx) = Some q).
  { destruct k as [| [| [| k]]]; eexists; vm_compute; reflexivity. }
  destruct Ep as [q Ep]. cbv zeta in Hd. rewrite Ep in Hd. destruct Hd as (nd' & b' & E1 & E2).
  rewrite length_fmap, length_take in E2. change (length [[65; 66]; [67]]) with 2%nat in E2, Hk.
  exists n', k, nd', b'. split; [reflexivity |]. split; [exact Ew |]. split; [exact E1 |]. split; [exact Hk |].
  rewrite Nat.min_l in E2 by exact Hk. exact E2.
Defined.
