(* ===== verification/EndToEnd.v ===== *)
(** * From a service of one server to an actor of another

    The halves put together: on one side worker threads, the message queue and
    the event-loop thread ([TcpLoop]), on the other the event loop, the contexts'
    queues and the callback ([Server]); between them the peer receives what was
    handed to the kernel, in order. *)
From S2P Require Import Prelude Fifo LockFree Define Buffer Proto Ae AeEpoll Socket Tcp NetProps Context WorkerPool Server.
From S2P Require Import EventMsgQueue TcpLoop.

Lemma concat_prefix {A B} (f : A -> list B) l k : l `prefix_of` k -> concat (f <$> l) `prefix_of` concat (f <$> k).
Proof. intros [r ->]. rewrite fmap_app, concat_app. by apply prefix_app_r. Qed.

Section EndToEnd.
  Context {K1 K2 R Q G : Type} `{AeApi K1, AeApi K2} `{FifoLaws R tcpRequest} `{FifoLaws Q message} `{FifoLaws G nat}.
  Variables (undef : Z) (errtext : tcp_error -> list Z).

(** The peer has received a first part of what was handed to the kernel for [fd], in
    pieces of the size of its reads. *)
Definition arrived (fd : Z) (T : tsys (K:=K1) (Q:=R)) (chunks : list (list Z)) : Prop :=
  concat chunks `prefix_of` wire_of fd (wire (t_net T)) /\ Forall (fun c => 0 < zlen c <= READ_BUFFER_INITIAL) chunks.

(** C2: from the services of one server to an actor of another.  Worker threads
    post requests of all kinds while the loop thread handles them and the event
    loop calls socket.c; what was accepted for one connection, not closed
    meanwhile, is messages with the length in front.  The peer has received any
    first part of what was handed to the kernel, in pieces of 1 to 64 bytes (a
    larger piece may overrun its read buffer: [socketRead_overruns]).  Either the
    complete messages in that part fit the actor's queue, and then its callback
    gets the bodies of the first so many messages, in order and byte for byte - when
    no request waits, the send buffer is empty and everything has arrived, all of
    them; or they do not fit, and the process stops at the assertion of
    [workerPoolSend]. *)
Theorem services_to_actor i id fd (T0 T : tsys (K:=K1) (Q:=R)) (nd : node (K:=K2) (Q:=Q) (G:=G)) j t bodies chunks a c :
  up i id fd [] T0 -> handled (t_em T0) = [] -> rtc (tnext undef errtext) T0 T -> ~ closed_since fd T0 T ->
  concat (sent_bytes id <$> sent (t_em T)) = concat (encode <$> bodies) -> Forall (fun b => zlen b <= kMaxMessageLen) bodies ->
  arrived fd T chunks ->
  sockets (n_net nd) !! j = Some t -> s_protoType t = HEAD_PROTO_TYPE -> s_readBuffer t = None ->
  addressed (n_pool nd) (s_from t) a c -> c_cb c = true -> q_elems (c_queue c) = [] ->
  exists k, (k <= length bodies)%nat /\
    let ms := data_message undef t <$> take k bodies in
    match push_all ms (c_queue c) with
    | None => serve undef errtext j chunks nd = Fault AssertFailed
    | Some _ => exists nd' b', serve undef errtext j chunks nd = Ok (tt, nd') /\
        dispatches (length ms) a (base (n_pool nd')) = Ok (ms, b')
    end /\
    (forall s, sockets (t_net T) !! i = Some s -> unread (s_sendBuffer s) = [] -> backlog (t_em T) = [] ->
       concat chunks = wire_of fd (wire (t_net T)) -> k = length bodies).
Proof.
  intros U Eh0 Rt Hopen Ed Hb [Hp Hc] Et Hpt Hrt A Hcb Hq.
  destruct (up_reachable _ _ _ _ _ _ _ _ U Rt) as (Hsent & hs & Eh & [G' | L]); [done |]. rewrite Eh0 in Eh. cbn [app] in Eh. subst hs.
  destruct (lv_sock _ _ _ _ _ _ _ L) as (s & Es & _ & _ & _ & _ & _ & EW). cbn [app] in EW.
  assert (Hpre : wire_of fd (wire (t_net T)) `prefix_of` concat (encode <$> bodies)).
  { rewrite <- Ed, Hsent. etrans; [| by apply concat_prefix, prefix_app_r]. rewrite <- EW. by apply prefix_app_r. }
  destruct (parse_prefix bodies (concat chunks) Hb) as (k & tail & Hk & Ea & Htail & Hfull); [by etrans |].
  exists k. split; [done |]. cbv zeta. split.
  - pose proof (stream_to_actor undef errtext j chunks nd t (take k bodies) tail a c Et Hpt Hrt A Hcb Hq Hc (Forall_take _ _ _ Hb) Htail Ea) as Hs.
    cbv zeta in Hs. destruct (push_all _ (c_queue c)); [| done].
    destruct Hs as (nd' & b' & rb & E1 & E2 & _). by exists nd', b'.
  - intros s' Es' Hu Hbl Ec. rewrite Es in Es'. injection Es' as <-. rewrite Hu, app_nil_r in EW. rewrite Hbl, app_nil_r in Hsent.
    apply Hfull. by rewrite Ec, EW, <- Hsent.
Qed.
End EndToEnd.

Lemma wire_addressed : addressed (n_pool wire_node) (s_from wire_socket) 0 demo_ctx.
Proof.
  destruct (lfCreate_wf MessageQueue.zero_message 4) as [W _]; [lia |].
  split; try reflexivity; [done | by cbn | by left | exact W | apply demo_winit].
Qed.

Lemma services_to_actor_witness :
  exists T k nd' b', rtc (tnext 0 (fun _ => [])) two_sockets T /\ wire_of 5 (wire (t_net T)) = [2; 0; 0; 0; 65; 66; 1; 0; 0] /\
    serve 0 (fun _ => []) 0 [[2; 0; 0]; [0; 65; 66; 1]] wire_node = Ok (tt, nd') /\ (k <= 2)%nat /\
    dispatches k 0 (base (n_pool nd')) = Ok (data_message 0 wire_socket <$> take k [[65; 66]; [67]], b').
Proof.
  destruct (trun 0 (fun _ => []) (busy_day (encode [65; 66]) (encode [67]) 6) two_sockets) as [[T | f] |] eqn:E; [| by vm_compute in E | by vm_compute in E].
  pose proof (busy_day_regular (encode [65; 66]) (encode [67]) 6 T ltac:(by vm_compute) ltac:(by vm_compute) E) as R.
  assert (Hv : wire_of 5 (wire (t_net T)) = [2; 0; 0; 0; 65; 66; 1; 0; 0] /\ closed (t_net T) = [6] /\
    concat (sent_bytes 1 <$> sent (t_em T)) = concat (encode <$> [[65; 66]; [67]])) by (vm_compute in E; injection E as <-; by vm_compute). clear E.
  destruct Hv as (Hw & Hc & Hh).
  assert (Hopen : ~ closed_since 5 two_sockets T).
  { intros (l & El & Hin). rewrite Hc in El. cbn in El. subst l. by apply list_elem_of_singleton in Hin. }
  assert (Hch : Forall (fun c => 0 < zlen c <= READ_BUFFER_INITIAL) [[2; 0; 0]; [0; 65; 66; 1]])
    by (repeat constructor; vm_compute; congruence).
  assert (Hb : Forall (fun b => zlen b <= kMaxMessageLen) [[65; 66]; [67]])
    by (do 2 (apply Forall_cons_2; [by vm_compute; congruence |]); apply Forall_nil_2).
  assert (Hp : concat [[2; 0; 0]; [0; 65; 66; 1]] `prefix_of` wire_of 5 (wire (t_net T))) by (rewrite Hw; by exists [0; 0]).
  pose proof (services_to_actor 0 (fun _ => []) 1 1 5 two_sockets T wire_node 0 wire_socket [[65; 66]; [67]]
    [[2; 0; 0]; [0; 65; 66; 1]] 0 demo_ctx two_sockets_up eq_refl R Hopen Hh Hb (conj Hp Hch) eq_refl eq_refl eq_refl wire_addressed eq_refl eq_refl) as H.
  cbv zeta in H. destruct H as (k & Hk & Hd & _).
  assert (Ep : exists q, push_all (data_message 0 wire_socket <$> take k [[65; 66]; [67]]) (c_queue demo_ctx) = Some q).
  { destruct k as [| [| [| k]]]; eexists; vm_compute; reflexivity. }
  destruct Ep as [q Ep]. rewrite Ep in Hd. destruct Hd as (nd' & b' & E1 & E2).
  rewrite length_fmap, length_take in E2. change (length [[65; 66]; [67]]) with 2%nat in E2, Hk.
  exists T, k, nd', b'. split; [exact R |]. split; [exact Hw |]. split; [exact E1 |]. split; [exact Hk |].
  rewrite Nat.min_l in E2 by exact Hk. exact E2.
Defined.
