(* ===== verification/GprofHelper.v ===== *)
(** * gprof-helper.c: a thread that inherits the profiling timer

    The library interposed before [pthread_create]: the new thread is started on a
    wrapper, whose data are on the creator's stack; the creator waits until the
    thread has taken what it needs.  A step is one access of a thread to the data
    or one call on the mutex or the condition variable. *)
From S2P Require Import Prelude.

(** [wrapper_t] without the two locks. *)
Record wrapper_s := Wrapper {
  start_routine : Z;
  arg : Z;
  itimer : Z;
}.

Inductive who := Creator | Thread.

(** The mutex: free, held, or destroyed with the frame. *)
Inductive mutex := Unlocked | Locked (w : who) | Destroyed.

(** The creator, before each call of [pthread_create]. *)
Inductive cpc :=
  | CInit | CCreate | CWait | CBlocked | CRelock | CUnlock | CDestroyLock | CDestroyWait | CReturn | CReturned.

(** The thread in [wrapper_routine], with the variables it has set. *)
Inductive tpc :=
  | TRoutine | TArg (f : Z) | TTimer (f a : Z) | TLock (f a : Z) | TSignal (f a : Z) | TUnlock (f a : Z) | TRun (f a : Z).

Record gprof := Gprof {
  g_data : option wrapper_s;
  g_lock : mutex;
  g_creator : cpc;
  g_thread : option tpc;
  g_timer : option Z;
}.

(** The static pointer to the real function after the library is loaded, or the
    text printed before [exit]; [dlsym] and [dlerror] are what those return. *)
Definition wooinit {F} (dlsym : option F) (dlerror : option string) : F + string :=
  match dlsym with
  | Some f => inl f
  | None => inr (default "pthread_create is NULL"%string dlerror)
  end.

Inductive gaction := GCreator | GThread | GSpurious.

Section GprofHelper.
  (** The arguments of the call, the creator's timer, the result of the real
      [pthread_create]. *)
  Variables (f a timer i_return : Z).

Definition with_creator (g : gprof) (l : mutex) (c : cpc) : gprof := Gprof (g_data g) l c (g_thread g) (g_timer g).
Definition with_thread (g : gprof) (l : mutex) (t : tpc) : gprof := Gprof (g_data g) l (g_creator g) (Some t) (g_timer g).

(** Locking: blocks when the mutex is held, is undefined when it is destroyed. *)
Definition lock_then (g : gprof) (k : outcome gprof) : option (outcome gprof) :=
  match g_lock g with Unlocked => Some k | Locked _ => None | Destroyed => Some (Fault UseAfterFree) end.

(** [pthread_create]; the steps at [CBlocked] are the signaller's, or a spurious
    wake-up's.  Destroying a mutex that is held is undefined. *)
Definition creator_step (g : gprof) : option (outcome gprof) :=
  match g_creator g with
  | CInit => Some (Ok (Gprof (Some (Wrapper f a timer)) (Locked Creator) CCreate (g_thread g) (g_timer g)))
  | CCreate =>
    Some (Ok (if i_return =? 0
              then Gprof (g_data g) (g_lock g) CWait (Some TRoutine) (g_timer g)
              else with_creator g (g_lock g) CUnlock))
  | CWait => Some (Ok (with_creator g Unlocked CBlocked))
  | CBlocked => None
  | CRelock => lock_then g (Ok (with_creator g (Locked Creator) CUnlock))
  | CUnlock => Some (Ok (with_creator g Unlocked CDestroyLock))
  | CDestroyLock =>
    Some (match g_lock g with Locked _ => Fault UseAfterFree | _ => Ok (with_creator g Destroyed CDestroyWait) end)
  | CDestroyWait => Some (Ok (with_creator g (g_lock g) CReturn))
  | CReturn => Some (Ok (Gprof None (g_lock g) CReturned (g_thread g) (g_timer g)))
  | CReturned => None
  end.

(** [wrapper_routine], up to the call of the real function. *)
Definition thread_step (g : gprof) (t : tpc) : option (outcome gprof) :=
  let data := match g_data g with Some w => Ok w | None => Fault UseAfterFree end in
  match t with
  | TRoutine => Some (w ← data; mret (with_thread g (g_lock g) (TArg (start_routine w))))
  | TArg f => Some (w ← data; mret (with_thread g (g_lock g) (TTimer f (arg w))))
  | TTimer f a => Some (w ← data; mret (Gprof (g_data g) (g_lock g) (g_creator g) (Some (TLock f a)) (Some (itimer w))))
  | TLock f a =>
    match data with
    | Ok _ => lock_then g (Ok (with_thread g (Locked Thread) (TSignal f a)))
    | Fault e => Some (Fault e)
    end
  | TSignal f a =>
    Some (_ ← data; mret (Gprof (g_data g) (g_lock g)
      (match g_creator g with CBlocked => CRelock | c => c end) (Some (TUnlock f a)) (g_timer g)))
  | TUnlock f a => Some (_ ← data; mret (with_thread g Unlocked (TRun f a)))
  | TRun _ _ => None
  end.

Definition gexec (x : gaction) (g : gprof) : option (outcome gprof) :=
  match x with
  | GCreator => creator_step g
  | GThread => match g_thread g with Some t => thread_step g t | None => None end
  | GSpurious => match g_creator g with CBlocked => Some (Ok (with_creator g (g_lock g) CRelock)) | _ => None end
  end.

Fixpoint grun (xs : list gaction) (g : gprof) : option (outcome gprof) :=
  match xs with
  | [] => Some (Ok g)
  | x :: xs => match gexec x g with Some (Ok g') => grun xs g' | r => r end
  end.

(** What both do when no wake-up is spurious. *)
Inductive gnext (g : gprof) : gprof -> Prop :=
  | GNext x g' : x <> GSpurious -> gexec x g = Some (Ok g') -> gnext g g'.

Definition gstart : gprof := Gprof None Destroyed CInit None None.

(** ** Without spurious wake-ups *)

Definition before_lock (t : tpc) (timed : option Z) : Prop :=
  match t with
  | TRoutine => timed = None
  | TArg f' => f' = f /\ timed = None
  | TTimer f' a' => f' = f /\ a' = a /\ timed = None
  | TLock f' a' => f' = f /\ a' = a /\ timed = Some timer
  | _ => False
  end.

(** Where both can be at the same time, and who holds the mutex. *)
Definition phase (g : gprof) : Prop :=
  match g_creator g with
  | CInit => g_thread g = None /\ g_timer g = None
  | CCreate => g_data g = Some (Wrapper f a timer) /\ g_lock g = Locked Creator /\ g_thread g = None /\ g_timer g = None
  | CWait => i_return = 0 /\ g_data g = Some (Wrapper f a timer) /\ g_lock g = Locked Creator /\
      exists t, g_thread g = Some t /\ before_lock t (g_timer g)
  | CBlocked => i_return = 0 /\ g_data g = Some (Wrapper f a timer) /\
      exists t, g_thread g = Some t /\
        ((before_lock t (g_timer g) /\ g_lock g = Unlocked) \/ (t = TSignal f a /\ g_timer g = Some timer /\ g_lock g = Locked Thread))
  | CRelock => i_return = 0 /\ g_data g = Some (Wrapper f a timer) /\ g_timer g = Some timer /\
      ((g_thread g = Some (TUnlock f a) /\ g_lock g = Locked Thread) \/ (g_thread g = Some (TRun f a) /\ g_lock g = Unlocked))
  | c => (if i_return =? 0 then g_thread g = Some (TRun f a) /\ g_timer g = Some timer else g_thread g = None) /\
      match c with CUnlock => g_lock g = Locked Creator | CDestroyLock => g_lock g = Unlocked | _ => True end
  end.

(** All positions of the two threads, one by one. *)
Ltac positions :=
  cbn [g_creator g_thread g_data g_lock g_timer before_lock] in *;
  repeat (match goal with
    | _ => progress subst
    | H : context [?x =? 0] |- _ => destruct (Z.eqb_spec x 0)
    | H : exists _, _ |- _ => destruct H
    | H : _ /\ _ |- _ => destruct H
    | H : _ \/ _ |- _ => destruct H
    | H : Some _ = Some _ |- _ => injection H as H
    | H : Ok _ = Ok _ |- _ => injection H as H
    end; cbn in *); subst; try done.

Ltac settled :=
  cbn; try match goal with |- context [?x =? 0] => destruct (Z.eqb_spec x 0) end; positions;
  repeat split; try done; try (eexists; split; [done |]); cbn; auto 10.

Lemma phase_next g g' : phase g -> gnext g g' -> phase g'.
Proof.
  intros P N. revert P. destruct N as [x g' Hx E]. destruct g as [d l c t tm]. unfold phase. intros P.
  destruct x; [| | done]; cbn [gexec g_thread] in E.
  - unfold creator_step, lock_then in E. destruct c; positions; try cbn in E; positions; settled.
  - unfold thread_step, lock_then in E. destruct t as [[] |], c; positions; try cbn in E; positions; settled.
Qed.

(** Nothing is used after its time. *)
Lemma phase_no_fault g x e : phase g -> x <> GSpurious -> gexec x g <> Some (Fault e).
Proof.
  intros P Hx E. destruct g as [d l c t tm]. unfold phase in P. destruct x; [| | done]; cbn [gexec g_thread] in E.
  - unfold creator_step, lock_then in E. destruct c; positions.
  - unfold thread_step, lock_then in E. destruct t as [[] |], c; positions.
Qed.

(** Both at their ends, or one can go on. *)
Definition handed_over (g : gprof) : Prop :=
  g_creator g = CReturned /\ g_data g = None /\
  if i_return =? 0 then g_thread g = Some (TRun f a) /\ g_timer g = Some timer else g_thread g = None.

Lemma phase_progress g : phase g -> (exists g', gnext g g') \/ g_creator g = CReturned.
Proof.
  intros P. destruct (decide (gexec GCreator g = None)) as [E | E].
  - destruct g as [d l c t tm]. unfold phase in P. cbn in E. unfold creator_step, lock_then in E.
    destruct c; positions; try (by right); left.
    + destruct x; cbn in *; try done; eexists; by apply (GNext _ GThread).
    + eexists. by apply (GNext _ GThread).
    + eexists. by apply (GNext _ GThread).
  - left. destruct (gexec GCreator g) as [[g' | e] |] eqn:E'; [by exists g'; apply (GNext _ GCreator) | | done].
    by destruct (phase_no_fault g GCreator e P).
Qed.

Definition creator_rank (c : cpc) : nat :=
  match c with
  | CInit => 9 | CCreate => 8 | CWait => 7 | CBlocked => 6 | CRelock => 5 | CUnlock => 4 | CDestroyLock => 3 | CDestroyWait => 2
  | CReturn => 1 | CReturned => 0
  end.

Definition thread_rank (c : cpc) (t : option tpc) : nat :=
  match t with
  | None => match c with CInit | CCreate => 7 | _ => 0 end
  | Some TRoutine => 6 | Some (TArg _) => 5 | Some (TTimer _ _) => 4 | Some (TLock _ _) => 3 | Some (TSignal _ _) => 2
  | Some (TUnlock _ _) => 1 | Some (TRun _ _) => 0
  end.

Definition grank (g : gprof) : nat := creator_rank (g_creator g) + thread_rank (g_creator g) (g_thread g).

Lemma grank_next g g' : phase g -> gnext g g' -> (grank g' < grank g)%nat.
Proof.
  intros P N. revert P. destruct N as [x g' Hx E]. destruct g as [d l c t tm]. unfold phase, grank. intros P.
  destruct x; [| | done]; cbn [gexec g_thread] in E.
  - unfold creator_step, lock_then in E. destruct c; positions; cbn; lia.
  - unfold thread_step, lock_then in E. destruct t as [[] |], c; positions; cbn; lia.
Qed.
End GprofHelper.

Section reachable.
  Variables f a timer i_return : Z.

Lemma phase_reachable k g : nsteps (gnext f a timer i_return) k gstart g -> phase f a timer i_return g /\ (k + grank g <= 16)%nat.
Proof.
  assert (G : forall g0, phase f a timer i_return g0 -> nsteps (gnext f a timer i_return) k g0 g ->
    phase f a timer i_return g /\ (k + grank g <= grank g0)%nat).
  { intros g0 P R. induction R as [g0 | k g0 g1 g2 N _ IH]; [by split; [| lia] |].
    pose proof (grank_next _ _ _ _ _ _ P N). destruct IH as [P2 Hr]; [by eapply phase_next |]. split; [done | lia]. }
  intros R. by apply (G gstart); [by repeat split | done].
Qed.

(** C38: the new thread gets what its creator gave.  Unless a wake-up is spurious,
    no step of the two threads, in any interleaving, uses the wrapper's data after
    the creator's frame is gone, nor a destroyed mutex; after at most 16 steps
    both are done: the creator returns what the real [pthread_create] returned,
    and if that is 0 the new thread runs the routine with its argument and the
    creator's profiling timer. *)
Theorem gprof_hands_over k g :
  nsteps (gnext f a timer i_return) k gstart g ->
  (k <= 16)%nat /\
  (forall x e, x <> GSpurious -> gexec f a timer i_return x g <> Some (Fault e)) /\
  ((exists g', gnext f a timer i_return g g') \/ g_creator g = CReturned /\
   if i_return =? 0 then g_thread g = Some (TRun f a) /\ g_timer g = Some timer else g_thread g = None).
Proof.
  intros R. destruct (phase_reachable _ _ R) as [P Hk]. split; [lia |]. split; [intros x e; by apply phase_no_fault |].
  destruct (phase_progress _ _ _ _ _ P) as [N | Ec]; [by left | right]. split; [done |]. unfold phase in P. rewrite Ec in P. apply P.
Qed.
End reachable.

Definition inherited : list gaction :=
  [GCreator; GCreator; GThread; GCreator; GThread; GThread; GThread; GThread; GThread; GCreator; GCreator; GCreator; GCreator; GCreator].

Lemma grun_sound f a timer i_return xs g g' : Forall (fun x => x <> GSpurious) xs ->
  grun f a timer i_return xs g = Some (Ok g') -> nsteps (gnext f a timer i_return) (length xs) g g'.
Proof.
  intros Hx. revert g. induction Hx as [| x xs Hx _ IH]; intros g E; cbn [grun] in E; [injection E as <-; constructor |].
  destruct (gexec f a timer i_return x g) as [[g1 | e] |] eqn:Ex; try done. cbn [length]. eapply nsteps_l; [by econstructor | by apply IH].
Qed.

Lemma gprof_hands_over_witness :
  exists g, nsteps (gnext 100 7 5000 0) 14 gstart g /\ (14 <= 16)%nat /\ g_creator g = CReturned /\
    g_thread g = Some (TRun 100 7) /\ g_timer g = Some 5000.
Proof.
  destruct (grun 100 7 5000 0 inherited gstart) as [[g | e] |] eqn:E; [| by vm_compute in E | by vm_compute in E].
  assert (R : nsteps (gnext 100 7 5000 0) (length inherited) gstart g) by (apply grun_sound; [by repeat constructor | exact E]).
  cbn [length inherited] in R. exists g. destruct (gprof_hands_over 100 7 5000 0 14 g R) as (Hk & _ & [[g' N] | [Ec Ht]]).
  - exfalso. vm_compute in E. injection E as <-. destruct N as [[] g' Hx N]; by vm_compute in N.
  - split; [exact R |]. split; [exact Hk |]. split; [exact Ec | exact Ht].
Defined.

(** [pthread_cond_wait] may return without a signal, and nothing is tested after
    it: then the creator's frame is gone and the new thread reads the wrapper's
    data from it. *)
Theorem gprof_spurious_wakeup :
  grun 100 7 5000 0 [GCreator; GCreator; GCreator; GSpurious; GCreator; GCreator; GCreator; GCreator; GCreator; GThread] gstart =
    Some (Fault UseAfterFree).
Proof. reflexivity. Qed.
